(* ===== verification/_CoqProject ===== *)
-Q . S2P
Prelude.v
CMem.v
XhUtil.v
XhUtilProps.v
XhElfReloc.v
XhElfRelocProps.v
XhElfPacked.v
XhElfLocal.v
XhElfTypes.v
XhElfHash.v
XhElfInit.v
XhElfHook.v
Sample.v
XhElfHashProps.v
XhElfInitProps.v
XhElfHookProps.v
XhElfHookAll.v
XhCore.v
XhCoreProps.v
XhAsync.v
RbTree.v
RbTreeRep.v
RbTreeColor.v
RbTreeProps.v
RbTreeMap.v
Tailq.v
TailqProps.v
X86Spec.v
X86Tables.v
X86Decode.v
X86Props.v
X86Correct.v
X86Rip.v
DobbyBits.v
DobbyMem.v
DobbyMemProps.v
DobbyAlloc.v
A64Asm.v
A64Reloc.v
A64Spec.v
A64Layout.v
A64Bind.v
A64Sim.v
A64Run.v
A64RelocProps.v
DobbyHook.v
A64Type.v
DobbyHookProps.v
Instrument.v
A64Frame.v
InstrumentCode.v
InstrumentRun.v
InstrumentProps.v
X64Spec.v
X64Reloc.v
X64Props.v
X64Hook.v
JniSig.v
JniSigProps.v
MemFile.v
MemFileProps.v
FileHook.v
FileHookProps.v
DlOpen.v
DlOpenProps.v
SymResolver.v
SymResolverProps.v
