(* ===== verification/Prelude.v ===== *)
(** * Verification of the native core of android_analysis

    The repository hooks functions of a running Android process and looks at
    what they do.  Its own machinery is native code, and this development models
    six parts of it, statement by statement, as executable definitions:

    - libxhook (src/app/src/main/cpp/libxhook): PLT hooks.  It reads the ELF
      images that are mapped in the process, finds the relocation slots of a
      symbol and overwrites them.
    - the x86 instruction decoder that Dobby carries
      (dobby/source/InstructionRelocation/x86/x86_insn_decode).
    - Dobby's inline hooks for ARM64 (dobby/source): the first instructions of
      a function are moved elsewhere and replaced by a jump, to a function or to
      a closure that calls a handler with the registers; and the relocator
      and trampoline of its x64 build, on top of the decoder.
    - The names of Java methods (hook_jni/parse_java_sig.cpp and
      utils/str_helper.cpp): signatures, printed declarations and the mangled
      names of native methods.
    - The emulations of dlopen and dlsym (dlfc and byopen) and Dobby's symbol
      resolver, which find what the other parts hook.
    - The file hooks (hook_libc): calls of libc that libxhook leads here, which
      let a file be replaced by an object in memory or by none.

    ** Platform

    AArch64 with LP64 types and 4 KiB pages, Android, built as the repository
    does: LOGGING_DEBUG is off, so DCHECK and the logging are empty, and assert
    is on, so CHECK, FATAL, UNREACHABLE and UNIMPLEMENTED abort.  The x86
    decoder runs in 64-bit mode.  X64Reloc is of the build for x86-64 instead
    (TARGET_ARCH_X64), with the same memory and allocators.  A w-bit integer is a Z; the
    definitions wrap it where the C type does.

    ** Files and the code they model

    - Prelude (here): integers, lists, the state and error monad [CM] with its
      weakest-precondition rules and tactics, lists of pointers.  An outcome is a result or an
      error: [Segv] and [Aborted] end the process, [Undefined] is undefined
      behaviour of C, [OutOfFuel] is not an outcome of the code.
    - CMem: the byte-addressed memory with page permissions that all parts
      share, and the kernel's services as the class [Kernel].
    - XhUtil, XhElfReloc, XhElfTypes, XhElfHash, XhElfInit, XhElfHook: xh_util.c,
      xh_elf.h and xh_elf.c.  XhCore: xh_core.c; XhAsync: its refresh thread, as a
      transition system.  Proofs in XhUtilProps, XhElfRelocProps, XhElfPacked,
      XhElfLocal, XhElfHashProps, XhElfInitProps, XhElfHookProps, XhElfHookAll,
      XhCoreProps and XhAsync; Sample is an ELF image for the witnesses.
    - RbTree, Tailq: the macros of tree.h and queue.h as xh_core.c instantiates
      them, on heaps of linked nodes, and the loops of xh_core.c over them.
      Proofs in RbTreeRep (trees in a heap, contexts of a node, rotations),
      RbTreeColor (the colour repairs), RbTreeProps (search, iteration, height),
      RbTreeMap (the trees as finite maps), TailqProps (queues as lists).
    - X86Spec, X86Tables, X86Decode: x86_insn_decode.h, the opcode tables, the
      reader and the decoder.  Proofs in X86Props, X86Correct and X86Rip.
    - DobbyBits: utility_macro.h and inst_decode_encode_kit.h.  DobbyMem:
      platform-posix.cc, code-patch-tool-posix.cc, ProcessRuntimeUtility.cc,
      MemoryAllocator.cc, NearMemoryAllocator.cc.  Proofs in DobbyMemProps, which
      states what mmap and mprotect promise ([OSLaws]) and, apart from it, that
      the process may change the permissions of its pages ([OSGrants]), and
      DobbyAlloc.
    - A64Asm: registers, operands, code buffer, labels, Assembler and
      TurboAssembler.  A64Reloc: InstructionRelocationARM64.cc and
      AssemblyCodeBuilder.cc.  A64Spec is not of the program: a reference
      decoder and semantics of the instructions concerned, after Arm's manual.
      Proofs in A64Layout (what the relocator emits), A64Bind (label binding),
      A64Sim and A64Run (what the emitted code does), A64RelocProps (in memory),
      A64Type (the assembler's invariant).
    - DobbyHook: trampoline_arm64.cc, near_trampoline_arm64.cc, the routing
      classes, Interceptor.cpp, DobbyHook and DobbyDestroy.  Proofs in
      DobbyHookProps.
    - Instrument: DobbyInstrument, its routing, ClosureTrampolineARM64.cc,
      closure_bridge_arm64.cc and the C functions behind the bridge.  A64Frame is
      not of the program: the instructions that work on the stack, as an instance
      of A64Spec, and an evaluator of straight-line code with its soundness.
      Proofs in InstrumentCode (the words, and what the bridge does to the
      registers), InstrumentRun (a machine that runs trampoline and bridge) and
      InstrumentProps (the process).
    - X64Reloc: InstructionRelocationX86Shared.cc, InstructionRelocationX64.cc,
      codegen-x64.cc, trampoline_x64.cc.  X64Spec is a reference decoder and
      machine after Intel's manual.  Proofs in X64Props (the relocator) and
      X64Hook (the trampoline, concrete runs).
    - JniSig: parse_java_sig.cpp and str_helper.cpp, with the operations of
      std::string they use.  Proofs in JniSigProps.
    - MemFile: filter.h, as a type class of the object behind a file, and
      memory_file.h.  Proofs in MemFileProps, which states what a file is.
      FileHook: file_hook.h over any filter, base_hook.cpp, file_hook.cpp.
      Proofs in FileHookProps.
    - DlOpen: dlfcn_nougat.cpp and byopen_android.c, with files and mmap as the
      class [Files].  Proofs in DlOpenProps, which states what an ELF file says
      about its symbols.
    - SymResolver: the list of modules of ProcessRuntimeUtility.cc and
      dobby_symbol_resolver.cc, over the same class.  Proofs in SymResolverProps.

    ** How the parts are put together

    The state of libxhook's ELF code is the memory, that of xh_core.c a record
    of its static variables and the memory, that of Dobby a record of the memory
    and its singletons.  Operations are programs of the monad [CM] over that
    state, composed as the C code composes them; [on_memory] runs one over the
    larger state.  The assembler is a local object of its callers and has a
    state of its own, run by [run_asm].  Instrumentation adds its closures and
    routings to Dobby's state ([instruments], [on_dobby]).  The state of the file hooks is the record
    [world]: the registry of handles, the objects by their address, what is
    registered, libc and the memory; a method of an object runs on its filter,
    libc and the memory ([menv]).  Pointers to labels and arenas are
    indices into the lists of the objects.  XhCore has finite maps and lists where
    the code has a red-black tree and tail queues; RbTreeMap and TailqProps prove
    that the linked structures of RbTree and Tailq implement exactly these
    ([tree_map], [tq_list]), without touching anything else, so XhCore is proved
    against the abstract containers.  Operating system, C library, heap
    and regular expressions are type classes and parameters ([Kernel], [OS],
    [Files], [Libc], [Heap], [Jni], [Process], the context of XhCore); their documented behaviour is assumed by classes of laws
    ([OSLaws], [FilesLaws], [OpenLaw] and others) and the witnesses instantiate
    them with concrete functions.  [OSGrants] is a condition instead: the hooks
    of Dobby are installed in a process that the system lets make its pages
    executable; DobbyHook_refuses, about the others, does without it.

    ** What is proved

    - libxhook: initialisation never faults but by SIGSEGV, never writes, and
      what it accepts is described by the file; both hash lookups equal a linear
      search; the packed relocation iterator enumerates the format; a hook
      redirects every slot of the symbol and changes nothing else, whatever is
      read while slots are written; permissions are put back.  The registry
      calls it for exactly the hooks that are asked for, survives SIGSEGV, and
      an idle refresh does nothing.  The refresh thread misses no request, and
      the join of it returns unless a refresh goes on for ever, as it does on a
      cyclic hash chain.
    - Containers: the red-black tree implements a finite map ordered by strcmp,
      insertion and deletion keep it a red-black search tree, whose height is
      logarithmic; iteration visits the keys in order and may free what it
      visits; the two trees of a refresh update the map.  The tail queue
      macros are the operations of lists.
    - x86 decoder: it is total on twenty readable bytes, its length agrees with
      the instruction format where the tables do and no operand-size prefix is
      there, and its exceptions are delimited.
    - Dobby: blocks handed out never overlap, whatever runs in between (but near
      blocks in an unused region can replace a page, near_arena_clobbers), and
      near blocks are in reach; the relocated code simulates the code it was made
      from, instruction by instruction, for every machine state, as far as the
      instructions are [portable] (A64Run: no use of X17, no B.AL or B.NV, of the
      literal loads the 64-bit one); the trampoline goes to its target, where that
      is in the reach of its adrp ([adrp_reaches]), and spoils X17 only; DobbyHook composes all of it, and
      DobbyDestroy undoes it; the relocator keeps the assembler well-formed and
      aborts exactly at the loads it does not know.  A machine that comes to an
      instrumented address calls the handler with its registers in memory and
      goes on, with those that the handler leaves there, at a copy of the
      instructions.
    - x64: the relocator ends and its code for plain instructions and relative
      jumps takes every machine where the original would; the trampoline reaches
      any address.
    - Java names: the parser of signatures accepts exactly the strings of
      parameter descriptors (V and a class without a name among them), returns
      them but for the brackets of arrays of objects, and ends; printing and mangling are undone by the parsers; the conversion to
      types ends exactly for the classes without underscores.
    - File hooks: a memory file of two bytes or more refines a file given by its
      bytes and a position, also through the hooked functions of stdio, for
      seeks from the start within its first length and items of one byte; a file
      that is not hooked is passed to libc as it is, but for the mode of
      O_TMPFILE; every handle of the registry has its own live
      object, whatever is called.
    - Fake dlopen: for a well-formed file, loaded as a loader does it
      ([loaded_segment]), both libraries give the address of the first symbol of
      a name, the one if its text is in the first segment, the other if its text
      is as far behind the start in memory as in the file; and closing leaves the
      memory as it was.
    - Symbol resolver: it returns the address that the tables of the modules'
      files say, in the order of the modules, and leaves nothing mapped.

    Lemmas that refute a property at a concrete input (adrp_trampoline_overflows,
    near_arena_clobbers, DobbyDestroy_leaves_trampoline, match_check_suppresses,
    x64_jcc_never_branches, x64_call_returns_to_data, x64_rip_displacement,
    object_arrays_lost, leading_underscore_misread, hex_digits_lost, fgets_stays,
    write_overrun, empty_file_stuck, tmpfile_mode_lost, hash_chain_cycle,
    void_parameter_accepted, operand_size_length, none_not_hidden, open_dereferences_fd, end_reaches_libc,
    second_registration, own_segment_missed, import_found, stale_module_resolved,
    mmap_failure_crashes and their neighbours)
    record where the code does not do what it means to.

    ** Bounds and fuel

    Loops over memory or text run on fuel: the length of the text for
    /proc/self/maps, the buffer size for the relocation loop, whose every
    iteration advances by four bytes, the number of entries for tables.  The
    theorems give results and not only partial correctness, so the fuel is
    enough for the inputs they allow.  The relocation theorem asks for fewer than
    2^20 bytes of relocated code within a page of origin, the reach of a literal
    load; DobbyHook relocates sixteen bytes at most.  The x64 relocator starts
    again with sixteen bytes more until its code fits; [try_fuel] is enough as an
    instruction becomes eighteen bytes at most.  Splitting and replacing run on
    the length of the text; conv_sig_2_args_type, which need not end, takes its
    fuel as an argument.  The loops of tree.h and queue.h take the number of
    nodes of the heap and one more, as every step follows a link to another node.  A memory file of the theorems stays below 2^29 bytes,
    where its sizes fit an int.

    ** Not modelled

    - Of libxhook: the dumps of XH_ELF_DEBUG and XH_CORE_DEBUG, the exported
      wrappers of xhook.c, log, version and JNI glue, failing allocations, and
      what tree.h and queue.h define but nothing instantiates: splay trees, the
      SLIST, LIST and STAILQ macros, the FOREACH_FROM macros.
      One client thread calls the library; the maps do not change during a
      refresh.  xh_core_add_sigsegv_handler gives sigaction a structure whose
      sa_flags nothing sets; the model takes them for 0.
    - Of the x86 decoder: the SSE group tables, which it stops before.
    - Of Dobby: 32-bit ARM and x86, the closures of other architectures, the
      full floating-point pack of the bridge, OSMemory::Free and Release, threads,
      logging.
    - Of the file hooks: directories (empty bodies, installed nowhere),
      only_watch.cpp, which prints arguments, and the locks: one thread calls.
      file_hook deletes its filter through a class without a virtual destructor,
      which is taken to free it.  On arm64 no descriptor of a memory file comes
      into being, as open crashes first; the calls on one are of the code for
      other platforms too.
    - The rest of the repository: jsoncpp and tinyxml2 are vendored; the JNI hooks
      call the Java environment and print, the TLS hook and the sniffer write
      what they see.  The Java calls by which byopen loads a library are
      parameters of its model. *)

From Stdlib Require Export ZArith Lia.
From stdpp Require Export base tactics option list numbers gmap strings.

#[export] Set Default Goal Selector "!".

Open Scope Z_scope.

(** ** Machine integers

    A w-bit C integer is a [Z]; unsigned arithmetic wraps explicitly. *)

Definition wrap (w z : Z) : Z := z mod 2 ^ w.

Abbreviation u8 := (wrap 8).
Abbreviation u16 := (wrap 16).
Abbreviation u32 := (wrap 32).
Abbreviation u64 := (wrap 64).

(** The two's complement reading of the low [w] bits. *)
Definition sint (w z : Z) : Z :=
  if decide (2 ^ (w - 1) ≤ wrap w z) then wrap w z - 2 ^ w else wrap w z.

Declare Scope cint_scope.
Delimit Scope cint_scope with cint.
Infix "⊕" := (λ a b : Z, wrap 64 (a + b)) (at level 50, left associativity) : cint_scope.
Infix "⊖" := (λ a b : Z, wrap 64 (a - b)) (at level 50, left associativity) : cint_scope.
Infix "&" := Z.land (at level 45, left associativity) : cint_scope.
Infix ".|" := Z.lor (at level 47, left associativity) : cint_scope.
Infix ">>" := Z.shiftr (at level 44, left associativity) : cint_scope.
Infix "<<" := Z.shiftl (at level 44, left associativity) : cint_scope.

(** A C condition [if (x)] on an integer. *)
Definition truthy (z : Z) : bool := negb (z =? 0).

Lemma truthy_false z : truthy z = false ↔ z = 0.
Proof. unfold truthy. by rewrite negb_false_iff, Z.eqb_eq. Qed.

Lemma truthy_true z : truthy z = true ↔ z ≠ 0.
Proof. unfold truthy. by rewrite negb_true_iff, Z.eqb_neq. Qed.

Lemma wrap_range w z : 0 ≤ w → 0 ≤ wrap w z < 2 ^ w.
Proof. intros. unfold wrap. apply Z.mod_pos_bound. lia. Qed.

Lemma wrap_small w z : 0 ≤ z < 2 ^ w → wrap w z = z.
Proof. apply Z.mod_small. Qed.

Lemma wrap_idem w z : 0 ≤ w → wrap w (wrap w z) = wrap w z.
Proof. intros. apply wrap_small, wrap_range; lia. Qed.

Lemma wrap_add_l w a b : wrap w (wrap w a + b) = wrap w (a + b).
Proof. unfold wrap. apply Zplus_mod_idemp_l. Qed.

Lemma wrap_add_r w a b : wrap w (a + wrap w b) = wrap w (a + b).
Proof. unfold wrap. apply Zplus_mod_idemp_r. Qed.

Lemma wrap_sub_l w a b : wrap w (wrap w a - b) = wrap w (a - b).
Proof. apply Zminus_mod_idemp_l. Qed.

Lemma wrap_sub_r w a b : wrap w (a - wrap w b) = wrap w (a - b).
Proof. apply Zminus_mod_idemp_r. Qed.

Lemma wrap_mul_r w a b : wrap w (a * wrap w b) = wrap w (a * b).
Proof. unfold wrap. apply Zmult_mod_idemp_r. Qed.

Lemma wrap_land_ones w z : 0 ≤ w → wrap w z = Z.land z (Z.ones w).
Proof. intros. unfold wrap. by rewrite Z.land_ones. Qed.

Lemma wrap_add_mult w z k : wrap w (z + k * 2 ^ w) = wrap w z.
Proof. unfold wrap. apply Z_mod_plus_full. Qed.

Create Rewrite HintDb wrapdb.
#[export] Hint Rewrite wrap_add_l wrap_add_r wrap_mul_r : wrapdb.
#[export] Hint Rewrite wrap_idem using lia : wrapdb.

Lemma u8_range z : 0 ≤ u8 z < 256.
Proof. apply (wrap_range 8). lia. Qed.
Lemma u16_range z : 0 ≤ u16 z < 65536.
Proof. apply (wrap_range 16). lia. Qed.
Lemma u32_range z : 0 ≤ u32 z < 4294967296.
Proof. apply (wrap_range 32). lia. Qed.
Lemma u64_range z : 0 ≤ u64 z < 18446744073709551616.
Proof. apply (wrap_range 64). lia. Qed.

(** [wrap_bounds] puts the range of every wrapped value of the goal and the
    hypotheses into the context, for [lia]. *)
Ltac wrap_bounds :=
  repeat match goal with
  | |- context [wrap 8 ?z] =>
      lazymatch goal with _ : 0 ≤ u8 z < 256 |- _ => fail | _ => pose proof (u8_range z) end
  | |- context [wrap 16 ?z] =>
      lazymatch goal with _ : 0 ≤ u16 z < 65536 |- _ => fail | _ => pose proof (u16_range z) end
  | |- context [wrap 32 ?z] =>
      lazymatch goal with _ : 0 ≤ u32 z < 4294967296 |- _ => fail | _ => pose proof (u32_range z) end
  | |- context [wrap 64 ?z] =>
      lazymatch goal with
      | _ : 0 ≤ u64 z < 18446744073709551616 |- _ => fail
      | _ => pose proof (u64_range z) end
  end.

Lemma sint_small n k : 0 < n → - 2 ^ (n - 1) ≤ k < 2 ^ (n - 1) → sint n k = k.
Proof.
  intros Hn Hk. unfold sint, wrap.
  assert (E : 2 ^ n = 2 * 2 ^ (n - 1)) by (rewrite <- Z.pow_succ_r by lia; f_equal; lia).
  destruct (decide (0 ≤ k)).
  - rewrite Z.mod_small by lia. by rewrite decide_False by lia.
  - replace (k mod 2 ^ n) with (k + 2 ^ n); [rewrite decide_True by lia; lia|].
    rewrite <- (Z_mod_plus_full k 1), Z.mul_1_l, Z.mod_small by lia. done.
Qed.
Lemma sint_wrap n k : 0 ≤ n → sint n (wrap n k) = sint n k.
Proof. intros Hn. unfold sint. by rewrite wrap_idem. Qed.

Lemma lor_shift_add v x s : 0 ≤ s → 0 ≤ v < 2 ^ s → 0 ≤ x → Z.lor v (Z.shiftl x s) = v + x * 2 ^ s.
Proof.
  intros Hs Hv Hx. rewrite <- Z.shiftl_mul_pow2 by done. symmetry. apply Z.add_nocarry_lor.
  apply Z.bits_inj_0. intros n. rewrite Z.land_spec.
  destruct (Z.ltb_spec n 0); [by rewrite Z.testbit_neg_r|].
  destruct (Z.ltb_spec n s).
  - rewrite (Z.shiftl_spec_low x s n), andb_false_r by lia. done.
  - rewrite (proj1 (Z.bounded_iff_bits_nonneg s v ltac:(lia) ltac:(lia)) (proj2 Hv) n) by lia. done.
Qed.

(** Evaluate the tests a conditional makes on known values. *)
Ltac eval_tests :=
  repeat match goal with
  | |- context [if ?b then _ else _] => first [change b with true | change b with false]; cbn iota
  end.

(** ** Lists of pointers *)

Definition NULL : Z := 0.

(** The first and the last pointer of a list, NULL if there is none. *)
Definition first (l : list Z) : Z := default NULL (head l).
Definition last_of (l : list Z) : Z := default NULL (last l).

Lemma first_app l m : l ≠ [] → first (l ++ m) = first l.
Proof. by destruct l. Qed.

Lemma last_of_snoc l x : last_of (l ++ [x]) = x.
Proof. unfold last_of. by rewrite last_snoc. Qed.

Lemma last_of_app l m : m ≠ [] → last_of (l ++ m) = last_of m.
Proof.
  intros Hm. destruct (@exists_last _ m Hm) as (m' & x & ->). by rewrite app_assoc, !last_of_snoc.
Qed.

Lemma NoDup_split {A} (l1 l2 m1 m2 : list A) x :
  NoDup (l1 ++ x :: l2) → l1 ++ x :: l2 = m1 ++ x :: m2 → l1 = m1 ∧ l2 = m2.
Proof.
  revert m1. induction l1 as [|a l1 IH]; intros [|b m1]; simpl; intros Hn Heq; simplify_eq; try done.
  - apply NoDup_cons in Hn as [Hx _]. destruct Hx. apply elem_of_app. right. by apply elem_of_cons; left.
  - apply NoDup_cons in Hn as [Hx _]. destruct Hx. apply elem_of_app. right. by apply elem_of_cons; left.
  - apply NoDup_cons in Hn as [_ Hn]. destruct (IH m1) as [-> ->]; done.
Qed.

(** [NoDup] of a list of lists and elements, as facts on its parts, and the
    goals on membership that follow from them. *)
Lemma disj_app_r {A} (l m n : list A) :
  (∀ z, z ∈ l → z ∉ m ++ n) → (∀ z, z ∈ l → z ∉ m) ∧ (∀ z, z ∈ l → z ∉ n).
Proof. intros H. split; intros z Hz Hm; apply (H z Hz), elem_of_app; auto. Qed.
Lemma disj_app_l {A} (l m n : list A) :
  (∀ z, z ∈ l ++ m → z ∉ n) → (∀ z, z ∈ l → z ∉ n) ∧ (∀ z, z ∈ m → z ∉ n).
Proof. intros H. split; intros z Hz; apply H, elem_of_app; auto. Qed.
Lemma disj_cons_r {A} (l n : list A) (x : A) :
  (∀ z, z ∈ l → z ∉ x :: n) → x ∉ l ∧ (∀ z, z ∈ l → z ∉ n).
Proof. intros H. split; [intros Hx; apply (H x Hx)|intros z Hz Hn; apply (H z Hz)]; apply elem_of_cons; auto. Qed.
Lemma disj_cons_l {A} (l n : list A) (x : A) :
  (∀ z, z ∈ x :: l → z ∉ n) → x ∉ n ∧ (∀ z, z ∈ l → z ∉ n).
Proof. intros H. split; [|intros z Hz]; apply H, elem_of_cons; auto. Qed.

Ltac nodup_split :=
  repeat match goal with
  | H : NoDup (_ ++ _) |- _ => apply NoDup_app in H as (? & ? & ?)
  | H : NoDup (_ :: _) |- _ => apply NoDup_cons in H as [? ?]
  | H : _ ∉ _ ++ _ |- _ => apply not_elem_of_app in H as [? ?]
  | H : _ ∉ _ :: _ |- _ => apply not_elem_of_cons in H as [? ?]
  | H : ∀ z, z ∈ _ → z ∉ _ ++ _ |- _ => apply disj_app_r in H as [? ?]
  | H : ∀ z, z ∈ _ ++ _ → z ∉ _ |- _ => apply disj_app_l in H as [? ?]
  | H : ∀ z, z ∈ _ → z ∉ _ :: _ |- _ => apply disj_cons_r in H as [? ?]
  | H : ∀ z, z ∈ _ :: _ → z ∉ _ |- _ => apply disj_cons_l in H as [? ?]
  end.

Ltac elem_split :=
  repeat match goal with
  | H : _ ∈ _ ++ _ |- _ => apply elem_of_app in H as [H|H]
  | H : _ ∈ _ :: _ |- _ => apply elem_of_cons in H as [H|H]
  | H : _ ∈ [] |- _ => by apply elem_of_nil in H
  end; subst.

Ltac elem_leaf :=
  lazymatch goal with
  | |- _ ≠ _ => let H := fresh in intros H; first [congruence | subst; elem_false]
  | |- _ ∉ _ => let H := fresh in first [assumption | by apply not_elem_of_nil | intros H; elem_false]
  | |- _ ∈ _ => repeat (rewrite elem_of_app || rewrite elem_of_cons); tauto
  end
with elem_false :=
  match goal with
  | H : ?x ≠ ?x |- _ => by destruct H
  | H : ?x ∈ ?l, H' : ?x ∉ ?l |- _ => destruct (H' H)
  | H : ?x ∈ ?l, H1 : ?x ∈ ?m, H' : ∀ z, z ∈ ?l → z ∉ ?m |- _ => destruct (H' x H H1)
  end.

(** Goals of distinctness, membership, inclusion and [NoDup]. *)
Ltac elem_solve :=
  intros; nodup_split;
  repeat match goal with
  | |- _ ∉ _ ++ _ => apply not_elem_of_app; split
  | |- _ ∉ _ :: _ => apply not_elem_of_cons; split
  | |- _ ⊆ _ => intros ? ?
  | |- NoDup (_ ++ _) => apply NoDup_app; split_and!; [|intros ? ?|]
  | |- NoDup (_ :: _) => apply NoDup_cons; split
  | |- NoDup [] => apply NoDup_nil_2
  end; try done; elem_split; try done; elem_leaf.

(** ** The effect monad

    C code that reads and writes a state [S] and can fail.  A failure keeps
    the state it happened in, because the code under study catches SIGSEGV
    with [siglongjmp] and goes on with the memory as it is. *)

Inductive fault : Set :=
  | Segv        (* SIGSEGV: an access to a page that does not allow it *)
  | Aborted     (* assert(0), reached through FATAL *)
  | Undefined   (* an operation C leaves undefined *)
  | OutOfFuel.  (* the model's loop bound was reached *)

#[export] Instance fault_eq_dec : EqDecision fault.
Proof. solve_decision. Defined.

Inductive outcome (A : Type) : Type :=
  | Ret (a : A)
  | Err (f : fault).
Arguments Ret {A} a.
Arguments Err {A} f.

Definition CM (S A : Type) : Type := S → outcome A * S.

#[export] Instance CM_ret S : MRet (CM S) := λ A a s, (Ret a, s).
#[export] Instance CM_bind S : MBind (CM S) := λ A B f m s,
  match m s with
  | (Ret a, s') => f a s'
  | (Err e, s') => (Err e, s')
  end.

Definition fail {S A} (e : fault) : CM S A := λ s, (Err e, s).
Definition get {S} : CM S S := λ s, (Ret s, s).
Definition put {S} (s : S) : CM S unit := λ _, (Ret tt, s).
Definition gets {S A} (f : S → A) : CM S A := λ s, (Ret (f s), s).
Definition modify {S} (f : S → S) : CM S unit := λ s, (Ret tt, f s).
(** A pure fallible computation, lifted. *)
Definition lift_opt {S A} (e : fault) (o : option A) : CM S A :=
  match o with Some a => mret a | None => fail e end.
Definition when {S} (b : bool) (m : CM S unit) : CM S unit :=
  if b then m else mret tt.

Section monad_laws.
Context {S : Type}.

Lemma CM_left_id {A B} (a : A) (f : A → CM S B) s : (mret a ≫= f) s = f a s.
Proof. done. Qed.

Lemma CM_right_id {A} (m : CM S A) s : (m ≫= mret) s = m s.
Proof. unfold mbind, CM_bind. destruct (m s) as [[a|e] s']; done. Qed.

Lemma CM_assoc {A B C} (m : CM S A) (f : A → CM S B) (g : B → CM S C) s :
  ((m ≫= f) ≫= g) s = (m ≫= λ a, f a ≫= g) s.
Proof. unfold mbind, CM_bind. destruct (m s) as [[a|e] s']; done. Qed.

Lemma CM_bind_Ret {A B} (m : CM S A) (f : A → CM S B) s a s' :
  m s = (Ret a, s') → (m ≫= f) s = f a s'.
Proof. unfold mbind, CM_bind. by intros ->. Qed.

Lemma CM_bind_Err {A B} (m : CM S A) (f : A → CM S B) s e s' :
  m s = (Err e, s') → (m ≫= f) s = (Err e, s').
Proof. unfold mbind, CM_bind. by intros ->. Qed.

Lemma CM_bind_modify {B} (f : S → S) (k : unit → CM S B) s : (modify f ≫= k) s = k tt (f s).
Proof. done. Qed.

Lemma CM_bind_gets {A B} (f : S → A) (k : A → CM S B) s : (gets f ≫= k) s = k (f s) s.
Proof. done. Qed.
Lemma CM_bind_get {B} (k : S → CM S B) s : (get ≫= k) s = k s s.
Proof. done. Qed.
Lemma CM_bind_put {B} t (k : unit → CM S B) s : (put t ≫= k) s = k tt t.
Proof. done. Qed.

Lemma CM_bind_inv {A B} (m : CM S A) (f : A → CM S B) s b s'' :
  (m ≫= f) s = (Ret b, s'') → ∃ a s', m s = (Ret a, s') ∧ f a s' = (Ret b, s'').
Proof. unfold mbind, CM_bind. destruct (m s) as [[a|e] s']; naive_solver. Qed.

Lemma run_fst {A} (x : outcome A * S) o : x.1 = o → x = (o, x.2).
Proof. destruct x. simpl. by intros ->. Qed.

End monad_laws.

(** *** Computations that leave the state alone *)

Class ReadOnly {S A} (m : CM S A) : Prop := readonly : ∀ s, (m s).2 = s.

Section readonly.
Context {S : Type}.

#[global] Instance readonly_ret {A} (a : A) : ReadOnly (S:=S) (mret a).
Proof. done. Qed.
#[global] Instance readonly_fail {A} e : ReadOnly (S:=S) (A:=A) (fail e).
Proof. done. Qed.
#[global] Instance readonly_get : ReadOnly (S:=S) get.
Proof. done. Qed.
#[global] Instance readonly_gets {A} (f : S → A) : ReadOnly (gets f).
Proof. done. Qed.
#[global] Instance readonly_lift_opt {A} e (o : option A) : ReadOnly (S:=S) (lift_opt e o).
Proof. by destruct o. Qed.
#[global] Instance readonly_bind {A B} (m : CM S A) (f : A → CM S B) :
  ReadOnly m → (∀ a, ReadOnly (f a)) → ReadOnly (m ≫= f).
Proof.
  intros Hm Hf s. unfold mbind, CM_bind. specialize (Hm s).
  destruct (m s) as [[a|e] s']; simpl in *; subst; [apply Hf|done].
Qed.
#[global] Instance readonly_when b (m : CM S unit) : ReadOnly m → ReadOnly (when b m).
Proof. by destruct b. Qed.

Lemma readonly_run {A} (m : CM S A) `{!ReadOnly m} s o s' : m s = (o, s') → s' = s.
Proof. intros H. pose proof (readonly (m:=m) s) as E. by rewrite H in E. Qed.

End readonly.

(** [solve_readonly] walks the syntax of a computation: binds, conditionals
    and matches, with the registered [ReadOnly] instances at the leaves. *)
Ltac solve_readonly :=
  repeat match goal with
  | |- ReadOnly (mbind _ _) => apply readonly_bind; [|intros]
  | |- ReadOnly (if ?b then _ else _) => destruct b
  | |- ReadOnly (match ?x with _ => _ end) => destruct x
  | |- ReadOnly (let (_, _) := ?x in _) => destruct x
  | |- ReadOnly _ => solve [assumption | typeclasses eauto]
  end.

(** [cm_inv] turns [(x ← m; k) s = (Ret v, s')] hypotheses into their parts. *)
Ltac cm_inv :=
  repeat match goal with
  | H : (_ ≫= _) _ = (Ret _, _) |- _ =>
      let a := fresh "a" in let t := fresh "s" in let H1 := fresh "H" in
      apply CM_bind_inv in H as (a & t & H1 & H)
  | H : mret _ _ = (Ret _, _) |- _ => injection H as <- <-
  | H : mret _ _ = (Ret _, _) |- _ => injection H as ? ?; subst
  | H : fail _ _ = (Ret _, _) |- _ => discriminate H
  end.

(** *** Computations that move the state along a preorder, however they end *)

Class Keeps {S A} (R : relation S) (m : CM S A) : Prop := keeps : ∀ s, R s (m s).2.

Section keeps.
Context {S : Type} (R : relation S) `{!PreOrder R}.

#[global] Instance keeps_readonly {A} (m : CM S A) : ReadOnly m → Keeps R m.
Proof. intros Hm s. by rewrite (Hm s). Qed.
#[global] Instance keeps_bind {A B} (m : CM S A) (f : A → CM S B) :
  Keeps R m → (∀ a, Keeps R (f a)) → Keeps R (m ≫= f).
Proof.
  intros Hm Hf s. unfold mbind, CM_bind. specialize (Hm s).
  destruct (m s) as [[a|e] s']; simpl in *; [etrans; [done|apply Hf]|done].
Qed.
#[global] Instance keeps_when b (m : CM S unit) : Keeps R m → Keeps R (when b m).
Proof. intros Hm. destruct b; [done|]. by intros s. Qed.

Lemma keeps_modify f : (∀ s, R s (f s)) → Keeps R (modify f).
Proof. intros Hf s. apply Hf. Qed.

Lemma keeps_run {A} (m : CM S A) `{!Keeps R m} s o s' : m s = (o, s') → R s s'.
Proof. intros H. pose proof (keeps s) as E. by rewrite H in E. Qed.

End keeps.

Ltac solve_keeps :=
  repeat match goal with
  | |- Keeps _ (mbind _ _) => apply keeps_bind; [apply _| |intros]
  | |- Keeps _ (if ?b then _ else _) => destruct b
  | |- Keeps _ (match ?x with _ => _ end) => destruct x
  | |- Keeps _ (let (_, _) := ?x in _) => destruct x
  | |- Keeps _ (let _ := _ in _) => cbv zeta
  | |- Keeps _ (modify _) => apply keeps_modify; intros; by repeat split
  | |- Keeps _ _ => solve [assumption | typeclasses eauto]
  end.

(** *** Weakest preconditions

    [wp m Q E s]: running [m] from [s] either returns with [Q] or fails with
    [E]. *)

Definition wp {S A} (m : CM S A) (Q : A → S → Prop) (E : fault → S → Prop) (s : S) : Prop :=
  match m s with
  | (Ret a, s') => Q a s'
  | (Err e, s') => E e s'
  end.

Section wp.
Context {S : Type}.
Implicit Types (s : S) (E : fault → S → Prop).

Lemma wp_ret {A} (a : A) Q E s : Q a s → wp (mret a) Q E s.
Proof. done. Qed.

Lemma wp_fail {A} e (Q : A → S → Prop) E s : E e s → wp (fail e) Q E s.
Proof. done. Qed.

Lemma wp_bind {A B} (m : CM S A) (f : A → CM S B) Q E s :
  wp m (λ a s', wp (f a) Q E s') E s → wp (m ≫= f) Q E s.
Proof. unfold wp, mbind, CM_bind. by destruct (m s) as [[a|e] s']. Qed.

Lemma wp_get Q E s : Q s s → wp get Q E s.
Proof. done. Qed.

Lemma wp_put t Q E s : Q tt t → wp (put t) Q E s.
Proof. done. Qed.

Lemma wp_gets {A} (f : S → A) Q E s : Q (f s) s → wp (gets f) Q E s.
Proof. done. Qed.

Lemma wp_modify f Q E s : Q tt (f s) → wp (modify f) Q E s.
Proof. done. Qed.

Lemma wp_when b (m : CM S unit) Q E s :
  (b = true → wp m Q E s) → (b = false → Q tt s) → wp (when b m) Q E s.
Proof. destruct b; intros H1 H2; [by apply H1|by apply (H2 eq_refl)]. Qed.

Lemma wp_if {A} (b : bool) (m1 m2 : CM S A) Q E s :
  (b = true → wp m1 Q E s) → (b = false → wp m2 Q E s) → wp (if b then m1 else m2) Q E s.
Proof. destruct b; eauto. Qed.

Lemma wp_lift_opt {A} e (o : option A) Q E s :
  (∀ a, o = Some a → Q a s) → (o = None → E e s) → wp (lift_opt e o) Q E s.
Proof. destruct o; intros H1 H2; [by apply H1|by apply (H2 eq_refl)]. Qed.

Lemma wp_mono {A} (m : CM S A) (Q Q' : A → S → Prop) E (E' : fault → S → Prop) s :
  wp m Q E s → (∀ a s', Q a s' → Q' a s') → (∀ e s', E e s' → E' e s') → wp m Q' E' s.
Proof. unfold wp. destruct (m s) as [[a|e] s']; eauto. Qed.

Lemma wp_wand {A} (m : CM S A) (Q Q' : A → S → Prop) E s :
  wp m Q E s → (∀ a s', Q a s' → Q' a s') → wp m Q' E s.
Proof. intros H HQ. eapply wp_mono; eauto. Qed.

Lemma wp_run {A} (m : CM S A) Q E s a s' : wp m Q E s → m s = (Ret a, s') → Q a s'.
Proof. unfold wp. intros H Hrun. by rewrite Hrun in H. Qed.

Lemma wp_conj {A} (m : CM S A) (Q Q' : A → S → Prop) E s :
  wp m Q E s → wp m Q' E s → wp m (λ a s', Q a s' ∧ Q' a s') E s.
Proof. unfold wp. destruct (m s) as [[a|e] s']; auto. Qed.

Lemma wp_of_run {A} (m : CM S A) (Q : A → S → Prop) E s a s' :
  m s = (Ret a, s') → Q a s' → wp m Q E s.
Proof. unfold wp. by intros ->. Qed.

End wp.

(** A computation that cannot fail returns. *)
Lemma wp_returns {S A} (m : CM S A) (Q : A → S → Prop) s :
  wp m Q (λ _ _, False) s → ∃ a s', m s = (Ret a, s') ∧ Q a s'.
Proof. unfold wp. destruct (m s) as [[a|e] s']; [eauto|done]. Qed.

Lemma wp_returns_eq {S A} (m : CM S A) a s :
  wp m (λ b s', b = a ∧ s' = s) (λ _ _, False) s → m s = (Ret a, s).
Proof. intros (b & s' & H & -> & ->)%wp_returns. done. Qed.

Lemma wp_seq {S A B C} (m : CM S A) (f : A → CM S B) (g : B → CM S C) Q E (s : S) :
  wp (a ← m; f a) (λ b s', wp (g b) Q E s') E s → wp (a ← m; b ← f a; g b) Q E s.
Proof. unfold wp, mbind, CM_bind. destruct (m s) as [[a|e] s1]; [|done]. by destruct (f a s1) as [[b|e] s2]. Qed.

(** [wp_go] steps through the syntax of a computation down to the calls of
    other operations, whose specifications are in the database [wp]. *)
Create HintDb wp.

Ltac wp_step :=
  lazymatch goal with
  | |- wp (mbind _ _) _ _ _ => apply wp_bind
  | |- wp (mret _) _ _ _ => apply wp_ret
  | |- wp (fail _) _ _ _ => apply wp_fail
  | |- wp get _ _ _ => apply wp_get
  | |- wp (put _) _ _ _ => apply wp_put
  | |- wp (gets _) _ _ _ => apply wp_gets
  | |- wp (modify _) _ _ _ => apply wp_modify
  | |- wp (when _ _) _ _ _ => apply wp_when; intros ?
  | |- wp (lift_opt _ _) _ _ _ => apply wp_lift_opt; intros
  | |- wp (if _ then _ else _) _ _ _ => apply wp_if; intros ?
  | |- wp (let _ := _ in _) _ _ _ => cbv zeta
  end.
Ltac wp_go := repeat (wp_step; cbv beta).

(** *** Relational frames

    [Preserves R m]: [m] never fails and moves the state along the preorder
    [R].  Used with [R] saying which parts of the state stay as they are. *)

Class Preserves {S A} (R : relation S) (m : CM S A) : Prop :=
  preserves : ∀ s, wp m (λ _ s', R s s') (λ _ _, False) s.

Section preserves.
Context {S : Type} (R : relation S) `{!PreOrder R}.

Lemma wp_preserves {A} (m : CM S A) `{!Preserves R m} (Q : A → S → Prop) E s :
  (∀ a s', R s s' → Q a s') → wp m Q E s.
Proof. intros HQ. eapply wp_mono; [apply preserves|intros; by apply HQ|done]. Qed.

#[global] Instance preserves_ret {A} (a : A) : Preserves R (mret a).
Proof. intros s. by apply wp_ret. Qed.

#[global] Instance preserves_bind {A B} (m : CM S A) (f : A → CM S B) :
  Preserves R m → (∀ a, Preserves R (f a)) → Preserves R (m ≫= f).
Proof.
  intros ? ? s. apply wp_bind, (wp_preserves m). intros a s' Hs'.
  apply (wp_preserves (f a)). intros. by etrans.
Qed.

#[global] Instance preserves_when b (m : CM S unit) : Preserves R m → Preserves R (when b m).
Proof. intros ?. destruct b; [done|]. apply preserves_ret. Qed.

#[global] Instance preserves_if {A} (b : bool) (m1 m2 : CM S A) :
  Preserves R m1 → Preserves R m2 → Preserves R (if b then m1 else m2).
Proof. by destruct b. Qed.

Lemma preserves_modify f : (∀ s, R s (f s)) → Preserves R (modify f).
Proof. intros Hf s. by apply wp_modify. Qed.

End preserves.
