(* ===== verification/CMem.v ===== *)
(** * The address space of the process

    Byte-addressed memory with page permissions, the loads and stores of C
    code as monadic operations that fault with SIGSEGV, and the two services of
    the kernel the hook library relies on: mprotect and /proc/self/maps. *)

From S2P Require Import Prelude.

#[local] Open Scope cint_scope.

(** ** Memory *)

(** Pages are 4 KiB; a page without an entry in [m_prot] is not mapped.  The
    instruction cache flushes are recorded in [m_flushed], newest first. *)
Record memory : Set := Memory {
  m_data : gmap Z Z;
  m_prot : gmap Z Z;
  m_flushed : list (Z * Z)
}.

Definition PAGE_SIZE : Z := 4096.
Definition PAGE_MASK : Z := Z.lnot (PAGE_SIZE - 1).
Definition PROT_READ : Z := 1.
Definition PROT_WRITE : Z := 2.
Definition PROT_EXEC : Z := 4.

Definition prot_at (m : memory) (a : Z) : Z := default 0 (m_prot m !! (a / PAGE_SIZE)).
Definition byte_allows (p : Z) (m : memory) (a : Z) : bool := truthy (prot_at m a & p).
(** Every byte of [a, a + n) is on a page with permission [p]. *)
Fixpoint allows (p : Z) (n : nat) (a : Z) (m : memory) : bool :=
  match n with
  | O => true
  | S n => byte_allows p m a && allows p n (a + 1) m
  end.

Definition byte_of (m : memory) (a : Z) : Z := u8 (default 0 (m_data m !! a)).
(** The [n]-byte little-endian number at [a]. *)
Fixpoint number_of (m : memory) (n : nat) (a : Z) : Z :=
  match n with
  | O => 0
  | S n => byte_of m a + 256 * number_of m n (a + 1)
  end.

(** The memory with [n] little-endian bytes of [v] stored at [a]. *)
Fixpoint write_data (n : nat) (a v : Z) (d : gmap Z Z) : gmap Z Z :=
  match n with
  | O => d
  | S n => <[a := u8 v]> (write_data n (a + 1) (v / 256) d)
  end.
Definition write_number (n : nat) (a v : Z) (m : memory) : memory :=
  Memory (write_data n a v (m_data m)) (m_prot m) (m_flushed m).

Definition load (n : nat) (a : Z) : CM memory Z := λ m,
  if allows PROT_READ n a m then (Ret (number_of m n a), m) else (Err Segv, m).
Definition store (n : nat) (a v : Z) : CM memory unit := λ m,
  if allows PROT_WRITE n a m then (Ret tt, write_number n a v m) else (Err Segv, m).

Abbreviation load8 := (load 1).
Abbreviation load16 := (load 2).
Abbreviation load32 := (load 4).
Abbreviation load64 := (load 8).

(** [strcmp(s, (char * )a) == 0], reading the string at [a] up to the first
    difference. *)
Fixpoint strcmp_eq (s : list Z) (a : Z) : CM memory bool :=
  b ← load8 a;
  match s with
  | [] => mret (b =? 0)
  | c :: s => if b =? c then strcmp_eq s (a + 1) else mret false
  end.

(** ** Facts *)

Lemma byte_of_range m a : 0 ≤ byte_of m a < 256.
Proof. apply u8_range. Qed.

Lemma number_of_range m n a : 0 ≤ number_of m n a < 2 ^ (8 * Z.of_nat n).
Proof.
  revert a. induction n as [|n IH]; intros a; [simpl; lia|].
  simpl number_of. specialize (IH (a + 1)). pose proof (byte_of_range m a).
  replace (8 * Z.of_nat (S n)) with (8 * Z.of_nat n + 8) by lia.
  rewrite Z.pow_add_r by lia. change (2 ^ 8) with 256. lia.
Qed.

Lemma number_of_u32 m a : u32 (number_of m 4 a) = number_of m 4 a.
Proof. apply wrap_small, (number_of_range m 4). Qed.
Lemma number_of_u64 m a : u64 (number_of m 8 a) = number_of m 8 a.
Proof. apply wrap_small, (number_of_range m 8). Qed.

#[export] Instance load_readonly n a : ReadOnly (load n a).
Proof. intros m. unfold load. by destruct (allows _ _ _ _). Qed.
#[export] Instance strcmp_eq_readonly s a : ReadOnly (strcmp_eq s a).
Proof.
  revert a. induction s as [|c s IH]; intros a; simpl; solve_readonly.
Qed.

Lemma load_ok n a m : allows PROT_READ n a m = true → load n a m = (Ret (number_of m n a), m).
Proof. unfold load. by intros ->. Qed.

Lemma load_inv n a m v m' :
  load n a m = (Ret v, m') → allows PROT_READ n a m = true ∧ v = number_of m n a ∧ m' = m.
Proof. unfold load. destruct (allows _ _ _ _); naive_solver. Qed.

Lemma store_inv n a v m u m' :
  store n a v m = (Ret u, m') → allows PROT_WRITE n a m = true ∧ m' = write_number n a v m.
Proof. unfold store. destruct (allows _ _ _ _); naive_solver. Qed.

Lemma wp_load n a (Q : Z → memory → Prop) E m :
  (allows PROT_READ n a m = true → Q (number_of m n a) m) →
  (allows PROT_READ n a m = false → E Segv m) → wp (load n a) Q E m.
Proof. unfold wp, load. destruct (allows _ _ _ _); auto. Qed.

Lemma wp_store n a v (Q : unit → memory → Prop) E m :
  (allows PROT_WRITE n a m = true → Q tt (write_number n a v m)) →
  (allows PROT_WRITE n a m = false → E Segv m) → wp (store n a v) Q E m.
Proof. unfold wp, store. destruct (allows _ _ _ _); auto. Qed.

(** *** Reading what was written *)

Lemma write_data_lookup n a v d b :
  write_data n a v d !! b =
  if decide (a ≤ b < a + Z.of_nat n) then Some (u8 (v / 256 ^ (b - a))) else d !! b.
Proof.
  revert a v. induction n as [|n IH]; intros a v; simpl write_data.
  { case_decide; [lia|done]. }
  destruct (decide (b = a)) as [->|].
  { rewrite lookup_insert_eq, decide_True by lia. by rewrite Z.sub_diag, Z.div_1_r. }
  rewrite lookup_insert_ne, IH by done. case_decide as H1; case_decide as H2; try lia; [|done].
  rewrite Zdiv.Zdiv_Zdiv by lia. replace (b - a) with (Z.succ (b - (a + 1))) by lia.
  rewrite Z.pow_succ_r by lia. done.
Qed.

Lemma byte_of_write_ne n a v m b :
  b < a ∨ a + Z.of_nat n ≤ b → byte_of (write_number n a v m) b = byte_of m b.
Proof.
  intros Hb. unfold byte_of. simpl. rewrite write_data_lookup. case_decide; [lia|done].
Qed.

Lemma number_of_ext m m' n a :
  (∀ b, a ≤ b < a + Z.of_nat n → byte_of m' b = byte_of m b) → number_of m' n a = number_of m n a.
Proof.
  revert a. induction n as [|n IH]; intros a H; simpl; [done|].
  rewrite H, IH by (intros; apply H; lia) || lia. done.
Qed.

Lemma number_of_write_ne k a v m n b :
  b + Z.of_nat n ≤ a ∨ a + Z.of_nat k ≤ b → number_of (write_number k a v m) n b = number_of m n b.
Proof. intros Hd. apply number_of_ext. intros c Hc. apply byte_of_write_ne. lia. Qed.

Lemma number_of_write_gen n k a v m i :
  (k ≤ n)%nat → 0 ≤ i → i + Z.of_nat k = Z.of_nat n →
  number_of (write_number n a v m) k (a + i) = (v / 256 ^ i) mod 256 ^ Z.of_nat k.
Proof.
  revert i. induction k as [|k IH]; intros i Hk Hi Hik; [by rewrite Z.mod_1_r|].
  simpl number_of. replace (a + i + 1) with (a + (i + 1)) by lia. rewrite IH by lia.
  unfold byte_of. simpl. rewrite write_data_lookup, decide_True by lia.
  simpl. rewrite wrap_idem by lia. replace (a + i - a) with i by lia.
  unfold wrap. change (2 ^ 8) with 256. rewrite Z.pow_add_r, <- Zdiv.Zdiv_Zdiv by lia.
  change (256 ^ 1) with 256. set (x := v / 256 ^ i).
  replace (Z.of_nat (S k)) with (1 + Z.of_nat k) by lia. rewrite Z.pow_add_r by lia.
  change (256 ^ 1) with 256. rewrite Z.rem_mul_r by lia. lia.
Qed.

Lemma number_of_write_eq n a v m :
  number_of (write_number n a v m) n a = v mod 256 ^ Z.of_nat n.
Proof.
  pose proof (number_of_write_gen n n a v m 0) as H. rewrite Z.add_0_r in H.
  rewrite H by lia. by rewrite Z.div_1_r.
Qed.

Lemma allows_write p n a m k b v : allows p n a (write_number k b v m) = allows p n a m.
Proof. revert a. induction n as [|n IH]; intros a; simpl; [done|]. by rewrite IH. Qed.

Lemma allows_all p n a m :
  (∀ b, a ≤ b < a + Z.of_nat n → byte_allows p m b = true) → allows p n a m = true.
Proof.
  revert a. induction n as [|n IH]; intros a H; [done|]. cbn [allows].
  rewrite H, IH by (intros; apply H; lia) || lia. done.
Qed.

Lemma allows_elim p n a m b :
  allows p n a m = true → a ≤ b < a + Z.of_nat n → byte_allows p m b = true.
Proof.
  revert a. induction n as [|n IH]; intros a H Hb; [lia|]. cbn [allows] in H.
  apply andb_true_iff in H as [Ha H]. destruct (decide (b = a)) as [->|]; [done|].
  apply (IH (a + 1)); [done|lia].
Qed.

(** ** The kernel *)

(** [mprotect(a, len, prot)] on whole pages. *)
Definition set_prot (a len prot : Z) (m : memory) : memory :=
  Memory (m_data m)
    (foldr (λ i pm, <[a / PAGE_SIZE + Z.of_nat i := prot]> pm) (m_prot m)
       (seq 0 (Z.to_nat (len / PAGE_SIZE))))
    (m_flushed m).

(** The operating system as the library sees it: [k_mprotect] gives the result
    of the call, errno and the memory after it; [k_maps] the text of
    /proc/self/maps, or [None] where it cannot be opened. *)
Class Kernel : Type := {
  k_mprotect : memory → Z → Z → Z → Z * Z * memory;
  k_maps : memory → option (list Z)
}.

(** What the manual promises of mprotect. *)
Class KernelLaws (K : Kernel) : Prop := {
  k_mprotect_ok m a len prot e m' :
    k_mprotect m a len prot = (0, e, m') → m' = set_prot a len prot m;
  k_mprotect_data m a len prot r e m' :
    k_mprotect m a len prot = (r, e, m') → m_data m' = m_data m ∧ m_flushed m' = m_flushed m
}.

(** A kernel that grants every request, with a fixed map. *)
Definition granting_kernel (maps : option (list Z)) : Kernel := {|
  k_mprotect m a len prot := (0, 0, set_prot a len prot m);
  k_maps _ := maps
|}.
#[export] Instance granting_kernel_laws maps : KernelLaws (granting_kernel maps).
Proof. split; simpl; intros; naive_solver. Qed.

(** A kernel whose mprotect always fails with EACCES. *)
Definition refusing_kernel (maps : option (list Z)) : Kernel := {|
  k_mprotect m a len prot := (-1, 13, m);
  k_maps _ := maps
|}.
#[export] Instance refusing_kernel_laws maps : KernelLaws (refusing_kernel maps).
Proof. split; simpl; intros; naive_solver. Qed.

Lemma foldr_insert_lookup (p : Z) base (l : list nat) pm k :
  foldr (λ i pm, <[base + Z.of_nat i := p]> pm) pm l !! k =
  if decide (k - base ∈ Z.of_nat <$> l) then Some p else (pm : gmap Z Z) !! k.
Proof.
  induction l as [|i l IH]; [done|]. rewrite fmap_cons. cbn [foldr].
  destruct (decide (k = base + Z.of_nat i)) as [->|].
  { rewrite lookup_insert_eq, decide_True; [done|]. rewrite elem_of_cons. left. lia. }
  rewrite lookup_insert_ne, IH by done. apply decide_ext. rewrite elem_of_cons. intuition lia.
Qed.

(** The permission of an address after a page-aligned mprotect. *)
Lemma prot_at_set_prot a len prot m b :
  a mod PAGE_SIZE = 0 → len mod PAGE_SIZE = 0 →
  prot_at (set_prot a len prot m) b = if decide (a ≤ b < a + len) then prot else prot_at m b.
Proof.
  unfold PAGE_SIZE. intros Ha Hl. unfold prot_at, set_prot. simpl. rewrite foldr_insert_lookup.
  assert (b / PAGE_SIZE - a / PAGE_SIZE ∈ Z.of_nat <$> seq 0 (Z.to_nat (len / PAGE_SIZE)) ↔ a ≤ b < a + len)
    as Hiff.
  { rewrite list_elem_of_fmap. unfold PAGE_SIZE. split.
    - intros (i & Hi & Hin%elem_of_seq). Z.to_euclidean_division_equations. lia.
    - intros Hb. exists (Z.to_nat (b / 4096 - a / 4096)).
      rewrite elem_of_seq. Z.to_euclidean_division_equations. lia. }
  destruct (decide (a ≤ b < a + len)) as [Hd|Hd].
  - rewrite decide_True by by apply Hiff. done.
  - rewrite decide_False by by rewrite Hiff. done.
Qed.
