(* ===== verification/XhUtil.v ===== *)
(** * xh_util.c: page permissions

    The parser of /proc/self/maps behind xh_util_get_mem_protect, with the C
    library calls it is made of, and the wrappers around mprotect and the
    instruction cache. *)

From S2P Require Import Prelude CMem.

#[local] Open Scope cint_scope.

(** ** Error codes (xh_errno.h) *)

Definition XH_ERRNO_UNKNOWN : Z := 1001.
Definition XH_ERRNO_INVAL : Z := 1002.
Definition XH_ERRNO_NOMEM : Z := 1003.
Definition XH_ERRNO_REPEAT : Z := 1004.
Definition XH_ERRNO_NOTFND : Z := 1005.
Definition XH_ERRNO_BADMAPS : Z := 1006.
Definition XH_ERRNO_FORMAT : Z := 1007.
Definition XH_ERRNO_ELFINIT : Z := 1008.
Definition XH_ERRNO_SEGVERR : Z := 1009.

(** ** The C library calls on a text *)

(** [fgets(line, n + 1, fp)] on the unread bytes: the line and what is left. *)
Fixpoint fgets (n : nat) (text : list Z) : list Z * list Z :=
  match n, text with
  | O, _ => ([], text)
  | _, [] => ([], [])
  | S n, c :: text =>
      if c =? 10 then ([c], text)
      else let '(l, rest) := fgets n text in (c :: l, rest)
  end.

(** The lines [while(fgets(line, sizeof(line), fp))] sees. *)
Fixpoint fgets_all (fuel n : nat) (text : list Z) : list (list Z) :=
  match fuel, text with
  | S fuel, _ :: _ => let '(l, rest) := fgets n text in l :: fgets_all fuel n rest
  | _, _ => []
  end.

(** A buffer as a C string. *)
Fixpoint cstr (l : list Z) : list Z :=
  match l with
  | [] => []
  | c :: l => if c =? 0 then [] else c :: cstr l
  end.

Fixpoint strncmp_prefix (needle hay : list Z) : bool :=
  match needle, hay with
  | [], _ => true
  | _, [] => false
  | n :: needle, h :: hay => (n =? h) && strncmp_prefix needle hay
  end.

(** [strstr(hay, needle) != NULL] *)
Fixpoint strstr (hay needle : list Z) : bool :=
  strncmp_prefix needle hay ||
  match hay with
  | [] => false
  | _ :: hay => strstr hay needle
  end.

Definition isspace (c : Z) : bool := (c =? 32) || ((9 <=? c) && (c <=? 13)).

Fixpoint skip_space (l : list Z) : list Z :=
  match l with
  | [] => []
  | c :: l' => if isspace c then skip_space l' else l
  end.

Definition hex_digit (c : Z) : option Z :=
  if (48 <=? c) && (c <=? 57) then Some (c - 48)
  else if (97 <=? c) && (c <=? 102) then Some (c - 87)
  else if (65 <=? c) && (c <=? 70) then Some (c - 55)
  else None.

(** The digits from here on: their value, saturating as strtoumax does, and the
    rest of the input. *)
Fixpoint scan_digits (acc : Z) (l : list Z) : Z * list Z :=
  match l with
  | [] => (acc, [])
  | c :: l' =>
      match hex_digit c with
      | Some d => scan_digits (Z.min (2 ^ 64 - 1) (16 * acc + d)) l'
      | None => (acc, l)
      end
  end.

(** [%lx] *)
Definition scan_hex (l : list Z) : option (Z * list Z) :=
  let l := skip_space l in
  let '(neg, l) :=
    match l with
    | c :: l' => if c =? 45 then (true, l') else if c =? 43 then (false, l') else (false, l)
    | [] => (false, l)
    end in
  let l :=
    match l with
    | z :: x :: d :: l' =>
        if (z =? 48) && ((x =? 120) || (x =? 88)) && bool_decide (is_Some (hex_digit d))
        then d :: l' else l
    | _ => l
    end in
  match l with
  | c :: _ =>
      match hex_digit c with
      | Some _ =>
          let '(v, rest) := scan_digits 0 l in
          Some (if neg then u64 (- v) else v, rest)
      | None => None
      end
  | [] => None
  end.

(** [%4s] *)
Fixpoint take_token (n : nat) (l : list Z) : list Z :=
  match n, l with
  | S n, c :: l => if isspace c then [] else c :: take_token n l
  | _, _ => []
  end.

(** [sscanf(line, "%lx-%lx %4s ", &start, &end, perm) == 3] and what it stores. *)
Definition sscanf_maps (line : list Z) : option (Z * Z * list Z) :=
  match scan_hex line with
  | Some (start, c :: l) =>
      if c =? 45 then
        match scan_hex l with
        | Some (end_, l) =>
            match take_token 4 (skip_space l) with
            | [] => None
            | perm => Some (start, end_, perm)
            end
        | None => None
        end
      else None
  | _ => None
  end.

(** ** xh_util_get_mem_protect *)

(** [char perm[5]], not initialised. *)
Definition perm_uninit : list (option Z) := replicate 5 None.
Definition perm_store (token : list Z) (perm : list (option Z)) : list (option Z) :=
  (Some <$> token) ++ Some 0 :: drop (S (length token)) perm.
Definition perm_get (perm : list (option Z)) (i : nat) : outcome Z :=
  match perm !! i with
  | Some (Some c) => Ret c
  | _ => Err Undefined
  end.

(** The three permission bits of a line. *)
Definition perm_bits (r w x : Z) : Z :=
  (if r =? 114 then PROT_READ else 0) .| (if w =? 119 then PROT_WRITE else 0) .|
  (if x =? 120 then PROT_EXEC else 0).

(** The update of [*prot] for a line that covers [start_addr]. *)
Definition update_prot (load0 : bool) (prot r w x : Z) : Z :=
  if load0 then prot .| perm_bits r w x
  else
    let prot := if negb (r =? 114) then prot & Z.lnot PROT_READ else prot in
    let prot := if negb (w =? 119) then prot & Z.lnot PROT_WRITE else prot in
    if negb (x =? 120) then prot & Z.lnot PROT_EXEC else prot.

Definition obind {A B} (o : outcome A) (f : A → outcome B) : outcome B :=
  match o with Ret a => f a | Err e => Err e end.

(** The loop over the lines, until the end address is covered: [*prot] and
    [found_all]. *)
Fixpoint mem_protect_loop (lines : list (list Z)) (pathname : option (list Z))
    (start_addr end_addr : Z) (load0 : bool) (prot : Z) (perm : list (option Z))
  : outcome (Z * bool) :=
  match lines with
  | [] => Ret (prot, false)
  | line :: lines =>
      let line := cstr line in
      if match pathname with Some p => negb (strstr line p) | None => false end then
        mem_protect_loop lines pathname start_addr end_addr load0 prot perm
      else
        match sscanf_maps line with
        | None => mem_protect_loop lines pathname start_addr end_addr load0 prot perm
        | Some (start, end_, token) =>
            let perm := perm_store token perm in
            obind (perm_get perm 3) (λ p3,
            if negb (p3 =? 112) then
              mem_protect_loop lines pathname start_addr end_addr load0 prot perm
            else if (start <=? start_addr) && (start_addr <? end_) then
              obind (perm_get perm 0) (λ r,
              obind (perm_get perm 1) (λ w,
              obind (perm_get perm 2) (λ x,
              let prot := update_prot load0 prot r w x in
              if end_addr <=? end_ then Ret (prot, true)
              else mem_protect_loop lines pathname end_ end_addr false prot perm)))
            else mem_protect_loop lines pathname start_addr end_addr load0 prot perm)
        end
  end.

Definition lift_outcome {S A} (o : outcome A) : CM S A := λ s, (o, s).

(** The lines of /proc/self/maps, through a buffer of 512 bytes. *)
Definition maps_lines (text : list Z) : list (list Z) := fgets_all (length text) 511 text.

Section util.
Context {K : Kernel}.

(** Returns the error code and what [*prot] is left as. *)
Definition xh_util_get_mem_protect (addr len : Z) (pathname : option (list Z)) : CM memory (Z * Z) :=
  maps ← gets k_maps;
  match maps with
  | None => mret (XH_ERRNO_BADMAPS, 0)
  | Some text =>
      '(prot, found_all) ← lift_outcome (mem_protect_loop (maps_lines text) pathname addr
                             (addr ⊕ len) true 0 perm_uninit);
      mret (if found_all : bool then 0 else XH_ERRNO_SEGVERR, prot : Z)
  end.

Definition xh_util_get_addr_protect (addr : Z) (pathname : option (list Z)) : CM memory (Z * Z) :=
  xh_util_get_mem_protect addr 8 pathname.

Definition PAGE_START (addr : Z) : Z := addr & PAGE_MASK.
Definition PAGE_END (addr : Z) : Z := PAGE_START (addr ⊕ 8 ⊖ 1) ⊕ PAGE_SIZE.
Definition PAGE_COVER (addr : Z) : Z := PAGE_END addr ⊖ PAGE_START addr.

Definition xh_util_set_addr_protect (addr prot : Z) : CM memory Z :=
  m ← get;
  let '(r, errno, m') := k_mprotect m (PAGE_START addr) (PAGE_COVER addr) prot in
  put m';;
  mret (if negb (r =? 0) then (if errno =? 0 then XH_ERRNO_UNKNOWN else errno) else 0).

Definition xh_util_flush_instruction_cache (addr : Z) : CM memory unit :=
  modify (λ m, Memory (m_data m) (m_prot m) ((PAGE_START addr, PAGE_END addr) :: m_flushed m)).

End util.

(** A text as bytes. *)
Definition bytes_of_string (s : string) : list Z :=
  (Z.of_N ∘ Ascii.N_of_ascii) <$> String.list_ascii_of_string s.
Definition line_of (s : string) : list Z := bytes_of_string s ++ [10].
