(* ===== verification/XhUtilProps.v ===== *)
(** * Correctness of xh_util.c

    What the /proc/self/maps parser finds, and which pages and permissions
    xh_util_set_addr_protect touches. *)

From S2P Require Import Prelude CMem XhUtil.

#[local] Open Scope cint_scope.

(** ** The regions of a maps text *)

(** The private region a line describes, if the parser takes the line: its
    bounds and its read, write and execute letters. *)
Definition region (pathname : option (list Z)) (line : list Z) : option (Z * Z * (Z * Z * Z)) :=
  let line := cstr line in
  if match pathname with Some p => negb (strstr line p) | None => false end then None
  else
    match sscanf_maps line with
    | Some (a, b, [r; w; x; p]) => if p =? 112 then Some (a, b, (r, w, x)) else None
    | _ => None
    end.

(** Every line that parses has all four permission letters. *)
Definition line_wf (line : list Z) : bool :=
  match sscanf_maps (cstr line) with
  | Some (_, _, token) => (length token =? 4)%nat
  | None => true
  end.

(** [covered path e lines s p]: from [s] to [e] the regions of [lines], in
    their order, cover without a gap, and [p] is what all of them allow. *)
Inductive covered (path : option (list Z)) (e : Z) : list (list Z) → Z → Z → Prop :=
  | covered_skip l lines s p : covered path e lines s p → covered path e (l :: lines) s p
  | covered_last l lines s a b r w x :
      region path l = Some (a, b, (r, w, x)) → a ≤ s < b → e ≤ b →
      covered path e (l :: lines) s (perm_bits r w x)
  | covered_more l lines s a b r w x p :
      region path l = Some (a, b, (r, w, x)) → a ≤ s < b → b < e → covered path e lines b p →
      covered path e (l :: lines) s (perm_bits r w x & p).

(** *** Permission words *)

Lemma perm_bits_range r w x : 0 ≤ perm_bits r w x < 8.
Proof.
  unfold perm_bits. destruct (r =? 114), (w =? 119), (x =? 120); by vm_compute; split.
Qed.

Lemma update_prot_first r w x : update_prot true 0 r w x = perm_bits r w x.
Proof. done. Qed.

Lemma update_prot_next prot r w x :
  0 ≤ prot < 8 → update_prot false prot r w x = prot & perm_bits r w x.
Proof.
  intros Hp. assert (H : prot ∈ [0; 1; 2; 3; 4; 5; 6; 7]).
  { rewrite !elem_of_cons. lia. }
  unfold update_prot, perm_bits.
  destruct (r =? 114), (w =? 119), (x =? 120); simpl;
    rewrite !elem_of_cons in H;
    repeat (destruct H as [->|H]; [done|]); by apply elem_of_nil in H.
Qed.

Lemma land_lt8 p q : 0 ≤ p < 8 → 0 ≤ q < 8 → 0 ≤ Z.land p q < 8.
Proof.
  intros Hp Hq. split; [apply Z.land_nonneg; lia|].
  destruct (decide (Z.land p q = 0)) as [->|]; [lia|].
  apply (Z.log2_lt_pow2 _ 3); [pose proof (Z.land_nonneg p q); lia|].
  eapply Z.le_lt_trans; [apply Z.log2_land; lia|].
  assert (Hl : ∀ z, 0 ≤ z < 8 → Z.log2 z ≤ 2).
  { intros z Hz. apply (Z.log2_le_mono z 7); lia. }
  pose proof (Hl p Hp). lia.
Qed.

(** ** The loop *)

Lemma perm_get_store (r w x p : Z) perm :
  length perm = 5%nat →
  let perm' := perm_store [r; w; x; p] perm in
  perm_get perm' 0 = Ret r ∧ perm_get perm' 1 = Ret w ∧ perm_get perm' 2 = Ret x ∧
  perm_get perm' 3 = Ret p ∧ length perm' = 5%nat.
Proof.
  intros H. unfold perm_store. simpl. split_and!; [done..|]. rewrite length_drop. lia.
Qed.

(** One line of the loop, by its region. *)
Lemma mem_protect_loop_step line lines path s e load0 prot perm :
  line_wf line = true → length perm = 5%nat →
  ∃ perm', length perm' = 5%nat ∧
  mem_protect_loop (line :: lines) path s e load0 prot perm =
  match region path line with
  | Some (a, b, (r, w, x)) =>
      if (a <=? s) && (s <? b) then
        let prot := update_prot load0 prot r w x in
        if e <=? b then Ret (prot, true)
        else mem_protect_loop lines path b e false prot perm'
      else mem_protect_loop lines path s e load0 prot perm'
  | None => mem_protect_loop lines path s e load0 prot perm'
  end.
Proof.
  intros Hwf Hperm. cbn [mem_protect_loop]. unfold region, line_wf in *.
  destruct (match path with Some p => _ | None => _ end); [by exists perm|].
  destruct (sscanf_maps (cstr line)) as [[[a b] token]|]; [|by exists perm].
  apply Nat.eqb_eq in Hwf.
  destruct token as [|r [|w [|x [|p [|? ?]]]]]; try discriminate Hwf.
  destruct (perm_get_store r w x p perm Hperm) as (Hr & Hw & Hx & Hp & Hlen). cbv zeta.
  exists (perm_store [r; w; x; p] perm). split; [done|]. rewrite Hp. cbn [obind].
  destruct (p =? 112); [|done]. cbn [negb].
  destruct ((a <=? s) && (s <? b)); [|done]. by rewrite Hr, Hw, Hx.
Qed.

Lemma mem_protect_loop_next lines path s e prot perm p :
  forallb line_wf lines = true → length perm = 5%nat → 0 ≤ prot < 8 →
  mem_protect_loop lines path s e false prot perm = Ret (p, true) →
  ∃ q, covered path e lines s q ∧ p = prot & q.
Proof.
  revert s prot perm. induction lines as [|l lines IH]; intros s prot perm Hwf Hperm Hprot Hrun;
    [done|].
  simpl in Hwf. apply andb_true_iff in Hwf as [Hl Hwf].
  destruct (mem_protect_loop_step l lines path s e false prot perm Hl Hperm) as (perm' & Hp' & Hstep).
  rewrite Hstep in Hrun. clear Hstep.
  destruct (region path l) as [[[a b] [[r w] x]]|] eqn:Hreg.
  2: { destruct (IH _ _ _ Hwf Hp' Hprot Hrun) as (q & Hq & ->). exists q. split; [by constructor|done]. }
  destruct ((a <=? s) && (s <? b)) eqn:Hin.
  2: { destruct (IH _ _ _ Hwf Hp' Hprot Hrun) as (q & Hq & ->). exists q. split; [by constructor|done]. }
  rewrite andb_true_iff, Z.leb_le, Z.ltb_lt in Hin. cbv zeta in Hrun.
  rewrite update_prot_next in Hrun by done.
  destruct (Z.leb_spec e b).
  - injection Hrun as <-. eexists. split; [by eapply covered_last|done].
  - destruct (IH _ _ _ Hwf Hp' (land_lt8 _ _ Hprot (perm_bits_range r w x)) Hrun) as (q & Hq & ->).
    exists (perm_bits r w x & q). split; [by eapply covered_more|]. by rewrite Z.land_assoc.
Qed.

Lemma mem_protect_loop_sound lines path s e perm p :
  forallb line_wf lines = true → length perm = 5%nat →
  mem_protect_loop lines path s e true 0 perm = Ret (p, true) → covered path e lines s p.
Proof.
  revert perm. induction lines as [|l lines IH]; intros perm Hwf Hperm Hrun; [done|].
  simpl in Hwf. apply andb_true_iff in Hwf as [Hl Hwf].
  destruct (mem_protect_loop_step l lines path s e true 0 perm Hl Hperm) as (perm' & Hp' & Hstep).
  rewrite Hstep in Hrun. clear Hstep.
  destruct (region path l) as [[[a b] [[r w] x]]|] eqn:Hreg; [|by constructor; eapply IH].
  destruct ((a <=? s) && (s <? b)) eqn:Hin; [|by constructor; eapply IH].
  rewrite andb_true_iff, Z.leb_le, Z.ltb_lt in Hin. cbv zeta in Hrun.
  rewrite update_prot_first in Hrun. destruct (Z.leb_spec e b).
  - injection Hrun as <-. by eapply covered_last.
  - destruct (mem_protect_loop_next _ _ _ _ _ _ _ Hwf Hp' (perm_bits_range r w x) Hrun)
      as (q & Hq & ->). by eapply covered_more.
Qed.

(** Everything from the start to the end is in a region that allows [p]. *)
Lemma covered_regions path e lines s p :
  covered path e lines s p → ∀ x, s ≤ x < e →
  ∃ l a b r w c, l ∈ lines ∧ region path l = Some (a, b, (r, w, c)) ∧ a ≤ x < b ∧
    p & perm_bits r w c = p.
Proof.
  induction 1 as [l lines s p Hc IH|l lines s a b r w c Hreg Hin He
                 |l lines s a b r w c p Hreg Hin Hb Hc IH]; intros x Hx.
  - destruct (IH x Hx) as (l' & a & b & r & w & c & Hl & ?).
    exists l', a, b, r, w, c. split; [by constructor|done].
  - exists l, a, b, r, w, c. split_and!; [by constructor|done|lia|lia|apply Z.land_diag].
  - destruct (decide (x < b)) as [Hlt|].
    + exists l, a, b, r, w, c. split_and!; [by constructor|done|lia|lia|].
      by rewrite <- Z.land_assoc, (Z.land_comm p), Z.land_assoc, Z.land_diag.
    + destruct (IH x ltac:(lia)) as (l' & a' & b' & r' & w' & c' & Hl & Hr' & Hx' & Hp).
      exists l', a', b', r', w', c'. split_and!; [by constructor|done|lia|lia|].
      by rewrite <- Z.land_assoc, Hp.
Qed.

(** Lines that do not contain the start are passed over. *)
Lemma mem_protect_loop_skip lines l lines' path s e perm a b r w x :
  forallb line_wf (lines ++ l :: lines') = true → length perm = 5%nat →
  (∀ k, k ∈ lines → match region path k with Some (a, b, _) => ¬ (a ≤ s < b) | None => True end) →
  region path l = Some (a, b, (r, w, x)) → a ≤ s < b → e ≤ b →
  mem_protect_loop (lines ++ l :: lines') path s e true 0 perm = Ret (perm_bits r w x, true).
Proof.
  intros Hwf Hperm Hskip Hreg Hin He. revert perm Hperm.
  induction lines as [|k lines IH]; intros perm Hperm; cbn [app] in *; cbn [forallb] in Hwf;
    apply andb_true_iff in Hwf as [Hl Hwf].
  - destruct (mem_protect_loop_step l lines' path s e true 0 perm Hl Hperm) as (perm' & _ & ->).
    rewrite Hreg. destruct (Z.leb_spec a s); [|lia]. destruct (Z.ltb_spec s b); [|lia].
    cbv zeta. simpl. destruct (Z.leb_spec e b); [done|lia].
  - destruct (mem_protect_loop_step k (lines ++ l :: lines') path s e true 0 perm Hl Hperm)
      as (perm' & Hp' & ->).
    specialize (IH Hwf ltac:(intros; apply Hskip; by constructor) perm' Hp').
    specialize (Hskip k ltac:(by constructor)).
    destruct (region path k) as [[[a' b'] [[r' w'] x']]|]; [|done].
    destruct ((a' <=? s) && (s <? b')) eqn:E; [|done].
    rewrite andb_true_iff, Z.leb_le, Z.ltb_lt in E. lia.
Qed.

(** ** Pages *)

Lemma page_start_eq a : PAGE_START a = PAGE_SIZE * (a / PAGE_SIZE).
Proof.
  unfold PAGE_START, PAGE_MASK, PAGE_SIZE. change (4096 - 1) with (Z.ones 12).
  rewrite <- Z.ldiff_land, Z.ldiff_ones_r, Z.shiftl_mul_pow2, Z.shiftr_div_pow2 by lia.
  change (2 ^ 12) with 4096. lia.
Qed.

(** First and last page of the eight bytes at [a]. *)
Definition first_page (a : Z) : Z := PAGE_SIZE * (a / PAGE_SIZE).
Definition pages_end (a : Z) : Z := PAGE_SIZE * ((a + 7) / PAGE_SIZE) + PAGE_SIZE.

Lemma page_cover_eq a :
  0 ≤ a → a + 8 + PAGE_SIZE ≤ 2 ^ 64 →
  PAGE_START a = first_page a ∧ PAGE_COVER a = pages_end a - first_page a.
Proof.
  unfold PAGE_COVER, PAGE_END, first_page, pages_end. rewrite !page_start_eq.
  unfold PAGE_SIZE. intros Ha Hb. split; [done|].
  rewrite (wrap_small 64 (a + 8)), (wrap_small 64 (a + 8 - 1)) by lia.
  replace (a + 8 - 1) with (a + 7) by lia.
  pose proof (Z.div_mod a 4096). pose proof (Z.mod_pos_bound a 4096).
  pose proof (Z.div_mod (a + 7) 4096). pose proof (Z.mod_pos_bound (a + 7) 4096).
  rewrite (wrap_small 64 (4096 * ((a + 7) / 4096) + 4096)) by lia.
  apply wrap_small. lia.
Qed.

Lemma pages_aligned a : first_page a mod PAGE_SIZE = 0 ∧ (pages_end a - first_page a) mod PAGE_SIZE = 0.
Proof.
  unfold first_page, pages_end, PAGE_SIZE. split; [Z.to_euclidean_division_equations; lia|].
  replace (4096 * ((a + 7) / 4096) + 4096 - 4096 * (a / 4096))
    with (((a + 7) / 4096 + 1 - a / 4096) * 4096) by lia.
  apply Z_mod_mult.
Qed.

Lemma pages_cover a b : a ≤ b < a + 8 → first_page a ≤ b < pages_end a.
Proof. unfold first_page, pages_end, PAGE_SIZE. intros. Z.to_euclidean_division_equations. lia. Qed.

Section props.
Context {K : Kernel} {L : KernelLaws K}.

#[global] Instance get_mem_protect_readonly a n p : ReadOnly (xh_util_get_mem_protect a n p).
Proof.
  intros m. unfold xh_util_get_mem_protect, mbind, CM_bind, gets, lift_outcome.
  destruct (k_maps m) as [text|]; [|done].
  by destruct (mem_protect_loop _ _ _ _ _ _ _) as [[? ?]|].
Qed.

Lemma set_addr_protect_inv addr prot m r m' :
  xh_util_set_addr_protect addr prot m = (Ret r, m') →
  m_data m' = m_data m ∧ m_flushed m' = m_flushed m ∧
  (r = 0 → m' = set_prot (PAGE_START addr) (PAGE_COVER addr) prot m).
Proof.
  unfold xh_util_set_addr_protect, mbind, CM_bind, get.
  destruct (k_mprotect m (PAGE_START addr) (PAGE_COVER addr) prot) as [[ret errno] m1] eqn:Hk.
  unfold put, mret, CM_ret. intros H. injection H as Hr Hm. subst m1.
  destruct (k_mprotect_data _ _ _ _ _ _ _ Hk) as [? ?]. split_and!; [done..|].
  intros ->. destruct (Z.eqb_spec ret 0) as [->|]; [by eapply k_mprotect_ok|].
  simpl in Hr. destruct (Z.eqb_spec errno 0); [discriminate Hr|congruence].
Qed.

Lemma set_addr_protect_total addr prot m :
  ∃ r m', xh_util_set_addr_protect addr prot m = (Ret r, m').
Proof.
  unfold xh_util_set_addr_protect, mbind, CM_bind, get.
  destruct (k_mprotect m _ _ prot) as [[ret errno] m1]. unfold put, mret, CM_ret. eauto.
Qed.

Lemma get_mem_protect_run addr len path m r p m' :
  xh_util_get_mem_protect addr len path m = (Ret (r, p), m') →
  m' = m ∧
  match k_maps m with
  | None => r = XH_ERRNO_BADMAPS ∧ p = 0
  | Some text => ∃ found,
      mem_protect_loop (maps_lines text) path addr (addr ⊕ len) true 0 perm_uninit = Ret (p, found) ∧
      r = if found : bool then 0 else XH_ERRNO_SEGVERR
  end.
Proof.
  intros H. split; [by eapply readonly_run; [apply _|]|]. revert H.
  unfold xh_util_get_mem_protect, mbind, CM_bind, gets, lift_outcome.
  destruct (k_maps m) as [text|]; [|by intros [= <- <- _]].
  destruct (mem_protect_loop _ _ _ _ _ _ _) as [[q found]|]; [|done].
  intros [= <- <- _]. by exists found.
Qed.

(** when xh_util_get_mem_protect succeeds, every address asked about lies
    in a private region of /proc/self/maps that names the file, and the
    permission it reports is granted by all of those regions; the memory is
    untouched. *)
Theorem get_mem_protect_sound addr len path text m prot m' :
  0 ≤ addr → 0 ≤ len → addr + len < 2 ^ 64 →
  k_maps m = Some text → forallb line_wf (maps_lines text) = true →
  xh_util_get_mem_protect addr len path m = (Ret (0, prot), m') →
  m' = m ∧ covered path (addr + len) (maps_lines text) addr prot ∧
  ∀ x, addr ≤ x < addr + len → ∃ l a b r w c,
    l ∈ maps_lines text ∧ region path l = Some (a, b, (r, w, c)) ∧ a ≤ x < b ∧
    prot & perm_bits r w c = prot.
Proof using Type.
  intros Ha Hl Hlt Hmaps Hwf Hrun.
  destruct (get_mem_protect_run _ _ _ _ _ _ _ Hrun) as [-> H]. rewrite Hmaps in H.
  destruct H as ([|] & Hloop & Hr); [|discriminate Hr].
  rewrite wrap_small in Hloop by lia.
  apply mem_protect_loop_sound in Hloop; [|done|done].
  split_and!; [done..|]. by apply covered_regions.
Qed.

(** when the first region of the file that contains the start also
    contains the end, xh_util_get_mem_protect finds exactly its permission. *)
Theorem get_mem_protect_finds addr len path text lines l lines' a b r w x m :
  0 ≤ addr → 0 ≤ len → addr + len < 2 ^ 64 →
  k_maps m = Some text → maps_lines text = lines ++ l :: lines' →
  forallb line_wf (maps_lines text) = true →
  (∀ k, k ∈ lines →
     match region path k with Some (a, b, _) => ¬ (a ≤ addr < b) | None => True end) →
  region path l = Some (a, b, (r, w, x)) → a ≤ addr < b → addr + len ≤ b →
  xh_util_get_mem_protect addr len path m = (Ret (0, perm_bits r w x), m).
Proof using Type.
  intros Ha Hl Hlt Hmaps Hlines Hwf Hskip Hreg Hin He.
  unfold xh_util_get_mem_protect, mbind, CM_bind, gets, lift_outcome. rewrite Hmaps, Hlines in *.
  rewrite wrap_small by lia.
  by erewrite mem_protect_loop_skip.
Qed.

(** xh_util_set_addr_protect never faults and never changes a byte; when it
    returns 0, the pages that hold the eight bytes at the address, and no
    others, have the new permission. *)
Theorem set_addr_protect_pages addr prot m :
  0 ≤ addr → addr + 8 + PAGE_SIZE ≤ 2 ^ 64 →
  ∃ r m', xh_util_set_addr_protect addr prot m = (Ret r, m') ∧ m_data m' = m_data m ∧
    (r = 0 → ∀ b, prot_at m' b =
       if decide (first_page addr ≤ b < pages_end addr) then prot else prot_at m b).
Proof.
  intros Ha Hb. destruct (set_addr_protect_total addr prot m) as (r & m' & Hrun).
  exists r, m'. split; [done|].
  destruct (set_addr_protect_inv _ _ _ _ _ Hrun) as (Hd & _ & Hr). split; [done|].
  intros H0 b. rewrite (Hr H0).
  destruct (page_cover_eq addr Ha Hb) as [-> ->]. destruct (pages_aligned addr) as [H1 H2].
  rewrite prot_at_set_prot by done. apply decide_ext. lia.
Qed.

End props.

(** *** Witnesses *)

Definition util_maps : list Z := concat (map line_of
  ["7000000000-7000002000 r-xp 00000000 fd:00 12 /system/lib64/libc.so";
   "7000002000-7000003000 rw-p 00002000 fd:00 12 /system/lib64/libc.so";
   "7000003000-7000004000 r--s 00002000 fd:00 13 /dev/ashmem"]%string).
Definition util_path : list Z := bytes_of_string "libc.so".
Definition no_memory : memory := Memory ∅ ∅ [].

Lemma get_mem_protect_sound_witness :
  ∃ prot, covered (Some util_path) 0x7000002008 (maps_lines util_maps) 0x7000001ff8 prot ∧
    prot = PROT_READ.
Proof.
  exists PROT_READ. split; [|done].
  apply (get_mem_protect_sound (K:=granting_kernel (Some util_maps))
           0x7000001ff8 16 (Some util_path) util_maps no_memory PROT_READ no_memory);
    [lia|lia|lia|reflexivity|vm_compute; reflexivity|vm_compute; reflexivity].
Defined.

Lemma get_mem_protect_finds_witness :
  xh_util_get_mem_protect (K:=granting_kernel (Some util_maps))
    0x7000002010 8 (Some util_path) no_memory = (Ret (0, 3), no_memory).
Proof.
  apply (get_mem_protect_finds (K:=granting_kernel (Some util_maps))
           0x7000002010 8 (Some util_path) util_maps
           (take 1 (maps_lines util_maps))
           (line_of "7000002000-7000003000 rw-p 00002000 fd:00 12 /system/lib64/libc.so")
           (drop 2 (maps_lines util_maps))
           0x7000002000 0x7000003000 114 119 45 no_memory);
    [lia|lia|lia|reflexivity|vm_compute; reflexivity|vm_compute; reflexivity| |vm_compute; reflexivity|lia|lia].
  intros k Hk. vm_compute in Hk. apply list_elem_of_singleton in Hk. subst k.
  vm_compute. intros [_ H]. discriminate H.
Defined.

Lemma set_addr_protect_pages_witness :
  ∃ r m', xh_util_set_addr_protect (K:=granting_kernel None) 0x7000001ffc 3 no_memory = (Ret r, m') ∧
    m_data m' = m_data no_memory ∧
    (r = 0 → ∀ b, prot_at m' b =
       if decide (first_page 0x7000001ffc ≤ b < pages_end 0x7000001ffc) then 3 else prot_at no_memory b).
Proof.
  apply (set_addr_protect_pages (K:=granting_kernel None)); [lia|vm_compute; discriminate].
Defined.
