(* ===== verification/XhElfReloc.v ===== *)
(** * xh_elf.c: relocation iterators

    The iterator over plain REL and RELA tables, the SLEB128 decoder and the
    iterator over Android's packed relocations (xh_elf.c lines 72 to 256), for
    the 64-bit ELF class. *)

From S2P Require Import Prelude CMem XhUtil.

#[local] Open Scope cint_scope.

(** ** Layout of the ELF structures (elf.h) *)

Definition SIZEOF_REL : Z := 16.
Definition SIZEOF_RELA : Z := 24.

(** ** Plain tables *)

Record xh_elf_plain_reloc_iterator_t : Set := PlainIter {
  p_cur : Z; p_end : Z; p_is_use_rela : Z
}.

Definition xh_elf_plain_reloc_iterator_init (rel rel_sz is_use_rela : Z)
  : xh_elf_plain_reloc_iterator_t :=
  PlainIter rel (rel ⊕ rel_sz) is_use_rela.

(** The entry's address, or [None] for NULL, and the iterator after it. *)
Definition xh_elf_plain_reloc_iterator_next (self : xh_elf_plain_reloc_iterator_t)
  : option Z * xh_elf_plain_reloc_iterator_t :=
  if p_end self <=? p_cur self then (None, self)
  else (Some (p_cur self),
        PlainIter (p_cur self ⊕ (if truthy (p_is_use_rela self) then SIZEOF_RELA else SIZEOF_REL))
          (p_end self) (p_is_use_rela self)).

(** ** SLEB128 *)

Record xh_elf_sleb128_decoder_t : Set := Decoder { d_cur : Z; d_end : Z }.

Definition xh_elf_sleb128_decoder_init (rel rel_sz : Z) : xh_elf_sleb128_decoder_t :=
  Decoder rel (rel ⊕ rel_sz).

(** One round of the loop per byte.  Shifting by 64 or more is undefined. *)
Fixpoint xh_elf_sleb128_loop (fuel : nat) (cur end_ value shift : Z)
  : CM memory (option Z * xh_elf_sleb128_decoder_t) :=
  match fuel with
  | O => fail OutOfFuel
  | S fuel =>
      if end_ <=? cur then mret (None, Decoder cur end_)
      else
        byte ← load8 cur;
        let cur := cur ⊕ 1 in
        when (64 <=? shift) (fail Undefined);;
        let value := value .| u64 ((byte & 127) << shift) in
        let shift := shift + 7 in
        if truthy (byte & 128) then xh_elf_sleb128_loop fuel cur end_ value shift
        else
          let value :=
            if (shift <? 64) && truthy (byte & 64) then value .| u64 (- (1 << shift)) else value in
          mret (Some value, Decoder cur end_)
  end.

(** [Some v]: returns 0 with [*ret = v]; [None]: returns XH_ERRNO_FORMAT.  The
    eleventh byte is shifted by 70, so eleven rounds are all there can be. *)
Definition xh_elf_sleb128_decoder_next (self : xh_elf_sleb128_decoder_t)
  : CM memory (option Z * xh_elf_sleb128_decoder_t) :=
  xh_elf_sleb128_loop 11 (d_cur self) (d_end self) 0 0.

(** ** Packed tables *)

Definition RELOCATION_GROUPED_BY_INFO_FLAG : Z := 1.
Definition RELOCATION_GROUPED_BY_OFFSET_DELTA_FLAG : Z := 2.
Definition RELOCATION_GROUPED_BY_ADDEND_FLAG : Z := 4.
Definition RELOCATION_GROUP_HAS_ADDEND_FLAG : Z := 8.

(** [rela] and [rel], which only carry the result of a step, are its return
    value below. *)
Record xh_elf_packed_reloc_iterator_t : Set := PackedIter {
  decoder : xh_elf_sleb128_decoder_t;
  relocation_count : Z;
  group_size : Z;
  group_flags : Z;
  group_r_offset_delta : Z;
  relocation_index : Z;
  relocation_group_index : Z;
  it_r_offset : Z;
  it_r_info : Z;
  it_r_addend : Z;
  it_is_use_rela : Z
}.

Definition set_decoder (d : xh_elf_sleb128_decoder_t) (s : xh_elf_packed_reloc_iterator_t) :=
  PackedIter d (relocation_count s) (group_size s) (group_flags s) (group_r_offset_delta s)
    (relocation_index s) (relocation_group_index s) (it_r_offset s) (it_r_info s) (it_r_addend s)
    (it_is_use_rela s).
Definition set_relocation_count (v : Z) (s : xh_elf_packed_reloc_iterator_t) :=
  PackedIter (decoder s) v (group_size s) (group_flags s) (group_r_offset_delta s)
    (relocation_index s) (relocation_group_index s) (it_r_offset s) (it_r_info s) (it_r_addend s)
    (it_is_use_rela s).
Definition set_group_size (v : Z) (s : xh_elf_packed_reloc_iterator_t) :=
  PackedIter (decoder s) (relocation_count s) v (group_flags s) (group_r_offset_delta s)
    (relocation_index s) (relocation_group_index s) (it_r_offset s) (it_r_info s) (it_r_addend s)
    (it_is_use_rela s).
Definition set_group_flags (v : Z) (s : xh_elf_packed_reloc_iterator_t) :=
  PackedIter (decoder s) (relocation_count s) (group_size s) v (group_r_offset_delta s)
    (relocation_index s) (relocation_group_index s) (it_r_offset s) (it_r_info s) (it_r_addend s)
    (it_is_use_rela s).
Definition set_group_r_offset_delta (v : Z) (s : xh_elf_packed_reloc_iterator_t) :=
  PackedIter (decoder s) (relocation_count s) (group_size s) (group_flags s) v
    (relocation_index s) (relocation_group_index s) (it_r_offset s) (it_r_info s) (it_r_addend s)
    (it_is_use_rela s).
Definition set_indices (i g : Z) (s : xh_elf_packed_reloc_iterator_t) :=
  PackedIter (decoder s) (relocation_count s) (group_size s) (group_flags s)
    (group_r_offset_delta s) i g (it_r_offset s) (it_r_info s) (it_r_addend s) (it_is_use_rela s).
Definition set_r_offset (v : Z) (s : xh_elf_packed_reloc_iterator_t) :=
  PackedIter (decoder s) (relocation_count s) (group_size s) (group_flags s)
    (group_r_offset_delta s) (relocation_index s) (relocation_group_index s) v (it_r_info s)
    (it_r_addend s) (it_is_use_rela s).
Definition set_r_info (v : Z) (s : xh_elf_packed_reloc_iterator_t) :=
  PackedIter (decoder s) (relocation_count s) (group_size s) (group_flags s)
    (group_r_offset_delta s) (relocation_index s) (relocation_group_index s) (it_r_offset s) v
    (it_r_addend s) (it_is_use_rela s).
Definition set_r_addend (v : Z) (s : xh_elf_packed_reloc_iterator_t) :=
  PackedIter (decoder s) (relocation_count s) (group_size s) (group_flags s)
    (group_r_offset_delta s) (relocation_index s) (relocation_group_index s) (it_r_offset s)
    (it_r_info s) v (it_is_use_rela s).

(** A step of the iterator with the state it leaves; [Bail] is an early return
    with its error code. *)
Inductive step_result (A : Type) : Type :=
  | Done (a : A) (s : xh_elf_packed_reloc_iterator_t)
  | Bail (r : Z) (s : xh_elf_packed_reloc_iterator_t).
Arguments Done {A} a s.
Arguments Bail {A} r s.

Definition step_state {A} (r : step_result A) : xh_elf_packed_reloc_iterator_t :=
  match r with Done _ s => s | Bail _ s => s end.

(** [if(0 != (r = xh_elf_sleb128_decoder_next(&(self->decoder), &val))) return r;] *)
Definition next_or_return {A} (self : xh_elf_packed_reloc_iterator_t)
    (k : Z → xh_elf_packed_reloc_iterator_t → CM memory (step_result A))
  : CM memory (step_result A) :=
  '(v, d) ← xh_elf_sleb128_decoder_next (decoder self);
  match v with
  | Some v => k v (set_decoder d self)
  | None => mret (Bail XH_ERRNO_FORMAT (set_decoder d self))
  end.

(** The same under [if(c)]: without [c] the field is left alone. *)
Definition next_if {A} (c : bool) (self : xh_elf_packed_reloc_iterator_t)
    (set : Z → xh_elf_packed_reloc_iterator_t → xh_elf_packed_reloc_iterator_t)
    (k : xh_elf_packed_reloc_iterator_t → CM memory (step_result A)) : CM memory (step_result A) :=
  if c then next_or_return self (λ v s, k (set v s)) else k self.

Definition xh_elf_packed_reloc_iterator_init (rel rel_sz is_use_rela : Z)
  : CM memory (step_result unit) :=
  let self := PackedIter (xh_elf_sleb128_decoder_init rel rel_sz) 0 0 0 0 0 0 0 0 0 is_use_rela in
  next_or_return self (λ v self, let self := set_relocation_count v self in
  next_or_return self (λ v self, let self := set_r_offset v self in
  mret (Done tt self))).

Definition has_flag (f : Z) (self : xh_elf_packed_reloc_iterator_t) : bool :=
  truthy (group_flags self & f).

(** [self->r_addend += (ssize_t)val], as a 64-bit word. *)
Definition add_r_addend (v : Z) (self : xh_elf_packed_reloc_iterator_t) :=
  set_r_addend (it_r_addend self ⊕ v) self.

Definition xh_elf_packed_reloc_iterator_read_group_fields (self : xh_elf_packed_reloc_iterator_t)
  : CM memory (step_result unit) :=
  next_or_return self (λ v self, let self := set_group_size v self in
  next_or_return self (λ v self, let self := set_group_flags v self in
  next_if (has_flag RELOCATION_GROUPED_BY_OFFSET_DELTA_FLAG self) self set_group_r_offset_delta
  (λ self,
  next_if (has_flag RELOCATION_GROUPED_BY_INFO_FLAG self) self set_r_info
  (λ self,
  let finish self := mret (Done tt (set_indices (relocation_index self) 0 self)) in
  if has_flag RELOCATION_GROUP_HAS_ADDEND_FLAG self &&
     has_flag RELOCATION_GROUPED_BY_ADDEND_FLAG self then
    if it_is_use_rela self =? 0 then mret (Bail XH_ERRNO_FORMAT self)
    else next_or_return self (λ v self, finish (add_r_addend v self))
  else if negb (has_flag RELOCATION_GROUP_HAS_ADDEND_FLAG self) then finish (set_r_addend 0 self)
  else finish self)))).

(** Info and addend of one relocation, once its offset is known. *)
Definition packed_info_addend (self : xh_elf_packed_reloc_iterator_t)
  : CM memory (step_result (Z * Z)) :=
  next_if (negb (has_flag RELOCATION_GROUPED_BY_INFO_FLAG self)) self set_r_info
  (λ self,
  next_if (truthy (it_is_use_rela self) && has_flag RELOCATION_GROUP_HAS_ADDEND_FLAG self &&
           negb (has_flag RELOCATION_GROUPED_BY_ADDEND_FLAG self)) self add_r_addend
  (λ self,
  let self := set_indices (relocation_index self ⊕ 1) (relocation_group_index self ⊕ 1) self in
  mret (Done (it_r_offset self, it_r_info self) self))).

(** The part after the group check. *)
Definition packed_reloc_fields (self : xh_elf_packed_reloc_iterator_t)
  : CM memory (step_result (Z * Z)) :=
  if has_flag RELOCATION_GROUPED_BY_OFFSET_DELTA_FLAG self
  then packed_info_addend (set_r_offset (it_r_offset self ⊕ group_r_offset_delta self) self)
  else next_or_return self (λ v self,
    packed_info_addend (set_r_offset (it_r_offset self ⊕ v) self)).

(** The next relocation's r_offset and r_info, through [Done]; [Bail] is the
    NULL of the end or of an error. *)
Definition xh_elf_packed_reloc_iterator_next (self : xh_elf_packed_reloc_iterator_t)
  : CM memory (step_result (Z * Z)) :=
  if relocation_count self <=? relocation_index self then mret (Bail 0 self)
  else
    r ← (if relocation_group_index self =? group_size self
         then xh_elf_packed_reloc_iterator_read_group_fields self
         else mret (Done tt self));
    match r with
    | Bail r self => mret (Bail r self)
    | Done _ self => packed_reloc_fields self
    end.
