(* ===== verification/XhElfRelocProps.v ===== *)
(** * Correctness of the relocation iterators

    The SLEB128 decoder against the DWARF definition and a reference encoder,
    the plain iterator against the table it walks, the packed iterator against
    a list of relocation groups. *)

From S2P Require Import Prelude CMem XhUtil XhElfReloc.

#[local] Open Scope cint_scope.

(** ** SLEB128 *)

(** The signed value of an encoding: seven bits a byte, the lowest first, the
    sixth bit of the last one the sign. *)
Fixpoint leb_value (bs : list Z) : Z :=
  match bs with
  | [] => 0
  | [b] => b mod 128 - (if 64 <=? b mod 128 then 128 else 0)
  | b :: bs => b mod 128 + 128 * leb_value bs
  end.

(** One encoding: continuation bits on all bytes but the last. *)
Fixpoint leb_frame (bs : list Z) : bool :=
  match bs with
  | [] => false
  | [b] => (0 <=? b) && (b <? 128)
  | b :: bs => (128 <=? b) && (b <? 256) && leb_frame bs
  end.

(** The bytes [bs] are at [a] in readable memory. *)
Fixpoint bytes_at (m : memory) (a : Z) (bs : list Z) : Prop :=
  match bs with
  | [] => True
  | b :: bs => byte_allows PROT_READ m a = true ∧ byte_of m a = b ∧ bytes_at m (a + 1) bs
  end.

Lemma bytes_at_app m a bs cs :
  bytes_at m a (bs ++ cs) ↔ bytes_at m a bs ∧ bytes_at m (a + Z.of_nat (length bs)) cs.
Proof.
  revert a. induction bs as [|b bs IH]; intros a; simpl.
  - rewrite Z.add_0_r. tauto.
  - rewrite IH. replace (a + 1 + Z.of_nat (length bs)) with (a + Z.of_nat (S (length bs))) by lia.
    tauto.
Qed.

Lemma load8_ok m a :
  byte_allows PROT_READ m a = true → load8 a m = (Ret (byte_of m a), m).
Proof.
  intros H. rewrite load_ok; [|simpl; by rewrite H]. simpl. do 2 f_equal. f_equal. lia.
Qed.

Lemma byte_bits b :
  0 ≤ b < 256 →
  b & 127 = b mod 128 ∧ truthy (b & 128) = (128 <=? b) ∧ truthy (b & 64) = (64 <=? b mod 128).
Proof.
  intros Hb.
  assert (H : forallb (λ b, (b & 127 =? b mod 128) && Bool.eqb (truthy (b & 128)) (128 <=? b) &&
    Bool.eqb (truthy (b & 64)) (64 <=? b mod 128)) (map Z.of_nat (seq 0 256)) = true)
    by (vm_compute; done).
  rewrite forallb_forall in H. specialize (H b). rewrite !andb_true_iff, Z.eqb_eq in H.
  destruct H as [[H1 H2%eqb_prop] H3%eqb_prop]; [|done].
  apply in_map_iff. exists (Z.to_nat b). rewrite in_seq. lia.
Qed.

Lemma u64_congr a b k : a = b + k * 2 ^ 64 → u64 a = u64 b.
Proof. intros ->. apply wrap_add_mult. Qed.

(** One accumulation step of the decoder. *)
Lemma lor_u64_shift v x s :
  0 ≤ s ≤ 64 → 0 ≤ v < 2 ^ s → 0 ≤ x →
  v .| u64 (x << s) = u64 (v + x * 2 ^ s) ∧
  (∀ t, 0 ≤ t → x < 2 ^ t → s + t ≤ 64 → u64 (v + x * 2 ^ s) = v + x * 2 ^ s).
Proof.
  intros Hs Hv Hx.
  assert (Hpow : 2 ^ s * 2 ^ (64 - s) = 2 ^ 64) by (rewrite <- Z.pow_add_r by lia; f_equal; lia).
  assert (0 < 2 ^ s) by lia. assert (0 < 2 ^ (64 - s)) by lia.
  assert (Hu : u64 (x << s) = (x mod 2 ^ (64 - s)) << s).
  { rewrite !Z.shiftl_mul_pow2 by lia. unfold wrap.
    rewrite <- Hpow, (Z.mul_comm (2 ^ s)), Z.mul_mod_distr_r by lia. done. }
  pose proof (Z.mod_pos_bound x (2 ^ (64 - s))) as Hm. split.
  - rewrite Hu, lor_shift_add by lia.
    assert (Hr : u64 (v + x mod 2 ^ (64 - s) * 2 ^ s) = v + x mod 2 ^ (64 - s) * 2 ^ s).
    { apply wrap_small. nia. }
    rewrite <- Hr. symmetry. apply (u64_congr _ _ (x / 2 ^ (64 - s))).
    rewrite <- Hpow. pose proof (Z.div_mod x (2 ^ (64 - s))). nia.
  - intros t Ht0 Ht Hst. apply wrap_small.
    assert (2 ^ s * 2 ^ t ≤ 2 ^ 64) by (rewrite <- Z.pow_add_r by lia; apply Z.pow_le_mono_r; lia).
    nia.
Qed.

(** The sign extension. *)
Lemma lor_sign_extend v t :
  0 ≤ t < 64 → 0 ≤ v < 2 ^ t → v .| u64 (- (1 << t)) = u64 (v - 2 ^ t).
Proof.
  intros Ht Hv.
  assert (Hpow : 2 ^ t * 2 ^ (64 - t) = 2 ^ 64) by (rewrite <- Z.pow_add_r by lia; f_equal; lia).
  assert (0 < 2 ^ t) by lia. assert (0 < 2 ^ (64 - t)) by lia.
  assert (2 ^ t < 2 ^ 64) by (apply Z.pow_lt_mono_r; lia).
  rewrite Z.shiftl_mul_pow2, Z.mul_1_l by lia.
  assert (Hu : u64 (- 2 ^ t) = (2 ^ (64 - t) - 1) << t).
  { rewrite Z.shiftl_mul_pow2 by lia. rewrite (u64_congr _ (2 ^ 64 - 2 ^ t) (-1)) by lia.
    rewrite wrap_small by lia. lia. }
  rewrite Hu, lor_shift_add by lia. rewrite (u64_congr (v - 2 ^ t) (v + 2 ^ 64 - 2 ^ t) (-1)) by lia.
  rewrite wrap_small by lia. lia.
Qed.

Lemma leb_frame_bytes b bs : leb_frame (b :: bs) = true → 0 ≤ b < 256.
Proof.
  destruct bs; cbn [leb_frame]; rewrite !andb_true_iff, ?Z.leb_le, ?Z.ltb_lt; lia.
Qed.

Lemma sleb128_loop_value fuel m cur end_ value shift bs :
  leb_frame bs = true → bytes_at m cur bs → (length bs ≤ fuel)%nat →
  0 ≤ cur → cur + Z.of_nat (length bs) ≤ end_ → end_ < 2 ^ 64 →
  0 ≤ shift → shift + 7 * Z.of_nat (length bs) ≤ 70 → 0 ≤ value < 2 ^ shift →
  xh_elf_sleb128_loop fuel cur end_ value shift m =
    (Ret (Some (u64 (value + leb_value bs * 2 ^ shift)),
          Decoder (cur + Z.of_nat (length bs)) end_), m).
Proof.
  revert fuel cur value shift.
  induction bs as [|b bs IH]; intros fuel cur value shift Hf Hb Hfuel Hc He Hend Hs Hsh Hv; [done|].
  destruct fuel as [|fuel]; [simpl in Hfuel; lia|].
  pose proof (leb_frame_bytes _ _ Hf) as Hbr. destruct (byte_bits b Hbr) as (H127 & H128 & H64).
  cbn [length] in *. cbn [xh_elf_sleb128_loop]. destruct (Z.leb_spec end_ cur); [lia|].
  destruct Hb as (Ha & Hbv & Hb).
  rewrite (CM_bind_Ret _ _ _ _ _ (load8_ok _ _ Ha)), Hbv. cbv zeta.
  destruct (Z.leb_spec 64 shift); [lia|].
  rewrite (CM_bind_Ret _ _ _ tt m) by done. rewrite H127, H128, H64.
  assert (Hx : 0 ≤ b mod 128 < 128) by (apply Z.mod_pos_bound; lia).
  destruct (lor_u64_shift value (b mod 128) shift ltac:(lia) Hv ltac:(lia)) as [Hacc Hsmall].
  assert (Hp7 : 2 ^ (shift + 7) = 128 * 2 ^ shift) by (rewrite Z.pow_add_r by lia; lia).
  assert (Hlt : 0 ≤ value + b mod 128 * 2 ^ shift < 2 ^ (shift + 7)) by (rewrite Hp7; nia).
  rewrite Hacc. rewrite (wrap_small 64 (cur + 1)) by lia.
  destruct bs as [|b' bs].
  - simpl in Hf. rewrite andb_true_iff, Z.leb_le, Z.ltb_lt in Hf.
    destruct (Z.leb_spec 128 b); [lia|]. cbn [leb_value].
    replace (cur + Z.of_nat (S (@length Z []))) with (cur + 1) by (simpl; lia).
    unfold mret, CM_ret. do 4 f_equal.
    destruct (Z.leb_spec 64 (b mod 128)); rewrite ?andb_true_r, ?andb_false_r, ?Z.sub_0_r; [|done].
    destruct (Z.ltb_spec (shift + 7) 64).
    + rewrite (Hsmall 7) by lia. rewrite lor_sign_extend by lia. f_equal. lia.
    + apply (u64_congr _ _ (2 ^ (shift + 7 - 64))).
      rewrite <- Z.pow_add_r by lia. replace (shift + 7 - 64 + 64) with (shift + 7) by lia. lia.
  - cbn [leb_frame] in Hf. rewrite !andb_true_iff, Z.leb_le in Hf. destruct Hf as [[Hge _] Hf].
    destruct (Z.leb_spec 128 b); [|lia].
    cbn [length] in *.
    rewrite (Hsmall 7) by lia.
    rewrite (IH fuel (cur + 1)); try done; try lia.
    replace (cur + 1 + Z.of_nat (S (length bs))) with (cur + Z.of_nat (S (S (length bs)))) by lia.
    change (leb_value (b :: b' :: bs)) with (b mod 128 + 128 * leb_value (b' :: bs)).
    do 4 f_equal. rewrite Hp7. f_equal. ring.
Qed.

(** *** The reference encoder *)

Fixpoint sleb_encode_fuel (fuel : nat) (z : Z) : list Z :=
  match fuel with
  | S fuel =>
      if (-64 <=? z) && (z <? 64) then [z mod 128]
      else (128 + z mod 128) :: sleb_encode_fuel fuel (z / 128)
  | O => [z mod 128]
  end.
(** A 64-bit number takes at most ten bytes. *)
Definition sleb_encode (z : Z) : list Z := sleb_encode_fuel 9 z.
Definition int64 (z : Z) : Prop := - 2 ^ 63 ≤ z < 2 ^ 63.

#[export] Instance int64_dec z : Decision (int64 z).
Proof. unfold int64. apply _. Defined.

Lemma leb_value_last z : -64 ≤ z < 64 → leb_value [z mod 128] = z.
Proof.
  intros Hz. simpl. rewrite Z.mod_mod by lia.
  destruct (Z.leb_spec 64 (z mod 128)); Z.to_euclidean_division_equations; lia.
Qed.

Lemma sleb_encode_fuel_ok n z :
  - 64 * 128 ^ Z.of_nat n ≤ z < 64 * 128 ^ Z.of_nat n →
  leb_frame (sleb_encode_fuel n z) = true ∧ leb_value (sleb_encode_fuel n z) = z ∧
  (1 ≤ length (sleb_encode_fuel n z) ≤ n + 1)%nat.
Proof.
  revert z. induction n as [|n IH]; intros z Hz.
  - simpl in Hz. cbn [sleb_encode_fuel]. split; [|split; [apply leb_value_last; lia|simpl; lia]].
    simpl. rewrite andb_true_iff, Z.leb_le, Z.ltb_lt. pose proof (Z.mod_pos_bound z 128). lia.
  - cbn [sleb_encode_fuel]. pose proof (Z.mod_pos_bound z 128 ltac:(lia)).
    destruct ((-64 <=? z) && (z <? 64)) eqn:Hs.
    + rewrite andb_true_iff, Z.leb_le, Z.ltb_lt in Hs.
      split; [|split; [apply leb_value_last; lia|simpl; lia]].
      simpl. rewrite andb_true_iff, Z.leb_le, Z.ltb_lt. lia.
    + assert (Hpow : 128 ^ Z.of_nat (S n) = 128 * 128 ^ Z.of_nat n).
      { rewrite Nat2Z.inj_succ, Z.pow_succ_r by lia. lia. }
      rewrite Hpow in Hz.
      destruct (IH (z / 128)) as (Hf & Hv & Hl).
      { split; [apply Z.div_le_lower_bound; lia|apply Z.div_lt_upper_bound; lia]. }
      destruct (sleb_encode_fuel n (z / 128)) as [|b bs] eqn:E; [simpl in Hl; lia|].
      split_and!.
      * change (((128 <=? 128 + z mod 128) && (128 + z mod 128 <? 256) && leb_frame (b :: bs)) = true).
        rewrite !andb_true_iff, Z.leb_le, Z.ltb_lt. split_and!; [lia..|done].
      * change ((128 + z mod 128) mod 128 + 128 * leb_value (b :: bs) = z).
        rewrite Hv. Z.to_euclidean_division_equations. lia.
      * cbn [length] in *. lia.
      * cbn [length] in *. lia.
Qed.

Lemma sleb_encode_ok z :
  int64 z → leb_frame (sleb_encode z) = true ∧ leb_value (sleb_encode z) = z ∧
  (1 ≤ length (sleb_encode z) ≤ 10)%nat.
Proof. intros Hz. apply sleb_encode_fuel_ok. unfold int64 in Hz. simpl. lia. Qed.

(** *** Streams of numbers *)

(** The decoder stands before the encodings of [ts]. *)
Definition stream (ts : list Z) : list Z := concat (map sleb_encode ts).
Definition tokens_at (m : memory) (d : xh_elf_sleb128_decoder_t) (ts : list Z) : Prop :=
  Forall int64 ts ∧ bytes_at m (d_cur d) (stream ts) ∧
  0 ≤ d_cur d ∧ d_cur d + Z.of_nat (length (stream ts)) ≤ d_end d ∧ d_end d < 2 ^ 64.

Lemma next_token m d t ts :
  tokens_at m d (t :: ts) →
  ∃ d', xh_elf_sleb128_decoder_next d m = (Ret (Some (u64 t), d'), m) ∧ tokens_at m d' ts ∧
    d' = Decoder (d_cur d + Z.of_nat (length (sleb_encode t))) (d_end d).
Proof.
  intros (Hts & Hb & H0 & Hle & Hend). inversion_clear Hts as [|? ? Ht Hts'].
  destruct (sleb_encode_ok t Ht) as (Hf & Hv & Hlen).
  unfold stream in *. simpl in Hb, Hle. rewrite bytes_at_app in Hb. destruct Hb as [Hb1 Hb2].
  rewrite length_app in Hle. eexists. split_and!; [|split_and!|reflexivity].
  - unfold xh_elf_sleb128_decoder_next.
    rewrite (sleb128_loop_value 11 m (d_cur d) (d_end d) 0 0 (sleb_encode t)); try done; try lia.
    by rewrite Hv, Z.mul_1_r, Z.add_0_l.
  - done.
  - done.
  - simpl. lia.
  - unfold stream. simpl. lia.
  - done.
Qed.

(** decoding what the reference encoder wrote gives the number back, as a
    64-bit word, and stops after its bytes, for every 64-bit integer. *)
Theorem sleb128_roundtrip z m cur end_ :
  int64 z → bytes_at m cur (sleb_encode z) → 0 ≤ cur →
  cur + Z.of_nat (length (sleb_encode z)) ≤ end_ → end_ < 2 ^ 64 →
  xh_elf_sleb128_decoder_next (Decoder cur end_) m =
    (Ret (Some (u64 z), Decoder (cur + Z.of_nat (length (sleb_encode z))) end_), m).
Proof.
  intros Hz Hb H0 Hle Hend. destruct (next_token m (Decoder cur end_) z []) as (d' & Hn & _ & ->).
  - split_and!; try done; [by constructor| |].
    + unfold stream. cbn [map concat]. by rewrite app_nil_r.
    + unfold stream. cbn [map concat]. by rewrite app_nil_r.
  - exact Hn.
Qed.

(** *** The decoder stays inside its range *)

Lemma sleb128_loop_bounds fuel m cur end_ value shift :
  0 ≤ cur ≤ end_ → end_ < 2 ^ 64 → shift = 7 * (11 - Z.of_nat fuel) → (0 < fuel ≤ 11)%nat →
  (∀ a, cur ≤ a < end_ → byte_allows PROT_READ m a = true) →
  match xh_elf_sleb128_loop fuel cur end_ value shift m with
  | (Ret (v, d), m') => m' = m ∧ d_end d = end_ ∧ cur ≤ d_cur d ≤ end_ ∧ (v = None → d_cur d = end_)
  | (Err e, m') => m' = m ∧ e = Undefined
  end.
Proof.
  revert cur value shift. induction fuel as [|fuel IH]; intros cur value shift Hc Hend Hs Hf Hr; [lia|].
  cbn [xh_elf_sleb128_loop]. destruct (Z.leb_spec end_ cur).
  { unfold mret, CM_ret. simpl. split_and!; try done; lia. }
  rewrite (CM_bind_Ret _ _ _ _ _ (load8_ok m cur (Hr cur ltac:(lia)))). cbv zeta.
  destruct (Z.leb_spec 64 shift); [done|]. rewrite (CM_bind_Ret _ _ _ tt m) by done.
  rewrite (wrap_small 64 (cur + 1)) by lia.
  destruct (truthy (byte_of m cur & 128)).
  - specialize (IH (cur + 1) (value .| u64 ((byte_of m cur & 127) << shift)) (shift + 7)).
    destruct (xh_elf_sleb128_loop fuel _ _ _ _ m) as [[[v d]|e] m'].
    + destruct IH as (-> & ? & ? & ?); try lia; [intros; apply Hr; lia|]. split_and!; done || lia.
    + apply IH; try lia. intros; apply Hr; lia.
  - unfold mret, CM_ret. simpl. split_and!; done || lia.
Qed.

(** whatever the bytes, the decoder reads only between its cursor and its
    end and leaves the cursor there; it reports an error only at the end, and
    fails otherwise only on an encoding of more than ten bytes, whose shift is
    undefined. *)
Theorem sleb128_next_bounds d m :
  0 ≤ d_cur d ≤ d_end d → d_end d < 2 ^ 64 →
  (∀ a, d_cur d ≤ a < d_end d → byte_allows PROT_READ m a = true) →
  match xh_elf_sleb128_decoder_next d m with
  | (Ret (v, d'), m') => m' = m ∧ d_end d' = d_end d ∧ d_cur d ≤ d_cur d' ≤ d_end d ∧
      (v = None → d_cur d' = d_end d)
  | (Err e, m') => m' = m ∧ e = Undefined
  end.
Proof. intros. apply sleb128_loop_bounds; done || lia. Qed.

(** ** The plain iterator *)

Definition entry_size (is_use_rela : Z) : Z := if truthy is_use_rela then SIZEOF_RELA else SIZEOF_REL.
(** The entries a table of [sz] bytes is taken to have: a partial one at the
    end counts. *)
Definition entry_count (sz is_use_rela : Z) : nat :=
  Z.to_nat ((sz + entry_size is_use_rela - 1) / entry_size is_use_rela).

(** The addresses of successive calls, until NULL. *)
Fixpoint plain_pull (fuel : nat) (it : xh_elf_plain_reloc_iterator_t) : list Z :=
  match fuel with
  | O => []
  | S fuel =>
      match xh_elf_plain_reloc_iterator_next it with
      | (Some a, it) => a :: plain_pull fuel it
      | (None, _) => []
      end
  end.

Lemma entry_size_pos r : entry_size r = 16 ∨ entry_size r = 24.
Proof. unfold entry_size. destruct (truthy r); auto. Qed.

Lemma entry_count_step sz r :
  0 < sz → entry_count sz r = S (entry_count (Z.max 0 (sz - entry_size r)) r).
Proof.
  intros Hsz. unfold entry_count. destruct (entry_size_pos r) as [-> | ->];
    Z.to_euclidean_division_equations; lia.
Qed.

Lemma plain_pull_spec fuel cur end_ r :
  0 ≤ cur → end_ + 24 < 2 ^ 64 → cur ≤ end_ + 24 → (Z.to_nat (end_ - cur) < fuel)%nat →
  plain_pull fuel (PlainIter cur end_ r) =
    (λ i, cur + Z.of_nat i * entry_size r) <$> seq 0 (entry_count (Z.max 0 (end_ - cur)) r).
Proof.
  revert cur. induction fuel as [|fuel IH]; intros cur H0 Hend Hle Hfuel; [lia|].
  cbn [plain_pull]. unfold xh_elf_plain_reloc_iterator_next. cbn [p_end p_cur p_is_use_rela].
  destruct (Z.leb_spec end_ cur).
  { replace (Z.max 0 (end_ - cur)) with 0 by lia. unfold entry_count.
    destruct (entry_size_pos r) as [-> | ->]; done. }
  rewrite Z.max_r, entry_count_step by lia. fold (entry_size r).
  destruct (entry_size_pos r) as [Hs|Hs]; rewrite wrap_small by lia.
  all: rewrite IH by lia; cbn [seq fmap list_fmap]; f_equal; [lia|].
  all: replace (end_ - (cur + entry_size r)) with (end_ - cur - entry_size r) by lia.
  all: rewrite <- (fmap_S_seq 0), <- list_fmap_compose; apply list_fmap_ext; simpl; lia.
Qed.

(** the plain iterator enumerates the entries of its table in order, each
    once, and then stops. *)
Theorem plain_iterator_enumerates rel rel_sz is_use_rela :
  0 ≤ rel → 0 ≤ rel_sz → rel + rel_sz + 24 < 2 ^ 64 →
  plain_pull (S (Z.to_nat rel_sz)) (xh_elf_plain_reloc_iterator_init rel rel_sz is_use_rela) =
    (λ i, rel + Z.of_nat i * entry_size is_use_rela) <$> seq 0 (entry_count rel_sz is_use_rela).
Proof.
  intros H0 Hsz Hlt. unfold xh_elf_plain_reloc_iterator_init. rewrite wrap_small by lia.
  rewrite plain_pull_spec by lia. by rewrite Z.max_r, Z.add_simpl_l by lia.
Qed.

(** *** Witnesses *)

(** A readable page at 0x1000 with the given bytes. *)
Fixpoint place (a : Z) (bs : list Z) (d : gmap Z Z) : gmap Z Z :=
  match bs with
  | [] => d
  | b :: bs => <[a := b]> (place (a + 1) bs d)
  end.
Definition sample_page (bs : list Z) : memory := Memory (place 0x1000 bs ∅) {[ 1 := PROT_READ ]} [].

Lemma sleb128_roundtrip_witness :
  xh_elf_sleb128_decoder_next (Decoder 0x1000 0x1010) (sample_page (sleb_encode (-123456))) =
    (Ret (Some 18446744073709428160, Decoder 0x1003 0x1010), sample_page (sleb_encode (-123456))).
Proof.
  apply (sleb128_roundtrip (-123456)); [unfold int64; lia|vm_compute; done|lia|vm_compute; done|lia].
Defined.

Lemma sleb128_next_bounds_witness :
  match xh_elf_sleb128_decoder_next (Decoder 0x1000 0x1002) (sample_page [0x80; 0x81]) with
  | (Ret (v, d'), m') => m' = sample_page [0x80; 0x81] ∧ d_end d' = 0x1002 ∧
      0x1000 ≤ d_cur d' ≤ 0x1002 ∧ (v = None → d_cur d' = 0x1002)
  | (Err e, m') => m' = sample_page [0x80; 0x81] ∧ e = Undefined
  end.
Proof.
  apply (sleb128_next_bounds (Decoder 0x1000 0x1002)); simpl; [lia|lia|].
  intros a Ha. assert (a = 0x1000 ∨ a = 0x1001) as [-> | ->] by lia; vm_compute; done.
Defined.

Lemma plain_iterator_enumerates_witness :
  plain_pull 49 (xh_elf_plain_reloc_iterator_init 0x1000 48 1) = [0x1000; 0x1018].
Proof. apply (plain_iterator_enumerates 0x1000 48 1); lia. Defined.
