(* ===== verification/XhElfPacked.v ===== *)
(** * Packed relocations: the iterator against the format

    Android's packed relocation format as data, its encoding as a stream of
    SLEB128 numbers, and the proof that the iterator enumerates exactly the
    relocations the groups stand for. *)

From S2P Require Import Prelude CMem XhUtil XhElfReloc XhElfRelocProps.

#[local] Open Scope cint_scope.

(** ** The format *)

(** One relocation of a group: offset delta, info and addend delta, as far as
    the group does not share them. *)
Record packed_reloc : Set := PackedReloc { pr_offset : Z; pr_info : Z; pr_addend : Z }.
Record packed_group : Set := PackedGroup {
  pg_flags : Z;
  pg_offset : Z;
  pg_info : Z;
  pg_addend : Z;
  pg_relocs : list packed_reloc
}.

Definition flag (f : Z) (g : packed_group) : bool := truthy (pg_flags g & f).
Definition by_offset := flag RELOCATION_GROUPED_BY_OFFSET_DELTA_FLAG.
Definition by_info := flag RELOCATION_GROUPED_BY_INFO_FLAG.
Definition by_addend := flag RELOCATION_GROUPED_BY_ADDEND_FLAG.
Definition has_addend := flag RELOCATION_GROUP_HAS_ADDEND_FLAG.

Definition opt (b : bool) (t : Z) : list Z := if b then [t] else [].

Definition reloc_tokens (rela : bool) (g : packed_group) (r : packed_reloc) : list Z :=
  opt (negb (by_offset g)) (pr_offset r) ++ opt (negb (by_info g)) (pr_info r) ++
  opt (rela && has_addend g && negb (by_addend g)) (pr_addend r).
Definition relocs_tokens (rela : bool) (g : packed_group) (rs : list packed_reloc) : list Z :=
  concat (map (reloc_tokens rela g) rs).
Definition group_tokens (rela : bool) (g : packed_group) : list Z :=
  [Z.of_nat (length (pg_relocs g)); pg_flags g] ++ opt (by_offset g) (pg_offset g) ++
  opt (by_info g) (pg_info g) ++ opt (has_addend g && by_addend g) (pg_addend g) ++
  relocs_tokens rela g (pg_relocs g).
Definition groups_tokens (rela : bool) (gs : list packed_group) : list Z :=
  concat (map (group_tokens rela) gs).
Definition total (gs : list packed_group) : Z :=
  Z.of_nat (sum_list_with (length ∘ pg_relocs) gs).

Lemma total_nonneg gs : 0 ≤ total gs.
Proof. unfold total. lia. Qed.

(** The whole table, after its magic. *)
Definition table_tokens (rela : bool) (offset : Z) (gs : list packed_group) : list Z :=
  [total gs; offset] ++ groups_tokens rela gs.

(** What the groups stand for: r_offset and r_info of every relocation. *)
Fixpoint relocs_meaning (g : packed_group) (offset : Z) (rs : list packed_reloc) : list (Z * Z) :=
  match rs with
  | [] => []
  | r :: rs =>
      let offset := u64 (offset + (if by_offset g then pg_offset g else pr_offset r)) in
      (offset, u64 (if by_info g then pg_info g else pr_info r)) :: relocs_meaning g offset rs
  end.
Definition end_offset (g : packed_group) (offset : Z) (rs : list packed_reloc) : Z :=
  default offset (last (relocs_meaning g offset rs).*1).
Fixpoint groups_meaning (offset : Z) (gs : list packed_group) : list (Z * Z) :=
  match gs with
  | [] => []
  | g :: gs =>
      relocs_meaning g offset (pg_relocs g) ++
      groups_meaning (end_offset g offset (pg_relocs g)) gs
  end.

(** Groups are not empty, and a table without addends has no group addend. *)
Definition group_wf (rela : bool) (g : packed_group) : Prop :=
  pg_relocs g ≠ [] ∧ 0 ≤ pg_flags g ∧ (rela = false → has_addend g && by_addend g = false).

(** The relocations of successive calls, until the NULL and its code. *)
Fixpoint packed_pull (fuel : nat) (self : xh_elf_packed_reloc_iterator_t)
  : CM memory (list (Z * Z) * Z) :=
  match fuel with
  | O => fail OutOfFuel
  | S fuel =>
      r ← xh_elf_packed_reloc_iterator_next self;
      match r with
      | Done x self => '(xs, c) ← packed_pull fuel self; mret (x :: xs, c)
      | Bail c _ => mret ([], c)
      end
  end.

(** ** One step of the iterator *)

Definition is_rela (rela : bool) : Z := if rela then 1 else 0.

Lemma u64_int64_nonneg z : int64 z → 0 ≤ z → u64 z = z.
Proof. intros [_ ?] ?. apply wrap_small. lia. Qed.

Section step.
Context (m : memory) (rela : bool).

(** Inside group [g], with the relocations [rs] of it and the groups [rest]
    still to come. *)
Record in_group (s : xh_elf_packed_reloc_iterator_t) (g : packed_group)
    (rs : list packed_reloc) (rest : list packed_group) : Prop := {
  ig_tokens : tokens_at m (decoder s) (relocs_tokens rela g rs ++ groups_tokens rela rest);
  ig_flags : group_flags s = pg_flags g;
  ig_offset : by_offset g = true → group_r_offset_delta s = u64 (pg_offset g);
  ig_info : by_info g = true → it_r_info s = u64 (pg_info g);
  ig_size : group_size s = relocation_group_index s + Z.of_nat (length rs);
  ig_count : relocation_count s = relocation_index s + Z.of_nat (length rs) + total rest;
  ig_small : 0 ≤ relocation_index s ∧ 0 ≤ relocation_group_index s ≤ relocation_index s ∧
    relocation_count s < 2 ^ 63;
  ig_rela : it_is_use_rela s = is_rela rela
}.

Lemma run_next_if {A} (c : bool) s set (k : _ → CM memory (step_result A)) t ts :
  (∀ v s, decoder (set v s) = decoder s) → tokens_at m (decoder s) (opt c t ++ ts) →
  ∃ d, tokens_at m d ts ∧
    next_if c s set k m = k (if c then set (u64 t) (set_decoder d s) else s) m ∧
    d = decoder (if c then set (u64 t) (set_decoder d s) else s).
Proof using Type.
  intros Hset Ht. destruct c; simpl in Ht.
  - destruct (next_token _ _ _ _ Ht) as (d & Hn & Hd & _). exists d.
    split; [done|]. split; [|by rewrite Hset]. unfold next_if, next_or_return.
    by rewrite (CM_bind_Ret _ _ _ _ _ Hn).
  - by exists (decoder s).
Qed.

Lemma run_next_or_return {A} s (k : _ → _ → CM memory (step_result A)) t ts :
  tokens_at m (decoder s) (t :: ts) →
  ∃ d, tokens_at m d ts ∧ next_or_return s k m = k (u64 t) (set_decoder d s) m.
Proof using Type.
  intros Ht. destruct (next_token _ _ _ _ Ht) as (d & Hn & Hd & _). exists d. split; [done|].
  unfold next_or_return. by rewrite (CM_bind_Ret _ _ _ _ _ Hn).
Qed.

Lemma has_flag_eq s g f : group_flags s = pg_flags g → has_flag f s = flag f g.
Proof using Type. unfold has_flag, flag. by intros ->. Qed.

Lemma relocs_tokens_cons g r rs :
  relocs_tokens rela g (r :: rs) =
    opt (negb (by_offset g)) (pr_offset r) ++ opt (negb (by_info g)) (pr_info r) ++
    opt (rela && has_addend g && negb (by_addend g)) (pr_addend r) ++ relocs_tokens rela g rs.
Proof using Type. unfold relocs_tokens. simpl. unfold reloc_tokens. by rewrite <- !app_assoc. Qed.

(** Two iterators that differ in their decoder, offset, info and addend. *)
Definition moved (s s' : xh_elf_packed_reloc_iterator_t) : Prop :=
  s' = set_r_addend (it_r_addend s') (set_r_info (it_r_info s')
         (set_r_offset (it_r_offset s') (set_decoder (decoder s') s))).

Lemma packed_info_addend_spec s g r ts :
  group_flags s = pg_flags g → it_is_use_rela s = is_rela rela →
  (by_info g = true → it_r_info s = u64 (pg_info g)) →
  tokens_at m (decoder s) (opt (negb (by_info g)) (pr_info r) ++
    opt (rela && has_addend g && negb (by_addend g)) (pr_addend r) ++ ts) →
  ∃ s1, moved s s1 ∧ it_r_offset s1 = it_r_offset s ∧
    it_r_info s1 = u64 (if by_info g then pg_info g else pr_info r) ∧
    tokens_at m (decoder s1) ts ∧
    packed_info_addend s m =
      (Ret (Done (it_r_offset s1, it_r_info s1)
         (set_indices (relocation_index s1 ⊕ 1) (relocation_group_index s1 ⊕ 1) s1)), m).
Proof using Type.
  intros Hfl Hrela Hinfo Ht. unfold packed_info_addend.
  rewrite (has_flag_eq s g) by done. fold (by_info g).
  match goal with |- context [next_if ?c ?s set_r_info ?k m] =>
    destruct (run_next_if c s set_r_info k _ _ (λ _ _, eq_refl) Ht) as (d2 & Ht2 & -> & Hd2) end.
  match type of Hd2 with _ = decoder ?x => set (s2 := x) in * end.
  assert (Hs2 : moved s s2 ∧ it_r_offset s2 = it_r_offset s ∧
    it_r_info s2 = u64 (if by_info g then pg_info g else pr_info r)).
  { unfold s2. destruct (by_info g); simpl; [|done].
    split_and!; [unfold moved; by destruct s|done|by apply Hinfo]. }
  clearbody s2. destruct Hs2 as (Hm2 & Ho2 & Hi2).
  assert (Hfl2 : group_flags s2 = pg_flags g) by (by rewrite Hm2).
  assert (Hrela2 : it_is_use_rela s2 = is_rela rela) by (by rewrite Hm2).
  rewrite !(has_flag_eq s2 g) by done. fold (has_addend g) (by_addend g).
  rewrite Hrela2. replace (truthy (is_rela rela)) with rela by (by destruct rela).
  rewrite Hd2 in Ht2.
  match goal with |- context [next_if ?c ?s add_r_addend ?k m] =>
    destruct (run_next_if c s add_r_addend k _ _ (λ _ _, eq_refl) Ht2) as (d3 & Ht3 & -> & Hd3) end.
  match type of Hd3 with _ = decoder ?x => set (s3 := x) in * end.
  assert (Hs3 : moved s s3 ∧ it_r_offset s3 = it_r_offset s2 ∧ it_r_info s3 = it_r_info s2).
  { unfold s3. destruct (rela && has_addend g && negb (by_addend g)); [|done].
    split_and!; [|done..]. unfold moved. rewrite Hm2. done. }
  clearbody s3. destruct Hs3 as (Hm3 & Ho3 & Hi3).
  exists s3. split_and!; [done|congruence|congruence|by rewrite Hd3 in Ht3|done].
Qed.

Lemma packed_reloc_fields_spec s g r rs rest :
  in_group s g (r :: rs) rest →
  let offset := u64 (it_r_offset s + (if by_offset g then pg_offset g else pr_offset r)) in
  ∃ s', packed_reloc_fields s m =
      (Ret (Done (offset, u64 (if by_info g then pg_info g else pr_info r)) s'), m) ∧
    in_group s' g rs rest ∧ it_r_offset s' = offset.
Proof using Type.
  intros [Ht Hfl Hoff Hinfo Hsize Hcount Hsmall Hrela] offset.
  unfold packed_reloc_fields. rewrite (has_flag_eq s g) by done. fold (by_offset g).
  rewrite relocs_tokens_cons, <- !app_assoc in Ht. cbn [length] in *.
  assert (Hs1 : ∃ s1, (if by_offset g
      then packed_info_addend (set_r_offset (it_r_offset s ⊕ group_r_offset_delta s) s)
      else next_or_return s (λ v s, packed_info_addend (set_r_offset (it_r_offset s ⊕ v) s))) m =
      packed_info_addend s1 m ∧ moved s s1 ∧ it_r_info s1 = it_r_info s ∧ it_r_offset s1 = offset ∧
    tokens_at m (decoder s1) (opt (negb (by_info g)) (pr_info r) ++
      opt (rela && has_addend g && negb (by_addend g)) (pr_addend r) ++
      relocs_tokens rela g rs ++ groups_tokens rela rest)).
  { destruct (by_offset g) eqn:Hbo; simpl in Ht.
    - eexists. split; [done|]. rewrite Hoff by done. split_and!; [by destruct s|done| |exact Ht].
      unfold offset. simpl. by autorewrite with wrapdb.
    - destruct (run_next_or_return s (λ v s, packed_info_addend (set_r_offset (it_r_offset s ⊕ v) s))
        _ _ Ht) as (d & Hd & ->).
      eexists. split; [done|]. split_and!; [by destruct s|done| |exact Hd].
      unfold offset. simpl. by autorewrite with wrapdb. }
  destruct Hs1 as (s1 & -> & Hm1 & Hi1 & Ho1 & Ht1).
  destruct (packed_info_addend_spec s1 g r (relocs_tokens rela g rs ++ groups_tokens rela rest))
    as (s2 & Hm2 & Ho2 & Hi2 & Ht2 & ->); [by rewrite Hm1|by rewrite Hm1|by rewrite Hi1|done|].
  eexists. split; [by rewrite Ho2, Ho1, Hi2|]. split; [|simpl; congruence].
  assert (Hm : moved s s2) by (unfold moved; rewrite Hm2, Hm1; done).
  pose proof (total_nonneg rest).
  rewrite Hm. split; simpl; try done; try congruence; rewrite ?wrap_small by lia; try lia.
  intros Hbi. by rewrite Hi2, Hbi.
Qed.

Lemma groups_tokens_cons g gs :
  groups_tokens rela (g :: gs) =
    Z.of_nat (length (pg_relocs g)) :: pg_flags g :: opt (by_offset g) (pg_offset g) ++
    opt (by_info g) (pg_info g) ++ opt (has_addend g && by_addend g) (pg_addend g) ++
    relocs_tokens rela g (pg_relocs g) ++ groups_tokens rela gs.
Proof using Type.
  unfold groups_tokens. simpl. unfold group_tokens. by rewrite <- !app_assoc.
Qed.

Lemma total_cons g gs : total (g :: gs) = Z.of_nat (length (pg_relocs g)) + total gs.
Proof using Type. unfold total. simpl. lia. Qed.

Lemma read_group_fields_spec s g g' rest :
  in_group s g [] (g' :: rest) → group_wf rela g' →
  ∃ s', xh_elf_packed_reloc_iterator_read_group_fields s m = (Ret (Done tt s'), m) ∧
    in_group s' g' (pg_relocs g') rest ∧ it_r_offset s' = it_r_offset s.
Proof using Type.
  intros [Ht _ _ _ Hsize Hcount Hsmall Hrela] (Hne & Hfl0 & Hadd).
  change (relocs_tokens rela g []) with (@nil Z) in Ht. cbn [app length] in *.
  rewrite groups_tokens_cons in Ht. rewrite total_cons in Hcount. pose proof (total_nonneg rest).
  pose proof (proj1 Ht) as Hall. rewrite !Forall_cons in Hall. destruct Hall as (Hn & Hf & _).
  unfold xh_elf_packed_reloc_iterator_read_group_fields.
  match goal with |- context [next_or_return s ?k m] =>
    destruct (run_next_or_return s k _ _ Ht) as (d1 & Ht1 & ->) end.
  cbv zeta. match goal with |- context [next_or_return ?s ?k m] =>
    destruct (run_next_or_return s k _ _ Ht1) as (d2 & Ht2 & ->) end.
  cbv zeta. rewrite !u64_int64_nonneg by (done || lia).
  match goal with |- context [next_if (has_flag _ ?x)] => set (s2 := x) in * end.
  rewrite (has_flag_eq s2 g') by done. fold (by_offset g').
  match goal with |- context [next_if ?c ?s set_group_r_offset_delta ?k m] =>
    destruct (run_next_if c s set_group_r_offset_delta k _ _ (λ _ _, eq_refl) Ht2)
      as (d3 & Ht3 & -> & Hd3) end.
  match type of Hd3 with _ = decoder ?x => set (s3 := x) in * end.
  assert (Hfl3 : group_flags s3 = pg_flags g') by (unfold s3; by destruct (by_offset g')).
  rewrite (has_flag_eq s3 g') by done. fold (by_info g'). rewrite Hd3 in Ht3.
  match goal with |- context [next_if ?c ?s set_r_info ?k m] =>
    destruct (run_next_if c s set_r_info k _ _ (λ _ _, eq_refl) Ht3) as (d4 & Ht4 & -> & Hd4) end.
  match type of Hd4 with _ = decoder ?x => set (s4 := x) in * end.
  assert (Hs4 : group_flags s4 = pg_flags g' ∧ group_size s4 = Z.of_nat (length (pg_relocs g')) ∧
    (by_offset g' = true → group_r_offset_delta s4 = u64 (pg_offset g')) ∧
    (by_info g' = true → it_r_info s4 = u64 (pg_info g')) ∧
    it_r_offset s4 = it_r_offset s ∧ relocation_count s4 = relocation_count s ∧
    relocation_index s4 = relocation_index s ∧ it_is_use_rela s4 = is_rela rela).
  { unfold s4, s3. destruct (by_offset g'), (by_info g'); simpl; by split_and!. }
  clearbody s4. clear s3 Hfl3 Hd3 Ht3 s2 Ht2. destruct Hs4 as (Hfl4 & Hsz4 & Hof4 & Hin4 & Ho4 & Hc4 & Hx4 & Hr4).
  rewrite !(has_flag_eq s4 g') by done. fold (has_addend g') (by_addend g').
  rewrite Hd4 in Ht4. rewrite Hr4.
  destruct (has_addend g' && by_addend g') eqn:Hgrp; simpl in Ht4.
  - replace (is_rela rela =? 0) with false.
    2: { unfold is_rela. destruct rela; [done|]. specialize (Hadd eq_refl). congruence. }
    match goal with |- context [next_or_return ?s ?k m] =>
      destruct (run_next_or_return s k _ _ Ht4) as (d5 & Ht5 & ->) end.
    eexists. split; [reflexivity|]. split; [|done]. split; simpl; try done; lia.
  - destruct (has_addend g'); simpl; (eexists; split; [reflexivity|]; split; [|done]);
      split; simpl; try done; lia.
Qed.

(** The next relocation of the stream, if there is one. *)
Lemma packed_next_spec s g rs rest :
  in_group s g rs rest → Forall (group_wf rela) rest →
  match rs, rest with
  | [], [] => xh_elf_packed_reloc_iterator_next s m = (Ret (Bail 0 s), m)
  | r :: rs, _ =>
      let offset := u64 (it_r_offset s + (if by_offset g then pg_offset g else pr_offset r)) in
      ∃ s', xh_elf_packed_reloc_iterator_next s m =
          (Ret (Done (offset, u64 (if by_info g then pg_info g else pr_info r)) s'), m) ∧
        in_group s' g rs rest ∧ it_r_offset s' = offset
  | [], g' :: rest' =>
      ∃ s', xh_elf_packed_reloc_iterator_next s m = xh_elf_packed_reloc_iterator_next s' m ∧
        in_group s' g' (pg_relocs g') rest' ∧ it_r_offset s' = it_r_offset s
  end.
Proof using Type.
  intros Hig Hwf. pose proof Hig as [_ _ _ _ Hsize Hcount Hsmall _].
  unfold xh_elf_packed_reloc_iterator_next. destruct rs as [|r rs]; cbn [length] in *.
  - destruct rest as [|g' rest'].
    { unfold total in Hcount. simpl in Hcount. destruct (Z.leb_spec (relocation_count s) (relocation_index s)); [done|lia]. }
    inversion_clear Hwf as [|? ? Hg' _]. pose proof Hg' as (Hne & _).
    rewrite total_cons in Hcount. pose proof (total_nonneg rest').
    assert (0 < length (pg_relocs g'))%nat by (destruct (pg_relocs g'); [done|simpl; lia]).
    destruct (read_group_fields_spec s g g' rest' Hig Hg') as (s' & Hrun & Hig' & Ho').
    exists s'. split; [|done]. pose proof Hig' as [_ _ _ _ Hsize' Hcount' _ _].
    destruct (Z.leb_spec (relocation_count s) (relocation_index s)); [lia|].
    destruct (Z.leb_spec (relocation_count s') (relocation_index s')); [lia|].
    destruct (Z.eqb_spec (relocation_group_index s) (group_size s)); [|lia].
    destruct (Z.eqb_spec (relocation_group_index s') (group_size s')); [lia|].
    by rewrite (CM_bind_Ret _ _ _ _ _ Hrun).
  - pose proof (total_nonneg rest).
    destruct (Z.leb_spec (relocation_count s) (relocation_index s)); [lia|].
    destruct (Z.eqb_spec (relocation_group_index s) (group_size s)); [lia|].
    by apply packed_reloc_fields_spec.
Qed.

Lemma packed_pull_group s g rs rest fuel :
  in_group s g rs rest → Forall (group_wf rela) rest →
  (length rs + sum_list_with (length ∘ pg_relocs) rest < fuel)%nat →
  packed_pull fuel s m =
    (Ret (relocs_meaning g (it_r_offset s) rs ++
          groups_meaning (end_offset g (it_r_offset s) rs) rest, 0), m).
Proof using Type.
  revert s g rs rest. induction fuel as [|fuel IH]; intros s g rs rest Hig Hwf Hfuel; [lia|].
  assert (Hone : ∀ s g r rs rest, in_group s g (r :: rs) rest → Forall (group_wf rela) rest →
    (length (r :: rs) + sum_list_with (length ∘ pg_relocs) rest < S fuel)%nat →
    packed_pull (S fuel) s m =
      (Ret (relocs_meaning g (it_r_offset s) (r :: rs) ++
            groups_meaning (end_offset g (it_r_offset s) (r :: rs)) rest, 0), m)).
  { clear s g rs rest Hig Hwf Hfuel. intros s g r rs rest Hig Hwf Hfuel.
    destruct (packed_next_spec s g (r :: rs) rest Hig Hwf) as (s' & Hrun & Hig' & Ho').
    cbn [packed_pull]. rewrite (CM_bind_Ret _ _ _ _ _ Hrun).
    rewrite (CM_bind_Ret _ _ _ _ _ (IH s' g rs rest Hig' Hwf ltac:(simpl in Hfuel; lia))).
    unfold mret, CM_ret. do 2 f_equal. rewrite Ho'. cbn [relocs_meaning]. cbv zeta. cbn [app]. do 2 f_equal.
    f_equal. unfold end_offset. cbn [relocs_meaning fmap list_fmap fst].
    rewrite last_cons. by destruct (last _). }
  destruct rs as [|r rs]; [|by apply Hone].
  destruct rest as [|g' rest'].
  - pose proof (packed_next_spec s g [] [] Hig Hwf) as Hrun. simpl in Hrun.
    cbn [packed_pull]. by rewrite (CM_bind_Ret _ _ _ _ _ Hrun).
  - destruct (packed_next_spec s g [] (g' :: rest') Hig Hwf) as (s' & Hrun & Hig' & Ho').
    inversion_clear Hwf as [|? ? (Hne & _) Hwf'].
    transitivity (packed_pull (S fuel) s' m).
    { cbn [packed_pull]. unfold mbind, CM_bind. by rewrite Hrun. }
    destruct (pg_relocs g') as [|r rs] eqn:Hrs; [done|].
    rewrite (Hone s' g' r rs rest' Hig' Hwf'); [|simpl in *; rewrite Hrs in Hfuel; simpl in Hfuel; lia].
    rewrite Ho'. cbn [relocs_meaning app groups_meaning]. by rewrite Hrs.
Qed.

End step.

(** ** The iterator enumerates the table *)

Definition no_group : packed_group := PackedGroup 0 0 0 0 [].

Lemma packed_init_spec m rela offset gs rel rel_sz :
  0 ≤ rel_sz → tokens_at m (Decoder rel (rel + rel_sz)) (table_tokens rela offset gs) →
  ∃ s, xh_elf_packed_reloc_iterator_init rel rel_sz (is_rela rela) m = (Ret (Done tt s), m) ∧
    in_group m rela s no_group [] gs ∧ it_r_offset s = u64 offset.
Proof.
  intros Hsz Ht. pose proof Ht as (Hall & _ & H0 & Hle & Hend). simpl in Hend, H0, Hle.
  unfold table_tokens in Ht, Hall. cbn [app] in Ht, Hall. rewrite Forall_cons in Hall. destruct Hall as [Htot _].
  unfold xh_elf_packed_reloc_iterator_init, xh_elf_sleb128_decoder_init.
  rewrite (wrap_small 64 (rel + rel_sz)) by lia.
  match goal with |- context [next_or_return ?s ?k m] =>
    destruct (run_next_or_return m s k _ _ Ht) as (d1 & Ht1 & ->) end.
  cbv zeta. match goal with |- context [next_or_return ?s ?k m] =>
    destruct (run_next_or_return m s k _ _ Ht1) as (d2 & Ht2 & ->) end.
  eexists. split; [reflexivity|]. split; [|done].
  rewrite (u64_int64_nonneg (total gs)) by (done || apply total_nonneg).
  pose proof (total_nonneg gs). unfold int64 in Htot.
  split; simpl; try done; lia.
Qed.

(** C29: the packed iterator, started on an encoded table, returns the
    relocations its groups stand for, in order, each once, and then NULL at the
    end of the table. *)
Theorem packed_iterator_enumerates m rela offset gs rel rel_sz fuel :
  0 ≤ rel_sz → tokens_at m (Decoder rel (rel + rel_sz)) (table_tokens rela offset gs) →
  Forall (group_wf rela) gs → total gs < Z.of_nat fuel →
  ∃ s, xh_elf_packed_reloc_iterator_init rel rel_sz (is_rela rela) m = (Ret (Done tt s), m) ∧
    packed_pull fuel s m = (Ret (groups_meaning (u64 offset) gs, 0), m).
Proof.
  intros Hsz Ht Hwf Hfuel. destruct (packed_init_spec _ _ _ _ _ _ Hsz Ht) as (s & Hinit & Hig & Ho).
  exists s. split; [done|].
  rewrite (packed_pull_group m rela s no_group [] gs fuel Hig Hwf) by (unfold total in Hfuel; simpl; lia).
  simpl. by rewrite Ho.
Qed.

(** Three relocations: two with a common distance, one of its own with an
    addend. *)
Definition sample_groups : list packed_group :=
  [PackedGroup 3 8 0x403 0 [PackedReloc 0 0 0; PackedReloc 0 0 0];
   PackedGroup 8 0 0 0 [PackedReloc (-24) 0x100000101 7]].
Definition sample_table : memory := sample_page (stream (table_tokens true 0x4000 sample_groups)).

Lemma packed_iterator_enumerates_witness :
  ∃ s, xh_elf_packed_reloc_iterator_init 0x1000 64 1 sample_table = (Ret (Done tt s), sample_table) ∧
    packed_pull 10 s sample_table =
      (Ret ([(0x4008, 0x403); (0x4010, 0x403); (0x3ff8, 0x100000101)], 0), sample_table).
Proof.
  apply (packed_iterator_enumerates sample_table true 0x4000 sample_groups 0x1000 64 10).
  - lia.
  - split_and!; [|vm_compute; by split_and!|vm_compute; done|vm_compute; done|vm_compute; done].
    apply (bool_decide_unpack _). vm_compute. done.
  - unfold sample_groups. rewrite !Forall_cons. split_and!; [split_and!; done..|]. by constructor.
  - vm_compute. done.
Defined.
