(* ===== verification/XhElfLocal.v ===== *)
(** * Which memory the packed iterator depends on

    A computation is local to a range of addresses when its result depends on
    no byte outside.  The packed iterator is local to its table, so hooking a
    slot elsewhere does not change the relocations still to come. *)

From S2P Require Import Prelude CMem XhUtil XhElfReloc XhElfRelocProps XhElfPacked.

#[local] Open Scope cint_scope.

Definition same_prot (m1 m2 : memory) : Prop := ∀ a, prot_at m2 a = prot_at m1 a.

#[export] Instance same_prot_preorder : PreOrder same_prot.
Proof. split; [done|]. intros m1 m2 m3 H1 H2 a. by rewrite H2. Qed.

Lemma allows_same_prot p n a m1 m2 : same_prot m1 m2 → allows p n a m2 = allows p n a m1.
Proof.
  intros H. revert a. induction n as [|n IH]; intros a; simpl; [done|].
  unfold byte_allows. by rewrite H, IH.
Qed.

Section local.
Context (lo hi : Z) (Hhi : hi < 2 ^ 64).

Definition agree (m1 m2 : memory) : Prop := ∀ b, lo ≤ b < hi → byte_of m2 b = byte_of m1 b.

(** Where [c] returns in [m1], it returns the same in every memory with the
    same bytes, or meets a permission that [m1] does not have; what it returns
    satisfies [P], and it changes nothing. *)
Definition local {A} (P : A → Prop) (c : CM memory A) : Prop :=
  ∀ m1 m2 r m1', agree m1 m2 → c m1 = (Ret r, m1') →
    P r ∧ m1' = m1 ∧
    (c m2 = (Ret r, m2) ∨ c m2 = (Err Segv, m2) ∧ ¬ same_prot m1 m2).

Lemma local_ret {A} (P : A → Prop) a : P a → local P (mret a).
Proof using Type. intros HP m1 m2 r m1' _ [= <- <-]. by split_and!; [|..|left]. Qed.

Lemma local_fail {A} (P : A → Prop) e : local P (fail e).
Proof using Type. done. Qed.

Lemma local_bind {A B} (P : A → Prop) (Q : B → Prop) (c : CM memory A) (f : A → CM memory B) :
  local P c → (∀ a, P a → local Q (f a)) → local Q (c ≫= f).
Proof using Type.
  intros Hc Hf m1 m2 r m1' Hm (a & m' & Ha & Hr)%CM_bind_inv.
  destruct (Hc _ _ _ _ Hm Ha) as (HP & -> & Hc2).
  destruct (Hf a HP _ _ _ _ Hm Hr) as (HQ & -> & Hf2). split; [done|]. split; [done|].
  destruct Hc2 as [Hc2|[Hc2 Hp]].
  - by rewrite (CM_bind_Ret _ _ _ _ _ Hc2).
  - right. by rewrite (CM_bind_Err _ _ _ _ _ Hc2).
Qed.

Lemma local_when (b : bool) (c : CM memory unit) :
  local (λ _, True) c → local (λ _, True) (when b c).
Proof using Type. intros Hc. destruct b; [done|]. by apply local_ret. Qed.

Lemma local_load n a : lo ≤ a → a + Z.of_nat n ≤ hi → local (λ _, True) (load n a).
Proof using Type.
  intros Hl Hh m1 m2 r m1' Hm (Hal & -> & ->)%load_inv. split; [done|]. split; [done|].
  assert (Hn : number_of m2 n a = number_of m1 n a).
  { apply number_of_ext. intros b Hb. apply Hm. lia. }
  unfold load. destruct (allows PROT_READ n a m2) eqn:E; [left; by rewrite Hn|].
  right. split; [done|]. intros Hp. apply (allows_same_prot PROT_READ n a) in Hp. congruence.
Qed.

(** *** The iterator *)

Definition dec_in (d : xh_elf_sleb128_decoder_t) : Prop := lo ≤ d_cur d ∧ d_end d = hi.
Definition iter_in (s : xh_elf_packed_reloc_iterator_t) : Prop := dec_in (decoder s).
Definition step_in {A} (r : step_result A) : Prop := iter_in (step_state r).

Lemma local_sleb128_loop fuel cur value shift :
  lo ≤ cur → 0 ≤ cur → local (λ r, dec_in r.2) (xh_elf_sleb128_loop fuel cur hi value shift).
Proof using Hhi.
  revert cur value shift. induction fuel as [|fuel IH]; intros cur value shift Hcur H0;
    [apply local_fail|]. cbn [xh_elf_sleb128_loop].
  destruct (Z.leb_spec hi cur); [by apply local_ret|].
  eapply local_bind; [apply local_load; lia|]. intros b _. cbv zeta.
  rewrite (wrap_small 64 (cur + 1)) by lia.
  eapply local_bind; [apply local_when, local_fail|]. intros _ _.
  destruct (truthy _); [apply IH; lia|]. apply local_ret. split; simpl; [lia|done].
Qed.

Lemma local_decoder_next d :
  0 ≤ lo → dec_in d → local (λ r, dec_in r.2) (xh_elf_sleb128_decoder_next d).
Proof using Hhi.
  intros H0 [Hc He]. unfold xh_elf_sleb128_decoder_next. rewrite He. apply local_sleb128_loop; lia.
Qed.

Context (Hlo : 0 ≤ lo).

Lemma local_next_or_return {A} (s : xh_elf_packed_reloc_iterator_t) k :
  iter_in s → (∀ v s', iter_in s' → local (@step_in A) (k v s')) →
  local step_in (next_or_return s k).
Proof using Hhi Hlo.
  intros Hs Hk. eapply local_bind; [by apply local_decoder_next|].
  intros [[v|] d] Hd; [by apply Hk|by apply local_ret].
Qed.

Lemma local_next_if {A} c s set k :
  (∀ v s, decoder (set v s) = decoder s) → iter_in s →
  (∀ s', iter_in s' → local (@step_in A) (k s')) → local step_in (next_if c s set k).
Proof using Hhi Hlo.
  intros Hset Hs Hk. destruct c; [|by apply Hk]. apply local_next_or_return; [done|].
  intros v s' Hs'. apply Hk. unfold iter_in. by rewrite Hset.
Qed.

#[local] Ltac local_go :=
  repeat first
    [ done
    | apply local_ret; done
    | apply local_next_or_return; [done|intros]
    | apply local_next_if; [done|done|intros]
    | match goal with |- local _ (if ?b then _ else _) => destruct b end ].

Lemma local_read_group_fields s :
  iter_in s → local step_in (xh_elf_packed_reloc_iterator_read_group_fields s).
Proof using Hhi Hlo.
  intros Hs. unfold xh_elf_packed_reloc_iterator_read_group_fields. cbv zeta. local_go.
Qed.

Lemma local_packed_reloc_fields s : iter_in s → local step_in (packed_reloc_fields s).
Proof using Hhi Hlo.
  intros Hs. unfold packed_reloc_fields, packed_info_addend. cbv zeta. local_go.
Qed.

Lemma local_packed_next s :
  iter_in s → local step_in (xh_elf_packed_reloc_iterator_next s).
Proof using Hhi Hlo.
  intros Hs. unfold xh_elf_packed_reloc_iterator_next. local_go.
  eapply (local_bind step_in).
  - destruct (_ =? _); [by apply local_read_group_fields|by apply local_ret].
  - intros [[] s'|r s'] Hs'; [by apply local_packed_reloc_fields|by apply local_ret].
Qed.

End local.

Lemma local_packed_init rel rel_sz r :
  0 ≤ rel → 0 ≤ rel_sz → rel + rel_sz < 2 ^ 64 →
  local rel (rel + rel_sz) (step_in rel (rel + rel_sz)) (xh_elf_packed_reloc_iterator_init rel rel_sz r).
Proof.
  intros H0 Hsz Hlt. unfold xh_elf_packed_reloc_iterator_init, xh_elf_sleb128_decoder_init.
  rewrite wrap_small by lia. cbv zeta.
  apply local_next_or_return; [done|done|split; simpl; lia|]. intros v s Hs.
  apply local_next_or_return; [done|done|done|]. intros v' s' Hs'. by apply local_ret.
Qed.
