(* ===== verification/XhElfTypes.v ===== *)
(** * xh_elf.h and elf.h: the data of the ELF hooker

    The library's view of a loaded ELF file and the layout of the structures it
    reads from memory, for the 64-bit class on AArch64. *)

From S2P Require Import Prelude CMem XhUtil XhElfReloc.

#[local] Open Scope cint_scope.

(** ** xh_elf_t

    Pointers are addresses; a C string passed in by the caller is the list of
    its bytes, NULL is [None]. *)

Record xh_elf_t : Set := XhElf {
  pathname : option (list Z);
  base_addr : Z;
  bias_addr : Z;
  ehdr : Z;
  phdr : Z;
  dyn : Z;
  dyn_sz : Z;
  strtab : Z;
  symtab : Z;
  relplt : Z;
  relplt_sz : Z;
  reldyn : Z;
  reldyn_sz : Z;
  relandroid : Z;
  relandroid_sz : Z;
  bucket : Z;
  bucket_cnt : Z;
  chain : Z;
  chain_cnt : Z;
  symoffset : Z;
  bloom : Z;
  bloom_sz : Z;
  bloom_shift : Z;
  is_use_rela : Z;
  is_use_gnu_hash : Z
}.

Definition xh_elf_zero : xh_elf_t :=
  XhElf None 0 0 0 0 0 0 0 0 0 0 0 0 0 0 0 0 0 0 0 0 0 0 0 0.

(** *** Assignments, field by field *)

Definition with_header (path : option (list Z)) (base eh ph : Z) (s : xh_elf_t) : xh_elf_t :=
  XhElf path base (bias_addr s) eh ph (dyn s) (dyn_sz s) (strtab s) (symtab s) (relplt s)
    (relplt_sz s) (reldyn s) (reldyn_sz s) (relandroid s) (relandroid_sz s) (bucket s)
    (bucket_cnt s) (chain s) (chain_cnt s) (symoffset s) (bloom s) (bloom_sz s) (bloom_shift s)
    (is_use_rela s) (is_use_gnu_hash s).
Definition with_bias_addr (v : Z) (s : xh_elf_t) : xh_elf_t :=
  XhElf (pathname s) (base_addr s) v (ehdr s) (phdr s) (dyn s) (dyn_sz s) (strtab s) (symtab s)
    (relplt s) (relplt_sz s) (reldyn s) (reldyn_sz s) (relandroid s) (relandroid_sz s) (bucket s)
    (bucket_cnt s) (chain s) (chain_cnt s) (symoffset s) (bloom s) (bloom_sz s) (bloom_shift s)
    (is_use_rela s) (is_use_gnu_hash s).
Definition with_dyn (v sz : Z) (s : xh_elf_t) : xh_elf_t :=
  XhElf (pathname s) (base_addr s) (bias_addr s) (ehdr s) (phdr s) v sz (strtab s) (symtab s)
    (relplt s) (relplt_sz s) (reldyn s) (reldyn_sz s) (relandroid s) (relandroid_sz s) (bucket s)
    (bucket_cnt s) (chain s) (chain_cnt s) (symoffset s) (bloom s) (bloom_sz s) (bloom_shift s)
    (is_use_rela s) (is_use_gnu_hash s).
Definition with_strtab (v : Z) (s : xh_elf_t) : xh_elf_t :=
  XhElf (pathname s) (base_addr s) (bias_addr s) (ehdr s) (phdr s) (dyn s) (dyn_sz s) v (symtab s)
    (relplt s) (relplt_sz s) (reldyn s) (reldyn_sz s) (relandroid s) (relandroid_sz s) (bucket s)
    (bucket_cnt s) (chain s) (chain_cnt s) (symoffset s) (bloom s) (bloom_sz s) (bloom_shift s)
    (is_use_rela s) (is_use_gnu_hash s).
Definition with_symtab (v : Z) (s : xh_elf_t) : xh_elf_t :=
  XhElf (pathname s) (base_addr s) (bias_addr s) (ehdr s) (phdr s) (dyn s) (dyn_sz s) (strtab s) v
    (relplt s) (relplt_sz s) (reldyn s) (reldyn_sz s) (relandroid s) (relandroid_sz s) (bucket s)
    (bucket_cnt s) (chain s) (chain_cnt s) (symoffset s) (bloom s) (bloom_sz s) (bloom_shift s)
    (is_use_rela s) (is_use_gnu_hash s).
Definition with_relplt (v sz : Z) (s : xh_elf_t) : xh_elf_t :=
  XhElf (pathname s) (base_addr s) (bias_addr s) (ehdr s) (phdr s) (dyn s) (dyn_sz s) (strtab s)
    (symtab s) v sz (reldyn s) (reldyn_sz s) (relandroid s) (relandroid_sz s) (bucket s)
    (bucket_cnt s) (chain s) (chain_cnt s) (symoffset s) (bloom s) (bloom_sz s) (bloom_shift s)
    (is_use_rela s) (is_use_gnu_hash s).
Definition with_reldyn (v sz : Z) (s : xh_elf_t) : xh_elf_t :=
  XhElf (pathname s) (base_addr s) (bias_addr s) (ehdr s) (phdr s) (dyn s) (dyn_sz s) (strtab s)
    (symtab s) (relplt s) (relplt_sz s) v sz (relandroid s) (relandroid_sz s) (bucket s)
    (bucket_cnt s) (chain s) (chain_cnt s) (symoffset s) (bloom s) (bloom_sz s) (bloom_shift s)
    (is_use_rela s) (is_use_gnu_hash s).
Definition with_relandroid (v sz : Z) (s : xh_elf_t) : xh_elf_t :=
  XhElf (pathname s) (base_addr s) (bias_addr s) (ehdr s) (phdr s) (dyn s) (dyn_sz s) (strtab s)
    (symtab s) (relplt s) (relplt_sz s) (reldyn s) (reldyn_sz s) v sz (bucket s)
    (bucket_cnt s) (chain s) (chain_cnt s) (symoffset s) (bloom s) (bloom_sz s) (bloom_shift s)
    (is_use_rela s) (is_use_gnu_hash s).
Definition with_is_use_rela (v : Z) (s : xh_elf_t) : xh_elf_t :=
  XhElf (pathname s) (base_addr s) (bias_addr s) (ehdr s) (phdr s) (dyn s) (dyn_sz s) (strtab s)
    (symtab s) (relplt s) (relplt_sz s) (reldyn s) (reldyn_sz s) (relandroid s) (relandroid_sz s)
    (bucket s) (bucket_cnt s) (chain s) (chain_cnt s) (symoffset s) (bloom s) (bloom_sz s)
    (bloom_shift s) v (is_use_gnu_hash s).
(** The assignments of the DT_HASH and DT_GNU_HASH cases. *)
Definition with_elf_hash (bcnt ccnt b c : Z) (s : xh_elf_t) : xh_elf_t :=
  XhElf (pathname s) (base_addr s) (bias_addr s) (ehdr s) (phdr s) (dyn s) (dyn_sz s) (strtab s)
    (symtab s) (relplt s) (relplt_sz s) (reldyn s) (reldyn_sz s) (relandroid s) (relandroid_sz s)
    b bcnt c ccnt (symoffset s) (bloom s) (bloom_sz s) (bloom_shift s)
    (is_use_rela s) (is_use_gnu_hash s).
Definition with_gnu_hash (bcnt symoff blsz blshift bl b c : Z) (s : xh_elf_t) : xh_elf_t :=
  XhElf (pathname s) (base_addr s) (bias_addr s) (ehdr s) (phdr s) (dyn s) (dyn_sz s) (strtab s)
    (symtab s) (relplt s) (relplt_sz s) (reldyn s) (reldyn_sz s) (relandroid s) (relandroid_sz s)
    b bcnt c (chain_cnt s) symoff bl blsz blshift (is_use_rela s) 1.

(** ** Layout (elf.h) *)

Definition SIZEOF_PHDR : Z := 56.
Definition SIZEOF_DYN : Z := 16.
Definition SIZEOF_SYM : Z := 24.

Definition e_type (eh : Z) : CM memory Z := load16 (eh + 16).
Definition e_machine (eh : Z) : CM memory Z := load16 (eh + 18).
Definition e_version (eh : Z) : CM memory Z := load32 (eh + 20).
Definition e_phoff (eh : Z) : CM memory Z := load64 (eh + 32).
Definition e_phnum (eh : Z) : CM memory Z := load16 (eh + 56).
Definition p_type (ph : Z) : CM memory Z := load32 ph.
Definition p_offset (ph : Z) : CM memory Z := load64 (ph + 8).
Definition p_vaddr (ph : Z) : CM memory Z := load64 (ph + 16).
Definition p_memsz (ph : Z) : CM memory Z := load64 (ph + 40).
Definition d_tag (d : Z) : CM memory Z := load64 d.
Definition d_val (d : Z) : CM memory Z := load64 (d + 8).
Definition st_name (sym : Z) : CM memory Z := load32 sym.
Definition r_offset (r : Z) : CM memory Z := load64 r.
Definition r_info (r : Z) : CM memory Z := load64 (r + 8).

Definition ELFMAG : Z := 0x464c457f.
Definition ELFCLASS64 : Z := 2.
Definition ELFDATA2LSB : Z := 1.
Definition EV_CURRENT : Z := 1.
Definition ET_EXEC : Z := 2.
Definition ET_DYN : Z := 3.
Definition EM_AARCH64 : Z := 183.
Definition PT_LOAD : Z := 1.
Definition PT_DYNAMIC : Z := 2.
Definition DT_NULL : Z := 0.
Definition DT_PLTRELSZ : Z := 2.
Definition DT_HASH : Z := 4.
Definition DT_STRTAB : Z := 5.
Definition DT_SYMTAB : Z := 6.
Definition DT_RELA : Z := 7.
Definition DT_RELASZ : Z := 8.
Definition DT_REL : Z := 17.
Definition DT_RELSZ : Z := 18.
Definition DT_PLTREL : Z := 20.
Definition DT_JMPREL : Z := 23.
Definition DT_ANDROID_REL : Z := 0x6000000f.
Definition DT_ANDROID_RELSZ : Z := 0x60000010.
Definition DT_ANDROID_RELA : Z := 0x60000011.
Definition DT_ANDROID_RELASZ : Z := 0x60000012.
Definition DT_GNU_HASH : Z := 0x6ffffef5.
Definition XH_ELF_R_GENERIC_JUMP_SLOT : Z := 1026.  (* R_AARCH64_JUMP_SLOT *)
Definition XH_ELF_R_GENERIC_GLOB_DAT : Z := 1025.   (* R_AARCH64_GLOB_DAT *)
Definition XH_ELF_R_GENERIC_ABS : Z := 257.         (* R_AARCH64_ABS64 *)
Definition XH_ELF_R_SYM (info : Z) : Z := info >> 32.
Definition XH_ELF_R_TYPE (info : Z) : Z := info & 0xffffffff.
