(* ===== verification/XhElfHash.v ===== *)
(** * xh_elf.c: symbol lookup

    The SysV and GNU hash functions and the search of the two kinds of hash
    table (xh_elf.c lines 301 to 326 and 356 to 446). *)

From S2P Require Import Prelude CMem XhUtil XhElfReloc XhElfTypes.

#[local] Open Scope cint_scope.

(** ** Hash functions *)

Definition elf_hash_step (h c : Z) : Z :=
  let h := u32 (u32 (h << 4) + c) in
  let g := h & 0xf0000000 in
  let h := Z.lxor h g in
  Z.lxor h (g >> 24).
Definition xh_elf_hash (name : list Z) : Z := foldl elf_hash_step 0 name.

Definition gnu_hash_step (h c : Z) : Z := u32 (h + (u32 (h << 5) + c)).
Definition xh_elf_gnu_hash (name : list Z) : Z := foldl gnu_hash_step 5381 name.

(** ** Lookup

    [symbol] is the caller's string.  A lookup returns its error code and the
    index it stored. *)

(** [x % n] for unsigned words; division by zero is undefined. *)
Definition umod (x n : Z) : CM memory Z := if n =? 0 then fail Undefined else mret (x mod n).
(** [arr[i]] for an array of words of 4 or 8 bytes. *)
Definition index32 (arr i : Z) : CM memory Z := load32 (arr ⊕ 4 * i).
Definition index64 (arr i : Z) : CM memory Z := load64 (arr ⊕ 8 * i).

(** [self->strtab + self->symtab[i].st_name] *)
Definition sym_name (self : xh_elf_t) (i : Z) : CM memory Z :=
  n ← st_name (symtab self ⊕ SIZEOF_SYM * i); mret (strtab self ⊕ n).

Fixpoint xh_elf_hash_chain (fuel : nat) (self : xh_elf_t) (symbol : list Z) (i : Z)
  : CM memory (Z * Z) :=
  if i =? 0 then mret (XH_ERRNO_NOTFND, 0)
  else
    match fuel with
    | O => fail OutOfFuel
    | S fuel =>
        symbol_cur ← sym_name self i;
        eq ← strcmp_eq symbol symbol_cur;
        if eq : bool then mret (0, i)
        else
          i ← index32 (chain self) i;
          xh_elf_hash_chain fuel self symbol i
    end.

Definition xh_elf_hash_lookup (fuel : nat) (self : xh_elf_t) (symbol : list Z)
  : CM memory (Z * Z) :=
  let hash := xh_elf_hash symbol in
  b ← umod hash (bucket_cnt self);
  i ← index32 (bucket self) b;
  xh_elf_hash_chain fuel self symbol i.

Definition elfclass_bits : Z := 64.

(** [hash >> n] for a 32-bit word; shifting by 32 or more is undefined. *)
Definition ushr32 (x n : Z) : CM memory Z := if 32 <=? n then fail Undefined else mret (x >> n).

Fixpoint xh_elf_gnu_hash_chain (fuel : nat) (self : xh_elf_t) (symbol : list Z) (hash i : Z)
  : CM memory (Z * Z) :=
  match fuel with
  | O => fail OutOfFuel
  | S fuel =>
      symname ← sym_name self i;
      symhash ← index32 (chain self) (u32 (i - symoffset self));
      eq ← (if (hash .| 1) =? (symhash .| 1) then strcmp_eq symbol symname else mret false);
      if eq : bool then mret (0, i)
      else if truthy (symhash & 1) then mret (XH_ERRNO_NOTFND, 0)
      else xh_elf_gnu_hash_chain fuel self symbol hash (u32 (i + 1))
  end.

Definition xh_elf_gnu_hash_lookup_def (fuel : nat) (self : xh_elf_t) (symbol : list Z)
  : CM memory (Z * Z) :=
  let hash := xh_elf_gnu_hash symbol in
  w ← umod (hash / elfclass_bits) (bloom_sz self);
  word ← index64 (bloom self) w;
  h2 ← ushr32 hash (bloom_shift self);
  let mask := (1 << (hash mod elfclass_bits)) .| (1 << (h2 mod elfclass_bits)) in
  if negb ((word & mask) =? mask) then mret (XH_ERRNO_NOTFND, 0)
  else
    b ← umod hash (bucket_cnt self);
    i ← index32 (bucket self) b;
    if i <? symoffset self then mret (XH_ERRNO_NOTFND, 0)
    else xh_elf_gnu_hash_chain fuel self symbol hash i.

(** The loop over the first [n] of the [symoffset] undefined symbols, from
    index [i] on. *)
Fixpoint xh_elf_gnu_undef_loop (n : nat) (self : xh_elf_t) (symbol : list Z) (i : Z)
  : CM memory (Z * Z) :=
  match n with
  | O => mret (XH_ERRNO_NOTFND, 0)
  | S n =>
      symname ← sym_name self i;
      eq ← strcmp_eq symbol symname;
      if eq : bool then mret (0, i) else xh_elf_gnu_undef_loop n self symbol (i + 1)
  end.

Definition xh_elf_gnu_hash_lookup_undef (self : xh_elf_t) (symbol : list Z) : CM memory (Z * Z) :=
  xh_elf_gnu_undef_loop (Z.to_nat (symoffset self)) self symbol 0.

Definition xh_elf_gnu_hash_lookup (fuel : nat) (self : xh_elf_t) (symbol : list Z)
  : CM memory (Z * Z) :=
  '(r, i) ← xh_elf_gnu_hash_lookup_def fuel self symbol;
  if r =? 0 then mret (0, i)
  else
    '(r, i) ← xh_elf_gnu_hash_lookup_undef self symbol;
    if r =? 0 then mret (0, i) else mret (XH_ERRNO_NOTFND, 0).

Definition xh_elf_find_symidx_by_name (fuel : nat) (self : xh_elf_t) (symbol : list Z)
  : CM memory (Z * Z) :=
  if truthy (is_use_gnu_hash self) then xh_elf_gnu_hash_lookup fuel self symbol
  else xh_elf_hash_lookup fuel self symbol.
