(* ===== verification/XhElfInit.v ===== *)
(** * xh_elf.c: parsing a loaded ELF file

    The header check, the segment searches, the dynamic section and
    xh_elf_init (xh_elf.c lines 258 to 299, 328 to 354, 499 to 548, 760 to 926).
    Initialisation assigns the object field by field and keeps what it has
    assigned when it fails, so it runs on memory and object together. *)

From S2P Require Import Prelude CMem XhUtil XhElfReloc XhElfTypes.

#[local] Open Scope cint_scope.

(** ** xh_elf_check_elfheader *)

Definition xh_elf_check_elfheader (base : Z) : CM memory Z :=
  magic ← load32 base;
  if negb (magic =? ELFMAG) then mret XH_ERRNO_FORMAT else
  cls ← load8 (base + 4);
  if negb (cls =? ELFCLASS64) then mret XH_ERRNO_FORMAT else
  data ← load8 (base + 5);
  if negb (data =? ELFDATA2LSB) then mret XH_ERRNO_FORMAT else
  ver ← load8 (base + 6);
  if negb (ver =? EV_CURRENT) then mret XH_ERRNO_FORMAT else
  type ← e_type base;
  if negb (type =? ET_EXEC) && negb (type =? ET_DYN) then mret XH_ERRNO_FORMAT else
  machine ← e_machine base;
  if negb (machine =? EM_AARCH64) then mret XH_ERRNO_FORMAT else
  version ← e_version base;
  if negb (version =? EV_CURRENT) then mret XH_ERRNO_FORMAT else
  mret 0.

(** ** Segments *)

(** The loop over the [n] program headers from [ph] on. *)
Fixpoint first_segment_by_type (n : nat) (ph type : Z) : CM memory (option Z) :=
  match n with
  | O => mret None
  | S n =>
      t ← p_type ph;
      if t =? type then mret (Some ph) else first_segment_by_type n (ph ⊕ SIZEOF_PHDR) type
  end.

(** The offset is read only where the type matches. *)
Fixpoint first_segment_by_type_offset (n : nat) (ph type offset : Z) : CM memory (option Z) :=
  match n with
  | O => mret None
  | S n =>
      t ← p_type ph;
      m ← (if t =? type then o ← p_offset ph; mret (o =? offset) else mret false);
      if m : bool then mret (Some ph)
      else first_segment_by_type_offset n (ph ⊕ SIZEOF_PHDR) type offset
  end.

Definition xh_elf_get_first_segment_by_type (self : xh_elf_t) (type : Z) : CM memory (option Z) :=
  n ← e_phnum (ehdr self); first_segment_by_type (Z.to_nat n) (phdr self) type.

Definition xh_elf_get_first_segment_by_type_offset (self : xh_elf_t) (type offset : Z)
  : CM memory (option Z) :=
  n ← e_phnum (ehdr self); first_segment_by_type_offset (Z.to_nat n) (phdr self) type offset.

(** ** xh_elf_check *)

Definition xh_elf_check (self : xh_elf_t) : Z :=
  if base_addr self =? 0 then 1
  else if bias_addr self =? 0 then 1
  else if ehdr self =? 0 then 1
  else if phdr self =? 0 then 1
  else if strtab self =? 0 then 1
  else if symtab self =? 0 then 1
  else if bucket self =? 0 then 1
  else if chain self =? 0 then 1
  else if (is_use_gnu_hash self =? 1) && (bloom self =? 0) then 1
  else 0.

(** ** xh_elf_init *)

Record elf_state : Set := ElfState { es_mem : memory; es_self : xh_elf_t }.
Abbreviation E := (CM elf_state).

(** A read of memory. *)
Definition in_mem {A} (c : CM memory A) : E A := λ s,
  let '(r, m) := c (es_mem s) in (r, ElfState m (es_self s)).
Definition get_self : E xh_elf_t := gets es_self.
Definition set_self (f : xh_elf_t → xh_elf_t) : E unit :=
  modify (λ s, ElfState (es_mem s) (f (es_self s))).

(** [if(p < self->base_addr) return XH_ERRNO_FORMAT;] after the field is set. *)
Definition check_above (p : Z) : E Z :=
  self ← get_self; mret (if p <? base_addr self then XH_ERRNO_FORMAT else 0).

Definition is_one_of (l : list Z) (z : Z) : bool := existsb (Z.eqb z) l.

(** [dyn->d_un.d_val], and [self->bias_addr + dyn->d_un.d_ptr]. *)
Definition dyn_val (d : Z) : E Z := in_mem (d_val d).
Definition dyn_ptr (d : Z) : E Z :=
  val ← dyn_val d; self ← get_self; mret (bias_addr self ⊕ val).

Definition init_hash (d : Z) : E Z :=
  self ← get_self;
  if is_use_gnu_hash self =? 1 then mret 0
  else
    raw ← dyn_ptr d;
    r ← check_above raw;
    if negb (r =? 0) then mret r
    else
      raw0 ← in_mem (load32 raw);
      raw1 ← in_mem (load32 (raw ⊕ 4));
      let b := raw ⊕ 8 in
      set_self (with_elf_hash raw0 raw1 b (b ⊕ 4 * raw0));; mret 0.

Definition init_gnu_hash (d : Z) : E Z :=
  raw ← dyn_ptr d;
  r ← check_above raw;
  if negb (r =? 0) then mret r
  else
    raw0 ← in_mem (load32 raw);
    raw1 ← in_mem (load32 (raw ⊕ 4));
    raw2 ← in_mem (load32 (raw ⊕ 8));
    raw3 ← in_mem (load32 (raw ⊕ 12));
    let bl := raw ⊕ 16 in
    let b := bl ⊕ 8 * raw2 in
    set_self (with_gnu_hash raw0 raw1 raw2 raw3 bl b (b ⊕ 4 * raw0));; mret 0.

(** The entry at [d] with a tag other than DT_NULL: 0 to go on, else the error
    code.  The value is read only by the cases that use it. *)
Definition init_dyn_entry (tag d : Z) : E Z :=
  if tag =? DT_STRTAB then ptr ← dyn_ptr d; set_self (with_strtab ptr);; check_above ptr
  else if tag =? DT_SYMTAB then ptr ← dyn_ptr d; set_self (with_symtab ptr);; check_above ptr
  else if tag =? DT_PLTREL then
    val ← dyn_val d; set_self (with_is_use_rela (if val =? DT_RELA then 1 else 0));; mret 0
  else if tag =? DT_JMPREL then
    ptr ← dyn_ptr d; set_self (λ s, with_relplt ptr (relplt_sz s) s);; check_above ptr
  else if tag =? DT_PLTRELSZ then
    val ← dyn_val d; set_self (λ s, with_relplt (relplt s) (u32 val) s);; mret 0
  else if is_one_of [DT_REL; DT_RELA] tag then
    ptr ← dyn_ptr d; set_self (λ s, with_reldyn ptr (reldyn_sz s) s);; check_above ptr
  else if is_one_of [DT_RELSZ; DT_RELASZ] tag then
    val ← dyn_val d; set_self (λ s, with_reldyn (reldyn s) (u32 val) s);; mret 0
  else if is_one_of [DT_ANDROID_REL; DT_ANDROID_RELA] tag then
    ptr ← dyn_ptr d; set_self (λ s, with_relandroid ptr (relandroid_sz s) s);; check_above ptr
  else if is_one_of [DT_ANDROID_RELSZ; DT_ANDROID_RELASZ] tag then
    val ← dyn_val d; set_self (λ s, with_relandroid (relandroid s) (u32 val) s);; mret 0
  else if tag =? DT_HASH then init_hash d
  else if tag =? DT_GNU_HASH then init_gnu_hash d
  else mret 0.

(** The loop over the [n] entries from [d] on; DT_NULL ends it. *)
Fixpoint init_dyn_loop (n : nat) (d : Z) : E Z :=
  match n with
  | O => mret 0
  | S n =>
      tag ← in_mem (d_tag d);
      if tag =? DT_NULL then mret 0
      else
        r ← init_dyn_entry tag d;
        if negb (r =? 0) then mret r else init_dyn_loop n (d ⊕ SIZEOF_DYN)
  end.

(** The packed relocations' magic, "APS2", compared byte by byte. *)
Fixpoint magic_at (a : Z) (magic : list Z) : CM memory bool :=
  match magic with
  | [] => mret true
  | c :: magic => b ← load8 a; if b =? c then magic_at (a + 1) magic else mret false
  end.
Definition APS2 : list Z := [65; 80; 83; 50].

Definition init_android_rel : E Z :=
  self ← get_self;
  if relandroid self =? 0 then mret 0
  else
    ok ← (if relandroid_sz self <? 4 then mret false else in_mem (magic_at (relandroid self) APS2));
    if negb ok then mret XH_ERRNO_FORMAT
    else
      set_self (with_relandroid (relandroid self ⊕ 4) (relandroid_sz self - 4));; mret 0.

(** After [base_addr] and [pathname] were found not to be NULL. *)
Definition xh_elf_init_body (base : Z) (path : list Z) : E Z :=
  set_self (λ _, with_header (Some path) base base 0 xh_elf_zero);;
  phoff ← in_mem (e_phoff base);
  set_self (with_header (Some path) base base (base ⊕ phoff));;
  self ← get_self;
  phdr0 ← in_mem (xh_elf_get_first_segment_by_type_offset self PT_LOAD 0);
  match phdr0 with
  | None => mret XH_ERRNO_FORMAT
  | Some phdr0 =>
      vaddr ← in_mem (p_vaddr phdr0);
      if base <? vaddr then mret XH_ERRNO_FORMAT
      else
        set_self (with_bias_addr (base - vaddr));;
        self ← get_self;
        dhdr ← in_mem (xh_elf_get_first_segment_by_type self PT_DYNAMIC);
        match dhdr with
        | None => mret XH_ERRNO_FORMAT
        | Some dhdr =>
            dvaddr ← in_mem (p_vaddr dhdr);
            memsz ← in_mem (p_memsz dhdr);
            let d := bias_addr self ⊕ dvaddr in
            set_self (with_dyn d (u32 memsz));;
            r ← init_dyn_loop (Z.to_nat (u32 memsz / SIZEOF_DYN)) d;
            if negb (r =? 0) then mret r
            else
              r ← init_android_rel;
              if negb (r =? 0) then mret r
              else
                self ← get_self;
                if negb (xh_elf_check self =? 0) then mret XH_ERRNO_FORMAT else mret 0
        end
  end.

Definition xh_elf_init (base : Z) (path : option (list Z)) : E Z :=
  match path with
  | Some path => if base =? 0 then mret XH_ERRNO_INVAL else xh_elf_init_body base path
  | None => mret XH_ERRNO_INVAL
  end.
