(* ===== verification/XhElfHook.v ===== *)
(** * xh_elf.c: hooking

    Replacing a function pointer in memory, and the search of the three kinds
    of relocation tables for the slots of a symbol (xh_elf.c lines 448 to 497
    and 928 to 1046). *)

From S2P Require Import Prelude CMem XhUtil XhElfReloc XhElfTypes XhElfHash.

#[local] Open Scope cint_scope.

Section hook.
Context {K : Kernel}.

(** ** xh_elf_replace_function

    [old_func] is the address of the caller's variable, 0 for NULL. *)

Definition need_prot : Z := PROT_READ .| PROT_WRITE.

(** From saving the old function to the flush of the cache. *)
Definition replace_slot (addr new_func old_func old_prot : Z) : CM memory Z :=
  old_addr ← load64 addr;
  when (negb (old_func =? 0)) (store 8 old_func old_addr);;
  store 8 addr new_func;;
  when (negb (old_prot =? need_prot))
    (_ ← xh_util_set_addr_protect addr old_prot; mret tt);;
  xh_util_flush_instruction_cache addr;;
  mret 0.

Definition xh_elf_replace_function (self : xh_elf_t) (addr new_func old_func : Z) : CM memory Z :=
  cur ← load64 addr;
  if cur =? new_func then mret 0
  else
    '(r, old_prot) ← xh_util_get_addr_protect addr (pathname self);
    if negb (r =? 0) then mret r
    else
      r ← (if negb (old_prot =? need_prot) then xh_util_set_addr_protect addr need_prot else mret 0);
      if negb (r =? 0) then mret r
      else replace_slot addr new_func old_func old_prot.

(** ** xh_elf_find_and_replace_func *)

(** What an iterator returns a pointer to: an entry of a table in memory, or
    the packed iterator's own copy. *)
Inductive reloc_ptr : Set :=
  | RelocAt (a : Z)
  | RelocCopy (offset info : Z).

Definition reloc_info (rel : reloc_ptr) : CM memory Z :=
  match rel with RelocAt a => r_info a | RelocCopy _ i => mret i end.
Definition reloc_offset (rel : reloc_ptr) : CM memory Z :=
  match rel with RelocAt a => r_offset a | RelocCopy o _ => mret o end.

(** The types that hold a function's address, in a PLT or elsewhere. *)
Definition hookable (is_plt : bool) (type : Z) : bool :=
  if is_plt then type =? XH_ELF_R_GENERIC_JUMP_SLOT
  else (type =? XH_ELF_R_GENERIC_GLOB_DAT) || (type =? XH_ELF_R_GENERIC_ABS).

(** The error code and [*found]. *)
Definition xh_elf_find_and_replace_func (self : xh_elf_t) (is_plt : bool)
    (new_func old_func symidx : Z) (rel : reloc_ptr) : CM memory (Z * bool) :=
  info ← reloc_info rel;
  offset ← reloc_offset rel;
  if negb (XH_ELF_R_SYM info =? symidx) then mret (0, false)
  else if negb (hookable is_plt (XH_ELF_R_TYPE info)) then mret (0, false)
  else
    let addr := bias_addr self ⊕ offset in
    if addr <? base_addr self then mret (XH_ERRNO_FORMAT, true)
    else
      r ← xh_elf_replace_function self addr new_func old_func;
      mret (r, true).

(** ** xh_elf_hook *)

(** The loop over the PLT, which stops at the first slot it finds. *)
Fixpoint hook_plt_loop (fuel : nat) (self : xh_elf_t) (new_func old_func symidx : Z)
    (it : xh_elf_plain_reloc_iterator_t) : CM memory Z :=
  match xh_elf_plain_reloc_iterator_next it with
  | (None, _) => mret 0
  | (Some a, it) =>
      match fuel with
      | O => fail OutOfFuel
      | S fuel =>
          '(r, found) ← xh_elf_find_and_replace_func self true new_func old_func symidx (RelocAt a);
          if negb (r =? 0) then mret r
          else if found : bool then mret 0
          else hook_plt_loop fuel self new_func old_func symidx it
      end
  end.

(** The loop over the other plain table: every slot. *)
Fixpoint hook_dyn_loop (fuel : nat) (self : xh_elf_t) (new_func old_func symidx : Z)
    (it : xh_elf_plain_reloc_iterator_t) : CM memory Z :=
  match xh_elf_plain_reloc_iterator_next it with
  | (None, _) => mret 0
  | (Some a, it) =>
      match fuel with
      | O => fail OutOfFuel
      | S fuel =>
          '(r, _) ← xh_elf_find_and_replace_func self false new_func old_func symidx (RelocAt a);
          if negb (r =? 0) then mret r
          else hook_dyn_loop fuel self new_func old_func symidx it
      end
  end.

(** The loop over the packed table. *)
Fixpoint hook_android_loop (fuel : nat) (self : xh_elf_t) (new_func old_func symidx : Z)
    (it : xh_elf_packed_reloc_iterator_t) : CM memory Z :=
  res ← xh_elf_packed_reloc_iterator_next it;
  match res with
  | Bail _ _ => mret 0
  | Done (offset, info) it =>
      match fuel with
      | O => fail OutOfFuel
      | S fuel =>
          '(r, _) ← xh_elf_find_and_replace_func self false new_func old_func symidx
                      (RelocCopy offset info);
          if negb (r =? 0) then mret r
          else hook_android_loop fuel self new_func old_func symidx it
      end
  end.

Definition hook_relplt (self : xh_elf_t) (new_func old_func symidx : Z) : CM memory Z :=
  if relplt self =? 0 then mret 0
  else
    hook_plt_loop (Z.to_nat (relplt_sz self)) self new_func old_func symidx
      (xh_elf_plain_reloc_iterator_init (relplt self) (relplt_sz self) (is_use_rela self)).

Definition hook_reldyn (self : xh_elf_t) (new_func old_func symidx : Z) : CM memory Z :=
  if reldyn self =? 0 then mret 0
  else
    hook_dyn_loop (Z.to_nat (reldyn_sz self)) self new_func old_func symidx
      (xh_elf_plain_reloc_iterator_init (reldyn self) (reldyn_sz self) (is_use_rela self)).

Definition hook_relandroid (self : xh_elf_t) (new_func old_func symidx : Z) : CM memory Z :=
  if relandroid self =? 0 then mret 0
  else
    (* the result of the initialisation is ignored *)
    init ← xh_elf_packed_reloc_iterator_init (relandroid self) (relandroid_sz self) (is_use_rela self);
    let it := step_state init in
    hook_android_loop (Z.to_nat (relocation_count it)) self new_func old_func symidx it.

(** The three tables, one after the other, until an error. *)
Definition hook_tables (self : xh_elf_t) (new_func old_func symidx : Z) : CM memory Z :=
  r ← hook_relplt self new_func old_func symidx;
  if negb (r =? 0) then mret r
  else
    r ← hook_reldyn self new_func old_func symidx;
    if negb (r =? 0) then mret r
    else hook_relandroid self new_func old_func symidx.

(** [fuel] bounds the hash chain.  A symbol the file does not have is not an
    error. *)
Definition xh_elf_hook (fuel : nat) (self : xh_elf_t) (symbol : option (list Z))
    (new_func old_func : Z) : CM memory Z :=
  match pathname self with
  | None => mret XH_ERRNO_ELFINIT
  | Some _ =>
      match symbol with
      | None => mret XH_ERRNO_INVAL
      | Some symbol =>
          if new_func =? 0 then mret XH_ERRNO_INVAL
          else
            '(r, symidx) ← xh_elf_find_symidx_by_name fuel self symbol;
            if negb (r =? 0) then mret 0
            else hook_tables self new_func old_func symidx
      end
  end.

End hook.
