(* ===== verification/Sample.v ===== *)
(** * A sample ELF image

    A shared object loaded at 0x10000, small enough to evaluate: two symbols,
    open and read, SysV and GNU hash tables, a PLT, a GOT and packed
    relocations.  The witnesses of the ELF properties run on it. *)

From S2P Require Import Prelude CMem XhUtil XhElfReloc XhElfRelocProps XhElfTypes XhElfHash.

#[local] Open Scope cint_scope.

Definition SB : Z := 0x10000.

Fixpoint put_words (n : nat) (a : Z) (ws : list Z) (d : gmap Z Z) : gmap Z Z :=
  match ws with
  | [] => d
  | w :: ws => write_data n a w (put_words n (a + Z.of_nat n) ws d)
  end.

Definition sym_open : list Z := bytes_of_string "open".
Definition sym_read : list Z := bytes_of_string "read".
Definition sym_close : list Z := bytes_of_string "close".

Definition sample_dynamic (gnu : bool) : list Z :=
  [DT_STRTAB; 0x180; DT_SYMTAB; 0x100; DT_PLTREL; DT_RELA; DT_JMPREL; 0x200; DT_PLTRELSZ; 24;
   DT_RELA; 0x240; DT_RELASZ; 48; DT_ANDROID_RELA; 0x280; DT_ANDROID_RELASZ; 32] ++
  (if gnu then [DT_GNU_HASH; 0x300] else [DT_HASH; 0x1c0]) ++ [DT_NULL; 0].

Definition sample_packed : list Z :=
  stream [1; 0x1218; 1; 0; 0; 0x200000000 + XH_ELF_R_GENERIC_ABS].

Definition sample_data (gnu : bool) : gmap Z Z :=
  (* ELF header *)
  put_words 4 SB [ELFMAG; 0x00010102] (put_words 2 (SB + 16) [ET_DYN; EM_AARCH64] (
  put_words 4 (SB + 20) [EV_CURRENT] (put_words 8 (SB + 32) [0x40] (put_words 2 (SB + 56) [2] (
  (* program headers *)
  put_words 4 (SB + 0x40) [PT_LOAD] (put_words 4 (SB + 0x78) [PT_DYNAMIC] (
  put_words 8 (SB + 0x78 + 8) [0x1000; 0x1000; 0x1000; 0xb0; 0xb0] (
  (* symbols, strings, hash tables *)
  put_words 4 (SB + 0x100 + 24) [1] (put_words 4 (SB + 0x100 + 48) [6] (
  put_words 1 (SB + 0x180) ([0] ++ sym_open ++ [0] ++ sym_read ++ [0]) (
  put_words 4 (SB + 0x1c0) [1; 3; 2; 0; 0; 1] (
  put_words 4 (SB + 0x300) [1; 1; 1; 6] (put_words 8 (SB + 0x310) [2 ^ 64 - 1] (
  put_words 4 (SB + 0x318) [1; 2 * (xh_elf_gnu_hash sym_open / 2); xh_elf_gnu_hash sym_read .| 1] (
  (* relocations *)
  put_words 8 (SB + 0x200) [0x1200; 0x100000000 + XH_ELF_R_GENERIC_JUMP_SLOT; 0] (
  put_words 8 (SB + 0x240) [0x1208; 0x100000000 + XH_ELF_R_GENERIC_GLOB_DAT; 0;
                            0x1210; 0x200000000 + XH_ELF_R_GENERIC_GLOB_DAT; 0] (
  put_words 1 (SB + 0x280) ([0x41; 0x50; 0x53; 0x32] ++ sample_packed) (
  (* dynamic section, GOT *)
  put_words 8 (SB + 0x1000) (sample_dynamic gnu) (
  put_words 8 (SB + 0x1200) [0xaaaa; 0xbbbb; 0xcccc; 0xdddd] ∅))))))))))))))))))).

(** The text page is readable and executable, the data page readable. *)
Definition sample_image (gnu : bool) : memory :=
  Memory (sample_data gnu) (list_to_map [(0x10, 5); (0x11, 1)]) [].

Definition sample_path : list Z := bytes_of_string "/data/libsample.so".
Definition sample_maps : list Z := concat (map line_of
  ["10000-11000 r-xp 00000000 fd:00 7 /data/libsample.so";
   "11000-12000 r--p 00001000 fd:00 7 /data/libsample.so"]%string).
#[export] Instance sample_kernel : Kernel := granting_kernel (Some sample_maps).
#[export] Instance sample_kernel_laws : KernelLaws sample_kernel := granting_kernel_laws _.

(** What initialisation makes of the image. *)
Definition sample_elf (gnu : bool) : xh_elf_t :=
  XhElf (Some sample_path) SB SB SB (SB + 0x40) (SB + 0x1000) 0xb0 (SB + 0x180) (SB + 0x100)
    (SB + 0x200) 24 (SB + 0x240) 48 (SB + 0x284) 28
    (if gnu then SB + 0x318 else SB + 0x1c8) 1 (if gnu then SB + 0x31c else SB + 0x1cc)
    (if gnu then 0 else 3) (if gnu then 1 else 0) (if gnu then SB + 0x310 else 0)
    (if gnu then 1 else 0) (if gnu then 6 else 0) 1 (if gnu then 1 else 0).
