(* ===== verification/XhElfHashProps.v ===== *)
(** * Correctness of symbol lookup

    The hash functions against the ABI's definitions, and the table searches
    against a linear search of the symbols of a bucket. *)

From S2P Require Import Prelude CMem XhUtil XhElfReloc XhElfRelocProps XhElfTypes XhElfHash Sample.

#[local] Open Scope cint_scope.

(** ** The hash functions *)

(** The System V ABI's loop body. *)
Definition sysv_step (h c : Z) : Z :=
  let h := u32 (u32 (h << 4) + c) in
  let g := h & 0xf0000000 in
  let h := if truthy g then Z.lxor h (g >> 24) else h in
  h & Z.lnot g.

Lemma top_nibble_bits n : Z.testbit 0xf0000000 n = (28 <=? n) && (n <? 32).
Proof.
  destruct (Z.ltb_spec n 0).
  { rewrite Z.testbit_neg_r by lia. destruct (Z.leb_spec 28 n); [lia|done]. }
  change 0xf0000000 with (Z.ones 4 << 28). destruct (Z.leb_spec 28 n).
  - rewrite Z.shiftl_spec, Z.testbit_ones by lia.
    destruct (Z.leb_spec 0 (n - 28)), (Z.ltb_spec (n - 28) 4), (Z.ltb_spec n 32); try lia; done.
  - by rewrite Z.shiftl_spec_low by lia.
Qed.

Lemma elf_hash_step_bit h c n :
  0 ≤ n →
  Z.testbit (elf_hash_step h c) n =
    let h := u32 (u32 (h << 4) + c) in
    xorb (Z.testbit h n && negb ((28 <=? n) && (n <? 32)))
      (Z.testbit h (n + 24) && ((28 <=? n + 24) && (n + 24 <? 32))).
Proof.
  intros Hn. unfold elf_hash_step. cbv zeta. set (x := u32 _).
  rewrite !Z.lxor_spec, Z.shiftr_spec, !Z.land_spec, !top_nibble_bits by lia.
  destruct (Z.testbit x n), ((28 <=? n) && (n <? 32)); done.
Qed.

Lemma u32_bits z n : 32 ≤ n → Z.testbit (u32 z) n = false.
Proof. intros. unfold wrap. apply Z.mod_pow2_bits_high. lia. Qed.

Lemma elf_hash_step_range h c : 0 ≤ elf_hash_step h c < 2 ^ 28.
Proof.
  assert (H0 : 0 ≤ elf_hash_step h c).
  { unfold elf_hash_step. cbv zeta. pose proof (u32_range (u32 (h << 4) + c)).
    assert (0 ≤ u32 (u32 (h << 4) + c) & 0xf0000000) by (apply Z.land_nonneg; lia).
    rewrite !Z.lxor_nonneg, Z.shiftr_nonneg. lia. }
  apply Z.bounded_iff_bits_nonneg'; [lia|done|]. intros n Hn.
  rewrite elf_hash_step_bit by lia. cbv zeta.
  rewrite (u32_bits _ (n + 24)) by lia. destruct (Z.ltb_spec n 32).
  - destruct (Z.leb_spec 28 n); [|lia]. simpl. by rewrite andb_false_r.
  - by rewrite u32_bits by lia.
Qed.

Lemma elf_hash_step_sysv h c : elf_hash_step h c = sysv_step h c.
Proof.
  apply Z.bits_inj'. intros n Hn. rewrite elf_hash_step_bit by done. cbv zeta.
  unfold sysv_step. cbv zeta. set (x := u32 _).
  assert (Hb : ∀ z, Z.testbit (z & Z.lnot (x & 0xf0000000)) n =
    Z.testbit z n && negb (Z.testbit x n && ((28 <=? n) && (n <? 32)))).
  { intros z. by rewrite Z.land_spec, Z.lnot_spec, Z.land_spec, top_nibble_bits by done. }
  rewrite Hb. destruct (truthy (x & 0xf0000000)) eqn:Hg.
  - rewrite Z.lxor_spec, Z.shiftr_spec, Z.land_spec, top_nibble_bits by done.
    destruct (Z.leb_spec 28 n); simpl.
    + destruct (Z.ltb_spec n 32), (Z.ltb_spec (n + 24) 32), (Z.testbit x n); try lia;
        by rewrite ?andb_false_r.
    + by rewrite !andb_false_r, !andb_true_r.
  - unfold truthy in Hg. apply negb_false_iff, Z.eqb_eq in Hg.
    assert (Hz : ∀ k, Z.testbit x k && ((28 <=? k) && (k <? 32)) = false).
    { intros k. by rewrite <- top_nibble_bits, <- Z.land_spec, Hg, Z.bits_0. }
    rewrite !Hz, xorb_false_r. specialize (Hz n).
    destruct (Z.testbit x n), ((28 <=? n) && (n <? 32)); done.
Qed.

(** xh_elf_hash is the System V ABI's hash function, and always a 28-bit
    number. *)
Theorem xh_elf_hash_sysv name :
  xh_elf_hash name = foldl sysv_step 0 name ∧ 0 ≤ xh_elf_hash name < 2 ^ 28.
Proof.
  unfold xh_elf_hash. split.
  - generalize 0. induction name as [|c name IH]; intros h; [done|]. simpl.
    by rewrite elf_hash_step_sysv, IH.
  - destruct name as [|c name] using rev_ind; [simpl; lia|].
    rewrite foldl_app. apply elf_hash_step_range.
Qed.

Lemma gnu_hash_step_eq h c : gnu_hash_step h c = u32 (33 * h + c).
Proof.
  unfold gnu_hash_step. replace (h + (u32 (h << 5) + c)) with (u32 (h << 5) + (h + c)) by lia.
  rewrite wrap_add_l, Z.shiftl_mul_pow2 by lia. f_equal. lia.
Qed.

(** xh_elf_gnu_hash is Bernstein's hash, 5381 times 33 to the length plus
    the characters weighted by powers of 33, in 32 bits. *)
Theorem xh_elf_gnu_hash_poly name :
  xh_elf_gnu_hash name = u32 (foldl (λ h c, 33 * h + c) 5381 name).
Proof.
  unfold xh_elf_gnu_hash. change 5381 with (u32 5381) at 1. generalize 5381.
  induction name as [|c name IH]; intros h; [done|]. simpl. rewrite gnu_hash_step_eq, <- IH.
  f_equal. rewrite <- wrap_add_l, wrap_mul_r, wrap_add_l. done.
Qed.

(** ** Strings in memory *)

Definition cstr_at (m : memory) (a : Z) (s : list Z) : Prop :=
  bytes_at m a (s ++ [0]) ∧ Forall (λ c, c ≠ 0) s.

Lemma strcmp_eq_spec m s t a :
  Forall (λ c, c ≠ 0) s → cstr_at m a t → strcmp_eq s a m = (Ret (bool_decide (s = t)), m).
Proof.
  revert t a. induction s as [|c s IH]; intros t a Hs [Ht Hnz];
    destruct t as [|d t]; destruct Ht as (Ha & Hb & Ht); simpl strcmp_eq;
    rewrite (CM_bind_Ret _ _ _ _ _ (load8_ok _ _ Ha)), Hb; cbv beta iota.
  - done.
  - inversion_clear Hnz. by rewrite (proj2 (Z.eqb_neq d 0)).
  - inversion_clear Hs. destruct (Z.eqb_spec 0 c); [congruence|]. done.
  - inversion_clear Hs. inversion_clear Hnz. destruct (Z.eqb_spec d c) as [->|Hne].
    + rewrite (IH t) by done. do 2 f_equal. apply bool_decide_ext. naive_solver.
    + unfold mret, CM_ret. do 2 f_equal. symmetry. apply bool_decide_eq_false. congruence.
Qed.

Lemma strcmp_eq_sound m s a m' :
  strcmp_eq s a m = (Ret true, m') → m' = m ∧ bytes_at m a (s ++ [0]).
Proof.
  intros H. split; [by eapply readonly_run; [apply _|]|]. revert a H.
  induction s as [|c s IH]; intros a H; simpl strcmp_eq in H;
    apply CM_bind_inv in H as (b & m1 & H1 & H); apply load_inv in H1 as (Ha & Hb & ->);
    simpl in Ha, Hb; rewrite andb_true_r in Ha; rewrite Z.mul_0_r, Z.add_0_r in Hb; subst b.
  - injection H as H _. apply Z.eqb_eq in H. done.
  - destruct (Z.eqb_spec (byte_of m a) c); [|by injection H].
    simpl. split_and!; [done..|]. by apply IH.
Qed.

(** ** Searching *)

(** Symbol [i] of the table has the name [s]. *)
Definition sym_is (m : memory) (self : xh_elf_t) (i : Z) (s : list Z) : Prop :=
  allows PROT_READ 4 (symtab self ⊕ SIZEOF_SYM * i) m = true ∧
  cstr_at m (strtab self ⊕ number_of m 4 (symtab self ⊕ SIZEOF_SYM * i)) s.

(** The name of symbol [i] starts with [s] and its terminator. *)
Definition sym_matches (m : memory) (self : xh_elf_t) (i : Z) (s : list Z) : Prop :=
  bytes_at m (strtab self ⊕ number_of m 4 (symtab self ⊕ SIZEOF_SYM * i)) (s ++ [0]).

Lemma sym_strcmp m self i s t :
  Forall (λ c, c ≠ 0) s → sym_is m self i t →
  ∃ a, sym_name self i m = (Ret a, m) ∧ strcmp_eq s a m = (Ret (bool_decide (s = t)), m).
Proof.
  intros Hs [Ha Ht]. eexists. split; [|by apply strcmp_eq_spec].
  unfold sym_name, st_name. by rewrite (CM_bind_Ret _ _ _ _ _ (load_ok _ _ _ Ha)).
Qed.

#[export] Instance sym_name_readonly self i : ReadOnly (sym_name self i).
Proof. unfold sym_name, st_name. solve_readonly. Qed.
#[export] Instance index32_readonly a i : ReadOnly (index32 a i).
Proof. unfold index32. apply _. Qed.
#[export] Instance index64_readonly a i : ReadOnly (index64 a i).
Proof. unfold index64. apply _. Qed.
#[export] Instance umod_readonly x n : ReadOnly (umod x n).
Proof. unfold umod. solve_readonly. Qed.
#[export] Instance ushr32_readonly x n : ReadOnly (ushr32 x n).
Proof. unfold ushr32. solve_readonly. Qed.
#[export] Instance hash_chain_readonly fuel self s i : ReadOnly (xh_elf_hash_chain fuel self s i).
Proof. revert i. induction fuel; intros i; simpl; solve_readonly. Qed.
#[export] Instance gnu_chain_readonly fuel self s h i :
  ReadOnly (xh_elf_gnu_hash_chain fuel self s h i).
Proof. revert i. induction fuel; intros i; simpl; solve_readonly. Qed.
#[export] Instance undef_loop_readonly n self s i : ReadOnly (xh_elf_gnu_undef_loop n self s i).
Proof. revert i. induction n; intros i; simpl; solve_readonly. Qed.
#[export] Instance find_symidx_readonly fuel self s :
  ReadOnly (xh_elf_find_symidx_by_name fuel self s).
Proof.
  unfold xh_elf_find_symidx_by_name, xh_elf_gnu_hash_lookup, xh_elf_gnu_hash_lookup_def,
    xh_elf_gnu_hash_lookup_undef, xh_elf_hash_lookup. solve_readonly.
Qed.

(** *** Soundness: a hit is a symbol of that name *)

Lemma sym_compare_sound m self i s a m1 m2 :
  sym_name self i m = (Ret a, m1) → strcmp_eq s a m1 = (Ret true, m2) → sym_matches m self i s.
Proof.
  unfold sym_name, st_name. intros Hn Hs. apply CM_bind_inv in Hn as (n & m' & H & Hn).
  apply load_inv in H as (_ & -> & ->).
  injection Hn as <- <-. by apply strcmp_eq_sound in Hs as [_ ?].
Qed.

Lemma hash_chain_sound fuel self s i m j m' :
  xh_elf_hash_chain fuel self s i m = (Ret (0, j), m') → sym_matches m self j s.
Proof.
  revert i. induction fuel as [|fuel IH]; intros i H; simpl in H; destruct (i =? 0);
    [discriminate H|discriminate H|discriminate H|].
  apply CM_bind_inv in H as (a & m1 & Hn & H). apply CM_bind_inv in H as (eq & m2 & Hs & H).
  pose proof (readonly_run _ _ _ _ Hn) as ->. pose proof (readonly_run _ _ _ _ Hs) as ->.
  destruct eq.
  - injection H as <- <-. by eapply sym_compare_sound.
  - apply CM_bind_inv in H as (i' & m3 & Hi & H). pose proof (readonly_run _ _ _ _ Hi) as ->.
    by eapply IH.
Qed.

Lemma gnu_chain_sound fuel self s h i m j m' :
  xh_elf_gnu_hash_chain fuel self s h i m = (Ret (0, j), m') → sym_matches m self j s.
Proof.
  revert i. induction fuel as [|fuel IH]; intros i H; simpl in H; [discriminate H|].
  apply CM_bind_inv in H as (a & m1 & Hn & H). pose proof (readonly_run _ _ _ _ Hn) as ->.
  apply CM_bind_inv in H as (sh & m1 & Hh & H). pose proof (readonly_run _ _ _ _ Hh) as ->.
  apply CM_bind_inv in H as (eq & m1 & Hs & H).
  destruct (_ =? _).
  - pose proof (readonly_run _ _ _ _ Hs) as ->. destruct eq.
    + injection H as <- <-. by eapply sym_compare_sound.
    + destruct (truthy _); [discriminate H|by eapply IH].
  - injection Hs as <- <-. destruct (truthy _); [discriminate H|by eapply IH].
Qed.

Lemma undef_loop_sound n self s i m j m' :
  xh_elf_gnu_undef_loop n self s i m = (Ret (0, j), m') → sym_matches m self j s.
Proof.
  revert i. induction n as [|n IH]; intros i H; simpl in H; [discriminate H|].
  apply CM_bind_inv in H as (a & m1 & Hn & H). pose proof (readonly_run _ _ _ _ Hn) as ->.
  apply CM_bind_inv in H as (eq & m1 & Hs & H). pose proof (readonly_run _ _ _ _ Hs) as ->.
  destruct eq; [|by eapply IH]. injection H as <- <-. by eapply sym_compare_sound.
Qed.

Lemma hash_lookup_sound fuel self s m j m' :
  xh_elf_hash_lookup fuel self s m = (Ret (0, j), m') → sym_matches m self j s.
Proof.
  unfold xh_elf_hash_lookup. cbv zeta. intros H.
  apply CM_bind_inv in H as (b & m1 & Hb & H). pose proof (readonly_run _ _ _ _ Hb) as ->.
  apply CM_bind_inv in H as (i & m1 & Hi & H). pose proof (readonly_run _ _ _ _ Hi) as ->.
  by eapply hash_chain_sound.
Qed.

Lemma gnu_lookup_def_sound fuel self s m j m' :
  xh_elf_gnu_hash_lookup_def fuel self s m = (Ret (0, j), m') → sym_matches m self j s.
Proof.
  unfold xh_elf_gnu_hash_lookup_def. cbv zeta. intros H.
  do 3 (apply CM_bind_inv in H as (? & m1 & Hb & H); pose proof (readonly_run _ _ _ _ Hb) as ->; clear Hb).
  destruct (negb _); [discriminate H|].
  do 2 (apply CM_bind_inv in H as (? & m1 & Hb & H); pose proof (readonly_run _ _ _ _ Hb) as ->; clear Hb).
  destruct (_ <? _); [discriminate H|]. by eapply gnu_chain_sound.
Qed.

(** whatever the tables hold, a lookup never writes, and when it reports
    an index the name of that symbol in the string table is the one asked for. *)
Theorem find_symidx_sound fuel self s m i m' :
  xh_elf_find_symidx_by_name fuel self s m = (Ret (0, i), m') → m' = m ∧ sym_matches m self i s.
Proof.
  intros H. split; [by eapply readonly_run; [apply _|]|]. revert H.
  unfold xh_elf_find_symidx_by_name. destruct (truthy _); [|apply hash_lookup_sound].
  unfold xh_elf_gnu_hash_lookup. intros H.
  apply CM_bind_inv in H as ([r j] & m1 & Hd & H).
  assert (m1 = m) as ->.
  { unfold xh_elf_gnu_hash_lookup_def in Hd. eapply readonly_run; [|exact Hd]. cbv zeta. solve_readonly. }
  destruct (Z.eqb_spec r 0) as [->|].
  - injection H as <- <-. by eapply gnu_lookup_def_sound.
  - apply CM_bind_inv in H as ([r' j'] & m2 & Hu & H).
    destruct (Z.eqb_spec r' 0) as [->|]; [|discriminate H].
    injection H as <- <-. by eapply undef_loop_sound.
Qed.

(** *** Completeness: a lookup is a linear search *)

(** The symbols of a chain, in order, up to the terminating 0. *)
Inductive chain_path (m : memory) (self : xh_elf_t) : Z → list Z → Prop :=
  | chain_end : chain_path m self 0 []
  | chain_next i l :
      i ≠ 0 → allows PROT_READ 4 (chain self ⊕ 4 * i) m = true →
      chain_path m self (number_of m 4 (chain self ⊕ 4 * i)) l → chain_path m self i (i :: l).

(** The first of the symbols [l] with the name [s]. *)
Definition first_named (name : Z → list Z) (s : list Z) (l : list Z) : Z * Z :=
  match List.find (λ i, bool_decide (s = name i)) l with
  | Some i => (0, i)
  | None => (XH_ERRNO_NOTFND, 0)
  end.

Lemma first_named_cons name s i l :
  first_named name s (i :: l) = if bool_decide (s = name i) then (0, i) else first_named name s l.
Proof. unfold first_named. simpl. by destruct (bool_decide _). Qed.

Section complete.
Context (m : memory) (self : xh_elf_t) (name : Z → list Z) (s : list Z).
Context (Hs : Forall (λ c, c ≠ 0) s).

Lemma hash_chain_complete fuel i l :
  chain_path m self i l → Forall (λ j, sym_is m self j (name j)) l → (length l < fuel)%nat →
  xh_elf_hash_chain fuel self s i m = (Ret (first_named name s l), m).
Proof using Hs.
  intros Hp. revert fuel. induction Hp as [|i l Hi Ha Hp IH]; intros fuel Hall Hf;
    (destruct fuel as [|fuel]; [simpl in Hf; lia|]); simpl; [done|].
  inversion_clear Hall as [|? ? Hsym Hall']. rewrite (proj2 (Z.eqb_neq i 0) Hi).
  destruct (sym_strcmp m self i s (name i) Hs Hsym) as (a & Hn & Hc).
  rewrite (CM_bind_Ret _ _ _ _ _ Hn), (CM_bind_Ret _ _ _ _ _ Hc), first_named_cons.
  destruct (bool_decide _); [done|].
  unfold index32. rewrite (CM_bind_Ret _ _ _ _ _ (load_ok _ _ _ Ha)).
  apply IH; [done|simpl in Hf; lia].
Qed.

(** on a SysV hash table whose chain of the symbol's bucket ends, the
    lookup is the linear search of that chain: the first symbol of the name, or
    XH_ERRNO_NOTFND. *)
Theorem hash_lookup_complete fuel l :
  let b := bucket self ⊕ 4 * (xh_elf_hash s mod bucket_cnt self) in
  bucket_cnt self ≠ 0 → allows PROT_READ 4 b m = true → chain_path m self (number_of m 4 b) l →
  Forall (λ j, sym_is m self j (name j)) l → (length l < fuel)%nat →
  xh_elf_hash_lookup fuel self s m = (Ret (first_named name s l), m).
Proof using Hs.
  intros b Hcnt Hb Hp Hall Hf. unfold xh_elf_hash_lookup. cbv zeta. unfold umod.
  rewrite (proj2 (Z.eqb_neq _ 0) Hcnt), CM_left_id.
  unfold index32. fold b. rewrite (CM_bind_Ret _ _ _ _ _ (load_ok _ _ _ Hb)).
  by apply hash_chain_complete.
Qed.

(** The hash word of symbol [i] in a GNU table, and a chain of one: the
    consecutive symbols up to the word with its lowest bit set. *)
Definition gnu_word (i : Z) : Z := number_of m 4 (chain self ⊕ 4 * u32 (i - symoffset self)).
Inductive gnu_path : Z → list Z → Prop :=
  | gnu_end i : truthy (gnu_word i & 1) = true → gnu_path i [i]
  | gnu_next i l : truthy (gnu_word i & 1) = false → gnu_path (u32 (i + 1)) l → gnu_path i (i :: l).

(** A chain entry is readable, named, and a symbol of the name [s] has the
    hash of [s]. *)
Definition gnu_entry (i : Z) : Prop :=
  allows PROT_READ 4 (chain self ⊕ 4 * u32 (i - symoffset self)) m = true ∧
  sym_is m self i (name i) ∧ (s = name i → gnu_word i .| 1 = xh_elf_gnu_hash s .| 1).

Lemma gnu_chain_complete fuel i l :
  gnu_path i l → Forall gnu_entry l → (length l ≤ fuel)%nat →
  xh_elf_gnu_hash_chain fuel self s (xh_elf_gnu_hash s) i m = (Ret (first_named name s l), m).
Proof using Hs.
  intros Hp. revert fuel. induction Hp as [i Hend|i l Hend Hp IH]; intros fuel Hall Hf;
    (destruct fuel as [|fuel]; [simpl in Hf; lia|]); cbn [xh_elf_gnu_hash_chain];
    inversion_clear Hall as [|? ? (Ha & Hsym & Hh) Hall'];
    destruct (sym_strcmp m self i s (name i) Hs Hsym) as (a & Hn & Hc);
    rewrite (CM_bind_Ret _ _ _ _ _ Hn); unfold index32;
    rewrite (CM_bind_Ret _ _ _ _ _ (load_ok _ _ _ Ha)); fold (gnu_word i);
    rewrite first_named_cons.
  all: assert (Heq : (if xh_elf_gnu_hash s .| 1 =? gnu_word i .| 1 then strcmp_eq s a else mret false) m =
    (Ret (bool_decide (s = name i)), m)) by
    (destruct (Z.eqb_spec (xh_elf_gnu_hash s .| 1) (gnu_word i .| 1)) as [|Hne]; [done|];
     rewrite bool_decide_eq_false_2; [done|]; intros E; by rewrite Hh in Hne).
  all: rewrite (CM_bind_Ret _ _ _ _ _ Heq); destruct (bool_decide _); [done|]; rewrite Hend.
  - done.
  - apply IH; [done|simpl in Hf; lia].
Qed.

Lemma undef_loop_complete n i :
  0 ≤ i → Forall (λ j, sym_is m self j (name j)) (map (λ k, i + Z.of_nat k) (seq 0 n)) →
  xh_elf_gnu_undef_loop n self s i m =
    (Ret (first_named name s (map (λ k, i + Z.of_nat k) (seq 0 n))), m).
Proof using Hs.
  revert i. induction n as [|n IH]; intros i Hi Hall; [done|].
  assert (Hmap : map (λ k, i + Z.of_nat k) (seq 0 (S n)) =
    i :: map (λ k, i + 1 + Z.of_nat k) (seq 0 n)).
  { simpl. f_equal; [lia|]. rewrite <- seq_shift, map_map. apply map_ext. lia. }
  rewrite Hmap in Hall |- *. inversion_clear Hall as [|? ? Hsym Hall'].
  destruct (sym_strcmp m self i s (name i) Hs Hsym) as (a & Hn & Hc). cbn [xh_elf_gnu_undef_loop].
  rewrite (CM_bind_Ret _ _ _ _ _ Hn), (CM_bind_Ret _ _ _ _ _ Hc), first_named_cons.
  destruct (bool_decide _); [done|]. apply IH; [lia|done].
Qed.

(** The bloom filter lets the symbol through. *)
Definition bloom_word : Z := bloom self ⊕ 8 * (xh_elf_gnu_hash s / 64 mod bloom_sz self).
Definition bloom_pass : bool :=
  let h := xh_elf_gnu_hash s in
  let mask := (1 << (h mod 64)) .| (1 << ((h >> bloom_shift self) mod 64)) in
  number_of m 8 bloom_word & mask =? mask.

Lemma first_named_app l1 l2 :
  first_named name s (l1 ++ l2) =
    if (first_named name s l1).1 =? 0 then first_named name s l1 else first_named name s l2.
Proof using Type.
  induction l1 as [|i l1 IH]; [done|]. cbn [app]. rewrite !first_named_cons, IH.
  by destruct (bool_decide _).
Qed.

Lemma first_named_none l :
  (∀ i, i ∈ l → s ≠ name i) → first_named name s l = (XH_ERRNO_NOTFND, 0).
Proof using Type.
  intros H. unfold first_named. destruct (List.find _ l) as [i|] eqn:Hf; [|done].
  apply List.find_some in Hf as [Hin Heq]. apply bool_decide_eq_true in Heq.
  exfalso. apply (H i); [by apply list_elem_of_In|done].
Qed.

(** C40: on a GNU hash table that is consistent (the entries of the bucket's
    chain carry their hashes, and the bloom filter passes what the chain
    holds), the lookup is the linear search of the chain followed by the
    undefined symbols. *)
Theorem gnu_lookup_complete fuel l :
  let b := bucket self ⊕ 4 * (xh_elf_gnu_hash s mod bucket_cnt self) in
  bucket_cnt self ≠ 0 → bloom_sz self ≠ 0 → bloom_shift self < 32 → 0 ≤ symoffset self →
  allows PROT_READ 8 bloom_word m = true → allows PROT_READ 4 b m = true →
  (if number_of m 4 b <? symoffset self then l = [] else gnu_path (number_of m 4 b) l) →
  Forall gnu_entry l → (∀ i, i ∈ l → s = name i → bloom_pass = true) →
  let undef := map Z.of_nat (seq 0 (Z.to_nat (symoffset self))) in
  Forall (λ j, sym_is m self j (name j)) undef → (length l ≤ fuel)%nat →
  xh_elf_gnu_hash_lookup fuel self s m = (Ret (first_named name s (l ++ undef)), m).
Proof using Hs.
  intros b Hcnt Hbsz Hshift Hsym Hbw Hb Hpath Hent Hbloom undef Hundef Hfuel.
  assert (Hdef : xh_elf_gnu_hash_lookup_def fuel self s m = (Ret (first_named name s l), m)).
  { unfold xh_elf_gnu_hash_lookup_def, umod, index64, ushr32. cbv zeta.
    rewrite (proj2 (Z.eqb_neq _ 0) Hbsz), CM_left_id. unfold elfclass_bits. fold bloom_word.
    rewrite (CM_bind_Ret _ _ _ _ _ (load_ok _ _ _ Hbw)).
    destruct (Z.leb_spec 32 (bloom_shift self)); [lia|]. rewrite CM_left_id.
    fold bloom_pass. destruct bloom_pass eqn:Hpass; cbn [negb].
    - rewrite (proj2 (Z.eqb_neq _ 0) Hcnt), CM_left_id. unfold index32. fold b.
      rewrite (CM_bind_Ret _ _ _ _ _ (load_ok _ _ _ Hb)).
      destruct (number_of m 4 b <? symoffset self); [by subst l|]. by apply gnu_chain_complete.
    - rewrite first_named_none; [done|]. intros i Hi E. specialize (Hbloom i Hi E). congruence. }
  unfold xh_elf_gnu_hash_lookup. rewrite (CM_bind_Ret _ _ _ _ _ Hdef), first_named_app.
  destruct (first_named name s l) as [r i]. cbn [fst]. destruct (Z.eqb_spec r 0) as [->|]; [done|].
  unfold xh_elf_gnu_hash_lookup_undef.
  rewrite (CM_bind_Ret _ _ _ _ _ (undef_loop_complete _ 0 (Z.le_refl 0) Hundef)).
  change (map (λ k, 0 + Z.of_nat k) (seq 0 (Z.to_nat (symoffset self)))) with undef.
  unfold first_named. by destruct (List.find _ undef).
Qed.

End complete.

(** *** Witnesses: the sample image *)

Definition sample_name (i : Z) : list Z :=
  if i =? 1 then sym_open else if i =? 2 then sym_read else [].

Ltac solve_sym := vm_compute; split; [done|split; [by split_and!|by repeat constructor]].

Lemma find_symidx_sound_witness :
  sym_matches (sample_image false) (sample_elf false) 1 sym_open.
Proof.
  eapply (find_symidx_sound 4 (sample_elf false) sym_open (sample_image false) 1).
  vm_compute. reflexivity.
Defined.

Lemma hash_lookup_complete_witness :
  xh_elf_hash_lookup 4 (sample_elf false) sym_open (sample_image false) =
    (Ret (0, 1), sample_image false) ∧
  xh_elf_hash_lookup 4 (sample_elf false) sym_close (sample_image false) =
    (Ret (XH_ERRNO_NOTFND, 0), sample_image false).
Proof.
  assert (Hp : chain_path (sample_image false) (sample_elf false) 2 [2; 1]).
  { apply chain_next; [done|vm_compute; done|]. apply chain_next; [done|vm_compute; done|].
    apply chain_end. }
  assert (Hn : Forall (λ j, sym_is (sample_image false) (sample_elf false) j (sample_name j)) [2; 1]).
  { rewrite !Forall_cons. split; [solve_sym|]. split; [solve_sym|]. by constructor. }
  split; (etrans; [eapply hash_lookup_complete with (name := sample_name) (l := [2; 1]);
    [vm_compute; by repeat constructor|vm_compute; discriminate|vm_compute; reflexivity
    |exact Hp|exact Hn|simpl; lia]|do 2 f_equal; vm_compute; reflexivity]).
Defined.

Lemma gnu_lookup_complete_witness :
  xh_elf_gnu_hash_lookup 4 (sample_elf true) sym_read (sample_image true) =
    (Ret (0, 2), sample_image true).
Proof.
  etrans; [eapply gnu_lookup_complete with (name := sample_name) (l := [1; 2])
    |do 2 f_equal; vm_compute; reflexivity].
  - vm_compute. by repeat constructor.
  - vm_compute. discriminate.
  - vm_compute. discriminate.
  - vm_compute. done.
  - vm_compute. discriminate.
  - vm_compute. done.
  - vm_compute. done.
  - change (gnu_path (sample_image true) (sample_elf true) 1 [1; 2]).
    apply gnu_next; [vm_compute; done|]. apply gnu_end. vm_compute. done.
  - rewrite !Forall_cons. split; [|split; [|by constructor]].
    + split; [vm_compute; done|]. split; [solve_sym|vm_compute; discriminate].
    + split; [vm_compute; done|]. split; [solve_sym|vm_compute; done].
  - intros i _ _. vm_compute. done.
  - change (map Z.of_nat (seq 0 (Z.to_nat (symoffset (sample_elf true))))) with [0].
    rewrite Forall_cons. split; [solve_sym|by constructor].
  - simpl. lia.
Defined.

(** *** What goes wrong

    The sample with a chain that is a cycle: symbol 1 leads back to symbol 2. *)
Definition cyclic_image : memory :=
  Memory (write_data 4 (SB + 0x1d0) 2 (sample_data false)) (m_prot (sample_image false)) [].

(** A name the object does not have is looked for forever. *)
Lemma hash_chain_cycle fuel :
  xh_elf_hash_lookup fuel (sample_elf false) sym_close cyclic_image = (Err OutOfFuel, cyclic_image).
Proof.
  assert (Hnext : ∀ i j, (i, j) = (1, 2) ∨ (i, j) = (2, 1) →
    (i =? 0) = false ∧ index32 (chain (sample_elf false)) i cyclic_image = (Ret j, cyclic_image) ∧
    ∃ a, sym_name (sample_elf false) i cyclic_image = (Ret a, cyclic_image) ∧
      strcmp_eq sym_close a cyclic_image = (Ret false, cyclic_image)).
  { intros i j [[= -> ->]|[= -> ->]]; (split; [done|]); (split; [vm_compute; reflexivity|]);
      eexists; (split; vm_compute; reflexivity). }
  assert (Hloop : ∀ fuel i j, (i, j) = (1, 2) ∨ (i, j) = (2, 1) →
    xh_elf_hash_chain fuel (sample_elf false) sym_close i cyclic_image = (Err OutOfFuel, cyclic_image)).
  { clear fuel. induction fuel as [|fuel IH]; intros i j Hij; destruct (Hnext i j Hij) as (E & Hi & a & Ha & Hs);
      cbn [xh_elf_hash_chain]; rewrite E; [done|].
    rewrite (CM_bind_Ret _ _ _ _ _ Ha), (CM_bind_Ret _ _ _ _ _ Hs), (CM_bind_Ret _ _ _ _ _ Hi).
    apply (IH j i). destruct Hij as [[= -> ->]|[= -> ->]]; auto. }
  apply (Hloop fuel 2 1). by right.
Qed.
