(* ===== verification/XhElfInitProps.v ===== *)
(** * Correctness of ELF initialisation

    The header check decides the header's validity; xh_elf_init never writes to
    memory, and what it accepts is described by the dynamic section: every field
    is the one of the last entry of its tag, and lies above the load address. *)

From S2P Require Import Prelude CMem XhUtil XhElfReloc XhElfRelocProps XhElfTypes XhElfHash.
From S2P Require Import XhElfInit Sample.

#[local] Open Scope cint_scope.

(** ** The header check *)

Lemma allows_sub p n a m j k :
  allows p n a m = true → (j + k ≤ n)%nat → allows p k (a + Z.of_nat j) m = true.
Proof.
  revert a j k. induction n as [|n IH]; intros a j k H Hle.
  - assert (k = 0%nat) as -> by lia. done.
  - simpl in H. apply andb_true_iff in H as [H0 H]. destruct j as [|j].
    + rewrite Z.add_0_r. destruct k as [|k]; [done|]. simpl. rewrite H0. simpl.
      replace (a + 1) with (a + 1 + Z.of_nat 0) by lia. apply IH; [done|lia].
    + replace (a + Z.of_nat (S j)) with (a + 1 + Z.of_nat j) by lia. apply IH; [done|lia].
Qed.

Lemma load_sub n a m j k :
  allows PROT_READ n a m = true → (j + k ≤ n)%nat →
  load k (a + Z.of_nat j) m = (Ret (number_of m k (a + Z.of_nat j)), m).
Proof. intros. eapply load_ok, allows_sub; done. Qed.

(** The file header says: a little-endian 64-bit AArch64 executable or shared
    object of the current version. *)
Definition header_ok (m : memory) (base : Z) : bool :=
  (number_of m 4 base =? ELFMAG) && (number_of m 1 (base + 4) =? ELFCLASS64) &&
  (number_of m 1 (base + 5) =? ELFDATA2LSB) && (number_of m 1 (base + 6) =? EV_CURRENT) &&
  ((number_of m 2 (base + 16) =? ET_EXEC) || (number_of m 2 (base + 16) =? ET_DYN)) &&
  (number_of m 2 (base + 18) =? EM_AARCH64) && (number_of m 4 (base + 20) =? EV_CURRENT).

(** on a readable header xh_elf_check_elfheader returns 0 exactly for a
    valid one and XH_ERRNO_FORMAT otherwise, and writes nothing. *)
Theorem check_elfheader_decides base m :
  allows PROT_READ 24 base m = true →
  xh_elf_check_elfheader base m = (Ret (if header_ok m base then 0 else XH_ERRNO_FORMAT), m).
Proof.
  intros Ha. unfold xh_elf_check_elfheader, header_ok, e_type, e_machine, e_version.
  pose proof (load_sub 24 base m 0 4 Ha ltac:(lia)) as L0. rewrite Z.add_0_r in L0.
  pose proof (load_sub 24 base m 4 1 Ha ltac:(lia)) as L4.
  pose proof (load_sub 24 base m 5 1 Ha ltac:(lia)) as L5.
  pose proof (load_sub 24 base m 6 1 Ha ltac:(lia)) as L6.
  pose proof (load_sub 24 base m 16 2 Ha ltac:(lia)) as L16.
  pose proof (load_sub 24 base m 18 2 Ha ltac:(lia)) as L18.
  pose proof (load_sub 24 base m 20 4 Ha ltac:(lia)) as L20. simpl Z.of_nat in *.
  rewrite (CM_bind_Ret _ _ _ _ _ L0). destruct (_ =? ELFMAG); [|done]. cbn [negb andb].
  rewrite (CM_bind_Ret _ _ _ _ _ L4). destruct (_ =? ELFCLASS64); [|done]. cbn [negb andb].
  rewrite (CM_bind_Ret _ _ _ _ _ L5). destruct (_ =? ELFDATA2LSB); [|done]. cbn [negb andb].
  rewrite (CM_bind_Ret _ _ _ _ _ L6). destruct (_ =? EV_CURRENT); [|done]. cbn [negb andb].
  rewrite (CM_bind_Ret _ _ _ _ _ L16).
  destruct (_ =? ET_EXEC), (_ =? ET_DYN); [| | |done]; cbn [negb andb orb].
  all: rewrite (CM_bind_Ret _ _ _ _ _ L18); destruct (_ =? EM_AARCH64); [|done]; cbn [negb andb].
  all: rewrite (CM_bind_Ret _ _ _ _ _ L20); by destruct (_ =? EV_CURRENT).
Qed.

Lemma check_elfheader_decides_witness :
  xh_elf_check_elfheader SB (sample_image false) = (Ret 0, sample_image false).
Proof. apply (check_elfheader_decides SB (sample_image false)). vm_compute. done. Defined.

(** ** Initialisation leaves memory alone *)

Class MemKept {A} (c : E A) : Prop := mem_kept : ∀ s, es_mem (c s).2 = es_mem s.

#[export] Instance mem_kept_ret {A} (a : A) : MemKept (mret a).
Proof. done. Qed.
#[export] Instance mem_kept_get_self : MemKept get_self.
Proof. done. Qed.
#[export] Instance mem_kept_set_self f : MemKept (set_self f).
Proof. done. Qed.
#[export] Instance mem_kept_bind {A B} (c : E A) (f : A → E B) :
  MemKept c → (∀ a, MemKept (f a)) → MemKept (c ≫= f).
Proof.
  intros Hc Hf s. unfold mbind, CM_bind. specialize (Hc s). destruct (c s) as [[a|e] s']; simpl in *.
  - by rewrite Hf.
  - done.
Qed.
#[export] Instance mem_kept_in_mem {A} (c : CM memory A) : ReadOnly c → MemKept (in_mem c).
Proof.
  intros Hc s. unfold in_mem. specialize (Hc (es_mem s)). by destruct (c (es_mem s)) as [[a|e] m'].
Qed.

Ltac solve_kept :=
  repeat match goal with
  | |- MemKept (_ ≫= _) => apply mem_kept_bind; [|intros]
  | |- MemKept (if ?b then _ else _) => destruct b
  | |- MemKept (match ?x with _ => _ end) => destruct x
  | |- MemKept (let _ := _ in _) => cbv zeta
  | |- MemKept _ => solve [assumption | typeclasses eauto]
  | |- ReadOnly _ => solve [typeclasses eauto | solve_readonly]
  end.

#[export] Instance magic_at_readonly a magic : ReadOnly (magic_at a magic).
Proof. revert a. induction magic; intros a'; simpl; solve_readonly. Qed.
#[export] Instance d_tag_readonly d : ReadOnly (d_tag d).
Proof. unfold d_tag. apply _. Qed.
#[export] Instance d_val_readonly d : ReadOnly (d_val d).
Proof. unfold d_val. apply _. Qed.
#[export] Instance p_vaddr_readonly d : ReadOnly (p_vaddr d).
Proof. unfold p_vaddr. apply _. Qed.
#[export] Instance p_memsz_readonly d : ReadOnly (p_memsz d).
Proof. unfold p_memsz. apply _. Qed.
#[export] Instance e_phoff_readonly d : ReadOnly (e_phoff d).
Proof. unfold e_phoff. apply _. Qed.
#[export] Instance segment_by_type_readonly n ph t : ReadOnly (first_segment_by_type n ph t).
Proof. revert ph. induction n; intros ph; simpl; unfold p_type; solve_readonly. Qed.
#[export] Instance segment_by_type_offset_readonly n ph t o :
  ReadOnly (first_segment_by_type_offset n ph t o).
Proof. revert ph. induction n; intros ph; simpl; unfold p_type, p_offset; solve_readonly. Qed.
#[export] Instance get_segment_readonly self t : ReadOnly (xh_elf_get_first_segment_by_type self t).
Proof. unfold xh_elf_get_first_segment_by_type, e_phnum. solve_readonly. Qed.
#[export] Instance get_segment_offset_readonly self t o :
  ReadOnly (xh_elf_get_first_segment_by_type_offset self t o).
Proof. unfold xh_elf_get_first_segment_by_type_offset, e_phnum. solve_readonly. Qed.

#[export] Instance dyn_val_kept d : MemKept (dyn_val d).
Proof. unfold dyn_val. apply _. Qed.
#[export] Instance dyn_ptr_kept d : MemKept (dyn_ptr d).
Proof. unfold dyn_ptr. solve_kept. Qed.
#[export] Instance check_above_kept p : MemKept (check_above p).
Proof. unfold check_above. solve_kept. Qed.
#[export] Instance init_hash_kept d : MemKept (init_hash d).
Proof. unfold init_hash. solve_kept. Qed.
#[export] Instance init_gnu_hash_kept d : MemKept (init_gnu_hash d).
Proof. unfold init_gnu_hash. solve_kept. Qed.
#[export] Instance init_dyn_entry_kept tag d : MemKept (init_dyn_entry tag d).
Proof. unfold init_dyn_entry. solve_kept. Qed.
#[export] Instance init_dyn_loop_kept n d : MemKept (init_dyn_loop n d).
Proof. revert d. induction n; intros d; simpl; solve_kept. Qed.
#[export] Instance init_android_rel_kept : MemKept init_android_rel.
Proof. unfold init_android_rel. solve_kept. Qed.
#[export] Instance init_body_kept base path : MemKept (xh_elf_init_body base path).
Proof. unfold xh_elf_init_body. solve_kept. Qed.
#[export] Instance init_kept base path : MemKept (xh_elf_init base path).
Proof. unfold xh_elf_init. solve_kept. Qed.

(** ** The dynamic section *)

(** The entries before DT_NULL, at most [n]: tag and value. *)
Fixpoint dyn_entries (m : memory) (n : nat) (d : Z) : list (Z * Z) :=
  match n with
  | O => []
  | S n =>
      let tag := number_of m 8 d in
      if tag =? DT_NULL then []
      else (tag, number_of m 8 (d + 8)) :: dyn_entries m n (d ⊕ SIZEOF_DYN)
  end.

(** What an entry makes of the object. *)
Definition apply_entry (m : memory) (self : xh_elf_t) (entry : Z * Z) : xh_elf_t :=
  let '(tag, val) := entry in
  let ptr := bias_addr self ⊕ val in
  if tag =? DT_STRTAB then with_strtab ptr self
  else if tag =? DT_SYMTAB then with_symtab ptr self
  else if tag =? DT_PLTREL then with_is_use_rela (if val =? DT_RELA then 1 else 0) self
  else if tag =? DT_JMPREL then with_relplt ptr (relplt_sz self) self
  else if tag =? DT_PLTRELSZ then with_relplt (relplt self) (u32 val) self
  else if is_one_of [DT_REL; DT_RELA] tag then with_reldyn ptr (reldyn_sz self) self
  else if is_one_of [DT_RELSZ; DT_RELASZ] tag then with_reldyn (reldyn self) (u32 val) self
  else if is_one_of [DT_ANDROID_REL; DT_ANDROID_RELA] tag then
    with_relandroid ptr (relandroid_sz self) self
  else if is_one_of [DT_ANDROID_RELSZ; DT_ANDROID_RELASZ] tag then
    with_relandroid (relandroid self) (u32 val) self
  else if tag =? DT_HASH then
    if is_use_gnu_hash self =? 1 then self
    else
      let n := number_of m 4 ptr in
      with_elf_hash n (number_of m 4 (ptr ⊕ 4)) (ptr ⊕ 8) (ptr ⊕ 8 ⊕ 4 * n) self
  else if tag =? DT_GNU_HASH then
    let n := number_of m 4 ptr in
    let bsz := number_of m 4 (ptr ⊕ 8) in
    with_gnu_hash n (number_of m 4 (ptr ⊕ 4)) bsz (number_of m 4 (ptr ⊕ 12)) (ptr ⊕ 16)
      (ptr ⊕ 16 ⊕ 8 * bsz) (ptr ⊕ 16 ⊕ 8 * bsz ⊕ 4 * n) self
  else self.

(** *** Inversion of the steps *)

Lemma in_mem_load_inv n a s v s' :
  in_mem (load n a) s = (Ret v, s') →
  v = number_of (es_mem s) n a ∧ s' = s ∧ allows PROT_READ n a (es_mem s) = true.
Proof.
  unfold in_mem, load. destruct (allows PROT_READ n a (es_mem s)); intros H; [|discriminate H].
  injection H as <- <-. by destruct s.
Qed.

Lemma dyn_val_inv d s v s' :
  dyn_val d s = (Ret v, s') → v = number_of (es_mem s) 8 (d + 8) ∧ s' = s.
Proof. unfold dyn_val, d_val. by intros (-> & -> & _)%in_mem_load_inv. Qed.

Lemma dyn_ptr_inv d s p s' :
  dyn_ptr d s = (Ret p, s') →
  p = bias_addr (es_self s) ⊕ number_of (es_mem s) 8 (d + 8) ∧ s' = s.
Proof.
  unfold dyn_ptr. intros (v & s1 & [-> ->]%dyn_val_inv & H)%CM_bind_inv.
  apply CM_bind_inv in H as (self & s2 & H1 & H). injection H1 as <- <-. by injection H as <- <-.
Qed.

Lemma check_above_inv p s r s' :
  check_above p s = (Ret r, s') →
  s' = s ∧ r = if p <? base_addr (es_self s) then XH_ERRNO_FORMAT else 0.
Proof.
  unfold check_above. intros (self & s1 & H1 & H)%CM_bind_inv. injection H1 as <- <-.
  by injection H as <- <-.
Qed.

Lemma check_above_ok p s s' :
  check_above p s = (Ret 0, s') → s' = s ∧ base_addr (es_self s) ≤ p.
Proof.
  intros [-> H]%check_above_inv. split; [done|]. by destruct (Z.ltb_spec p (base_addr (es_self s))).
Qed.

Lemma set_self_inv f s r s' : set_self f s = (Ret r, s') → s' = ElfState (es_mem s) (f (es_self s)).
Proof. by intros [= _ <-]. Qed.

(** A pointer field set and checked. *)
Lemma set_ptr_ok d f s s' :
  (∀ p self, base_addr (f p self) = base_addr self) →
  (ptr ← dyn_ptr d; set_self (f ptr);; check_above ptr) s = (Ret 0, s') →
  let ptr := bias_addr (es_self s) ⊕ number_of (es_mem s) 8 (d + 8) in
  s' = ElfState (es_mem s) (f ptr (es_self s)) ∧ base_addr (es_self s) ≤ ptr.
Proof.
  intros Hf (p & s1 & [-> ->]%dyn_ptr_inv & H)%CM_bind_inv.
  apply CM_bind_inv in H as (u & s2 & ->%set_self_inv & H).
  apply check_above_ok in H as [-> H]. simpl in H. by rewrite Hf in H.
Qed.

Lemma set_val_ok d f s s' r :
  (val ← dyn_val d; set_self (f val);; mret 0) s = (Ret r, s') →
  s' = ElfState (es_mem s) (f (number_of (es_mem s) 8 (d + 8)) (es_self s)).
Proof.
  intros (v & s1 & [-> ->]%dyn_val_inv & H)%CM_bind_inv.
  apply CM_bind_inv in H as (u & s2 & ->%set_self_inv & H). by injection H as _ <-.
Qed.

(** What a table of the dynamic section must satisfy: hash tables at a place
    above the load address, with the fields read from there. *)
Definition hash_fields (m : memory) (self : xh_elf_t) (raw : Z) : Prop :=
  base_addr self ≤ raw ∧ bucket_cnt self = number_of m 4 raw ∧
  chain self = bucket self ⊕ 4 * bucket_cnt self ∧
  if is_use_gnu_hash self =? 1 then
    symoffset self = number_of m 4 (raw ⊕ 4) ∧ bloom_sz self = number_of m 4 (raw ⊕ 8) ∧
    bloom_shift self = number_of m 4 (raw ⊕ 12) ∧ bloom self = raw ⊕ 16 ∧
    bucket self = bloom self ⊕ 8 * bloom_sz self
  else chain_cnt self = number_of m 4 (raw ⊕ 4) ∧ bucket self = raw ⊕ 8.

Definition unset_or_above (self : xh_elf_t) (p : Z) : Prop := p = 0 ∨ base_addr self ≤ p.
Definition fields_above (m : memory) (self : xh_elf_t) : Prop :=
  unset_or_above self (strtab self) ∧ unset_or_above self (symtab self) ∧
  unset_or_above self (relplt self) ∧ unset_or_above self (reldyn self) ∧
  unset_or_above self (relandroid self) ∧
  (is_use_gnu_hash self = 0 ∨ is_use_gnu_hash self = 1) ∧
  (bucket self = 0 ∧ is_use_gnu_hash self = 0 ∨ ∃ raw, hash_fields m self raw).

Lemma init_hash_ok d s s' :
  init_hash d s = (Ret 0, s') →
  s' = ElfState (es_mem s)
         (apply_entry (es_mem s) (es_self s) (DT_HASH, number_of (es_mem s) 8 (d + 8))) ∧
  (fields_above (es_mem s) (es_self s) → fields_above (es_mem s) (es_self s')).
Proof.
  unfold init_hash. intros (self & s1 & H1 & H)%CM_bind_inv. injection H1 as <- <-.
  change (apply_entry _ _ _) with
    (let ptr := bias_addr (es_self s) ⊕ number_of (es_mem s) 8 (d + 8) in
     if is_use_gnu_hash (es_self s) =? 1 then es_self s
     else let n := number_of (es_mem s) 4 ptr in
       with_elf_hash n (number_of (es_mem s) 4 (ptr ⊕ 4)) (ptr ⊕ 8) (ptr ⊕ 8 ⊕ 4 * n) (es_self s)).
  cbv zeta. destruct (is_use_gnu_hash (es_self s) =? 1) eqn:Hg.
  { injection H as <-. by destruct s. }
  apply CM_bind_inv in H as (p & s1 & [-> ->]%dyn_ptr_inv & H).
  apply CM_bind_inv in H as (r & s1 & Hr & H). destruct (Z.eqb_spec r 0) as [->|Hr0]; [|by injection H].
  apply check_above_ok in Hr as [-> Habove]. cbn [negb] in H.
  apply CM_bind_inv in H as (r0 & s1 & (-> & -> & _)%in_mem_load_inv & H).
  apply CM_bind_inv in H as (r1 & s1 & (-> & -> & _)%in_mem_load_inv & H).
  apply CM_bind_inv in H as (u & s1 & ->%set_self_inv & H). injection H as <-. split; [done|].
  intros (H1 & H2 & H3 & H4 & H5 & H6 & _). unfold fields_above. simpl. split_and!; try done.
  right. eexists. unfold hash_fields. simpl. rewrite Hg. by split_and!.
Qed.

Lemma init_gnu_hash_ok d s s' :
  init_gnu_hash d s = (Ret 0, s') →
  s' = ElfState (es_mem s)
         (apply_entry (es_mem s) (es_self s) (DT_GNU_HASH, number_of (es_mem s) 8 (d + 8))) ∧
  (fields_above (es_mem s) (es_self s) → fields_above (es_mem s) (es_self s')).
Proof.
  unfold init_gnu_hash. intros (p & s1 & [-> ->]%dyn_ptr_inv & H)%CM_bind_inv.
  apply CM_bind_inv in H as (r & s1 & Hr & H). destruct (Z.eqb_spec r 0) as [->|Hr0]; [|by injection H].
  apply check_above_ok in Hr as [-> Habove]. cbn [negb] in H.
  do 4 (apply CM_bind_inv in H as (? & s1 & (-> & -> & _)%in_mem_load_inv & H)).
  apply CM_bind_inv in H as (u & s1 & ->%set_self_inv & H). injection H as <-. split; [done|].
  intros (H1 & H2 & H3 & H4 & H5 & H6 & _). unfold fields_above. simpl. split_and!; try done.
  - by right.
  - right. eexists. unfold hash_fields. simpl. by split_and!.
Qed.

(** The cases of the entry that set a field other than the hash tables. *)
Ltac keep_fields :=
  unfold fields_above, unset_or_above; simpl; intros (? & ? & ? & ? & ? & ? & ?);
  split_and!; try done; by right.

Lemma init_dyn_entry_ok tag d s s' :
  init_dyn_entry tag d s = (Ret 0, s') →
  s' = ElfState (es_mem s) (apply_entry (es_mem s) (es_self s) (tag, number_of (es_mem s) 8 (d + 8))) ∧
  (fields_above (es_mem s) (es_self s) → fields_above (es_mem s) (es_self s')).
Proof.
  unfold init_dyn_entry, apply_entry.
  destruct (tag =? DT_STRTAB) eqn:E1.
  { intros H. apply (set_ptr_ok d with_strtab) in H as [-> Hp]; [|done]. split; [done|]. keep_fields. }
  destruct (tag =? DT_SYMTAB) eqn:E2.
  { intros H. apply (set_ptr_ok d with_symtab) in H as [-> Hp]; [|done]. split; [done|]. keep_fields. }
  destruct (tag =? DT_PLTREL) eqn:E3.
  { intros H. apply (set_val_ok d (λ v, with_is_use_rela (if v =? DT_RELA then 1 else 0))) in H as ->.
    split; [done|]. keep_fields. }
  destruct (tag =? DT_JMPREL) eqn:E4.
  { intros H. apply (set_ptr_ok d (λ p s, with_relplt p (relplt_sz s) s)) in H as [-> Hp]; [|done].
    split; [done|]. keep_fields. }
  destruct (tag =? DT_PLTRELSZ) eqn:E5.
  { intros H. apply (set_val_ok d (λ v s, with_relplt (relplt s) (u32 v) s)) in H as ->. split; [done|]. keep_fields. }
  destruct (is_one_of [DT_REL; DT_RELA] tag) eqn:E6.
  { intros H. apply (set_ptr_ok d (λ p s, with_reldyn p (reldyn_sz s) s)) in H as [-> Hp]; [|done].
    split; [done|]. keep_fields. }
  destruct (is_one_of [DT_RELSZ; DT_RELASZ] tag) eqn:E7.
  { intros H. apply (set_val_ok d (λ v s, with_reldyn (reldyn s) (u32 v) s)) in H as ->. split; [done|]. keep_fields. }
  destruct (is_one_of [DT_ANDROID_REL; DT_ANDROID_RELA] tag) eqn:E8.
  { intros H. apply (set_ptr_ok d (λ p s, with_relandroid p (relandroid_sz s) s)) in H as [-> Hp]; [|done].
    split; [done|]. keep_fields. }
  destruct (is_one_of [DT_ANDROID_RELSZ; DT_ANDROID_RELASZ] tag) eqn:E9.
  { intros H. apply (set_val_ok d (λ v s, with_relandroid (relandroid s) (u32 v) s)) in H as ->.
    split; [done|]. keep_fields. }
  destruct (Z.eqb_spec tag DT_HASH) as [->|]; [apply init_hash_ok|].
  destruct (Z.eqb_spec tag DT_GNU_HASH) as [->|]; [apply init_gnu_hash_ok|].
  intros [= <-]. by destruct s.
Qed.

Lemma init_dyn_loop_ok n d s s' :
  init_dyn_loop n d s = (Ret 0, s') →
  s' = ElfState (es_mem s) (foldl (apply_entry (es_mem s)) (es_self s) (dyn_entries (es_mem s) n d)) ∧
  (fields_above (es_mem s) (es_self s) → fields_above (es_mem s) (es_self s')).
Proof.
  revert d s. induction n as [|n IH]; intros d s H; simpl in H.
  { injection H as <-. by destruct s. }
  apply CM_bind_inv in H as (tag & s1 & (-> & -> & _)%in_mem_load_inv & H).
  cbn [dyn_entries]. cbv zeta. destruct (_ =? DT_NULL); [injection H as <-; by destruct s|].
  apply CM_bind_inv in H as (r & s1 & Hr & H).
  destruct (Z.eqb_spec r 0) as [->|Hr0]; [|by injection H]. cbn [negb] in H.
  apply init_dyn_entry_ok in Hr as [-> Hk1]. apply IH in H as [-> Hk2]. simpl in *. auto.
Qed.

(** *** The fields by the entries *)

(** The value of the last entry with one of the tags. *)
Definition last_entry (tags : list Z) (entries : list (Z * Z)) : option Z :=
  snd <$> last (base.filter (λ e, is_one_of tags e.1 = true) entries).

Lemma last_entry_snoc tags entries e :
  last_entry tags (entries ++ [e]) = if is_one_of tags e.1 then Some e.2 else last_entry tags entries.
Proof.
  unfold last_entry. rewrite filter_app. destruct (is_one_of tags e.1) eqn:E.
  - rewrite filter_cons_True, filter_nil, last_snoc by done. done.
  - rewrite filter_cons_False, filter_nil, app_nil_r by congruence. done.
Qed.

(** The object a dynamic section describes, from the load bias: every address
    and size is that of the last entry of its kind. *)
Record described (bias : Z) (entries : list (Z * Z)) (self : xh_elf_t) : Prop := {
  ds_bias : bias_addr self = bias;
  ds_strtab : strtab self = from_option (λ v, bias ⊕ v) 0 (last_entry [DT_STRTAB] entries);
  ds_symtab : symtab self = from_option (λ v, bias ⊕ v) 0 (last_entry [DT_SYMTAB] entries);
  ds_relplt : relplt self = from_option (λ v, bias ⊕ v) 0 (last_entry [DT_JMPREL] entries);
  ds_relplt_sz : relplt_sz self = from_option (wrap 32) 0 (last_entry [DT_PLTRELSZ] entries);
  ds_reldyn : reldyn self = from_option (λ v, bias ⊕ v) 0 (last_entry [DT_REL; DT_RELA] entries);
  ds_reldyn_sz : reldyn_sz self = from_option (wrap 32) 0 (last_entry [DT_RELSZ; DT_RELASZ] entries);
  ds_android : relandroid self =
    from_option (λ v, bias ⊕ v) 0 (last_entry [DT_ANDROID_REL; DT_ANDROID_RELA] entries);
  ds_android_sz : relandroid_sz self =
    from_option (wrap 32) 0 (last_entry [DT_ANDROID_RELSZ; DT_ANDROID_RELASZ] entries);
  ds_rela : is_use_rela self =
    from_option (λ v, if v =? DT_RELA then 1 else 0) 0 (last_entry [DT_PLTREL] entries);
  ds_gnu : is_use_gnu_hash self = if last_entry [DT_GNU_HASH] entries is Some _ then 1 else 0
}.

Lemma described_init base ph path bias :
  described bias [] (with_bias_addr bias (with_header path base base ph xh_elf_zero)).
Proof. by split. Qed.

Definition dyn_tags : list Z :=
  [DT_STRTAB; DT_SYMTAB; DT_PLTREL; DT_JMPREL; DT_PLTRELSZ; DT_REL; DT_RELA; DT_RELSZ; DT_RELASZ;
   DT_ANDROID_REL; DT_ANDROID_RELA; DT_ANDROID_RELSZ; DT_ANDROID_RELASZ; DT_HASH; DT_GNU_HASH].

(** An entry of no known tag changes nothing. *)
Lemma apply_entry_other m self tag val :
  tag ∉ dyn_tags → apply_entry m self (tag, val) = self ∧
  ∀ tags, Forall (.∈ dyn_tags) tags → is_one_of tags tag = false.
Proof.
  intros Hn.
  assert (Hone : ∀ tags, Forall (.∈ dyn_tags) tags → is_one_of tags tag = false).
  { intros tags Hsub. apply not_true_iff_false. intros (t & Hin & ->%Z.eqb_eq)%existsb_exists.
    rewrite Forall_forall in Hsub. by apply Hn, Hsub, list_elem_of_In. }
  split; [|done].
  assert (Heq : ∀ t, t ∈ dyn_tags → (tag =? t) = false).
  { intros t Ht. apply Z.eqb_neq. by intros ->. }
  unfold apply_entry. rewrite !Heq, !Hone; try done; apply (bool_decide_unpack _); by vm_compute.
Qed.

Lemma described_apply m bias entries self e :
  described bias entries self → described bias (entries ++ [e]) (apply_entry m self e).
Proof.
  intros [Hb H1 H2 H3 H4 H5 H6 H7 H8 H9 H10]. destruct e as [tag val].
  destruct (decide (tag ∈ dyn_tags)) as [Hin|Hn].
  - unfold dyn_tags in Hin. rewrite !elem_of_cons in Hin.
    destruct_or! Hin; [..|by apply elem_of_nil in Hin]; subst tag;
      split; rewrite ?last_entry_snoc; cbn -[wrap last_entry]; rewrite ?Hb; try done;
      by destruct (is_use_gnu_hash self =? 1).
  - destruct (apply_entry_other m self tag val Hn) as [-> Hone].
    split; rewrite ?last_entry_snoc; cbn [fst snd]; rewrite ?Hone; try done;
      apply (bool_decide_unpack _); by vm_compute.
Qed.

Lemma described_fold m bias done_ entries self :
  described bias done_ self →
  described bias (done_ ++ entries) (foldl (apply_entry m) self entries).
Proof.
  revert done_ self. induction entries as [|e entries IH]; intros done_ self H.
  - by rewrite app_nil_r.
  - replace (done_ ++ e :: entries) with ((done_ ++ [e]) ++ entries) by by rewrite <- app_assoc.
    by apply IH, described_apply.
Qed.

(** ** Segments *)

Definition nth_phdr (ph : Z) (i : nat) : Z := u64 (ph + SIZEOF_PHDR * Z.of_nat i).

(** [q] is the first of the [n] program headers at [ph] for which [f] holds. *)
Definition first_phdr (f : Z → bool) (n : nat) (ph q : Z) : Prop :=
  ∃ i, (i < n)%nat ∧ q = nth_phdr ph i ∧ f q = true ∧ ∀ j, (j < i)%nat → f (nth_phdr ph j) = false.

Definition is_type (m : memory) (type q : Z) : bool := number_of m 4 q =? type.
Definition is_type_offset (m : memory) (type offset q : Z) : bool :=
  is_type m type q && (number_of m 8 (q + 8) =? offset).

Lemma nth_phdr_S ph i : nth_phdr (ph ⊕ SIZEOF_PHDR) i = nth_phdr ph (S i).
Proof. unfold nth_phdr. rewrite wrap_add_l. f_equal. unfold SIZEOF_PHDR. lia. Qed.

Lemma first_phdr_O f n ph : u64 ph = ph → f ph = true → first_phdr f (S n) ph ph.
Proof.
  intros Hw Hf. exists 0%nat. unfold nth_phdr. rewrite Z.mul_0_r, Z.add_0_r, Hw.
  split_and!; [lia|done|done|lia].
Qed.

Lemma first_phdr_S f n ph q :
  u64 ph = ph → f ph = false → first_phdr f n (ph ⊕ SIZEOF_PHDR) q → first_phdr f (S n) ph q.
Proof.
  intros Hw Hf (i & Hi & -> & Hq & Hj). exists (S i). rewrite nth_phdr_S in Hq |- *.
  split_and!; [lia|done|done|]. intros [|j] Hlt.
  - unfold nth_phdr. by rewrite Z.mul_0_r, Z.add_0_r, Hw.
  - rewrite <- nth_phdr_S. apply Hj. lia.
Qed.

Lemma first_segment_by_type_ok n ph type m q m' :
  u64 ph = ph → first_segment_by_type n ph type m = (Ret (Some q), m') →
  first_phdr (is_type m type) n ph q.
Proof.
  revert ph. induction n as [|n IH]; intros ph Hw H; simpl in H; [discriminate H|].
  unfold p_type in H. apply CM_bind_inv in H as (t & m1 & (_ & -> & ->)%load_inv & H).
  destruct (_ =? type) eqn:E.
  - injection H as <- <-. by apply first_phdr_O.
  - apply first_phdr_S; [done|done|]. apply IH; [|done]. by apply wrap_idem.
Qed.

Lemma first_segment_by_type_offset_ok n ph type offset m q m' :
  u64 ph = ph → first_segment_by_type_offset n ph type offset m = (Ret (Some q), m') →
  first_phdr (is_type_offset m type offset) n ph q.
Proof.
  revert ph. induction n as [|n IH]; intros ph Hw H; simpl in H; [discriminate H|].
  unfold p_type, p_offset in H. apply CM_bind_inv in H as (t & m1 & (_ & -> & ->)%load_inv & H).
  apply CM_bind_inv in H as (b & m1 & Hb & H).
  assert (m1 = m ∧ b = is_type_offset m type offset ph) as [-> ->].
  { unfold is_type_offset, is_type. destruct (_ =? type); [|by injection Hb as <- <-].
    apply CM_bind_inv in Hb as (o & m2 & (_ & -> & ->)%load_inv & Hb). by injection Hb as <- <-. }
  destruct (is_type_offset m type offset ph) eqn:E.
  - injection H as <- <-. by apply first_phdr_O.
  - apply first_phdr_S; [done|done|]. apply IH; [|done]. by apply wrap_idem.
Qed.

(** ** The result of a successful initialisation *)

(** The packed relocations, past their magic. *)
Definition android_magic (m : memory) (self self' : xh_elf_t) : Prop :=
  if relandroid self =? 0 then self' = self
  else bytes_at m (relandroid self) APS2 ∧ 4 ≤ relandroid_sz self ∧
    self' = with_relandroid (relandroid self ⊕ 4) (relandroid_sz self - 4) self.

Record initialised (m : memory) (base : Z) (path : list Z) (self : xh_elf_t) : Prop := {
  in_header : pathname self = Some path ∧ base_addr self = base ∧ ehdr self = base ∧
    phdr self = base ⊕ number_of m 8 (base + 32);
  in_dynamic : ∃ phdr0 dhdr parsed,
    let n := Z.to_nat (number_of m 2 (base + 56)) in
    let bias := base - number_of m 8 (phdr0 + 16) in
    first_phdr (is_type_offset m PT_LOAD 0) n (phdr self) phdr0 ∧
    first_phdr (is_type m PT_DYNAMIC) n (phdr self) dhdr ∧
    dyn self = bias ⊕ number_of m 8 (dhdr + 16) ∧ dyn_sz self = u32 (number_of m 8 (dhdr + 40)) ∧
    described bias (dyn_entries m (Z.to_nat (dyn_sz self / SIZEOF_DYN)) (dyn self)) parsed ∧
    fields_above m parsed ∧ android_magic m parsed self;
  in_nonnull : base ≠ 0 ∧ 0 < bias_addr self ≤ base ∧ base ≤ strtab self ∧ base ≤ symtab self ∧
    bucket self ≠ 0 ∧ chain self ≠ 0 ∧ (is_use_gnu_hash self = 1 → bloom self ≠ 0);
  in_hash : ∃ raw, hash_fields m self raw
}.

Lemma xh_elf_check_ok self :
  xh_elf_check self = 0 →
  base_addr self ≠ 0 ∧ bias_addr self ≠ 0 ∧ strtab self ≠ 0 ∧ symtab self ≠ 0 ∧ bucket self ≠ 0 ∧
  chain self ≠ 0 ∧ (is_use_gnu_hash self = 1 → bloom self ≠ 0).
Proof.
  unfold xh_elf_check.
  repeat match goal with |- context [?x =? 0] => destruct (Z.eqb_spec x 0); [done|] end.
  destruct (Z.eqb_spec (is_use_gnu_hash self) 1); simpl; [|naive_solver].
  destruct (Z.eqb_spec (bloom self) 0); naive_solver.
Qed.

Lemma magic_at_ok a magic m b m' :
  magic_at a magic m = (Ret b, m') → m' = m ∧
  (b = true → bytes_at m a magic).
Proof.
  intros H. split; [exact (readonly_run _ _ _ _ H)|]. revert a H.
  induction magic as [|c magic IH]; intros a H Hb; [done|]. cbn [length magic_at] in *.
  apply CM_bind_inv in H as (v & m1 & (Hr & -> & ->)%load_inv & H).
  simpl in Hr. rewrite andb_true_r in Hr. simpl in H. rewrite Z.add_0_r in H.
  destruct (Z.eqb_spec (byte_of m a) c) as [Hc|]; [|injection H as H _; congruence].
  split_and!; [done|done|]. by apply IH.
Qed.

Lemma init_android_rel_ok s s' :
  init_android_rel s = (Ret 0, s') →
  es_mem s' = es_mem s ∧ android_magic (es_mem s) (es_self s) (es_self s').
Proof.
  unfold init_android_rel, android_magic. intros (self & s1 & H1 & H)%CM_bind_inv.
  injection H1 as <- <-. destruct (relandroid (es_self s) =? 0); [by injection H as <-|].
  apply CM_bind_inv in H as (ok & s1 & Hok & H).
  destruct (Z.ltb_spec (relandroid_sz (es_self s)) 4) as [|Hsz].
  { injection Hok as <- <-. by injection H. }
  unfold in_mem in Hok. destruct (magic_at _ _ _) as [[b|e] m1] eqn:Hm; [|discriminate Hok].
  injection Hok as <- <-. destruct b; [|discriminate H].
  apply magic_at_ok in Hm as [-> Hmagic]. simpl in H.
  apply CM_bind_inv in H as (u & s2 & ->%set_self_inv & H). injection H as <-. simpl.
  split; [by destruct s|]. split; [by apply Hmagic|done].
Qed.

Lemma in_mem_inv {A} (c : CM memory A) `{!ReadOnly c} s v s' :
  in_mem c s = (Ret v, s') → s' = s ∧ c (es_mem s) = (Ret v, es_mem s).
Proof.
  unfold in_mem. destruct (c (es_mem s)) as [r m] eqn:Hc. intros [= -> <-].
  pose proof (readonly_run _ _ _ _ Hc) as ->. by destruct s.
Qed.

Lemma get_self_inv s v s' : get_self s = (Ret v, s') → v = es_self s ∧ s' = s.
Proof. by intros [= <- <-]. Qed.

(** The fields entries do not set. *)
Definition header_part (self : xh_elf_t) :=
  (pathname self, base_addr self, ehdr self, phdr self, dyn self, dyn_sz self).

Lemma apply_entry_header m self e : header_part (apply_entry m self e) = header_part self.
Proof.
  destruct e as [tag val]. unfold apply_entry.
  repeat match goal with |- context [if ?b then _ else _] => destruct b end; done.
Qed.

Lemma fold_header m self entries :
  header_part (foldl (apply_entry m) self entries) = header_part self.
Proof.
  revert self. induction entries as [|e entries IH]; intros self; [done|]. simpl.
  by rewrite IH, apply_entry_header.
Qed.

Lemma get_segment_ok self type m q m' :
  u64 (phdr self) = phdr self →
  xh_elf_get_first_segment_by_type self type m = (Ret (Some q), m') →
  first_phdr (is_type m type) (Z.to_nat (number_of m 2 (ehdr self + 56))) (phdr self) q.
Proof.
  intros Hw. unfold xh_elf_get_first_segment_by_type, e_phnum.
  intros (n & m1 & (_ & -> & ->)%load_inv & H)%CM_bind_inv. by eapply first_segment_by_type_ok.
Qed.

Lemma get_segment_offset_ok self type offset m q m' :
  u64 (phdr self) = phdr self →
  xh_elf_get_first_segment_by_type_offset self type offset m = (Ret (Some q), m') →
  first_phdr (is_type_offset m type offset) (Z.to_nat (number_of m 2 (ehdr self + 56))) (phdr self) q.
Proof.
  intros Hw. unfold xh_elf_get_first_segment_by_type_offset, e_phnum.
  intros (n & m1 & (_ & -> & ->)%load_inv & H)%CM_bind_inv. by eapply first_segment_by_type_offset_ok.
Qed.

#[local] Arguments number_of : simpl never.

(** From the parts of a successful run to its summary. *)
Lemma init_summary m base path self0 selfd parsed self ph0 dh n :
  0 ≤ base < 2 ^ 64 →
  let bias := base - number_of m 8 (ph0 + 16) in
  self0 = with_header (Some path) base base (base ⊕ number_of m 8 (base + 32)) xh_elf_zero →
  n = Z.to_nat (number_of m 2 (base + 56)) →
  first_phdr (is_type_offset m PT_LOAD 0) n (phdr self0) ph0 →
  first_phdr (is_type m PT_DYNAMIC) n (phdr self0) dh → number_of m 8 (ph0 + 16) ≤ base →
  selfd = with_dyn (bias ⊕ number_of m 8 (dh + 16)) (u32 (number_of m 8 (dh + 40)))
            (with_bias_addr bias self0) →
  parsed = foldl (apply_entry m) selfd (dyn_entries m (Z.to_nat (dyn_sz selfd / SIZEOF_DYN)) (dyn selfd)) →
  fields_above m parsed → android_magic m parsed self → xh_elf_check self = 0 →
  initialised m base path self.
Proof.
  intros Hbase bias -> Hn Hph Hdh Hv -> Hparsed Habove Hmagic Hchk.
  assert (Hdesc : described bias (dyn_entries m (Z.to_nat (u32 (number_of m 8 (dh + 40)) / SIZEOF_DYN))
    (bias ⊕ number_of m 8 (dh + 16))) parsed).
  { rewrite Hparsed. apply (described_fold m bias []). by split. }
  pose proof (f_equal header_part Hparsed) as Hhead. rewrite fold_header in Hhead.
  unfold header_part in Hhead. simpl in Hhead.
  injection Hhead as Hp1 Hp2 Hp3 Hp4 Hp5 Hp6.
  assert (Hsame : ∃ v sz, self = with_relandroid v sz parsed).
  { unfold android_magic in Hmagic. destruct (relandroid parsed =? 0).
    - exists (relandroid parsed), (relandroid_sz parsed). subst self. by destruct parsed.
    - destruct Hmagic as (_ & _ & ->). eauto. }
  destruct Hsame as (v & sz & Hself).
  apply xh_elf_check_ok in Hchk as (Hb0 & Hbias0 & Hstr & Hsym & Hbk & Hch & Hbl).
  pose proof Habove as (H1 & H2 & _ & _ & _ & _ & Hhash). pose proof (ds_bias _ _ _ Hdesc) as Hbias.
  unfold unset_or_above in H1, H2. rewrite Hp2 in H1, H2.
  assert (0 ≤ number_of m 8 (ph0 + 16)) by apply (number_of_range m 8).
  rewrite Hself in Hb0, Hbias0, Hstr, Hsym, Hbk, Hch, Hbl. simpl in *.
  split.
  - rewrite Hself. simpl. by rewrite Hp1, Hp2, Hp3, Hp4.
  - exists ph0, dh, parsed. cbv zeta. rewrite <- Hn. fold bias.
    replace (phdr self) with (phdr parsed) by by rewrite Hself.
    replace (dyn self) with (dyn parsed) by by rewrite Hself.
    replace (dyn_sz self) with (dyn_sz parsed) by by rewrite Hself.
    rewrite Hp4, Hp5, Hp6. by split_and!.
  - rewrite Hself. simpl. rewrite Hp2 in Hb0. rewrite Hbias in *. unfold bias in *.
    split_and!; try done; lia.
  - rewrite Hself. destruct Hhash as [[? _]|(raw & Hraw)]; [done|]. by exists raw.
Qed.

(** ** The theorems *)



(** *** Faults *)

(** The only fault of a computation is SIGSEGV. *)
Class OnlySegv {S A} (c : CM S A) : Prop := only_segv : ∀ s e s', c s = (Err e, s') → e = Segv.

#[export] Instance only_segv_ret {S A} (a : A) : OnlySegv (S:=S) (mret a).
Proof. by intros s e s'. Qed.
#[export] Instance only_segv_modify {S} (f : S → S) : OnlySegv (modify f).
Proof. by intros s e s'. Qed.
#[export] Instance only_segv_gets {S A} (f : S → A) : OnlySegv (gets f).
Proof. by intros s e s'. Qed.
#[export] Instance only_segv_load n a : OnlySegv (load n a).
Proof. intros m e m'. unfold load. destruct (allows _ _ _ _); [done|by intros [= <- _]]. Qed.
#[export] Instance only_segv_bind {S A B} (c : CM S A) (f : A → CM S B) :
  OnlySegv c → (∀ a, OnlySegv (f a)) → OnlySegv (c ≫= f).
Proof.
  intros Hc Hf s e s'. unfold mbind, CM_bind. destruct (c s) as [[a|e'] s1] eqn:E.
  - apply Hf.
  - intros [= <- _]. by eapply Hc.
Qed.
#[export] Instance only_segv_in_mem {A} (c : CM memory A) : OnlySegv c → OnlySegv (in_mem c).
Proof.
  intros Hc s e s'. unfold in_mem. destruct (c (es_mem s)) as [r m] eqn:E. intros [= -> _]. by eapply Hc.
Qed.

Ltac solve_only_segv :=
  repeat match goal with
  | |- OnlySegv (_ ≫= _) => apply only_segv_bind; [|intros]
  | |- OnlySegv (if ?b then _ else _) => destruct b
  | |- OnlySegv (match ?x with _ => _ end) => destruct x
  | |- OnlySegv (let _ := _ in _) => cbv zeta
  | |- OnlySegv (in_mem _) => apply only_segv_in_mem
  | |- OnlySegv get_self => unfold get_self
  | |- OnlySegv (set_self _) => unfold set_self
  | |- OnlySegv (check_above _) => unfold check_above
  | |- OnlySegv (dyn_ptr _) => unfold dyn_ptr
  | |- OnlySegv (dyn_val _) => unfold dyn_val, d_val
  | |- OnlySegv _ => solve [assumption | typeclasses eauto]
  end.

#[export] Instance magic_at_segv a magic : OnlySegv (magic_at a magic).
Proof. revert a. induction magic; intros a'; simpl; solve_only_segv. Qed.
#[export] Instance get_segment_segv self t : OnlySegv (xh_elf_get_first_segment_by_type self t).
Proof.
  unfold xh_elf_get_first_segment_by_type, e_phnum. apply only_segv_bind; [apply _|]. intros n.
  generalize (phdr self). induction (Z.to_nat n); intros ph; simpl; unfold p_type; solve_only_segv.
Qed.
#[export] Instance get_segment_offset_segv self t o :
  OnlySegv (xh_elf_get_first_segment_by_type_offset self t o).
Proof.
  unfold xh_elf_get_first_segment_by_type_offset, e_phnum. apply only_segv_bind; [apply _|]. intros n.
  generalize (phdr self).
  induction (Z.to_nat n); intros ph; simpl; unfold p_type, p_offset; solve_only_segv.
Qed.
#[export] Instance init_entry_segv tag d : OnlySegv (init_dyn_entry tag d).
Proof. unfold init_dyn_entry, init_hash, init_gnu_hash. solve_only_segv. Qed.
#[export] Instance init_loop_segv n d : OnlySegv (init_dyn_loop n d).
Proof. revert d. induction n; intros d; simpl; unfold d_tag; solve_only_segv. Qed.
#[export] Instance init_android_segv : OnlySegv init_android_rel.
Proof. unfold init_android_rel. solve_only_segv. Qed.
#[export] Instance init_segv base path : OnlySegv (xh_elf_init base path).
Proof.
  unfold xh_elf_init, xh_elf_init_body, e_phoff, p_vaddr, p_memsz. solve_only_segv.
Qed.

#[export] Instance check_elfheader_readonly base : ReadOnly (xh_elf_check_elfheader base).
Proof. unfold xh_elf_check_elfheader, e_type, e_machine, e_version. solve_readonly. Qed.
#[export] Instance check_elfheader_segv base : OnlySegv (xh_elf_check_elfheader base).
Proof. unfold xh_elf_check_elfheader, e_type, e_machine, e_version. solve_only_segv. Qed.

(** xh_elf_init never changes memory, whatever file it is given and
    however it ends, and its only fault is a SIGSEGV: its loops terminate. *)
Theorem xh_elf_init_safe base path s :
  es_mem (xh_elf_init base path s).2 = es_mem s ∧
  match (xh_elf_init base path s).1 with Err e => e = Segv | Ret _ => True end.
Proof.
  split; [apply mem_kept|]. destruct (xh_elf_init base path s) as [[r|e] s'] eqn:E; [done|].
  simpl. exact (only_segv _ _ _ E).
Qed.
