(* ===== verification/XhElfHookAll.v ===== *)
(** * xh_elf_hook redirects every slot of a symbol

    The slots are read off the relocation tables before anything is changed;
    xh_elf_hook is then shown to replace them one after the other, although it
    reads the tables while it writes. *)

From S2P Require Import Prelude CMem XhUtil XhUtilProps XhElfReloc XhElfRelocProps XhElfPacked.
From S2P Require Import XhElfLocal XhElfTypes XhElfHash XhElfHashProps XhElfHook Sample.
From S2P Require Import XhElfHookProps.

#[local] Open Scope cint_scope.
#[local] Arguments number_of : simpl never.

(** ** The slots of a symbol *)

(** r_offset and r_info of an entry of a plain table. *)
Definition plain_rel (a : Z) : CM memory (Z * Z) :=
  info ← r_info a; offset ← r_offset a; mret (offset, info).
Definition plain_entries (rel rel_sz is_use_rela : Z) : list Z :=
  if rel =? 0 then []
  else plain_pull (S (Z.to_nat rel_sz)) (xh_elf_plain_reloc_iterator_init rel rel_sz is_use_rela).
Definition android_rels (self : xh_elf_t) : CM memory (list (Z * Z)) :=
  if relandroid self =? 0 then mret []
  else
    init ← xh_elf_packed_reloc_iterator_init (relandroid self) (relandroid_sz self) (is_use_rela self);
    let it := step_state init in
    '(rels, _) ← packed_pull (S (Z.to_nat (relocation_count it))) it;
    mret rels.

Definition wanted (is_plt : bool) (symidx : Z) (rel : Z * Z) : bool :=
  (XH_ELF_R_SYM rel.2 =? symidx) && hookable is_plt (XH_ELF_R_TYPE rel.2).
Fixpoint slots_of (self : xh_elf_t) (is_plt : bool) (symidx : Z) (rels : list (Z * Z)) : list Z :=
  match rels with
  | [] => []
  | rel :: rels =>
      (if wanted is_plt symidx rel then [bias_addr self ⊕ rel.1] else []) ++
      slots_of self is_plt symidx rels
  end.

Definition plt_entries (self : xh_elf_t) : list Z :=
  plain_entries (relplt self) (relplt_sz self) (is_use_rela self).
Definition dyn_entries (self : xh_elf_t) : list Z :=
  plain_entries (reldyn self) (reldyn_sz self) (is_use_rela self).

(** One slot of the PLT, every other one of the other two tables. *)
Definition hook_slots (self : xh_elf_t) (symidx : Z) : CM memory (list Z) :=
  plt ← mapM plain_rel (plt_entries self);
  dyn ← mapM plain_rel (dyn_entries self);
  android ← android_rels self;
  mret (take 1 (slots_of self true symidx plt) ++ slots_of self false symidx dyn ++
        slots_of self false symidx android).

(** The bytes the tables are in. *)
Definition in_table (self : xh_elf_t) (b : Z) : Prop :=
  (∃ a, (a ∈ plt_entries self ∨ a ∈ dyn_entries self) ∧ a ≤ b < a + 16) ∨
  relandroid self ≠ 0 ∧ relandroid self ≤ b < relandroid self + relandroid_sz self.

(** The tables lie in the address space. *)
Definition tables_fit (self : xh_elf_t) : Prop :=
  (0 ≤ relplt self ∧ 0 ≤ relplt_sz self ∧ relplt self + relplt_sz self + 24 < 2 ^ 64) ∧
  (0 ≤ reldyn self ∧ 0 ≤ reldyn_sz self ∧ reldyn self + reldyn_sz self + 24 < 2 ^ 64) ∧
  (0 ≤ relandroid self ∧ 0 ≤ relandroid_sz self ∧ relandroid self + relandroid_sz self < 2 ^ 64).

(** Slots are equal or apart, and neither they nor the caller's variable
    overlap with what must not change under the loops. *)
Definition slots_apart (self : xh_elf_t) (old : Z) (slots : list Z) : Prop :=
  (∀ s t, s ∈ slots → t ∈ slots → s = t ∨ disjoint8 s t) ∧
  (old = 0 ∨ ∀ s, s ∈ slots → disjoint8 s old) ∧
  (∀ b, in_table self b → (∀ s, s ∈ slots → outside s b) ∧ (old = 0 ∨ outside old b)).

Section hook.
Context {K : Kernel} {L : KernelLaws K}.
Context (self : xh_elf_t) (new : Z) (old symidx : Z) (Hnew : 0 ≤ new < 2 ^ 64).

(** ** Replacing a list of slots *)

Definition hook_slot (s : Z) : CM memory Z :=
  if s <? base_addr self then mret XH_ERRNO_FORMAT else xh_elf_replace_function self s new old.
Fixpoint replace_each (slots : list Z) : CM memory Z :=
  match slots with
  | [] => mret 0
  | s :: slots => r ← hook_slot s; if negb (r =? 0) then mret r else replace_each slots
  end.

(** What has happened after the slots of [done]. *)
Record hooked (m0 : memory) (done : list Z) (m : memory) : Prop := {
  hk_new s : s ∈ done → number_of m 8 s = new;
  hk_rest b : (∀ s, s ∈ done → outside s b) → old = 0 ∨ outside old b → byte_of m b = byte_of m0 b;
  hk_old : old ≠ 0 →
    (∀ s, s ∈ done → number_of m0 8 s = new) ∧ number_of m 8 old = number_of m0 8 old ∨
    ∃ s, s ∈ done ∧ number_of m0 8 s ≠ new ∧ number_of m 8 old = number_of m0 8 s
}.

Lemma hooked_nil m : hooked m [] m.
Proof using Type.
  split; [by intros s ?%elem_of_nil|done|]. intros _. left. split; [by intros s ?%elem_of_nil|done].
Qed.

Lemma disjoint_outside s t b : disjoint8 s t → t ≤ b < t + 8 → outside s b.
Proof using Type. unfold disjoint8, outside. lia. Qed.

Lemma hooked_slot m0 slots done s m m' :
  slots_apart self old slots → (∀ t, t ∈ done → t ∈ slots) → s ∈ slots →
  hooked m0 done m → hook_slot s m = (Ret 0, m') → hooked m0 (done ++ [s]) m'.
Proof using L Hnew.
  intros (Hap & Hold & _) Hsub Hs [Hn Hrest Ho]. unfold hook_slot.
  destruct (_ <? _); [by intros [=]|]. intros Hrun.
  assert (Hso : old = 0 ∨ disjoint8 s old) by (destruct Hold; [by left|right; auto]).
  destruct (replace_function_ok _ Hnew _ _ _ _ _ Hso Hrun) as (Hsn & Honly & Hsame & Hsold).
  assert (Hkeep : ∀ t, t ∈ done → number_of m' 8 t = new).
  { intros t Ht. destruct (Hap s t) as [->|Hd]; [done|auto|done|].
    rewrite <- (Hn t Ht). apply number_of_ext. intros b Hb.
    apply Honly; [by eapply disjoint_outside|].
    destruct Hold as [|Hold]; [by left|right]. eapply disjoint_outside; [|exact Hb].
    specialize (Hold t ltac:(auto)). unfold disjoint8 in *. lia. }
  (* the slot's content before is the initial one, unless it was done already *)
  assert (Hinit : s ∉ done → number_of m 8 s = number_of m0 8 s).
  { intros Hd. apply number_of_ext. intros b Hb. apply Hrest.
    - intros t Ht. destruct (Hap t s) as [->|Htd]; [auto|done|done|]. by eapply disjoint_outside.
    - destruct Hso as [|Hso]; [by left|right]. eapply disjoint_outside; [|exact Hb].
      unfold disjoint8 in *. lia. }
  split.
  - intros t [Ht| ->%list_elem_of_singleton]%elem_of_app; [by apply Hkeep|done].
  - intros b Hb Hbo. rewrite <- Hrest by (done || (intros t Ht; apply Hb, elem_of_app; by left)).
    apply Honly; [|done]. apply Hb, elem_of_app. right. by apply list_elem_of_singleton.
  - intros Hz. destruct (decide (number_of m 8 s = new)) as [E|E].
    + rewrite (Hsame E). destruct (Ho Hz) as [[Hall Heq]|(t & Ht & Hne & Heq)].
      * destruct (decide (number_of m0 8 s = new)) as [E0|E0].
        -- left. split; [|done]. intros t [Ht| ->%list_elem_of_singleton]%elem_of_app; auto.
        -- exfalso. destruct (decide (s ∈ done)) as [Hd|Hd]; [by apply E0, Hall|].
           apply E0. by rewrite <- Hinit.
      * right. exists t. split; [|done]. apply elem_of_app. by left.
    + assert (Hd : s ∉ done) by (intros Hd; by apply E, Hn). right. exists s.
      split; [apply elem_of_app; right; by apply list_elem_of_singleton|].
      rewrite <- Hinit by done. split; [done|]. by apply Hsold.
Qed.

Lemma hooked_each m0 slots done l m m' :
  slots_apart self old slots → (∀ t, t ∈ done ++ l → t ∈ slots) →
  hooked m0 done m → replace_each l m = (Ret 0, m') → hooked m0 (done ++ l) m'.
Proof using L Hnew.
  intros Hap. revert done m. induction l as [|s l IH]; intros done m Hsub Hh; simpl.
  { intros [= <-]. by rewrite app_nil_r. }
  intros (r & m1 & Hs & H)%CM_bind_inv.
  destruct (Z.eqb_spec r 0) as [->|]; [|by injection H].
  replace (done ++ s :: l) with ((done ++ [s]) ++ l) in * by by rewrite <- app_assoc.
  apply (IH _ m1); [done| |done]. eapply hooked_slot; [done| | |done|done].
  - intros t Ht. apply Hsub. rewrite !elem_of_app. auto.
  - apply Hsub. rewrite !elem_of_app. left. right. by apply list_elem_of_singleton.
Qed.

(** ** The loops *)

Section loops.
Context (m0 : memory) (slots : list Z) (Hap : slots_apart self old slots).

Definition tables_kept (m : memory) : Prop := ∀ b, in_table self b → byte_of m b = byte_of m0 b.

(** [c] replaces the slots of [l], unless a table is not readable any more
    where it was in [m0]. *)
Definition tracks (c : CM memory Z) (l : list Z) (m : memory) : Prop :=
  c m = replace_each l m ∨
  ∃ l1 l2 m', l = l1 ++ l2 ∧ replace_each l1 m = (Ret 0, m') ∧ c m = (Err Segv, m') ∧
    ¬ same_prot m0 m'.

Lemma tracks_eq c c' l m : c m = c' m → tracks c' l m → tracks c l m.
Proof using Type. unfold tracks. by intros ->. Qed.

Lemma tracks_fault c l m : c m = (Err Segv, m) → ¬ same_prot m0 m → tracks c l m.
Proof using Type. intros. right. by exists [], l, m. Qed.

Lemma hook_slot_kept s m r m' :
  s ∈ slots → tables_kept m → hook_slot s m = (Ret r, m') → r = 0 → tables_kept m'.
Proof using L Hnew Hap.
  unfold hook_slot. intros Hs Hk. destruct (_ <? _); [by intros [= <- _]|]. intros Hrun ->.
  destruct Hap as (_ & Hold & Htab).
  assert (Hso : old = 0 ∨ disjoint8 s old) by (destruct Hold; [by left|right; auto]).
  destruct (replace_function_ok _ Hnew _ _ _ _ _ Hso Hrun) as (_ & Honly & _).
  intros b Hb. destruct (Htab b Hb) as [Ho1 Ho2]. rewrite <- Hk by done. by apply Honly; [apply Ho1|].
Qed.

Lemma replace_each_kept l m m' :
  (∀ s, s ∈ l → s ∈ slots) → tables_kept m → replace_each l m = (Ret 0, m') → tables_kept m'.
Proof using L Hnew Hap.
  revert m. induction l as [|s l IH]; intros m Hsub Hk; simpl; [by intros [= <-]|].
  intros (r & m1 & Hs & H)%CM_bind_inv.
  destruct (Z.eqb_spec r 0) as [->|]; [|by injection H].
  apply (IH m1); [intros; apply Hsub; by constructor| |done].
  eapply hook_slot_kept; [apply Hsub; by constructor|done|done|done].
Qed.

(** One slot, then the rest. *)
Lemma tracks_cons s l c k m :
  s ∈ slots → tables_kept m → c m = (r ← hook_slot s; if negb (r =? 0) then mret r else k) m →
  (∀ m', tables_kept m' → tracks k l m') → tracks c (s :: l) m.
Proof using L Hnew Hap.
  intros Hs Hk Hc Hrest. apply (tracks_eq _ _ _ _ Hc). clear Hc c. unfold tracks. simpl.
  destruct (hook_slot s m) as [[r|e] m1] eqn:Hrun.
  2: { left. by rewrite !(CM_bind_Err _ _ _ _ _ Hrun). }
  rewrite !(CM_bind_Ret _ _ _ _ _ Hrun). destruct (Z.eqb_spec r 0) as [->|]; [|by left].
  cbn [negb].
  destruct (Hrest m1 (hook_slot_kept _ _ _ _ Hs Hk Hrun eq_refl)) as [->|(l1 & l2 & m' & -> & Hl1 & Hf & Hp)];
    [by left|]. right. exists (s :: l1), l2, m'. split_and!; [done| |done|done].
  simpl. by rewrite (CM_bind_Ret _ _ _ _ _ Hrun).
Qed.

Lemma replace_each_app l1 l2 m :
  replace_each (l1 ++ l2) m =
    (r ← replace_each l1; if negb (r =? 0) then mret r else replace_each l2) m.
Proof using Type.
  revert m. induction l1 as [|s l1 IH]; intros m; [done|]. simpl. rewrite CM_assoc.
  unfold mbind, CM_bind. destruct (hook_slot s m) as [[r|e] m1]; [|done].
  destruct (Z.eqb_spec r 0) as [->|Hr]; [apply IH|]. cbn [negb]. simpl.
  destruct (Z.eqb_spec r 0); done.
Qed.

(** One table, then the next. *)
Lemma tracks_app l1 l2 c1 c2 m :
  (∀ s, s ∈ l1 → s ∈ slots) → tables_kept m → tracks c1 l1 m →
  (∀ m', tables_kept m' → tracks c2 l2 m') →
  tracks (r ← c1; if negb (r =? 0) then mret r else c2) (l1 ++ l2) m.
Proof using L Hnew Hap.
  intros Hsub Hk H1 H2. unfold tracks. rewrite replace_each_app.
  destruct H1 as [H1|(a & b & m' & -> & Ha & Hf & Hp)].
  2: { right. exists a, (b ++ l2), m'. rewrite <- app_assoc. split_and!; [done|done| |done].
       by rewrite (CM_bind_Err _ _ _ _ _ Hf). }
  destruct (replace_each l1 m) as [[r|e] m1] eqn:Hrun.
  2: { left. by rewrite (CM_bind_Err _ _ _ _ _ Hrun), (CM_bind_Err _ _ _ _ _ H1). }
  rewrite (CM_bind_Ret _ _ _ _ _ Hrun), (CM_bind_Ret _ _ _ _ _ H1).
  destruct (Z.eqb_spec r 0) as [->|]; [|by left].
  cbn [negb]. destruct (H2 m1 (replace_each_kept _ _ _ Hsub Hk Hrun)) as [->|(a & b & m' & -> & Ha & Hf & Hp)];
    [by left|]. right. exists (l1 ++ a), b, m'. rewrite <- app_assoc, replace_each_app.
  by rewrite (CM_bind_Ret _ _ _ _ _ Hrun).
Qed.

(** *** One entry *)

Lemma find_and_replace_at is_plt a m :
  xh_elf_find_and_replace_func self is_plt new old symidx (RelocAt a) m =
    (rel ← plain_rel a;
     xh_elf_find_and_replace_func self is_plt new old symidx (RelocCopy rel.1 rel.2)) m.
Proof using Type.
  unfold plain_rel. rewrite CM_assoc. unfold xh_elf_find_and_replace_func, mbind, CM_bind.
  cbn [reloc_info reloc_offset]. destruct (r_info a m) as [[i|] m1]; [|done].
  by destruct (r_offset a m1) as [[o|] m2].
Qed.

Lemma find_and_replace_copy is_plt o i m :
  xh_elf_find_and_replace_func self is_plt new old symidx (RelocCopy o i) m =
    (if wanted is_plt symidx (o, i)
     then r ← hook_slot (bias_addr self ⊕ o); mret (r, true)
     else mret (0, false)) m.
Proof using Type.
  unfold xh_elf_find_and_replace_func, wanted, hook_slot. cbn [reloc_info reloc_offset fst snd].
  rewrite !CM_left_id. destruct (_ =? _); [|done]. destruct (hookable _ _); [|done]. cbn [negb andb].
  cbv zeta. by destruct (_ <? _).
Qed.

(** An entry is read as it was at the start, or not at all. *)
Lemma plain_rel_kept a rel m :
  a ∈ plt_entries self ∨ a ∈ dyn_entries self → tables_kept m → plain_rel a m0 = (Ret rel, m0) →
  plain_rel a m = (Ret rel, m) ∨ plain_rel a m = (Err Segv, m) ∧ ¬ same_prot m0 m.
Proof using Type.
  intros Ha Hk Hrel.
  assert (Hloc : local a (a + 16) (λ _, True) (plain_rel a)).
  { unfold plain_rel, r_info, r_offset.
    eapply local_bind; [apply local_load; lia|]. intros i _.
    eapply local_bind; [apply local_load; lia|]. intros o _. by apply local_ret. }
  apply (Hloc m0 m rel m0); [|done]. intros b Hb. apply Hk. left. by exists a.
Qed.

(** A loop over the tables at an entry that can be read. *)
Lemma tracks_entry {A} (c : CM memory A) (f : A → CM memory Z) x l m :
  c m = (Ret x, m) ∨ c m = (Err Segv, m) ∧ ¬ same_prot m0 m →
  tracks (f x) l m → tracks (x ← c; f x) l m.
Proof using Type.
  intros [Hc|[Hc Hp]] Hf.
  - eapply tracks_eq; [|exact Hf]. by rewrite (CM_bind_Ret _ _ _ _ _ Hc).
  - apply tracks_fault; [|done]. by rewrite (CM_bind_Err _ _ _ _ _ Hc).
Qed.

(** *** The three loops *)

Lemma mapM_plain_rel_cons a l rels m :
  mapM plain_rel (a :: l) m = (Ret rels, m) →
  ∃ rel rels', rels = rel :: rels' ∧ plain_rel a m = (Ret rel, m) ∧ mapM plain_rel l m = (Ret rels', m).
Proof using Type.
  simpl. intros (rel & m1 & Ha & H)%CM_bind_inv.
  pose proof (readonly_run _ _ _ _ Ha) as E. subst m1.
  apply CM_bind_inv in H as (rels' & m1 & Hl & H). injection H as <- E. subst m1.
  by exists rel, rels'.
Qed.

(** One call of an iterator and the entries it still has. *)
Lemma plain_pull_next fuel it l :
  plain_pull (S fuel) it = l → (length l ≤ fuel)%nat →
  match xh_elf_plain_reloc_iterator_next it with
  | (None, _) => l = []
  | (Some a, it') => ∃ l' fuel', fuel = S fuel' ∧ l = a :: l' ∧ plain_pull (S fuel') it' = l' ∧
      (length l' ≤ fuel')%nat
  end.
Proof using Type.
  intros <-. cbn [plain_pull]. destruct (xh_elf_plain_reloc_iterator_next it) as [[a|] it']; [|done].
  intros Hlen. destruct fuel as [|fuel]; [simpl in Hlen; lia|].
  exists (plain_pull (S fuel) it'), fuel. cbn [length] in Hlen. split_and!; [done..|]. lia.
Qed.

(** What a loop does with an entry: [k'] goes on after a slot was replaced. *)
Lemma tracks_copy is_plt o i k k' l m :
  let here := if wanted is_plt symidx (o, i) then [bias_addr self ⊕ o] else [] in
  (∀ s, s ∈ here → s ∈ slots) → tables_kept m →
  (∀ r, k (r, true) = if negb (r =? 0) then mret r else k') →
  (wanted is_plt symidx (o, i) = true → ∀ m', tables_kept m' → tracks k' l m') →
  (wanted is_plt symidx (o, i) = false → tracks (k (0, false)) l m) →
  tracks (xh_elf_find_and_replace_func self is_plt new old symidx (RelocCopy o i) ≫= k)
    (here ++ l) m.
Proof using L Hnew Hap.
  intros here Hsub Hk Hkt Hw Hnw. unfold here in *. clear here.
  apply (tracks_eq _ ((if wanted is_plt symidx (o, i)
    then r ← hook_slot (bias_addr self ⊕ o); mret (r, true) else mret (0, false)) ≫= k)).
  { unfold mbind at 1 2, CM_bind at 1 2. by rewrite find_and_replace_copy. }
  destruct (wanted is_plt symidx (o, i)).
  - apply (tracks_cons _ _ _ k'); [apply Hsub; by constructor|done| |by apply Hw].
    unfold mbind, CM_bind. destruct (hook_slot _ m) as [[r|] m1]; [|done].
    simpl. by rewrite Hkt.
  - eapply tracks_eq; [|by apply Hnw]. done.
Qed.

Lemma tracks_at is_plt a o i k k' l m :
  a ∈ plt_entries self ∨ a ∈ dyn_entries self → plain_rel a m0 = (Ret (o, i), m0) →
  let here := if wanted is_plt symidx (o, i) then [bias_addr self ⊕ o] else [] in
  (∀ s, s ∈ here → s ∈ slots) → tables_kept m →
  (∀ r, k (r, true) = if negb (r =? 0) then mret r else k') →
  (wanted is_plt symidx (o, i) = true → ∀ m', tables_kept m' → tracks k' l m') →
  (wanted is_plt symidx (o, i) = false → tracks (k (0, false)) l m) →
  tracks (xh_elf_find_and_replace_func self is_plt new old symidx (RelocAt a) ≫= k) (here ++ l) m.
Proof using L Hnew Hap.
  intros Ha Hrel here Hsub Hk Hkt Hw Hnw.
  apply (tracks_eq _ (rel ← plain_rel a;
    xh_elf_find_and_replace_func self is_plt new old symidx (RelocCopy rel.1 rel.2) ≫= k)).
  { rewrite <- CM_assoc. unfold mbind at 1 3, CM_bind at 1 3. by rewrite find_and_replace_at. }
  apply tracks_entry with (x := (o, i)); [by apply plain_rel_kept|]. by eapply tracks_copy.
Qed.

Lemma plt_loop_tracks fuel it l rels m :
  plain_pull (S fuel) it = l → (length l ≤ fuel)%nat → (∀ a, a ∈ l → a ∈ plt_entries self) →
  mapM plain_rel l m0 = (Ret rels, m0) →
  (∀ s, s ∈ take 1 (slots_of self true symidx rels) → s ∈ slots) → tables_kept m →
  tracks (hook_plt_loop fuel self new old symidx it) (take 1 (slots_of self true symidx rels)) m.
Proof using L Hnew Hap.
  revert it l rels. induction fuel as [|fuel IH]; intros it l rels Hpull Hlen Hin Hrels Hsub Hk;
    pose proof (plain_pull_next _ _ _ Hpull Hlen) as Hnext; cbn [hook_plt_loop];
    destruct (xh_elf_plain_reloc_iterator_next it) as [[a|] it'].
  1: { by destruct Hnext as (? & ? & ? & _). }
  1,3: rewrite Hnext in Hrels; injection Hrels as <-; by left.
  destruct Hnext as (l' & fuel' & [= <-] & -> & Hpull' & Hlen').
  apply mapM_plain_rel_cons in Hrels as ([o i] & rels' & -> & Hrel & Hrels).
  cbn [slots_of fst] in *.
  replace (take 1 _) with ((if wanted true symidx (o, i) then [bias_addr self ⊕ o] else []) ++
    if wanted true symidx (o, i) then [] else take 1 (slots_of self true symidx rels')) in *
    by by destruct (wanted _ _ _).
  apply (tracks_at _ _ _ _ _ (mret 0)); [left; apply Hin; by constructor|done| |done|..].
  - intros s Hs. apply Hsub, elem_of_app. by left.
  - done.
  - intros -> m' _. by left.
  - intros Hw. rewrite Hw in *. simpl. eapply (IH it' l'); [done|done| |done|done|done].
    intros x Hx. apply Hin. by constructor.
Qed.

Lemma dyn_loop_tracks fuel it l rels m :
  plain_pull (S fuel) it = l → (length l ≤ fuel)%nat → (∀ a, a ∈ l → a ∈ dyn_entries self) →
  mapM plain_rel l m0 = (Ret rels, m0) →
  (∀ s, s ∈ slots_of self false symidx rels → s ∈ slots) → tables_kept m →
  tracks (hook_dyn_loop fuel self new old symidx it) (slots_of self false symidx rels) m.
Proof using L Hnew Hap.
  revert it l rels m. induction fuel as [|fuel IH]; intros it l rels m Hpull Hlen Hin Hrels Hsub Hk;
    pose proof (plain_pull_next _ _ _ Hpull Hlen) as Hnext; cbn [hook_dyn_loop];
    destruct (xh_elf_plain_reloc_iterator_next it) as [[a|] it'].
  1: { by destruct Hnext as (? & ? & ? & _). }
  1,3: rewrite Hnext in Hrels; injection Hrels as <-; by left.
  destruct Hnext as (l' & fuel' & [= <-] & -> & Hpull' & Hlen').
  apply mapM_plain_rel_cons in Hrels as ([o i] & rels' & -> & Hrel & Hrels).
  cbn [slots_of fst] in *.
  assert (Hrest : ∀ m', tables_kept m' →
    tracks (hook_dyn_loop fuel self new old symidx it') (slots_of self false symidx rels') m').
  { intros m' Hk'. apply (IH it' l'); [done|done| |done| |done].
    - intros x Hx. apply Hin. by constructor.
    - intros s Hs. apply Hsub, elem_of_app. by right. }
  eapply tracks_at; [right; apply Hin; by constructor|done| |done|done|..].
  - intros s Hs. apply Hsub, elem_of_app. by left.
  - done.
  - intros _. by apply Hrest.
Qed.

Lemma android_loop_tracks fuel it rels c m :
  let lo := relandroid self in let hi := relandroid self + relandroid_sz self in
  0 ≤ lo → hi < 2 ^ 64 → lo ≠ 0 → iter_in lo hi it →
  packed_pull (S fuel) it m0 = (Ret (rels, c), m0) →
  (∀ s, s ∈ slots_of self false symidx rels → s ∈ slots) → tables_kept m →
  tracks (hook_android_loop fuel self new old symidx it) (slots_of self false symidx rels) m.
Proof using L Hnew Hap.
  intros lo hi Hlo Hhi Hz. revert it rels c m.
  assert (Hnext : ∀ it r m, iter_in lo hi it → tables_kept m →
    xh_elf_packed_reloc_iterator_next it m0 = (Ret r, m0) →
    step_in lo hi r ∧
    (xh_elf_packed_reloc_iterator_next it m = (Ret r, m) ∨
     xh_elf_packed_reloc_iterator_next it m = (Err Segv, m) ∧ ¬ same_prot m0 m)).
  { intros it r m Hit Hk Hr.
    destruct (local_packed_next lo hi Hhi Hlo it Hit m0 m r m0) as (Hs & _ & H); [|done|done].
    intros b Hb. apply Hk. right. done. }
  induction fuel as [|fuel IH]; intros it rels c m Hit Hpull Hsub Hk;
    cbn [hook_android_loop]; cbn [packed_pull] in Hpull;
    apply CM_bind_inv in Hpull as (r & m1 & Hr & Hpull);
    assert (m1 = m0) as -> by (destruct (local_packed_next lo hi Hhi Hlo it Hit m0 m0 r m1) as (_ & -> & _); done);
    destruct (Hnext it r m Hit Hk Hr) as [Hs Hn];
    (apply tracks_entry with (x := r); [done|]); destruct r as [[o i] it'|r it'].
  1: { discriminate Hpull. }
  1,3: injection Hpull as <- <-; by left.
  apply CM_bind_inv in Hpull as ([rels' c'] & m1 & Hpull & Hret). injection Hret as <- <- E. subst m1.
  cbn [slots_of fst] in *.
  assert (Hrest : ∀ m', tables_kept m' →
    tracks (hook_android_loop fuel self new old symidx it') (slots_of self false symidx rels') m').
  { intros m' Hk'. eapply IH; [exact Hs|exact Hpull| |done].
    intros s Hs'. apply Hsub, elem_of_app. by right. }
  eapply tracks_copy; [|done|done|..].
  - intros s Hs'. apply Hsub, elem_of_app. by left.
  - done.
  - intros _. by apply Hrest.
Qed.

(** *** All three tables *)

Lemma plain_entries_length rel rel_sz r :
  0 ≤ rel → 0 ≤ rel_sz → rel + rel_sz + 24 < 2 ^ 64 →
  (length (plain_entries rel rel_sz r) ≤ Z.to_nat rel_sz)%nat.
Proof using Type.
  clear Hnew. intros H0 Hsz Hlt. unfold plain_entries. destruct (rel =? 0); [simpl; lia|].
  unfold xh_elf_plain_reloc_iterator_init. rewrite wrap_small by lia.
  rewrite plain_pull_spec by lia. rewrite length_fmap, length_seq, Z.max_r by lia.
  rewrite Z.add_simpl_l. unfold entry_count.
  destruct (entry_size_pos r) as [-> | ->]; Z.to_euclidean_division_equations; lia.
Qed.

Lemma hook_tables_tracks :
  tables_fit self → hook_slots self symidx m0 = (Ret slots, m0) →
  tracks (hook_tables self new old symidx) slots m0.
Proof using L Hnew Hap.
  intros ((Hp0 & Hp1 & Hp2) & (Hd0 & Hd1 & Hd2) & Ha0 & Ha1 & Ha2) Hslots.
  unfold hook_slots in Hslots.
  apply CM_bind_inv in Hslots as (plt & m1 & Hplt & Hslots).
  assert (Hro : ∀ l, ReadOnly (mapM plain_rel l)).
  { intros l. induction l; simpl; solve_readonly. }
  pose proof (readonly_run _ _ _ _ Hplt) as E. subst m1.
  apply CM_bind_inv in Hslots as (dyn & m1 & Hdyn & Hslots).
  pose proof (readonly_run _ _ _ _ Hdyn) as E. subst m1.
  apply CM_bind_inv in Hslots as (android & m1 & Handroid & Hslots).
  injection Hslots as Hslots E. subst m1.
  assert (Hsub : ∀ s, s ∈ take 1 (slots_of self true symidx plt) ∨
    s ∈ slots_of self false symidx dyn ∨ s ∈ slots_of self false symidx android → s ∈ slots).
  { intros s Hs. by rewrite <- Hslots, !elem_of_app. }
  rewrite <- Hslots.
  assert (Hk0 : tables_kept m0) by done.
  apply tracks_app; [by eauto|done| |intros m' Hk; apply tracks_app; [by eauto|done| |]].
  - unfold hook_relplt. unfold plt_entries, plain_entries in *.
    pose proof (plain_entries_length _ _ (is_use_rela self) Hp0 Hp1 Hp2) as Hlen.
    unfold plain_entries in Hlen.
    destruct (Z.eqb_spec (relplt self) 0); [injection Hplt as <-; by left|].
    eapply plt_loop_tracks; [done|done| |done|by eauto|done].
    unfold plt_entries, plain_entries. by destruct (Z.eqb_spec (relplt self) 0).
  - unfold hook_reldyn. unfold dyn_entries, plain_entries in *.
    pose proof (plain_entries_length _ _ (is_use_rela self) Hd0 Hd1 Hd2) as Hlen.
    unfold plain_entries in Hlen.
    destruct (Z.eqb_spec (reldyn self) 0); [injection Hdyn as <-; by left|].
    eapply dyn_loop_tracks; [done|done| |done|by eauto|done].
    unfold dyn_entries, plain_entries. by destruct (Z.eqb_spec (reldyn self) 0).
  - intros m2 Hk2. unfold hook_relandroid. unfold android_rels in Handroid.
    destruct (Z.eqb_spec (relandroid self) 0); [injection Handroid as <-; by left|].
    apply CM_bind_inv in Handroid as (init & m1 & Hinit & Hpull).
    destruct (local_packed_init _ _ (is_use_rela self) Ha0 Ha1 Ha2 m0 m2 init m1)
      as (Hin & -> & Hrun); [|done|].
    { intros b Hb. apply Hk2. by right. }
    apply tracks_entry with (x := init); [done|]. cbv zeta in *.
    apply CM_bind_inv in Hpull as ([rels c] & m1 & Hpull & Hret). injection Hret as <- E. subst m1.
    eapply android_loop_tracks; [done|lia|done|exact Hin|exact Hpull|by eauto|done].
Qed.

End loops.
End hook.

(** ** xh_elf_hook *)

Section theorems.
Context {K : Kernel} {L : KernelLaws K}.

(** C1: when xh_elf_hook returns 0 for a symbol the file has, every slot of the
    symbol - the first in the PLT's table, all of those in the other two
    tables - holds the new function, no byte outside those slots and the
    caller's variable has changed, and the caller's variable holds what one of
    the slots held before, unless all of them held the new function already.
    The slots are those the tables name at the start. *)
Theorem xh_elf_hook_redirects fuel self path symbol new old symidx slots m m' :
  0 < new < 2 ^ 64 → pathname self = Some path →
  xh_elf_find_symidx_by_name fuel self symbol m = (Ret (0, symidx), m) →
  tables_fit self → hook_slots self symidx m = (Ret slots, m) → slots_apart self old slots →
  xh_elf_hook fuel self (Some symbol) new old m = (Ret 0, m') →
  hooked new old m slots m'.
Proof using L.
  intros Hnew Hpath Hfind Hfit Hslots Hap. unfold xh_elf_hook. rewrite Hpath.
  destruct (Z.eqb_spec new 0); [lia|]. rewrite (CM_bind_Ret _ _ _ _ _ Hfind). cbn [negb Z.eqb].
  intros Hrun. assert (Hn : 0 ≤ new < 2 ^ 64) by lia.
  destruct (hook_tables_tracks self new old symidx Hn m slots Hap Hfit Hslots)
    as [H|(l1 & l2 & m1 & _ & _ & H & _)]; rewrite Hrun in H; [|discriminate H].
  apply (hooked_each self new old Hn m slots [] slots m m' Hap); [done|apply hooked_nil|done].
Qed.

(** a symbol the file does not have is not an error: xh_elf_hook returns 0
    and changes nothing; a missing argument is refused before anything is
    read. *)
Theorem xh_elf_hook_absent fuel self symbol new old m :
  (∀ r, pathname self ≠ None → new ≠ 0 → r ≠ 0 →
     xh_elf_find_symidx_by_name fuel self symbol m = (Ret (r, 0), m) →
     xh_elf_hook fuel self (Some symbol) new old m = (Ret 0, m)) ∧
  (pathname self = None → xh_elf_hook fuel self (Some symbol) new old m = (Ret XH_ERRNO_ELFINIT, m)) ∧
  (pathname self ≠ None → xh_elf_hook fuel self None new old m = (Ret XH_ERRNO_INVAL, m) ∧
     xh_elf_hook fuel self (Some symbol) 0 old m = (Ret XH_ERRNO_INVAL, m)).
Proof using Type.
  unfold xh_elf_hook. destruct (pathname self) as [p|]; (split; [|split]); try done.
  intros r _ Hn Hr Hfind. destruct (Z.eqb_spec new 0); [done|].
  rewrite (CM_bind_Ret _ _ _ _ _ Hfind). by destruct (Z.eqb_spec r 0).
Qed.

End theorems.

(** ** Success

    Under a kernel that grants mprotect and whose map of the file is accurate,
    hooking succeeds and leaves every permission as it was. *)

Section success.
Context (text : list Z).
#[local] Instance accurate_kernel : Kernel := granting_kernel (Some text).
Context (self : xh_elf_t) (new old : Z) (Hnew : 0 ≤ new < 2 ^ 64).

(** The slot's pages, one or two, have one permission, the one the map gives,
    and can be read. *)
Definition slot_mapped (m : memory) (s : Z) : Prop :=
  base_addr self ≤ s ∧ 0 ≤ s ∧ s + 8 + PAGE_SIZE ≤ 2 ^ 64 ∧
  ∃ p, xh_util_get_addr_protect s (pathname self) m = (Ret (0, p), m) ∧ truthy (p & PROT_READ) = true ∧
    ∀ b, first_page s ≤ b < pages_end s → prot_at m b = p.

Lemma set_addr_protect_granted s p m :
  xh_util_set_addr_protect s p m = (Ret 0, set_prot (PAGE_START s) (PAGE_COVER s) p m).
Proof using Type. done. Qed.

Lemma prot_at_slot s p m b :
  0 ≤ s → s + 8 + PAGE_SIZE ≤ 2 ^ 64 →
  prot_at (set_prot (PAGE_START s) (PAGE_COVER s) p m) b =
    if decide (first_page s ≤ b < pages_end s) then p else prot_at m b.
Proof using Type.
  clear Hnew. intros H0 H1. destruct (page_cover_eq s H0 H1) as [-> ->].
  destruct (pages_aligned s) as [Ha Hl]. rewrite prot_at_set_prot by done.
  by replace (first_page s + (pages_end s - first_page s)) with (pages_end s) by lia.
Qed.

Lemma slot_allows p q s m :
  (∀ b, first_page s ≤ b < pages_end s → prot_at m b = p) → truthy (p & q) = true →
  allows q 8 s m = true.
Proof using Type.
  intros Hp Hq. apply allows_all. intros b Hb. unfold byte_allows.
  rewrite Hp by (by apply pages_cover). done.
Qed.

(** The part under write permission. *)
Lemma replace_slot_granted s p m :
  0 ≤ s → s + 8 + PAGE_SIZE ≤ 2 ^ 64 →
  (∀ b, first_page s ≤ b < pages_end s → prot_at m b = need_prot) →
  old = 0 ∨ allows PROT_WRITE 8 old m = true →
  ∃ m', replace_slot s new old p m = (Ret 0, m') ∧
    ∀ b, prot_at m' b = if decide (first_page s ≤ b < pages_end s) then p else prot_at m b.
Proof using Type.
  intros H0 H1 Hrw Hold. unfold replace_slot.
  erewrite CM_bind_Ret; [|by apply load_ok, (slot_allows need_prot)].
  assert (Hsave : ∃ d, when (negb (old =? 0)) (store 8 old (number_of m 8 s)) m =
    (Ret tt, Memory d (m_prot m) (m_flushed m))).
  { unfold when. destruct (Z.eqb_spec old 0); [by exists (m_data m); destruct m|].
    destruct Hold as [|Hold]; [done|]. eexists. cbn [negb]. unfold store. by rewrite Hold. }
  destruct Hsave as (d & Hsave). rewrite (CM_bind_Ret _ _ _ _ _ Hsave). clear Hsave.
  set (m1 := Memory d _ _).
  assert (Hrw1 : ∀ b, first_page s ≤ b < pages_end s → prot_at m1 b = need_prot) by exact Hrw.
  assert (Hst : store 8 s new m1 = (Ret tt, write_number 8 s new m1)).
  { unfold store. by rewrite (slot_allows need_prot). }
  rewrite (CM_bind_Ret _ _ _ _ _ Hst). set (m2 := write_number 8 s new m1).
  assert (Hp2 : ∀ b, prot_at m2 b = prot_at m b) by done.
  unfold when. destruct (Z.eqb_spec p need_prot) as [->|Hp]; cbn [negb].
  - eexists. split; [reflexivity|]. intros b. destruct (decide _); [by apply Hrw|done].
  - eexists. split; [reflexivity|]. intros b.
    change (prot_at (set_prot (PAGE_START s) (PAGE_COVER s) p m2) b =
      if decide (first_page s ≤ b < pages_end s) then p else prot_at m b).
    by rewrite prot_at_slot.
Qed.

(** One slot: the permissions are the old ones again. *)
Lemma hook_slot_granted s m :
  slot_mapped m s → old = 0 ∨ allows PROT_WRITE 8 old m = true →
  ∃ m', hook_slot self new old s m = (Ret 0, m') ∧ same_prot m m'.
Proof using Type.
  intros (Hb & H0 & H1 & p & Hget & Hr & Hp) Hold. unfold hook_slot, xh_elf_replace_function.
  destruct (Z.ltb_spec s (base_addr self)); [lia|].
  erewrite CM_bind_Ret; [|by apply load_ok, (slot_allows p)].
  destruct (Z.eqb_spec (number_of m 8 s) new); [by exists m|].
  rewrite (CM_bind_Ret _ _ _ _ _ Hget). cbn [negb Z.eqb].
  destruct (Z.eqb_spec p need_prot) as [->|Hn]; cbn [negb].
  - rewrite CM_left_id. cbn [negb Z.eqb].
    destruct (replace_slot_granted s need_prot m H0 H1 Hp Hold) as (m' & Hrun & Hp').
    exists m'. split; [done|]. intros b. rewrite Hp'. destruct (decide _) as [Hd|]; [|done]. by rewrite Hp.
  - rewrite (CM_bind_Ret _ _ _ _ _ (set_addr_protect_granted s need_prot m)). cbn [negb Z.eqb].
    set (m1 := set_prot _ _ _ m).
    assert (Hp1 : ∀ b, prot_at m1 b = if decide (first_page s ≤ b < pages_end s) then need_prot else prot_at m b)
      by (intros b; by apply prot_at_slot).
    destruct (replace_slot_granted s p m1 H0 H1) as (m' & Hrun & Hp').
    + intros b Hd. by rewrite Hp1, decide_True.
    + destruct Hold as [|Hold]; [by left|right]. apply allows_all. intros b Hbo. unfold byte_allows.
      rewrite Hp1. destruct (decide _); [done|]. by apply (allows_elim PROT_WRITE 8 old).
    + exists m'. split; [done|]. intros b. rewrite Hp', Hp1. destruct (decide _) as [Hd|]; [|done].
      by rewrite Hp.
Qed.

Lemma slot_mapped_kept m m' s : same_prot m m' → slot_mapped m s → slot_mapped m' s.
Proof using Type.
  intros Hsame (Hb & H0 & H1 & p & Hget & Hr & Hp). split_and!; [done..|]. exists p.
  split_and!; [|done|].
  - revert Hget. unfold xh_util_get_addr_protect, xh_util_get_mem_protect, mbind, CM_bind, gets, lift_outcome.
    simpl. destruct (mem_protect_loop _ _ _ _ _ _ _) as [[q f]|]; [|done]. by intros [= -> ->].
  - intros b Hd. by rewrite Hsame, Hp.
Qed.

Lemma replace_each_granted l m :
  (∀ s, s ∈ l → slot_mapped m s) → old = 0 ∨ allows PROT_WRITE 8 old m = true →
  ∃ m', replace_each self new old l m = (Ret 0, m') ∧ same_prot m m'.
Proof using Type.
  revert m. induction l as [|s l IH]; intros m Hl Hold; [by exists m|].
  destruct (hook_slot_granted s m) as (m1 & Hs & Hp1); [apply Hl; by constructor|done|].
  destruct (IH m1) as (m' & Hrun & Hp').
  - intros t Ht. apply (slot_mapped_kept m); [done|]. apply Hl. by constructor.
  - by rewrite (allows_same_prot _ _ _ _ _ Hp1).
  - exists m'. split; [|by etrans]. simpl. by rewrite (CM_bind_Ret _ _ _ _ _ Hs).
Qed.

(** C6: with mprotect granted and an accurate map of the file, xh_elf_hook
    returns 0 for every symbol the file has, every slot of the symbol holds the
    new function, nothing else has changed but the caller's variable, and every
    page has the permission it had before. *)
Theorem xh_elf_hook_succeeds fuel path symbol symidx slots m :
  new ≠ 0 → pathname self = Some path →
  xh_elf_find_symidx_by_name fuel self symbol m = (Ret (0, symidx), m) →
  tables_fit self → hook_slots self symidx m = (Ret slots, m) → slots_apart self old slots →
  (∀ s, s ∈ slots → slot_mapped m s) → old = 0 ∨ allows PROT_WRITE 8 old m = true →
  ∃ m', xh_elf_hook fuel self (Some symbol) new old m = (Ret 0, m') ∧
    hooked new old m slots m' ∧ same_prot m m'.
Proof using Hnew.
  intros Hz Hpath Hfind Hfit Hslots Hap Hmapped Hold. unfold xh_elf_hook. rewrite Hpath.
  destruct (Z.eqb_spec new 0); [done|]. rewrite (CM_bind_Ret _ _ _ _ _ Hfind). cbn [negb Z.eqb].
  destruct (replace_each_granted slots m Hmapped Hold) as (m' & Hrun & Hp).
  exists m'. split; [|split; [|done]].
  - destruct (hook_tables_tracks self new old symidx Hnew m slots Hap Hfit Hslots)
      as [H|(l1 & l2 & m1 & -> & Hl1 & H & Hn)]; [by rewrite H|].
    exfalso. apply Hn. destruct (replace_each_granted l1 m) as (m2 & Hrun2 & Hp2).
    + intros s Hs. apply Hmapped, elem_of_app. by left.
    + done.
    + rewrite Hl1 in Hrun2. by injection Hrun2 as <-.
  - by apply (hooked_each self new old Hnew m slots [] slots m m' Hap); [|apply hooked_nil|].
Qed.

End success.

(** *** Witnesses: both slots of read in the sample image *)

Definition read_slots : list Z := [SB + 0x1210; SB + 0x1218].

Lemma sample_tables_fit : tables_fit (sample_elf true).
Proof. vm_compute. by split_and!. Qed.

Lemma sample_read_slots :
  hook_slots (sample_elf true) 2 (sample_image true) = (Ret read_slots, sample_image true).
Proof. vm_compute. reflexivity. Qed.

Lemma sample_find_read :
  xh_elf_find_symidx_by_name 4 (sample_elf true) sym_read (sample_image true) =
    (Ret (0, 2), sample_image true).
Proof. vm_compute. reflexivity. Qed.

Lemma sample_apart : slots_apart (sample_elf true) 0 read_slots.
Proof.
  assert (Hs : ∀ s, s ∈ read_slots → s = SB + 0x1210 ∨ s = SB + 0x1218).
  { intros s. unfold read_slots. rewrite !elem_of_cons, elem_of_nil. tauto. }
  split; [|split; [by left|]].
  - intros s t [-> | ->]%Hs [-> | ->]%Hs; unfold disjoint8, SB; lia.
  - intros b Hb. split; [|by left]. assert (Hlt : b < SB + 0x1000).
    { destruct Hb as [(a & Ha & Hb)|[_ Hb]].
      - assert (Ha' : a = SB + 0x200 ∨ a ∈ [SB + 0x240; SB + 0x258]).
        { destruct Ha as [Ha|Ha]; [left|right; exact Ha]. revert Ha.
          change (plt_entries (sample_elf true)) with [SB + 0x200]. by rewrite list_elem_of_singleton. }
        rewrite !elem_of_cons, elem_of_nil in Ha'. unfold SB in *. lia.
      - cbn [relandroid relandroid_sz sample_elf] in Hb. unfold SB in *. lia. }
    intros s [-> | ->]%Hs; unfold outside, SB in *; lia.
Qed.

Lemma xh_elf_hook_redirects_witness :
  let run := xh_elf_hook 4 (sample_elf true) (Some sym_read) 0x5555 0 (sample_image true) in
  run.1 = Ret 0 ∧ hooked 0x5555 0 (sample_image true) read_slots run.2.
Proof.
  set (run := xh_elf_hook _ _ _ _ _ _). cbv zeta.
  assert (Hret : run.1 = Ret 0) by (vm_compute; reflexivity).
  split; [exact Hret|].
  apply (xh_elf_hook_redirects (K:=sample_kernel) 4 (sample_elf true) sample_path sym_read 0x5555 0 2 read_slots
    (sample_image true) run.2 ltac:(lia) eq_refl sample_find_read sample_tables_fit
    sample_read_slots sample_apart (run_fst _ _ Hret)).
Defined.

Lemma xh_elf_hook_succeeds_witness :
  ∃ m', xh_elf_hook 4 (sample_elf true) (Some sym_read) 0x5555 0 (sample_image true) = (Ret 0, m') ∧
    hooked 0x5555 0 (sample_image true) read_slots m' ∧ same_prot (sample_image true) m'.
Proof.
  apply (xh_elf_hook_succeeds sample_maps (sample_elf true) 0x5555 0 ltac:(lia) 4 sample_path
    sym_read 2 read_slots (sample_image true) ltac:(lia) eq_refl sample_find_read
    sample_tables_fit sample_read_slots sample_apart); [|by left].
  intros s Hs. assert (Hpage : first_page s = 0x11000 ∧ pages_end s = 0x12000 ∧
    SB ≤ s < SB + 0x2000 ∧
    xh_util_get_addr_protect s (Some sample_path) (sample_image true) = (Ret (0, 1), sample_image true)).
  { unfold read_slots in Hs. rewrite !elem_of_cons, elem_of_nil in Hs.
    destruct Hs as [-> |[-> |[]]]; 
      (split; [vm_compute; reflexivity|]); (split; [vm_compute; reflexivity|]);
      (split; [unfold SB; lia|]); vm_compute; reflexivity. }
  destruct Hpage as (Hf & He & Hr & Hget).
  unfold slot_mapped. rewrite Hf, He. change (base_addr (sample_elf true)) with SB.
  unfold SB, PAGE_SIZE in *. split; [lia|]. split; [lia|]. split; [lia|].
  exists 1. split; [exact Hget|]. split; [vm_compute; reflexivity|]. intros b Hb. unfold prot_at, PAGE_SIZE.
  replace (b / 4096) with 0x11 by (Z.to_euclidean_division_equations; lia). reflexivity.
Defined.

Lemma xh_elf_hook_absent_witness :
  xh_elf_hook 4 (sample_elf true) (Some sym_close) 0x5555 0 (sample_image true) =
    (Ret 0, sample_image true).
Proof.
  destruct (xh_elf_hook_absent (K:=sample_kernel) 4 (sample_elf true) sym_close 0x5555 0
    (sample_image true)) as (H & _ & _).
  apply (H XH_ERRNO_NOTFND); [discriminate|lia|discriminate|vm_compute; reflexivity].
Defined.
