(* ===== verification/XhCore.v ===== *)
(** * xh_core.c: the hook registry

    Registration, the refresh over /proc/self/maps, the protection against
    SIGSEGV and the life cycle of the library, as operations on one state
    record.  regcomp, regexec, the allocator and the system calls are
    parameters. *)

From S2P Require Import Prelude CMem XhUtil XhElfReloc XhElfTypes XhElfHash XhElfInit XhElfHook.

#[local] Open Scope cint_scope.

(** POSIX regular expressions (regex.h), with REG_NOSUB and no flags. *)
Class Regex : Type := {
  regex_t : Set;
  regcomp : list Z → option regex_t;
  regexec : regex_t → list Z → bool
}.

(** ** State *)

Section types.
Context {R : Regex}.

Record xh_core_hook_info_t : Set := HookInfo {
  hi_pathname_regex : regex_t;
  hi_symbol : list Z;
  hi_new_func : Z;
  hi_old_func : Z
}.
(** [ii_symbol] is [None] for all symbols. *)
Record xh_core_ignore_info_t : Set := IgnoreInfo {
  ii_pathname_regex : regex_t;
  ii_symbol : option (list Z)
}.

(** The value stored under a pathname, the tree's key. *)
Record xh_core_map_info_t : Set := MapInfo { mi_base_addr : Z; mi_elf : xh_elf_t }.

(** What SIGSEGV does: the library's handler, or another disposition. *)
Inductive sighandler : Set := XhHandler | OtherHandler (n : Z).
Definition SIG_DFL : sighandler := OtherHandler 0.

Record sig_state : Set := SigState {
  xh_core_sigsegv_enable : Z;
  xh_core_sigsegv_flag : Z;
  sig_current : sighandler;
  xh_core_sigsegv_act_old : sighandler
}.

Record core_flags : Set := CoreFlags {
  xh_core_inited : Z;
  xh_core_init_ok : Z;
  xh_core_async_inited : Z;
  xh_core_async_init_ok : Z;
  xh_core_refresh_thread_running : Z;
  xh_core_refresh_thread_do : Z
}.

(** The static variables, the process's memory and signal disposition, and
    what the next allocations and system calls will do.  The tail queues are
    lists and the red-black tree of map infos is a finite map by pathname, which
    the models of queue.h and tree.h implement (TailqProps, RbTreeMap);
    [c_elf] is the xh_elf_t of the map info being hooked. *)
Record core_state : Set := CoreState {
  c_mem : memory;
  c_elf : xh_elf_t;
  xh_core_hook_info : list xh_core_hook_info_t;
  xh_core_ignore_info : list xh_core_ignore_info_t;
  xh_core_map_info : gmap (list Z) xh_core_map_info_t;
  c_sig : sig_state;
  c_flags : core_flags;
  c_allocs : list bool;
  c_syscalls : list (Z * Z)
}.

(** The state after the library is loaded. *)
Definition core_start (m : memory) (current : sighandler) : core_state :=
  CoreState m xh_elf_zero [] [] ∅ (SigState 1 0 current SIG_DFL) (CoreFlags 0 0 0 0 0 0) [] [].

Definition with_mem_elf (m : memory) (e : xh_elf_t) (s : core_state) : core_state :=
  CoreState m e (xh_core_hook_info s) (xh_core_ignore_info s) (xh_core_map_info s) (c_sig s)
    (c_flags s) (c_allocs s) (c_syscalls s).
Definition with_hooks (h : list xh_core_hook_info_t) (s : core_state) : core_state :=
  CoreState (c_mem s) (c_elf s) h (xh_core_ignore_info s) (xh_core_map_info s) (c_sig s)
    (c_flags s) (c_allocs s) (c_syscalls s).
Definition with_ignores (i : list xh_core_ignore_info_t) (s : core_state) : core_state :=
  CoreState (c_mem s) (c_elf s) (xh_core_hook_info s) i (xh_core_map_info s) (c_sig s)
    (c_flags s) (c_allocs s) (c_syscalls s).
Definition with_maps (t : gmap (list Z) xh_core_map_info_t) (s : core_state) : core_state :=
  CoreState (c_mem s) (c_elf s) (xh_core_hook_info s) (xh_core_ignore_info s) t (c_sig s)
    (c_flags s) (c_allocs s) (c_syscalls s).
Definition with_sig (f : sig_state → sig_state) (s : core_state) : core_state :=
  CoreState (c_mem s) (c_elf s) (xh_core_hook_info s) (xh_core_ignore_info s) (xh_core_map_info s)
    (f (c_sig s)) (c_flags s) (c_allocs s) (c_syscalls s).
Definition with_flags (f : core_flags → core_flags) (s : core_state) : core_state :=
  CoreState (c_mem s) (c_elf s) (xh_core_hook_info s) (xh_core_ignore_info s) (xh_core_map_info s)
    (c_sig s) (f (c_flags s)) (c_allocs s) (c_syscalls s).
Definition with_env (a : list bool) (c : list (Z * Z)) (s : core_state) : core_state :=
  CoreState (c_mem s) (c_elf s) (xh_core_hook_info s) (xh_core_ignore_info s) (xh_core_map_info s)
    (c_sig s) (c_flags s) a c.

Definition set_sig_flag (v : Z) (g : sig_state) : sig_state :=
  SigState (xh_core_sigsegv_enable g) v (sig_current g) (xh_core_sigsegv_act_old g).
Definition set_enable (v : Z) (g : sig_state) : sig_state :=
  SigState v (xh_core_sigsegv_flag g) (sig_current g) (xh_core_sigsegv_act_old g).
Definition set_handlers (cur old : sighandler) (g : sig_state) : sig_state :=
  SigState (xh_core_sigsegv_enable g) (xh_core_sigsegv_flag g) cur old.

Definition set_inited (v ok : Z) (f : core_flags) : core_flags :=
  CoreFlags v ok (xh_core_async_inited f) (xh_core_async_init_ok f)
    (xh_core_refresh_thread_running f) (xh_core_refresh_thread_do f).
Definition set_async_inited (v ok : Z) (f : core_flags) : core_flags :=
  CoreFlags (xh_core_inited f) (xh_core_init_ok f) v ok
    (xh_core_refresh_thread_running f) (xh_core_refresh_thread_do f).
Definition set_running (v : Z) (f : core_flags) : core_flags :=
  CoreFlags (xh_core_inited f) (xh_core_init_ok f) (xh_core_async_inited f)
    (xh_core_async_init_ok f) v (xh_core_refresh_thread_do f).
Definition set_do (v : Z) (f : core_flags) : core_flags :=
  CoreFlags (xh_core_inited f) (xh_core_init_ok f) (xh_core_async_inited f)
    (xh_core_async_init_ok f) (xh_core_refresh_thread_running f) v.
End types.

Abbreviation M := (CM core_state).

Section core.
Context {R : Regex} {K : Kernel}.

Definition update_flags (f : core_flags → core_flags) : M unit := modify (with_flags f).
Definition flag (f : core_flags → Z) : M bool := gets (λ s, truthy (f (c_flags s))).

(** [malloc] and [strdup]: whether they succeed. *)
Definition malloc : M bool := λ s,
  match c_allocs s with
  | [] => (Ret true, s)
  | b :: l => (Ret b, with_env l (c_syscalls s) s)
  end.
(** A system or thread call: its result, and errno. *)
Definition syscall : M (Z * Z) := λ s,
  match c_syscalls s with
  | [] => (Ret (0, 0), s)
  | r :: l => (Ret r, with_env (c_allocs s) l s)
  end.

(** ** Registration *)

Definition xh_core_register (pathname_regex_str symbol : option (list Z)) (new_func old_func : Z)
  : M Z :=
  match pathname_regex_str, symbol with
  | Some pathname_regex_str, Some symbol =>
      if new_func =? 0 then mret XH_ERRNO_INVAL
      else
        inited ← flag xh_core_inited;
        if inited : bool then mret XH_ERRNO_INVAL
        else
          match regcomp pathname_regex_str with
          | None => mret XH_ERRNO_INVAL
          | Some regex =>
              hi ← malloc;
              if negb hi then mret XH_ERRNO_NOMEM
              else
                dup ← malloc;
                if negb dup then mret XH_ERRNO_NOMEM
                else
                  modify (λ s, with_hooks
                    (xh_core_hook_info s ++ [HookInfo regex symbol new_func old_func]) s);;
                  mret 0
          end
  | _, _ => mret XH_ERRNO_INVAL
  end.

Definition xh_core_ignore (pathname_regex_str symbol : option (list Z)) : M Z :=
  match pathname_regex_str with
  | None => mret XH_ERRNO_INVAL
  | Some pathname_regex_str =>
      inited ← flag xh_core_inited;
      if inited : bool then mret XH_ERRNO_INVAL
      else
        match regcomp pathname_regex_str with
        | None => mret XH_ERRNO_INVAL
        | Some regex =>
            ii ← malloc;
            if negb ii then mret XH_ERRNO_NOMEM
            else
              dup ← (if bool_decide (is_Some symbol) then malloc else mret true);
              if negb dup then mret XH_ERRNO_NOMEM
              else
                modify (λ s, with_ignores (xh_core_ignore_info s ++ [IgnoreInfo regex symbol]) s);;
                mret 0
        end
  end.

(** ** Signals *)

(** [0 == errno ? XH_ERRNO_UNKNOWN : errno] *)
Definition errno_or_unknown (errno : Z) : Z := if errno =? 0 then XH_ERRNO_UNKNOWN else errno.

(** [act.sa_flags] is not initialised; it is taken to be 0 here, a plain handler. *)
Definition xh_core_add_sigsegv_handler : M Z :=
  enable ← gets (xh_core_sigsegv_enable ∘ c_sig);
  if negb (truthy enable) then mret 0
  else
    '(r, errno) ← syscall;  (* sigemptyset *)
    if negb (r =? 0) then mret (errno_or_unknown errno)
    else
      '(r, errno) ← syscall;  (* sigaction *)
      if negb (r =? 0) then mret (errno_or_unknown errno)
      else modify (with_sig (λ g, set_handlers XhHandler (sig_current g) g));; mret 0.

Definition xh_core_del_sigsegv_handler : M unit :=
  enable ← gets (xh_core_sigsegv_enable ∘ c_sig);
  if negb (truthy enable) then mret tt
  else modify (with_sig (λ g, set_handlers (xh_core_sigsegv_act_old g) (xh_core_sigsegv_act_old g) g)).

(** [sigsetjmp] and a computation under it: with the library's handler
    installed and the flag set, a SIGSEGV comes back here as [None], with the
    memory as it was at the fault. *)
Definition catch_segv {A} (c : M A) : M (option A) := λ s,
  match c s with
  | (Ret a, s') => (Ret (Some a), s')
  | (Err Segv, s') =>
      match sig_current (c_sig s') with
      | XhHandler => if truthy (xh_core_sigsegv_flag (c_sig s')) then (Ret None, s') else (Err Segv, s')
      | _ => (Err Segv, s')
      end
  | (Err e, s') => (Err e, s')
  end.

(** [c] under the protection that is enabled by default, [d] where it was
    left by a SIGSEGV. *)
Definition protected {A} (c : M A) (d : A) : M A :=
  enable ← gets (xh_core_sigsegv_enable ∘ c_sig);
  if negb (truthy enable) then c
  else
    modify (with_sig (set_sig_flag 1));;
    r ← catch_segv c;
    modify (with_sig (set_sig_flag 0));;
    mret (default d r).

(** A computation on memory, and one on memory and the xh_elf_t at hand. *)
Definition on_mem {A} (c : CM memory A) : M A := λ s,
  let '(r, m) := c (c_mem s) in (r, with_mem_elf m (c_elf s) s).
Definition on_elf {A} (c : CM elf_state A) : M A := λ s,
  let '(r, e) := c (ElfState (c_mem s) (c_elf s)) in (r, with_mem_elf (es_mem e) (es_self e) s).

Definition xh_core_check_elf_header (base_addr : Z) : M Z :=
  protected (on_mem (xh_elf_check_elfheader base_addr)) XH_ERRNO_SEGVERR.

(** ** Hooking one file *)

(** What the ignore infos say of a hook. *)
Inductive verdict : Set := Hook | IgnoreSymbol | IgnoreAll.

(** The search of the ignore infos, in xh_core_hook_impl and in
    xh_core_refresh_impl. *)
Fixpoint ignore_search (ignores : list xh_core_ignore_info_t) (pathname symbol : list Z) : verdict :=
  match ignores with
  | [] => Hook
  | ii :: ignores =>
      if regexec (ii_pathname_regex ii) pathname then
        match ii_symbol ii with
        | None => IgnoreAll
        | Some s => if bool_decide (s = symbol) then IgnoreSymbol else ignore_search ignores pathname symbol
        end
      else ignore_search ignores pathname symbol
  end.

Context (fuel : nat).

(** The loop over the hook infos; the result of xh_elf_hook is ignored. *)
Fixpoint hook_loop (hooks : list xh_core_hook_info_t) (ignores : list xh_core_ignore_info_t)
    (pathname : list Z) : M unit :=
  match hooks with
  | [] => mret tt
  | hi :: hooks =>
      if regexec (hi_pathname_regex hi) pathname then
        match ignore_search ignores pathname (hi_symbol hi) with
        | IgnoreAll => mret tt
        | IgnoreSymbol => hook_loop hooks ignores pathname
        | Hook =>
            self ← gets c_elf;
            _ ← on_mem (xh_elf_hook fuel self (Some (hi_symbol hi)) (hi_new_func hi) (hi_old_func hi));
            hook_loop hooks ignores pathname
        end
      else hook_loop hooks ignores pathname
  end.

Definition xh_core_hook_impl (pathname : list Z) (base_addr : Z) : M unit :=
  r ← on_elf (xh_elf_init base_addr (Some pathname));
  if negb (r =? 0) then mret tt
  else
    s ← get;
    hook_loop (xh_core_hook_info s) (xh_core_ignore_info s) pathname.

(** [xh_core_hook(mi)]: the map info with the xh_elf_t it is left with. *)
Definition xh_core_hook (pathname : list Z) (mi : xh_core_map_info_t) : M xh_core_map_info_t :=
  modify (λ s, with_mem_elf (c_mem s) (mi_elf mi) s);;
  protected (xh_core_hook_impl pathname (mi_base_addr mi)) tt;;
  elf ← gets c_elf;
  mret (MapInfo (mi_base_addr mi) elf).

(** ** The refresh *)

(** [%d] *)
Fixpoint skip_digits (l : list Z) : list Z :=
  match l with
  | [] => []
  | c :: l' => if (48 <=? c) && (c <=? 57) then skip_digits l' else l
  end.
Definition scan_dec (l : list Z) : option (list Z) :=
  let l := skip_space l in
  let l := match l with c :: l' => if (c =? 45) || (c =? 43) then l' else l | [] => l end in
  match l with
  | c :: _ => if (48 <=? c) && (c <=? 57) then Some (skip_digits l) else None
  | [] => None
  end.
(** A literal character of a format. *)
Definition literal (c : Z) (l : list Z) : option (list Z) :=
  match l with d :: l => if d =? c then Some l else None | [] => None end.

(** The part of the format after the three assignments: what [%n] stores. *)
Definition scan_tail (line l : list Z) : option nat :=
  '(_, l) ← scan_hex l; l ← literal 58 l; '(_, l) ← scan_hex l; l ← scan_dec l;
  Some (length line - length l)%nat.

(** [sscanf(line, "%lx-%*lx %4s %lx %*x:%*x %*d%n", ...)]: the token stored in
    [perm], and where the result is 3 the base address, the offset and what was
    stored in [pathname_pos]. *)
Definition sscanf_refresh (line : list Z) : option (list Z) * option (Z * Z * option nat) :=
  match ('(base, l) ← scan_hex line; l ← literal 45 l; '(_, l) ← scan_hex l;
         let l := skip_space l in
         match take_token 4 l with
         | [] => None
         | token => Some (base, token, drop (length token) l)
         end) with
  | None => (None, None)
  | Some (base, token, l) =>
      (Some token, '(offset, l) ← scan_hex l; Some (base, offset, scan_tail line l))
  end.

(** The buffers of the loop and [pathname_pos], which keep their contents from
    line to line; [None] is uninitialised. *)
Record scan_state : Set := ScanState {
  sc_line : list (option Z);
  sc_perm : list (option Z);
  sc_pos : option nat
}.
Definition LINE_SIZE : nat := 512.
Definition scan_start : scan_state := ScanState (replicate LINE_SIZE None) perm_uninit None.

(** [while(isspace(line[pathname_pos]) && pathname_pos < 511) pathname_pos += 1;] *)
Fixpoint skip_blanks (n : nat) (line : list (option Z)) (pos : nat) : outcome nat :=
  match n with
  | O => Err OutOfFuel
  | S n =>
      obind (perm_get line pos) (λ c,
      if isspace c && (pos <? LINE_SIZE - 1)%nat then skip_blanks n line (S pos) else Ret pos)
  end.
(** The C string that starts here. *)
Fixpoint buf_cstr (l : list (option Z)) : outcome (list Z) :=
  match l with
  | Some c :: l => if c =? 0 then Ret [] else obind (buf_cstr l) (λ s, Ret (c :: s))
  | _ => Err Undefined
  end.

(** From "get pathname" on: the pathname, if the line has one, and the buffer. *)
Definition get_pathname (line : list (option Z)) (pos : option nat)
  : outcome (option (list Z) * list (option Z)) :=
  match pos with
  | None => Err Undefined
  | Some pos =>
      obind (skip_blanks (S LINE_SIZE) line pos) (λ pos,
      if (LINE_SIZE - 1 <=? pos)%nat then Ret (None, line)
      else
        obind (buf_cstr (drop pos line)) (λ pathname,
        if bool_decide (pathname = []) then Ret (None, line)
        else
          let n := (length pathname - 1)%nat in
          let cut := bool_decide (last pathname = Some 10) in
          let line := if cut then <[(pos + n)%nat := Some 0]> line else line in
          let pathname := if cut then take n pathname else pathname in
          match pathname with
          | [] => Ret (None, line)
          | c :: _ => if c =? 91 then Ret (None, line) else Ret (Some pathname, line)
          end))
  end.

(** One round of the loop up to the check of the pathname: the base address and
    pathname of a region that begins a private readable file. *)
Definition scan_line (l : list Z) (st : scan_state) : outcome (option (Z * list Z) * scan_state) :=
  let line := perm_store l (sc_line st) in
  let '(token, assigned) := sscanf_refresh (cstr l) in
  let perm := match token with Some token => perm_store token (sc_perm st) | None => sc_perm st end in
  match assigned with
  | None => Ret (None, ScanState line perm (sc_pos st))
  | Some (base_addr, offset, n) =>
      let pos := match n with Some _ => n | None => sc_pos st end in
      obind (perm_get perm 0) (λ p0,
      if negb (p0 =? 114) then Ret (None, ScanState line perm pos)
      else
        obind (perm_get perm 3) (λ p3,
        if negb (p3 =? 112) then Ret (None, ScanState line perm pos)
        else if negb (offset =? 0) then Ret (None, ScanState line perm pos)
        else
          obind (get_pathname line pos) (λ '(pathname, line),
          Ret ((λ p, (base_addr, p)) <$> pathname, ScanState line perm pos))))
  end.

(** "check pathname": the first hook info of the file decides. *)
Fixpoint match_check (hooks : list xh_core_hook_info_t) (ignores : list xh_core_ignore_info_t)
    (pathname : list Z) : bool :=
  match hooks with
  | [] => false
  | hi :: hooks =>
      if regexec (hi_pathname_regex hi) pathname then
        match ignore_search ignores pathname (hi_symbol hi) with
        | Hook => true
        | IgnoreSymbol | IgnoreAll => false
        end
      else match_check hooks ignores pathname
  end.

(** From "check existed map item" on, with the new tree. *)
Definition refresh_item (base_addr : Z) (pathname : list Z)
    (refreshed : gmap (list Z) xh_core_map_info_t) : M (gmap (list Z) xh_core_map_info_t) :=
  maps ← gets xh_core_map_info;
  match maps !! pathname with
  | Some mi =>
      modify (with_maps (delete pathname maps));;
      match refreshed !! pathname with
      | Some _ => mret refreshed
      | None =>
          if negb (mi_base_addr mi =? base_addr) then
            mi ← xh_core_hook pathname (MapInfo base_addr (mi_elf mi));
            mret (<[pathname := mi]> refreshed)
          else mret (<[pathname := mi]> refreshed)
      end
  | None =>
      ok ← malloc;
      if negb ok then mret refreshed
      else
        ok ← malloc;
        if negb ok then mret refreshed
        else
          match refreshed !! pathname with
          | Some _ => mret refreshed
          | None =>
              (* the new xh_elf_t is not initialised; xh_elf_init resets it *)
              mi ← xh_core_hook pathname (MapInfo base_addr xh_elf_zero);
              mret (<[pathname := mi]> refreshed)
          end
  end.

(** A candidate line: the checks and the item. *)
Definition refresh_candidate (base_addr : Z) (pathname : list Z)
    (refreshed : gmap (list Z) xh_core_map_info_t) : M (gmap (list Z) xh_core_map_info_t) :=
  s ← get;
  if negb (match_check (xh_core_hook_info s) (xh_core_ignore_info s) pathname) then mret refreshed
  else
    r ← xh_core_check_elf_header base_addr;
    if negb (r =? 0) then mret refreshed
    else refresh_item base_addr pathname refreshed.

Fixpoint refresh_loop (lines : list (list Z)) (st : scan_state)
    (refreshed : gmap (list Z) xh_core_map_info_t) : M (gmap (list Z) xh_core_map_info_t) :=
  match lines with
  | [] => mret refreshed
  | l :: lines =>
      '(candidate, st) ← lift_outcome (scan_line l st);
      refreshed ← match candidate with
                  | Some (base_addr, pathname) => refresh_candidate base_addr pathname refreshed
                  | None => mret refreshed
                  end;
      refresh_loop lines st refreshed
  end.

(** The items left in the old tree are freed; the new tree replaces it.  The
    text is read as it was when the file was opened. *)
Definition xh_core_refresh_impl : M unit :=
  maps ← gets (λ s, k_maps (c_mem s));
  match maps with
  | None => mret tt
  | Some text =>
      refreshed ← refresh_loop (maps_lines text) scan_start ∅;
      modify (with_maps refreshed)
  end.

(** ** Life cycle *)

Definition xh_core_init_once : M unit :=
  inited ← flag xh_core_inited;
  if inited : bool then mret tt
  else
    update_flags (λ f, set_inited 1 (xh_core_init_ok f) f);;
    r ← xh_core_add_sigsegv_handler;
    if negb (r =? 0) then mret tt
    else update_flags (λ f, set_inited (xh_core_inited f) 1 f).

Definition xh_core_init_async_once : M unit :=
  inited ← flag xh_core_async_inited;
  if inited : bool then mret tt
  else
    update_flags (λ f, set_async_inited 1 (xh_core_async_init_ok f) f);;
    update_flags (set_running 1);;
    '(r, _) ← syscall;  (* pthread_create *)
    if negb (r =? 0) then update_flags (set_running 0)
    else update_flags (λ f, set_async_inited (xh_core_async_inited f) 1 f).

Definition xh_core_refresh (async : Z) : M Z :=
  xh_core_init_once;;
  init_ok ← flag xh_core_init_ok;
  if negb init_ok then mret XH_ERRNO_UNKNOWN
  else if truthy async then
    xh_core_init_async_once;;
    async_ok ← flag xh_core_async_init_ok;
    if negb async_ok then mret XH_ERRNO_UNKNOWN
    else update_flags (set_do 1);; mret 0
  else xh_core_refresh_impl;; mret 0.

(** xh_core_clear up to pthread_join: whether there is a thread to wait for. *)
Definition clear_stop : M bool :=
  async_ok ← flag xh_core_async_init_ok;
  when async_ok (update_flags (set_running 0));;
  mret async_ok.
(** After pthread_join. *)
Definition clear_rest : M unit :=
  update_flags (set_async_inited 0 0);;
  init_ok ← flag xh_core_init_ok;
  when init_ok xh_core_del_sigsegv_handler;;
  update_flags (set_inited 0 0);;
  modify (with_maps ∅);;
  modify (with_hooks []);;
  modify (with_ignores []).
(** With the thread, if any, idle. *)
Definition xh_core_clear : M unit := clear_stop;; clear_rest.

Definition xh_core_enable_sigsegv_protection (v : Z) : M unit :=
  modify (with_sig (set_enable (if truthy v then 1 else 0))).

End core.
