(* ===== verification/XhCoreProps.v ===== *)
(** * Correctness of xh_core.c

    Which hooks a file gets, the containment of SIGSEGV, the refresh against
    the list of candidate files, and the life cycle. *)

From S2P Require Import Prelude CMem XhUtil XhUtilProps XhElfReloc XhElfTypes XhElfHash.
From S2P Require Import XhElfInit XhElfHook XhElfInitProps Sample XhCore.

#[local] Open Scope cint_scope.

Section props.
Context {R : Regex} {K : Kernel} (fuel : nat).

(** ** Which hooks a file gets *)

Definition matches (pathname : list Z) (hi : xh_core_hook_info_t) : bool :=
  regexec (hi_pathname_regex hi) pathname.
(** An ignore info of the file for the symbol, or for all symbols. *)
Definition ignored (ignores : list xh_core_ignore_info_t) (pathname symbol : list Z) : bool :=
  existsb (λ ii, regexec (ii_pathname_regex ii) pathname &&
    match ii_symbol ii with None => true | Some s => bool_decide (s = symbol) end) ignores.
Definition selected (hooks : list xh_core_hook_info_t) (ignores : list xh_core_ignore_info_t)
    (pathname : list Z) : list xh_core_hook_info_t :=
  List.filter (λ hi, matches pathname hi && negb (ignored ignores pathname (hi_symbol hi))) hooks.

Lemma ignore_search_spec ignores pathname symbol :
  match ignore_search ignores pathname symbol with
  | Hook => ignored ignores pathname symbol = false
  | IgnoreSymbol => ignored ignores pathname symbol = true
  | IgnoreAll => ∀ symbol', ignored ignores pathname symbol' = true
  end.
Proof using Type.
  induction ignores as [|ii ignores IH]; [done|]. cbn [ignore_search ignored existsb].
  destruct (regexec (ii_pathname_regex ii) pathname); simpl; [|exact IH].
  destruct (ii_symbol ii) as [s|]; [|done].
  destruct (bool_decide_reflect (s = symbol)) as [->|]; simpl; [done|].
  destruct (ignore_search ignores pathname symbol); try exact IH.
  intros symbol'. unfold ignored in IH. rewrite IH. apply orb_true_r.
Qed.

(** xh_elf_hook for each of a list of hooks. *)
Fixpoint hook_each (hooks : list xh_core_hook_info_t) : M unit :=
  match hooks with
  | [] => mret tt
  | hi :: hooks =>
      self ← gets c_elf;
      _ ← on_mem (xh_elf_hook fuel self (Some (hi_symbol hi)) (hi_new_func hi) (hi_old_func hi));
      hook_each hooks
  end.

Lemma selected_nil hooks ignores pathname :
  (∀ symbol, ignored ignores pathname symbol = true) → selected hooks ignores pathname = [].
Proof using Type.
  intros H. unfold selected. induction hooks as [|hi hooks IH]; [done|]. simpl.
  by rewrite H, andb_false_r.
Qed.

Lemma hook_loop_selected hooks ignores pathname s :
  hook_loop fuel hooks ignores pathname s = hook_each (selected hooks ignores pathname) s.
Proof using Type.
  revert s. induction hooks as [|hi hooks IH]; intros s; [done|]. unfold selected. simpl.
  unfold matches at 1. destruct (regexec (hi_pathname_regex hi) pathname); simpl; [|apply IH].
  pose proof (ignore_search_spec ignores pathname (hi_symbol hi)) as Hs.
  destruct (ignore_search ignores pathname (hi_symbol hi)).
  - rewrite Hs. simpl. unfold mbind, CM_bind. simpl. destruct (on_mem _ s) as [[r|e] s']; [apply IH|done].
  - rewrite Hs. apply IH.
  - fold (selected hooks ignores pathname). rewrite Hs. simpl. by rewrite selected_nil.
Qed.

(** C9: once xh_elf_init has succeeded, xh_core_hook_impl calls xh_elf_hook
    for exactly those hook infos, in the order of their registration, whose
    expression matches the pathname and whose symbol no matching ignore info
    names or covers. *)
Theorem hook_impl_selects pathname base_addr s :
  xh_core_hook_impl fuel pathname base_addr s =
    (r ← on_elf (xh_elf_init base_addr (Some pathname));
     if negb (r =? 0) then mret tt
     else s ← get; hook_each (selected (xh_core_hook_info s) (xh_core_ignore_info s) pathname)) s.
Proof using Type.
  unfold xh_core_hook_impl, mbind, CM_bind. destruct (on_elf _ s) as [[r|e] s']; [|done].
  destruct (negb (r =? 0)); [done|]. apply hook_loop_selected.
Qed.

(** the check of a line's pathname looks at the first matching hook info
    only: a file passes exactly when that one is not ignored, and a file that
    passes has a hook to get. *)
Theorem match_check_first hooks ignores pathname :
  match_check hooks ignores pathname =
    match List.find (matches pathname) hooks with
    | Some hi => negb (ignored ignores pathname (hi_symbol hi))
    | None => false
    end ∧
  (match_check hooks ignores pathname = true → selected hooks ignores pathname ≠ []).
Proof using Type.
  induction hooks as [|hi hooks IH]; [done|].
  unfold selected. cbn [match_check List.find List.filter].
  change (regexec (hi_pathname_regex hi) pathname) with (matches pathname hi).
  destruct (matches pathname hi); [|exact IH]. simpl.
  pose proof (ignore_search_spec ignores pathname (hi_symbol hi)) as Hs.
  by destruct (ignore_search ignores pathname (hi_symbol hi)); rewrite Hs.
Qed.

(** ** What an operation leaves alone *)

(** Computing on one file changes memory and its xh_elf_t. *)
Definition rest_of (s : core_state) :=
  (xh_core_hook_info s, xh_core_ignore_info s, xh_core_map_info s, c_sig s, c_flags s).
Definition same_rest (s s' : core_state) : Prop := rest_of s' = rest_of s.
(** A refresh also changes the tree and the flag of the signal handler. *)
Definition settings_of (s : core_state) :=
  (xh_core_hook_info s, xh_core_ignore_info s, c_flags s,
   (xh_core_sigsegv_enable (c_sig s), sig_current (c_sig s), xh_core_sigsegv_act_old (c_sig s))).
Definition same_settings (s s' : core_state) : Prop := settings_of s' = settings_of s.

#[global] Instance same_rest_preorder : PreOrder same_rest.
Proof using Type. split; [done|]. intros s1 s2 s3 H1 H2. unfold same_rest in *. congruence. Qed.
#[global] Instance same_settings_preorder : PreOrder same_settings.
Proof using Type. split; [done|]. intros s1 s2 s3 H1 H2. unfold same_settings in *. congruence. Qed.

Lemma same_rest_settings s s' : same_rest s s' → same_settings s s'.
Proof using Type. unfold same_rest, same_settings, rest_of, settings_of. intros [= -> -> _ -> ->]. done. Qed.

#[global] Instance on_mem_rest {A} (c : CM memory A) : Keeps same_rest (on_mem c).
Proof using Type. intros s. unfold on_mem. by destruct (c (c_mem s)) as [r m]. Qed.
#[global] Instance on_elf_rest {A} (c : CM elf_state A) : Keeps same_rest (on_elf c).
Proof using Type. intros s. unfold on_elf. by destruct (c _) as [r e]. Qed.
#[global] Instance hook_each_rest hooks : Keeps same_rest (hook_each hooks).
Proof using Type. induction hooks; simpl; solve_keeps. Qed.
#[global] Instance hook_impl_rest pathname base_addr :
  Keeps same_rest (xh_core_hook_impl fuel pathname base_addr).
Proof using Type.
  intros s. rewrite hook_impl_selects. revert s. apply keeps_bind; [apply _|apply _|].
  intros r. destruct (negb (r =? 0)); [apply _|]. apply keeps_bind; [apply _|apply _|]. intros s. apply _.
Qed.

#[global] Instance keeps_rest_settings {A} (c : M A) : Keeps same_rest c → Keeps same_settings c.
Proof using Type. intros Hc s. apply same_rest_settings, Hc. Qed.
#[global] Instance malloc_settings : Keeps same_settings malloc.
Proof using Type. intros s. unfold malloc. by destruct (c_allocs s). Qed.
#[global] Instance catch_segv_settings {A} (c : M A) :
  Keeps same_settings c → Keeps same_settings (catch_segv c).
Proof using Type.
  intros Hc s. specialize (Hc s). unfold catch_segv. destruct (c s) as [[a|[]] s']; try done.
  destruct (sig_current (c_sig s')); [|done]. by destruct (truthy _).
Qed.
#[global] Instance protected_settings {A} (c : M A) d :
  Keeps same_settings c → Keeps same_settings (protected c d).
Proof using Type.
  intros Hc. unfold protected. solve_keeps.
Qed.
#[global] Instance check_elf_header_settings base_addr :
  Keeps same_settings (xh_core_check_elf_header base_addr).
Proof using Type. unfold xh_core_check_elf_header. apply _. Qed.
#[global] Instance xh_core_hook_settings pathname mi : Keeps same_settings (xh_core_hook fuel pathname mi).
Proof using Type. unfold xh_core_hook. solve_keeps. Qed.
#[global] Instance refresh_item_settings base_addr pathname t :
  Keeps same_settings (refresh_item fuel base_addr pathname t).
Proof using Type. unfold refresh_item. solve_keeps. Qed.
#[global] Instance refresh_candidate_settings base_addr pathname t :
  Keeps same_settings (refresh_candidate fuel base_addr pathname t).
Proof using Type. unfold refresh_candidate. solve_keeps. Qed.
#[global] Instance lift_outcome_readonly {S A} (o : outcome A) : ReadOnly (S:=S) (lift_outcome o).
Proof using Type. done. Qed.
#[global] Instance refresh_loop_settings lines st t :
  Keeps same_settings (refresh_loop fuel lines st t).
Proof using Type. revert st t. induction lines; intros st t; simpl; solve_keeps. Qed.
#[global] Instance refresh_impl_settings : Keeps same_settings (xh_core_refresh_impl fuel).
Proof using Type. unfold xh_core_refresh_impl. solve_keeps. Qed.

(** ** SIGSEGV *)

(** Protection is on and the library's handler is installed. *)
Definition guarded (s : core_state) : Prop :=
  truthy (xh_core_sigsegv_enable (c_sig s)) = true ∧ sig_current (c_sig s) = XhHandler.
Definition flag_clear (s : core_state) : Prop := xh_core_sigsegv_flag (c_sig s) = 0.

Lemma guarded_kept s s' : same_settings s s' → guarded s → guarded s'.
Proof using Type. unfold guarded. intros [= _ _ _ -> -> _]. done. Qed.

(** [c] never ends in a SIGSEGV, and leaves the flag of the handler clear. *)
Class Contained {A} (c : M A) : Prop :=
  contained : ∀ s, guarded s → flag_clear s → wp c (λ _ s', flag_clear s') (λ e _, e ≠ Segv) s.

#[global] Instance contained_ret {A} (a : A) : Contained (mret a).
Proof using Type. intros s Hg Hcl. exact Hcl. Qed.
#[global] Instance contained_gets {A} (f : core_state → A) : Contained (gets f).
Proof using Type. intros s Hg Hcl. exact Hcl. Qed.
#[global] Instance contained_bind {A B} (c : M A) (f : A → M B) :
  Contained c → Keeps same_settings c → (∀ a, Contained (f a)) → Contained (c ≫= f).
Proof using Type.
  intros Hc Hk Hf s Hg Hcl. apply wp_bind. specialize (Hc s Hg Hcl). specialize (Hk s). unfold wp in *.
  destruct (c s) as [[a|e] s'] eqn:E; [|done]. apply Hf; [|done]. by apply (guarded_kept s).
Qed.
#[global] Instance contained_maps f : Contained (modify (λ s, with_maps (f s) s)).
Proof using Type. intros s Hg Hcl. exact Hcl. Qed.
#[global] Instance contained_malloc : Contained malloc.
Proof using Type. intros s Hg Hcl. unfold malloc, wp. by destruct (c_allocs s). Qed.

Lemma obind_segv {A B} (o : outcome A) (f : A → outcome B) :
  o ≠ Err Segv → (∀ a, f a ≠ Err Segv) → obind o f ≠ Err Segv.
Proof using Type. destruct o; simpl; [auto|congruence]. Qed.
Lemma perm_get_segv l i : perm_get l i ≠ Err Segv.
Proof using Type. unfold perm_get. by destruct (l !! i) as [[c|]|]. Qed.
Lemma skip_blanks_segv n line pos : skip_blanks n line pos ≠ Err Segv.
Proof using Type.
  revert pos. induction n as [|n IH]; intros pos; [done|]. simpl.
  apply obind_segv; [apply perm_get_segv|]. intros c. by destruct (_ && _).
Qed.
Lemma buf_cstr_segv l : buf_cstr l ≠ Err Segv.
Proof using Type.
  induction l as [|[c|] l IH]; [done| |done]. simpl. destruct (c =? 0); [done|].
  by apply obind_segv.
Qed.
Lemma get_pathname_segv line pos : get_pathname line pos ≠ Err Segv.
Proof using Type.
  destruct pos as [pos|]; [|done]. apply obind_segv; [apply skip_blanks_segv|]. intros pos'.
  destruct (_ <=? _)%nat; [done|]. apply obind_segv; [apply buf_cstr_segv|]. intros path.
  destruct (bool_decide _); [done|]. cbv zeta. destruct (if bool_decide _ then _ else path); [done|].
  by destruct (_ =? 91).
Qed.
Lemma scan_line_segv l st : scan_line l st ≠ Err Segv.
Proof using Type.
  unfold scan_line. destruct (sscanf_refresh _) as [token [[[b o] n]|]]; [|done].
  apply obind_segv; [apply perm_get_segv|]. intros p0. destruct (negb _); [done|].
  apply obind_segv; [apply perm_get_segv|]. intros p3. destruct (negb _); [done|].
  destruct (negb _); [done|]. apply obind_segv; [apply get_pathname_segv|]. by intros [path line].
Qed.

#[global] Instance contained_scan l st : Contained (lift_outcome (scan_line l st)).
Proof using Type.
  intros s Hg Hcl. unfold wp, lift_outcome. pose proof (scan_line_segv l st) as H.
  destruct (scan_line l st); [done|congruence].
Qed.
#[global] Instance contained_protected {A} (c : M A) d : Keeps same_rest c → Contained (protected c d).
Proof using Type.
  intros Hc s [Hen Hcur] Hcl. unfold protected, wp, mbind, CM_bind, gets. simpl. rewrite Hen. simpl.
  set (s1 := with_sig (set_sig_flag 1) s). unfold catch_segv.
  specialize (Hc s1). destruct (c s1) as [[a|e] s2]; [done|].
  injection Hc as _ _ _ Hsig _. cbn [snd] in Hsig. destruct e; try done. rewrite Hsig. simpl. by rewrite Hcur.
Qed.
#[global] Instance contained_check_elf_header base_addr : Contained (xh_core_check_elf_header base_addr).
Proof using Type. apply contained_protected, _. Qed.
#[global] Instance contained_hook pathname mi : Contained (xh_core_hook fuel pathname mi).
Proof using Type.
  unfold xh_core_hook. apply contained_bind; [intros s Hg Hcl; exact Hcl|apply keeps_modify; done|].
  intros _. apply contained_bind; [apply contained_protected, _|apply _|]. intros _.
  apply contained_bind; [apply _|apply _|]. intros elf. apply contained_ret.
Qed.

#[local] Ltac solve_contained :=
  repeat match goal with
  | |- Contained (mbind _ _) => apply contained_bind; [|solve_keeps|intros]
  | |- Contained (if ?b then _ else _) => destruct b
  | |- Contained (match ?x with _ => _ end) => destruct x
  | |- Contained _ => solve [assumption | typeclasses eauto | apply contained_maps]
  end.

#[global] Instance contained_item base_addr pathname t :
  Contained (refresh_item fuel base_addr pathname t).
Proof using Type.
  unfold refresh_item. solve_contained; exact (contained_maps (λ _, _)).
Qed.

(** C10: with the protection on and the handler installed, a refresh never ends
    in a SIGSEGV, whatever the mapped files hold and whatever faults meet the
    checks and the hooking, and the handler's flag is clear again; the
    registered hooks, the ignore infos and the signal settings are untouched. *)
Theorem refresh_contains_segv s :
  guarded s → flag_clear s →
  wp (xh_core_refresh_impl fuel) (λ _ s', flag_clear s') (λ e _, e ≠ Segv) s ∧
  same_settings s (xh_core_refresh_impl fuel s).2.
Proof using Type.
  intros Hg Hcl. split; [|apply keeps]. revert s Hg Hcl. change (Contained (xh_core_refresh_impl fuel)).
  assert (Hloop : ∀ lines st t, Contained (refresh_loop fuel lines st t)).
  { induction lines as [|l lines IH]; intros st t; simpl; [apply _|].
    apply contained_bind; [apply _|apply _|]. intros [[[b p]|] st'].
    - apply contained_bind; [|apply _|intros; apply IH]. unfold refresh_candidate. 
      apply contained_bind; [by intros s|apply _|]. intros s. solve_contained.
    - apply contained_bind; [apply _|apply _|intros; apply IH]. }
  unfold xh_core_refresh_impl. apply contained_bind; [apply _|apply _|]. intros [text|]; [|apply _].
  apply contained_bind; [apply Hloop|apply _|]. intros t. exact (contained_maps (λ _, t)).
Qed.

(** ** The refresh *)

(** The base address and pathname of every line that begins a private readable
    file at offset 0. *)
Fixpoint candidates (lines : list (list Z)) (st : scan_state) : outcome (list (Z * list Z)) :=
  match lines with
  | [] => Ret []
  | l :: lines =>
      obind (scan_line l st) (λ '(c, st),
      obind (candidates lines st) (λ cs,
      Ret (match c with Some c => c :: cs | None => cs end)))
  end.

Fixpoint refresh_each (cs : list (Z * list Z)) (t : gmap (list Z) xh_core_map_info_t)
  : M (gmap (list Z) xh_core_map_info_t) :=
  match cs with
  | [] => mret t
  | (base_addr, pathname) :: cs => t ← refresh_candidate fuel base_addr pathname t; refresh_each cs t
  end.

Lemma refresh_loop_each lines st cs t s :
  candidates lines st = Ret cs → refresh_loop fuel lines st t s = refresh_each cs t s.
Proof using Type.
  revert st cs t s. induction lines as [|l lines IH]; intros st cs t s; simpl; [by intros [= <-]|].
  unfold mbind, CM_bind, lift_outcome. destruct (scan_line l st) as [[c st']|e]; [|done]. simpl.
  destruct (candidates lines st') as [cs'|e] eqn:E; [|done]. intros [= <-].
  destruct c as [[b p]|]; [|by apply IH]. simpl. unfold mbind, CM_bind.
  destruct (refresh_candidate fuel b p t s) as [[t'|e] s']; [by apply IH|done].
Qed.

Lemma refresh_loop_ret lines st t s t' s' :
  refresh_loop fuel lines st t s = (Ret t', s') → ∃ cs, candidates lines st = Ret cs.
Proof using Type.
  revert st t s. induction lines as [|l lines IH]; intros st t s; simpl; [by exists []|].
  unfold mbind, CM_bind, lift_outcome. destruct (scan_line l st) as [[c st']|e]; [|done]. simpl.
  intros H. assert (Hc : ∃ cs, candidates lines st' = Ret cs).
  { destruct c as [[b p]|]; [|exact (IH st' t s H)].
    destruct (refresh_candidate fuel b p t s) as [[t1|e] s1]; [exact (IH st' t1 s1 H)|done]. }
  destruct Hc as [cs ->]. simpl. eauto.
Qed.

Lemma xh_core_hook_base pathname mi s mi' s' :
  xh_core_hook fuel pathname mi s = (Ret mi', s') → mi_base_addr mi' = mi_base_addr mi.
Proof using Type.
  unfold xh_core_hook. intros (u & s1 & _ & H)%CM_bind_inv.
  apply CM_bind_inv in H as (u' & s2 & _ & H). by injection H as <- _.
Qed.

(** An item comes from its candidate. *)
Lemma refresh_candidate_entries b p t s t' s' :
  refresh_candidate fuel b p t s = (Ret t', s') → ∀ q mi, t' !! q = Some mi →
  t !! q = Some mi ∨
  q = p ∧ mi_base_addr mi = b ∧ match_check (xh_core_hook_info s) (xh_core_ignore_info s) p = true.
Proof using Type.
  unfold refresh_candidate. intros (s0 & s1 & [= <- <-] & H)%CM_bind_inv q mi.
  destruct (match_check _ _ p); cbn [negb] in H; [|injection H as <- _; by left].
  apply CM_bind_inv in H as (r & s1 & _ & H). destruct (negb _); [injection H as <- _; by left|].
  unfold refresh_item in H. apply CM_bind_inv in H as (maps & s2 & _ & H).
  assert (Hins : ∀ mi0, mi_base_addr mi0 = b → <[p := mi0]> t !! q = Some mi →
    t !! q = Some mi ∨ q = p ∧ mi_base_addr mi = b ∧ true = true).
  { intros mi0 Hb. destruct (decide (q = p)) as [->|].
    - rewrite lookup_insert_eq. intros [= <-]. by right.
    - rewrite lookup_insert_ne by done. by left. }
  destruct (maps !! p) as [mi0|] eqn:Hmi.
  - apply CM_bind_inv in H as (u & s3 & _ & H).
    destruct (t !! p); [injection H as <- _; by left|].
    destruct (Z.eqb_spec (mi_base_addr mi0) b); cbn [negb] in H.
    + injection H as <- _. by apply Hins.
    + apply CM_bind_inv in H as (mi1 & s4 & Hh & H). injection H as <- _.
      apply Hins. by apply xh_core_hook_base in Hh.
  - apply CM_bind_inv in H as ([] & s3 & _ & H); cbn [negb] in H; [|injection H as <- _; by left].
    apply CM_bind_inv in H as ([] & s4 & _ & H); cbn [negb] in H; [|injection H as <- _; by left].
    destruct (t !! p); [injection H as <- _; by left|].
    apply CM_bind_inv in H as (mi1 & s5 & Hh & H). injection H as <- _.
    apply Hins. by apply xh_core_hook_base in Hh.
Qed.

Lemma refresh_each_entries cs t s t' s' :
  refresh_each cs t s = (Ret t', s') → ∀ q mi, t' !! q = Some mi →
  t !! q = Some mi ∨
  (mi_base_addr mi, q) ∈ cs ∧ match_check (xh_core_hook_info s) (xh_core_ignore_info s) q = true.
Proof using Type.
  revert t s. induction cs as [|[b p] cs IH]; intros t s; simpl; [intros [= <- _]; by left|].
  intros (t1 & s1 & H1 & H)%CM_bind_inv q mi Hq.
  pose proof (keeps_run same_settings _ _ _ _ H1) as Hs. injection Hs as Hh Hi _ _ _ _.
  destruct (IH t1 s1 H q mi Hq) as [Hq1|[Hin Hm]].
  - destruct (refresh_candidate_entries _ _ _ _ _ _ H1 q mi Hq1) as [|(-> & <- & Hm)]; [by left|].
    right. split; [by constructor|done].
  - right. split; [by constructor|]. by rewrite <- Hh, <- Hi.
Qed.

(** C30: after a refresh the tree has an item only for pathnames of candidate
    lines that pass the check, under the base address of one of those lines;
    files that have gone are gone from the tree. *)
Theorem refresh_entries s s' text :
  k_maps (c_mem s) = Some text → xh_core_refresh_impl fuel s = (Ret tt, s') →
  ∃ cs, candidates (maps_lines text) scan_start = Ret cs ∧
  ∀ pathname mi, xh_core_map_info s' !! pathname = Some mi →
    (mi_base_addr mi, pathname) ∈ cs ∧
    match_check (xh_core_hook_info s) (xh_core_ignore_info s) pathname = true.
Proof using Type.
  intros Htext. unfold xh_core_refresh_impl. intros (o & s1 & [= <- <-] & H)%CM_bind_inv.
  rewrite Htext in H. apply CM_bind_inv in H as (t & s2 & Hloop & H). injection H as <-.
  destruct (refresh_loop_ret _ _ _ _ _ _ Hloop) as [cs Hcs]. exists cs. split; [done|].
  intros p mi Hp. rewrite (refresh_loop_each _ _ _ _ _ Hcs) in Hloop.
  destruct (refresh_each_entries _ _ _ _ _ Hloop p mi Hp) as [H|]; [by rewrite lookup_empty in H|done].
Qed.

(** *** A refresh with nothing to do *)

Definition header_accepts (m : memory) (base_addr : Z) : bool :=
  match xh_elf_check_elfheader base_addr m with (Ret r, _) => r =? 0 | _ => false end.
Definition accepted (s : core_state) (c : Z * list Z) : bool :=
  match_check (xh_core_hook_info s) (xh_core_ignore_info s) c.2 && header_accepts (c_mem s) c.1.
(** The base address of a file: that of its first accepted line. *)
Definition first_base (s : core_state) (cs : list (Z * list Z)) (pathname : list Z) : option Z :=
  fst <$> List.find (λ c, bool_decide (c.2 = pathname) && accepted s c) cs.

Lemma first_base_app s cs cs' p :
  first_base s (cs ++ cs') p =
    match first_base s cs p with Some b => Some b | None => first_base s cs' p end.
Proof using Type.
  unfold first_base. induction cs as [|c cs IH]; [done|]. simpl. by destruct (_ && _).
Qed.

(** Nothing but the tree and the allocator has changed. *)
Definition same_files (s s' : core_state) : Prop := c_mem s' = c_mem s ∧ same_settings s s'.

#[global] Instance same_files_preorder : PreOrder same_files.
Proof using Type.
  split; [done|]. intros s1 s2 s3 [E1 H1] [E2 H2]. split; [congruence|by etrans].
Qed.

Lemma same_files_accepted s s' c : same_files s s' → accepted s' c = accepted s c.
Proof using Type. intros [Hm [= Hh Hi _ _ _ _]]. unfold accepted. by rewrite Hm, Hh, Hi. Qed.

Lemma check_elf_header_run b s :
  guarded s → ∃ r s', xh_core_check_elf_header b s = (Ret r, s') ∧
    (r =? 0) = header_accepts (c_mem s) b ∧ same_files s s' ∧
    xh_core_map_info s' = xh_core_map_info s.
Proof using Type.
  intros [Hen Hcur]. unfold xh_core_check_elf_header, protected, header_accepts, mbind, CM_bind, gets.
  simpl. rewrite Hen. simpl. unfold catch_segv, on_mem. simpl.
  destruct (xh_elf_check_elfheader b (c_mem s)) as [[r|e] m'] eqn:Hrun.
  - pose proof (readonly_run _ _ _ _ Hrun) as Em. subst m'. eexists r, _. split; [reflexivity|].
    split; [done|]. split; [|done]. split; [done|]. by destruct s.
  - pose proof (readonly_run _ _ _ _ Hrun) as Em. subst m'. apply only_segv in Hrun as ->. simpl.
    rewrite Hcur. simpl. eexists _, _. split; [reflexivity|]. split; [done|]. split; [|done].
    split; [done|]. by destruct s.
Qed.

Lemma malloc_run s : ∃ b s', malloc s = (Ret b, s') ∧ same_files s s' ∧
  xh_core_map_info s' = xh_core_map_info s.
Proof using Type. unfold malloc. destruct (c_allocs s) as [|b l]; by eexists _, _. Qed.

(** The loop has moved the items of the candidates [done] from the old tree. *)
Definition moved (s0 : core_state) (done : list (Z * list Z)) (s : core_state)
    (t : gmap (list Z) xh_core_map_info_t) : Prop :=
  same_files s0 s ∧ ∀ p,
    xh_core_map_info s !! p = (if first_base s0 done p is Some _ then None else xh_core_map_info s0 !! p) ∧
    t !! p = (if first_base s0 done p is Some _ then xh_core_map_info s0 !! p else None).

Lemma refresh_item_idle s0 done b p s t :
  accepted s0 (b, p) = true → moved s0 done s t →
  (∀ b', first_base s0 (done ++ [(b, p)]) p = Some b' →
     ∃ mi, xh_core_map_info s0 !! p = Some mi ∧ mi_base_addr mi = b') →
  ∃ s' t', refresh_item fuel b p t s = (Ret t', s') ∧ moved s0 (done ++ [(b, p)]) s' t'.
Proof using Type.
  intros Hacc [Hs Hmt] Hmi. unfold refresh_item. rewrite (CM_bind_Ret _ _ s (xh_core_map_info s) s) by done.
  assert (Hone : ∀ q, first_base s0 [(b, p)] q = if decide (q = p) then Some b else None).
  { intros q. unfold first_base. simpl. case_decide as Hq; [subst q|].
    - by rewrite bool_decide_true, Hacc by done.
    - by rewrite bool_decide_false by done. }
  destruct (Hmt p) as [Hp1 Hp2]. destruct (first_base s0 done p) as [b0|] eqn:Hfb.
  - (* a line of this file came before *)
    destruct (Hmi b0) as (mi & Hmi0 & _); [by rewrite first_base_app, Hfb|].
    assert (Hsame : ∀ s', same_files s s' → xh_core_map_info s' = xh_core_map_info s →
      moved s0 (done ++ [(b, p)]) s' t).
    { intros s' Hs' Hm'. split; [by etrans|]. intros q. rewrite Hm', first_base_app, Hone.
      destruct (Hmt q) as [-> ->]. destruct (first_base s0 done q) eqn:E; [done|].
      case_decide; [by subst; congruence|done]. }
    rewrite Hp1. destruct (malloc_run s) as (a1 & s1 & Ha1 & Hf1 & Hm1).
    rewrite (CM_bind_Ret _ _ _ _ _ Ha1). destruct a1; [|by eexists _, _; split; [done|apply Hsame]].
    cbn [negb]. destruct (malloc_run s1) as (a2 & s2 & Ha2 & Hf2 & Hm2).
    assert (Hm : moved s0 (done ++ [(b, p)]) s2 t) by (apply Hsame; [by etrans|congruence]).
    rewrite (CM_bind_Ret _ _ _ _ _ Ha2). destruct a2; [|by eexists _, _]. cbn [negb].
    rewrite Hp2, Hmi0. by eexists _, _.
  - (* the first one *)
    destruct (Hmi b) as (mi & Hmi0 & Hb); [rewrite first_base_app, Hfb, Hone; by rewrite decide_True|].
    rewrite Hp1, Hmi0, Hp2.
    match goal with |- context [(modify ?f ≫= _) s] => rewrite (CM_bind_Ret _ _ s tt (f s)) by done end.
    rewrite Hb, Z.eqb_refl. cbn [negb]. eexists _, _. split; [reflexivity|]. split.
    + etrans; [exact Hs|]. done.
    + intros q. rewrite first_base_app, Hone. cbn [xh_core_map_info with_maps].
      destruct (decide (q = p)) as [->|Hq].
      * rewrite Hfb, lookup_delete_eq, lookup_insert_eq. done.
      * rewrite lookup_delete_ne, lookup_insert_ne by done. destruct (Hmt q) as [-> ->].
        by destruct (first_base s0 done q).
Qed.

Lemma refresh_each_idle s0 done cs s t :
  guarded s0 → moved s0 done s t →
  (∀ p b, first_base s0 (done ++ cs) p = Some b →
     ∃ mi, xh_core_map_info s0 !! p = Some mi ∧ mi_base_addr mi = b) →
  ∃ s' t', refresh_each cs t s = (Ret t', s') ∧ moved s0 (done ++ cs) s' t'.
Proof using Type.
  intros Hg. revert done s t. induction cs as [|[b p] cs IH]; intros done s t Hm Hmi; simpl.
  { rewrite app_nil_r. by eexists _, _. }
  replace (done ++ (b, p) :: cs) with ((done ++ [(b, p)]) ++ cs) in * by by rewrite <- app_assoc.
  assert (Hstep : ∃ s' t', refresh_candidate fuel b p t s = (Ret t', s') ∧
    moved s0 (done ++ [(b, p)]) s' t').
  { pose proof Hm as [Hs Hmt]. unfold refresh_candidate. rewrite (CM_bind_Ret _ _ s s s) by done.
    assert (Hskip : accepted s0 (b, p) = false → ∀ s', same_files s s' →
      xh_core_map_info s' = xh_core_map_info s → moved s0 (done ++ [(b, p)]) s' t).
    { intros Hacc s' Hs' Hm'. split; [by etrans|]. intros q. rewrite Hm', first_base_app.
      assert (Hone : first_base s0 [(b, p)] q = None).
      { unfold first_base. simpl. by rewrite Hacc, andb_false_r. }
      rewrite Hone. destruct (Hmt q) as [-> ->]. by destruct (first_base s0 done q). }
    rewrite <- (same_files_accepted s0 s) in Hskip by done.
    destruct (match_check (xh_core_hook_info s) (xh_core_ignore_info s) p) eqn:Hmc; cbn [negb].
    2: { eexists _, _. split; [reflexivity|]. apply Hskip; [|done..]. unfold accepted. simpl. by rewrite Hmc. }
    destruct (check_elf_header_run b s (guarded_kept _ _ (proj2 Hs) Hg)) as (r & s1 & Hr & Hacc & Hs1 & Hm1).
    rewrite (CM_bind_Ret _ _ _ _ _ Hr). destruct (r =? 0); cbn [negb].
    - apply refresh_item_idle.
      + rewrite <- (same_files_accepted s0 s) by done. unfold accepted. simpl. by rewrite Hmc, <- Hacc.
      + split; [by etrans|]. intros q. by rewrite Hm1.
      + intros b' Hb'. apply Hmi. by rewrite first_base_app, Hb'.
    - eexists _, _. split; [reflexivity|]. apply Hskip; [|done..]. unfold accepted. simpl.
      by rewrite Hmc, <- Hacc. }
  destruct Hstep as (s' & t' & Hrun & Hm'). rewrite (CM_bind_Ret _ _ _ _ _ Hrun). by apply IH.
Qed.

(** C11: when the tree is up to date - every file that passes the checks is in
    it under the base address of its first line - a refresh hooks nothing: it
    succeeds, memory is untouched, and the tree keeps exactly the items of the
    files that are still mapped. *)
Theorem refresh_idle s text cs :
  guarded s → k_maps (c_mem s) = Some text → candidates (maps_lines text) scan_start = Ret cs →
  (∀ pathname b, first_base s cs pathname = Some b →
     ∃ mi, xh_core_map_info s !! pathname = Some mi ∧ mi_base_addr mi = b) →
  ∃ s', xh_core_refresh_impl fuel s = (Ret tt, s') ∧ c_mem s' = c_mem s ∧
    ∀ pathname, xh_core_map_info s' !! pathname =
      if first_base s cs pathname is Some _ then xh_core_map_info s !! pathname else None.
Proof using Type.
  intros Hg Htext Hcs Hmi. unfold xh_core_refresh_impl.
  rewrite (CM_bind_Ret _ _ s (k_maps (c_mem s)) s), Htext by done.
  destruct (refresh_each_idle s [] cs s ∅ Hg) as (s' & t' & Hrun & Hs' & Hm').
  { split; [done|]. intros p. by rewrite lookup_empty. }
  { done. }
  rewrite <- (refresh_loop_each _ _ _ _ _ Hcs) in Hrun. rewrite (CM_bind_Ret _ _ _ _ _ Hrun).
  eexists. split; [reflexivity|]. split; [apply Hs'|]. intros p. cbn [xh_core_map_info with_maps].
  apply Hm'.
Qed.

(** ** Life cycle *)

(** registration and ignoring. A call that returns 0 has appended one info,
    at the tail of its queue; any other result has changed no queue; nothing
    else is touched. *)
Theorem register_appends pathname symbol new old s r s' :
  xh_core_register pathname symbol new old s = (Ret r, s') →
  c_mem s' = c_mem s ∧ c_sig s' = c_sig s ∧ c_flags s' = c_flags s ∧
  xh_core_map_info s' = xh_core_map_info s ∧ xh_core_ignore_info s' = xh_core_ignore_info s ∧
  (r ≠ 0 → xh_core_hook_info s' = xh_core_hook_info s) ∧
  (r = 0 → xh_core_inited (c_flags s) = 0 ∧ new ≠ 0 ∧ ∃ p sym regex,
     pathname = Some p ∧ symbol = Some sym ∧ regcomp p = Some regex ∧
     xh_core_hook_info s' = xh_core_hook_info s ++ [HookInfo regex sym new old]).
Proof using Type.
  unfold xh_core_register. destruct pathname as [p|]; [|by intros [= <- <-]].
  destruct symbol as [sym|]; [|by intros [= <- <-]].
  destruct (Z.eqb_spec new 0); [by intros [= <- <-]|].
  intros (i & s1 & [= <- <-] & H)%CM_bind_inv.
  destruct (truthy (xh_core_inited (c_flags s))) eqn:Hi; [by injection H as <- <-|].
  destruct (regcomp p) as [regex|] eqn:Hre; [|by injection H as <- <-].
  assert (Hmal : ∀ s b s', malloc s = (Ret b, s') → ∃ a, s' = with_env a (c_syscalls s) s ∨ s' = s).
  { intros t b t'. unfold malloc. destruct (c_allocs t) as [|b' l]; intros [= <- <-].
    - exists []. by right.
    - exists l. by left. }
  apply CM_bind_inv in H as (b1 & s1 & Ha1 & H).
  assert (E1 : ∃ a, s1 = with_env a (c_syscalls s) s ∨ s1 = s) by by eapply Hmal.
  destruct b1; cbn [negb] in H; [|by injection H as <- <-; destruct E1 as [a [-> | ->]]].
  apply CM_bind_inv in H as (b2 & s2 & Ha2 & H). apply Hmal in Ha2 as E2.
  destruct b2; cbn [negb] in H.
  2: { injection H as <- <-. destruct E1 as [a [-> | ->]], E2 as [a2 [-> | ->]]; done. }
  apply CM_bind_inv in H as (u & s3 & Hmod & H). injection H as <- <-. injection Hmod as _ <-.
  assert (Hz : xh_core_inited (c_flags s) = 0).
  { unfold truthy in Hi. by destruct (Z.eqb_spec (xh_core_inited (c_flags s)) 0). }
  destruct E1 as [a [-> | ->]], E2 as [a2 [-> | ->]]; simpl; split_and!; try done; intros _;
    (split; [done|]; split; [done|]); by exists p, sym, regex.
Qed.

Lemma flag_run f s : flag f s = (Ret (truthy (f (c_flags s))), s).
Proof using Type. done. Qed.

Lemma syscall_run s : ∃ r e l, syscall s = (Ret (r, e), with_env (c_allocs s) l s).
Proof using Type.
  unfold syscall. destruct (c_syscalls s) as [|[r e] l] eqn:E; [|by exists r, e, l].
  exists 0, 0, []. destruct s. simpl in *. by subst.
Qed.

(** A first initialisation that works. *)
Lemma init_once_ok s u t :
  xh_core_inited (c_flags s) = 0 → xh_core_init_ok (c_flags s) = 0 →
  truthy (xh_core_sigsegv_enable (c_sig s)) = true →
  xh_core_init_once s = (Ret u, t) → truthy (xh_core_init_ok (c_flags t)) = true →
  c_flags t = set_inited 1 1 (c_flags s) ∧
  c_sig t = set_handlers XhHandler (sig_current (c_sig s)) (c_sig s).
Proof using Type.
  intros Hi Ho Hen. unfold xh_core_init_once.
  rewrite (CM_bind_Ret _ _ _ _ _ (flag_run _ _)), Hi. cbn [truthy negb Z.eqb].
  set (s1 := with_flags (λ f, set_inited 1 (xh_core_init_ok f) f) s).
  rewrite (CM_bind_Ret _ _ s tt s1) by done. intros (r & s2 & Hadd & H)%CM_bind_inv Hok.
  unfold xh_core_add_sigsegv_handler in Hadd.
  rewrite (CM_bind_Ret _ _ s1 (xh_core_sigsegv_enable (c_sig s)) s1), Hen in Hadd by done. cbn [negb] in Hadd.
  destruct (syscall_run s1) as (r1 & e1 & l1 & H1). rewrite (CM_bind_Ret _ _ _ _ _ H1) in Hadd.
  set (s3 := with_env _ l1 s1) in *. destruct (syscall_run s3) as (r2 & e2 & l2 & H2).
  assert (Hbad : ∀ e s', c_flags s' = c_flags s1 → (Ret (errno_or_unknown e), s') = (Ret r, s2) → False).
  { intros e s' Hf [= <- <-]. replace (errno_or_unknown e =? 0) with false in H.
    - cbn [negb] in H. injection H as <- <-. rewrite Hf in Hok. unfold s1 in Hok. simpl in Hok. by rewrite Ho in Hok.
    - unfold errno_or_unknown. destruct (Z.eqb_spec e 0); [done|]. by destruct (Z.eqb_spec e 0). }
  destruct (Z.eqb_spec r1 0); cbn [negb] in Hadd; [|by apply Hbad in Hadd].
  rewrite (CM_bind_Ret _ _ _ _ _ H2) in Hadd.
  destruct (Z.eqb_spec r2 0); cbn [negb] in Hadd; [|by apply Hbad in Hadd].
  injection Hadd as <- <-. injection H as <- <-. done.
Qed.

(** C37: a first refresh that succeeds closes registration and ignoring; a
    clear after it reopens them, empties every collection and gives SIGSEGV the
    disposition it had before, but takes no hook out of memory. *)
Theorem refresh_clear_lifecycle s s1 :
  truthy (xh_core_sigsegv_enable (c_sig s)) = true → c_flags s = CoreFlags 0 0 0 0 0 0 →
  xh_core_refresh fuel 0 s = (Ret 0, s1) →
  (∀ pathname symbol new old,
     xh_core_register (Some pathname) (Some symbol) new old s1 = (Ret XH_ERRNO_INVAL, s1) ∧
     xh_core_ignore (Some pathname) (Some symbol) s1 = (Ret XH_ERRNO_INVAL, s1)) ∧
  ∃ s2, xh_core_clear s1 = (Ret tt, s2) ∧ c_mem s2 = c_mem s1 ∧
    sig_current (c_sig s2) = sig_current (c_sig s) ∧ c_flags s2 = c_flags s ∧
    xh_core_hook_info s2 = [] ∧ xh_core_ignore_info s2 = [] ∧ xh_core_map_info s2 = ∅.
Proof using Type.
  intros Hen Hfl. unfold xh_core_refresh. intros (u & t & Hinit & H)%CM_bind_inv.
  rewrite (CM_bind_Ret _ _ _ _ _ (flag_run _ _)) in H.
  destruct (truthy (xh_core_init_ok (c_flags t))) eqn:Hok; cbn [negb] in H; [|discriminate H].
  destruct (init_once_ok s u t ltac:(by rewrite Hfl) ltac:(by rewrite Hfl) Hen Hinit Hok) as [Htf Hts].
  cbn [truthy negb Z.eqb] in H. apply CM_bind_inv in H as (u' & t' & Href & H). injection H as <-.
  pose proof (keeps_run same_settings _ _ _ _ Href) as Hset. injection Hset as _ _ Hf He _ Ho.
  rewrite Htf, Hfl in Hf. rewrite Hts in He, Ho. cbn in Hf, He, Ho. split.
  - intros p sym new old. unfold xh_core_register, xh_core_ignore.
    unfold flag, mbind, CM_bind, gets. rewrite Hf. simpl. destruct (new =? 0); [done|]. by rewrite Hf.
  - unfold xh_core_clear, clear_stop, clear_rest, xh_core_del_sigsegv_handler, update_flags, flag, when,
      mbind, CM_bind, gets, modify, mret, CM_ret. simpl. rewrite !Hf. simpl. rewrite Hf. simpl.
    rewrite He, Hen. simpl. eexists. split; [reflexivity|]. simpl. rewrite Hf, Ho. by rewrite Hfl.
Qed.

End props.

(** ** Witnesses: the sample image under the sample kernel *)

(** Expressions without metacharacters: the text occurs in the pathname. *)
#[export] Instance literal_regex : Regex := {|
  regex_t := list Z; regcomp := Some; regexec r s := strstr s r
|}.

Definition read_hook : xh_core_hook_info_t := HookInfo (bytes_of_string "libsample") sym_read 0x5555 0.
Definition sample_flags (ok : Z) : core_flags := CoreFlags ok ok 0 0 0 0.
Definition sample_core (handler : sighandler) (ok : Z) (maps : gmap (list Z) xh_core_map_info_t)
  : core_state :=
  CoreState (sample_image true) xh_elf_zero [read_hook] [] maps (SigState 1 0 handler SIG_DFL)
    (sample_flags ok) [] [].
Definition sample_ready : core_state := sample_core XhHandler 1 ∅.

(** The first hook of the file is ignored, the second is not: the file is
    passed over although it has a hook to get. *)
Lemma match_check_suppresses :
  let hooks := [HookInfo (bytes_of_string "lib") sym_open 0x5555 0; read_hook] in
  let ignores := [IgnoreInfo (bytes_of_string "sample") (Some sym_open)] in
  match_check hooks ignores sample_path = false ∧
  selected hooks ignores sample_path = [read_hook].
Proof. vm_compute. by split. Qed.

Lemma sample_ready_guarded : guarded sample_ready ∧ flag_clear sample_ready.
Proof. by vm_compute. Qed.

Lemma refresh_contains_segv_witness :
  wp (xh_core_refresh_impl 4) (λ _ s', flag_clear s') (λ e _, e ≠ Segv) sample_ready ∧
  same_settings sample_ready (xh_core_refresh_impl 4 sample_ready).2.
Proof. apply (refresh_contains_segv 4 sample_ready); apply sample_ready_guarded. Defined.

Lemma refresh_entries_witness :
  let run := xh_core_refresh_impl 4 sample_ready in
  run.1 = Ret tt ∧ mi_base_addr <$> (xh_core_map_info run.2 !! sample_path) = Some SB ∧
  ∃ cs, candidates (maps_lines sample_maps) scan_start = Ret cs ∧
  ∀ pathname mi, xh_core_map_info run.2 !! pathname = Some mi →
    (mi_base_addr mi, pathname) ∈ cs ∧ match_check [read_hook] [] pathname = true.
Proof.
  set (run := xh_core_refresh_impl 4 sample_ready). cbv zeta.
  assert (Hret : run.1 = Ret tt) by (vm_compute; reflexivity).
  split; [exact Hret|]. split; [vm_compute; reflexivity|].
  apply (refresh_entries (K:=sample_kernel) 4 sample_ready run.2 sample_maps eq_refl (run_fst _ _ Hret)).
Defined.

Definition settled : core_state :=
  sample_core XhHandler 1 {[ sample_path := MapInfo SB (sample_elf true) ]}.

Lemma refresh_idle_witness :
  ∃ s', xh_core_refresh_impl 4 settled = (Ret tt, s') ∧ c_mem s' = c_mem settled ∧
    ∀ pathname, xh_core_map_info s' !! pathname =
      if first_base settled [(SB, sample_path)] pathname is Some _
      then xh_core_map_info settled !! pathname else None.
Proof.
  apply (refresh_idle (K:=sample_kernel) 4 settled sample_maps [(SB, sample_path)]).
  - by vm_compute.
  - reflexivity.
  - vm_compute. reflexivity.
  - intros p b Hb. unfold first_base in Hb. simpl in Hb.
    destruct (bool_decide_reflect (sample_path = p)) as [<-|]; [|discriminate Hb].
    exists (MapInfo SB (sample_elf true)). split; [apply lookup_singleton_eq|].
    destruct (accepted _ _) in Hb; [by injection Hb|discriminate Hb].
Defined.

Lemma register_appends_witness :
  let s := sample_core SIG_DFL 0 ∅ in
  let run := xh_core_register (Some (bytes_of_string "sample")) (Some sym_open) 0x7777 0 s in
  run.1 = Ret 0 ∧
  xh_core_hook_info run.2 = [read_hook; HookInfo (bytes_of_string "sample") sym_open 0x7777 0].
Proof.
  cbv zeta. set (s := sample_core SIG_DFL 0 ∅). set (run := xh_core_register _ _ _ _ _).
  assert (Hret : run.1 = Ret 0) by (vm_compute; reflexivity). split; [exact Hret|].
  destruct (register_appends _ _ _ _ _ _ _ (run_fst _ _ Hret)) as (_ & _ & _ & _ & _ & _ & H).
  destruct (H eq_refl) as (_ & _ & p & sym & regex & [= <-] & [= <-] & [= <-] & Hq). exact Hq.
Defined.

Lemma refresh_clear_lifecycle_witness :
  let s := sample_core SIG_DFL 0 ∅ in
  let run := xh_core_refresh 4 0 s in
  run.1 = Ret 0 ∧ number_of (c_mem run.2) 8 (SB + 0x1210) = 0x5555 ∧
  ∃ s2, xh_core_clear run.2 = (Ret tt, s2) ∧ sig_current (c_sig s2) = SIG_DFL.
Proof.
  cbv zeta. set (s := sample_core SIG_DFL 0 ∅). set (run := xh_core_refresh _ _ _).
  assert (Hret : run.1 = Ret 0) by (vm_compute; reflexivity). split; [exact Hret|].
  split; [vm_compute; reflexivity|].
  destruct (refresh_clear_lifecycle (K:=sample_kernel) 4 s run.2 eq_refl eq_refl (run_fst _ _ Hret))
    as (_ & s2 & Hc & _ & Hsig & _). exists s2. split; [exact Hc|exact Hsig].
Defined.
