(* ===== verification/XhAsync.v ===== *)
(** * xh_core.c: the refresh thread

    The asynchronous refresh as a transition system: the refresh thread and one
    client thread, the two mutexes and the condition variable, over the state
    and the operations of xh_core.c.  No wakeup is lost, a request is served,
    and the join of xh_core_clear ends. *)

From S2P Require Import Prelude CMem XhUtil XhElfReloc XhElfTypes XhElfHash XhElfInit XhElfHook.
From S2P Require Import XhElfInitProps Sample XhCore XhCoreProps.

(** ** States *)

(** Where xh_core_refresh_thread_func is. *)
Inductive thread_pc : Set :=
  | TNone      (* no thread *)
  | TTop       (* while(xh_core_refresh_thread_running) *)
  | TLock      (* pthread_mutex_lock(&xh_core_mutex) *)
  | TTest      (* the inner loop's condition, holding the mutex *)
  | TSleep     (* asleep in pthread_cond_wait *)
  | TWake      (* woken, waiting for the mutex *)
  | TRefLock   (* pthread_mutex_lock(&xh_core_refresh_mutex) *)
  | TRefresh   (* xh_core_refresh_impl, holding the refresh mutex *)
  | TExit      (* returned *)
  | TDead.     (* the refresh ended the process, by a fault or an abort *)

(** Where the client is: idle, in xh_core_refresh(1), in xh_core_refresh(0), or
    in xh_core_clear. *)
Inductive client_pc : Set :=
  | CIdle
  | CAsyncInit | CReqLock | CReqSet | CReqSignal | CReqUnlock
  | CSyncLock | CSync
  | CClrLock | CClrSet | CClrSignal | CClrUnlock | CJoin | CClrRest.

Inductive owner : Set := Free | Thread | Client.

#[export] Instance thread_pc_eq_dec : EqDecision thread_pc.
Proof. solve_decision. Defined.
#[export] Instance client_pc_eq_dec : EqDecision client_pc.
Proof. solve_decision. Defined.

(** Checking a predicate on all values of a finite type. *)
Class ForAll (A : Type) : Type := {
  for_all : (A → bool) → bool;
  for_all_spec f : for_all f = true → ∀ x, f x = true
}.
#[export] Instance for_all_bool : ForAll bool.
Proof. refine {| for_all f := f true && f false |}. intros f []%andb_true_iff []; done. Defined.
Lemma forallb_all {A} (l : list A) (f : A → bool) :
  forallb f l = true → (∀ x, In x l) → ∀ x, f x = true.
Proof. intros Hf Hl x. by apply (proj1 (forallb_forall f l) Hf), Hl. Qed.
#[export] Instance for_all_thread : ForAll thread_pc.
Proof.
  refine {| for_all f := forallb f [TNone; TTop; TLock; TTest; TSleep; TWake; TRefLock; TRefresh; TExit; TDead] |}.
  intros f Hf. apply (forallb_all _ _ Hf). intros []; simpl; tauto.
Defined.
#[export] Instance for_all_client : ForAll client_pc.
Proof.
  refine {| for_all f := forallb f [CIdle; CAsyncInit; CReqLock; CReqSet; CReqSignal; CReqUnlock; CSyncLock;
    CSync; CClrLock; CClrSet; CClrSignal; CClrUnlock; CJoin; CClrRest] |}.
  intros f Hf. apply (forallb_all _ _ Hf). intros []; simpl; tauto.
Defined.
#[export] Instance for_all_owner : ForAll owner.
Proof.
  refine {| for_all f := forallb f [Free; Thread; Client] |}.
  intros f Hf. apply (forallb_all _ _ Hf). intros []; simpl; tauto.
Defined.

Section async.
Context {R : Regex} {K : Kernel} (fuel : nat).

Record system : Set := System {
  y_core : core_state;
  y_thread : thread_pc;
  y_client : client_pc;
  y_mutex : owner;
  y_refresh_mutex : owner
}.

Definition running (y : system) : bool := truthy (xh_core_refresh_thread_running (c_flags (y_core y))).
Definition pending (y : system) : bool := truthy (xh_core_refresh_thread_do (c_flags (y_core y))).

(** [pthread_cond_signal(&xh_core_cond)] *)
Definition signalled (t : thread_pc) : thread_pc := match t with TSleep => TWake | t => t end.

(** The state an operation that returns leaves. *)
Definition after {A} (c : M A) (s : core_state) : core_state := (c s).2.

(** ** The refresh thread

    A refresh returns, or a fault or an abort ends the process.  One that is
    out of fuel has no step: it is the one that goes on for ever, as on an
    object whose chain of symbols is a cycle (hash_chain_cycle). *)

Inductive thread_step : system → system → Prop :=
  | t_top_run s c m r :
      running (System s TTop c m r) = true →
      thread_step (System s TTop c m r) (System s TLock c m r)
  | t_top_exit s c m r :
      running (System s TTop c m r) = false →
      thread_step (System s TTop c m r) (System s TExit c m r)
  | t_lock s c r : thread_step (System s TLock c Free r) (System s TTest c Thread r)
  | t_wait s c r :
      pending (System s TTest c Thread r) = false → running (System s TTest c Thread r) = true →
      thread_step (System s TTest c Thread r) (System s TSleep c Free r)
  | t_stop s c r :
      running (System s TTest c Thread r) = false →
      thread_step (System s TTest c Thread r) (System s TExit c Free r)
  | t_take s c r :
      pending (System s TTest c Thread r) = true → running (System s TTest c Thread r) = true →
      thread_step (System s TTest c Thread r)
        (System (after (update_flags (set_do 0)) s) TRefLock c Free r)
  | t_spurious s c m r : thread_step (System s TSleep c m r) (System s TWake c m r)
  | t_relock s c r : thread_step (System s TWake c Free r) (System s TTest c Thread r)
  | t_refresh_lock s c m : thread_step (System s TRefLock c m Free) (System s TRefresh c m Thread)
  | t_refresh s c m s' :
      xh_core_refresh_impl fuel s = (Ret tt, s') →
      thread_step (System s TRefresh c m Thread) (System s' TTop c m Free)
  | t_dies s c m e s' :
      xh_core_refresh_impl fuel s = (Err e, s') → e ≠ OutOfFuel →
      thread_step (System s TRefresh c m Thread) (System s' TDead c m Thread).

(** ** The client *)

(** xh_core_init_async_once has made a thread. *)
Definition created (s s' : core_state) : bool :=
  negb (truthy (xh_core_async_init_ok (c_flags s))) && truthy (xh_core_async_init_ok (c_flags s')).

(** The initialisations take the mutex unless they were done before. *)
Definition may_init (done : core_flags → Z) (s : core_state) (m : owner) : Prop :=
  m = Free ∨ truthy (done (c_flags s)) = true.

Inductive client_step : system → system → Prop :=
  (* xh_core_refresh(1) *)
  | c_init s t m r s' :
      may_init xh_core_inited s m → xh_core_init_once s = (Ret tt, s') →
      truthy (xh_core_init_ok (c_flags s')) = true →
      client_step (System s t CIdle m r) (System s' t CAsyncInit m r)
  | c_init_fails s t m r s' :
      may_init xh_core_inited s m → xh_core_init_once s = (Ret tt, s') →
      truthy (xh_core_init_ok (c_flags s')) = false →
      client_step (System s t CIdle m r) (System s' t CIdle m r)
  | c_init_async s t m r s' :
      may_init xh_core_async_inited s m → xh_core_init_async_once s = (Ret tt, s') →
      truthy (xh_core_async_init_ok (c_flags s')) = true →
      client_step (System s t CAsyncInit m r)
        (System s' (if created s s' then TTop else t) CReqLock m r)
  | c_init_async_fails s t m r s' :
      may_init xh_core_async_inited s m → xh_core_init_async_once s = (Ret tt, s') →
      truthy (xh_core_async_init_ok (c_flags s')) = false →
      client_step (System s t CAsyncInit m r) (System s' t CIdle m r)
  | c_lock s t r : client_step (System s t CReqLock Free r) (System s t CReqSet Client r)
  | c_set s t r :
      client_step (System s t CReqSet Client r)
        (System (after (update_flags (set_do 1)) s) t CReqSignal Client r)
  | c_signal s t r :
      client_step (System s t CReqSignal Client r) (System s (signalled t) CReqUnlock Client r)
  | c_unlock s t r : client_step (System s t CReqUnlock Client r) (System s t CIdle Free r)
  (* xh_core_refresh(0) *)
  | c_sync_init s t m r s' :
      may_init xh_core_inited s m → xh_core_init_once s = (Ret tt, s') →
      truthy (xh_core_init_ok (c_flags s')) = true →
      client_step (System s t CIdle m r) (System s' t CSyncLock m r)
  | c_sync_lock s t m : client_step (System s t CSyncLock m Free) (System s t CSync m Client)
  | c_sync s t m s' :
      xh_core_refresh_impl fuel s = (Ret tt, s') →
      client_step (System s t CSync m Client) (System s' t CIdle m Free)
  (* xh_core_clear *)
  | c_clear s t m r :
      truthy (xh_core_async_init_ok (c_flags s)) = true →
      client_step (System s t CIdle m r) (System s t CClrLock m r)
  | c_clear_direct s t m r :
      truthy (xh_core_async_init_ok (c_flags s)) = false →
      client_step (System s t CIdle m r) (System s t CClrRest m r)
  | c_clear_lock s t r : client_step (System s t CClrLock Free r) (System s t CClrSet Client r)
  | c_clear_set s t r :
      client_step (System s t CClrSet Client r)
        (System (after (update_flags (set_running 0)) s) t CClrSignal Client r)
  | c_clear_signal s t r :
      client_step (System s t CClrSignal Client r) (System s (signalled t) CClrUnlock Client r)
  | c_clear_unlock s t r : client_step (System s t CClrUnlock Client r) (System s t CJoin Free r)
  | c_join s m r : client_step (System s TExit CJoin m r) (System s TNone CClrRest m r)
  | c_clear_rest s t : 
      client_step (System s t CClrRest Free Free) (System (after clear_rest s) t CIdle Free Free).

Definition step (y y' : system) : Prop := thread_step y y' ∨ client_step y y'.

(** At the start there is no thread and the library is in the state it was
    loaded in, or any other with its flags clear. *)
Inductive reachable : system → Prop :=
  | reach_start s : c_flags s = CoreFlags 0 0 0 0 0 0 → reachable (System s TNone CIdle Free Free)
  | reach_step y y' : reachable y → step y y' → reachable y'.

(** ** The invariant *)

(** Where the client holds xh_core_mutex, and where it has stopped the thread. *)
Definition holds_mutex (c : client_pc) : bool :=
  match c with CReqSet | CReqSignal | CReqUnlock | CClrSet | CClrSignal | CClrUnlock => true | _ => false end.
Definition stopping (c : client_pc) : bool :=
  match c with CClrSignal | CClrUnlock | CJoin => true | _ => false end.
(** Where it needs the thread: in a request or before the stop. *)
Definition needs_thread (c : client_pc) : bool :=
  match c with
  | CReqLock | CReqSet | CReqSignal | CReqUnlock | CClrLock | CClrSet | CClrSignal | CClrUnlock | CJoin => true
  | _ => false
  end.
Definition signalling (c : client_pc) : bool :=
  match c with CReqSignal | CClrSignal => true | _ => false end.

Definition is_thread (o : owner) : bool := match o with Thread => true | _ => false end.
Definition is_client (o : owner) : bool := match o with Client => true | _ => false end.
Definition at_test (t : thread_pc) : bool := match t with TTest => true | _ => false end.
Definition refreshing (t : thread_pc) : bool := match t with TRefresh | TDead => true | _ => false end.
Definition no_thread (t : thread_pc) : bool := match t with TNone => true | _ => false end.
Definition asleep (t : thread_pc) : bool := match t with TSleep => true | _ => false end.
Definition exited (t : thread_pc) : bool := match t with TExit => true | _ => false end.
Definition at_sync (c : client_pc) : bool := match c with CSync => true | _ => false end.
Definition at_rest (c : client_pc) : bool := match c with CClrRest => true | _ => false end.

(** Each mutex has the owner the program counters say; the thread exists where
    [xh_core_async_init_ok] says so and where the client relies on it; it is
    told to run unless the client is stopping it, and has exited only then; and it sleeps over a request
    or a stop only while the client is about to signal. *)
Definition inv_at (async_ok async_in run do : bool) (t : thread_pc) (c : client_pc) (m r : owner) : bool :=
  Bool.eqb (is_thread m) (at_test t) && Bool.eqb (is_client m) (holds_mutex c) &&
  Bool.eqb (is_thread r) (refreshing t) && Bool.eqb (is_client r) (at_sync c) &&
  implb async_ok async_in && (at_rest c || Bool.eqb async_ok (negb (no_thread t))) &&
  implb (at_rest c) (no_thread t) && implb (needs_thread c) (negb (no_thread t)) &&
  implb (negb (no_thread t)) (Bool.eqb run (negb (stopping c))) &&
  implb (exited t) (stopping c) && implb (asleep t && (do || negb run)) (signalling c).

Definition inv (y : system) : bool :=
  let f := c_flags (y_core y) in
  inv_at (truthy (xh_core_async_init_ok f)) (truthy (xh_core_async_inited f)) (running y) (pending y)
    (y_thread y) (y_client y) (y_mutex y) (y_refresh_mutex y).

(** *** The flags after each operation *)

Definition async_flags (s : core_state) : Z * Z * Z * Z :=
  let f := c_flags s in
  (xh_core_async_inited f, xh_core_async_init_ok f, xh_core_refresh_thread_running f,
   xh_core_refresh_thread_do f).
Definition same_async (s s' : core_state) : Prop := async_flags s' = async_flags s.

#[local] Instance same_async_preorder : PreOrder same_async.
Proof using Type. split; [done|]. intros s1 s2 s3 H1 H2. unfold same_async in *. congruence. Qed.

#[local] Instance syscall_async : Keeps same_async syscall.
Proof using Type. intros s. unfold syscall. by destruct (c_syscalls s). Qed.

#[local] Instance init_once_async : Keeps same_async xh_core_init_once.
Proof using Type.
  unfold xh_core_init_once, xh_core_add_sigsegv_handler, update_flags, flag. solve_keeps.
Qed.

Lemma refresh_impl_flags s o s' : xh_core_refresh_impl fuel s = (o, s') → c_flags s' = c_flags s.
Proof using Type. intros H. pose proof (keeps_run same_settings _ _ _ _ H) as E. by injection E. Qed.

Lemma clear_rest_flags s :
  c_flags (after clear_rest s) = set_inited 0 0 (set_async_inited 0 0 (c_flags s)).
Proof using Type.
  unfold after, clear_rest, xh_core_del_sigsegv_handler, update_flags, flag, when, mbind, CM_bind, gets, modify.
  simpl. destruct (truthy (xh_core_init_ok _)); simpl; [|done]. by destruct (negb _).
Qed.

Lemma init_async_flags s s' :
  xh_core_init_async_once s = (Ret tt, s') →
  if truthy (xh_core_async_inited (c_flags s)) then s' = s
  else ∃ ok : bool,
    async_flags s' = (1, if ok then 1 else xh_core_async_init_ok (c_flags s), if ok then 1 else 0,
                      xh_core_refresh_thread_do (c_flags s)).
Proof using Type.
  unfold xh_core_init_async_once. rewrite (CM_bind_Ret _ _ _ _ _ (flag_run _ _)).
  destruct (truthy (xh_core_async_inited (c_flags s))) eqn:Hi; [by intros [= <-]|].
  intros (u & s1 & H1 & H)%CM_bind_inv. injection H1 as _ <-.
  apply CM_bind_inv in H as (u2 & s2 & H2 & H). injection H2 as _ <-.
  match type of H with (syscall ≫= _) ?t = _ => destruct (syscall_run t) as (r & e & l & Hs) end.
  rewrite (CM_bind_Ret _ _ _ _ _ Hs) in H. destruct (negb (r =? 0)); injection H as <-.
  - by exists false.
  - by exists true.
Qed.

(** *** Preservation: by cases on the flags, the program counters and the owners *)

Lemma implb_intro b c : implb b c = true → b = true → c = true.
Proof using Type. by destruct b. Qed.

#[local] Ltac by_cases :=
  apply implb_intro;
  repeat match goal with
  | x : _ |- _ = true =>
      lazymatch type of x with
      | bool => idtac | thread_pc => idtac | client_pc => idtac | owner => idtac
      end;
      match goal with
      | |- ?g = true =>
          let h := eval pattern x in g in
          lazymatch h with ?f _ => change (f x = true); apply for_all_spec; clear x end
      end
  end;
  vm_compute; reflexivity.
#[local] Ltac solve_inv :=
  change (truthy 0) with false; change (truthy 1) with true;
  repeat match goal with |- context [truthy ?z] => generalize (truthy z); intros ? end;
  by_cases.

Lemma inv_thread y y' : thread_step y y' → inv y = true → inv y' = true.
Proof using Type.
  destruct 1 as [s c m r Hr|s c m r Hr|s c r|s c r Hp Hr|s c r Hr|s c r Hp Hr|s c m r|s c r|s c m
                |s c m s' Hrun|s c m e s' Hrun _];
    try (apply refresh_impl_flags in Hrun as Hf); unfold inv, running, pending in *; simpl in *;
    rewrite ?Hf, ?Hr, ?Hp; clear; solve_inv.
Qed.

Lemma inv_init_async s t m r s' :
  xh_core_init_async_once s = (Ret tt, s') → inv (System s t CAsyncInit m r) = true →
  (if truthy (xh_core_async_init_ok (c_flags s'))
   then inv (System s' (if created s s' then TTop else t) CReqLock m r)
   else inv (System s' t CIdle m r)) = true.
Proof using Type.
  intros Hrun. apply init_async_flags in Hrun. unfold inv, running, pending, created. simpl.
  destruct (truthy (xh_core_async_inited (c_flags s))) eqn:Hin.
  - subst s'. rewrite Hin. clear. solve_inv.
  - destruct Hrun as (ok & [= -> -> -> ->]). change 1 with (Z.b2z true).
    replace (if ok then Z.b2z true else 0) with (Z.b2z ok) by by destruct ok.
    assert (E : ∀ b, truthy (Z.b2z b) = b) by by intros [].
    replace (truthy (if ok then Z.b2z true else xh_core_async_init_ok (c_flags s)))
      with (ok || truthy (xh_core_async_init_ok (c_flags s))) by by destruct ok.
    rewrite !E. clear. solve_inv.
Qed.

Lemma inv_client y y' : client_step y y' → inv y = true → inv y' = true.
Proof using Type.
  destruct 1 as [s t m r s' Hm Hrun Hok|s t m r s' Hm Hrun Hok|s t m r s' Hm Hrun Hok
    |s t m r s' Hm Hrun Hok|s t r|s t r|s t r|s t r|s t m r s' Hm Hrun Hok|s t m|s t m s' Hrun
    |s t m r Hok|s t m r Hok|s t r|s t r|s t r|s t r|s m r|s t].
  3: { intros Hinv. pose proof (inv_init_async _ _ _ _ _ Hrun Hinv) as H. by rewrite Hok in H. }
  3: { intros Hinv. pose proof (inv_init_async _ _ _ _ _ Hrun Hinv) as H. by rewrite Hok in H. }
  all: try (pose proof (keeps_run same_async _ _ _ _ Hrun) as Hf; injection Hf as E1 E2 E3 E4).
  all: try (apply refresh_impl_flags in Hrun as Hf).
  all: unfold inv, running, pending in *; simpl in *; rewrite ?clear_rest_flags; simpl.
  all: try rewrite Hf; try rewrite E1, E2, E3, E4; try rewrite Hok; clear; solve_inv.
Qed.

Lemma reachable_inv y : reachable y → inv y = true.
Proof using Type.
  induction 1 as [s Hs|y y' Hy IH [Ht|Hc]].
  - unfold inv, running, pending. simpl. by rewrite Hs.
  - by eapply inv_thread.
  - by eapply inv_client.
Qed.

(** ** No wakeup is lost *)

Lemma inv_sleeping aok ain run do t c m r :
  inv_at aok ain run do t c m r = true →
  implb (asleep t && negb (is_client m)) (negb do && run) && negb (refreshing t && at_sync c) = true.
Proof using Type. solve_inv. Qed.

(** C25: in every reachable state the refresh thread sleeps only with nothing
    to do: no refresh is requested and it is to go on running, except while the
    client, still holding the mutex, has yet to signal.  And there is never
    more than one refresh at a time. *)
Theorem no_lost_wakeup y :
  reachable y →
  (y_thread y = TSleep → y_mutex y ≠ Client → pending y = false ∧ running y = true) ∧
  ¬ (y_thread y = TRefresh ∧ y_client y = CSync).
Proof using Type.
  intros H%reachable_inv%inv_sleeping. apply andb_true_iff in H as [H1 H2]. split.
  - intros Ht Hm. rewrite Ht in H1. simpl in H1. destruct (y_mutex y); try done; simpl in H1;
      by destruct (pending y), (running y).
  - intros [Ht Hc]. by rewrite Ht, Hc in H2.
Qed.

(** ** The join of xh_core_clear ends *)

(** Steps the thread has left once it is told to stop. *)
Definition steps_left (t : thread_pc) : nat :=
  match t with TRefLock => 3 | TRefresh | TLock | TWake => 2 | TTop | TTest => 1 | _ => 0 end.
Lemma inv_join aok ain run do t m r :
  inv_at aok ain run do t CJoin m r = true →
  negb run && negb (asleep t) && negb (no_thread t) && negb (is_client m) && negb (is_client r) &&
  Bool.eqb (is_thread m) (at_test t) && Bool.eqb (is_thread r) (refreshing t) = true.
Proof using Type. solve_inv. Qed.

(** A step that the thread makes while the client waits to join. *)
Definition in_refresh (t : thread_pc) : bool := match t with TRefLock | TRefresh => true | _ => false end.

(** The refresh does not go on for ever. *)
Definition refresh_ends (s : core_state) : Prop := (xh_core_refresh_impl fuel s).1 ≠ Err OutOfFuel.

(** Every run from [y] comes to [P], after [n] steps at most, and none stops
    before. *)
Inductive inevitably (P : system → Prop) : nat → system → Prop :=
  | inevitably_now n y : P y → inevitably P n y
  | inevitably_step n y :
      (∃ y', step y y') → (∀ y', step y y' → inevitably P n y') → inevitably P (S n) y.

(** The join is over: it has returned, or there is no process any more. *)
Definition join_over (y : system) : Prop :=
  (y_client y = CClrRest ∧ y_thread y = TNone) ∨ y_thread y = TDead.

(** The thread has returned: all that can happen is the return of the join. *)
Lemma join_returns n s m r : inevitably join_over (S n) (System s TExit CJoin m r).
Proof using Type.
  apply inevitably_step; [eexists; right; constructor|].
  intros y' [Ht|Hc]; [inversion Ht|]. inversion Hc; subst. apply inevitably_now. by left.
Qed.

(** A step towards it, from a state of the thread that is neither returned nor
    dead. *)
Lemma join_step y :
  reachable y → y_client y = CJoin → y_thread y ≠ TExit → y_thread y ≠ TDead →
  (in_refresh (y_thread y) = true → refresh_ends (y_core y)) →
  (∃ y', step y y') ∧
  ∀ y', step y y' → y_client y' = CJoin ∧ (steps_left (y_thread y') < steps_left (y_thread y))%nat ∧
    (in_refresh (y_thread y') = true → refresh_ends (y_core y')).
Proof using Type.
  destruct y as [s t c m r]. simpl. intros H%reachable_inv -> Hx Hd Href.
  unfold inv in H. apply inv_join in H. simpl in H. rewrite !andb_true_iff in H.
  destruct H as ((((((Hrun & Hs) & Hn) & Hmc) & Hrc) & Hm) & Hr). apply negb_true_iff in Hrun.
  split.
  - destruct t; try discriminate; try congruence; destruct m; try discriminate; destruct r; try discriminate;
      try solve [eexists; left; constructor; exact Hrun]; try solve [eexists; left; constructor].
    specialize (Href eq_refl). unfold refresh_ends in Href.
    destruct (xh_core_refresh_impl fuel s) as [[[]|e] s'] eqn:E.
    + eexists. left. by apply t_refresh.
    + eexists. left. eapply t_dies; [exact E|]. by intros ->.
  - intros y' [Ht|Hc]; [|inversion Hc; by subst].
    inversion Ht; subst; simpl in *; try congruence; by (split_and!; [|lia|]).
Qed.

(** C26: once xh_core_clear waits in pthread_join, every run comes to its
    return, after at most four steps, and none stops before; unless the refresh
    the thread is in ends the process.  That refresh, where there is one, does
    not go on for ever: on an object whose chain of symbols is a cycle it does,
    and the join hangs. *)
Theorem join_ends y :
  reachable y → y_client y = CJoin → (in_refresh (y_thread y) = true → refresh_ends (y_core y)) →
  inevitably join_over 4 y.
Proof using Type.
  assert (Hgen : ∀ n y, (steps_left (y_thread y) ≤ n)%nat → reachable y → y_client y = CJoin →
    (in_refresh (y_thread y) = true → refresh_ends (y_core y)) → inevitably join_over (S n) y).
  2: { intros Hy Hc Href. apply Hgen; [|done..]. destruct (y_thread y); simpl; lia. }
  induction n as [|n IH]; intros [s t c m r] Hn Hy Hc Href; cbn [y_client y_thread] in *; subst c;
    (destruct (decide (t = TExit)) as [->|Hx]; [by apply join_returns|]);
    (destruct (decide (t = TDead)) as [->|Hd]; [by apply inevitably_now; right|]);
    destruct (join_step _ Hy eq_refl Hx Hd Href) as [Hex Hall]; cbn [y_thread] in *.
  - destruct Hex as [y' H']. destruct (Hall y' H') as (_ & Hlt & _). lia.
  - apply inevitably_step; [done|]. intros y' H'. destruct (Hall y' H') as (Hc & Hlt & Hr).
    apply IH; [lia|by eapply reach_step|done..].
Qed.

(** ** A request is served *)

Lemma inv_idle aok ain run do t m r :
  inv_at aok ain run do t CIdle m r = true →
  implb (negb (no_thread t)) (run && negb (exited t)) && negb (asleep t && do) && negb (is_client m) &&
  negb (is_client r) && Bool.eqb (is_thread m) (at_test t) && Bool.eqb (is_thread r) (refreshing t) = true.
Proof using Type. solve_inv. Qed.

(** C27: with a request pending and the client elsewhere, the thread by itself
    comes to start a refresh; if it is in the middle of one that returns, it
    comes to start another. *)
Theorem request_served y :
  reachable y → y_client y = CIdle → pending y = true → y_thread y ≠ TNone → y_thread y ≠ TDead →
  (y_thread y = TRefresh → ∃ s', xh_core_refresh_impl fuel (y_core y) = (Ret tt, s')) →
  ∃ y', tc thread_step y y' ∧ y_thread y' = TRefresh.
Proof using Type.
  destruct y as [s t c m r]. simpl. intros H%reachable_inv -> Hp Hnone Hdead Href.
  unfold inv in H. apply inv_idle in H. simpl in H. rewrite !andb_true_iff in H.
  destruct H as (((((Hrun & Hs) & Hmc) & Hrc) & Hm) & Hr). rewrite Hp in Hs.
  assert (Hrun' : running (System s t CIdle m r) = true).
  { destruct (running _); [done|]. by destruct t. }
  (* from the refresh mutex, the test, the lock and the top of the loop *)
  assert (Hlock : ∀ s m, tc thread_step (System s TRefLock CIdle m Free) (System s TRefresh CIdle m Thread))
    by (intros; apply tc_once; constructor).
  set (served y := ∃ y', tc thread_step y y' ∧ y_thread y' = TRefresh).
  assert (Hstep : ∀ y1 y2, thread_step y1 y2 → served y2 → served y1).
  { intros y1 y2 H12 (y3 & H23 & H3). exists y3. split; [by eapply tc_l|done]. }
  set (ready s := ∀ t m r, pending (System s t CIdle m r) = true ∧ running (System s t CIdle m r) = true).
  assert (Htest : ∀ s, ready s → served (System s TTest CIdle Thread Free)).
  { intros s1 H. eapply Hstep; [by apply t_take; apply H|]. by eexists. }
  assert (Htop : ∀ s, ready s → served (System s TTop CIdle Free Free)).
  { intros s1 H. eapply Hstep; [by apply t_top_run; apply H|]. eapply Hstep; [constructor|]. by apply Htest. }
  assert (Hready : ready s) by done. change (served (System s t CIdle m r)).
  rewrite Hrun' in Hrun. destruct t; simpl in *; try discriminate; try done;
    destruct m; try discriminate; destruct r; try discriminate; try (by apply Htop);
    try (by apply Htest); try (eapply Hstep; [constructor|]; by apply Htest); try (by eexists).
  destruct (Href eq_refl) as [s' Hs']. eapply Hstep; [by apply t_refresh|]. apply Htop.
  apply refresh_impl_flags in Hs'. intros t1 m1 r1. unfold pending, running in *. simpl in *. by rewrite Hs'.
Qed.

End async.

(** ** Witnesses: a run from the sample state *)

Definition core_of (o : outcome unit * core_state) : core_state := o.2.
Definition y_start : core_state := sample_core SIG_DFL 0 ∅.
Definition y_inited : core_state := core_of (xh_core_init_once y_start).
Definition y_created : core_state := core_of (xh_core_init_async_once y_inited).
Definition y_requested : core_state := after (update_flags (set_do 1)) y_created.

(** The thread has gone to sleep. *)
Lemma sample_asleep : reachable 4 (System y_created TSleep CReqLock Free Free).
Proof.
  eapply reach_step; [|left; by apply t_wait]. eapply reach_step; [|left; by apply t_lock].
  eapply reach_step; [|left; by apply t_top_run].
  eapply reach_step; [|right; apply (c_init_async 4 y_inited TNone Free Free y_created); [by left|done|done]].
  eapply reach_step; [|right; apply (c_init 4 y_start TNone Free Free y_inited); [by left|done|done]].
  by apply reach_start.
Qed.

(** It has been woken by a request. *)
Lemma sample_requested : reachable 4 (System y_requested TWake CIdle Free Free).
Proof.
  eapply reach_step; [|right; by apply c_unlock]. eapply reach_step; [|right; by apply (c_signal _ _ TSleep)].
  eapply reach_step; [|right; by apply c_set]. eapply reach_step; [|right; by apply c_lock].
  apply sample_asleep.
Qed.

(** It is told to stop in the middle of the refresh. *)
Definition y_taken : core_state := after (update_flags (set_do 0)) y_requested.
Definition y_stopped : core_state := after (update_flags (set_running 0)) y_taken.
Lemma sample_joining : reachable 4 (System y_stopped TRefresh CJoin Free Thread).
Proof.
  eapply reach_step; [|right; by apply c_clear_unlock].
  eapply reach_step; [|right; by apply (c_clear_signal _ _ TRefresh)].
  eapply reach_step; [|right; by apply c_clear_set]. eapply reach_step; [|right; by apply c_clear_lock].
  eapply reach_step; [|right; by apply c_clear].
  eapply reach_step; [|left; by apply t_refresh_lock]. eapply reach_step; [|left; by apply t_take].
  eapply reach_step; [|left; by apply t_relock]. apply sample_requested.
Qed.

Lemma no_lost_wakeup_witness :
  let y := System y_created TSleep CReqLock Free Free in pending y = false ∧ running y = true.
Proof.
  cbv zeta. destruct (no_lost_wakeup 4 _ sample_asleep) as [H _]. apply H; [reflexivity|discriminate].
Defined.

Lemma join_ends_witness : inevitably 4 join_over 4 (System y_stopped TRefresh CJoin Free Thread).
Proof.
  apply (join_ends 4 _ sample_joining); [reflexivity|]. intros _. unfold refresh_ends. vm_compute. discriminate.
Defined.

Lemma request_served_witness :
  ∃ y', tc (thread_step 4) (System y_requested TWake CIdle Free Free) y' ∧ y_thread y' = TRefresh.
Proof. apply (request_served 4 _ sample_requested); [reflexivity..|discriminate|discriminate|discriminate]. Defined.
