(* ===== verification/RbTree.v ===== *)
(** * The red-black tree of libxhook (tree.h)

    The functions that RB_GENERATE_STATIC(xh_core_map_info_tree,
    xh_core_map_info, link, xh_core_map_info_cmp) of xh_core.c generates, over
    a heap of tree heads and nodes.  The nodes are the xh_core_map_info_t
    structures: their [link] fields change, their pathnames do not.  A pointer
    is a [Z], NULL is 0, and following a pointer to no node is a SIGSEGV.
    Loops run on fuel taken from the number of nodes of the heap; RbTreeProps
    shows that it is never used up on a tree. *)

From S2P Require Import Prelude.

Definition RB_BLACK : Z := 0.
Definition RB_RED : Z := 1.

(** RB_ENTRY. *)
Record rb_entry : Set := RbEntry {
  rbe_left : Z;
  rbe_right : Z;
  rbe_parent : Z;
  rbe_color : Z
}.

(** The heap: the heads (RB_HEAD) by address, the [link] and the [pathname] of
    each xh_core_map_info_t by address. *)
Record rb_heap : Set := RbHeap {
  rbh_roots : gmap Z Z;
  rb_links : gmap Z rb_entry;
  pathnames : gmap Z (list Z)
}.

Notation R := (CM rb_heap).

Definition with_roots (r : gmap Z Z) (s : rb_heap) : rb_heap := RbHeap r (rb_links s) (pathnames s).
Definition with_links (l : gmap Z rb_entry) (s : rb_heap) : rb_heap :=
  RbHeap (rbh_roots s) l (pathnames s).

(** ** Accesses *)

Definition node (elm : Z) : R rb_entry := gets rb_links ≫= λ l, lift_opt Segv (l !! elm).
Definition update_node (elm : Z) (f : rb_entry → rb_entry) : R unit :=
  e ← node elm; modify (λ s, with_links (<[elm := f e]> (rb_links s)) s).

Definition RB_LEFT (elm : Z) : R Z := e ← node elm; mret (rbe_left e).
Definition RB_RIGHT (elm : Z) : R Z := e ← node elm; mret (rbe_right e).
Definition RB_PARENT (elm : Z) : R Z := e ← node elm; mret (rbe_parent e).
Definition RB_COLOR (elm : Z) : R Z := e ← node elm; mret (rbe_color e).
Definition RB_ROOT (head : Z) : R Z := gets rbh_roots ≫= λ r, lift_opt Segv (r !! head).

(** Assignments to the same lvalues. *)
Definition set_left (elm v : Z) : R unit :=
  update_node elm (λ e, RbEntry v (rbe_right e) (rbe_parent e) (rbe_color e)).
Definition set_right (elm v : Z) : R unit :=
  update_node elm (λ e, RbEntry (rbe_left e) v (rbe_parent e) (rbe_color e)).
Definition set_parent (elm v : Z) : R unit :=
  update_node elm (λ e, RbEntry (rbe_left e) (rbe_right e) v (rbe_color e)).
Definition set_color (elm v : Z) : R unit :=
  update_node elm (λ e, RbEntry (rbe_left e) (rbe_right e) (rbe_parent e) v).
Definition set_root (head v : Z) : R unit :=
  _ ← RB_ROOT head; modify (λ s, with_roots (<[head := v]> (rbh_roots s)) s).

(** [head] is a local or static variable, which exists. *)
Definition RB_INIT (head : Z) : R unit := modify (λ s, with_roots (<[head := NULL]> (rbh_roots s)) s).

Definition RB_EMPTY (head : Z) : R bool := r ← RB_ROOT head; mret (r =? NULL).

Definition RB_SET (elm parent : Z) : R unit :=
  set_parent elm parent;;
  set_right elm NULL;;
  set_left elm NULL;;
  set_color elm RB_RED.

Definition RB_SET_BLACKRED (black red : Z) : R unit :=
  set_color black RB_BLACK;;
  set_color red RB_RED.

(** xh_core_map_info_cmp: strcmp of the pathnames.  The strings are the bytes
    before the NUL; the result has the sign of the difference of the first
    bytes that differ, as unsigned char. *)
Fixpoint strcmp (s t : list Z) : Z :=
  match s, t with
  | [], [] => 0
  | [], d :: _ => - u8 d
  | c :: _, [] => u8 c
  | c :: s, d :: t => if c =? d then strcmp s t else u8 c - u8 d
  end.

Definition pathname (elm : Z) : R (list Z) := gets pathnames ≫= λ p, lift_opt Segv (p !! elm).

Definition xh_core_map_info_cmp (a b : Z) : R Z :=
  p ← pathname a; q ← pathname b; mret (strcmp p q).

(** ** Rotations *)

(** The part of both rotations and of RB_REMOVE that makes the child pointer
    of [parent], or the root, point to [new] instead of [old]. *)
Definition RB_RELINK (head parent old new : Z) : R unit :=
  if negb (parent =? NULL) then
    l ← RB_LEFT parent;
    if l =? old then set_left parent new else set_right parent new
  else set_root head new.

(** The rotations return [tmp], which the macros leave in a variable. *)
Definition RB_ROTATE_LEFT (head elm : Z) : R Z :=
  tmp ← RB_RIGHT elm;
  b ← RB_LEFT tmp;
  set_right elm b;;
  when (negb (b =? NULL)) (set_parent b elm);;
  parent ← RB_PARENT elm;
  set_parent tmp parent;;
  RB_RELINK head parent elm tmp;;
  set_left tmp elm;;
  set_parent elm tmp;;
  _ ← RB_PARENT tmp;
  mret tmp.

Definition RB_ROTATE_RIGHT (head elm : Z) : R Z :=
  tmp ← RB_LEFT elm;
  b ← RB_RIGHT tmp;
  set_left elm b;;
  when (negb (b =? NULL)) (set_parent b elm);;
  parent ← RB_PARENT elm;
  set_parent tmp parent;;
  RB_RELINK head parent elm tmp;;
  set_right tmp elm;;
  set_parent elm tmp;;
  _ ← RB_PARENT tmp;
  mret tmp.

(** ** Rebalancing *)

(** An upper bound on the length of a path. *)
Definition rb_fuel (s : rb_heap) : nat := S (size (rb_links s)).

(** [x && RB_COLOR(x) == RB_RED]. *)
Definition is_red (x : Z) : R bool :=
  if x =? NULL then mret false else c ← RB_COLOR x; mret (c =? RB_RED).

(** [x == NULL || RB_COLOR(x) == RB_BLACK]. *)
Definition is_black (x : Z) : R bool :=
  if x =? NULL then mret true else c ← RB_COLOR x; mret (c =? RB_BLACK).

(** One iteration, with [parent] red, and its [gparent]: the next [elm]. *)
Definition insert_color_left (head gparent parent elm : Z) : R Z :=
  tmp ← RB_RIGHT gparent;
  red ← is_red tmp;
  if red : bool then
    set_color tmp RB_BLACK;;
    RB_SET_BLACKRED parent gparent;;
    mret gparent
  else
    r ← RB_RIGHT parent;
    '(parent, elm) ← (if r =? elm then
                        RB_ROTATE_LEFT head parent;;
                        mret (elm, parent)
                      else mret (parent, elm));
    RB_SET_BLACKRED parent gparent;;
    RB_ROTATE_RIGHT head gparent;;
    mret elm.

Definition insert_color_right (head gparent parent elm : Z) : R Z :=
  tmp ← RB_LEFT gparent;
  red ← is_red tmp;
  if red : bool then
    set_color tmp RB_BLACK;;
    RB_SET_BLACKRED parent gparent;;
    mret gparent
  else
    l ← RB_LEFT parent;
    '(parent, elm) ← (if l =? elm then
                        RB_ROTATE_RIGHT head parent;;
                        mret (elm, parent)
                      else mret (parent, elm));
    RB_SET_BLACKRED parent gparent;;
    RB_ROTATE_LEFT head gparent;;
    mret elm.

Fixpoint insert_color_loop (fuel : nat) (head elm : Z) : R unit :=
  match fuel with
  | O => fail OutOfFuel
  | S fuel =>
      parent ← RB_PARENT elm;
      red ← is_red parent;
      if red : bool then
        gparent ← RB_PARENT parent;
        l ← RB_LEFT gparent;
        elm ← (if parent =? l then insert_color_left head gparent parent elm
               else insert_color_right head gparent parent elm);
        insert_color_loop fuel head elm
      else mret tt
  end.

Definition RB_INSERT_COLOR (head elm : Z) : R unit :=
  fuel ← gets rb_fuel;
  insert_color_loop fuel head elm;;
  root ← RB_ROOT head;
  set_color root RB_BLACK.

(** One iteration with [elm] a left child: the [parent] and the [elm] of the
    next iteration, or [None] for the [break].  First the part after the case
    of a red sibling. *)
Definition remove_color_left_black (head parent tmp : Z) : R (option (Z * Z)) :=
  l ← RB_LEFT tmp;
  lblack ← is_black l;
  r ← RB_RIGHT tmp;
  rblack ← is_black r;
  if lblack && rblack then
    set_color tmp RB_RED;;
    gparent ← RB_PARENT parent;
    mret (Some (gparent, parent))
  else
    tmp ← (if rblack : bool then
             when (negb (l =? NULL)) (set_color l RB_BLACK);;
             set_color tmp RB_RED;;
             RB_ROTATE_RIGHT head tmp;;
             RB_RIGHT parent
           else mret tmp);
    c ← RB_COLOR parent;
    set_color tmp c;;
    set_color parent RB_BLACK;;
    r ← RB_RIGHT tmp;
    when (negb (r =? NULL)) (set_color r RB_BLACK);;
    RB_ROTATE_LEFT head parent;;
    mret None.

Definition remove_color_left (head parent : Z) : R (option (Z * Z)) :=
  tmp ← RB_RIGHT parent;
  c ← RB_COLOR tmp;
  tmp ← (if c =? RB_RED then
           RB_SET_BLACKRED tmp parent;;
           RB_ROTATE_LEFT head parent;;
           RB_RIGHT parent
         else mret tmp);
  remove_color_left_black head parent tmp.

Definition remove_color_right_black (head parent tmp : Z) : R (option (Z * Z)) :=
  l ← RB_LEFT tmp;
  lblack ← is_black l;
  r ← RB_RIGHT tmp;
  rblack ← is_black r;
  if lblack && rblack then
    set_color tmp RB_RED;;
    gparent ← RB_PARENT parent;
    mret (Some (gparent, parent))
  else
    tmp ← (if lblack : bool then
             when (negb (r =? NULL)) (set_color r RB_BLACK);;
             set_color tmp RB_RED;;
             RB_ROTATE_LEFT head tmp;;
             RB_LEFT parent
           else mret tmp);
    c ← RB_COLOR parent;
    set_color tmp c;;
    set_color parent RB_BLACK;;
    l ← RB_LEFT tmp;
    when (negb (l =? NULL)) (set_color l RB_BLACK);;
    RB_ROTATE_RIGHT head parent;;
    mret None.

Definition remove_color_right (head parent : Z) : R (option (Z * Z)) :=
  tmp ← RB_LEFT parent;
  c ← RB_COLOR tmp;
  tmp ← (if c =? RB_RED then
           RB_SET_BLACKRED tmp parent;;
           RB_ROTATE_RIGHT head parent;;
           RB_LEFT parent
         else mret tmp);
  remove_color_right_black head parent tmp.

(** The [while] loop: the [elm] it ends with. *)
Fixpoint remove_color_loop (fuel : nat) (head parent elm : Z) : R Z :=
  match fuel with
  | O => fail OutOfFuel
  | S fuel =>
      black ← is_black elm;
      root ← RB_ROOT head;
      if black && negb (elm =? root) then
        l ← RB_LEFT parent;
        next ← (if l =? elm then remove_color_left head parent
                else remove_color_right head parent);
        match next with
        | Some (parent, elm) => remove_color_loop fuel head parent elm
        | None => RB_ROOT head
        end
      else mret elm
  end.

Definition RB_REMOVE_COLOR (head parent elm : Z) : R unit :=
  fuel ← gets rb_fuel;
  elm ← remove_color_loop fuel head parent elm;
  when (negb (elm =? NULL)) (set_color elm RB_BLACK).

(** ** Removal *)

(** [while ((left = RB_LEFT(elm)) != NULL) elm = left;] *)
Fixpoint leftmost (fuel : nat) (elm : Z) : R Z :=
  match fuel with
  | O => fail OutOfFuel
  | S fuel =>
      left ← RB_LEFT elm;
      if negb (left =? NULL) then leftmost fuel left else mret elm
  end.

Fixpoint rightmost (fuel : nat) (elm : Z) : R Z :=
  match fuel with
  | O => fail OutOfFuel
  | S fuel =>
      right ← RB_RIGHT elm;
      if negb (right =? NULL) then rightmost fuel right else mret elm
  end.

(** The loop that calls RB_AUGMENT, which is empty, on the ancestors. *)
Fixpoint augment_up (fuel : nat) (left : Z) : R unit :=
  match fuel with
  | O => fail OutOfFuel
  | S fuel =>
      left ← RB_PARENT left;
      if negb (left =? NULL) then augment_up fuel left else mret tt
  end.

(** Unlinks [elm], which has at most the child [child]: the code before
    [color:], and, in the case of two children, before the comparison with
    [old].  Returns [parent] and [color]. *)
Definition rb_unlink (head elm child : Z) : R (Z * Z) :=
  parent ← RB_PARENT elm;
  color ← RB_COLOR elm;
  when (negb (child =? NULL)) (set_parent child parent);;
  RB_RELINK head parent elm child;;
  mret (parent, color).

(** Puts [elm] in the place of [old]. *)
Definition rb_replace (head old elm : Z) : R unit :=
  e ← node old;
  update_node elm (λ _, e);;
  parent ← RB_PARENT old;
  RB_RELINK head parent old elm;;
  left ← RB_LEFT old;
  set_parent left elm;;
  right ← RB_RIGHT old;
  when (negb (right =? NULL)) (set_parent right elm).

Definition RB_REMOVE (head elm : Z) : R Z :=
  let old := elm in
  fuel ← gets rb_fuel;
  left ← RB_LEFT elm;
  right ← RB_RIGHT elm;
  '(child, parent, color) ←
    (if left =? NULL then
       '(parent, color) ← rb_unlink head elm right;
       mret (right, parent, color)
     else if right =? NULL then
       '(parent, color) ← rb_unlink head elm left;
       mret (left, parent, color)
     else
       elm ← leftmost fuel right;
       child ← RB_RIGHT elm;
       '(parent, color) ← rb_unlink head elm child;
       p ← RB_PARENT elm;
       let parent := if p =? old then elm else parent in
       rb_replace head old elm;;
       when (negb (parent =? NULL)) (augment_up fuel parent);;
       mret (child, parent, color));
  when (color =? RB_BLACK) (RB_REMOVE_COLOR head parent child);;
  mret old.

(** ** Insertion and searches *)

(** The descent: the node that compares equal, or the last node and the
    result of the last comparison. *)
Fixpoint insert_descend (fuel : nat) (elm tmp parent comp : Z) : R (Z + Z * Z) :=
  if tmp =? NULL then mret (inr (parent, comp))
  else
    match fuel with
    | O => fail OutOfFuel
    | S fuel =>
        comp ← xh_core_map_info_cmp elm tmp;
        if comp <? 0 then l ← RB_LEFT tmp; insert_descend fuel elm l tmp comp
        else if comp >? 0 then r ← RB_RIGHT tmp; insert_descend fuel elm r tmp comp
        else mret (inl tmp)
    end.

Definition RB_INSERT (head elm : Z) : R Z :=
  fuel ← gets rb_fuel;
  root ← RB_ROOT head;
  found ← insert_descend fuel elm root NULL 0;
  match found with
  | inl tmp => mret tmp
  | inr (parent, comp) =>
      RB_SET elm parent;;
      (if negb (parent =? NULL) then
         if comp <? 0 then set_left parent elm else set_right parent elm
       else set_root head elm);;
      RB_INSERT_COLOR head elm;;
      mret NULL
  end.

Fixpoint find_loop (fuel : nat) (elm tmp : Z) : R Z :=
  if tmp =? NULL then mret NULL
  else
    match fuel with
    | O => fail OutOfFuel
    | S fuel =>
        comp ← xh_core_map_info_cmp elm tmp;
        if comp <? 0 then l ← RB_LEFT tmp; find_loop fuel elm l
        else if comp >? 0 then r ← RB_RIGHT tmp; find_loop fuel elm r
        else mret tmp
    end.

Definition RB_FIND (head elm : Z) : R Z :=
  fuel ← gets rb_fuel; root ← RB_ROOT head; find_loop fuel elm root.

Fixpoint nfind_loop (fuel : nat) (elm tmp res : Z) : R Z :=
  if tmp =? NULL then mret res
  else
    match fuel with
    | O => fail OutOfFuel
    | S fuel =>
        comp ← xh_core_map_info_cmp elm tmp;
        if comp <? 0 then l ← RB_LEFT tmp; nfind_loop fuel elm l tmp
        else if comp >? 0 then r ← RB_RIGHT tmp; nfind_loop fuel elm r res
        else mret tmp
    end.

Definition RB_NFIND (head elm : Z) : R Z :=
  fuel ← gets rb_fuel; root ← RB_ROOT head; nfind_loop fuel elm root NULL.

(** ** Enumeration *)

(** [while (RB_PARENT(elm) && elm == RB_RIGHT(RB_PARENT(elm))) elm =
    RB_PARENT(elm);], and its mirror image. *)
Fixpoint climb_right (fuel : nat) (elm : Z) : R Z :=
  match fuel with
  | O => fail OutOfFuel
  | S fuel =>
      p ← RB_PARENT elm;
      if p =? NULL then mret elm
      else r ← RB_RIGHT p; if elm =? r then climb_right fuel p else mret elm
  end.

Fixpoint climb_left (fuel : nat) (elm : Z) : R Z :=
  match fuel with
  | O => fail OutOfFuel
  | S fuel =>
      p ← RB_PARENT elm;
      if p =? NULL then mret elm
      else l ← RB_LEFT p; if elm =? l then climb_left fuel p else mret elm
  end.

(** [RB_PARENT(elm) && elm == RB_LEFT(RB_PARENT(elm))], and its mirror. *)
Definition is_left_child (elm : Z) : R bool :=
  p ← RB_PARENT elm;
  if p =? NULL then mret false else l ← RB_LEFT p; mret (elm =? l).
Definition is_right_child (elm : Z) : R bool :=
  p ← RB_PARENT elm;
  if p =? NULL then mret false else r ← RB_RIGHT p; mret (elm =? r).

Definition RB_NEXT (elm : Z) : R Z :=
  fuel ← gets rb_fuel;
  right ← RB_RIGHT elm;
  if negb (right =? NULL) then leftmost fuel right
  else
    b ← is_left_child elm;
    if b : bool then RB_PARENT elm
    else elm ← climb_right fuel elm; RB_PARENT elm.

Definition RB_PREV (elm : Z) : R Z :=
  fuel ← gets rb_fuel;
  left ← RB_LEFT elm;
  if negb (left =? NULL) then rightmost fuel left
  else
    b ← is_right_child elm;
    if b : bool then RB_PARENT elm
    else elm ← climb_left fuel elm; RB_PARENT elm.

Fixpoint minmax_loop (fuel : nat) (val tmp parent : Z) : R Z :=
  if tmp =? NULL then mret parent
  else
    match fuel with
    | O => fail OutOfFuel
    | S fuel =>
        next ← (if val <? 0 then RB_LEFT tmp else RB_RIGHT tmp);
        minmax_loop fuel val next tmp
    end.

Definition RB_MINMAX (head val : Z) : R Z :=
  fuel ← gets rb_fuel; root ← RB_ROOT head; minmax_loop fuel val root NULL.

Definition RB_NEGINF : Z := -1.
Definition RB_INF : Z := 1.
Definition RB_MIN (head : Z) : R Z := RB_MINMAX head RB_NEGINF.
Definition RB_MAX (head : Z) : R Z := RB_MINMAX head RB_INF.

(** RB_FOREACH with a body that collects what it visits, and in reverse. *)
Fixpoint foreach_loop (fuel : nat) (next : Z → R Z) (x : Z) : R (list Z) :=
  if x =? NULL then mret []
  else
    match fuel with
    | O => fail OutOfFuel
    | S fuel => y ← next x; xs ← foreach_loop fuel next y; mret (x :: xs)
    end.

Definition RB_FOREACH (head : Z) : R (list Z) :=
  fuel ← gets rb_fuel; x ← RB_MIN head; foreach_loop fuel RB_NEXT x.
Definition RB_FOREACH_REVERSE (head : Z) : R (list Z) :=
  fuel ← gets rb_fuel; x ← RB_MAX head; foreach_loop fuel RB_PREV x.

(** RB_FOREACH_SAFE with a body: [y] is read before the body runs. *)
Fixpoint foreach_safe_loop (fuel : nat) (body : Z → R unit) (x : Z) : R unit :=
  if x =? NULL then mret tt
  else
    match fuel with
    | O => fail OutOfFuel
    | S fuel => y ← RB_NEXT x; body x;; foreach_safe_loop fuel body y
    end.

Definition RB_FOREACH_SAFE (head : Z) (body : Z → R unit) : R unit :=
  fuel ← gets rb_fuel; x ← RB_MIN head; foreach_safe_loop fuel body x.

(** ** The uses of xh_core.c *)

(** free(mi->pathname); free(mi). *)
Definition free_map_info (mi : Z) : R unit :=
  _ ← pathname mi;
  _ ← node mi;
  modify (λ s, RbHeap (rbh_roots s) (delete mi (rb_links s)) (delete mi (pathnames s))).

(** A new node: the links of malloc'ed memory are [junk]. *)
Definition new_map_info (mi : Z) (p : list Z) (junk : rb_entry) : R unit :=
  modify (λ s, RbHeap (rbh_roots s) (<[mi := junk]> (rb_links s)) (<[mi := p]> (pathnames s))).

(** The end of xh_core_refresh_impl, and a part of xh_core_clear: what is in
    the tree is removed and freed. *)
Definition free_all_map_info (head : Z) : R unit :=
  RB_FOREACH_SAFE head (λ mi, RB_REMOVE head mi;; free_map_info mi).

(** "check existed map item": the node with the pathname of [mi_key] moves
    from the tree [head] to the tree [refreshed], or a new one, which is [mi],
    comes into it.  A node that is there already stays.  The node that was
    added, NULL after [continue]. *)
Definition refresh_map_info (head refreshed mi_key mi : Z) (junk : rb_entry) : R Z :=
  found ← RB_FIND head mi_key;
  if negb (found =? NULL) then
    RB_REMOVE head found;;
    r ← RB_INSERT refreshed found;
    if negb (r =? NULL) then free_map_info found;; mret NULL else mret found
  else
    p ← pathname mi_key;
    new_map_info mi p junk;;
    r ← RB_INSERT refreshed mi;
    if negb (r =? NULL) then free_map_info mi;; mret NULL else mret mi.

(** [xh_core_map_info = map_info_refreshed]. *)
Definition assign_head (head refreshed : Z) : R unit :=
  r ← RB_ROOT refreshed; set_root head r.

(** The candidates of a refresh that passed the checks, in the order of
    /proc/self/maps: [mi_key.pathname] is set, then the item is looked up.  An
    item has the pathname, and the address and the contents of the structure
    malloc would return for it. *)
Definition refresh_line : Type := list Z * Z * rb_entry.

Fixpoint refresh_trees (head refreshed mi_key : Z) (items : list refresh_line) : R unit :=
  match items with
  | [] => mret tt
  | (p, mi, junk) :: items =>
      modify (λ s, RbHeap (rbh_roots s) (rb_links s) (<[mi_key := p]> (pathnames s)));;
      refresh_map_info head refreshed mi_key mi junk;;
      refresh_trees head refreshed mi_key items
  end.

(** The trees of xh_core_refresh_impl: [refreshed] is a local variable. *)
Definition refresh_impl_trees (head refreshed mi_key : Z) (items : list refresh_line) : R unit :=
  RB_INIT refreshed;;
  refresh_trees head refreshed mi_key items;;
  free_all_map_info head;;
  assign_head head refreshed.
