(* ===== verification/RbTreeRep.v ===== *)
(** * Trees in the heap of tree.h

    The algebraic trees that the heaps of RbTree represent, trees seen from a
    node (a context and the subtree at the node), and the effect of each
    access and of each relinking step of tree.h on them.  What an operation
    leaves alone is the relation [only]. *)

From S2P Require Import Prelude RbTree.

Inductive tree : Set :=
  | E
  | T (c : Z) (l : tree) (x : Z) (r : tree).

Definition root (t : tree) : Z := match t with E => NULL | T _ _ x _ => x end.

(** The nodes in the order of a traversal. *)
Fixpoint elements (t : tree) : list Z :=
  match t with E => [] | T _ l x r => elements l ++ x :: elements r end.

Fixpoint height (t : tree) : nat :=
  match t with E => 0%nat | T _ l _ r => S (height l `max` height r) end.

(** The nodes of [t], below the parent [p], are in the heap. *)
Fixpoint rep (m : gmap Z rb_entry) (p : Z) (t : tree) : Prop :=
  match t with
  | E => True
  | T c l x r => m !! x = Some (RbEntry (root l) (root r) p c) ∧ rep m x l ∧ rep m x r
  end.

(** ** Contexts: the path from a node up to the root *)

Inductive frame : Set :=
  | FL (c x : Z) (r : tree)   (* the hole is the left child of [x] *)
  | FR (c x : Z) (l : tree).  (* the hole is the right child of [x] *)

Fixpoint plug (k : list frame) (t : tree) : tree :=
  match k with
  | [] => t
  | FL c x r :: k => plug k (T c t x r)
  | FR c x l :: k => plug k (T c l x t)
  end.

(** The parent of the hole. *)
Definition cpar (k : list frame) : Z :=
  match k with [] => NULL | FL _ x _ :: _ | FR _ x _ :: _ => x end.

(** The root, when the root of the hole is [f]. *)
Fixpoint croot (k : list frame) (f : Z) : Z :=
  match k with [] => f | FL _ x _ :: k | FR _ x _ :: k => croot k x end.

(** The nodes before and after the hole. *)
Fixpoint before (k : list frame) : list Z :=
  match k with
  | [] => []
  | FL _ _ _ :: k => before k
  | FR _ x l :: k => before k ++ elements l ++ [x]
  end.
Fixpoint after (k : list frame) : list Z :=
  match k with
  | [] => []
  | FL _ x r :: k => x :: elements r ++ after k
  | FR _ _ _ :: k => after k
  end.

Definition els (k : list frame) (t : tree) : list Z := before k ++ elements t ++ after k.

(** The context is in the heap, with a hole filled by the node [f]. *)
Fixpoint repc (m : gmap Z rb_entry) (f : Z) (k : list frame) : Prop :=
  match k with
  | [] => True
  | FL c x r :: k => m !! x = Some (RbEntry f (root r) (cpar k) c) ∧ rep m x r ∧ repc m x k
  | FR c x l :: k => m !! x = Some (RbEntry (root l) f (cpar k) c) ∧ rep m x l ∧ repc m x k
  end.

(** The tree under [hd] is [plug k t]. *)
Record tree_at (hd : Z) (k : list frame) (t : tree) (s : rb_heap) : Prop := TreeAt {
  ta_root : rbh_roots s !! hd = Some (croot k (root t));
  ta_ctx : repc (rb_links s) (root t) k;
  ta_rep : rep (rb_links s) (cpar k) t;
  ta_nodup : NoDup (els k t);
  ta_null : NULL ∉ els k t
}.

(** [s'] is [s] but for the head [hd] and the links of the nodes in [D]. *)
Record only (hd : Z) (D : list Z) (s s' : rb_heap) : Prop := Only {
  only_roots : ∀ h, h ≠ hd → rbh_roots s' !! h = rbh_roots s !! h;
  only_links : ∀ a, a ∉ D → rb_links s' !! a = rb_links s !! a;
  only_dom : dom (rb_links s') = dom (rb_links s);
  only_names : pathnames s' = pathnames s
}.

(** [m] returns normally, with [Q]. *)
Notation runs m Q s := (wp m Q (λ _ _, False) s).

(** ** Trees and contexts *)

Lemma root_plug k t : root (plug k t) = croot k (root t).
Proof. revert t. induction k as [|[c x r|c x l] k IH]; intros t; simpl; [done|..]; by rewrite IH. Qed.

Lemma plug_app k k' t : plug (k ++ k') t = plug k' (plug k t).
Proof. revert t. induction k as [|[c x r|c x l] k IH]; intros t; simpl; [done|..]; by rewrite IH. Qed.

Lemma elements_plug k t : elements (plug k t) = els k t.
Proof.
  unfold els. revert t. induction k as [|[c x r|c x l] k IH]; intros t; simpl.
  - by rewrite app_nil_r.
  - rewrite IH. simpl. by rewrite <- !app_assoc.
  - rewrite IH. simpl. by rewrite <- !app_assoc.
Qed.

Lemma els_plug k k' t : els k (plug k' t) = els (k' ++ k) t.
Proof. by rewrite <- !elements_plug, plug_app. Qed.

Lemma before_app k k' : before (k ++ k') = before k' ++ before k.
Proof.
  induction k as [|[c x r|c x l] k IH]; simpl; [by rewrite app_nil_r|done|]. by rewrite IH, <- app_assoc.
Qed.

Lemma after_app k k' : after (k ++ k') = after k ++ after k'.
Proof.
  induction k as [|[c x r|c x l] k IH]; simpl; [done| |done]. by rewrite IH, <- app_assoc.
Qed.

Lemma croot_app k k' f : croot (k ++ k') f = croot k' (croot k f).
Proof. revert f. induction k as [|[c x r|c x l] k IH]; intros f; simpl; [done|..]; by rewrite IH. Qed.

Lemma length_els k t : length (els k t) = (length (before k) + length (elements t) + length (after k))%nat.
Proof. unfold els. rewrite !length_app. lia. Qed.

Lemma ctx_length k : (length k ≤ length (before k) + length (after k))%nat.
Proof.
  induction k as [|[c x r|c x l] k IH]; simpl; [lia|..]; rewrite ?length_app; simpl; lia.
Qed.

Lemma height_elements t : (height t ≤ length (elements t))%nat.
Proof. induction t as [|c l IHl x r IHr]; simpl; [lia|]. rewrite length_app. simpl. lia. Qed.

(** *** Agreement *)

Lemma rep_agree m m' p t :
  (∀ a, a ∈ elements t → m' !! a = m !! a) → rep m p t → rep m' p t.
Proof.
  revert p. induction t as [|c l IHl x r IHr]; intros p Ha; simpl; [done|]. intros (Hx & Hl & Hr).
  split_and!.
  - rewrite Ha; [done|]. simpl. set_solver.
  - apply IHl; [|done]. intros a Hin. apply Ha. simpl. set_solver.
  - apply IHr; [|done]. intros a Hin. apply Ha. simpl. set_solver.
Qed.

Lemma repc_agree m m' f k :
  (∀ a, a ∈ before k ++ after k → m' !! a = m !! a) → repc m f k → repc m' f k.
Proof.
  revert f. induction k as [|[c x r|c x l] k IH]; intros f Ha; simpl; [done|..]; intros (Hx & Hs & Hk);
    simpl in Ha; (split_and!; [rewrite Ha; [done|set_solver]
                              |eapply rep_agree; [|done]; intros; apply Ha; set_solver
                              |apply IH; [|done]; intros; apply Ha; set_solver]).
Qed.

(** ** [only] *)

Lemma only_refl hd D s : only hd D s s.
Proof. by split. Qed.

Lemma only_trans hd D s1 s2 s3 : only hd D s1 s2 → only hd D s2 s3 → only hd D s1 s3.
Proof.
  intros [R1 L1 D1 N1] [R2 L2 D2 N2]. split.
  - intros h Hh. by rewrite R2, R1.
  - intros a Ha. by rewrite L2, L1.
  - congruence.
  - congruence.
Qed.

Lemma only_mono hd D D' s s' : D ⊆ D' → only hd D s s' → only hd D' s s'.
Proof. intros HD [R1 L1 D1 N1]. split; [done| |done|done]. intros a Ha. apply L1. set_solver. Qed.

Lemma only_update hd D s a e :
  a ∈ D → is_Some (rb_links s !! a) → only hd D s (with_links (<[a := e]> (rb_links s)) s).
Proof.
  intros Ha Hs. split; cbn; [done| | |done].
  - intros b Hb. apply lookup_insert_ne. intros ->. done.
  - apply elem_of_dom in Hs. rewrite dom_insert_L. set_solver.
Qed.

Lemma only_root hd D s v : only hd D s (with_roots (<[hd := v]> (rbh_roots s)) s).
Proof. split; cbn; [|done..]. intros h Hh. by apply lookup_insert_ne. Qed.

(** ** Accesses *)

Section accesses.
Context (Ef : fault → rb_heap → Prop).

Lemma wp_node (Q : rb_entry → rb_heap → Prop) s x e :
  rb_links s !! x = Some e → Q e s → wp (node x) Q Ef s.
Proof. intros He HQ. unfold node. apply wp_bind, wp_gets. rewrite He. by apply wp_ret. Qed.

Lemma wp_update_node (Q : unit → rb_heap → Prop) s x e f :
  rb_links s !! x = Some e → Q tt (with_links (<[x := f e]> (rb_links s)) s) →
  wp (update_node x f) Q Ef s.
Proof. intros He HQ. unfold update_node. by eapply wp_bind, wp_node. Qed.

Lemma wp_RB_LEFT (Q : Z → rb_heap → Prop) s x e :
  rb_links s !! x = Some e → Q (rbe_left e) s → wp (RB_LEFT x) Q Ef s.
Proof. intros He HQ. unfold RB_LEFT. by eapply wp_bind, wp_node. Qed.
Lemma wp_RB_RIGHT (Q : Z → rb_heap → Prop) s x e :
  rb_links s !! x = Some e → Q (rbe_right e) s → wp (RB_RIGHT x) Q Ef s.
Proof. intros He HQ. unfold RB_RIGHT. by eapply wp_bind, wp_node. Qed.
Lemma wp_RB_PARENT (Q : Z → rb_heap → Prop) s x e :
  rb_links s !! x = Some e → Q (rbe_parent e) s → wp (RB_PARENT x) Q Ef s.
Proof. intros He HQ. unfold RB_PARENT. by eapply wp_bind, wp_node. Qed.
Lemma wp_RB_COLOR (Q : Z → rb_heap → Prop) s x e :
  rb_links s !! x = Some e → Q (rbe_color e) s → wp (RB_COLOR x) Q Ef s.
Proof. intros He HQ. unfold RB_COLOR. by eapply wp_bind, wp_node. Qed.

Lemma wp_RB_ROOT (Q : Z → rb_heap → Prop) s hd r :
  rbh_roots s !! hd = Some r → Q r s → wp (RB_ROOT hd) Q Ef s.
Proof. intros Hr HQ. unfold RB_ROOT. apply wp_bind, wp_gets. rewrite Hr. by apply wp_ret. Qed.

Lemma wp_set_root (Q : unit → rb_heap → Prop) s hd r v :
  rbh_roots s !! hd = Some r → Q tt (with_roots (<[hd := v]> (rbh_roots s)) s) → wp (set_root hd v) Q Ef s.
Proof. intros Hr HQ. unfold set_root. by eapply wp_bind, wp_RB_ROOT. Qed.

End accesses.

(** Steps over one access, whose node a hypothesis or [simplify_map_eq] gives. *)
Ltac rb_find := first [eassumption | by simplify_map_eq].
Ltac rb_step :=
  lazymatch goal with
  | |- wp (RB_LEFT _) _ _ _ => eapply wp_RB_LEFT; [rb_find|]
  | |- wp (RB_RIGHT _) _ _ _ => eapply wp_RB_RIGHT; [rb_find|]
  | |- wp (RB_PARENT _) _ _ _ => eapply wp_RB_PARENT; [rb_find|]
  | |- wp (RB_COLOR _) _ _ _ => eapply wp_RB_COLOR; [rb_find|]
  | |- wp (node _) _ _ _ => eapply wp_node; [rb_find|]
  | |- wp (RB_ROOT _) _ _ _ => eapply wp_RB_ROOT; [rb_find|]
  | |- wp (set_root _ _) _ _ _ => eapply wp_set_root; [rb_find|]
  | |- wp (set_left _ _) _ _ _ => eapply wp_update_node; [rb_find|]
  | |- wp (set_right _ _) _ _ _ => eapply wp_update_node; [rb_find|]
  | |- wp (set_parent _ _) _ _ _ => eapply wp_update_node; [rb_find|]
  | |- wp (set_color _ _) _ _ _ => eapply wp_update_node; [rb_find|]
  | |- wp (update_node _ _) _ _ _ => eapply wp_update_node; [rb_find|]
  | |- wp (mbind _ _) _ _ _ => apply wp_bind
  | |- wp (mret _) _ _ _ => apply wp_ret
  end; cbn [rbe_left rbe_right rbe_parent rbe_color rb_links with_links rbh_roots with_roots root].

(** ** Relinking steps *)

(** The links of [s'] are those of [s] on the nodes of a list disjoint from
    the written ones. *)
Definition agree (D : list Z) (s s' : rb_heap) : Prop :=
  ∀ a, a ∈ D → rb_links s' !! a = rb_links s !! a.

(** [if (x) RB_PARENT(x) = p], on the root of a tree. *)
Lemma wp_adopt (Q : unit → rb_heap → Prop) s q p t hd :
  rep (rb_links s) q t → NoDup (elements t) → NULL ∉ elements t →
  (∀ s', rep (rb_links s') p t → only hd (elements t) s s' → rbh_roots s' = rbh_roots s → Q tt s') →
  runs (when (negb (root t =? NULL)) (set_parent (root t) p)) Q s.
Proof.
  intros Ht Hnd H0 HQ. destruct t as [|c l x r]; simpl in *.
  { apply HQ; [done|apply only_refl|done]. }
  destruct Ht as (Hx & Hl & Hr). rewrite (proj2 (Z.eqb_neq x NULL)) by elem_solve. simpl.
  rb_step. apply HQ; [|apply only_update; [elem_solve|by eexists]|done]. nodup_split. cbn.
  split_and!; [by simplify_map_eq|..];
    (eapply rep_agree; [|done]; intros a Ha; apply lookup_insert_ne; elem_solve).
Qed.

Lemma wp_relink (Q : unit → rb_heap → Prop) s hd k old new :
  rbh_roots s !! hd = Some (croot k old) → repc (rb_links s) old k →
  NoDup (before k ++ after k) → NULL ∉ before k ++ after k → old ∉ before k ++ after k → old ≠ NULL →
  (∀ s', rbh_roots s' !! hd = Some (croot k new) → repc (rb_links s') new k →
         only hd (before k ++ after k) s s' → Q tt s') →
  runs (RB_RELINK hd (cpar k) old new) Q s.
Proof.
  intros Hr Hc Hnd H0 Hold Hn HQ. unfold RB_RELINK. destruct k as [|[c x t|c x t] k]; simpl in *.
  - rb_step. apply HQ; [cbn; by simplify_map_eq|done|apply only_root].
  - destruct Hc as (Hx & Ht & Hc). rewrite (proj2 (Z.eqb_neq x NULL)) by elem_solve. simpl.
    do 2 rb_step. rewrite Z.eqb_refl. rb_step.
    apply HQ; [done| |apply only_update; [elem_solve|by eexists]]. nodup_split. cbn.
    split_and!; [by simplify_map_eq
                |eapply rep_agree; [|done]; intros a Ha; apply lookup_insert_ne; elem_solve
                |eapply repc_agree; [|done]; intros a Ha; apply lookup_insert_ne; elem_solve].
  - destruct Hc as (Hx & Ht & Hc). rewrite (proj2 (Z.eqb_neq x NULL)) by elem_solve. simpl.
    do 2 rb_step.
    assert (Hne : root t ≠ old).
    { destruct t as [|? ? y ?]; simpl in *; [done|]. elem_solve. }
    rewrite (proj2 (Z.eqb_neq _ _) Hne). rb_step.
    apply HQ; [done| |apply only_update; [elem_solve|by eexists]]. nodup_split. cbn.
    split_and!; [by simplify_map_eq
                |eapply rep_agree; [|done]; intros a Ha; apply lookup_insert_ne; elem_solve
                |eapply repc_agree; [|done]; intros a Ha; apply lookup_insert_ne; elem_solve].
Qed.

(** *** Rotations *)

Lemma els_rotate k c a x c2 b y z : els k (T c2 (T c a x b) y z) = els k (T c a x (T c2 b y z)).
Proof. unfold els. simpl. by repeat (rewrite <- app_assoc; simpl). Qed.

Lemma only_agree hd D D' s s' :
  only hd D s s' → (∀ a, a ∈ D' → a ∉ D) → agree D' s s'.
Proof. intros [_ HL _ _] HD a Ha. apply HL. by apply HD. Qed.

(** The middle of both rotations: [y] takes the place of [x] under its parent. *)
Lemma wp_lift {A} (K : R A) (Q : A → rb_heap → Prop) hd k x y ex ey s :
  rbh_roots s !! hd = Some (croot k x) → repc (rb_links s) x k →
  rb_links s !! x = Some ex → rbe_parent ex = cpar k → rb_links s !! y = Some ey →
  NoDup (before k ++ after k) → NULL ∉ before k ++ after k →
  x ∉ before k ++ after k → y ∉ before k ++ after k → x ≠ y → x ≠ NULL →
  (∀ s', rbh_roots s' !! hd = Some (croot k y) → repc (rb_links s') y k →
         rb_links s' !! y = Some (RbEntry (rbe_left ey) (rbe_right ey) (cpar k) (rbe_color ey)) →
         (∀ d, d ≠ y → d ∉ before k ++ after k → rb_links s' !! d = rb_links s !! d) →
         only hd (y :: before k ++ after k) s s' → runs K Q s') →
  runs (parent ← RB_PARENT x; set_parent y parent;; RB_RELINK hd parent x y;; K) Q s.
Proof.
  intros Hr Hc Hx Hp Hy Hnd H0 Hxk Hyk Hxy Hx0 HQ. do 4 rb_step. rewrite Hp.
  apply wp_bind, (wp_relink _ _ hd k x y); [done| |done..|].
  { eapply repc_agree; [|done]. intros d Hd. apply lookup_insert_ne. elem_solve. }
  intros s' Hr' Hc' Ho'. pose proof (only_links _ _ _ _ Ho') as HL. cbn in HL. apply HQ; [done..| | |].
  - rewrite HL by done. apply lookup_insert_eq.
  - intros d ? ?. rewrite HL by done. by apply lookup_insert_ne.
  - eapply only_trans; [apply (only_update _ _ _ y); [elem_solve|by eexists]|].
    eapply only_mono; [|done]. elem_solve.
Qed.

(** A rotation from the adoption of the middle subtree [b] on: [x] loses [y],
    which takes its place; [ex'] and [ey'] are what the last writes make of them. *)
Lemma wp_rotate (Q : Z → rb_heap → Prop) hd k x y ex ey b fy fx s :
  rbh_roots s !! hd = Some (croot k x) → repc (rb_links s) x k →
  rb_links s !! x = Some ex → rbe_parent ex = cpar k → rb_links s !! y = Some ey →
  rep (rb_links s) y b →
  NoDup (before k ++ x :: y :: elements b ++ after k) →
  NULL ∉ before k ++ x :: y :: elements b ++ after k →
  (∀ e, rbe_parent (fy e) = rbe_parent e) →
  (∀ s', rbh_roots s' !! hd = Some (croot k y) → repc (rb_links s') y k → rep (rb_links s') x b →
         rb_links s' !! x = Some (fx ex) →
         rb_links s' !! y = Some (fy (RbEntry (rbe_left ey) (rbe_right ey) (cpar k) (rbe_color ey))) →
         only hd (before k ++ x :: y :: elements b ++ after k) s s' → Q y s') →
  runs (when (negb (root b =? NULL)) (set_parent (root b) x);;
        parent ← RB_PARENT x;
        set_parent y parent;;
        RB_RELINK hd parent x y;;
        update_node y fy;;
        update_node x fx;;
        _ ← RB_PARENT y;
        mret y) Q s.
Proof.
  intros Hr Hc Hx Hp Hy Hb Hnd H0 Hf HQ. nodup_split.
  eapply wp_bind, (wp_adopt _ _ y x b hd); [done..|elem_solve|]. intros s1 Hb1 Ho1 Hr1.
  pose proof (only_links _ _ _ _ Ho1) as HL1.
  apply (wp_lift _ _ hd k x y ex ey).
  { by rewrite Hr1. }
  { eapply repc_agree; [|done]. intros d Hd. apply HL1. elem_solve. }
  { rewrite HL1 by elem_solve. done. } { done. } { rewrite HL1 by elem_solve. done. }
  { elem_solve. } 1-5: elem_solve.
  intros s2 Hr2 Hc2 Hy2 HL2 Ho2.
  assert (Hx2 : rb_links s2 !! x = Some ex). { rewrite HL2, HL1 by elem_solve. done. }
  assert (Hxy : x ≠ y) by elem_solve.
  do 7 rb_step. apply HQ; cbn.
  - done.
  - eapply repc_agree; [|exact Hc2]. intros d ?. rewrite !lookup_insert_ne by elem_solve. done.
  - eapply rep_agree; [|exact Hb1]. intros d ?. rewrite !lookup_insert_ne, HL2 by elem_solve. done.
  - by simplify_map_eq.
  - by simplify_map_eq.
  - eapply only_trans; [eapply only_mono; [|exact Ho1]; elem_solve|].
    eapply only_trans; [eapply only_mono; [|exact Ho2]; elem_solve|].
    eapply (only_trans _ _ _ (with_links _ s2)); [apply (only_update _ _ _ y); [elem_solve|by eexists]|].
    apply (only_update _ _ (with_links _ s2) x); [elem_solve|]. cbn. by simplify_map_eq.
Qed.

Lemma only_first hd D s a e s' :
  a ∈ D → is_Some (rb_links s !! a) → only hd D (with_links (<[a := e]> (rb_links s)) s) s' → only hd D s s'.
Proof. intros Ha Hs Ho. eapply only_trans; [by apply (only_update _ _ _ a e)|done]. Qed.

Lemma wp_rotate_left (Q : Z → rb_heap → Prop) hd k c a x c2 b y z s :
  tree_at hd k (T c a x (T c2 b y z)) s →
  (∀ s', tree_at hd k (T c2 (T c a x b) y z) s' →
         only hd (els k (T c a x (T c2 b y z))) s s' → Q y s') →
  runs (RB_ROTATE_LEFT hd x) Q s.
Proof.
  intros [Hroot Hctx (Hx & Ha & Hy & Hb & Hz) Hnd H0] HQ. cbn [root] in *.
  pose proof Hnd as Hnd'. pose proof H0 as H0'. unfold els in Hnd', H0'. simpl in Hnd', H0'. nodup_split.
  assert (Hxy : x ≠ y) by elem_solve.
  unfold RB_ROTATE_LEFT. do 6 rb_step.
  eapply (wp_rotate _ hd k x y _ _ b); cbn; [done| |apply lookup_insert_eq|done|by simplify_map_eq|..].
  { eapply repc_agree; [|done]. intros d Hd. apply lookup_insert_ne. elem_solve. }
  { eapply rep_agree; [|done]. intros d Hd. apply lookup_insert_ne. elem_solve. }
  { elem_solve. } { elem_solve. } { done. }
  intros s' Hr' Hc' Hb' Hx' Hy' Ho'.
  pose proof (only_links _ _ _ _ Ho') as HL'. cbn in HL'. apply HQ.
  - constructor; [done..| |by rewrite els_rotate|].
    + simpl. split_and!; [done|done| |done|].
      * eapply rep_agree; [|exact Ha]. intros d ?. rewrite HL', lookup_insert_ne by elem_solve. done.
      * eapply rep_agree; [|exact Hz]. intros d ?. rewrite HL', lookup_insert_ne by elem_solve. done.
    + rewrite els_rotate. done.
  - eapply (only_first _ _ _ x); [|by eexists|eapply only_mono; [|exact Ho']]; unfold els; simpl; elem_solve.
Qed.

Lemma wp_rotate_right (Q : Z → rb_heap → Prop) hd k c a x c2 b y z s :
  tree_at hd k (T c (T c2 a y b) x z) s →
  (∀ s', tree_at hd k (T c2 a y (T c b x z)) s' →
         only hd (els k (T c (T c2 a y b) x z)) s s' → Q y s') →
  runs (RB_ROTATE_RIGHT hd x) Q s.
Proof.
  intros [Hroot Hctx (Hx & (Hy & Ha & Hb) & Hz) Hnd H0] HQ. cbn [root] in *.
  pose proof Hnd as Hnd'. pose proof H0 as H0'. unfold els in Hnd', H0'. simpl in Hnd', H0'. nodup_split.
  assert (Hxy : x ≠ y) by elem_solve.
  unfold RB_ROTATE_RIGHT. do 6 rb_step.
  eapply (wp_rotate _ hd k x y _ _ b); cbn; [done| |apply lookup_insert_eq|done|by simplify_map_eq|..].
  { eapply repc_agree; [|done]. intros d Hd. apply lookup_insert_ne. elem_solve. }
  { eapply rep_agree; [|done]. intros d Hd. apply lookup_insert_ne. elem_solve. }
  { elem_solve. } { elem_solve. } { done. }
  intros s' Hr' Hc' Hb' Hx' Hy' Ho'.
  pose proof (only_links _ _ _ _ Ho') as HL'. cbn in HL'. apply HQ.
  - constructor; [done..| |by rewrite <- els_rotate|].
    + simpl. split_and!; [done| |done|done|].
      * eapply rep_agree; [|exact Ha]. intros d ?. rewrite HL', lookup_insert_ne by elem_solve. done.
      * eapply rep_agree; [|exact Hz]. intros d ?. rewrite HL', lookup_insert_ne by elem_solve. done.
    + rewrite <- els_rotate. done.
  - eapply (only_first _ _ _ x); [|by eexists|eapply only_mono; [|exact Ho']]; unfold els; simpl; elem_solve.
Qed.

(** *** Moving the focus *)

Lemma els_FL k c x t r : els (FL c x r :: k) t = els k (T c t x r).
Proof. apply symmetry, (els_plug k [FL c x r]). Qed.
Lemma els_FR k c x t l : els (FR c x l :: k) t = els k (T c l x t).
Proof. apply symmetry, (els_plug k [FR c x l]). Qed.

Lemma tree_at_plug hd k k' t s : tree_at hd k (plug k' t) s ↔ tree_at hd (k' ++ k) t s.
Proof.
  revert t. induction k' as [|[c x r|c x l] k' IH]; intros t; simpl; [done|..]; rewrite IH.
  all: split; intros [Hr Hc Ht Hnd H0]; simpl in *.
  - destruct Ht as (? & ? & ?). constructor; simpl; rewrite ?els_FL; done.
  - destruct Hc as (? & ? & ?). constructor; simpl; rewrite <- ?els_FL; done.
  - destruct Ht as (? & ? & ?). constructor; simpl; rewrite ?els_FR; done.
  - destruct Hc as (? & ? & ?). constructor; simpl; rewrite <- ?els_FR; done.
Qed.

Lemma tree_at_FL hd k c x t r s : tree_at hd (FL c x r :: k) t s ↔ tree_at hd k (T c t x r) s.
Proof. symmetry. apply (tree_at_plug hd k [FL c x r]). Qed.
Lemma tree_at_FR hd k c x t l s : tree_at hd (FR c x l :: k) t s ↔ tree_at hd k (T c l x t) s.
Proof. symmetry. apply (tree_at_plug hd k [FR c x l]). Qed.

Lemma tree_at_top hd k t s : tree_at hd k t s ↔ tree_at hd [] (plug k t) s.
Proof. by rewrite tree_at_plug, app_nil_r. Qed.

Lemma tree_at_agree hd k t s s' :
  tree_at hd k t s → rbh_roots s' !! hd = rbh_roots s !! hd → agree (els k t) s s' → tree_at hd k t s'.
Proof.
  intros [Hr Hc Ht Hnd H0] Hs' Ha. unfold agree, els in Ha. constructor; [by rewrite Hs'| | |done..].
  - eapply repc_agree; [|done]. intros a ?. apply Ha. elem_solve.
  - eapply rep_agree; [|done]. intros a ?. apply Ha. elem_solve.
Qed.

(** The entry of the node at the focus. *)
Lemma tree_at_node hd k c l x r s :
  tree_at hd k (T c l x r) s → rb_links s !! x = Some (RbEntry (root l) (root r) (cpar k) c).
Proof. intros H. apply (ta_rep _ _ _ _ H). Qed.

Lemma tree_at_ne hd k c l x r s : tree_at hd k (T c l x r) s → x ≠ NULL.
Proof. intros [_ _ _ _ H0]. unfold els in H0. simpl in H0. elem_solve. Qed.

Lemma tree_at_null hd k t s : tree_at hd k t s → root t =? NULL = match t with E => true | _ => false end.
Proof.
  intros H. destruct t as [|c l x r]; [done|]. apply Z.eqb_neq. by eapply tree_at_ne.
Qed.

Lemma elem_of_ctx_par k : k ≠ [] → cpar k ∈ before k ++ after k.
Proof. destruct k as [|[c x t|c x t] k]; simpl; [done|..]; intros _; elem_solve. Qed.

(** *** Colors, links *)

Lemma wp_set_color (Q : unit → rb_heap → Prop) hd k c l x r c' s :
  tree_at hd k (T c l x r) s →
  (∀ s', tree_at hd k (T c' l x r) s' → only hd (els k (T c l x r)) s s' → Q tt s') →
  runs (set_color x c') Q s.
Proof.
  intros [Hr Hc (Hx & Hl & Hrr) Hnd H0] HQ.
  pose proof Hnd as Hnd'. unfold els in Hnd'. simpl in Hnd'. nodup_split.
  rb_step. apply HQ; [|apply only_update; [unfold els; simpl; elem_solve|by eexists]].
  constructor; [done| | |done..]; cbn.
  - eapply repc_agree; [|done]. intros a ?. apply lookup_insert_ne. elem_solve.
  - split_and!; [by simplify_map_eq|..];
      (eapply rep_agree; [|done]; intros a ?; apply lookup_insert_ne; elem_solve).
Qed.

Lemma wp_RB_SET (Q : unit → rb_heap → Prop) elm p s :
  is_Some (rb_links s !! elm) →
  Q tt (with_links (<[elm := RbEntry NULL NULL p RB_RED]> (rb_links s)) s) → runs (RB_SET elm p) Q s.
Proof. intros [e He] HQ. unfold RB_SET. do 7 rb_step. rewrite !insert_insert_eq. exact HQ. Qed.

(** The tree of RB_INSERT before the rebalancing. *)
Lemma wp_link (Q : unit → rb_heap → Prop) hd k elm comp s :
  tree_at hd k E s → elm ∉ els k E → elm ≠ NULL → is_Some (rb_links s !! elm) →
  match k with [] => True | FL _ _ _ :: _ => comp < 0 | FR _ _ _ :: _ => 0 ≤ comp end →
  (∀ s', tree_at hd k (T RB_RED E elm E) s' → only hd (elm :: els k E) s s' → Q tt s') →
  runs (RB_SET elm (cpar k);;
        (if negb (cpar k =? NULL) then
           if comp <? 0 then set_left (cpar k) elm else set_right (cpar k) elm
         else set_root hd elm)) Q s.
Proof.
  intros Ht Hel He0 [e He] Hcomp HQ. apply wp_bind, wp_RB_SET; [by eexists|].
  match goal with |- wp _ _ _ ?t => set (s1 := t) end.
  assert (Ho1 : only hd (elm :: els k E) s s1) by (apply only_update; [elem_solve|by eexists]).
  assert (Ht1 : tree_at hd k E s1).
  { eapply tree_at_agree; [done..|]. intros a ?. apply (only_links hd [elm] s).
    - apply only_update; [elem_solve|by eexists].
    - elem_solve. }
  assert (He1 : rb_links s1 !! elm = Some (RbEntry NULL NULL (cpar k) RB_RED)).
  { cbn. by simplify_map_eq. }
  clearbody s1. destruct Ht1 as [Hr Hc _ Hnd H0]. unfold els in *. simpl in *.
  assert (Hnd' : NoDup (before k ++ elm :: after k)) by elem_solve.
  assert (H0' : NULL ∉ before k ++ elm :: after k) by elem_solve.
  destruct k as [|[c x t|c x t] k]; simpl in *.
  - rb_step. apply HQ; [|eapply only_trans; [done|apply only_root]].
    constructor; cbn; [by simplify_map_eq|done|done|done|done].
  - destruct Hc as (Hx & Hs & Hc). rewrite (proj2 (Z.eqb_neq x NULL)), (proj2 (Z.ltb_lt _ _)) by elem_solve.
    simpl. rb_step.
    apply HQ; [|eapply only_trans; [done|apply only_update; [elem_solve|by eexists]]].
    nodup_split. constructor; cbn; [done| | |unfold els; simpl; elem_solve|unfold els; simpl; elem_solve].
    + split_and!; [by simplify_map_eq
                  |eapply rep_agree; [|done]; intros a ?; apply lookup_insert_ne; elem_solve
                  |eapply repc_agree; [|done]; intros a ?; apply lookup_insert_ne; elem_solve].
    + split_and!; [|done..]. rewrite lookup_insert_ne by elem_solve. done.
  - destruct Hc as (Hx & Hs & Hc). rewrite (proj2 (Z.eqb_neq x NULL)), (proj2 (Z.ltb_ge _ _)) by elem_solve.
    simpl. rb_step.
    apply HQ; [|eapply only_trans; [done|apply only_update; [elem_solve|by eexists]]].
    nodup_split. constructor; cbn; [done| | |unfold els; simpl; elem_solve|unfold els; simpl; elem_solve].
    + split_and!; [by simplify_map_eq
                  |eapply rep_agree; [|done]; intros a ?; apply lookup_insert_ne; elem_solve
                  |eapply repc_agree; [|done]; intros a ?; apply lookup_insert_ne; elem_solve].
    + split_and!; [|done..]. rewrite lookup_insert_ne by elem_solve. done.
Qed.

(** *** Removal *)

(** A node with the only subtree [t] is unlinked; its own entry stays. *)
Lemma wp_unlink (Q : Z * Z → rb_heap → Prop) hd k c l x r t s :
  tree_at hd k (T c l x r) s → (l = E ∧ r = t) ∨ (r = E ∧ l = t) →
  (∀ s', tree_at hd k t s' → only hd (els k (T c l x r)) s s' →
         rb_links s' !! x = rb_links s !! x → Q (cpar k, c) s') →
  runs (rb_unlink hd x (root t)) Q s.
Proof.
  intros [Hr Hc (Hx & Hl & Hrr) Hnd H0] Hlr HQ. cbn [root] in *.
  assert (Ht : rep (rb_links s) x t) by (destruct Hlr as [[_ <-]|[_ <-]]; done).
  assert (Hels : ∃ tl tr, els k (T c l x r) = before k ++ tl ++ tr ++ after k ∧ x ∈ tl ++ tr ∧
            elements t ⊆ tl ++ tr ∧ NoDup (before k ++ x :: elements t ++ after k) ∧
            NULL ∉ before k ++ x :: elements t ++ after k).
  { unfold els in *. exists (elements l), (x :: elements r). simpl in *.
    destruct Hlr as [[-> ->]|[-> ->]]; simpl in *; rewrite <- ?app_assoc; simpl;
      (split_and!; [done|elem_solve..]). }
  destruct Hels as (tl & tr & Heq & Hxt & Htt & Hnd' & H0'). rewrite Heq in HQ. clear Hnd H0 Heq. nodup_split.
  unfold rb_unlink. do 4 rb_step.
  eapply wp_bind, (wp_adopt _ _ x (cpar k) t hd); [done..|]. intros s1 Ht1 Ho1 Hr1.
  pose proof (only_links _ _ _ _ Ho1) as HL1.
  apply wp_bind, (wp_relink _ _ hd k x (root t)).
  { by rewrite Hr1. }
  { eapply repc_agree; [|done]. intros a ?. apply HL1. elem_solve. }
  1-4: elem_solve.
  intros s2 Hr2 Hc2 Ho2. pose proof (only_links _ _ _ _ Ho2) as HL2. apply HQ.
  - constructor; [done|done| |unfold els; elem_solve|unfold els; elem_solve].
    eapply rep_agree; [|exact Ht1]. intros a ?. apply HL2. elem_solve.
  - eapply only_trans; [eapply only_mono; [|exact Ho1]|eapply only_mono; [|exact Ho2]].
    + intros a Ha. apply Htt in Ha. elem_solve.
    + elem_solve.
  - rewrite HL2, HL1 by elem_solve. done.
Qed.

(** [elm] takes the place of the node [old], which has two children. *)
Lemma wp_replace (Q : unit → rb_heap → Prop) hd k c l old r elm s :
  tree_at hd k (T c l old r) s → l ≠ E → elm ∉ els k (T c l old r) → elm ≠ NULL →
  is_Some (rb_links s !! elm) →
  (∀ s', tree_at hd k (T c l elm r) s' → only hd (elm :: els k (T c l old r)) s s' → Q tt s') →
  runs (rb_replace hd old elm) Q s.
Proof.
  intros [Hr Hc (Hx & Hl & Hrr) Hnd H0] Hne Hel He0 [e He] HQ. cbn [root] in *.
  unfold els in *. simpl in *. pose proof Hnd as Hnd'. pose proof H0 as H0'. nodup_split.
  unfold rb_replace. do 4 rb_step.
  match goal with |- wp _ _ _ ?t => set (s1 := t) end.
  assert (HL1 : ∀ a, a ≠ elm → rb_links s1 !! a = rb_links s !! a).
  { intros a ?. by apply lookup_insert_ne. }
  assert (He1 : rb_links s1 !! elm = Some (RbEntry (root l) (root r) (cpar k) c)) by apply lookup_insert_eq.
  assert (Ho1 : only hd [elm] s s1) by (apply only_update; [elem_solve|by eexists]).
  assert (Hr1 : rbh_roots s1 !! hd = Some (croot k old)) by done.
  clearbody s1. pose proof (HL1 old ltac:(elem_solve)) as Hold1. rewrite Hx in Hold1.
  do 2 rb_step. apply wp_bind, (wp_relink _ _ hd k old elm); [done| |elem_solve..|].
  { eapply repc_agree; [|done]. intros a ?. apply HL1. elem_solve. }
  intros s2 Hr2 Hc2 Ho2. pose proof (only_links _ _ _ _ Ho2) as HL2.
  pose proof (HL2 old ltac:(elem_solve)) as Hold2. rewrite Hold1 in Hold2.
  do 2 rb_step. apply wp_bind.
  assert (Hlnull : (root l =? NULL) = false).
  { destruct l as [|? ? y ?]; [done|]. simpl in *. apply Z.eqb_neq. elem_solve. }
  pose proof (wp_adopt (λ u s', wp (right ← RB_RIGHT old;
    when (negb (right =? NULL)) (set_parent right elm)) Q (λ _ _, False) s') s2 old elm l hd) as Had.
  rewrite Hlnull in Had. apply Had; clear Had.
  { eapply rep_agree; [|exact Hl]. intros a ?. rewrite HL2, HL1 by elem_solve. done. } 1-2: elem_solve.
  intros s3 Hl3 Ho3 Hr3. pose proof (only_links _ _ _ _ Ho3) as HL3.
  pose proof (HL3 old ltac:(elem_solve)) as Hold3. rewrite Hold2 in Hold3.
  do 2 rb_step. apply (wp_adopt _ _ old elm r hd).
  { eapply rep_agree; [|exact Hrr]. intros a ?. rewrite HL3, HL2, HL1 by elem_solve. done. } 1-2: elem_solve.
  intros s4 Hr4 Ho4 Hrt4. pose proof (only_links _ _ _ _ Ho4) as HL4. apply HQ.
  - constructor; [by rewrite Hrt4, Hr3| | |unfold els; simpl; elem_solve|unfold els; simpl; elem_solve].
    + eapply repc_agree; [|exact Hc2]. intros a ?. rewrite HL4, HL3 by elem_solve. done.
    + simpl. split_and!; [|eapply rep_agree; [|exact Hl3]; intros a ?; apply HL4; elem_solve|done].
      rewrite HL4, HL3, HL2 by elem_solve. done.
  - eapply only_trans; [eapply only_mono; [|exact Ho1]; elem_solve|].
    eapply only_trans; [eapply only_mono; [|exact Ho2]; elem_solve|].
    eapply only_trans; [eapply only_mono; [|exact Ho3]; elem_solve|].
    eapply only_mono; [|exact Ho4]. elem_solve.
Qed.
