(* ===== verification/RbTreeColor.v ===== *)
(** * Rebalancing (RB_INSERT_COLOR and RB_REMOVE_COLOR of tree.h)

    Red-black trees, what a context asks of the subtree in its hole, and the
    proofs that the two rebalancing loops end and restore the colors, without
    following a null pointer and without changing the order of the nodes. *)

From S2P Require Import Prelude RbTree RbTreeRep.

(** ** Red-black trees *)

Definition color (t : tree) : Z := match t with E => RB_BLACK | T c _ _ _ => c end.

(** [t] is colored well, with [n] black nodes on every path to a leaf. *)
Inductive is_rb : tree → nat → Prop :=
  | rb_E : is_rb E 0
  | rb_R l x r n : is_rb l n → is_rb r n → color l = RB_BLACK → color r = RB_BLACK →
      is_rb (T RB_RED l x r) n
  | rb_B l x r n : is_rb l n → is_rb r n → is_rb (T RB_BLACK l x r) (S n).

(** A context whose hole takes a subtree with [n] black nodes on a path, a red
    one only if [b]. *)
Inductive rbc : list frame → bool → nat → Prop :=
  | rbc_nil n : rbc [] false n
  | rbc_FL_R x r k n : is_rb r n → color r = RB_BLACK → rbc k true n → rbc (FL RB_RED x r :: k) false n
  | rbc_FR_R x l k n : is_rb l n → color l = RB_BLACK → rbc k true n → rbc (FR RB_RED x l :: k) false n
  | rbc_FL_B x r k b n : is_rb r n → rbc k b (S n) → rbc (FL RB_BLACK x r :: k) true n
  | rbc_FR_B x l k b n : is_rb l n → rbc k b (S n) → rbc (FR RB_BLACK x l :: k) true n.

(** What RB_INSERT and RB_REMOVE keep: the root is black. *)
Definition balanced (t : tree) : Prop := color t = RB_BLACK ∧ ∃ n, is_rb t n.

Definition blacken (t : tree) : tree := match t with E => E | T _ l x r => T RB_BLACK l x r end.

Lemma is_rb_color t n : is_rb t n → color t = RB_RED ∨ color t = RB_BLACK.
Proof. intros []; simpl; auto. Qed.

Lemma is_rb_blacken t n : is_rb t n → balanced (blacken t).
Proof. intros []; (split; [done|]); eexists; simpl; by constructor. Qed.

Lemma blacken_black t n : is_rb t n → color t = RB_BLACK → blacken t = t.
Proof. by intros []. Qed.

Lemma is_rb_plug k b n t :
  rbc k b n → is_rb t n → (color t = RB_RED → b = true) → balanced (plug k t).
Proof.
  intros Hk. revert t. induction Hk; intros t Ht Hc; simpl.
  - split; [|by eexists]. destruct (is_rb_color _ _ Ht) as [E1|E1]; [by specialize (Hc E1)|done].
  - apply IHHk; [|done]. constructor; try done. destruct (is_rb_color _ _ Ht) as [E1|E1]; [by specialize (Hc E1)|done].
  - apply IHHk; [|done]. constructor; try done. destruct (is_rb_color _ _ Ht) as [E1|E1]; [by specialize (Hc E1)|done].
  - apply IHHk; [by constructor|done].
  - apply IHHk; [by constructor|done].
Qed.

(** The converse: a part of a red-black tree, seen from inside. *)
Lemma is_rb_unplug k' k b n t :
  rbc k b n → is_rb (plug k' t) n → (color (plug k' t) = RB_RED → b = true) →
  ∃ b' n', rbc (k' ++ k) b' n' ∧ is_rb t n' ∧ (color t = RB_RED → b' = true).
Proof.
  intros Hk. revert t. induction k' as [|[c x r|c x l] k' IH]; intros t Ht Hc; simpl in *.
  - eauto.
  - destruct (IH _ Ht Hc) as (b' & n' & Hk' & Ht' & Hc').
    inversion Ht' as [|? ? ? ? Hl Hr Hcl Hcr|? ? ? ? Hl Hr]; subst.
    + simpl in Hc'. rewrite Hc' in Hk' by done. eexists false, n'. split_and!; [by constructor|done|].
      intros Hred. by rewrite Hred in Hcl.
    + eexists true, _. split_and!; [by econstructor|done|done].
  - destruct (IH _ Ht Hc) as (b' & n' & Hk' & Ht' & Hc').
    inversion Ht' as [|? ? ? ? Hl Hr Hcl Hcr|? ? ? ? Hl Hr]; subst.
    + simpl in Hc'. rewrite Hc' in Hk' by done. eexists false, n'. split_and!; [by constructor|done|].
      intros Hred. by rewrite Hred in Hcr.
    + eexists true, _. split_and!; [by econstructor|done|done].
Qed.

(** ** Steps inside a fixed tree

    [here k t s]: from [s0] on, only the tree under [hd] has changed; its
    nodes are still [D], in this order, and it is [plug k t]. *)
Section here.
Context (hd : Z) (D : list Z) (s0 : rb_heap).

Definition here (k : list frame) (t : tree) (s : rb_heap) : Prop :=
  tree_at hd k t s ∧ only hd D s0 s ∧ els k t = D.

Lemma here_plug k k' t s : here k (plug k' t) s ↔ here (k' ++ k) t s.
Proof. unfold here. by rewrite tree_at_plug, els_plug. Qed.

Lemma here_FL k c x t r s : here k (T c t x r) s ↔ here (FL c x r :: k) t s.
Proof. apply (here_plug k [FL c x r]). Qed.
Lemma here_FR k c x t l s : here k (T c l x t) s ↔ here (FR c x l :: k) t s.
Proof. apply (here_plug k [FR c x l]). Qed.

Lemma here_step k k' t t' s s' :
  here k (plug k' t) s → tree_at hd (k' ++ k) t' s' → only hd (els (k' ++ k) t) s s' →
  els (k' ++ k) t' = els (k' ++ k) t → here k (plug k' t') s'.
Proof.
  rewrite !here_plug. intros (Ht & Ho & HD) Ht' Ho' He. rewrite HD in Ho'.
  split_and!; [done|by eapply only_trans|by rewrite He].
Qed.

Lemma here_set_color (Q : unit → rb_heap → Prop) k' k c l x r c' s :
  here k (plug k' (T c l x r)) s → (∀ s', here k (plug k' (T c' l x r)) s' → Q tt s') →
  runs (set_color x c') Q s.
Proof.
  intros H HQ. pose proof H as (Ht & _ & _)%here_plug. eapply wp_set_color; [done|]. intros s' Ht' Ho'.
  by apply HQ, (here_step _ _ (T c l x r) _ s).
Qed.

Lemma here_rotate_left (Q : Z → rb_heap → Prop) k' k c a x c2 b y z s :
  here k (plug k' (T c a x (T c2 b y z))) s →
  (∀ s', here k (plug k' (T c2 (T c a x b) y z)) s' → Q y s') →
  runs (RB_ROTATE_LEFT hd x) Q s.
Proof.
  intros H HQ. pose proof H as (Ht & _ & _)%here_plug. eapply wp_rotate_left; [done|]. intros s' Ht' Ho'.
  apply HQ, (here_step _ _ (T c a x (T c2 b y z)) _ s); [done..|]. apply els_rotate.
Qed.

Lemma here_rotate_right (Q : Z → rb_heap → Prop) k' k c a x c2 b y z s :
  here k (plug k' (T c (T c2 a y b) x z)) s →
  (∀ s', here k (plug k' (T c2 a y (T c b x z))) s' → Q y s') →
  runs (RB_ROTATE_RIGHT hd x) Q s.
Proof.
  intros H HQ. pose proof H as (Ht & _ & _)%here_plug. eapply wp_rotate_right; [done|]. intros s' Ht' Ho'.
  apply HQ, (here_step _ _ (T c (T c2 a y b) x z) _ s); [done..|]. symmetry. apply els_rotate.
Qed.

Lemma here_node k' k c l x r s :
  here k (plug k' (T c l x r)) s → rb_links s !! x = Some (RbEntry (root l) (root r) (cpar (k' ++ k)) c).
Proof. intros (Ht & _ & _)%here_plug. by eapply tree_at_node. Qed.

Lemma here_null k' k t s :
  here k (plug k' t) s → root t =? NULL = match t with E => true | _ => false end.
Proof. intros (Ht & _ & _)%here_plug. by eapply tree_at_null. Qed.

Lemma here_root k t s : here k t s → rbh_roots s !! hd = Some (croot k (root t)).
Proof. intros (Ht & _ & _). apply Ht. Qed.

Lemma here_is_red (Q : bool → rb_heap → Prop) k' k t s :
  here k (plug k' t) s → Q (color t =? RB_RED) s → runs (is_red (root t)) Q s.
Proof.
  intros H HQ. unfold is_red. rewrite (here_null k' k t s H). destruct t as [|c l x r]; [done|].
  rb_step. eapply wp_RB_COLOR; [by eapply here_node|]. done.
Qed.

Lemma here_is_black (Q : bool → rb_heap → Prop) k' k t s :
  here k (plug k' t) s → Q (color t =? RB_BLACK) s → runs (is_black (root t)) Q s.
Proof.
  intros H HQ. unfold is_black. rewrite (here_null k' k t s H). destruct t as [|c l x r]; [done|].
  rb_step. eapply wp_RB_COLOR; [by eapply here_node|]. done.
Qed.

Lemma here_is_red_node (Q : bool → rb_heap → Prop) k' k c l x r s :
  here k (plug k' (T c l x r)) s → Q (c =? RB_RED) s → runs (is_red x) Q s.
Proof. apply (here_is_red Q k' k (T c l x r)). Qed.

Lemma here_is_black_node (Q : bool → rb_heap → Prop) k' k c l x r s :
  here k (plug k' (T c l x r)) s → Q (c =? RB_BLACK) s → runs (is_black x) Q s.
Proof. apply (here_is_black Q k' k (T c l x r)). Qed.

Lemma here_nodup k t s : here k t s → NoDup (els k t) ∧ NULL ∉ els k t.
Proof. by intros ([] & _ & _). Qed.

End here.

(** ** Steps of a program on a tree the goal shows

    [path x t] is the context of the node [x] in the expression [t];
    [subpath u t] that of the subtree [u]. *)
Ltac path x t :=
  lazymatch t with
  | T ?c ?l ?y ?r =>
      match t with
      | T _ _ x _ => constr:(@nil frame)
      | _ => let p := path x l in constr:(p ++ [FL c y r])
      | _ => let p := path x r in constr:(p ++ [FR c y l])
      end
  end.
Ltac subpath u t :=
  match t with
  | u => constr:(@nil frame)
  | T ?c ?l ?y ?r => let p := subpath u l in constr:(p ++ [FL c y r])
  | T ?c ?l ?y ?r => let p := subpath u r in constr:(p ++ [FR c y l])
  end.
Ltac nodepath x s :=
  lazymatch goal with
  | H : here _ _ _ _ ?t s |- _ => let p := path x t in eval simpl in p
  end.
Ltac treepath u s :=
  lazymatch goal with
  | H : here _ _ _ _ ?t s |- _ => let p := subpath u t in eval simpl in p
  end.

(** The hypothesis about the state [s] is replaced by the one of the next. *)
Ltac here_next s := let s' := fresh "s" in let H' := fresh "H" in
  intros s' H'; cbn [plug] in H';
  lazymatch goal with H : here _ _ _ _ _ s |- _ => clear dependent s end.

Ltac here_read x s :=
  let p := nodepath x s in
  lazymatch goal with
  | H : here _ _ _ ?k _ s |- _ =>
      first [ eapply wp_RB_LEFT; [exact (here_node _ _ _ p _ _ _ _ _ _ H)|]
            | eapply wp_RB_RIGHT; [exact (here_node _ _ _ p _ _ _ _ _ _ H)|]
            | eapply wp_RB_PARENT; [exact (here_node _ _ _ p _ _ _ _ _ _ H)|]
            | eapply wp_RB_COLOR; [exact (here_node _ _ _ p _ _ _ _ _ _ H)|] ]
  end.

(** The tests on colors that are decided. *)
Ltac colors :=
  repeat match goal with H : color ?t = _ |- context [color ?t] => rewrite H end;
  repeat first
    [ progress change (RB_RED =? RB_RED) with true | progress change (RB_BLACK =? RB_RED) with false
    | progress change (RB_BLACK =? RB_BLACK) with true | progress change (RB_RED =? RB_BLACK) with false ];
  rewrite ?andb_false_r, ?andb_true_r; cbn [andb]; cbv match.

Ltac here_go :=
  lazymatch goal with
  | |- wp (mbind _ _) _ _ _ => apply wp_bind
  | |- wp (mret _) _ _ _ => apply wp_ret
  | |- wp (RB_SET_BLACKRED _ _) _ _ _ => unfold RB_SET_BLACKRED
  | |- wp (set_color ?x ?c) _ _ ?s =>
      let p := nodepath x s in
      lazymatch goal with
      | H : here _ _ _ _ _ s |- _ => eapply (here_set_color _ _ _ _ p); [exact H|here_next s]
      end
  | |- wp (RB_ROTATE_LEFT _ ?x) _ _ ?s =>
      let p := nodepath x s in
      lazymatch goal with
      | H : here _ _ _ _ _ s |- _ => eapply (here_rotate_left _ _ _ _ p); [exact H|here_next s]
      end
  | |- wp (RB_ROTATE_RIGHT _ ?x) _ _ ?s =>
      let p := nodepath x s in
      lazymatch goal with
      | H : here _ _ _ _ _ s |- _ => eapply (here_rotate_right _ _ _ _ p); [exact H|here_next s]
      end
  | |- wp (is_red (root ?u)) _ _ ?s =>
      let p := treepath u s in
      lazymatch goal with
      | H : here _ _ _ _ _ s |- _ => eapply (here_is_red _ _ _ _ p); [exact H|]
      end
  | |- wp (is_black (root ?u)) _ _ ?s =>
      let p := treepath u s in
      lazymatch goal with
      | H : here _ _ _ _ _ s |- _ => eapply (here_is_black _ _ _ _ p); [exact H|]
      end
  | |- wp (is_red ?x) _ _ ?s =>
      let p := nodepath x s in
      lazymatch goal with
      | H : here _ _ _ _ _ s |- _ => eapply (here_is_red_node _ _ _ _ p); [exact H|]
      end
  | |- wp (is_black ?x) _ _ ?s =>
      let p := nodepath x s in
      lazymatch goal with
      | H : here _ _ _ _ _ s |- _ => eapply (here_is_black_node _ _ _ _ p); [exact H|]
      end
  | |- wp (if _ then _ else _) _ _ _ => progress colors
  | |- wp (when (negb ?b) _) _ _ _ => match goal with Hb : b = _ |- _ => rewrite Hb end; cbn [when negb]
  | |- wp (_ ?x) _ _ ?s => here_read x s
  end; cbn [rbe_left rbe_right rbe_parent rbe_color root cpar app].

(** ** RB_INSERT_COLOR *)

Section insert_color.
Context (hd : Z) (D : list Z) (s0 : rb_heap).
Notation here := (here hd D s0).

Lemma root_ne x t : x ∉ elements t → x ≠ NULL → root t ≠ x.
Proof. destruct t as [|c l y r]; simpl; [done|]. intros Hx _ ->. elem_solve. Qed.

(** The uncle is red: colors move up. *)
Lemma insert_left_red (Q : Z → rb_heap → Prop) k c2 l p r g ul y ur x s :
  here k (T RB_BLACK (T c2 l p r) g (T RB_RED ul y ur)) s →
  (∀ s', here k (T RB_RED (T RB_BLACK l p r) g (T RB_BLACK ul y ur)) s' → Q g s') →
  runs (insert_color_left hd g p x) Q s.
Proof. intros H HQ. unfold insert_color_left. repeat here_go. by apply HQ. Qed.

Lemma insert_right_red (Q : Z → rb_heap → Prop) k c2 l p r g ul y ur x s :
  here k (T RB_BLACK (T RB_RED ul y ur) g (T c2 l p r)) s →
  (∀ s', here k (T RB_RED (T RB_BLACK ul y ur) g (T RB_BLACK l p r)) s' → Q g s') →
  runs (insert_color_right hd g p x) Q s.
Proof. intros H HQ. unfold insert_color_right. repeat here_go. by apply HQ. Qed.

(** The sibling of [x] under [p] is not [x]. *)
Ltac here_neq H :=
  let Hn := fresh in let H0 := fresh in
  pose proof (here_nodup _ _ _ _ _ _ H) as [Hn H0]; unfold els in Hn, H0; simpl in Hn, H0;
  apply Z.eqb_neq, root_ne; elem_solve.

(** The uncle is black, [x] an outer grandchild: one rotation. *)
Lemma insert_left_outer (Q : Z → rb_heap → Prop) k l x r p r' g u s :
  here k (T RB_BLACK (T RB_RED (T RB_RED l x r) p r') g u) s → color u = RB_BLACK →
  (∀ s', here k (T RB_BLACK (T RB_RED l x r) p (T RB_RED r' g u)) s' → Q x s') →
  runs (insert_color_left hd g p x) Q s.
Proof.
  intros H Hu HQ. unfold insert_color_left. assert (Hne : root r' =? x = false) by here_neq H.
  do 7 here_go. rewrite Hne. repeat here_go. by apply HQ.
Qed.

Lemma insert_right_outer (Q : Z → rb_heap → Prop) k l x r p r' g u s :
  here k (T RB_BLACK u g (T RB_RED r' p (T RB_RED l x r))) s → color u = RB_BLACK →
  (∀ s', here k (T RB_BLACK (T RB_RED u g r') p (T RB_RED l x r)) s' → Q x s') →
  runs (insert_color_right hd g p x) Q s.
Proof.
  intros H Hu HQ. unfold insert_color_right. assert (Hne : root r' =? x = false) by here_neq H.
  do 7 here_go. rewrite Hne. repeat here_go. by apply HQ.
Qed.

(** An inner grandchild: two rotations. *)
Lemma insert_left_inner (Q : Z → rb_heap → Prop) k l x r p r' g u s :
  here k (T RB_BLACK (T RB_RED r' p (T RB_RED l x r)) g u) s → color u = RB_BLACK →
  (∀ s', here k (T RB_BLACK (T RB_RED r' p l) x (T RB_RED r g u)) s' → Q p s') →
  runs (insert_color_left hd g p x) Q s.
Proof.
  intros H Hu HQ. unfold insert_color_left.
  do 7 here_go. rewrite Z.eqb_refl. repeat here_go. by apply HQ.
Qed.

Lemma insert_right_inner (Q : Z → rb_heap → Prop) k l x r p r' g u s :
  here k (T RB_BLACK u g (T RB_RED (T RB_RED l x r) p r')) s → color u = RB_BLACK →
  (∀ s', here k (T RB_BLACK (T RB_RED u g l) x (T RB_RED r p r')) s' → Q p s') →
  runs (insert_color_right hd g p x) Q s.
Proof.
  intros H Hu HQ. unfold insert_color_right.
  do 7 here_go. rewrite Z.eqb_refl. repeat here_go. by apply HQ.
Qed.

(** The loop at a red node whose children are black: the parent may be red. *)
Definition insert_done (Q : unit → rb_heap → Prop) : Prop :=
  ∀ s t n, here [] t s → is_rb t n → Q tt s.

(** The parent is not red: the loop ends. *)
Lemma wp_insert_stop (Q : unit → rb_heap → Prop) fuel k l x r n s :
  here k (T RB_RED l x r) s → is_rb (T RB_RED l x r) n → (k = [] ∨ ∃ b, b = true ∧ rbc k b n) →
  insert_done Q → runs (insert_color_loop (S fuel) hd x) Q s.
Proof.
  intros H Ht Hk HQ. cbn [insert_color_loop]. do 2 here_go. destruct Hk as [->|(b & -> & Hk)].
  - unfold is_red. rewrite Z.eqb_refl. do 2 rb_step. apply wp_ret. by eapply HQ.
  - destruct (is_rb_plug _ _ _ _ Hk Ht) as [_ [m Htop]]; [done|].
    assert (HQs : Q tt s).
    { eapply HQ; [|exact Htop]. apply here_plug. by rewrite app_nil_r. }
    inversion Hk; subst; cbn [cpar];
      [apply here_FL in H|apply here_FR in H]; repeat here_go; exact HQs.
Qed.

(** What an iteration leaves: a red node two levels up, or a node whose
    parent is black. *)
Definition insert_next (Q : Z → rb_heap → Prop) (k : list frame) (m : nat) : Prop :=
  (∀ l g r s b, here k (T RB_RED l g r) s → is_rb (T RB_RED l g r) (S m) → rbc k b (S m) → Q g s) ∧
  (∀ k' l x r s, here k' (T RB_RED l x r) s → is_rb (T RB_RED l x r) m → rbc k' true m → Q x s).

Ltac rb_build := repeat (first [assumption | done | econstructor]).

Lemma wp_insert_left (Q : Z → rb_heap → Prop) k t p t' g w b m x s :
  here k (T RB_BLACK (T RB_RED t p t') g w) s →
  (∃ l r, (t = T RB_RED l x r ∧ is_rb t m ∧ is_rb t' m ∧ color t' = RB_BLACK) ∨
          (t' = T RB_RED l x r ∧ is_rb t' m ∧ is_rb t m ∧ color t = RB_BLACK)) →
  is_rb w m → rbc k b (S m) → insert_next Q k m → runs (insert_color_left hd g p x) Q s.
Proof.
  intros H (l & r & Htt) Hw Hk [Hup Hstop].
  destruct (is_rb_color _ _ Hw) as [Hc|Hc].
  - destruct w as [|c wl y wr]; [done|]. simpl in Hc. subst c. inversion Hw; subst.
    eapply insert_left_red; [done|]. intros s' H'. eapply Hup; [exact H'| |done].
    constructor; [| |done|done]; constructor; try done; destruct Htt as [(? & ? & ? & ?)|(? & ? & ? & ?)]; done.
  - destruct Htt as [(-> & Ht & Ht' & Hc')|(-> & Ht & Ht' & Hc')]; inversion Ht; subst.
    + eapply insert_left_outer; [done..|]. intros s' H'.
      eapply (Hstop (FL RB_BLACK p (T RB_RED t' g w) :: k)); [by rewrite <- here_FL|done|].
      econstructor; [|done]. by constructor.
    + eapply insert_left_inner; [done..|]. intros s' H'.
      eapply (Hstop (FL RB_BLACK x (T RB_RED r g w) :: k)); [by rewrite <- here_FL|by constructor|].
      econstructor; [|done]. by constructor.
Qed.

Lemma wp_insert_right (Q : Z → rb_heap → Prop) k t p t' g w b m x s :
  here k (T RB_BLACK w g (T RB_RED t p t')) s →
  (∃ l r, (t = T RB_RED l x r ∧ is_rb t m ∧ is_rb t' m ∧ color t' = RB_BLACK) ∨
          (t' = T RB_RED l x r ∧ is_rb t' m ∧ is_rb t m ∧ color t = RB_BLACK)) →
  is_rb w m → rbc k b (S m) → insert_next Q k m → runs (insert_color_right hd g p x) Q s.
Proof.
  intros H (l & r & Htt) Hw Hk [Hup Hstop].
  destruct (is_rb_color _ _ Hw) as [Hc|Hc].
  - destruct w as [|c wl y wr]; [done|]. simpl in Hc. subst c. inversion Hw; subst.
    eapply insert_right_red; [done|]. intros s' H'. eapply Hup; [exact H'| |done].
    constructor; [| |done|done]; constructor; try done; destruct Htt as [(? & ? & ? & ?)|(? & ? & ? & ?)]; done.
  - destruct Htt as [(-> & Ht & Ht' & Hc')|(-> & Ht & Ht' & Hc')]; inversion Ht; subst.
    + eapply insert_right_inner; [done..|]. intros s' H'.
      eapply (Hstop (FR RB_BLACK x (T RB_RED w g l) :: k)); [by rewrite <- here_FR|by constructor|].
      econstructor; [|done]. by constructor.
    + eapply insert_right_outer; [done..|]. intros s' H'.
      eapply (Hstop (FR RB_BLACK p (T RB_RED w g t) :: k)); [by rewrite <- here_FR|done|].
      econstructor; [|done]. by constructor.
Qed.

Lemma wp_insert_loop fuel (Q : unit → rb_heap → Prop) k l x r b n s :
  here k (T RB_RED l x r) s → is_rb (T RB_RED l x r) n → rbc k b n →
  (length k < fuel)%nat → insert_done Q → runs (insert_color_loop fuel hd x) Q s.
Proof.
  revert k l x r b n s. induction fuel as [fuel IH] using lt_wf_ind. intros k l x r b n s H Ht Hk Hf HQ.
  destruct fuel as [|fuel]; [lia|].
  assert (Hnext : ∀ k'' m, (2 + length k'' < S fuel)%nat →
    insert_next (λ e s', runs (insert_color_loop fuel hd e) Q s') k'' m).
  { intros k'' m Hl. split.
    - intros. eapply (IH fuel); [lia|done..|lia|done].
    - intros k3 l' y r' s' H' Ht' Hk3. destruct fuel as [|fuel]; [lia|]. eapply wp_insert_stop; eauto. }
  inversion Hk as [? |p u k' ? Hu Hcu Hk'|p u k' ? Hu Hcu Hk'|? ? ? ? ? ? ?|? ? ? ? ? ? ?]; subst.
  1,4,5: by eapply wp_insert_stop; eauto.
  all: inversion Hk' as [| | |g w k'' b' ? Hw Hk''|g w k'' b' ? Hw Hk'']; subst; simpl in Hf.
  all: rewrite <- ?here_FL, <- ?here_FR in H; rewrite <- ?here_FL, <- ?here_FR in H.
  all: cbn [insert_color_loop cpar]; do 9 here_go; apply wp_bind.
  1,3: rewrite Z.eqb_refl; eapply wp_insert_left; [exact H| |done..|by apply Hnext]; eauto 10.
  all: assert (Hne : p =? root w = false) by (rewrite Z.eqb_sym; here_neq H); rewrite Hne;
    eapply wp_insert_right; [exact H| |done..|by apply Hnext]; eauto 10.
Qed.

End insert_color.

(** ** RB_REMOVE_COLOR *)

(** [h] black nodes below a node of color [c] whose children have [n]. *)
Definition node_height (c : Z) (n h : nat) : Prop := (c = RB_RED ∧ h = n) ∨ (c = RB_BLACK ∧ h = S n).

Lemma is_rb_node c l x r n h :
  is_rb l n → is_rb r n → node_height c n h → color l = RB_BLACK → color r = RB_BLACK → is_rb (T c l x r) h.
Proof. intros Hl Hr [[-> ->]|[-> ->]] ??; by constructor. Qed.

(** The subtree [u] in the context [k] is one black node short, which
    blackening a red root repairs. *)
Inductive short (k : list frame) : tree → Prop :=
  | short_black b m u : is_rb u m → color u = RB_BLACK → rbc k b (S m) → short k u
  | short_red b m l x r : is_rb l m → is_rb r m → rbc k b (S m) → short k (T RB_RED l x r).

Section remove_color.
Context (hd : Z) (D : list Z) (s0 : rb_heap).
Notation here := (here hd D s0).

(** What an iteration leaves: the parent one short, or a repaired tree. *)
Definition remove_next (Q : option (Z * Z) → rb_heap → Prop) (k : list frame) : Prop :=
  (∀ k' c l x r s, here k' (T c l x r) s → short k' (T c l x r) → c = RB_RED ∨ k' = k →
     Q (Some (cpar k', x)) s) ∧
  (∀ k' t b n s, here k' t s → is_rb t n → rbc k' b n → (color t = RB_RED → b = true) → Q None s).

(** The same with a black sibling, at the parent [p] of color [c]. *)
Definition remove_next_black (Q : option (Z * Z) → rb_heap → Prop) (k : list frame) (c p : Z) : Prop :=
  (∀ l r s, here k (T c l p r) s → short k (T c l p r) → Q (Some (cpar k, p)) s) ∧
  (∀ k' t b n s, here k' t s → is_rb t n → rbc k' b n → (color t = RB_RED → b = true) → Q None s).

Ltac here_nonnull H :=
  let Hn := fresh in let H0 := fresh in
  pose proof (here_nodup _ _ _ _ _ _ H) as [Hn H0]; unfold els in Hn, H0; simpl in Hn, H0;
  apply Z.eqb_neq; elem_solve.

(** A black sibling with black children: it turns red. *)
Lemma remove_left_up (Q : option (Z * Z) → rb_heap → Prop) k c t p sl y sr s :
  here k (T c t p (T RB_BLACK sl y sr)) s → color sl = RB_BLACK → color sr = RB_BLACK →
  (∀ s', here k (T c t p (T RB_RED sl y sr)) s' → Q (Some (cpar k, p)) s') →
  runs (remove_color_left_black hd p y) Q s.
Proof. intros H Hl Hr HQ. unfold remove_color_left_black. repeat here_go. by apply HQ. Qed.

Lemma remove_right_up (Q : option (Z * Z) → rb_heap → Prop) k c t p sl y sr s :
  here k (T c (T RB_BLACK sl y sr) p t) s → color sl = RB_BLACK → color sr = RB_BLACK →
  (∀ s', here k (T c (T RB_RED sl y sr) p t) s' → Q (Some (cpar k, p)) s') →
  runs (remove_color_right_black hd p y) Q s.
Proof. intros H Hl Hr HQ. unfold remove_color_right_black. repeat here_go. by apply HQ. Qed.

(** The outer child of the sibling is red: one rotation. *)
Lemma remove_left_outer (Q : option (Z * Z) → rb_heap → Prop) k c t p sl y a z b s :
  here k (T c t p (T RB_BLACK sl y (T RB_RED a z b))) s →
  (∀ s', here k (T c (T RB_BLACK t p sl) y (T RB_BLACK a z b)) s' → Q None s') →
  runs (remove_color_left_black hd p y) Q s.
Proof.
  intros H HQ. unfold remove_color_left_black. assert (Hz : z =? NULL = false) by here_nonnull H.
  repeat here_go. by apply HQ.
Qed.

Lemma remove_right_outer (Q : option (Z * Z) → rb_heap → Prop) k c t p sr y a z b s :
  here k (T c (T RB_BLACK (T RB_RED a z b) y sr) p t) s →
  (∀ s', here k (T c (T RB_BLACK a z b) y (T RB_BLACK sr p t)) s' → Q None s') →
  runs (remove_color_right_black hd p y) Q s.
Proof.
  intros H HQ. unfold remove_color_right_black. assert (Hz : z =? NULL = false) by here_nonnull H.
  repeat here_go. by apply HQ.
Qed.

(** Only the inner child is red: two rotations. *)
Lemma remove_left_inner (Q : option (Z * Z) → rb_heap → Prop) k c t p a z b y sr s :
  here k (T c t p (T RB_BLACK (T RB_RED a z b) y sr)) s → color sr = RB_BLACK →
  (∀ s', here k (T c (T RB_BLACK t p a) z (T RB_BLACK b y sr)) s' → Q None s') →
  runs (remove_color_left_black hd p y) Q s.
Proof.
  intros H Hr HQ. unfold remove_color_left_black. assert (Hz : z =? NULL = false) by here_nonnull H.
  assert (Hy : y =? NULL = false) by here_nonnull H. repeat here_go. by apply HQ.
Qed.

Lemma remove_right_inner (Q : option (Z * Z) → rb_heap → Prop) k c t p a z b y sl s :
  here k (T c (T RB_BLACK sl y (T RB_RED a z b)) p t) s → color sl = RB_BLACK →
  (∀ s', here k (T c (T RB_BLACK sl y a) z (T RB_BLACK b p t)) s' → Q None s') →
  runs (remove_color_right_black hd p y) Q s.
Proof.
  intros H Hr HQ. unfold remove_color_right_black. assert (Hz : z =? NULL = false) by here_nonnull H.
  assert (Hy : y =? NULL = false) by here_nonnull H. repeat here_go. by apply HQ.
Qed.

Lemma wp_remove_left_black (Q : option (Z * Z) → rb_heap → Prop) k c t p sl y sr m h b s :
  here k (T c t p (T RB_BLACK sl y sr)) s → is_rb t m → color t = RB_BLACK → is_rb sl m → is_rb sr m →
  node_height c (S m) h → rbc k b h → (c = RB_RED → b = true) → remove_next_black Q k c p →
  runs (remove_color_left_black hd p y) Q s.
Proof.
  intros H Ht Hct Hl Hr Hh Hk Hb [Hup Hstop].
  destruct (is_rb_color _ _ Hr) as [Hcr|Hcr].
  - destruct sr as [|c' a z b']; [done|]. simpl in Hcr. subst c'. inversion Hr; subst.
    eapply remove_left_outer; [done|]. intros s' H'. eapply Hstop; [exact H'| |exact Hk|done].
    eapply is_rb_node; [by constructor..|done|done|done].
  - destruct (is_rb_color _ _ Hl) as [Hcl|Hcl].
    + destruct sl as [|c' a z b']; [done|]. simpl in Hcl. subst c'. inversion Hl; subst.
      eapply remove_left_inner; [done..|]. intros s' H'. eapply Hstop; [exact H'| |exact Hk|done].
      eapply is_rb_node; [by constructor..|done|done|done].
    + eapply remove_left_up; [done..|]. intros s' H'. eapply Hup; [exact H'|].
      destruct Hh as [[-> ->]|[-> ->]].
      * eapply short_red; [done| |done]. by constructor.
      * eapply short_black; [|done|done]. constructor; [done|by constructor].
Qed.

Lemma wp_remove_right_black (Q : option (Z * Z) → rb_heap → Prop) k c t p sl y sr m h b s :
  here k (T c (T RB_BLACK sl y sr) p t) s → is_rb t m → color t = RB_BLACK → is_rb sl m → is_rb sr m →
  node_height c (S m) h → rbc k b h → (c = RB_RED → b = true) → remove_next_black Q k c p →
  runs (remove_color_right_black hd p y) Q s.
Proof.
  intros H Ht Hct Hl Hr Hh Hk Hb [Hup Hstop].
  destruct (is_rb_color _ _ Hl) as [Hcl|Hcl].
  - destruct sl as [|c' a z b']; [done|]. simpl in Hcl. subst c'. inversion Hl; subst.
    eapply remove_right_outer; [done|]. intros s' H'. eapply Hstop; [exact H'| |exact Hk|done].
    eapply is_rb_node; [by constructor..|done|done|done].
  - destruct (is_rb_color _ _ Hr) as [Hcr|Hcr].
    + destruct sr as [|c' a z b']; [done|]. simpl in Hcr. subst c'. inversion Hr; subst.
      eapply remove_right_inner; [done..|]. intros s' H'. eapply Hstop; [exact H'| |exact Hk|done].
      eapply is_rb_node; [by constructor..|done|done|done].
    + eapply remove_right_up; [done..|]. intros s' H'. eapply Hup; [exact H'|].
      destruct Hh as [[-> ->]|[-> ->]].
      * eapply short_red; [by constructor|done|done].
      * eapply short_black; [|done|done]. constructor; [by constructor|done].
Qed.

Lemma remove_next_same Q k c p : remove_next Q k → remove_next_black Q k c p.
Proof. intros [Hup Hstop]. split; [|done]. intros. eapply Hup; eauto. Qed.
Lemma remove_next_red Q k f p : remove_next Q k → remove_next_black Q (f :: k) RB_RED p.
Proof. intros [Hup Hstop]. split; [|done]. intros. eapply Hup; eauto. Qed.

Lemma wp_remove_left (Q : option (Z * Z) → rb_heap → Prop) k c t p sib m b h s :
  here k (T c t p sib) s → is_rb t m → color t = RB_BLACK → is_rb sib (S m) →
  (c = RB_RED → color sib = RB_BLACK) → node_height c (S m) h → rbc k b h → (c = RB_RED → b = true) →
  remove_next Q k → runs (remove_color_left hd p) Q s.
Proof.
  intros H Ht Hct Hs Hcs Hh Hk Hb HQ. unfold remove_color_left.
  inversion Hs as [|sl y sr ? Hl Hr Hcl Hcr|sl y sr ? Hl Hr]; subst.
  - destruct Hh as [[-> _]|[-> ->]]; [by specialize (Hcs eq_refl)|].
    inversion Hl as [|? ? ? ? ? ? ? ?|a z d ? Ha Hd]; subst; [done|].
    repeat here_go. rewrite here_FL in H0.
    eapply (wp_remove_left_black _ _ RB_RED _ _ _ _ _ m (S m) true);
      [done..|by left|by econstructor|done|by apply remove_next_red].
  - repeat here_go. by eapply wp_remove_left_black; eauto using remove_next_same.
Qed.

Lemma wp_remove_right (Q : option (Z * Z) → rb_heap → Prop) k c t p sib m b h s :
  here k (T c sib p t) s → is_rb t m → color t = RB_BLACK → is_rb sib (S m) →
  (c = RB_RED → color sib = RB_BLACK) → node_height c (S m) h → rbc k b h → (c = RB_RED → b = true) →
  remove_next Q k → runs (remove_color_right hd p) Q s.
Proof.
  intros H Ht Hct Hs Hcs Hh Hk Hb HQ. unfold remove_color_right.
  inversion Hs as [|sl y sr ? Hl Hr Hcl Hcr|sl y sr ? Hl Hr]; subst.
  - destruct Hh as [[-> _]|[-> ->]]; [by specialize (Hcs eq_refl)|].
    inversion Hr as [|? ? ? ? ? ? ? ?|a z d ? Ha Hd]; subst; [done|].
    repeat here_go. rewrite here_FR in H0.
    eapply (wp_remove_right_black _ _ RB_RED _ _ _ _ _ m (S m) true);
      [done..|by left|by econstructor|done|by apply remove_next_red].
  - repeat here_go. by eapply wp_remove_right_black; eauto using remove_next_same.
Qed.

Lemma elem_of_croot k f : k ≠ [] → croot k f ∈ before k ++ after k.
Proof.
  revert f. induction k as [|[c x t|c x t] k IH]; intros f Hk; simpl; [done|..];
    (destruct k; [simpl; elem_solve|]); specialize (IH x ltac:(done)); elem_solve.
Qed.

Lemma here_not_root k t s : here k t s → k ≠ [] → root t =? croot k (root t) = false.
Proof.
  intros H Hk. destruct (here_nodup _ _ _ _ _ _ H) as [Hn H0]. unfold els in *.
  pose proof (elem_of_croot k (root t) Hk) as Hc.
  apply Z.eqb_neq. intros Heq. rewrite <- Heq in Hc. destruct t as [|c l x r]; simpl in *.
  - elem_solve.
  - elem_solve.
Qed.

Lemma here_siblings k c l p r m s : here k (T c l p r) s → is_rb l (S m) → root l =? root r = false.
Proof.
  intros H Hl. destruct (here_nodup _ _ _ _ _ _ H) as [Hn H0]. unfold els in *. apply Z.eqb_neq.
  assert (∃ c' a y b, l = T c' a y b) as (c' & a & y & b & ->) by (inversion Hl; eauto).
  destruct r as [|c'' a' y' b']; simpl in *; elem_solve.
Qed.

(** The loop: it ends at a node that only has to be black. *)
Definition remove_done (Q : Z → rb_heap → Prop) : Prop :=
  ∀ k u b n s, here k u s → is_rb (blacken u) n → rbc k b n → Q (root u) s.

Lemma wp_remove_stop_red (Q : Z → rb_heap → Prop) fuel k b m l x r s :
  here k (T RB_RED l x r) s → is_rb l m → is_rb r m → rbc k b (S m) → remove_done Q →
  runs (remove_color_loop (S fuel) hd (cpar k) x) Q s.
Proof.
  intros H Hl Hr Hk HQ. cbn [remove_color_loop]. do 2 here_go. apply wp_bind.
  eapply wp_RB_ROOT; [by eapply here_root|]. repeat here_go.
  eapply (HQ _ (T RB_RED l x r)); [done|by constructor|done].
Qed.

Lemma wp_remove_loop fuel (Q : Z → rb_heap → Prop) k u s :
  here k u s → short k u → (0 < fuel)%nat → color u = RB_RED ∨ (length k < fuel)%nat → remove_done Q →
  runs (remove_color_loop fuel hd (cpar k) (root u)) Q s.
Proof.
  revert k u s. induction fuel as [|fuel IH]; intros k u s H Hshort Hpos Hf HQ; [lia|].
  destruct Hshort as [b m u Hu Hc Hk|b m l x r Hl Hr Hk]; [|by eapply wp_remove_stop_red].
  rewrite Hc in Hf. destruct Hf as [?|Hf]; [done|].
  cbn [remove_color_loop]. apply wp_bind. eapply (here_is_black _ _ _ _ []); [done|]. rewrite Hc.
  apply wp_bind. eapply wp_RB_ROOT; [by eapply here_root|]. rewrite Z.eqb_refl. cbn [andb].
  destruct k as [|f k].
  { simpl. rewrite Z.eqb_refl. simpl. eapply HQ; [done|by erewrite blacken_black|constructor]. }
  rewrite (here_not_root _ _ _ H) by done. cbn [negb].
  assert (Hnext : remove_next (λ o s', runs
    (match o with Some (parent, elm) => remove_color_loop fuel hd parent elm | None => RB_ROOT hd end) Q s') k).
  { split.
    - intros k' c l x r s' H' Hshort [-> | ->].
      + apply (IH k' (T RB_RED l x r)); [done..|simpl in *; lia|by left|done].
      + apply (IH k (T c l x r)); [done..|simpl in *; lia|right; simpl in *; lia|done].
    - intros k' t b' n s' H' Ht Hk' Hb'. eapply wp_RB_ROOT; [by eapply here_root|].
      destruct (is_rb_plug _ _ _ _ Hk' Ht Hb') as [Hcol [h Hh]]. rewrite <- root_plug.
      eapply (HQ []); [apply here_plug; by rewrite app_nil_r|by erewrite blacken_black|constructor]. }
  inversion Hk as [|p sib ? ? Hs Hcs Hk'|p sib ? ? Hs Hcs Hk'|p sib ? b' ? Hs Hk'|p sib ? b' ? Hs Hk']; subst;
    rewrite <- ?here_FL, <- ?here_FR in H; cbn [cpar]; do 2 here_go.
  1,3: rewrite Z.eqb_refl; apply wp_bind.
  3,4: rewrite (here_siblings _ _ _ _ _ _ _ H Hs); apply wp_bind.
  - eapply (wp_remove_left _ _ RB_RED); [done..|by left|done|done|done].
  - eapply (wp_remove_left _ _ RB_BLACK); [done..|by right|done|done|done].
  - eapply (wp_remove_right _ _ RB_RED); [done..|by left|done|done|done].
  - eapply (wp_remove_right _ _ RB_BLACK); [done..|by right|done|done|done].
Qed.

(** The trees that the loops leave are the whole tree, in order. *)
Lemma here_whole k t s : here k t s → here [] (plug k t) s ∧ elements (plug k t) = D.
Proof.
  intros H. split; [apply here_plug; by rewrite app_nil_r|]. rewrite elements_plug. apply H.
Qed.

Lemma wp_RB_REMOVE_COLOR (Q : unit → rb_heap → Prop) k u s :
  here k u s → short k u → (length k < rb_fuel s)%nat →
  (∀ s' t, here [] t s' → balanced t → Q tt s') →
  runs (RB_REMOVE_COLOR hd (cpar k) (root u)) Q s.
Proof.
  intros H Hshort Hf HQ. unfold RB_REMOVE_COLOR. apply wp_bind, wp_gets, wp_bind.
  eapply wp_remove_loop; [done..|unfold rb_fuel; lia|by right|].
  intros k' u' b n s' H' Hu Hk.
  assert (Hbal : balanced (plug k' (blacken u'))).
  { eapply is_rb_plug; [done..|]. by destruct u'. }
  destruct u' as [|c l x r]; simpl.
  - eapply HQ; [|exact Hbal]. by apply here_whole.
  - assert (Hx : x =? NULL = false).
    { destruct (here_nodup _ _ _ _ _ _ H') as [Hn H0]. unfold els in *. simpl in *.
      apply Z.eqb_neq. elem_solve. }
    rewrite Hx. simpl. here_go. eapply HQ; [|exact Hbal]. by apply here_whole.
Qed.

Lemma wp_RB_INSERT_COLOR (Q : unit → rb_heap → Prop) k l x r b n s :
  here k (T RB_RED l x r) s → is_rb (T RB_RED l x r) n → rbc k b n → (length k < rb_fuel s)%nat →
  (∀ s' t, here [] t s' → balanced t → Q tt s') →
  runs (RB_INSERT_COLOR hd x) Q s.
Proof.
  intros H Ht Hk Hf HQ. unfold RB_INSERT_COLOR. apply wp_bind, wp_gets, wp_bind.
  eapply wp_insert_loop; [done..|]. intros s' t m H' Ht'.
  apply wp_bind. eapply wp_RB_ROOT; [by eapply here_root|].
  assert (Ht0 : t ≠ E).
  { intros ->. destruct (here_whole _ _ _ H') as [_ HD']. destruct (here_whole _ _ _ H) as [_ HD].
    assert (Hin : x ∈ D) by (rewrite <- HD, elements_plug; unfold els; simpl; elem_solve).
    rewrite <- HD' in Hin. by apply elem_of_nil in Hin. }
  destruct t as [|c l' y r']; [done|]. simpl. here_go. eapply HQ; [done|]. by eapply (is_rb_blacken (T c l' y r')).
Qed.

End remove_color.
