(* ===== verification/RbTreeProps.v ===== *)
(** * The red-black tree of libxhook: correctness

    A head whose tree is a red-black search tree by pathname is a finite map
    from pathnames to nodes: RB_FIND looks up, RB_INSERT adds, RB_REMOVE
    deletes, RB_NEXT, RB_PREV, RB_MINMAX and the FOREACH macros enumerate in
    the order of strcmp.  No operation fails, runs out of fuel or touches
    another tree. *)

From Stdlib Require Import Sorting.Sorted.
From S2P Require Import Prelude RbTree RbTreeRep RbTreeColor.

(** ** strcmp is a total order on C strings *)

Definition c_string (p : list Z) : Prop := Forall (λ c, 0 < c < 256) p.

Lemma strcmp_refl p : strcmp p p = 0.
Proof. induction p as [|c p IH]; simpl; [done|]. by rewrite Z.eqb_refl. Qed.

Lemma strcmp_antisym p q : strcmp q p = - strcmp p q.
Proof.
  revert q. induction p as [|c p IH]; intros [|d q]; simpl; try lia.
  rewrite (Z.eqb_sym d c). destruct (c =? d); [done|lia].
Qed.

Lemma u8_char c : 0 < c < 256 → u8 c = c.
Proof. intros. apply wrap_small. lia. Qed.

Lemma strcmp_eq_0 p q : c_string p → c_string q → strcmp p q = 0 → p = q.
Proof.
  intros Hp. revert q. induction Hp as [|c p Hc Hp IH]; intros [|d q] Hq; simpl; [done|..].
  - apply Forall_cons in Hq as [Hd _]. rewrite u8_char by done. lia.
  - rewrite u8_char by done. lia.
  - apply Forall_cons in Hq as [Hd Hq]. rewrite !u8_char by done.
    destruct (Z.eqb_spec c d) as [->|Hne]; [|lia]. intros H. f_equal. by apply IH.
Qed.

Lemma strcmp_trans p q r :
  c_string p → c_string q → c_string r → strcmp p q < 0 → strcmp q r < 0 → strcmp p r < 0.
Proof.
  intros Hp. revert q r. induction Hp as [|c p Hc Hp IH]; intros [|d q] [|e r] Hq Hr; simpl; try lia.
  - apply Forall_cons in Hq as [Hd Hq]. apply Forall_cons in Hr as [He Hr]. rewrite !u8_char by done. lia.
  - apply Forall_cons in Hr as [He Hr]. rewrite !u8_char by done. lia.
  - apply Forall_cons in Hq as [Hd Hq]. rewrite !u8_char by done. lia.
  - apply Forall_cons in Hq as [Hd Hq]. apply Forall_cons in Hr as [He Hr]. rewrite !u8_char by done.
    destruct (Z.eqb_spec c d), (Z.eqb_spec d e), (Z.eqb_spec c e); subst; try lia.
    by apply (IH q r).
Qed.

(** ** Search trees *)

Definition name (s : rb_heap) (x : Z) : list Z := default [] (pathnames s !! x).
Definition before_name (s : rb_heap) (x y : Z) : Prop := strcmp (name s x) (name s y) < 0.

(** [x] has a pathname, which is a C string. *)
Definition named (s : rb_heap) (x : Z) : Prop := is_Some (pathnames s !! x) ∧ c_string (name s x).

Record rb_tree (hd : Z) (t : tree) (s : rb_heap) : Prop := RbTreeInv {
  rt_tree : tree_at hd [] t s;
  rt_balanced : balanced t;
  rt_named : Forall (named s) (elements t);
  rt_sorted : StronglySorted (before_name s) (elements t)
}.

(** The finite map a tree is. *)
Definition tree_map (s : rb_heap) (t : tree) : gmap (list Z) Z :=
  list_to_map ((λ x, (name s x, x)) <$> elements t).

Lemma name_eq s x p : pathnames s !! x = Some p → name s x = p.
Proof. unfold name. by intros ->. Qed.

Lemma wp_cmp (Q : Z → rb_heap → Prop) s x y :
  named s x → named s y → Q (strcmp (name s x) (name s y)) s → runs (xh_core_map_info_cmp x y) Q s.
Proof.
  intros [[p Hp] _] [[q Hq] _] HQ. unfold xh_core_map_info_cmp, pathname.
  apply wp_bind, wp_bind, wp_gets. rewrite Hp. apply wp_ret, wp_bind, wp_bind, wp_gets. rewrite Hq.
  apply wp_ret, wp_ret. by rewrite (name_eq _ _ _ Hp), (name_eq _ _ _ Hq) in HQ.
Qed.

Lemma sorted_app {A} (R : A → A → Prop) l m :
  StronglySorted R (l ++ m) ↔ StronglySorted R l ∧ StronglySorted R m ∧ ∀ x y, x ∈ l → y ∈ m → R x y.
Proof.
  induction l as [|a l IH]; simpl.
  - split; [intros H; split_and!; [constructor|done|]; intros x y Hx; by apply elem_of_nil in Hx|by intros (? & ? & ?)].
  - split.
    + intros [Hs Ha]%StronglySorted_inv. apply IH in Hs as (Hl & Hm & Hlm).
      rewrite Forall_forall in Ha. split_and!; [|done|].
      * constructor; [done|]. apply Forall_forall. intros x Hx. apply Ha. apply elem_of_app. auto.
      * intros x y [->|Hx]%elem_of_cons Hy; [|by apply Hlm]. apply Ha. apply elem_of_app. auto.
    + intros (Hl & Hm & Hlm). apply StronglySorted_inv in Hl as [Hl Ha]. constructor.
      * apply IH. split_and!; [done..|]. intros x y Hx Hy. apply Hlm; [|done]. by apply elem_of_cons; right.
      * rewrite Forall_forall in *. intros x [Hx|Hx]%elem_of_app; [by apply Ha|].
        apply Hlm; [|done]. by apply elem_of_cons; left.
Qed.

Lemma sorted_cons {A} (R : A → A → Prop) x l :
  StronglySorted R (x :: l) ↔ StronglySorted R l ∧ Forall (R x) l.
Proof. split; [apply StronglySorted_inv|]. intros []. by constructor. Qed.

(** *** Fuel *)

Lemma rep_dom m p t x : rep m p t → x ∈ elements t → is_Some (m !! x).
Proof.
  revert p. induction t as [|c l IHl y r IHr]; simpl; intros p Ht Hx; [by apply elem_of_nil in Hx|].
  destruct Ht as (Hy & Hl & Hr). apply elem_of_app in Hx as [Hx|[->|Hx]%elem_of_cons]; eauto.
Qed.

Lemma rep_fuel m p t : rep m p t → NoDup (elements t) → (length (elements t) ≤ size m)%nat.
Proof.
  intros Ht Hn. rewrite <- size_dom, <- (size_list_to_set (C := gset Z)) by done.
  apply subseteq_size. intros x Hx. apply elem_of_list_to_set in Hx. apply elem_of_dom. by eapply rep_dom.
Qed.

Lemma tree_fuel hd k t s : tree_at hd k t s → (length (els k t) < rb_fuel s)%nat.
Proof.
  rewrite tree_at_top. intros [_ _ Ht Hn _]. unfold els in Hn. simpl in *. rewrite app_nil_r in Hn.
  apply rep_fuel in Ht; [|done]. rewrite elements_plug in Ht. unfold rb_fuel. lia.
Qed.

Lemma only_fuel hd D s s' : only hd D s s' → rb_fuel s' = rb_fuel s.
Proof. intros [_ _ Hd _]. unfold rb_fuel. by rewrite <- !size_dom, Hd. Qed.

(** ** The height *)

Lemma is_rb_size t n : is_rb t n → 2 ^ Z.of_nat n ≤ Z.of_nat (length (elements t)) + 1.
Proof.
  induction 1 as [|l x r n Hl IHl Hr IHr _ _|l x r n Hl IHl Hr IHr]; simpl; [lia|..];
    rewrite length_app; simpl; [lia|]. rewrite Nat2Z.inj_succ, Z.pow_succ_r by lia. lia.
Qed.

Lemma is_rb_height t n :
  is_rb t n → (height t ≤ 2 * n + 1)%nat ∧ (color t = RB_BLACK → (height t ≤ 2 * n)%nat).
Proof.
  induction 1 as [|l x r n Hl [IHl IHl'] Hr [IHr IHr'] Hcl Hcr|l x r n Hl [IHl _] Hr [IHr _]]; simpl.
  - split; lia.
  - specialize (IHl' Hcl). specialize (IHr' Hcr). split; [lia|done].
  - split; lia.
Qed.

(** ** Searching *)

Section search.
Context (hd : Z).

(** What the loops need of the subtree they are in. *)
Lemma tree_at_sub hd' k c l x r s :
  tree_at hd' k (T c l x r) s → tree_at hd' (FL c x r :: k) l s ∧ tree_at hd' (FR c x l :: k) r s.
Proof. intros H. split; [by apply tree_at_FL|by apply tree_at_FR]. Qed.

(** The nodes that compare equal to the key [elm] in a sorted list. *)
Definition lookup_res (s : rb_heap) (elm : Z) (l : list Z) (x : Z) : Prop :=
  (x ∈ l ∧ name s x = name s elm) ∨ (x = NULL ∧ ∀ y, y ∈ l → name s y ≠ name s elm).

Lemma wp_find_loop (Q : Z → rb_heap → Prop) fuel elm k t s :
  tree_at hd k t s → (height t ≤ fuel)%nat → named s elm → Forall (named s) (elements t) →
  StronglySorted (before_name s) (elements t) →
  (∀ x, lookup_res s elm (elements t) x → Q x s) → runs (find_loop fuel elm (root t)) Q s.
Proof.
  revert fuel k Q. induction t as [|c l IHl x r IHr]; intros fuel k Q Ht Hf He Hn Hs HQ.
  { destruct fuel; apply wp_ret, HQ; right; (split; [done|]); intros y Hy; by apply elem_of_nil in Hy. }
  pose proof (tree_at_null _ _ _ _ Ht) as Hnull. cbn [root] in *.
  simpl in Hf. destruct fuel as [|fuel]; [lia|]. cbn [find_loop]. rewrite Hnull. simpl in Hn, Hs.
  apply Forall_app in Hn as [Hnl [Hnx Hnr]%Forall_cons].
  apply sorted_app in Hs as (Hsl & [Hsr Hxr]%sorted_cons & Hlx).
  apply wp_bind, wp_cmp; [done..|]. destruct (tree_at_sub _ _ _ _ _ _ _ Ht) as [Htl Htr].
  destruct (Z.ltb_spec (strcmp (name s elm) (name s x)) 0) as [Hlt|Hge].
  - apply wp_bind. eapply wp_RB_LEFT; [by eapply tree_at_node|]. cbn [rbe_left].
    eapply IHl; [done|lia|done..|]. intros y [[Hy Heq]|[-> Hy]]; apply HQ.
    + left. split; [|done]. simpl. apply elem_of_app. auto.
    + right. split; [done|]. simpl. intros z [Hz|[->|Hz]%elem_of_cons]%elem_of_app; [by apply Hy|..].
      * intros Heq. rewrite Heq, strcmp_refl in Hlt. lia.
      * intros Heq. rewrite Forall_forall in Hxr. specialize (Hxr z Hz). unfold before_name in Hxr.
        rewrite Heq, strcmp_antisym in Hxr. lia.
  - destruct (strcmp (name s elm) (name s x) >? 0) eqn:Hgt.
    + apply wp_bind. eapply wp_RB_RIGHT; [by eapply tree_at_node|]. cbn [rbe_right].
      eapply IHr; [done|lia|done..|]. intros y [[Hy Heq]|[-> Hy]]; apply HQ.
      * left. split; [|done]. simpl. apply elem_of_app. right. by apply elem_of_cons; right.
      * right. split; [done|]. simpl. intros z [Hz|[->|Hz]%elem_of_cons]%elem_of_app; [..|by apply Hy].
        -- intros Heq. specialize (Hlx z x Hz ltac:(apply elem_of_cons; auto)). unfold before_name in Hlx.
           rewrite Heq in Hlx. lia.
        -- intros Heq. rewrite Heq, strcmp_refl in Hgt. done.
    + apply wp_ret, HQ. left. split; [simpl; apply elem_of_app; right; by apply elem_of_cons; left|].
      symmetry. apply strcmp_eq_0; [apply He|apply Hnx|lia].
Qed.

(** ** Insertion *)

(** [elm] goes between the nodes before and after the hole of [k]. *)
Definition insert_here (s : rb_heap) (elm : Z) (k : list frame) (comp : Z) : Prop :=
  match k with [] => True | FL _ _ _ :: _ => comp < 0 | FR _ _ _ :: _ => 0 ≤ comp end ∧
  Forall (λ y, before_name s y elm) (before k) ∧ Forall (before_name s elm) (after k).

Lemma before_name_trans s x y z :
  named s x → named s y → named s z → before_name s x y → before_name s y z → before_name s x z.
Proof. intros [_ Hx] [_ Hy] [_ Hz]. by apply strcmp_trans. Qed.

Lemma wp_insert_descend (Q : Z + Z * Z → rb_heap → Prop) fuel elm k t comp s :
  tree_at hd k t s → (height t ≤ fuel)%nat → named s elm → Forall (named s) (elements t) →
  StronglySorted (before_name s) (elements t) → insert_here s elm k comp →
  (∀ x, x ∈ elements t → name s x = name s elm → Q (inl x) s) →
  (∀ k' comp', plug k' E = plug k t → insert_here s elm k' comp' → Q (inr (cpar k', comp')) s) →
  runs (insert_descend fuel elm (root t) (cpar k) comp) Q s.
Proof.
  revert fuel k comp. induction t as [|c l IHl x r IHr]; intros fuel k comp Ht Hf He Hn Hs Hk Hin Hout.
  { destruct fuel; apply wp_ret; by apply Hout. }
  pose proof (tree_at_null _ _ _ _ Ht) as Hnull. cbn [root] in *.
  simpl in Hf. destruct fuel as [|fuel]; [lia|]. cbn [insert_descend]. rewrite Hnull. simpl in Hn, Hs, Hin.
  apply Forall_app in Hn as [Hnl [Hnx Hnr]%Forall_cons].
  apply sorted_app in Hs as (Hsl & [Hsr Hxr]%sorted_cons & Hlx).
  destruct Hk as (_ & Hb & Ha). rewrite Forall_forall in Hnl, Hnr, Hxr.
  apply wp_bind, wp_cmp; [done..|]. destruct (tree_at_sub _ _ _ _ _ _ _ Ht) as [Htl Htr].
  destruct (Z.ltb_spec (strcmp (name s elm) (name s x)) 0) as [Hlt|Hge].
  - apply wp_bind. eapply wp_RB_LEFT; [by eapply tree_at_node|]. cbn [rbe_left].
    apply (IHl fuel (FL c x r :: k)); [done|lia|done|by apply Forall_forall|done| | |done].
    + split_and!; [done|done|]. simpl. apply Forall_cons. split; [done|]. apply Forall_app. split; [|done].
      apply Forall_forall. intros y Hy. apply (before_name_trans s elm x y); auto.
    + intros y Hy. apply Hin. apply elem_of_app. auto.
  - destruct (strcmp (name s elm) (name s x) >? 0) eqn:Hgt.
    + apply wp_bind. eapply wp_RB_RIGHT; [by eapply tree_at_node|]. cbn [rbe_right].
      assert (Hxe : before_name s x elm) by (unfold before_name; rewrite strcmp_antisym; lia).
      apply (IHr fuel (FR c x l :: k)); [done|lia|done|by apply Forall_forall|done| | |done].
      * split_and!; [done| |done]. simpl. rewrite !Forall_app, Forall_singleton. split_and!; [done| |done].
        apply Forall_forall. intros y Hy. apply (before_name_trans s y x elm); auto.
        apply Hlx; [done|]. apply elem_of_cons. auto.
      * intros y Hy. apply Hin. apply elem_of_app. right. by apply elem_of_cons; right.
    + apply wp_ret, Hin; [apply elem_of_app; right; by apply elem_of_cons; left|].
      symmetry. apply strcmp_eq_0; [apply He|apply Hnx|lia].
Qed.

Lemma els_insert k x : elements (plug k E) = before k ++ after k ∧ els k (T RB_RED E x E) = before k ++ x :: after k.
Proof. by rewrite elements_plug. Qed.

Lemma only_named D s s' : only hd D s s' → (∀ x, name s' x = name s x) ∧ (∀ x, named s x → named s' x) ∧
  (∀ x y, before_name s x y → before_name s' x y).
Proof. intros [_ _ _ Hp]. unfold named, before_name, name. rewrite Hp. done. Qed.

Lemma sorted_impl {A} (R R' : A → A → Prop) l :
  (∀ x y, R x y → R' x y) → StronglySorted R l → StronglySorted R' l.
Proof. intros HR. induction 1; constructor; [done|]. eapply Forall_impl; [done|]. auto. Qed.

(** A balanced tree whose nodes are those of a sorted list of named nodes. *)
Lemma rb_tree_intro D s s' t :
  tree_at hd [] t s' → balanced t → only hd D s s' → Forall (named s) (elements t) →
  StronglySorted (before_name s) (elements t) → rb_tree hd t s'.
Proof.
  intros Ht Hb Ho Hn Hs. destruct (only_named _ _ _ Ho) as (_ & Hnm & Hbn). split; [done|done|..].
  - by eapply Forall_impl.
  - by eapply sorted_impl.
Qed.

Lemma wp_RB_INSERT (Q : Z → rb_heap → Prop) elm t s :
  rb_tree hd t s → named s elm → elm ≠ NULL → elm ∉ elements t → is_Some (rb_links s !! elm) →
  (∀ x, x ∈ elements t → name s x = name s elm → Q x s) →
  (∀ s' t' l1 l2, rb_tree hd t' s' → only hd (elm :: elements t) s s' →
     elements t = l1 ++ l2 → elements t' = l1 ++ elm :: l2 →
     Forall (λ y, before_name s y elm) l1 → Forall (before_name s elm) l2 → Q NULL s') →
  runs (RB_INSERT hd elm) Q s.
Proof.
  intros [Ht Hbal Hn Hs] He He0 Hel Hnode Hfound Hnew. unfold RB_INSERT.
  pose proof (tree_fuel _ _ _ _ Ht) as Hf. apply wp_bind, wp_gets, wp_bind.
  eapply wp_RB_ROOT; [apply Ht|]. apply wp_bind. cbn [croot].
  eapply (wp_insert_descend _ _ _ [] t 0); [done| |done..| |].
  { pose proof (height_elements t). unfold els in Hf. rewrite !length_app in Hf. lia. }
  { intros x Hx Hxe. apply wp_ret. by apply Hfound. }
  intros k comp Hplug (Hcomp & Hb & Ha). simpl in Hplug. subst t.
  destruct (els_insert k elm) as [He1 He2]. rewrite He1 in *.
  assert (Hk : tree_at hd k E s) by (by apply tree_at_top).
  assert (Hnd : els k E = before k ++ after k) by done.
  destruct Hbal as [Hcol [n Hrb]].
  destruct (is_rb_unplug k [] false n E) as (b & m & Hrbc & Hrm & _); [constructor|done|by rewrite Hcol|].
  rewrite app_nil_r in Hrbc. inversion Hrm; subst m.
  apply wp_seq. eapply wp_link; [done|by rewrite Hnd|done|done|done|].
  intros s1 Ht1 Ho1.
  assert (Hhere : here hd (before k ++ elm :: after k) s k (T RB_RED E elm E) s1).
  { split_and!; [done| |done]. eapply only_mono; [|exact Ho1]. rewrite Hnd. elem_solve. }
  apply wp_bind. eapply wp_RB_INSERT_COLOR; [exact Hhere|by constructor|done| |].
  { rewrite (only_fuel _ _ _ _ Ho1). rewrite Hnd in *. unfold els in Hf. simpl in Hf.
    rewrite elements_plug, app_nil_r, Hnd in Hf. pose proof (ctx_length k). rewrite !length_app in Hf. lia. }
  intros s2 t2 H2 Hbal2. apply wp_ret.
  assert (Hel2 : elements t2 = before k ++ elm :: after k).
  { destruct (here_whole _ _ _ _ _ _ H2) as [_ HD]. done. }
  destruct H2 as (Ht2 & Ho2 & _). eapply Hnew; [|eapply only_mono; [|exact Ho2]; elem_solve|done..].
  eapply rb_tree_intro; [done|done|exact Ho2|..]; rewrite Hel2.
  - apply Forall_app in Hn as [Hn1 Hn2]. apply Forall_app. auto.
  - apply sorted_app in Hs as (Hs1 & Hs2 & Hs12). apply sorted_app. split_and!; [done|by apply sorted_cons|].
    rewrite Forall_forall in Hb. intros x y Hx [->|Hy]%elem_of_cons; auto.
Qed.

(** ** Walks *)

Lemma plug_at t x : x ∈ elements t → ∃ k c l r, t = plug k (T c l x r).
Proof.
  induction t as [|c l IHl y r IHr]; simpl; intros Hx; [by apply elem_of_nil in Hx|].
  apply elem_of_app in Hx as [Hx|[->|Hx]%elem_of_cons].
  - destruct (IHl Hx) as (k & c' & l' & r' & ->). exists (k ++ [FL c y r]), c', l', r'. by rewrite plug_app.
  - by exists [], c, l, r.
  - destruct (IHr Hx) as (k & c' & l' & r' & ->). exists (k ++ [FR c y l]), c', l', r'. by rewrite plug_app.
Qed.

(** The node [x] of a tree, with what is before and after it. *)
Lemma tree_at_split t x l1 l2 s :
  tree_at hd [] t s → elements t = l1 ++ x :: l2 →
  ∃ k c l r, t = plug k (T c l x r) ∧ tree_at hd k (T c l x r) s ∧
    l1 = before k ++ elements l ∧ l2 = elements r ++ after k.
Proof.
  intros Ht Hl. destruct (plug_at t x) as (k & c & l & r & ->).
  { rewrite Hl. apply elem_of_app. right. by apply elem_of_cons; left. }
  exists k, c, l, r. apply tree_at_top in Ht. split_and!; [done|done|..];
    rewrite elements_plug in Hl; pose proof (ta_nodup _ _ _ _ Ht) as Hn; unfold els in *; simpl in *;
    rewrite <- app_assoc, app_assoc in Hl; simpl in Hl; rewrite <- app_assoc, app_assoc in Hn; simpl in Hn;
    destruct (NoDup_split _ _ _ _ _ Hn Hl) as [<- <-]; done.
Qed.

Lemma wp_leftmost (Q : Z → rb_heap → Prop) fuel k t s :
  tree_at hd k t s → t ≠ E → (height t ≤ fuel)%nat →
  (∀ k' c x r, t = plug k' (T c E x r) → before k' = [] → Q x s) → runs (leftmost fuel (root t)) Q s.
Proof.
  revert fuel k Q. induction t as [|c l IHl x r _]; intros fuel k Q Ht Hne Hf HQ; [done|].
  simpl in Hf. destruct fuel as [|fuel]; [lia|]. cbn [leftmost root]. apply wp_bind.
  eapply wp_RB_LEFT; [by eapply tree_at_node|]. cbn [rbe_left].
  destruct (tree_at_sub _ _ _ _ _ _ _ Ht) as [Htl _]. rewrite (tree_at_null _ _ _ _ Htl).
  destruct l as [|c' l' y r']; cbn [negb].
  - apply wp_ret. by apply (HQ [] c x r).
  - eapply IHl; [done|done|lia|]. intros k' c2 z r2 Hl Hb.
    apply (HQ (k' ++ [FL c x r]) c2 z r2); [by rewrite plug_app, <- Hl|by rewrite before_app, Hb].
Qed.

Lemma wp_rightmost (Q : Z → rb_heap → Prop) fuel k t s :
  tree_at hd k t s → t ≠ E → (height t ≤ fuel)%nat →
  (∀ k' c x l, t = plug k' (T c l x E) → after k' = [] → Q x s) → runs (rightmost fuel (root t)) Q s.
Proof.
  revert fuel k Q. induction t as [|c l _ x r IHr]; intros fuel k Q Ht Hne Hf HQ; [done|].
  simpl in Hf. destruct fuel as [|fuel]; [lia|]. cbn [rightmost root]. apply wp_bind.
  eapply wp_RB_RIGHT; [by eapply tree_at_node|]. cbn [rbe_right].
  destruct (tree_at_sub _ _ _ _ _ _ _ Ht) as [_ Htr]. rewrite (tree_at_null _ _ _ _ Htr).
  destruct r as [|c' l' y r']; cbn [negb].
  - apply wp_ret. by apply (HQ [] c x l).
  - eapply IHr; [done|done|lia|]. intros k' c2 z l2 Hr Ha.
    apply (HQ (k' ++ [FR c x l]) c2 z l2); [by rewrite plug_app, <- Hr|by rewrite after_app, Ha].
Qed.

Lemma wp_augment_up (Q : unit → rb_heap → Prop) fuel k c l x r s :
  tree_at hd k (T c l x r) s → (length k < fuel)%nat → Q tt s → runs (augment_up fuel x) Q s.
Proof.
  revert k c l x r. induction fuel as [|fuel IH]; intros k c l x r Ht Hf HQ; [lia|].
  cbn [augment_up]. apply wp_bind. eapply wp_RB_PARENT; [by eapply tree_at_node|]. cbn [rbe_parent].
  destruct k as [|[c' y t|c' y t] k]; simpl in *; [by apply wp_ret|..];
    rewrite ?tree_at_FL, ?tree_at_FR in Ht;
    rewrite (proj2 (Z.eqb_neq y NULL)) by (by eapply tree_at_ne); simpl; eapply IH; (done || lia).
Qed.

Lemma wp_augment_ctx (Q : unit → rb_heap → Prop) fuel k t s :
  tree_at hd k t s → (length k ≤ fuel)%nat → Q tt s →
  runs (when (negb (cpar k =? NULL)) (augment_up fuel (cpar k))) Q s.
Proof.
  intros Ht Hf HQ. destruct k as [|[c' y u|c' y u] k]; simpl in *; [by apply wp_ret|..];
    rewrite ?tree_at_FL, ?tree_at_FR in Ht;
    rewrite (proj2 (Z.eqb_neq y NULL)) by (by eapply tree_at_ne); simpl; eapply wp_augment_up; (done || lia).
Qed.

(** ** Removal *)

(** What is left when a node of color [c] that had the one subtree [u] goes. *)
Definition unlinked (c : Z) (k : list frame) (u : tree) : Prop :=
  (c = RB_RED ∧ balanced (plug k u)) ∨ (c = RB_BLACK ∧ short k u).

Lemma short_intro k u b m : is_rb u m → rbc k b (S m) → short k u.
Proof.
  intros Hu Hk. destruct (is_rb_color _ _ Hu) as [Hc|Hc]; [|by eapply short_black].
  inversion Hu; subst; try done. by eapply short_red.
Qed.

Lemma unlinked_intro c k l x r u b n :
  rbc k b n → is_rb (T c l x r) n → (l = E ∧ r = u) ∨ (r = E ∧ l = u) → unlinked c k u.
Proof.
  intros Hk Ht Hlr. inversion Ht as [|? ? ? ? Hl Hr Hcl Hcr|? ? ? m Hl Hr]; subst.
  - left. split; [done|]. eapply is_rb_plug; [done|..];
      destruct Hlr as [[-> ->]|[-> ->]]; rewrite ?Hcl, ?Hcr; done.
  - right. split; [done|]. eapply short_intro; [|done]. by destruct Hlr as [[-> ->]|[-> ->]].
Qed.

Lemma wp_remove_finish (Q : unit → rb_heap → Prop) D k u c s :
  tree_at hd k u s → unlinked c k u → els k u ⊆ D →
  (∀ s' t, tree_at hd [] t s' → balanced t → only hd D s s' → elements t = els k u → Q tt s') →
  runs (when (c =? RB_BLACK) (RB_REMOVE_COLOR hd (cpar k) (root u))) Q s.
Proof.
  intros Ht [[-> Hbal]|[-> Hshort]] HD HQ; simpl.
  - apply wp_ret. eapply (HQ _ (plug k u)); [by rewrite <- tree_at_top|done|apply only_refl|apply elements_plug].
  - eapply (wp_RB_REMOVE_COLOR _ (els k u) s); [split_and!; [done|apply only_refl|done]|done| |].
    + pose proof (tree_fuel _ _ _ _ Ht). pose proof (ctx_length k). rewrite length_els in *. lia.
    + intros s' t (Ht' & Ho & He) Hbal. rewrite <- elements_plug in He. simpl in He.
      eapply HQ; [done|done|by eapply only_mono|]. done.
Qed.

(** The node [x] has at most the child [u]. *)
Lemma wp_remove_one (Q : Z * Z * Z → rb_heap → Prop) k c l x r u s :
  tree_at hd k (T c l x r) s → (l = E ∧ r = u) ∨ (r = E ∧ l = u) →
  (∀ s', tree_at hd k u s' → only hd (els k (T c l x r)) s s' → Q (root u, cpar k, c) s') →
  runs ('(parent, color) ← rb_unlink hd x (root u); mret (root u, parent, color)) Q s.
Proof.
  intros Ht Hlr HQ. apply wp_bind. eapply wp_unlink; [done..|]. intros s' Ht' Ho _. by apply wp_ret, HQ.
Qed.

(** The node [old] has two children: its successor takes its place. *)
Lemma wp_remove_two (Q : Z * Z * Z → rb_heap → Prop) fuel k c l old r s :
  tree_at hd k (T c l old r) s → l ≠ E → r ≠ E → (length (els k (T c l old r)) ≤ fuel)%nat →
  (∀ s' kr ce elm rc, r = plug kr (T ce E elm rc) → before kr = [] →
     tree_at hd (kr ++ FR c elm l :: k) rc s' → only hd (els k (T c l old r)) s s' →
     Q (root rc, cpar (kr ++ FR c elm l :: k), ce) s') →
  runs (elm ← leftmost fuel (root r);
        child ← RB_RIGHT elm;
        '(parent, color) ← rb_unlink hd elm child;
        p ← RB_PARENT elm;
        let parent := if p =? old then elm else parent in
        rb_replace hd old elm;;
        when (negb (parent =? NULL)) (augment_up fuel parent);;
        mret (child, parent, color)) Q s.
Proof.
  intros Ht Hl Hr Hf HQ. destruct (tree_at_sub _ _ _ _ _ _ _ Ht) as [_ Htr].
  apply wp_bind. eapply wp_leftmost; [exact Htr|done| |].
  { pose proof (height_elements r). rewrite length_els in Hf. simpl in Hf. rewrite length_app in Hf. simpl in Hf. lia. }
  intros kr ce elm rc -> Hbr. clear Htr. set (K := kr ++ FR c old l :: k).
  assert (HtK : tree_at hd K (T ce E elm rc) s) by (by apply tree_at_plug, tree_at_FR).
  assert (HeK : els K (T ce E elm rc) = els k (T c l old (plug kr (T ce E elm rc)))).
  { unfold K. by rewrite <- els_plug, els_FR. }
  assert (Hnd := ta_nodup _ _ _ _ HtK). assert (H0 := ta_null _ _ _ _ HtK).
  rewrite <- HeK in *. unfold els, K in Hnd, H0. rewrite before_app, after_app, Hbr in Hnd, H0. simpl in Hnd, H0.
  assert (Helm := tree_at_node _ _ _ _ _ _ _ HtK). cbn [root] in Helm.
  apply wp_bind. eapply wp_RB_RIGHT; [exact Helm|]. cbn [rbe_right].
  apply wp_bind. eapply wp_unlink; [exact HtK|by left|]. intros s1 Ht1 Ho1 He1.
  rewrite Helm in He1. apply wp_bind. eapply wp_RB_PARENT; [exact He1|]. cbn [rbe_parent].
  set (parent := if cpar K =? old then elm else cpar K).
  assert (Hpar : parent = cpar (kr ++ FR c elm l :: k)).
  { unfold parent, K. destruct kr as [|[? y ?|? y ?] kr]; simpl in *; [by rewrite Z.eqb_refl|..].
    - rewrite (proj2 (Z.eqb_neq y old)); [done|elem_solve].
    - apply app_nil in Hbr as [_ [_ [=]]%app_nil]. }
  rewrite Hpar. clearbody parent. clear Hpar parent. cbv zeta.
  unfold K in Ht1. rewrite <- tree_at_plug, tree_at_FR in Ht1.
  assert (Hels1 : els k (T c l old (plug kr rc)) = before k ++ elements l ++ old :: elements rc ++ after kr ++ after k).
  { unfold els. simpl. rewrite elements_plug. unfold els. rewrite Hbr. simpl. by repeat (rewrite <- app_assoc; simpl). }
  apply wp_bind. eapply wp_replace; [exact Ht1|done| | |by eexists|].
  { rewrite Hels1. elem_solve. } { elem_solve. }
  intros s2 Ht2 Ho2. rewrite <- tree_at_FR, tree_at_plug in Ht2.
  apply wp_bind. eapply wp_augment_ctx; [exact Ht2| |].
  { pose proof (ctx_length (kr ++ FR c elm l :: k)) as Hlen. rewrite before_app, after_app, Hbr in Hlen.
    rewrite length_els in Hf. unfold K in Hf. rewrite before_app, after_app, Hbr in Hf. simpl in *.
    rewrite ?length_app in *. simpl in *. rewrite ?length_app in *. simpl in *. lia. }
  apply wp_ret. apply HQ; [done|done|exact Ht2|].
  eapply only_trans; [exact Ho1|]. eapply only_mono; [|exact Ho2]. rewrite Hels1. unfold els, K.
  rewrite before_app, after_app, Hbr. simpl. elem_solve.
Qed.

Lemma wp_remove_color_of (Q : Z → rb_heap → Prop) D k u c x s0 s :
  tree_at hd k u s → unlinked c k u → only hd D s0 s → els k u ⊆ D →
  (∀ s' t, tree_at hd [] t s' → balanced t → only hd D s0 s' → elements t = els k u → Q x s') →
  runs (when (c =? RB_BLACK) (RB_REMOVE_COLOR hd (cpar k) (root u));; mret x) Q s.
Proof.
  intros Ht Hu Ho HD HQ. apply wp_bind. eapply wp_remove_finish; [done..|].
  intros s' t Ht' Hb Ho' He. apply wp_ret. eapply HQ; [done..|by eapply only_trans|done].
Qed.

Lemma is_rb_rename c l x y r n : is_rb (T c l x r) n → is_rb (T c l y r) n.
Proof. inversion 1; subst; by constructor. Qed.

Lemma is_rb_plug_inner kr k b n c l x y r t :
  rbc k b n → is_rb (T c l x r) n → (c = RB_RED → b = true) → r = plug kr t →
  ∃ b' n', rbc (kr ++ FR c y l :: k) b' n' ∧ is_rb t n' ∧ (color t = RB_RED → b' = true).
Proof.
  intros Hk Ht Hc ->. apply (is_rb_rename _ _ _ y) in Ht.
  destruct (is_rb_unplug (kr ++ [FR c y l]) k b n t) as (b' & n' & H1 & H2 & H3);
    [done|by rewrite plug_app|by rewrite plug_app|].
  rewrite <- app_assoc in H1. eauto.
Qed.

Lemma wp_RB_REMOVE (Q : Z → rb_heap → Prop) x t l1 l2 s :
  rb_tree hd t s → elements t = l1 ++ x :: l2 →
  (∀ s' t', rb_tree hd t' s' → only hd (elements t) s s' → elements t' = l1 ++ l2 → Q x s') →
  runs (RB_REMOVE hd x) Q s.
Proof.
  intros [Ht Hbal Hn Hs] Hl HQ. pose proof (tree_fuel _ _ _ _ Ht) as Hf.
  destruct (tree_at_split _ _ _ _ _ Ht Hl) as (k & c & l & r & -> & Htk & -> & ->).
  assert (HQ' : ∀ s' t', tree_at hd [] t' s' → balanced t' → only hd (els k (T c l x r)) s s' →
            elements t' = (before k ++ elements l) ++ elements r ++ after k → Q x s').
  { intros s' t' Ht' Hb' Ho He. rewrite elements_plug in HQ. eapply HQ; [|done|done].
    rewrite Hl in Hn, Hs. apply Forall_app in Hn as [Hn1 [_ Hn2]%Forall_cons].
    apply sorted_app in Hs as (Hs1 & [Hs2 _]%sorted_cons & Hs12).
    eapply rb_tree_intro; [done|done|exact Ho|..]; rewrite He; [by apply Forall_app|].
    apply sorted_app. split_and!; [done..|]. intros a b Ha Hb. apply Hs12; [done|]. by apply elem_of_cons; right. }
  clear HQ Hn Hs Hl. destruct Hbal as [Hcol [n Hrb]].
  destruct (is_rb_unplug k [] false n (T c l x r)) as (b & m & Hrbc & Hrm & Hcb); [constructor|done|by rewrite Hcol|].
  rewrite app_nil_r in Hrbc. simpl in Hcb.
  unfold RB_REMOVE. apply wp_bind, wp_gets, wp_bind. pose proof (tree_at_node _ _ _ _ _ _ _ Htk) as Hx.
  eapply wp_RB_LEFT; [exact Hx|]. apply wp_bind. eapply wp_RB_RIGHT; [exact Hx|]. cbn [rbe_left rbe_right].
  destruct (tree_at_sub _ _ _ _ _ _ _ Htk) as [Htl Htr].
  rewrite (tree_at_null _ _ _ _ Htl), (tree_at_null _ _ _ _ Htr). apply wp_bind.
  assert (Hsub : ∀ u, (l = E ∧ r = u) ∨ (r = E ∧ l = u) → els k u = (before k ++ elements l) ++ elements r ++ after k).
  { intros u [[-> ->]|[-> ->]]; unfold els; simpl; by rewrite <- ?app_assoc. }
  assert (Hinc : (before k ++ elements l) ++ elements r ++ after k ⊆ els k (T c l x r)).
  { unfold els. simpl. intros z Hz. elem_split; elem_leaf. }
  destruct l as [|cl ll lx lr]; [|destruct r as [|cr rl rx rr]].
  - eapply wp_remove_one; [exact Htk|by left|]. intros s1 Ht1 Ho1.
    eapply wp_remove_color_of; [done|by eapply unlinked_intro; eauto|done|by rewrite (Hsub r) by auto|].
    intros s' t' Ht' Hb' Ho' He. apply (HQ' s' t'); [done..|]. rewrite He. apply Hsub. auto.
  - eapply wp_remove_one; [exact Htk|by right|]. intros s1 Ht1 Ho1.
    eapply wp_remove_color_of; [done|by eapply unlinked_intro; eauto|done|by rewrite (Hsub (T cl ll lx lr)) by auto|].
    intros s' t' Ht' Hb' Ho' He. apply (HQ' s' t'); [done..|]. rewrite He. apply Hsub. auto.
  - eapply wp_remove_two; [exact Htk|done|done| |].
    { unfold els in Hf at 1. simpl in Hf. rewrite app_nil_r, elements_plug in Hf. lia. }
    intros s1 kr ce elm rc Hr Hbr Ht1 Ho1.
    destruct (is_rb_plug_inner kr k b m c (T cl ll lx lr) x elm _ _ Hrbc Hrm Hcb Hr) as (b' & n' & Hk' & Hrc & Hc').
    assert (He1 : els (kr ++ FR c elm (T cl ll lx lr) :: k) rc =
              (before k ++ elements (T cl ll lx lr)) ++ elements (T cr rl rx rr) ++ after k).
    { rewrite Hr, elements_plug. unfold els. rewrite before_app, after_app, Hbr. simpl.
      by repeat (rewrite <- app_assoc; simpl). }
    eapply wp_remove_color_of; [done|by eapply unlinked_intro; eauto|done|by rewrite He1|].
    intros s' t' Ht' Hb' Ho' He. apply (HQ' s' t'); [done..|]. by rewrite He.
Qed.

(** ** Enumeration *)

Lemma sibling_ne k c' l x r c y t s :
  tree_at hd (FL c y t :: k) (T c' l x r) s ∨ tree_at hd (FR c y t :: k) (T c' l x r) s →
  x =? root t = false ∧ y =? NULL = false.
Proof.
  intros [[_ _ _ Hn H0]|[_ _ _ Hn H0]]; unfold els in *; simpl in *;
    (split; [rewrite Z.eqb_sym; apply Z.eqb_neq, root_ne|apply Z.eqb_neq]; elem_solve).
Qed.

Lemma first_elements_ne t m : t ≠ E → first (elements t ++ m) = first (elements t).
Proof. intros Ht. apply first_app. destruct t as [|c l x r]; [done|]. simpl. by destruct (elements l). Qed.

Lemma wp_climb_right (Q : Z → rb_heap → Prop) fuel k c l x r s :
  tree_at hd k (T c l x r) s → (length k < fuel)%nat →
  (∀ k' c' l' x' r', tree_at hd k' (T c' l' x' r') s → first (after k) = cpar k' → Q x' s) →
  runs (climb_right fuel x) Q s.
Proof.
  revert k c l x r. induction fuel as [|fuel IH]; intros k c l x r Ht Hf HQ; [lia|]. cbn [climb_right].
  apply wp_bind. eapply wp_RB_PARENT; [by eapply tree_at_node|]. cbn [rbe_parent].
  destruct k as [|[c' y t|c' y t] k]; cbn [cpar].
  - rewrite Z.eqb_refl. apply wp_ret. by eapply HQ.
  - destruct (sibling_ne k c l x r c' y t s) as [Hne ->]; [by left|].
    pose proof Ht as Ht'. rewrite tree_at_FL in Ht'. apply wp_bind.
    eapply wp_RB_RIGHT; [by eapply tree_at_node|]. cbn [rbe_right]. rewrite Hne. apply wp_ret. by eapply HQ.
  - destruct (sibling_ne k c l x r c' y t s) as [_ ->]; [by right|]. rewrite tree_at_FR in Ht. apply wp_bind.
    eapply wp_RB_RIGHT; [by eapply tree_at_node|]. cbn [rbe_right root]. rewrite Z.eqb_refl.
    simpl in Hf. eapply IH; [done|lia|done].
Qed.

Lemma wp_RB_NEXT (Q : Z → rb_heap → Prop) k c l x r s :
  tree_at hd k (T c l x r) s → Q (first (elements r ++ after k)) s → runs (RB_NEXT x) Q s.
Proof.
  intros Ht HQ. unfold RB_NEXT. pose proof (tree_fuel _ _ _ _ Ht) as Hf. rewrite length_els in Hf. simpl in Hf.
  rewrite length_app in Hf. simpl in Hf. destruct (tree_at_sub _ _ _ _ _ _ _ Ht) as [_ Htr].
  apply wp_bind, wp_gets, wp_bind. eapply wp_RB_RIGHT; [by eapply tree_at_node|]. cbn [rbe_right].
  rewrite (tree_at_null _ _ _ _ Htr). destruct r as [|cr rl rx rr]; cbn [negb].
  - pose proof (ctx_length k). apply wp_bind. unfold is_left_child. apply wp_bind.
    eapply wp_RB_PARENT; [by eapply tree_at_node|]. cbn [rbe_parent].
    assert (Hclimb : runs (elm ← climb_right (rb_fuel s) x; RB_PARENT elm) Q s).
    { apply wp_bind. eapply wp_climb_right; [done|lia|]. intros k' c' l' x' r' Ht' Hk'.
      eapply wp_RB_PARENT; [by eapply tree_at_node|]. cbn [rbe_parent]. by rewrite <- Hk'. }
    destruct k as [|[c' y t|c' y t] k]; cbn [cpar].
    + rewrite Z.eqb_refl. by apply wp_ret.
    + destruct (sibling_ne k c l x E c' y t s) as [_ ->]; [by left|].
      pose proof Ht as Ht'. rewrite tree_at_FL in Ht'. apply wp_bind.
      eapply wp_RB_LEFT; [by eapply tree_at_node|]. cbn [rbe_left root]. rewrite Z.eqb_refl. apply wp_ret.
      by eapply wp_RB_PARENT; [by eapply tree_at_node|].
    + destruct (sibling_ne k c l x E c' y t s) as [Hne ->]; [by right|].
      pose proof Ht as Ht'. rewrite tree_at_FR in Ht'. apply wp_bind.
      eapply wp_RB_LEFT; [by eapply tree_at_node|]. cbn [rbe_left]. rewrite Hne. by apply wp_ret.
  - eapply wp_leftmost; [exact Htr|done| |].
    + pose proof (height_elements (T cr rl rx rr)). simpl in *. lia.
    + intros k' c' y r' Hr Hb. rewrite Hr, first_elements_ne in HQ by (by rewrite <- Hr).
      rewrite elements_plug in HQ. unfold els in HQ. rewrite Hb in HQ. done.
Qed.

(** The mirror image. *)
Lemma last_of_elements_ne t m : t ≠ E → last_of (m ++ elements t) = last_of (elements t).
Proof. intros Ht. apply last_of_app. destruct t as [|c l x r]; [done|]. simpl. by destruct (elements l). Qed.

Lemma wp_climb_left (Q : Z → rb_heap → Prop) fuel k c l x r s :
  tree_at hd k (T c l x r) s → (length k < fuel)%nat →
  (∀ k' c' l' x' r', tree_at hd k' (T c' l' x' r') s → last_of (before k) = cpar k' → Q x' s) →
  runs (climb_left fuel x) Q s.
Proof.
  revert k c l x r. induction fuel as [|fuel IH]; intros k c l x r Ht Hf HQ; [lia|]. cbn [climb_left].
  apply wp_bind. eapply wp_RB_PARENT; [by eapply tree_at_node|]. cbn [rbe_parent].
  destruct k as [|[c' y t|c' y t] k]; cbn [cpar].
  - rewrite Z.eqb_refl. apply wp_ret. by eapply HQ.
  - destruct (sibling_ne k c l x r c' y t s) as [_ ->]; [by left|]. rewrite tree_at_FL in Ht. apply wp_bind.
    eapply wp_RB_LEFT; [by eapply tree_at_node|]. cbn [rbe_left root]. rewrite Z.eqb_refl.
    simpl in Hf. eapply IH; [done|lia|done].
  - destruct (sibling_ne k c l x r c' y t s) as [Hne ->]; [by right|].
    pose proof Ht as Ht'. rewrite tree_at_FR in Ht'. apply wp_bind.
    eapply wp_RB_LEFT; [by eapply tree_at_node|]. cbn [rbe_left]. rewrite Hne. apply wp_ret.
    eapply HQ; [done|]. simpl. by rewrite app_assoc, last_of_snoc.
Qed.

Lemma wp_RB_PREV (Q : Z → rb_heap → Prop) k c l x r s :
  tree_at hd k (T c l x r) s → Q (last_of (before k ++ elements l)) s → runs (RB_PREV x) Q s.
Proof.
  intros Ht HQ. unfold RB_PREV. pose proof (tree_fuel _ _ _ _ Ht) as Hf. rewrite length_els in Hf. simpl in Hf.
  rewrite length_app in Hf. simpl in Hf. destruct (tree_at_sub _ _ _ _ _ _ _ Ht) as [Htl _].
  apply wp_bind, wp_gets, wp_bind. eapply wp_RB_LEFT; [by eapply tree_at_node|]. cbn [rbe_left].
  rewrite (tree_at_null _ _ _ _ Htl). destruct l as [|cr rl rx rr]; cbn [negb].
  - simpl in HQ. rewrite app_nil_r in HQ.
    pose proof (ctx_length k). apply wp_bind. unfold is_right_child. apply wp_bind.
    eapply wp_RB_PARENT; [by eapply tree_at_node|]. cbn [rbe_parent].
    assert (Hclimb : runs (elm ← climb_left (rb_fuel s) x; RB_PARENT elm) Q s).
    { apply wp_bind. eapply wp_climb_left; [done|lia|]. intros k' c' l' x' r' Ht' Hk'.
      eapply wp_RB_PARENT; [by eapply tree_at_node|]. cbn [rbe_parent]. by rewrite <- Hk'. }
    destruct k as [|[c' y t|c' y t] k]; cbn [cpar].
    + rewrite Z.eqb_refl. by apply wp_ret.
    + destruct (sibling_ne k c E x r c' y t s) as [Hne ->]; [by left|].
      pose proof Ht as Ht'. rewrite tree_at_FL in Ht'. apply wp_bind.
      eapply wp_RB_RIGHT; [by eapply tree_at_node|]. cbn [rbe_right]. rewrite Hne. by apply wp_ret.
    + destruct (sibling_ne k c E x r c' y t s) as [_ ->]; [by right|].
      pose proof Ht as Ht'. rewrite tree_at_FR in Ht'. apply wp_bind.
      eapply wp_RB_RIGHT; [by eapply tree_at_node|]. cbn [rbe_right root]. rewrite Z.eqb_refl. apply wp_ret.
      eapply wp_RB_PARENT; [by eapply tree_at_node|]. simpl in HQ. by rewrite app_assoc, last_of_snoc in HQ.
  - eapply wp_rightmost; [exact Htl|done| |].
    + pose proof (height_elements (T cr rl rx rr)). simpl in *. lia.
    + intros k' c' y l' Hl Ha. rewrite Hl, last_of_elements_ne in HQ by (by rewrite <- Hl).
      rewrite elements_plug in HQ. unfold els in HQ. rewrite Ha in HQ. simpl in HQ.
      by rewrite app_nil_r, app_assoc, last_of_snoc in HQ.
Qed.

(** RB_MINMAX. *)
Lemma wp_minmax_loop (Q : Z → rb_heap → Prop) fuel val k t parent s :
  tree_at hd k t s → (height t ≤ fuel)%nat →
  Q (if t is E then parent else if val <? 0 then first (elements t) else last_of (elements t)) s →
  runs (minmax_loop fuel val (root t) parent) Q s.
Proof.
  revert fuel k parent. induction t as [|c l IHl x r IHr]; intros fuel k parent Ht Hf HQ.
  { destruct fuel; by apply wp_ret. }
  pose proof (tree_at_null _ _ _ _ Ht) as Hnull. cbn [root] in *. simpl in Hf. destruct fuel as [|fuel]; [lia|].
  cbn [minmax_loop]. rewrite Hnull. destruct (tree_at_sub _ _ _ _ _ _ _ Ht) as [Htl Htr]. apply wp_bind.
  destruct (val <? 0) eqn:Hval.
  - eapply wp_RB_LEFT; [by eapply tree_at_node|]. cbn [rbe_left]. eapply IHl; [done|lia|].
    cbn [elements] in HQ.
    destruct l as [|cl ll lx lr]; [done|]. by rewrite first_elements_ne in HQ.
  - eapply wp_RB_RIGHT; [by eapply tree_at_node|]. cbn [rbe_right]. eapply IHr; [done|lia|].
    cbn [elements] in HQ. destruct r as [|cr rl rx rr].
    + simpl in HQ. by rewrite last_of_snoc in HQ.
    + by rewrite cons_middle, app_assoc, last_of_elements_ne in HQ.
Qed.

Lemma wp_RB_MINMAX (Q : Z → rb_heap → Prop) val t s :
  tree_at hd [] t s → Q (if val <? 0 then first (elements t) else last_of (elements t)) s →
  runs (RB_MINMAX hd val) Q s.
Proof.
  intros Ht HQ. unfold RB_MINMAX. apply wp_bind, wp_gets, wp_bind. eapply wp_RB_ROOT; [apply Ht|]. cbn [croot].
  eapply wp_minmax_loop; [done| |by destruct t; destruct (val <? 0)].
  pose proof (tree_fuel _ _ _ _ Ht) as Hf. pose proof (height_elements t).
  unfold els in Hf. rewrite !length_app in Hf. lia.
Qed.

(** The successor and the predecessor, by position. *)
Lemma wp_RB_NEXT_split (Q : Z → rb_heap → Prop) t x l1 l2 s :
  tree_at hd [] t s → elements t = l1 ++ x :: l2 → Q (first l2) s → runs (RB_NEXT x) Q s.
Proof.
  intros Ht Hl HQ. destruct (tree_at_split _ _ _ _ _ Ht Hl) as (k & c & l & r & -> & Hk & -> & ->).
  by eapply wp_RB_NEXT.
Qed.

Lemma wp_RB_PREV_split (Q : Z → rb_heap → Prop) t x l1 l2 s :
  tree_at hd [] t s → elements t = l1 ++ x :: l2 → Q (last_of l1) s → runs (RB_PREV x) Q s.
Proof.
  intros Ht Hl HQ. destruct (tree_at_split _ _ _ _ _ Ht Hl) as (k & c & l & r & -> & Hk & -> & ->).
  by eapply wp_RB_PREV.
Qed.

End search.
