(* ===== verification/RbTreeMap.v ===== *)
(** * The red-black tree of libxhook as a finite map

    What a client of tree.h relies on: a tree is a finite map from pathnames
    to nodes, enumerated in the order of strcmp, and the two trees of a
    refresh do not disturb each other.  The operations on the maps are those
    of XhCore, which keeps the map infos in a [gmap]. *)

From Stdlib Require Import Sorting.Sorted.
From S2P Require Import Prelude RbTree RbTreeRep RbTreeColor RbTreeProps.

(** ** The map of a tree *)

Section map.
Context (hd : Z).

Lemma sorted_NoDup_names s l :
  Forall (named s) l → StronglySorted (before_name s) l → NoDup (name s <$> l).
Proof.
  induction 2 as [|x l Hs IH Hx]; simpl; [constructor|]. apply Forall_cons in H as [Hn H].
  constructor; [|by apply IH]. intros (y & Hy & Hin)%list_elem_of_fmap.
  rewrite Forall_forall in Hx. specialize (Hx y Hin). unfold before_name in Hx.
  rewrite <- Hy, strcmp_refl in Hx. lia.
Qed.

Lemma rb_tree_names t s : rb_tree hd t s → NoDup (((λ x, (name s x, x)) <$> elements t).*1).
Proof.
  intros [_ _ Hn Hs]. rewrite <- list_fmap_compose. by apply (sorted_NoDup_names s).
Qed.

Lemma tree_map_Some t s p x :
  rb_tree hd t s → tree_map s t !! p = Some x ↔ x ∈ elements t ∧ name s x = p.
Proof.
  intros Ht. unfold tree_map. rewrite <- elem_of_list_to_map by (by apply rb_tree_names).
  rewrite list_elem_of_fmap. naive_solver.
Qed.

Lemma tree_map_None t s p :
  rb_tree hd t s → tree_map s t !! p = None ↔ ∀ x, x ∈ elements t → name s x ≠ p.
Proof.
  intros Ht. rewrite eq_None_not_Some. split.
  - intros H x Hx Hp. apply H. exists x. by apply tree_map_Some.
  - intros H [x [Hx Hp]%tree_map_Some]; [|done]. by apply (H x).
Qed.

Lemma tree_map_ext s s' t : (∀ x, x ∈ elements t → name s' x = name s x) → tree_map s' t = tree_map s t.
Proof.
  intros Hn. unfold tree_map. f_equal. apply list_fmap_ext. intros i x Hx.
  rewrite Hn; [done|]. by eapply list_elem_of_lookup_2.
Qed.

Lemma rb_tree_ne t s x : rb_tree hd t s → x ∈ elements t → x ≠ NULL.
Proof.
  intros [[_ _ _ _ H0] _ _ _] Hx ->. apply H0. unfold els. simpl. by rewrite app_nil_r.
Qed.

(** ** What an operation on another tree, or a [free], leaves *)

Lemma sorted_impl_in {A} (R R' : A → A → Prop) l :
  (∀ x y, x ∈ l → y ∈ l → R x y → R' x y) → StronglySorted R l → StronglySorted R' l.
Proof.
  induction l as [|a l IH]; intros HR; [constructor|]. intros [Hs Ha]%sorted_cons. apply sorted_cons. split.
  - apply IH; [|done]. intros x y Hx Hy. apply HR; by apply elem_of_cons; right.
  - rewrite Forall_forall in *. intros x Hx. apply HR; [by apply elem_of_cons; left|by apply elem_of_cons; right|auto].
Qed.

Lemma rb_tree_agree t s s' :
  rb_tree hd t s → rbh_roots s' !! hd = rbh_roots s !! hd → agree (elements t) s s' →
  (∀ x, x ∈ elements t → pathnames s' !! x = pathnames s !! x) → rb_tree hd t s'.
Proof.
  intros [Ht Hb Hn Hs] Hr Ha Hp.
  assert (Hnm : ∀ x, x ∈ elements t → name s' x = name s x) by (intros; unfold name; by rewrite Hp).
  split; [|done|..].
  - eapply tree_at_agree; [done..|]. unfold els. simpl. by rewrite app_nil_r.
  - rewrite Forall_forall in *. intros x Hx. unfold named. rewrite Hp, Hnm by done. by apply Hn.
  - eapply sorted_impl_in; [|exact Hs]. intros x y Hx Hy. unfold before_name. by rewrite !Hnm.
Qed.

End map.

Lemma rb_tree_only hd hd' D t s s' :
  rb_tree hd t s → only hd' D s s' → hd ≠ hd' → (∀ x, x ∈ elements t → x ∉ D) → rb_tree hd t s'.
Proof.
  intros Ht [Hr Hl _ Hp] Hne HD. apply (rb_tree_agree _ _ s); [done|by apply Hr| |by rewrite Hp].
  intros x Hx. by apply Hl, HD.
Qed.

Lemma only_map hd D s s' t : only hd D s s' → tree_map s' t = tree_map s t.
Proof. intros [_ _ _ Hp]. apply tree_map_ext. intros x _. unfold name. by rewrite Hp. Qed.

(** ** The operations on maps *)

Lemma tree_map_split s t l1 l2 x :
  elements t = l1 ++ l2 → x ∉ l1 ++ l2 →
  ∀ t', elements t' = l1 ++ x :: l2 → (∀ y, y ∈ l1 ++ l2 → name s y ≠ name s x) →
  tree_map s t' = <[name s x := x]> (tree_map s t).
Proof.
  intros Ht Hx t' Ht' Hn. unfold tree_map. rewrite Ht, Ht', !fmap_app. simpl.
  rewrite !list_to_map_app. simpl. symmetry. apply insert_union_r. apply not_elem_of_list_to_map.
  rewrite <- list_fmap_compose. intros (y & Hy & Hin)%list_elem_of_fmap. simpl in Hy.
  apply (Hn y); [|done]. apply elem_of_app. auto.
Qed.

Section operations.
Context (hd : Z).

Lemma wp_find_map (Q : Z → rb_heap → Prop) elm t s :
  rb_tree hd t s → named s elm → Q (default NULL (tree_map s t !! name s elm)) s → runs (RB_FIND hd elm) Q s.
Proof.
  intros Hrb He HQ. pose proof Hrb as [Ht _ Hn Hs]. unfold RB_FIND. apply wp_bind, wp_gets, wp_bind.
  eapply wp_RB_ROOT; [apply Ht|]. cbn [croot].
  eapply wp_find_loop; [exact Ht| |done..|].
  { pose proof (tree_fuel _ _ _ _ Ht) as Hf. pose proof (height_elements t).
    unfold els in Hf. rewrite !length_app in Hf. lia. }
  intros x [Hx|[-> Hx]].
  - apply (tree_map_Some hd) in Hx; [|done]. by rewrite Hx in HQ.
  - apply (tree_map_None hd) in Hx; [|done]. by rewrite Hx in HQ.
Qed.

Lemma wp_insert_map (Q : Z → rb_heap → Prop) elm t s :
  rb_tree hd t s → named s elm → elm ≠ NULL → elm ∉ elements t → is_Some (rb_links s !! elm) →
  (∀ x, tree_map s t !! name s elm = Some x → Q x s) →
  (∀ s' t', tree_map s t !! name s elm = None → rb_tree hd t' s' → only hd (elm :: elements t) s s' →
     elements t' ≡ₚ elm :: elements t → tree_map s' t' = <[name s elm := elm]> (tree_map s t) → Q NULL s') →
  runs (RB_INSERT hd elm) Q s.
Proof.
  intros Hrb He He0 Hel Hnode Hfound Hnew. eapply wp_RB_INSERT; [done..| |].
  - intros x Hx Hxe. by apply Hfound, (tree_map_Some hd).
  - intros s' t' l1 l2 Hrb' Ho Hl Hl' H1 H2.
    assert (Hne : ∀ y, y ∈ l1 ++ l2 → name s y ≠ name s elm).
    { rewrite Forall_forall in H1, H2. unfold before_name in *. intros y [Hy|Hy]%elem_of_app Heq.
      - specialize (H1 y Hy). rewrite Heq, strcmp_refl in H1. lia.
      - specialize (H2 y Hy). rewrite Heq, strcmp_refl in H2. lia. }
    eapply Hnew; [|done|done| |].
    + apply (tree_map_None hd); [done|]. by rewrite Hl.
    + rewrite Hl, Hl'. by rewrite Permutation_middle.
    + rewrite (only_map _ _ _ _ _ Ho). eapply tree_map_split; [exact Hl|by rewrite <- Hl|done|done].
Qed.

Lemma wp_remove_map (Q : Z → rb_heap → Prop) x p t s :
  rb_tree hd t s → tree_map s t !! p = Some x →
  (∀ s' t', rb_tree hd t' s' → only hd (elements t) s s' → elements t ≡ₚ x :: elements t' →
     tree_map s' t' = delete p (tree_map s t) → Q x s') →
  runs (RB_REMOVE hd x) Q s.
Proof.
  intros Hrb Hx HQ. apply (tree_map_Some hd) in Hx as [Hx Hp]; [|done].
  apply list_elem_of_split in Hx as (l1 & l2 & Hl). eapply wp_RB_REMOVE; [done|exact Hl|].
  intros s' t' Hrb' Ho Hl'. eapply HQ; [done|done|by rewrite Hl, Hl', Permutation_middle|].
  pose proof (rb_tree_names _ _ _ Hrb) as Hnd. rewrite Hl, fmap_app in Hnd. simpl in Hnd.
  rewrite fmap_app in Hnd. simpl in Hnd.
  assert (Hne : ∀ y, y ∈ l1 ++ l2 → name s y ≠ name s x).
  { apply NoDup_app in Hnd as (_ & Hn1 & [Hn2 _]%NoDup_cons).
    rewrite <- !list_fmap_compose in *. intros y [Hy|Hy]%elem_of_app Heq.
    - apply (Hn1 (name s y)); [apply (list_elem_of_fmap_2 _ _ _ Hy)|]. rewrite Heq. by apply elem_of_cons; left.
    - apply Hn2. rewrite <- Heq. apply (list_elem_of_fmap_2 (fst ∘ (λ x, (name s x, x))) _ _ Hy). }
  assert (Hni : x ∉ l1 ++ l2) by (intros Hin; by apply (Hne x Hin)).
  rewrite (only_map _ _ _ _ _ Ho), (tree_map_split s t' l1 l2 x Hl' Hni t Hl Hne), Hp.
  rewrite delete_insert_id; [done|]. rewrite <- Hp. rewrite <- (only_map _ _ _ _ _ Ho).
  apply (tree_map_None hd); [done|]. rewrite Hl'. destruct (only_named _ _ _ _ Ho) as [Hnm _].
  intros y Hy. rewrite Hnm. auto.
Qed.

End operations.

(** ** Trees of a refresh *)

(** [free] of a node that is in no tree. *)
Lemma wp_free_map_info (Q : unit → rb_heap → Prop) x s :
  is_Some (pathnames s !! x) → is_Some (rb_links s !! x) →
  Q tt (RbHeap (rbh_roots s) (delete x (rb_links s)) (delete x (pathnames s))) → runs (free_map_info x) Q s.
Proof.
  intros [p Hp] [e He] HQ. unfold free_map_info, pathname. apply wp_bind, wp_bind, wp_gets. rewrite Hp.
  apply wp_ret, wp_bind. by eapply wp_node.
Qed.

Lemma rb_tree_free hd t s x :
  rb_tree hd t s → x ∉ elements t →
  rb_tree hd t (RbHeap (rbh_roots s) (delete x (rb_links s)) (delete x (pathnames s))).
Proof.
  intros Ht Hx. apply (rb_tree_agree _ _ s); [done|done|..].
  - intros a Ha. cbn. apply lookup_delete_ne. by intros ->.
  - intros a Ha. cbn. apply lookup_delete_ne. by intros ->.
Qed.

Lemma rb_tree_new hd t s x p e :
  rb_tree hd t s → x ∉ elements t →
  rb_tree hd t (RbHeap (rbh_roots s) (<[x := e]> (rb_links s)) (<[x := p]> (pathnames s))).
Proof.
  intros Ht Hx. apply (rb_tree_agree _ _ s); [done|done|..].
  - intros a Ha. cbn. apply lookup_insert_ne. by intros ->.
  - intros a Ha. cbn. apply lookup_insert_ne. by intros ->.
Qed.

Lemma rb_tree_named hd t s x : rb_tree hd t s → x ∈ elements t → named s x ∧ is_Some (rb_links s !! x).
Proof.
  intros [[_ _ Ht _ _] _ Hn _] Hx. rewrite Forall_forall in Hn. split; [by apply Hn|by eapply rep_dom].
Qed.

(** What freeing the nodes [l] and taking them out of the tree [hd] leaves. *)
Record freed (hd : Z) (l : list Z) (s s' : rb_heap) : Prop := Freed {
  fr_roots : ∀ h, h ≠ hd → rbh_roots s' !! h = rbh_roots s !! h;
  fr_links : ∀ a, a ∉ l → rb_links s' !! a = rb_links s !! a;
  fr_names : ∀ a, a ∉ l → pathnames s' !! a = pathnames s !! a;
  fr_gone : ∀ a, a ∈ l → rb_links s' !! a = None ∧ pathnames s' !! a = None
}.

Lemma elements_nil t : elements t = [] → t = E.
Proof. destruct t as [|c l x r]; [done|]. simpl. by destruct (elements l). Qed.

Lemma freed_nil hd s : freed hd [] s s.
Proof. split; [done..|]. intros a Ha. by apply elem_of_nil in Ha. Qed.

Lemma freed_step hd x l D s s1 s' :
  only hd D s s1 → D ⊆ x :: l → x ∉ l →
  freed hd l (RbHeap (rbh_roots s1) (delete x (rb_links s1)) (delete x (pathnames s1))) s' →
  freed hd (x :: l) s s'.
Proof.
  intros [Hr Hl _ Hp] HD Hx [Hr' Hl' Hp' Hg]. cbn in *. split.
  - intros h Hh. by rewrite Hr', Hr.
  - intros a Ha. apply not_elem_of_cons in Ha as [Hne Ha].
    rewrite Hl', lookup_delete_ne by done. apply Hl. intros HaD. apply HD, elem_of_cons in HaD. naive_solver.
  - intros a Ha. apply not_elem_of_cons in Ha as [Hne Ha]. rewrite Hp', lookup_delete_ne by done. by rewrite Hp.
  - intros a [->|Ha]%elem_of_cons; [|by apply Hg]. rewrite Hl', Hp' by done. by rewrite !lookup_delete_eq.
Qed.

Lemma wp_free_all_loop (Q : unit → rb_heap → Prop) hd fuel t s :
  rb_tree hd t s → (length (elements t) ≤ fuel)%nat →
  (∀ s', rb_tree hd E s' → freed hd (elements t) s s' → Q tt s') →
  runs (foreach_safe_loop fuel (λ mi, RB_REMOVE hd mi;; free_map_info mi) (first (elements t))) Q s.
Proof.
  revert t s. induction fuel as [|fuel IH]; intros t s Ht Hf HQ.
  - assert (t = E) as -> by (apply elements_nil, length_zero_iff_nil; lia).
    apply wp_ret, HQ; [done|apply freed_nil].
  - destruct (elements t) as [|x l] eqn:Hl.
    { apply elements_nil in Hl as ->. apply (wp_ret tt Q), HQ; [done|apply freed_nil]. }
    assert (Hxt : x ∈ elements t) by (rewrite Hl; by apply elem_of_cons; left).
    change (first (x :: l)) with x. cbn [foreach_safe_loop]. rewrite (proj2 (Z.eqb_neq x NULL)) by (by eapply rb_tree_ne).
    apply wp_bind. eapply (wp_RB_NEXT_split _ _ _ x [] l); [apply Ht|exact Hl|]. apply wp_bind, wp_bind.
    eapply (wp_RB_REMOVE _ _ x t [] l); [done|exact Hl|]. intros s1 t1 Ht1 Ho1 Hl1.
    destruct (rb_tree_named _ _ _ _ Ht Hxt) as [[Hn _] Hnode].
    assert (Hx1 : x ∉ elements t1).
    { pose proof (ta_nodup _ _ _ _ (rt_tree _ _ _ Ht)) as Hnd. unfold els in Hnd. simpl in Hnd.
      rewrite app_nil_r, Hl in Hnd. rewrite Hl1. simpl. by apply NoDup_cons in Hnd as [? _]. }
    eapply wp_free_map_info; [by rewrite (only_names _ _ _ _ Ho1)| |].
    { apply elem_of_dom. rewrite (only_dom _ _ _ _ Ho1). by apply elem_of_dom. }
    simpl in Hl1. rewrite <- Hl1 in *. apply IH; [by apply rb_tree_free|simpl in Hf; lia|].
    intros s' Ht' Hfr. apply HQ; [done|]. eapply freed_step; [exact Ho1|by rewrite Hl|done|done].
Qed.

Lemma wp_free_all (Q : unit → rb_heap → Prop) hd t s :
  rb_tree hd t s → (∀ s', rb_tree hd E s' → freed hd (elements t) s s' → Q tt s') →
  runs (free_all_map_info hd) Q s.
Proof.
  intros Ht HQ. unfold free_all_map_info, RB_FOREACH_SAFE, RB_MIN. apply wp_bind, wp_gets, wp_bind.
  eapply wp_RB_MINMAX; [apply Ht|]. cbn [Z.ltb RB_NEGINF]. eapply wp_free_all_loop; [done| |done].
  pose proof (tree_fuel _ _ _ _ (rt_tree _ _ _ Ht)) as Hf. unfold els in Hf. rewrite !length_app in Hf. lia.
Qed.

(** "check existed map item" on finite maps: the map infos of [old] that are
    seen again move to [new]; the first one of a pathname counts. *)
Definition refresh_maps (p : list Z) (mi : Z) (old new : gmap (list Z) Z) : gmap (list Z) Z * gmap (list Z) Z :=
  let add x := match new !! p with Some _ => new | None => <[p := x]> new end in
  match old !! p with
  | Some x => (delete p old, add x)
  | None => (old, add mi)
  end.

(** Two trees of disjoint nodes. *)
Record two_trees (hd hd2 : Z) (t t2 : tree) (s : rb_heap) : Prop := TwoTrees {
  tt_old : rb_tree hd t s;
  tt_new : rb_tree hd2 t2 s;
  tt_ne : hd ≠ hd2;
  tt_disj : ∀ x, x ∈ elements t → x ∉ elements t2
}.

Definition drop_info (x : Z) (s : rb_heap) : rb_heap :=
  RbHeap (rbh_roots s) (delete x (rb_links s)) (delete x (pathnames s)).

Lemma tree_map_free s x t : x ∉ elements t → tree_map (drop_info x s) t = tree_map s t.
Proof.
  intros Hx. apply tree_map_ext. intros y Hy. unfold name, drop_info. simpl.
  rewrite lookup_delete_ne; [done|]. by intros ->.
Qed.

Lemma two_trees_free hd hd2 t t2 s x :
  two_trees hd hd2 t t2 s → x ∉ elements t → x ∉ elements t2 → two_trees hd hd2 t t2 (drop_info x s).
Proof. intros [H1 H2 Hne Hd] Hx Hx2. split; [by apply rb_tree_free..|done|done]. Qed.

(** Inserting [x], which is in neither tree, into the second; [x] is freed if
    its pathname is there already. *)
Lemma wp_insert_or_free (Q : Z → rb_heap → Prop) hd hd2 t t2 x s :
  two_trees hd hd2 t t2 s → named s x → x ≠ NULL → x ∉ elements t → x ∉ elements t2 →
  is_Some (rb_links s !! x) →
  (∀ r s' t2', two_trees hd hd2 t t2' s' → elements t2' ⊆ x :: elements t2 → tree_map s' t = tree_map s t →
     tree_map s' t2' = match tree_map s t2 !! name s x with Some _ => tree_map s t2
                       | None => <[name s x := x]> (tree_map s t2) end →
     r = match tree_map s t2 !! name s x with Some _ => NULL | None => x end → Q r s') →
  runs (r ← RB_INSERT hd2 x; if negb (r =? NULL) then free_map_info x;; mret NULL else mret x) Q s.
Proof.
  intros Htt Hx Hx0 Hxt Hxt2 Hnode HQ. pose proof Htt as [Ht Ht2 Hne Hd].
  apply wp_bind. eapply (wp_insert_map hd2); [exact Ht2|done..| |].
  - intros y Hy. rewrite Hy in HQ. apply (tree_map_Some hd2) in Hy as [Hy _]; [|done].
    rewrite (proj2 (Z.eqb_neq y NULL)) by (by eapply rb_tree_ne). cbn [negb].
    apply wp_bind. eapply wp_free_map_info; [apply Hx|done|]. apply wp_ret.
    apply (HQ _ _ t2); [by apply two_trees_free|set_solver|by apply tree_map_free|by apply tree_map_free|done].
  - intros s' t2' Hnone Ht2' Ho Hp Hm. rewrite Z.eqb_refl. cbn [negb]. apply wp_ret. rewrite Hnone in HQ.
    apply (HQ _ _ t2'); [|by rewrite Hp|by eapply only_map|done|done]. split; [|done|done|].
    + eapply rb_tree_only; [done|exact Ho|done|]. intros y Hy. apply not_elem_of_cons. split; [|by apply Hd].
      by intros ->.
    + intros y Hy. rewrite Hp. apply not_elem_of_cons. split; [|by apply Hd]. by intros ->.
Qed.

Lemma wp_refresh_map_info (Q : Z → rb_heap → Prop) hd hd2 t t2 key mi junk m m2 s :
  two_trees hd hd2 t t2 s → named s key → mi ≠ NULL → mi ≠ key → mi ∉ elements t → mi ∉ elements t2 →
  refresh_maps (name s key) mi (tree_map s t) (tree_map s t2) = (m, m2) →
  (∀ r s' t' t2', two_trees hd hd2 t' t2' s' → elements t' ++ elements t2' ⊆ mi :: elements t ++ elements t2 →
     tree_map s' t' = m → tree_map s' t2' = m2 →
     r = match tree_map s t2 !! name s key with
         | Some _ => NULL | None => default mi (tree_map s t !! name s key) end → Q r s') →
  runs (refresh_map_info hd hd2 key mi junk) Q s.
Proof.
  intros Htt Hkey Hmi0 Hmik Hmi Hmi2. set (p := name s key). pose proof Htt as [Ht Ht2 Hne Hd]. unfold refresh_maps.
  destruct (tree_map s t !! p) as [x|] eqn:Hx; intros [= <- <-] HQ; unfold refresh_map_info; apply wp_bind;
    eapply wp_find_map; [done..| |done|done|]; fold p; rewrite Hx.
  - pose proof Hx as [Hxt Hxp]%(tree_map_Some hd); [|done]. change (default NULL (Some x)) with x.
    pose proof (rb_tree_ne _ _ _ _ Ht Hxt) as Hx0.
    rewrite (proj2 (Z.eqb_neq x NULL) Hx0). cbn [negb]. apply wp_bind. eapply wp_remove_map; [done|exact Hx|]. intros s1 t1 Ht1 Ho1 Hp1 Hm1.
    destruct (rb_tree_named _ _ _ _ Ht Hxt) as [Hxn Hnode].
    destruct (only_named _ _ _ _ Ho1) as (Hn1 & Hnm1 & _).
    assert (Hx1 : x ∉ elements t1).
    { pose proof (ta_nodup _ _ _ _ (rt_tree _ _ _ Ht)) as Hnd. unfold els in Hnd. simpl in Hnd.
      rewrite app_nil_r, Hp1 in Hnd. by apply NoDup_cons in Hnd as [? _]. }
    eapply wp_insert_or_free; [|by apply Hnm1|exact Hx0|exact Hx1|by apply Hd| |].
    + split; [exact Ht1| |done|].
      { eapply rb_tree_only; [exact Ht2|exact Ho1|by apply not_eq_sym|]. intros y Hy Hyt. by apply (Hd y). }
      intros y Hy. apply Hd. rewrite Hp1. by apply elem_of_cons; right.
    + apply elem_of_dom. rewrite (only_dom _ _ _ _ Ho1). by apply elem_of_dom.
    + intros r s' t2' Htt' Hsub Hold Hnew Hr. rewrite Hn1, Hxp, (only_map _ _ _ _ _ Ho1) in Hnew, Hr.
      eapply HQ; [done| |by rewrite Hold|done|done]. rewrite Hp1. set_solver.
  - change (default NULL None =? NULL) with true. cbn [negb].
    destruct Hkey as [[q Hq] Hcs]. unfold pathname. apply wp_bind, wp_bind, wp_gets. rewrite Hq. apply wp_ret.
    assert (Hqp : q = p) by (symmetry; by apply name_eq). subst q.
    unfold new_map_info. apply wp_bind, wp_modify.
    match goal with |- wp _ _ _ ?st => set (s1 := st) end.
    assert (Hn1 : name s1 mi = p) by (unfold name; cbn; by rewrite lookup_insert_eq).
    assert (Hm1 : ∀ u, mi ∉ elements u → tree_map s1 u = tree_map s u).
    { intros u Hu. apply tree_map_ext. intros y Hy. unfold name. cbn. rewrite lookup_insert_ne; [done|].
      by intros ->. }
    eapply (wp_insert_or_free _ hd hd2 t t2); [split; [by apply rb_tree_new|by apply rb_tree_new|done|done]| |done..| |].
    + split; [cbn; by rewrite lookup_insert_eq|]. by rewrite Hn1.
    + cbn. by rewrite lookup_insert_eq.
    + intros r s' t2' Htt' Hsub Hold Hnew Hr. rewrite Hn1, Hm1 in Hnew, Hr by done.
      eapply HQ; [done|set_solver|by rewrite Hold, Hm1|done|done].
Qed.

(** *** A whole refresh *)

Definition line_name (i : refresh_line) : list Z := i.1.1.
Definition line_node (i : refresh_line) : Z := i.1.2.

Fixpoint refresh_maps_all (items : list refresh_line) (old new : gmap (list Z) Z) :
    gmap (list Z) Z * gmap (list Z) Z :=
  match items with
  | [] => (old, new)
  | i :: items =>
      refresh_maps_all items (refresh_maps (line_name i) (line_node i) old new).1
        (refresh_maps (line_name i) (line_node i) old new).2
  end.

(** The first item with a pathname. *)
Definition first_line (p : list Z) (items : list refresh_line) : option refresh_line :=
  find (λ i, bool_decide (line_name i = p)) items.

Lemma refresh_maps_lookup p q mi old new :
  (refresh_maps q mi old new).2 !! p =
    match new !! p with Some x => Some x | None => if decide (q = p) then Some (default mi (old !! p)) else None end ∧
  (refresh_maps q mi old new).1 !! p = if decide (q = p) then None else old !! p.
Proof.
  unfold refresh_maps. destruct (decide (q = p)) as [->|Hne].
  - destruct (old !! p) eqn:Ho, (new !! p) eqn:Hn; simpl; rewrite ?lookup_delete_eq, ?lookup_insert_eq, ?Hn; auto.
  - destruct (old !! q) eqn:Ho, (new !! q) eqn:Hn; simpl;
      rewrite ?lookup_delete_ne, ?lookup_insert_ne by done; destruct (new !! p); auto.
Qed.

Lemma refresh_maps_all_lookup p items old new :
  (refresh_maps_all items old new).2 !! p =
    match new !! p with
    | Some x => Some x
    | None => (λ i, default (line_node i) (old !! p)) <$> first_line p items
    end ∧
  (refresh_maps_all items old new).1 !! p =
    match first_line p items with Some _ => None | None => old !! p end.
Proof.
  revert old new. induction items as [|i items IH]; intros old new; simpl; [by destruct (new !! p)|].
  destruct (refresh_maps_lookup p (line_name i) (line_node i) old new) as [H2 H1].
  destruct (IH (refresh_maps (line_name i) (line_node i) old new).1
               (refresh_maps (line_name i) (line_node i) old new).2) as [-> ->]. rewrite H1, H2.
  unfold first_line. simpl. fold (first_line p items).
  destruct (decide (line_name i = p)) as [Heq|Hne].
  - rewrite bool_decide_true by done. simpl. by destruct (new !! p), (first_line p items).
  - rewrite bool_decide_false by done. by destruct (new !! p).
Qed.

(** The structures of the items are where malloc can put them: not in a tree,
    and not the key of the search.  They are distinct, too: that malloc gives
    the memory of a structure freed earlier in the same refresh out again is left
    aside. *)
Definition items_fresh (key : Z) (used : list Z) (items : list refresh_line) : Prop :=
  Forall (λ i, c_string (line_name i)) items ∧ NoDup (line_node <$> items) ∧
  (∀ i, i ∈ items → line_node i ≠ NULL ∧ line_node i ≠ key ∧ line_node i ∉ used).

Lemma two_trees_key hd hd2 t t2 s key p :
  two_trees hd hd2 t t2 s → key ∉ elements t ++ elements t2 →
  let s' := RbHeap (rbh_roots s) (rb_links s) (<[key := p]> (pathnames s)) in
  two_trees hd hd2 t t2 s' ∧ tree_map s' t = tree_map s t ∧ tree_map s' t2 = tree_map s t2.
Proof.
  intros [H1 H2 Hne Hd] [Hk1 Hk2]%not_elem_of_app s'. split_and!.
  - split; [| |done|done]; (eapply rb_tree_agree; [done|done|by intros ??|]); intros x Hx; cbn;
      apply lookup_insert_ne; by intros ->.
  - apply tree_map_ext. intros x Hx. unfold name. cbn. rewrite lookup_insert_ne; [done|]. by intros ->.
  - apply tree_map_ext. intros x Hx. unfold name. cbn. rewrite lookup_insert_ne; [done|]. by intros ->.
Qed.

Lemma wp_refresh_trees (Q : unit → rb_heap → Prop) hd hd2 key items t t2 s :
  two_trees hd hd2 t t2 s → key ∉ elements t ++ elements t2 →
  items_fresh key (elements t ++ elements t2) items →
  (∀ s' t' t2', two_trees hd hd2 t' t2' s' →
     (tree_map s' t', tree_map s' t2') = refresh_maps_all items (tree_map s t) (tree_map s t2) → Q tt s') →
  runs (refresh_trees hd hd2 key items) Q s.
Proof.
  revert t t2 s. induction items as [|[[p mi] junk] items IH]; intros t t2 s Htt Hkey (Hc & Hnd & Hf) HQ.
  { apply (wp_ret tt Q). by eapply HQ. }
  cbn [refresh_trees]. apply wp_bind, wp_modify.
  destruct (two_trees_key hd hd2 t t2 s key p Htt Hkey) as (Htt1 & Hm1 & Hm2). cbv zeta in *.
  set (s1 := RbHeap _ _ _) in *. apply Forall_cons in Hc as [Hp Hc]. apply NoDup_cons in Hnd as [Hmi Hnd].
  destruct (Hf (p, mi, junk)) as (Hmi0 & Hmik & Hmiu); [by apply elem_of_cons; left|].
  change (line_node (p, mi, junk)) with mi in *. change (line_name (p, mi, junk)) with p in *. apply not_elem_of_app in Hmiu as [Hmi1 Hmi2].
  assert (Hname : name s1 key = p) by (unfold name, s1; cbn; by rewrite lookup_insert_eq).
  assert (Hkn : named s1 key).
  { split; [|by rewrite Hname]. unfold s1. cbn. by rewrite lookup_insert_eq. }
  destruct (refresh_maps p mi (tree_map s t) (tree_map s t2)) as [m m2] eqn:Hrm.
  apply wp_bind. eapply (wp_refresh_map_info _ hd hd2 t t2); [done..|by rewrite Hname, Hm1, Hm2|].
  intros r s' t' t2' Htt' Hsub Ho Hn Hr. eapply IH; [exact Htt'| | |].
  - intros Hin. apply Hsub, elem_of_cons in Hin. naive_solver.
  - split_and!; [done|done|]. intros i Hi. destruct (Hf i) as (H0 & Hk & Hu); [by apply elem_of_cons; right|].
    split_and!; [done|done|]. intros Hin. apply Hsub, elem_of_cons in Hin as [Heq|Hin]; [|done].
    apply Hmi. rewrite <- Heq. apply (list_elem_of_fmap_2 line_node _ _ Hi).
  - intros s'' t'' t2'' Htt'' Heq. eapply HQ; [exact Htt''|]. cbn [refresh_maps_all].
    change (line_node (p, mi, junk)) with mi. change (line_name (p, mi, junk)) with p.
    rewrite Hrm. cbn [fst snd]. by rewrite Heq, Ho, Hn.
Qed.

Lemma rb_tree_assign hd hd2 t s :
  rb_tree hd2 t s → rb_tree hd t (with_roots (<[hd := root t]> (rbh_roots s)) s).
Proof.
  intros [[Hr Hc Ht Hn H0] Hb Hnm Hs]. split; [split|..]; try done. cbn. by rewrite lookup_insert_eq.
Qed.

Lemma wp_refresh_impl_trees (Q : unit → rb_heap → Prop) hd hd2 key items t s :
  rb_tree hd t s → hd ≠ hd2 → key ∉ elements t → items_fresh key (elements t) items →
  (∀ s' t', rb_tree hd t' s' →
     (∀ p, tree_map s' t' !! p = (λ i, default (line_node i) (tree_map s t !! p)) <$> first_line p items) →
     (∀ p x, tree_map s t !! p = Some x → first_line p items = None →
        rb_links s' !! x = None ∧ pathnames s' !! x = None) → Q tt s') →
  runs (refresh_impl_trees hd hd2 key items) Q s.
Proof.
  intros Ht Hne Hkey Hf HQ. unfold refresh_impl_trees, RB_INIT. apply wp_bind, wp_modify.
  match goal with |- wp _ _ _ ?st => set (s0 := st) end.
  assert (Htt : two_trees hd hd2 t E s0).
  { split; [|split|done|intros; by apply not_elem_of_nil].
    - eapply rb_tree_agree; [done|cbn; by rewrite lookup_insert_ne|done|done].
    - split; [cbn; by rewrite lookup_insert_eq|done|done|constructor|by apply not_elem_of_nil].
    - split; [done|]. exists 0%nat. constructor.
    - constructor.
    - constructor. }
  apply wp_bind. eapply wp_refresh_trees; [exact Htt|by rewrite app_nil_r|by rewrite app_nil_r|].
  intros s1 t1 t2 Htt1 Hm. change (tree_map s0 t) with (tree_map s t) in Hm.
  change (tree_map s0 E) with (∅ : gmap (list Z) Z) in Hm. pose proof Htt1 as [Ht1 Ht2 _ Hd].
  apply wp_bind. eapply wp_free_all; [exact Ht1|]. intros s2 HtE [Hfr Hfl Hfn Hfg].
  assert (Hdisj : ∀ x, x ∈ elements t2 → x ∉ elements t1) by (intros x Hx Hx'; by apply (Hd x)).
  assert (Ht2' : rb_tree hd2 t2 s2).
  { eapply rb_tree_agree; [exact Ht2|by apply Hfr, not_eq_sym| |]; intros x Hx; [apply Hfl|apply Hfn]; by apply Hdisj. }
  unfold assign_head. apply wp_bind. eapply wp_RB_ROOT; [apply Ht2'|]. cbn [croot].
  eapply wp_set_root; [apply HtE|]. apply (HQ _ t2); [by eapply rb_tree_assign| |].
  - intros p. destruct (refresh_maps_all_lookup p items (tree_map s t) ∅) as [Hp _].
    rewrite <- Hm, lookup_empty in Hp. simpl in Hp. rewrite <- Hp. f_equal. apply tree_map_ext.
    intros x Hx. unfold name. cbn. by rewrite Hfn by (by apply Hdisj).
  - intros p x Hx Hp. destruct (refresh_maps_all_lookup p items (tree_map s t) ∅) as [_ Hp1].
    rewrite <- Hm, Hp, Hx in Hp1. simpl in Hp1. apply (tree_map_Some hd) in Hp1 as [Hx1 _]; [|done]. by apply Hfg.
Qed.

(** ** Enumeration *)

Lemma wp_foreach_loop (Q : list Z → rb_heap → Prop) hd t s fuel l1 l2 :
  rb_tree hd t s → elements t = l1 ++ l2 → (length l2 ≤ fuel)%nat → Q l2 s →
  runs (foreach_loop fuel RB_NEXT (first l2)) Q s.
Proof.
  intros Ht. revert l1 l2 Q. induction fuel as [|fuel IH]; intros l1 [|x l2] Q Hl Hf HQ;
    [by apply (wp_ret _ Q)|simpl in Hf; lia|by apply (wp_ret _ Q)|].
  assert (Hx : x ∈ elements t) by (rewrite Hl; apply elem_of_app; right; by apply elem_of_cons; left).
  change (first (x :: l2)) with x. cbn [foreach_loop].
  rewrite (proj2 (Z.eqb_neq x NULL) (rb_tree_ne _ _ _ _ Ht Hx)). apply wp_bind.
  eapply wp_RB_NEXT_split; [apply Ht|exact Hl|]. apply wp_bind.
  apply (IH (l1 ++ [x])); [by rewrite <- app_assoc|simpl in Hf; lia|]. by apply wp_ret.
Qed.

Lemma wp_foreach_reverse_loop (Q : list Z → rb_heap → Prop) hd t s fuel l1 l2 :
  rb_tree hd t s → elements t = l1 ++ l2 → (length l1 ≤ fuel)%nat → Q (reverse l1) s →
  runs (foreach_loop fuel RB_PREV (last_of l1)) Q s.
Proof.
  intros Ht. revert l1 l2 Q. induction fuel as [|fuel IH]; intros l1 l2 Q Hl Hf HQ.
  - assert (l1 = []) as -> by (apply length_zero_iff_nil; lia). by apply (wp_ret _ Q).
  - destruct l1 as [|x l1 _] using rev_ind; [by apply (wp_ret _ Q)|]. rewrite last_of_snoc.
    rewrite <- app_assoc in Hl. simpl in Hl. rewrite length_app in Hf. simpl in Hf.
    assert (Hx : x ∈ elements t) by (rewrite Hl; apply elem_of_app; right; by apply elem_of_cons; left).
    cbn [foreach_loop]. rewrite (proj2 (Z.eqb_neq x NULL) (rb_tree_ne _ _ _ _ Ht Hx)). apply wp_bind.
    eapply wp_RB_PREV_split; [apply Ht|exact Hl|]. apply wp_bind.
    apply (IH l1 (x :: l2)); [done|lia|]. apply wp_ret. by rewrite reverse_snoc in HQ.
Qed.

Lemma rb_tree_fuel hd t s : rb_tree hd t s → (length (elements t) < rb_fuel s)%nat.
Proof.
  intros Ht. pose proof (tree_fuel _ _ _ _ (rt_tree _ _ _ Ht)) as Hf. unfold els in Hf.
  rewrite !length_app in Hf. lia.
Qed.

(** The first node whose pathname is not less. *)
Lemma wp_nfind_loop (Q : Z → rb_heap → Prop) hd fuel elm k t res s :
  tree_at hd k t s → (height t ≤ fuel)%nat → named s elm → Forall (named s) (elements t) →
  StronglySorted (before_name s) (elements t) →
  (∀ l1 l2, elements t = l1 ++ l2 → Forall (λ y, before_name s y elm) l1 →
     Forall (λ y, ¬ before_name s y elm) l2 → Q (first (l2 ++ [res])) s) →
  runs (nfind_loop fuel elm (root t) res) Q s.
Proof.
  revert fuel k res Q. induction t as [|c l IHl x r IHr]; intros fuel k res Q Ht Hf He Hn Hs HQ.
  { destruct fuel; apply wp_ret; by apply (HQ [] []). }
  pose proof (tree_at_null _ _ _ _ Ht) as Hnull. cbn [root] in *.
  simpl in Hf. destruct fuel as [|fuel]; [lia|]. cbn [nfind_loop]. rewrite Hnull. simpl in Hn, Hs.
  apply Forall_app in Hn as [Hnl [Hnx Hnr]%Forall_cons].
  apply sorted_app in Hs as (Hsl & [Hsr Hxr]%sorted_cons & Hlx).
  assert (Hne : ∀ y, ¬ before_name s x elm → y ∈ elements r → ¬ before_name s y elm).
  { intros y Hxe Hy Hye. rewrite Forall_forall in Hnr, Hxr. apply Hxe. apply (before_name_trans s x y elm); auto. }
  apply wp_bind, wp_cmp; [done..|]. destruct (tree_at_sub _ _ _ _ _ _ _ Ht) as [Htl Htr].
  destruct (Z.ltb_spec (strcmp (name s elm) (name s x)) 0) as [Hlt|Hge].
  - apply wp_bind. eapply wp_RB_LEFT; [by eapply tree_at_node|]. cbn [rbe_left].
    assert (Hxe : ¬ before_name s x elm) by (unfold before_name; rewrite strcmp_antisym; lia).
    eapply IHl; [done|lia|done..|]. intros l1 l2 Hl H1 H2.
    specialize (HQ l1 (l2 ++ x :: elements r)). rewrite first_app in HQ by (by destruct l2).
    assert (Hfirst : first (l2 ++ [x]) = first (l2 ++ x :: elements r)) by (by destruct l2).
    rewrite Hfirst. apply HQ; [cbn; by rewrite Hl, <- app_assoc|done|].
    apply Forall_app. split; [done|]. apply Forall_cons. split; [done|]. apply Forall_forall. eauto.
  - destruct (strcmp (name s elm) (name s x) >? 0) eqn:Hgt.
    + apply wp_bind. eapply wp_RB_RIGHT; [by eapply tree_at_node|]. cbn [rbe_right].
      assert (Hxe : before_name s x elm) by (unfold before_name; rewrite strcmp_antisym; lia).
      eapply IHr; [done|lia|done..|]. intros l1 l2 Hl H1 H2.
      apply (HQ (elements l ++ x :: l1) l2); [cbn; by rewrite Hl, <- app_assoc| |done].
      apply Forall_app. split; [|by apply Forall_cons]. apply Forall_forall. rewrite Forall_forall in Hnl.
      intros y Hy. apply (before_name_trans s y x elm); auto. apply Hlx; [done|by apply elem_of_cons; left].
    + apply wp_ret. assert (Heq : strcmp (name s elm) (name s x) = 0) by lia.
      assert (Hxe : ¬ before_name s x elm) by (unfold before_name; rewrite strcmp_antisym; lia).
      apply strcmp_eq_0 in Heq; [|apply He|apply Hnx].
      apply (HQ (elements l) (x :: elements r)); [done|..].
      * apply Forall_forall. intros y Hy. unfold before_name. rewrite Heq. apply Hlx; [done|by apply elem_of_cons; left].
      * apply Forall_cons. split; [done|]. apply Forall_forall. eauto.
Qed.

(** ** An example: "/a" and "/c" are in the tree, "/b" and "/d" are nodes *)

Definition demo_heap : rb_heap :=
  RbHeap {[ 100 := 1; 200 := NULL ]}
    {[ 1 := RbEntry 0 2 0 RB_BLACK; 2 := RbEntry 0 0 1 RB_RED;
       3 := RbEntry 7 7 7 7; 4 := RbEntry 7 7 7 7 ]}
    {[ 1 := [47; 97]; 2 := [47; 99]; 3 := [47; 98]; 4 := [47; 100]; 5 := [47; 99] ]}.
Definition demo_tree : tree := T RB_BLACK E 1 (T RB_RED E 2 E).

Lemma demo_rb_tree : rb_tree 100 demo_tree demo_heap.
Proof.
  split.
  - split; [done|done| | |].
    + by vm_compute.
    + apply (bool_decide_unpack _). by vm_compute.
    + apply (bool_decide_unpack _). by vm_compute.
  - split; [done|]. exists 1%nat. repeat constructor.
  - repeat constructor; by eexists.
  - repeat constructor.
Qed.

Lemma demo_named x : x ∈ [1; 2; 3; 4; 5] → named demo_heap x.
Proof.
  intros Hx. repeat (apply elem_of_cons in Hx as [->|Hx]; [split; [by eexists|by repeat constructor]|]).
  by apply elem_of_nil in Hx.
Qed.

(** ** Properties *)

(** C19: RB_INSERT is insertion into a finite map.  On a red-black search tree
    it always returns: the node that has the pathname already, with nothing
    changed, or NULL, and then the tree is a red-black search tree with the new
    node and no other tree or node outside it is touched. *)
Theorem rb_insert_refines hd t elm s :
  rb_tree hd t s → named s elm → elm ≠ NULL → elm ∉ elements t → is_Some (rb_links s !! elm) →
  match tree_map s t !! name s elm with
  | Some x => RB_INSERT hd elm s = (Ret x, s)
  | None => ∃ s' t', RB_INSERT hd elm s = (Ret NULL, s') ∧ rb_tree hd t' s' ∧
      only hd (elm :: elements t) s s' ∧ elements t' ≡ₚ elm :: elements t ∧
      tree_map s' t' = <[name s elm := elm]> (tree_map s t)
  end.
Proof.
  intros Ht He He0 Hel Hn. destruct (tree_map s t !! name s elm) as [x|] eqn:Hx.
  - apply wp_returns_eq. eapply wp_insert_map; [done..| |by intros; simplify_eq].
    intros y Hy. by simplify_eq.
  - destruct (wp_returns (RB_INSERT hd elm) (λ r s', r = NULL ∧ ∃ t', rb_tree hd t' s' ∧
      only hd (elm :: elements t) s s' ∧ elements t' ≡ₚ elm :: elements t ∧
      tree_map s' t' = <[name s elm := elm]> (tree_map s t)) s) as (r & s' & Hrun & -> & t' & HQ).
    + eapply wp_insert_map; [done..|by intros; simplify_eq|]. intros s' t' _ Ht' Ho Hp Hm.
      split; [done|]. exists t'. by split_and!.
    + exists s', t'. by rewrite Hrun.
Qed.

Lemma rb_insert_refines_witness :
  ∃ s' t', RB_INSERT 100 3 demo_heap = (Ret NULL, s') ∧ rb_tree 100 t' s' ∧
    tree_map s' t' = <[[47; 98] := 3]> {[ [47; 97] := 1; [47; 99] := 2 ]}.
Proof.
  pose proof (rb_insert_refines 100 demo_tree 3 demo_heap demo_rb_tree) as H.
  assert (Hn : name demo_heap 3 = [47; 98]) by reflexivity.
  assert (Hm : tree_map demo_heap demo_tree = {[ [47; 97] := 1; [47; 99] := 2 ]}) by reflexivity.
  rewrite Hn, Hm in H. change ({[ [47; 97] := 1; [47; 99] := 2 ]} !! [47; 98]) with (@None Z) in H.
  destruct H as (s' & t' & H1 & H2 & _ & _ & H3).
  - apply demo_named. apply (bool_decide_unpack _). reflexivity.
  - done.
  - apply (bool_decide_unpack _). reflexivity.
  - by eexists.
  - exists s', t'. split_and!; assumption.
Defined.

(** C20: RB_REMOVE of the node with a pathname deletes it from the finite map,
    returns it, and leaves a red-black search tree of the other nodes; only the
    nodes of this tree change. *)
Theorem rb_remove_refines hd t x p s :
  rb_tree hd t s → tree_map s t !! p = Some x →
  ∃ s' t', RB_REMOVE hd x s = (Ret x, s') ∧ rb_tree hd t' s' ∧ only hd (elements t) s s' ∧
    elements t ≡ₚ x :: elements t' ∧ tree_map s' t' = delete p (tree_map s t).
Proof.
  intros Ht Hx.
  destruct (wp_returns (RB_REMOVE hd x) (λ r s', r = x ∧ ∃ t', rb_tree hd t' s' ∧ only hd (elements t) s s' ∧
    elements t ≡ₚ x :: elements t' ∧ tree_map s' t' = delete p (tree_map s t)) s) as (r & s' & Hrun & -> & t' & HQ).
  - eapply wp_remove_map; [done..|]. intros s' t' Ht' Ho Hp Hm. split; [done|]. exists t'. by split_and!.
  - exists s', t'. by rewrite Hrun.
Qed.

Lemma rb_remove_refines_witness :
  ∃ s' t', RB_REMOVE 100 1 demo_heap = (Ret 1, s') ∧ rb_tree 100 t' s' ∧
    tree_map s' t' = {[ [47; 99] := 2 ]}.
Proof.
  assert (Hm : tree_map demo_heap demo_tree = {[ [47; 97] := 1; [47; 99] := 2 ]}) by reflexivity.
  destruct (rb_remove_refines 100 demo_tree 1 [47; 97] demo_heap demo_rb_tree) as (s' & t' & H1 & H2 & _ & _ & H3).
  - rewrite Hm. reflexivity.
  - exists s', t'. split_and!; [assumption|assumption|]. rewrite H3, Hm. reflexivity.
Defined.

(** C23: RB_FIND looks the pathname up in the finite map, NULL if it is not
    there, and follows at most 2 log2 (n + 1) links in a tree of n nodes. *)
Theorem rb_find_logarithmic hd t elm s :
  rb_tree hd t s → named s elm →
  let r := default NULL (tree_map s t !! name s elm) in
  RB_FIND hd elm s = (Ret r, s) ∧
  ∀ fuel, 2 * Z.log2 (Z.of_nat (length (elements t)) + 1) ≤ Z.of_nat fuel →
    find_loop fuel elm (root t) s = (Ret r, s).
Proof.
  intros Ht He r. split; [by apply wp_returns_eq; eapply wp_find_map|]. intros fuel Hf.
  apply wp_returns_eq. pose proof Ht as [Hta [Hc [n Hn]] Hnm Hs]. eapply wp_find_loop; [done| |done..|].
  - apply is_rb_height in Hn as Hh. destruct Hh as [_ Hh]. specialize (Hh Hc).
    apply is_rb_size, Z.log2_le_mono in Hn. rewrite Z.log2_pow2 in Hn by lia. lia.
  - intros x [Hx|[-> Hx]].
    + apply (tree_map_Some hd) in Hx; [|done]. unfold r. by rewrite Hx.
    + apply (tree_map_None hd) in Hx; [|done]. unfold r. by rewrite Hx.
Qed.

Lemma rb_find_logarithmic_witness :
  RB_FIND 100 5 demo_heap = (Ret 2, demo_heap) ∧ RB_FIND 100 3 demo_heap = (Ret NULL, demo_heap).
Proof.
  assert (H5 : named demo_heap 5) by (apply demo_named; apply (bool_decide_unpack _); reflexivity).
  assert (H3 : named demo_heap 3) by (apply demo_named; apply (bool_decide_unpack _); reflexivity).
  split; [exact (proj1 (rb_find_logarithmic 100 demo_tree 5 demo_heap demo_rb_tree H5))
         |exact (proj1 (rb_find_logarithmic 100 demo_tree 3 demo_heap demo_rb_tree H3))].
Defined.

(** RB_FOREACH visits every node of the tree once, in the order of strcmp
    on the pathnames, RB_FOREACH_REVERSE in the reverse order, and RB_NFIND
    finds the first of them that is not before the key. *)
Theorem rb_foreach_sorted hd t elm s :
  rb_tree hd t s → named s elm →
  ∃ l, StronglySorted (before_name s) l ∧ (∀ p x, tree_map s t !! p = Some x ↔ x ∈ l ∧ name s x = p) ∧
    RB_FOREACH hd s = (Ret l, s) ∧ RB_FOREACH_REVERSE hd s = (Ret (reverse l), s) ∧
    ∃ l1 l2, l = l1 ++ l2 ∧ Forall (λ y, before_name s y elm) l1 ∧ Forall (λ y, ¬ before_name s y elm) l2 ∧
      RB_NFIND hd elm s = (Ret (first l2), s).
Proof.
  intros Ht He. exists (elements t). pose proof (rb_tree_fuel _ _ _ Ht) as Hf. split_and!.
  - apply Ht.
  - intros p x. by apply (tree_map_Some hd).
  - apply wp_returns_eq. apply wp_bind, wp_gets, wp_bind. eapply wp_RB_MINMAX; [apply Ht|].
    change (RB_NEGINF <? 0) with true. by eapply (wp_foreach_loop _ _ _ _ _ [] (elements t)); [done|done|lia|].
  - apply wp_returns_eq. apply wp_bind, wp_gets, wp_bind. eapply wp_RB_MINMAX; [apply Ht|].
    change (RB_INF <? 0) with false.
    by eapply (wp_foreach_reverse_loop _ _ _ _ _ (elements t) []); [done|by rewrite app_nil_r|lia|].
  - destruct (wp_returns (RB_NFIND hd elm) (λ r s', s' = s ∧ ∃ l1 l2, elements t = l1 ++ l2 ∧
        Forall (λ y, before_name s y elm) l1 ∧ Forall (λ y, ¬ before_name s y elm) l2 ∧ r = first (l2 ++ [NULL])) s)
      as (r & s' & Hrun & -> & l1 & l2 & Hl & H1 & H2 & ->).
    + apply wp_bind, wp_gets, wp_bind. eapply wp_RB_ROOT; [apply Ht|]. cbn [croot].
      eapply wp_nfind_loop; [apply Ht| |done|apply Ht|apply Ht|].
      { pose proof (height_elements t). lia. }
      intros l1 l2 Hl H1 H2. split; [done|]. exists l1, l2. by split_and!.
    + exists l1, l2. split_and!; [done..|].
      rewrite Hrun. by destruct l2.
Qed.

Lemma rb_foreach_sorted_witness :
  ∃ l, StronglySorted (before_name demo_heap) l ∧ RB_FOREACH 100 demo_heap = (Ret l, demo_heap).
Proof.
  assert (H3 : named demo_heap 3) by (apply demo_named; apply (bool_decide_unpack _); reflexivity).
  destruct (rb_foreach_sorted 100 demo_tree 3 demo_heap demo_rb_tree H3) as (l & H1 & _ & H2 & _).
  exists l. split; assumption.
Defined.

(** C22: the loop of xh_core_clear, and of the end of a refresh, frees the nodes
    of a tree while it walks over it: it ends with the empty tree, every node
    has been freed once, no freed node is accessed, and nothing else changes. *)
Theorem free_all_map_info_frees hd t s :
  rb_tree hd t s →
  ∃ s', free_all_map_info hd s = (Ret tt, s') ∧ rb_tree hd E s' ∧ freed hd (elements t) s s'.
Proof.
  intros Ht. destruct (wp_returns (free_all_map_info hd) (λ _ s', rb_tree hd E s' ∧ freed hd (elements t) s s') s)
    as ([] & s' & Hrun & HQ).
  - eapply wp_free_all; [done|]. intros s' Ht' Hfr. done.
  - eauto.
Qed.

Lemma free_all_map_info_frees_witness :
  ∃ s', free_all_map_info 100 demo_heap = (Ret tt, s') ∧ rb_links s' !! 1 = None ∧ rb_links s' !! 2 = None.
Proof.
  destruct (free_all_map_info_frees 100 demo_tree demo_heap demo_rb_tree) as (s' & H1 & _ & [_ _ _ Hg]).
  exists s'. split; [exact H1|]. split; apply Hg; apply (bool_decide_unpack _); reflexivity.
Defined.

(** C21: a refresh that sees the items of /proc/self/maps one after another, with
    the old tree, the new one, and the end that frees what is left in the old
    one and assigns the head, makes of a finite map from pathnames to map infos
    the map with the pathnames seen: a map info of before stays the same
    structure, another pathname gets the structure of its first item, and the
    map infos that were not seen again are freed. *)
Theorem refresh_impl_trees_refines hd hd2 key items t s :
  rb_tree hd t s → hd ≠ hd2 → key ∉ elements t → items_fresh key (elements t) items →
  ∃ s' t', refresh_impl_trees hd hd2 key items s = (Ret tt, s') ∧ rb_tree hd t' s' ∧
    (∀ p, tree_map s' t' !! p = (λ i, default (line_node i) (tree_map s t !! p)) <$> first_line p items) ∧
    (∀ p x, tree_map s t !! p = Some x → first_line p items = None →
       rb_links s' !! x = None ∧ pathnames s' !! x = None).
Proof.
  intros Ht Hne Hk Hf.
  destruct (wp_returns (refresh_impl_trees hd hd2 key items) (λ _ s', ∃ t', rb_tree hd t' s' ∧
    (∀ p, tree_map s' t' !! p = (λ i, default (line_node i) (tree_map s t !! p)) <$> first_line p items) ∧
    (∀ p x, tree_map s t !! p = Some x → first_line p items = None →
       rb_links s' !! x = None ∧ pathnames s' !! x = None)) s) as ([] & s' & Hrun & t' & HQ).
  - eapply wp_refresh_impl_trees; [done..|]. intros s' t' H1 H2 H3. exists t'. by split_and!.
  - exists s', t'. by split.
Qed.

(** "/c" is seen again, "/d" is new and seen twice, "/a" is gone. *)
Definition demo_items : list refresh_line :=
  [([47; 99], 11, RbEntry 9 9 9 9); ([47; 100], 12, RbEntry 9 9 9 9); ([47; 100], 13, RbEntry 9 9 9 9)].

Lemma refresh_impl_trees_refines_witness :
  ∃ s' t', refresh_impl_trees 100 200 5 demo_items demo_heap = (Ret tt, s') ∧ rb_tree 100 t' s' ∧
    tree_map s' t' !! [47; 99] = Some 2 ∧ tree_map s' t' !! [47; 100] = Some 12 ∧
    tree_map s' t' !! [47; 97] = None ∧ rb_links s' !! 1 = None.
Proof.
  assert (Hm : tree_map demo_heap demo_tree = {[ [47; 97] := 1; [47; 99] := 2 ]}) by reflexivity.
  destruct (refresh_impl_trees_refines 100 200 5 demo_items demo_tree demo_heap demo_rb_tree) as (s' & t' & H1 & H2 & H3 & H4).
  - done.
  - apply (bool_decide_unpack _). reflexivity.
  - split_and!; [repeat constructor|apply (bool_decide_unpack _); reflexivity|].
    apply Forall_forall. repeat constructor; (done || (apply (bool_decide_unpack _); reflexivity)).
  - exists s', t'. split; [exact H1|]. split; [exact H2|]. rewrite !H3, Hm. split_and!; [reflexivity..|].
    apply (H4 [47; 97] 1); [by rewrite Hm|reflexivity].
Defined.
