(* ===== verification/Tailq.v ===== *)
(** * The tail queues of libxhook (queue.h)

    The TAILQ macros over a heap of link structures.  A TAILQ_HEAD and a
    TAILQ_ENTRY have the same layout - a pointer to an element and the address
    of such a pointer - which TAILQ_LAST and TAILQ_PREV rely on when they cast
    the address of one to the other; the heap has one kind of structure for
    both, at the address of a head or of the [link] field of an element.  The
    queues of xh_core.c hold the registered hooks and the ignored ones. *)

From S2P Require Import Prelude.

(** The address of a pointer to an element: [&(head)->tqh_first] or
    [&(elm)->field.tqe_next]. *)
Inductive tq_loc : Set := Head (head : Z) | Link (elm : Z).

#[export] Instance tq_loc_eq_dec : EqDecision tq_loc.
Proof. solve_decision. Defined.
#[export] Instance tq_loc_countable : Countable tq_loc.
Proof.
  apply (inj_countable' (λ p, match p with Head h => inl h | Link x => inr x end)
           (λ p, match p with inl h => Head h | inr x => Link x end)). by intros [].
Defined.

(** The structures by field ([tqh_first] and [tqe_next], [tqh_last] and
    [tqe_prev]), and what the elements carry. *)
Record tq_heap (V : Type) : Type := TqHeap {
  tq_next : gmap tq_loc Z;
  tq_last : gmap tq_loc tq_loc;
  tq_info : gmap Z V
}.
Arguments TqHeap {V} _ _ _.
Arguments tq_next {V} _.
Arguments tq_last {V} _.
Arguments tq_info {V} _.

Section tailq.
Context {V : Type}.
Notation Q := (CM (tq_heap V)).

(** ** Accesses *)

(** [*p], and the second field of the structure at [p]. *)
Definition deref (p : tq_loc) : Q Z := gets tq_next ≫= λ m, lift_opt Segv (m !! p).
Definition second (p : tq_loc) : Q tq_loc := gets tq_last ≫= λ m, lift_opt Segv (m !! p).
Definition set_deref (p : tq_loc) (x : Z) : Q unit :=
  _ ← deref p; modify (λ s, TqHeap (<[p := x]> (tq_next s)) (tq_last s) (tq_info s)).
Definition set_second (p q : tq_loc) : Q unit :=
  _ ← second p; modify (λ s, TqHeap (tq_next s) (<[p := q]> (tq_last s)) (tq_info s)).

Definition TAILQ_FIRST (head : Z) : Q Z := deref (Head head).
Definition TAILQ_NEXT (elm : Z) : Q Z := deref (Link elm).
Definition TAILQ_EMPTY (head : Z) : Q bool := x ← TAILQ_FIRST head; mret (x =? NULL).
Definition TAILQ_PREV (elm : Z) : Q Z := p ← second (Link elm); q ← second p; deref q.
Definition TAILQ_LAST (head : Z) : Q Z := p ← second (Head head); q ← second p; deref q.

(** ** Functions *)

Definition TAILQ_INIT (head : Z) : Q unit :=
  set_deref (Head head) NULL;;
  set_second (Head head) (Head head).

Definition TAILQ_INSERT_HEAD (head elm : Z) : Q unit :=
  x ← TAILQ_FIRST head;
  set_deref (Link elm) x;;
  (if negb (x =? NULL) then x ← TAILQ_FIRST head; set_second (Link x) (Link elm)
   else set_second (Head head) (Link elm));;
  set_deref (Head head) elm;;
  set_second (Link elm) (Head head).

Definition TAILQ_INSERT_BEFORE (listelm elm : Z) : Q unit :=
  p ← second (Link listelm);
  set_second (Link elm) p;;
  set_deref (Link elm) listelm;;
  p ← second (Link listelm);
  set_deref p elm;;
  set_second (Link listelm) (Link elm).

Definition TAILQ_INSERT_AFTER (head listelm elm : Z) : Q unit :=
  x ← TAILQ_NEXT listelm;
  set_deref (Link elm) x;;
  (if negb (x =? NULL) then x ← TAILQ_NEXT elm; set_second (Link x) (Link elm)
   else set_second (Head head) (Link elm));;
  set_deref (Link listelm) elm;;
  set_second (Link elm) (Link listelm).

Definition TAILQ_INSERT_TAIL (head elm : Z) : Q unit :=
  set_deref (Link elm) NULL;;
  p ← second (Head head);
  set_second (Link elm) p;;
  p ← second (Head head);
  set_deref p elm;;
  set_second (Head head) (Link elm).

Definition TAILQ_CONCAT (head1 head2 : Z) : Q unit :=
  empty ← TAILQ_EMPTY head2;
  when (negb empty) (
    p ← second (Head head1);
    x ← TAILQ_FIRST head2;
    set_deref p x;;
    x ← TAILQ_FIRST head2;
    p ← second (Head head1);
    set_second (Link x) p;;
    q ← second (Head head2);
    set_second (Head head1) q;;
    TAILQ_INIT head2).

Definition TAILQ_REMOVE (head elm : Z) : Q unit :=
  x ← TAILQ_NEXT elm;
  (if negb (x =? NULL) then x ← TAILQ_NEXT elm; p ← second (Link elm); set_second (Link x) p
   else p ← second (Link elm); set_second (Head head) p);;
  p ← second (Link elm);
  x ← TAILQ_NEXT elm;
  set_deref p x.

(** The second half of TAILQ_SWAP, for one head. *)
Definition swap_fix (head : Z) : Q unit :=
  x ← TAILQ_FIRST head;
  if negb (x =? NULL) then set_second (Link x) (Head head) else set_second (Head head) (Head head).

Definition TAILQ_SWAP (head1 head2 : Z) : Q unit :=
  swap_first ← TAILQ_FIRST head1;
  swap_last ← second (Head head1);
  x ← TAILQ_FIRST head2; set_deref (Head head1) x;;
  p ← second (Head head2); set_second (Head head1) p;;
  set_deref (Head head2) swap_first;;
  set_second (Head head2) swap_last;;
  swap_fix head1;;
  swap_fix head2.

(** ** Loops *)

(** More than the number of elements. *)
Definition tq_fuel (s : tq_heap V) : nat := S (size (tq_next s)).

(** TAILQ_FOREACH and TAILQ_FOREACH_REVERSE with a body that collects. *)
Fixpoint tq_loop (fuel : nat) (next : Z → Q Z) (var : Z) : Q (list Z) :=
  if var =? NULL then mret []
  else
    match fuel with
    | O => fail OutOfFuel
    | S fuel => x ← next var; xs ← tq_loop fuel next x; mret (var :: xs)
    end.

Definition TAILQ_FOREACH (head : Z) : Q (list Z) :=
  fuel ← gets tq_fuel; x ← TAILQ_FIRST head; tq_loop fuel TAILQ_NEXT x.
Definition TAILQ_FOREACH_REVERSE (head : Z) : Q (list Z) :=
  fuel ← gets tq_fuel; x ← TAILQ_LAST head; tq_loop fuel TAILQ_PREV x.

(** TAILQ_FOREACH_SAFE with a body. *)
Fixpoint tq_safe_loop (fuel : nat) (body : Z → Q unit) (var : Z) : Q unit :=
  if var =? NULL then mret tt
  else
    match fuel with
    | O => fail OutOfFuel
    | S fuel => tvar ← TAILQ_NEXT var; body var;; tq_safe_loop fuel body tvar
    end.

Definition TAILQ_FOREACH_SAFE (head : Z) (body : Z → Q unit) : Q unit :=
  fuel ← gets tq_fuel; x ← TAILQ_FIRST head; tq_safe_loop fuel body x.

(** ** The uses of xh_core.c *)

(** A structure that malloc returned and the code filled in; [x] and [p] are
    what was in the memory of its [link]. *)
Definition new_info (elm : Z) (v : V) (x : Z) (p : tq_loc) : Q unit :=
  modify (λ s, TqHeap (<[Link elm := x]> (tq_next s)) (<[Link elm := p]> (tq_last s)) (<[elm := v]> (tq_info s))).

Definition free_info (elm : Z) : Q unit :=
  _ ← deref (Link elm);
  modify (λ s, TqHeap (delete (Link elm) (tq_next s)) (delete (Link elm) (tq_last s)) (delete elm (tq_info s))).

(** The ends of xh_core_register and of xh_core_ignore. *)
Definition register_info (head elm : Z) (v : V) (x : Z) (p : tq_loc) : Q unit :=
  new_info elm v x p;; TAILQ_INSERT_TAIL head elm.

(** The information of the elements, in the order of TAILQ_FOREACH. *)
Definition queue_infos (head : Z) : Q (list (option V)) :=
  l ← TAILQ_FOREACH head; m ← gets tq_info; mret ((λ x, m !! x) <$> l).

(** The loops of xh_core_clear. *)
Definition free_all_info (head : Z) : Q unit :=
  TAILQ_FOREACH_SAFE head (λ elm, TAILQ_REMOVE head elm;; free_info elm).

End tailq.
