(* ===== verification/TailqProps.v ===== *)
(** * The tail queues of libxhook: correctness

    A head and the elements reached from it are a list: the macros edit it and
    the loops walk over it, forwards and backwards, without following a null
    or dangling pointer and without touching the elements of another queue. *)

From S2P Require Import Prelude Tailq.

Section tailq_props.
Context {V : Type}.
Implicit Types (s : tq_heap V).

(** ** Representation *)

(** The elements [l] are linked from the pointer [p] on, and the pointer after
    them is [q]. *)
Fixpoint seg (s : tq_heap V) (p : tq_loc) (l : list Z) (q : tq_loc) : Prop :=
  match l with
  | [] => p = q
  | x :: l => tq_next s !! p = Some x ∧ tq_last s !! Link x = Some p ∧ seg s (Link x) l q
  end.

(** The last pointer of a queue. *)
Definition end_of (p : tq_loc) (l : list Z) : tq_loc :=
  match last l with Some x => Link x | None => p end.

Record tq_list (head : Z) (l : list Z) (s : tq_heap V) : Prop := TqList {
  tl_seg : seg s (Head head) l (end_of (Head head) l);
  tl_end : tq_next s !! end_of (Head head) l = Some NULL;
  tl_last : tq_last s !! Head head = Some (end_of (Head head) l);
  tl_nodup : NoDup l;
  tl_null : NULL ∉ l
}.

(** [s'] is [s] but for the structures in [D]. *)
Record touches (D : list tq_loc) (s s' : tq_heap V) : Prop := Touches {
  to_next : ∀ p, p ∉ D → tq_next s' !! p = tq_next s !! p;
  to_last : ∀ p, p ∉ D → tq_last s' !! p = tq_last s !! p;
  to_info : tq_info s' = tq_info s
}.

Definition locs (head : Z) (l : list Z) : list tq_loc := Head head :: (Link <$> l).

Lemma seg_app s p l1 l2 q : seg s p (l1 ++ l2) q ↔ ∃ r, seg s p l1 r ∧ seg s r l2 q.
Proof. revert p. induction l1 as [|x l1 IH]; intros p; simpl; [naive_solver|]. rewrite IH. naive_solver. Qed.

Lemma seg_end s p l q : seg s p l q → q = end_of p l.
Proof.
  revert p. induction l as [|x l IH]; intros p; simpl; [by intros ->|]. intros (_ & _ & ->%IH).
  unfold end_of. rewrite last_cons. by destruct (last l).
Qed.

Lemma end_of_cons p x l : end_of p (x :: l) = end_of (Link x) l.
Proof. unfold end_of. rewrite last_cons. by destruct (last l). Qed.
Lemma end_of_snoc p x l : end_of p (l ++ [x]) = Link x.
Proof. unfold end_of. by rewrite last_snoc. Qed.
Lemma end_of_app p l1 l2 : end_of p (l1 ++ l2) = end_of (end_of p l1) l2.
Proof. revert p. induction l1 as [|x l1 IH]; intros p; [done|]. simpl. by rewrite !end_of_cons, IH. Qed.
Lemma end_of_in p l : end_of p l = p ∨ ∃ x, x ∈ l ∧ end_of p l = Link x.
Proof.
  unfold end_of. destruct (last l) as [x|] eqn:Hx; [|by left]. right. exists x. split; [|done].
  apply last_Some in Hx as [l' ->]. apply elem_of_app. right. by apply elem_of_cons; left.
Qed.

(** The pointers a walk over a segment reads. *)
Fixpoint reads (p : tq_loc) (l : list Z) : list tq_loc :=
  match l with [] => [] | x :: l => p :: reads (Link x) l end.

Lemma reads_in p l r : r ∈ reads p l → r = p ∨ r ∈ Link <$> l.
Proof.
  revert p. induction l as [|x l IH]; intros p; simpl; [by intros ?%elem_of_nil|].
  intros [->|[->|?]%IH]%elem_of_cons; [by left|right..]; apply elem_of_cons; auto.
Qed.

Lemma link_in x (l : list Z) : Link x ∈ Link <$> l ↔ x ∈ l.
Proof. rewrite list_elem_of_fmap. naive_solver. Qed.

Lemma head_not_link h (l : list Z) : Head h ∉ Link <$> l.
Proof. rewrite list_elem_of_fmap. by intros (x & ? & _). Qed.

Lemma end_not_read p l : NoDup l → p ∉ Link <$> l → end_of p l ∉ reads p l.
Proof.
  revert p. induction l as [|x l IH]; intros p Hn Hp; simpl; [by apply not_elem_of_nil|].
  rewrite end_of_cons. apply NoDup_cons in Hn as [Hx Hn]. apply not_elem_of_cons in Hp as [Hpx Hp].
  apply not_elem_of_cons. split; [|apply IH; [done|by rewrite link_in]].
  intros Heq. destruct (end_of_in (Link x) l) as [He|(y & Hy & He)]; rewrite He in Heq; subst; [done|].
  apply Hp. by rewrite link_in.
Qed.

(** A segment depends only on its own structures. *)
Lemma seg_agree s s' p l q :
  (∀ r, r ∈ reads p l → tq_next s' !! r = tq_next s !! r) →
  (∀ x, x ∈ l → tq_last s' !! Link x = tq_last s !! Link x) → seg s p l q → seg s' p l q.
Proof.
  revert p. induction l as [|x l IH]; intros p Hn Hl; simpl; [done|]. intros (H1 & H2 & H3). split_and!.
  - rewrite Hn; [done|]. by apply elem_of_cons; left.
  - rewrite Hl; [done|]. by apply elem_of_cons; left.
  - apply IH; [| |done]; intros; [apply Hn|apply Hl]; by apply elem_of_cons; right.
Qed.

(** ** Accesses *)

Lemma tq_deref (Q : Z → tq_heap V → Prop) s p x :
  tq_next s !! p = Some x → Q x s → wp (deref p) Q (λ _ _, False) s.
Proof. intros Hx HQ. unfold deref. apply wp_bind, wp_gets. rewrite Hx. by apply wp_ret. Qed.
Lemma tq_second (Q : tq_loc → tq_heap V → Prop) s p q :
  tq_last s !! p = Some q → Q q s → wp (second p) Q (λ _ _, False) s.
Proof. intros Hx HQ. unfold second. apply wp_bind, wp_gets. rewrite Hx. by apply wp_ret. Qed.
Lemma tq_set_deref (Q : unit → tq_heap V → Prop) s p x v :
  tq_next s !! p = Some v → Q tt (TqHeap (<[p := x]> (tq_next s)) (tq_last s) (tq_info s)) →
  wp (set_deref p x) Q (λ _ _, False) s.
Proof. intros Hx HQ. unfold set_deref. by eapply wp_bind, tq_deref. Qed.
Lemma tq_set_second (Q : unit → tq_heap V → Prop) s p q v :
  tq_last s !! p = Some v → Q tt (TqHeap (tq_next s) (<[p := q]> (tq_last s)) (tq_info s)) →
  wp (set_second p q) Q (λ _ _, False) s.
Proof. intros Hx HQ. unfold set_second. by eapply wp_bind, tq_second. Qed.

End tailq_props.

Ltac tq_find := first [eassumption | by simplify_map_eq | by rewrite ?lookup_insert_ne by (by intros ?; simplify_eq)].
Ltac tq_step :=
  lazymatch goal with
  | |- wp (TAILQ_FIRST _) _ _ _ => unfold TAILQ_FIRST
  | |- wp (TAILQ_NEXT _) _ _ _ => unfold TAILQ_NEXT
  | |- wp (deref _) _ _ _ => eapply tq_deref; [tq_find|]
  | |- wp (second _) _ _ _ => eapply tq_second; [tq_find|]
  | |- wp (set_deref _ _) _ _ _ => eapply tq_set_deref; [tq_find|]
  | |- wp (set_second _ _) _ _ _ => eapply tq_set_second; [tq_find|]
  | |- wp (mbind _ _) _ _ _ => apply wp_bind
  | |- wp (mret _) _ _ _ => apply wp_ret
  end; cbn [tq_next tq_last tq_info].

Section edits.
Context {V : Type}.
Implicit Types (s : tq_heap V).

(** A structure that is not in the queue. *)
Definition spare (x : Z) (l : list Z) (s : tq_heap V) : Prop :=
  x ≠ NULL ∧ x ∉ l ∧ is_Some (tq_next s !! Link x) ∧ is_Some (tq_last s !! Link x).

(** The structure whose second field holds the pointer before [l]. *)
Definition back (head : Z) (l : list Z) : tq_loc := match l with [] => Head head | y :: _ => Link y end.

(** The pointer between [l1] and [l2] and the address that is kept of it. *)
Lemma tq_at h l1 l2 s :
  tq_list h (l1 ++ l2) s →
  tq_next s !! end_of (Head h) l1 = Some (first l2) ∧ tq_last s !! back h l2 = Some (end_of (Head h) l1).
Proof.
  intros [Hs He Hl Hn H0]. apply seg_app in Hs as (r & Hs1 & Hs2). rewrite <- (seg_end _ _ _ _ Hs1).
  apply seg_end in Hs1 as Hr. destruct l2 as [|y l2]; simpl in *.
  - rewrite app_nil_r, <- Hr in *. done.
  - naive_solver.
Qed.

Lemma end_of_elem h l x : end_of (Head h) l = Link x → x ∈ l.
Proof. destruct (end_of_in (Head h) l) as [->|(y & Hy & ->)]; [done|]. by intros [= ->]. Qed.

(** The writes of an edit: at the pointer [r] and the structure of [x], and
    at the addresses kept by [b] and by [x]. *)
Definition edit (r b : tq_loc) (x : Z) (s s' : tq_heap V) : Prop :=
  (∀ p, p ≠ r → p ≠ Link x → tq_next s' !! p = tq_next s !! p) ∧
  (∀ p, p ≠ b → p ≠ Link x → tq_last s' !! p = tq_last s !! p) ∧ tq_info s' = tq_info s.

(** What is before the edit stays. *)
Lemma seg_front h l1 l2 x s s' :
  seg s (Head h) l1 (end_of (Head h) l1) → NoDup (l1 ++ l2) → x ∉ l1 →
  edit (end_of (Head h) l1) (back h l2) x s s' → seg s' (Head h) l1 (end_of (Head h) l1).
Proof.
  intros Hs (Hn1 & Hn12 & _)%NoDup_app Hx (HN & HL & _). eapply seg_agree; [| |exact Hs].
  - intros p Hp. apply HN.
    + intros ->. by apply end_not_read in Hp; [|done|apply head_not_link].
    + intros ->. apply reads_in in Hp as [?|?]; [done|]. by rewrite link_in in *.
  - intros y Hy. apply HL; [|by intros [= ->]]. destruct l2 as [|z l2]; [done|]. intros [= ->].
    apply (Hn12 z Hy). by apply elem_of_cons; left.
Qed.

(** What is after it hangs on the pointer [r']. *)
Lemma seg_back h r0 r r' l2 x s s' :
  seg s r0 l2 (end_of r0 l2) → tq_next s !! end_of r0 l2 = Some NULL → tq_last s !! Head h = Some (end_of r0 l2) →
  NoDup l2 → x ∉ l2 → (∀ y, y ∈ l2 → r ≠ Link y) → edit r (back h l2) x s s' →
  tq_next s' !! r' = Some (first l2) → tq_last s' !! back h l2 = Some r' →
  seg s' r' l2 (end_of r' l2) ∧ tq_next s' !! end_of r' l2 = Some NULL ∧
  tq_last s' !! Head h = Some (end_of r' l2).
Proof.
  intros Hs He Hl Hn Hx Hr (HN & HL & _) H1 H2. destruct l2 as [|y l2]; [done|]. rewrite end_of_cons in *.
  destruct Hs as (_ & _ & Hs). apply NoDup_cons in Hn as [Hy Hn].
  assert (Hin : ∀ z, z ∈ y :: l2 → Link z ≠ r ∧ Link z ≠ Link x).
  { intros z Hz. split; [by apply not_eq_sym, Hr|by intros [= ->]]. }
  assert (Hend : end_of (Link y) l2 ≠ r ∧ end_of (Link y) l2 ≠ Link x).
  { destruct (end_of_in (Link y) l2) as [->|(z & Hz & ->)]; apply Hin; apply elem_of_cons; auto. }
  split_and!.
  - simpl. split_and!; [done|done|]. eapply seg_agree; [| |exact Hs].
    + intros p [->|(z & -> & Hz)%list_elem_of_fmap]%reads_in; apply HN; apply Hin; apply elem_of_cons; auto.
    + intros z Hz. apply HL; [by intros [= ->]|]. apply Hin. by apply elem_of_cons; right.
  - by rewrite HN by apply Hend.
  - by rewrite HL.
Qed.

(** [x] comes between [l1] and [l2]. *)
Lemma splice_in h l1 l2 x s s' :
  tq_list h (l1 ++ l2) s → x ≠ NULL → x ∉ l1 ++ l2 →
  edit (end_of (Head h) l1) (back h l2) x s s' →
  tq_next s' !! end_of (Head h) l1 = Some x → tq_next s' !! Link x = Some (first l2) →
  tq_last s' !! Link x = Some (end_of (Head h) l1) → tq_last s' !! back h l2 = Some (Link x) →
  tq_list h (l1 ++ x :: l2) s'.
Proof.
  intros [Hs He Hl Hn H0] Hx0 Hx Hed H1 H2 H3 H4. apply seg_app in Hs as (r & Hs1 & Hs2).
  apply seg_end in Hs1 as Hr. subst r. rewrite end_of_app in *.
  apply not_elem_of_app in Hx as [Hx1 Hx2]. pose proof Hn as (Hn1 & Hn12 & Hn2)%NoDup_app.
  destruct (seg_back h (end_of (Head h) l1) (end_of (Head h) l1) (Link x) l2 x s s') as (Hq1 & Hq2 & Hq3); try done.
  { intros y Hy Heq. apply end_of_elem in Heq. by apply (Hn12 y). }
  constructor; rewrite ?end_of_app, ?end_of_cons; [|done|done| |].
  - apply seg_app. exists (end_of (Head h) l1). split; [by eapply seg_front|]. by simpl.
  - elem_solve.
  - apply not_elem_of_app in H0 as [? ?]. rewrite not_elem_of_app, not_elem_of_cons. auto.
Qed.

(** [x] goes from between [l1] and [l2]. *)
Lemma splice_out h l1 l2 x s s' :
  tq_list h (l1 ++ x :: l2) s → edit (end_of (Head h) l1) (back h l2) x s s' →
  tq_next s' !! end_of (Head h) l1 = Some (first l2) →
  tq_last s' !! back h l2 = Some (end_of (Head h) l1) →
  tq_list h (l1 ++ l2) s'.
Proof.
  intros [Hs He Hl Hn H0] Hed H1 H2. apply seg_app in Hs as (r & Hs1 & _ & _ & Hs2).
  apply seg_end in Hs1 as Hr. subst r. rewrite end_of_app, end_of_cons in *.
  pose proof Hn as (Hn1 & Hn12 & [Hx2 Hn2]%NoDup_cons)%NoDup_app. apply disj_cons_r in Hn12 as [Hx1 Hn12].
  destruct (seg_back h (Link x) (end_of (Head h) l1) (end_of (Head h) l1) l2 x s s') as (Hq1 & Hq2 & Hq3); try done.
  { intros y Hy Heq. apply end_of_elem in Heq. by apply (Hn12 y). }
  constructor; rewrite ?end_of_app; [|done|done| |].
  - apply seg_app. exists (end_of (Head h) l1). split; [|done]. eapply (seg_front _ _ l2); [done| |done|done].
    elem_solve.
  - elem_solve.
  - apply not_elem_of_app in H0 as [? [? ?]%not_elem_of_cons]. by apply not_elem_of_app.
Qed.

(** An edit touches only the queue and [x]. *)
Lemma edit_touches h l1 l2 x s s' :
  edit (end_of (Head h) l1) (back h l2) x s s' → touches (locs h (x :: l1 ++ l2)) s s'.
Proof.
  intros (HN & HL & HI). unfold locs. split; [| |done].
  - intros p Hp. apply not_elem_of_cons in Hp as [Hp1 [Hp2 Hp]%not_elem_of_cons]. apply HN; [|done].
    intros ->. destruct (end_of_in (Head h) l1) as [Heq|(y & Hy & Heq)]; rewrite Heq in *; [done|].
    apply Hp, link_in, elem_of_app. auto.
  - intros p Hp. apply not_elem_of_cons in Hp as [Hp1 [Hp2 Hp]%not_elem_of_cons]. apply HL; [|done].
    intros ->. destruct l2 as [|y l2]; [done|]. apply Hp, link_in, elem_of_app. right. by apply elem_of_cons; left.
Qed.

(** ** The macros *)

(** What an access to a queue of [l1 ++ l2] reads. *)
Ltac tq_open H :=
  let H1 := fresh "Hn" in let H2 := fresh "Hb" in destruct (tq_at _ _ _ _ H) as [H1 H2].

Lemma back_ne_link h l x : x ∉ l → back h l ≠ Link x.
Proof. destruct l as [|y l]; [done|]. intros Hx [= ->]. apply Hx. by apply elem_of_cons; left. Qed.

Lemma end_ne_link h l x : x ∉ l → end_of (Head h) l ≠ Link x.
Proof. intros Hx Heq. by apply end_of_elem in Heq. Qed.

(** An insertion whose writes are those of [splice_in], in any order. *)
Lemma tq_insert (Q : unit → tq_heap V → Prop) h l1 l2 x s n b :
  tq_list h (l1 ++ l2) s → spare x (l1 ++ l2) s →
  (∀ s', tq_list h (l1 ++ x :: l2) s' → touches (locs h (x :: l1 ++ l2)) s s' → Q tt s') →
  (∀ p, n !! p = if decide (p = end_of (Head h) l1) then Some x
                 else if decide (p = Link x) then Some (first l2) else tq_next s !! p) →
  (∀ p, b !! p = if decide (p = back h l2) then Some (Link x)
                 else if decide (p = Link x) then Some (end_of (Head h) l1) else tq_last s !! p) →
  Q tt (TqHeap n b (tq_info s)).
Proof.
  intros Hl (Hx0 & Hx & _) HQ Hn Hb. pose proof Hx as [Hx1 Hx2]%not_elem_of_app.
  apply (end_ne_link h) in Hx1. apply (back_ne_link h) in Hx2.
  assert (Hed : edit (end_of (Head h) l1) (back h l2) x s (TqHeap n b (tq_info s))).
  { split_and!; cbn; [| |done]; intros p ??; [rewrite Hn|rewrite Hb]; by rewrite !decide_False. }
  apply HQ; [|by eapply edit_touches]. eapply splice_in; [done..| | | |]; cbn.
  - by rewrite Hn, decide_True.
  - by rewrite Hn, decide_False, decide_True by done.
  - by rewrite Hb, decide_False, decide_True by done.
  - by rewrite Hb, decide_True.
Qed.

Ltac tq_lookup := intros p; cbn; repeat case_decide; subst; by simplify_map_eq.

Lemma wp_insert_tail (Q : unit → tq_heap V → Prop) h l x s :
  tq_list h l s → spare x l s →
  (∀ s', tq_list h (l ++ [x]) s' → touches (locs h (x :: l ++ [])) s s' → Q tt s') →
  wp (TAILQ_INSERT_TAIL h x) Q (λ _ _, False) s.
Proof.
  rewrite <- (app_nil_r l) at 1 2. intros Hl Hx HQ. pose proof Hx as (Hx0 & Hxl & [? ?] & [? ?]).
  tq_open Hl. cbn [back first head default] in *. unfold TAILQ_INSERT_TAIL.
  rewrite app_nil_r in Hxl. pose proof (end_ne_link h l x Hxl).
  repeat tq_step. eapply (tq_insert Q h l []); [done..|tq_lookup|tq_lookup].
Qed.

Lemma tq_null h l s x : tq_list h l s → x ∈ l → x =? NULL = false.
Proof. intros [_ _ _ _ H0] Hx. apply Z.eqb_neq. by intros ->. Qed.

Lemma wp_insert_head (Q : unit → tq_heap V → Prop) h l x s :
  tq_list h l s → spare x l s →
  (∀ s', tq_list h (x :: l) s' → touches (locs h (x :: l)) s s' → Q tt s') →
  wp (TAILQ_INSERT_HEAD h x) Q (λ _ _, False) s.
Proof.
  intros Hl Hx HQ. pose proof Hx as (Hx0 & Hxl & [? ?] & [? ?]).
  destruct (tq_at h [] l s Hl) as [Hn Hb]. unfold TAILQ_INSERT_HEAD. change (end_of (Head h) []) with (Head h) in *.
  pose proof (back_ne_link h l x Hxl). destruct l as [|y l].
  - change (first []) with NULL in *. cbn [back] in *. do 5 tq_step. rewrite Z.eqb_refl. cbn [negb].
    repeat tq_step. eapply (tq_insert Q h [] []); [done..|tq_lookup|tq_lookup].
  - change (first (y :: l)) with y in *. cbn [back] in *. do 5 tq_step.
    rewrite (tq_null _ _ _ y Hl) by (by apply elem_of_cons; left). cbn [negb].
    repeat tq_step. eapply (tq_insert Q h [] (y :: l)); [done..|tq_lookup|tq_lookup].
Qed.

Lemma wp_insert_before (Q : unit → tq_heap V → Prop) h l1 y l2 x s :
  tq_list h (l1 ++ y :: l2) s → spare x (l1 ++ y :: l2) s →
  (∀ s', tq_list h (l1 ++ x :: y :: l2) s' → touches (locs h (x :: l1 ++ y :: l2)) s s' → Q tt s') →
  wp (TAILQ_INSERT_BEFORE y x) Q (λ _ _, False) s.
Proof.
  intros Hl Hx HQ. pose proof Hx as (Hx0 & Hxl & [? ?] & [? ?]). tq_open Hl.
  change (first (y :: l2)) with y in *. cbn [back] in *. unfold TAILQ_INSERT_BEFORE.
  assert (Link y ≠ Link x) by (intros [= ->]; apply Hxl; elem_solve).
  pose proof (end_ne_link h l1 x ltac:(elem_solve)).
  repeat tq_step. eapply (tq_insert Q h l1 (y :: l2)); [done..|tq_lookup|tq_lookup].
Qed.

Lemma wp_insert_after (Q : unit → tq_heap V → Prop) h l1 y l2 x s :
  tq_list h (l1 ++ y :: l2) s → spare x (l1 ++ y :: l2) s →
  (∀ s', tq_list h (l1 ++ y :: x :: l2) s' → touches (locs h (x :: l1 ++ y :: l2)) s s' → Q tt s') →
  wp (TAILQ_INSERT_AFTER h y x) Q (λ _ _, False) s.
Proof.
  rewrite !(cons_middle y), !(app_assoc l1 [y]). intros Hl Hx HQ.
  pose proof Hx as (Hx0 & Hxl & [? ?] & [? ?]). tq_open Hl. rewrite end_of_snoc in *.
  unfold TAILQ_INSERT_AFTER. pose proof (back_ne_link h l2 x ltac:(elem_solve)).
  assert (Link y ≠ Link x) by (intros [= ->]; apply Hxl; elem_solve).
  destruct l2 as [|z l2].
  - change (first []) with NULL in *. cbn [back] in *. do 5 tq_step. rewrite Z.eqb_refl. cbn [negb].
    repeat tq_step. eapply (tq_insert Q h (l1 ++ [y]) []); rewrite ?end_of_snoc; [done..|tq_lookup|tq_lookup].
  - change (first (z :: l2)) with z in *. cbn [back] in *. do 5 tq_step.
    rewrite (tq_null _ _ _ z Hl) by elem_solve. cbn [negb].
    repeat tq_step. eapply (tq_insert Q h (l1 ++ [y]) (z :: l2)); rewrite ?end_of_snoc; [done..|tq_lookup|tq_lookup].
Qed.

Lemma wp_tq_remove (Q : unit → tq_heap V → Prop) h l1 x l2 s :
  tq_list h (l1 ++ x :: l2) s →
  (∀ s', tq_list h (l1 ++ l2) s' → touches (locs h (x :: l1 ++ l2)) s s' →
     is_Some (tq_next s' !! Link x) → Q tt s') →
  wp (TAILQ_REMOVE h x) Q (λ _ _, False) s.
Proof.
  intros Hl HQ. pose proof (tl_nodup _ _ _ Hl) as Hnd.
  assert (Hx1 : x ∉ l1) by elem_solve. assert (Hx2 : x ∉ l2) by elem_solve.
  apply (end_ne_link h) in Hx1. apply (back_ne_link h) in Hx2.
  assert (Hn : tq_next s !! Link x = Some (first l2) ∧ tq_last s !! back h l2 = Some (Link x)).
  { rewrite cons_middle, app_assoc in Hl. destruct (tq_at _ _ _ _ Hl) as [Hn Hb]. by rewrite end_of_snoc in *. }
  destruct (tq_at h l1 (x :: l2) s Hl) as [H1 H2]. change (first (x :: l2)) with x in *. cbn [back] in H2.
  destruct Hn as [Hn Hb].
  assert (Hres : Q tt (TqHeap (<[end_of (Head h) l1 := first l2]> (tq_next s))
                         (<[back h l2 := end_of (Head h) l1]> (tq_last s)) (tq_info s))).
  { assert (Hed : edit (end_of (Head h) l1) (back h l2) x s (TqHeap (<[end_of (Head h) l1 := first l2]> (tq_next s))
                         (<[back h l2 := end_of (Head h) l1]> (tq_last s)) (tq_info s))).
    { split_and!; cbn; [| |done]; intros p ??; by apply lookup_insert_ne. }
    apply HQ; [|by eapply edit_touches|cbn; rewrite lookup_insert_ne by done; by eexists].
    eapply splice_out; [done|exact Hed|..]; cbn; apply lookup_insert_eq. }
  unfold TAILQ_REMOVE. destruct l2 as [|y l2].
  - change (first []) with NULL in *. cbn [back] in *. do 3 tq_step. rewrite Z.eqb_refl. cbn [negb].
    repeat tq_step. exact Hres.
  - change (first (y :: l2)) with y in *. cbn [back] in *. do 3 tq_step.
    rewrite (tq_null _ _ _ y Hl) by elem_solve. cbn [negb]. repeat tq_step. exact Hres.
Qed.

(** ** Two queues *)

Lemma end_in_locs h l : end_of (Head h) l ∈ locs h l.
Proof.
  unfold locs. destruct (end_of_in (Head h) l) as [->|(y & Hy & ->)]; [by apply elem_of_cons; left|].
  apply elem_of_cons; right. by apply link_in.
Qed.

Lemma tq_agree h l s s' :
  tq_list h l s → (∀ p, p ∈ locs h l → tq_next s' !! p = tq_next s !! p ∧ tq_last s' !! p = tq_last s !! p) →
  tq_list h l s'.
Proof.
  intros [Hs He Hl Hn H0] Ha. constructor; [| | |done|done].
  - eapply seg_agree; [| |exact Hs].
    + intros p Hp. apply Ha. by apply elem_of_cons, reads_in.
    + intros x Hx. apply Ha. apply elem_of_cons; right. by apply link_in.
  - by rewrite (proj1 (Ha _ (end_in_locs h l))).
  - destruct (Ha (Head h)) as [_ ->]; [by apply elem_of_cons; left|done].
Qed.

Lemma tq_touches h l D s s' :
  tq_list h l s → touches D s s' → (∀ p, p ∈ locs h l → p ∉ D) → tq_list h l s'.
Proof. intros Hl [HN HL _] HD. eapply tq_agree; [done|]. intros p Hp. split; [apply HN|apply HL]; by apply HD. Qed.

(** The elements of a queue, under another head. *)
Lemma tq_rehead h h' y l s s' :
  tq_list h (y :: l) s → tq_next s' !! Head h' = Some y → tq_last s' !! Link y = Some (Head h') →
  tq_last s' !! Head h' = Some (end_of (Link y) l) →
  (∀ x, x ∈ y :: l → tq_next s' !! Link x = tq_next s !! Link x) →
  (∀ x, x ∈ l → tq_last s' !! Link x = tq_last s !! Link x) →
  tq_list h' (y :: l) s'.
Proof.
  intros [Hs He Hl Hn H0] H1 H2 H3 HN HL. rewrite end_of_cons in *. destruct Hs as (_ & _ & Hs).
  constructor; rewrite ?end_of_cons; [| |done..].
  - simpl. split_and!; [done|done|]. eapply seg_agree; [|exact HL|exact Hs].
    intros p [->|(x & -> & Hx)%list_elem_of_fmap]%reads_in; apply HN; apply elem_of_cons; auto.
  - rewrite <- He. destruct (end_of_in (Link y) l) as [->|(x & Hx & ->)]; apply HN; apply elem_of_cons; auto.
Qed.

Record two_queues (h1 h2 : Z) (l1 l2 : list Z) (s : tq_heap V) : Prop := TwoQueues {
  tw_1 : tq_list h1 l1 s;
  tw_2 : tq_list h2 l2 s;
  tw_ne : h1 ≠ h2;
  tw_disj : ∀ x, x ∈ l1 → x ∉ l2
}.

Lemma tq_empty h s : tq_next s !! Head h = Some NULL → tq_last s !! Head h = Some (Head h) → tq_list h [] s.
Proof. intros H1 H2. constructor; [done|done|done|constructor|by apply not_elem_of_nil]. Qed.

Lemma end_of_queue h l s : tq_list h l s → is_Some (tq_next s !! Head h) ∧ is_Some (tq_last s !! Head h).
Proof. intros Hl. split; [|by eexists; apply Hl]. destruct (tq_at h [] l s Hl) as [H _]. by eexists. Qed.

Lemma wp_init (Q : unit → tq_heap V → Prop) h s :
  is_Some (tq_next s !! Head h) → is_Some (tq_last s !! Head h) →
  Q tt (TqHeap (<[Head h := NULL]> (tq_next s)) (<[Head h := Head h]> (tq_last s)) (tq_info s)) →
  wp (TAILQ_INIT h) Q (λ _ _, False) s.
Proof. intros [? ?] [? ?] HQ. unfold TAILQ_INIT. by repeat tq_step. Qed.

Lemma wp_concat (Q : unit → tq_heap V → Prop) h1 h2 l1 l2 s :
  two_queues h1 h2 l1 l2 s → (∀ s', two_queues h1 h2 (l1 ++ l2) [] s' → tq_info s' = tq_info s → Q tt s') →
  wp (TAILQ_CONCAT h1 h2) Q (λ _ _, False) s.
Proof.
  intros [Hq1 Hq2 Hne Hd] HQ. unfold TAILQ_CONCAT, TAILQ_EMPTY.
  destruct (tq_at h2 [] l2 s Hq2) as [Hn2 Hb2]. change (end_of (Head h2) []) with (Head h2) in *.
  destruct l2 as [|y l2].
  { change (first []) with NULL in *. do 4 tq_step. rewrite Z.eqb_refl. apply wp_ret, wp_ret.
    apply HQ; [|done]. rewrite app_nil_r. split; [done..|]. intros. by apply not_elem_of_nil. }
  change (first (y :: l2)) with y in *. cbn [back] in Hb2. do 4 tq_step. rewrite (tq_null _ _ _ y Hq2) by (by apply elem_of_cons; left).
  pose proof Hq1 as [Hs1 He1 Hl1 Hnd1 H01]. pose proof Hq2 as [Hs2 He2 Hl2 Hnd2 H02]. apply wp_ret. cbn [negb when].
  rewrite end_of_cons in Hl2, He2. set (e1 := end_of (Head h1) l1) in *.
  assert (Hye : Link y ≠ e1) by (intros Heq; symmetry in Heq; apply end_of_elem in Heq; apply (Hd y Heq), elem_of_cons; auto).
  assert (Hhe : Head h2 ≠ e1).
  { unfold e1. destruct (end_of_in (Head h1) l1) as [->|(x & Hx & ->)]; [|done]. intros [= ->]. done. }
  assert (Hhh : Head h1 ≠ Head h2) by (by intros [= ->]).
  assert (Hhe' : tq_next s !! Head h2 = Some y) by done. clear Hn2.
  repeat tq_step. apply wp_init; [eexists; by simplify_map_eq|eexists; by simplify_map_eq|]. cbn.
  apply HQ; [|done]. split; [|apply tq_empty; cbn; by simplify_map_eq|done|intros; by apply not_elem_of_nil].
  destruct Hs2 as (_ & _ & Hs2). apply NoDup_cons in Hnd2 as [Hyl Hnd2].
  constructor; rewrite ?end_of_app, ?end_of_cons; fold e1; cbn.
  - apply seg_app. exists e1. split; [|simpl; split_and!].
    + eapply seg_agree; [| |exact Hs1]; cbn.
      * intros p Hp. rewrite !lookup_insert_ne; [done| |].
        -- intros <-. by apply end_not_read in Hp; [|done|apply head_not_link].
        -- intros <-. by apply reads_in in Hp as [[= ->]|?%head_not_link].
      * intros x Hx. rewrite !lookup_insert_ne; [done| |done|done]. intros [= ->].
        apply (Hd x Hx). by apply elem_of_cons; left.
    + by rewrite lookup_insert_ne, lookup_insert_eq.
    + by rewrite !lookup_insert_ne, lookup_insert_eq by done.
    + rewrite end_of_cons in Hs2. eapply seg_agree; [| |exact Hs2]; cbn.
      * intros p [->|(x & -> & Hx)%list_elem_of_fmap]%reads_in; rewrite !lookup_insert_ne; try done.
        intros Heq. apply end_of_elem in Heq. apply (Hd x Heq). by apply elem_of_cons; right.
      * intros x Hx. rewrite !lookup_insert_ne; [done| |done|done]. by intros [= ->].
  - assert (∃ x, end_of (Link y) l2 = Link x ∧ x ∈ y :: l2) as (x & Hex & Hx).
    { destruct (end_of_in (Link y) l2) as [->|(x & Hx & ->)]; eexists; (split; [done|]); apply elem_of_cons; auto. }
    rewrite Hex in *. rewrite !lookup_insert_ne; try done. intros Heq. apply end_of_elem in Heq. by apply (Hd x Heq).
  - rewrite lookup_insert_ne, lookup_insert_eq; congruence.
  - apply NoDup_app. split_and!; [done..|by constructor].
  - apply not_elem_of_app. done.
Qed.

(** One half of a swap. *)
Lemma wp_swap_fix (Q : unit → tq_heap V → Prop) h h' l s0 s :
  tq_list h' l s0 → tq_next s !! Head h = Some (first l) →
  tq_last s !! Head h = tq_last s0 !! Head h' →
  (∀ x, x ∈ l → tq_next s !! Link x = tq_next s0 !! Link x ∧ tq_last s !! Link x = tq_last s0 !! Link x) →
  (∀ s', tq_list h l s' → touches (locs h l) s s' → Q tt s') →
  wp (swap_fix h) Q (λ _ _, False) s.
Proof.
  intros Hl Hn Hb Ha HQ. pose proof (tl_last _ _ _ Hl) as Hlast. rewrite Hlast in Hb. unfold swap_fix.
  destruct l as [|y l].
  - change (first []) with NULL in Hn. do 3 tq_step. rewrite Z.eqb_refl. cbn [negb]. tq_step.
    apply HQ; [apply tq_empty; cbn; [done|by simplify_map_eq]|].
    split; [done| |done]. intros p Hp. cbn. apply lookup_insert_ne. intros <-. apply Hp. by apply elem_of_cons; left.
  - change (first (y :: l)) with y in Hn. do 3 tq_step.
    rewrite (tq_null _ _ _ y Hl) by (by apply elem_of_cons; left). cbn [negb].
    destruct (tq_at h' [] (y :: l) s0 Hl) as [_ Hy]. cbn [back] in Hy.
    assert (Hyl : tq_last s !! Link y = Some (end_of (Head h') [])).
    { destruct (Ha y) as [_ ->]; [by apply elem_of_cons; left|done]. }
    tq_step. apply HQ.
    + eapply tq_rehead; [exact Hl|done|cbn; by simplify_map_eq| | |]; cbn.
      * by rewrite lookup_insert_ne, Hb, end_of_cons.
      * intros x Hx. by apply Ha.
      * intros x Hx. rewrite lookup_insert_ne; [by apply Ha; apply elem_of_cons; right|].
        intros [= ->]. pose proof (tl_nodup _ _ _ Hl) as [? _]%NoDup_cons. done.
    + split; [done| |done]. intros p Hp. cbn. apply lookup_insert_ne. intros <-. apply Hp.
      apply elem_of_cons; right. apply link_in. by apply elem_of_cons; left.
Qed.

Lemma wp_swap (Q : unit → tq_heap V → Prop) h1 h2 l1 l2 s :
  two_queues h1 h2 l1 l2 s → (∀ s', two_queues h1 h2 l2 l1 s' → tq_info s' = tq_info s → Q tt s') →
  wp (TAILQ_SWAP h1 h2) Q (λ _ _, False) s.
Proof.
  intros [Hq1 Hq2 Hne Hd] HQ. unfold TAILQ_SWAP.
  destruct (tq_at h1 [] l1 s Hq1) as [Hn1 _]. destruct (tq_at h2 [] l2 s Hq2) as [Hn2 _].
  change (end_of (Head h1) []) with (Head h1) in *. change (end_of (Head h2) []) with (Head h2) in *.
  pose proof (tl_last _ _ _ Hq1) as Hl1. pose proof (tl_last _ _ _ Hq2) as Hl2.
  assert (Hhh : Head h1 ≠ Head h2) by (by intros [= ->]).
  assert (Hhh' : Head h2 ≠ Head h1) by (by intros [= ->]).
  repeat tq_step.
  apply (wp_swap_fix _ h1 h2 l2 s); [done|cbn; by simplify_map_eq|cbn; by simplify_map_eq| |].
  { intros x Hx. cbn. by rewrite !lookup_insert_ne. }
  intros s1 Ht1 Ho1. apply (wp_swap_fix _ h2 h1 l1 s); [done| | | |].
  { rewrite (to_next _ _ _ Ho1); cbn; [by simplify_map_eq|].
    intros [?|(x & ? & Hx)%list_elem_of_fmap]%elem_of_cons; done. }
  { rewrite (to_last _ _ _ Ho1); cbn; [by simplify_map_eq|].
    intros [?|(x & ? & Hx)%list_elem_of_fmap]%elem_of_cons; done. }
  { intros x Hx. assert (Link x ∉ locs h1 l2).
    { intros [?|Hx2]%elem_of_cons; [done|]. apply link_in in Hx2. by apply (Hd x). }
    rewrite (to_next _ _ _ Ho1), (to_last _ _ _ Ho1) by done. cbn. by rewrite !lookup_insert_ne. }
  intros s2 Ht2 Ho2. apply HQ; [|by rewrite (to_info _ _ _ Ho2), (to_info _ _ _ Ho1)].
  split; [|done|done|intros x Hx2 Hx1; by apply (Hd x)]. eapply tq_touches; [done|exact Ho2|].
  intros p Hp Hp'. apply elem_of_cons in Hp as [->|(x & -> & Hx)%list_elem_of_fmap];
    apply elem_of_cons in Hp' as [Hp'|Hp']; [done|by apply head_not_link in Hp'|done|].
  apply link_in in Hp'. by apply (Hd x).
Qed.

(** ** Walks *)

Lemma tq_mid h l1 x l2 s :
  tq_list h (l1 ++ x :: l2) s →
  tq_next s !! Link x = Some (first l2) ∧ tq_last s !! Link x = Some (end_of (Head h) l1).
Proof.
  intros Hl. destruct (tq_at h l1 (x :: l2) s Hl) as [_ Hb]. split; [|done].
  rewrite cons_middle, app_assoc in Hl. destruct (tq_at _ _ _ _ Hl) as [Hn _]. by rewrite end_of_snoc in Hn.
Qed.

Lemma wp_tq_next (Q : Z → tq_heap V → Prop) h l1 x l2 s :
  tq_list h (l1 ++ x :: l2) s → Q (first l2) s → wp (TAILQ_NEXT x) Q (λ _ _, False) s.
Proof. intros [Hn _]%tq_mid HQ. by repeat tq_step. Qed.

Lemma wp_tq_first (Q : Z → tq_heap V → Prop) h l s :
  tq_list h l s → Q (first l) s → wp (TAILQ_FIRST h) Q (λ _ _, False) s.
Proof. intros Hl HQ. destruct (tq_at h [] l s Hl) as [Hn _]. change (end_of (Head h) []) with (Head h) in Hn. by repeat tq_step. Qed.

(** The casts of TAILQ_PREV and TAILQ_LAST. *)
Lemma wp_tq_back (Q : Z → tq_heap V → Prop) h l1 l2 s :
  tq_list h (l1 ++ l2) s → Q (last_of l1) s →
  wp (q ← second (end_of (Head h) l1); deref q) Q (λ _ _, False) s.
Proof.
  intros Hl HQ. destruct l1 as [|y l1 _] using rev_ind.
  - change (end_of (Head h) []) with (Head h). destruct Hl as [_ He Hlast _ _]. by repeat tq_step.
  - rewrite end_of_snoc. rewrite last_of_snoc in HQ. rewrite <- app_assoc in Hl.
    destruct (tq_mid h l1 y l2 s Hl) as [_ Hy]. destruct (tq_at h l1 (y :: l2) s Hl) as [Hn _].
    change (first (y :: l2)) with y in Hn. by repeat tq_step.
Qed.

Lemma wp_tq_prev (Q : Z → tq_heap V → Prop) h l1 x l2 s :
  tq_list h (l1 ++ x :: l2) s → Q (last_of l1) s → wp (TAILQ_PREV x) Q (λ _ _, False) s.
Proof.
  intros Hl HQ. destruct (tq_mid _ _ _ _ _ Hl) as [_ Hx]. unfold TAILQ_PREV. do 2 tq_step. by eapply wp_tq_back.
Qed.

Lemma wp_tq_lastelm (Q : Z → tq_heap V → Prop) h l s :
  tq_list h l s → Q (last_of l) s → wp (TAILQ_LAST h) Q (λ _ _, False) s.
Proof.
  intros Hl HQ. pose proof (tl_last _ _ _ Hl) as Hlast. unfold TAILQ_LAST. do 2 tq_step.
  eapply wp_tq_back; [by rewrite app_nil_r|done].
Qed.

Lemma tq_list_next h l s p : tq_list h l s → p ∈ locs h l → is_Some (tq_next s !! p) ∧ is_Some (tq_last s !! p).
Proof.
  intros Hl [->|(x & -> & Hx)%list_elem_of_fmap]%elem_of_cons; [by eapply end_of_queue|].
  apply list_elem_of_split in Hx as (l1 & l2 & ->). destruct (tq_mid _ _ _ _ _ Hl) as [? ?]. eauto.
Qed.

Lemma tq_list_fuel h l s : tq_list h l s → (length l < tq_fuel s)%nat.
Proof.
  intros Hl. unfold tq_fuel. rewrite <- size_dom.
  assert (Hnd : NoDup (Link <$> l)) by (apply NoDup_fmap_2; [by intros ?? [= ->]|apply Hl]).
  assert (Hlen : length l = size (list_to_set (Link <$> l) : gset tq_loc)).
  { by rewrite size_list_to_set, length_fmap. }
  rewrite Hlen. apply Nat.lt_succ_r, subseteq_size. intros p Hp. apply elem_of_list_to_set in Hp.
  apply elem_of_dom. eapply tq_list_next; [done|]. by apply elem_of_cons; right.
Qed.

Lemma wp_tq_loop (Q : list Z → tq_heap V → Prop) h fuel l1 l2 s :
  tq_list h (l1 ++ l2) s → (length l2 ≤ fuel)%nat → Q l2 s →
  wp (tq_loop fuel TAILQ_NEXT (first l2)) Q (λ _ _, False) s.
Proof.
  revert l1 l2 Q. induction fuel as [|fuel IH]; intros l1 [|x l2] Q Hl Hf HQ;
    [by apply (wp_ret _ Q)|simpl in Hf; lia|by apply (wp_ret _ Q)|].
  change (first (x :: l2)) with x. cbn [tq_loop]. rewrite (tq_null _ _ _ x Hl) by elem_solve.
  apply wp_bind. eapply wp_tq_next; [done|]. apply wp_bind.
  apply (IH (l1 ++ [x])); [by rewrite <- app_assoc|simpl in Hf; lia|]. by apply wp_ret.
Qed.

Lemma wp_tq_loop_reverse (Q : list Z → tq_heap V → Prop) h fuel l1 l2 s :
  tq_list h (l1 ++ l2) s → (length l1 ≤ fuel)%nat → Q (reverse l1) s →
  wp (tq_loop fuel TAILQ_PREV (last_of l1)) Q (λ _ _, False) s.
Proof.
  revert l1 l2 Q. induction fuel as [|fuel IH]; intros l1 l2 Q Hl Hf HQ.
  - assert (l1 = []) as -> by (apply length_zero_iff_nil; lia). by apply (wp_ret _ Q).
  - destruct l1 as [|x l1 _] using rev_ind; [by apply (wp_ret _ Q)|]. rewrite last_of_snoc.
    rewrite <- app_assoc in Hl. rewrite length_app in Hf. simpl in Hf. cbn [tq_loop].
    rewrite (tq_null _ _ _ x Hl) by elem_solve. apply wp_bind. eapply wp_tq_prev; [done|]. apply wp_bind.
    apply (IH l1 (x :: l2)); [done|lia|]. apply wp_ret. by rewrite reverse_snoc in HQ.
Qed.

(** ** The queues of xh_core.c *)

(** The queue of [head] holds the elements [l] with the information [vs]. *)
Record tq_infos (h : Z) (l : list Z) (vs : list V) (s : tq_heap V) : Prop := TqInfos {
  ti_list : tq_list h l s;
  ti_info : (λ x, tq_info s !! x) <$> l = Some <$> vs
}.

Lemma spare_new h l s x v n p :
  tq_list h l s → x ≠ NULL → x ∉ l →
  let s' := TqHeap (<[Link x := n]> (tq_next s)) (<[Link x := p]> (tq_last s)) (<[x := v]> (tq_info s)) in
  tq_list h l s' ∧ spare x l s'.
Proof.
  intros Hl Hx0 Hx. split.
  - eapply tq_agree; [done|]. intros r Hr. cbn.
    assert (Link x ≠ r). { intros <-. apply elem_of_cons in Hr as [?|Hr]; [done|]. by apply link_in in Hr. }
    by rewrite !lookup_insert_ne.
  - split_and!; [done|done|eexists; apply lookup_insert_eq|eexists; apply lookup_insert_eq].
Qed.

Lemma fmap_info_insert (m : gmap Z V) x v (l : list Z) :
  x ∉ l → (λ y, <[x := v]> m !! y) <$> l = (λ y, m !! y) <$> l.
Proof.
  intros Hx. apply list_fmap_ext. intros i y Hy. apply lookup_insert_ne. intros <-.
  apply Hx. by eapply list_elem_of_lookup_2.
Qed.

Lemma wp_register_info (Q : unit → tq_heap V → Prop) h l vs x v n p s :
  tq_infos h l vs s → x ≠ NULL → x ∉ l →
  (∀ s', tq_infos h (l ++ [x]) (vs ++ [v]) s' → Q tt s') →
  wp (register_info h x v n p) Q (λ _ _, False) s.
Proof.
  intros [Hl Hi] Hx0 Hx HQ. unfold register_info, new_info. apply wp_bind, wp_modify.
  destruct (spare_new h l s x v n p Hl Hx0 Hx) as [Hl1 Hs1]. eapply wp_insert_tail; [done..|].
  intros s' Hl' [_ _ Hinfo]. apply HQ. split; [done|]. rewrite !fmap_app, Hinfo. cbn [tq_info].
  rewrite fmap_info_insert, Hi by done. simpl. by rewrite lookup_insert_eq.
Qed.

Lemma wp_free_info (Q : unit → tq_heap V → Prop) x s :
  is_Some (tq_next s !! Link x) →
  Q tt (TqHeap (delete (Link x) (tq_next s)) (delete (Link x) (tq_last s)) (delete x (tq_info s))) →
  wp (free_info x) Q (λ _ _, False) s.
Proof. intros [n Hn] HQ. unfold free_info. apply wp_bind. by eapply tq_deref. Qed.

(** What freeing the elements [l] of a queue leaves. *)
Record tq_freed (h : Z) (l : list Z) (s s' : tq_heap V) : Prop := TqFreed {
  tf_next : ∀ p, p ∉ locs h l → tq_next s' !! p = tq_next s !! p;
  tf_last : ∀ p, p ∉ locs h l → tq_last s' !! p = tq_last s !! p;
  tf_info : ∀ x, x ∉ l → tq_info s' !! x = tq_info s !! x;
  tf_gone : ∀ x, x ∈ l → tq_next s' !! Link x = None ∧ tq_info s' !! x = None
}.

Lemma wp_tq_free_loop (Q : unit → tq_heap V → Prop) h fuel l s :
  tq_list h l s → (length l ≤ fuel)%nat →
  (∀ s', tq_list h [] s' → tq_freed h l s s' → Q tt s') →
  wp (tq_safe_loop fuel (λ elm, TAILQ_REMOVE h elm;; free_info elm) (first l)) Q (λ _ _, False) s.
Proof.
  assert (Hnil : ∀ s, tq_freed h [] s s) by (split; [done..|]; intros x Hx; by apply elem_of_nil in Hx).
  revert l s. induction fuel as [|fuel IH]; intros [|x l] s Hl Hf HQ;
    [by apply (wp_ret _ Q), HQ|simpl in Hf; lia|by apply (wp_ret _ Q), HQ|].
  change (first (x :: l)) with x. cbn [tq_safe_loop].
  rewrite (tq_null _ _ _ x Hl) by (by apply elem_of_cons; left).
  apply wp_bind. eapply (wp_tq_next _ _ []); [done|]. apply wp_bind, wp_bind.
  pose proof (tl_nodup _ _ _ Hl) as [Hxl _]%NoDup_cons.
  eapply (wp_tq_remove _ h []); [done|]. intros s1 Hl1 Ho1 Hx1. eapply wp_free_info; [done|].
  assert (Hlx : ∀ p, p ∈ locs h l → p ≠ Link x).
  { intros p [->|(y & -> & Hy)%list_elem_of_fmap]%elem_of_cons; [done|by intros [= ->]]. }
  apply IH; [|simpl in Hf; lia|].
  - eapply tq_agree; [exact Hl1|]. intros p Hp. cbn. by rewrite !lookup_delete_ne by (by apply not_eq_sym, Hlx).
  - intros s' Hl' [Hfn Hfl Hfi Hfg]. cbn in *. apply HQ; [done|].
    assert (Hloc : ∀ p, p ∉ locs h (x :: l) → p ≠ Link x ∧ p ∉ locs h l).
    { unfold locs. intros p Hp. simpl in Hp. rewrite !not_elem_of_cons in *. naive_solver. }
    split.
    + intros p Hp. destruct (Hloc p Hp) as [Hpx Hpl]. rewrite Hfn, lookup_delete_ne by done.
      by rewrite (to_next _ _ _ Ho1).
    + intros p Hp. destruct (Hloc p Hp) as [Hpx Hpl]. rewrite Hfl, lookup_delete_ne by done.
      by rewrite (to_last _ _ _ Ho1).
    + intros y [Hy1 Hy2]%not_elem_of_cons. rewrite Hfi, lookup_delete_ne, (to_info _ _ _ Ho1) by done. done.
    + intros y [->|Hy]%elem_of_cons; [|by apply Hfg]. rewrite Hfi by done. rewrite Hfn, !lookup_delete_eq; [done|].
      unfold locs. apply not_elem_of_cons. split; [done|]. by rewrite link_in.
Qed.

End edits.

Section registry.
Context {V : Type}.
Implicit Types (s : tq_heap V).

(** A registration: where malloc puts the structure, its information, and what
    was in its [link]. *)
Definition registration : Type := Z * V * Z * tq_loc.
Definition reg_elm (r : registration) : Z := r.1.1.1.
Definition reg_info (r : registration) : V := r.1.1.2.

Fixpoint register_all (h : Z) (rs : list registration) : CM (tq_heap V) unit :=
  match rs with
  | [] => mret tt
  | r :: rs => register_info h (reg_elm r) (reg_info r) r.1.2 r.2;; register_all h rs
  end.

Lemma wp_register_all (Q : unit → tq_heap V → Prop) h rs l vs s :
  tq_infos h l vs s → NoDup (l ++ (reg_elm <$> rs)) → NULL ∉ reg_elm <$> rs →
  (∀ s', tq_infos h (l ++ (reg_elm <$> rs)) (vs ++ (reg_info <$> rs)) s' → Q tt s') →
  wp (register_all h rs) Q (λ _ _, False) s.
Proof.
  revert l vs s. induction rs as [|r rs IH]; intros l vs s Hq Hn H0 HQ; simpl in *.
  - rewrite !app_nil_r in HQ. by apply (wp_ret tt Q), HQ.
  - assert (Hx : reg_elm r ∉ l) by elem_solve. apply not_elem_of_cons in H0 as [H0 H0'].
    apply wp_bind. eapply wp_register_info; [done|by apply not_eq_sym|done|]. intros s1 Hq1.
    apply (IH (l ++ [reg_elm r]) (vs ++ [reg_info r])); [done|by rewrite <- app_assoc|done|].
    rewrite <- !app_assoc. exact HQ.
Qed.

Lemma wp_queue_infos (Q : list (option V) → tq_heap V → Prop) h l vs s :
  tq_infos h l vs s → Q (Some <$> vs) s → wp (queue_infos h) Q (λ _ _, False) s.
Proof.
  intros [Hl Hi] HQ. unfold queue_infos, TAILQ_FOREACH. apply wp_bind, wp_bind, wp_gets, wp_bind.
  eapply wp_tq_first; [done|]. eapply (wp_tq_loop _ h _ [] l); [done| |].
  { pose proof (tq_list_fuel _ _ _ Hl). lia. }
  apply wp_bind, wp_gets, wp_ret. by rewrite Hi.
Qed.

Lemma wp_free_all_info (Q : unit → tq_heap V → Prop) h l s :
  tq_list h l s → (∀ s', tq_list h [] s' → tq_freed h l s s' → Q tt s') →
  wp (free_all_info h) Q (λ _ _, False) s.
Proof.
  intros Hl HQ. unfold free_all_info, TAILQ_FOREACH_SAFE. apply wp_bind, wp_gets, wp_bind.
  eapply wp_tq_first; [done|]. eapply wp_tq_free_loop; [done| |done].
  pose proof (tq_list_fuel _ _ _ Hl). lia.
Qed.

(** ** Properties *)

(** on a tail queue the macros are the operations of lists: insertion at
    either end or next to an element, and removal.  Each returns, without
    following a bad pointer, and touches only the queue and the element. *)
Theorem tailq_edits h l1 y l2 x s :
  tq_list h (l1 ++ y :: l2) s → spare x (l1 ++ y :: l2) s →
  (∃ s', TAILQ_INSERT_HEAD h x s = (Ret tt, s') ∧ tq_list h (x :: l1 ++ y :: l2) s' ∧
     touches (locs h (x :: l1 ++ y :: l2)) s s') ∧
  (∃ s', TAILQ_INSERT_TAIL h x s = (Ret tt, s') ∧ tq_list h ((l1 ++ y :: l2) ++ [x]) s' ∧
     touches (locs h (x :: l1 ++ y :: l2)) s s') ∧
  (∃ s', TAILQ_INSERT_BEFORE y x s = (Ret tt, s') ∧ tq_list h (l1 ++ x :: y :: l2) s' ∧
     touches (locs h (x :: l1 ++ y :: l2)) s s') ∧
  (∃ s', TAILQ_INSERT_AFTER h y x s = (Ret tt, s') ∧ tq_list h (l1 ++ y :: x :: l2) s' ∧
     touches (locs h (x :: l1 ++ y :: l2)) s s') ∧
  (∃ s', TAILQ_REMOVE h y s = (Ret tt, s') ∧ tq_list h (l1 ++ l2) s' ∧ touches (locs h (y :: l1 ++ l2)) s s').
Proof.
  intros Hl Hx. split_and!.
  - destruct (wp_returns (TAILQ_INSERT_HEAD h x) (λ _ s', tq_list h (x :: l1 ++ y :: l2) s' ∧
      touches (locs h (x :: l1 ++ y :: l2)) s s') s) as ([] & s' & ? & ?); [by eapply wp_insert_head; eauto|eauto].
  - destruct (wp_returns (TAILQ_INSERT_TAIL h x) (λ _ s', tq_list h ((l1 ++ y :: l2) ++ [x]) s' ∧
      touches (locs h (x :: l1 ++ y :: l2)) s s') s) as ([] & s' & ? & ?); [|eauto].
    eapply wp_insert_tail; [done..|]. rewrite app_nil_r. auto.
  - destruct (wp_returns (TAILQ_INSERT_BEFORE y x) (λ _ s', tq_list h (l1 ++ x :: y :: l2) s' ∧
      touches (locs h (x :: l1 ++ y :: l2)) s s') s) as ([] & s' & ? & ?); [by eapply wp_insert_before; eauto|eauto].
  - destruct (wp_returns (TAILQ_INSERT_AFTER h y x) (λ _ s', tq_list h (l1 ++ y :: x :: l2) s' ∧
      touches (locs h (x :: l1 ++ y :: l2)) s s') s) as ([] & s' & ? & ?); [by eapply wp_insert_after; eauto|eauto].
  - destruct (wp_returns (TAILQ_REMOVE h y) (λ _ s', tq_list h (l1 ++ l2) s' ∧
      touches (locs h (y :: l1 ++ l2)) s s') s) as ([] & s' & ? & ?); [by eapply wp_tq_remove; eauto|eauto].
Qed.

(** TAILQ_FOREACH and TAILQ_FOREACH_REVERSE visit the elements of a queue in
    order and in reverse, TAILQ_FIRST, TAILQ_LAST, TAILQ_NEXT and TAILQ_PREV are
    its ends and neighbours (the last two through the casts of a link to a
    head), TAILQ_CONCAT appends one queue to another and TAILQ_SWAP exchanges
    them. *)
Theorem tailq_walks h h2 l1 x l2 m s :
  two_queues h h2 (l1 ++ x :: l2) m s →
  TAILQ_FOREACH h s = (Ret (l1 ++ x :: l2), s) ∧
  TAILQ_FOREACH_REVERSE h s = (Ret (reverse (l1 ++ x :: l2)), s) ∧
  TAILQ_NEXT x s = (Ret (first l2), s) ∧ TAILQ_PREV x s = (Ret (last_of l1), s) ∧
  TAILQ_LAST h s = (Ret (last_of (x :: l2)), s) ∧
  (∃ s', TAILQ_CONCAT h h2 s = (Ret tt, s') ∧ two_queues h h2 ((l1 ++ x :: l2) ++ m) [] s') ∧
  (∃ s', TAILQ_SWAP h h2 s = (Ret tt, s') ∧ two_queues h h2 m (l1 ++ x :: l2) s').
Proof.
  intros Htq. pose proof Htq as [Hl _ _ _]. pose proof (tq_list_fuel _ _ _ Hl) as Hf.
  split_and!.
  - apply wp_returns_eq. apply wp_bind, wp_gets, wp_bind. eapply wp_tq_first; [done|].
    by eapply (wp_tq_loop _ h _ []); [done|lia|].
  - apply wp_returns_eq. apply wp_bind, wp_gets, wp_bind. eapply wp_tq_lastelm; [done|].
    by eapply (wp_tq_loop_reverse _ h _ _ []); [by rewrite app_nil_r|lia|].
  - apply wp_returns_eq. by eapply wp_tq_next.
  - apply wp_returns_eq. by eapply wp_tq_prev.
  - apply wp_returns_eq. eapply wp_tq_lastelm; [done|]. by rewrite last_of_app.
  - destruct (wp_returns (TAILQ_CONCAT h h2) (λ _ s', two_queues h h2 ((l1 ++ x :: l2) ++ m) [] s') s)
      as ([] & s' & ? & ?); [by eapply wp_concat; eauto|eauto].
  - destruct (wp_returns (TAILQ_SWAP h h2) (λ _ s', two_queues h h2 m (l1 ++ x :: l2) s') s)
      as ([] & s' & ? & ?); [by eapply wp_swap; eauto|eauto].
Qed.

(** C24: the queue of the registered hooks is the list XhCore has for it: after
    any registrations a walk finds their informations in the order of
    registration, and the loop of xh_core_clear leaves the empty queue with
    every structure freed. *)
Theorem hook_queue_is_list h (rs : list registration) s :
  tq_next s !! Head h = Some NULL → tq_last s !! Head h = Some (Head h) →
  NoDup (reg_elm <$> rs) → NULL ∉ reg_elm <$> rs →
  ∃ s1 s2, register_all h rs s = (Ret tt, s1) ∧
    queue_infos h s1 = (Ret (Some <$> (reg_info <$> rs)), s1) ∧
    free_all_info h s1 = (Ret tt, s2) ∧ queue_infos h s2 = (Ret [], s2) ∧
    ∀ r, r ∈ rs → tq_next s2 !! Link (reg_elm r) = None ∧ tq_info s2 !! reg_elm r = None.
Proof.
  intros Hn Hl Hnd H0. pose proof (tq_empty h s Hn Hl) as Hq.
  destruct (wp_returns (register_all h rs) (λ _ s', tq_infos h (reg_elm <$> rs) (reg_info <$> rs) s') s)
    as ([] & s1 & Hrun1 & Hq1).
  { by eapply (wp_register_all _ _ _ [] []); [by split|..]. }
  destruct (wp_returns (queue_infos h) (λ r s', r = Some <$> (reg_info <$> rs) ∧ s' = s1) s1) as (? & ? & Hrun2 & -> & ->).
  { by eapply wp_queue_infos. }
  destruct (wp_returns (free_all_info h) (λ _ s', tq_list h [] s' ∧ tq_freed h (reg_elm <$> rs) s1 s') s1)
    as ([] & s2 & Hrun3 & Hq2 & [_ _ _ Hgone]).
  { eapply wp_free_all_info; [apply Hq1|done]. }
  destruct (wp_returns (queue_infos h) (λ r s', r = [] ∧ s' = s2) s2) as (? & ? & Hrun4 & -> & ->).
  { by eapply (wp_queue_infos _ _ [] []). }
  exists s1, s2. split_and!; [done..|]. intros r Hr. by apply Hgone, list_elem_of_fmap_2.
Qed.

End registry.

(** ** An example: a queue of two elements, a spare one, and another queue *)

Definition demo_queue : tq_heap Z :=
  TqHeap {[ Head 100 := 1; Link 1 := 2; Link 2 := NULL; Link 3 := 9; Head 200 := NULL ]}
    {[ Head 100 := Link 2; Link 1 := Head 100; Link 2 := Link 1; Link 3 := Head 9; Head 200 := Head 200 ]}
    {[ 1 := 10; 2 := 20; 3 := 30 ]}.

Lemma demo_tq_list : tq_list 100 [1; 2] demo_queue.
Proof. split; [done..| |]; apply (bool_decide_unpack _); by vm_compute. Qed.

Lemma tailq_edits_witness :
  ∃ s', TAILQ_INSERT_AFTER 100 1 3 demo_queue = (Ret tt, s') ∧ tq_list 100 [1; 3; 2] s'.
Proof.
  destruct (tailq_edits 100 [] 1 [2] 3 demo_queue demo_tq_list) as (_ & _ & _ & (s' & H1 & H2 & _) & _).
  - split; [done|]. split; [apply (bool_decide_unpack _); reflexivity|]. split; by eexists.
  - exists s'. split; assumption.
Defined.

Lemma tailq_walks_witness :
  TAILQ_FOREACH_REVERSE 100 demo_queue = (Ret [2; 1], demo_queue) ∧
  ∃ s', TAILQ_SWAP 100 200 demo_queue = (Ret tt, s') ∧ tq_list 200 [1; 2] s'.
Proof.
  destruct (tailq_walks 100 200 [] 1 [2] [] demo_queue) as (_ & H1 & _ & _ & _ & _ & (s' & H2 & H3)).
  - split; [exact demo_tq_list|by apply tq_empty|done|intros; by apply not_elem_of_nil].
  - split; [exact H1|]. exists s'. split; [exact H2|apply H3].
Defined.

Lemma hook_queue_is_list_witness :
  ∃ s1 s2, register_all 200 [(5, 50, 7, Head 7); (6, 60, 8, Head 8)] demo_queue = (Ret tt, s1) ∧
    queue_infos 200 s1 = (Ret [Some 50; Some 60], s1) ∧ free_all_info 200 s1 = (Ret tt, s2).
Proof.
  destruct (hook_queue_is_list 200 [(5, 50, 7, Head 7); (6, 60, 8, Head 8)] demo_queue)
    as (s1 & s2 & H1 & H2 & H3 & _).
  - reflexivity.
  - reflexivity.
  - apply (bool_decide_unpack _). reflexivity.
  - apply (bool_decide_unpack _). reflexivity.
  - exists s1, s2. split_and!; assumption.
Defined.
