(* ===== verification/X86Spec.v ===== *)
(** * x86 instruction encoding specifications

    Types, flags and initialiser macros of
    src/app/src/main/cpp/dobby/source/InstructionRelocation/x86/x86_insn_decode/
    x86_insn_decode.h and the first part of x86_insn_decode.c.  The opcode
    tables built from them are in X86Tables, the decoder in X86Decode. *)

From stdpp Require Import strings.
From S2P Require Import Prelude.

#[local] Open Scope cint_scope.

(** ** Flags and enumerations (x86_insn_decode.h) *)

Definition X86_INSN_SPEC_DEFAULT_64_BIT : Z := 1 << 0.

Definition X86_INSN_DECODE_FLAG_HAS_BASE : Z := 1 << 0.
Definition X86_INSN_DECODE_FLAG_HAS_INDEX : Z := 1 << 1.
Definition X86_INSN_DECODE_FLAG_IS_ADDRESS : Z := 1 << 2.
Definition X86_INSN_DECODE_FLAG_IP_RELATIVE : Z := 1 << 3.
Definition X86_INSN_DECODE_FLAG_OPERAND_SIZE_64 : Z := 1 << 4.

Definition INSN_PREFIX_NONE : Z := 0.
Definition INSN_PREFIX_LOCK : Z := 0x01.
Definition INSN_PREFIX_REPNZ : Z := 0x02.
Definition INSN_PREFIX_REPNE : Z := INSN_PREFIX_REPNZ.
Definition INSN_PREFIX_REP : Z := 0x04.
Definition INSN_PREFIX_REPZ : Z := INSN_PREFIX_REP.
Definition INSN_PREFIX_REPE : Z := INSN_PREFIX_REPZ.
Definition INSN_PREFIX_ES : Z := 0x0008.
Definition INSN_PREFIX_CS : Z := 0x0010.
Definition INSN_PREFIX_SS : Z := 0x0020.
Definition INSN_PREFIX_DS : Z := 0x0040.
Definition INSN_PREFIX_FS : Z := 0x0080.
Definition INSN_PREFIX_GS : Z := 0x0100.
Definition INSN_PREFIX_OPERAND_SIZE : Z := 0x0200.
Definition INSN_PREFIX_ADDRESS_SIZE : Z := 0x0400.

(** [x86_insn_gp_register_t]: the hardware register numbers. *)
Definition X86_INSN_GP_REG_BX : Z := 3.
Definition X86_INSN_GP_REG_SP : Z := 4.
Definition X86_INSN_GP_REG_BP : Z := 5.
Definition X86_INSN_GP_REG_SI : Z := 6.

(** [x86_ia32e_register_t]: another numbering, which starts with [RNone]. *)
Definition RNone : Z := 0.
Definition RBP : Z := 7.
Definition R13 : Z := 14.
Definition RIP : Z := 17.

(** ** Data types *)

(** Two characters, such as "Ev": addressing method and operand type. *)
Record x86_insn_operand_spec_t : Set := OperandSpec { code : Z; type : Z }.

Record x86_insn_spec_t : Set := InsnSpec {
  name : string;
  operands : list x86_insn_operand_spec_t;   (* always three *)
  flags : Z                                  (* uint16_t *)
}.

(** Bit fields of the ModR/M and SIB bytes. *)
Definition modrm_rm (byte : Z) : Z := byte & 7.
Definition modrm_reg (byte : Z) : Z := (byte >> 3) & 7.
Definition modrm_mode (byte : Z) : Z := (byte >> 6) & 3.
Definition sib_base (byte : Z) : Z := byte & 7.
Definition sib_index (byte : Z) : Z := (byte >> 3) & 7.
Definition sib_log2_scale (byte : Z) : Z := (byte >> 6) & 3.

Record x86_insn_mem_t : Set := Mem { base : Z; index : Z; scale : Z; disp : Z }.
Record x86_insn_operand_t : Set := Operand { op_reg : Z; mem : x86_insn_mem_t }.

Record x86_insn_decode_t : Set := InsnDecode {
  insn_flags : Z;
  insn_length : Z;
  displacement_offset : Z;
  immediate_offset : Z;
  insn_operands : list x86_insn_operand_t;
  insn_prefix : Z;
  insn_rex : Z;
  primary_opcode : Z;
  insn_modrm : Z;
  insn_sib : Z;
  immediate : Z;
  insn_spec : x86_insn_spec_t
}.

(** [memset(&insn, 0, sizeof(insn))], what every caller of the decoder does. *)
Definition zero_spec : x86_insn_spec_t :=
  InsnSpec "" (replicate 3 (OperandSpec 0 0)) 0.
Definition zero_operand : x86_insn_operand_t := Operand 0 (Mem 0 0 0 0).
Definition zero_insn : x86_insn_decode_t :=
  InsnDecode 0 0 0 0 (replicate 3 zero_operand) 0 0 0 0 0 0 zero_spec.

(** ** Field macros (x86_insn_decode.c) *)

Definition REX_W (byte : Z) : Z := (byte & 8) >> 3.
Definition REX_R (byte : Z) : Z := (byte & 4) >> 2.
Definition REX_X (byte : Z) : Z := (byte & 2) >> 1.
Definition REX_B (byte : Z) : Z := (byte & 1) >> 0.

(** ** Table entry macros: the stringised operands are the two characters. *)

Definition char_at (n : nat) (s : string) : Z :=
  match String.get n s with
  | Some c => Z.of_N (Ascii.N_of_ascii c)
  | None => 0
  end.
Definition operand_spec (s : string) : x86_insn_operand_spec_t :=
  OperandSpec (char_at 0 s) (char_at 1 s).

Definition op3_flag (x : string) (f : Z) (o0 o1 o2 : string) : x86_insn_spec_t :=
  InsnSpec x [operand_spec o0; operand_spec o1; operand_spec o2] f.
Definition op2_flag (x : string) (f : Z) (o0 o1 : string) := op3_flag x f o0 o1 "__".
Definition op1_flag (x : string) (f : Z) (o0 : string) := op2_flag x f o0 "__".
Definition op0_flag (x : string) (f : Z) := op1_flag x f "__".

Definition op3f := op3_flag.
Definition op2f := op2_flag.
Definition op1f := op1_flag.
Definition op0f := op0_flag.

Definition op3 (x o0 o1 o2 : string) := op3f x 0 o0 o1 o2.
Definition op2 (x o0 o1 : string) := op2f x 0 o0 o1.
Definition op1 (x o0 : string) := op1f x 0 o0.
Definition op0 (x : string) := op0f x 0.

Definition foreach_x86_operand_combine (x : string) : list x86_insn_spec_t :=
  [op2 x "Eb" "Gb"; op2 x "Ev" "Gv"; op2 x "Gb" "Eb"; op2 x "Gv" "Ev";
   op2 x "AL" "Ib"; op2 x "AX" "Iz"].
Definition foreach_x86_gp_reg : list string :=
  ["AX"; "CX"; "DX"; "BX"; "SP"; "BP"; "SI"; "DI"]%string.
Definition foreach_x86_condition : list string :=
  ["o"; "no"; "b"; "nb"; "z"; "nz"; "be"; "nbe"; "s"; "ns"; "p"; "np"; "l";
   "nl"; "le"; "nle"]%string.

(** ** Opcode groups, encoded in the flags of a specification *)

Definition X86_INSN_GROUP_START : Z := 0.
Definition X86_INSN_SSE_GROUP_START : Z := 19.
Definition X86_INSN_GROUP_END : Z := 35.
Definition X86_INSN_GROUP_END_MASK : Z := (1 << 6) - 1.
Definition X86_INSN_FLAG_SET_GROUP (n : Z) : Z := n << 5.
Definition X86_INSN_FLAG_GET_GROUP (f : Z) : Z := (f >> 5) & X86_INSN_GROUP_END_MASK.

Definition X86_INSN_FLAG_MODRM_REG_GROUP_1 : Z := X86_INSN_FLAG_SET_GROUP 1.
Definition X86_INSN_FLAG_MODRM_REG_GROUP_1a : Z := X86_INSN_FLAG_SET_GROUP 2.
Definition X86_INSN_FLAG_MODRM_REG_GROUP_2 : Z := X86_INSN_FLAG_SET_GROUP 3.
Definition X86_INSN_FLAG_MODRM_REG_GROUP_3 : Z := X86_INSN_FLAG_SET_GROUP 4.
Definition X86_INSN_FLAG_MODRM_REG_GROUP_4 : Z := X86_INSN_FLAG_SET_GROUP 5.
Definition X86_INSN_FLAG_MODRM_REG_GROUP_5 : Z := X86_INSN_FLAG_SET_GROUP 6.
Definition X86_INSN_FLAG_MODRM_REG_GROUP_6 : Z := X86_INSN_FLAG_SET_GROUP 7.
Definition X86_INSN_FLAG_MODRM_REG_GROUP_7 : Z := X86_INSN_FLAG_SET_GROUP 8.
Definition X86_INSN_FLAG_MODRM_REG_GROUP_8 : Z := X86_INSN_FLAG_SET_GROUP 9.
Definition X86_INSN_FLAG_MODRM_REG_GROUP_9 : Z := X86_INSN_FLAG_SET_GROUP 10.
Definition X86_INSN_FLAG_MODRM_REG_GROUP_10 : Z := X86_INSN_FLAG_SET_GROUP 11.
Definition X86_INSN_FLAG_MODRM_REG_GROUP_11 : Z := X86_INSN_FLAG_SET_GROUP 12.
Definition X86_INSN_FLAG_MODRM_REG_GROUP_12 : Z := X86_INSN_FLAG_SET_GROUP 13.
Definition X86_INSN_FLAG_MODRM_REG_GROUP_13 : Z := X86_INSN_FLAG_SET_GROUP 14.
Definition X86_INSN_FLAG_MODRM_REG_GROUP_14 : Z := X86_INSN_FLAG_SET_GROUP 15.
Definition X86_INSN_FLAG_MODRM_REG_GROUP_15 : Z := X86_INSN_FLAG_SET_GROUP 16.
Definition X86_INSN_FLAG_MODRM_REG_GROUP_16 : Z := X86_INSN_FLAG_SET_GROUP 17.
Definition X86_INSN_FLAG_MODRM_REG_GROUP_p : Z := X86_INSN_FLAG_SET_GROUP 18.
Definition X86_INSN_FLAG_SSE_GROUP_10 : Z := X86_INSN_FLAG_SET_GROUP 20.
Definition X86_INSN_FLAG_SSE_GROUP_28 : Z := X86_INSN_FLAG_SET_GROUP 21.
Definition X86_INSN_FLAG_SSE_GROUP_50 : Z := X86_INSN_FLAG_SET_GROUP 22.
Definition X86_INSN_FLAG_SSE_GROUP_58 : Z := X86_INSN_FLAG_SET_GROUP 23.
Definition X86_INSN_FLAG_SSE_GROUP_60 : Z := X86_INSN_FLAG_SET_GROUP 24.
Definition X86_INSN_FLAG_SSE_GROUP_68 : Z := X86_INSN_FLAG_SET_GROUP 25.
Definition X86_INSN_FLAG_SSE_GROUP_70 : Z := X86_INSN_FLAG_SET_GROUP 26.
Definition X86_INSN_FLAG_SSE_GROUP_78 : Z := X86_INSN_FLAG_SET_GROUP 27.
Definition X86_INSN_FLAG_SSE_GROUP_c0 : Z := X86_INSN_FLAG_SET_GROUP 28.
Definition X86_INSN_FLAG_SSE_GROUP_d0 : Z := X86_INSN_FLAG_SET_GROUP 29.
Definition X86_INSN_FLAG_SSE_GROUP_d8 : Z := X86_INSN_FLAG_SET_GROUP 30.
Definition X86_INSN_FLAG_SSE_GROUP_e0 : Z := X86_INSN_FLAG_SET_GROUP 31.
Definition X86_INSN_FLAG_SSE_GROUP_e8 : Z := X86_INSN_FLAG_SET_GROUP 32.
Definition X86_INSN_FLAG_SSE_GROUP_f0 : Z := X86_INSN_FLAG_SET_GROUP 33.
Definition X86_INSN_FLAG_SSE_GROUP_f8 : Z := X86_INSN_FLAG_SET_GROUP 34.
