(* ===== verification/X86Tables.v ===== *)
(** * The opcode tables

    The rows of x86_opcode_one_byte.c and x86_opcode_two_byte.c and the groups
    of x86_opcode_modrm_reg_group.c, entry by entry.  The SSE group tables of
    x86_opcode_sse_group.c are not here: the decoder stops at an SSE group
    before it would read them. *)

From stdpp Require Import strings.
From S2P Require Import Prelude X86Spec.

#[local] Open Scope string_scope.

Definition one_byte_00 : list x86_insn_spec_t :=
  foreach_x86_operand_combine "add" ++
  [ op0 "push_es";
    op0f "pop_es" X86_INSN_SPEC_DEFAULT_64_BIT ] ++
  foreach_x86_operand_combine "or" ++
  [ op0f "push_cs" X86_INSN_SPEC_DEFAULT_64_BIT;
    op0 "escape_two_byte" ].

Definition one_byte_10 : list x86_insn_spec_t :=
  foreach_x86_operand_combine "adc" ++
  [ op0 "push_ss";
    op0 "pop_ss" ] ++
  foreach_x86_operand_combine "sbb" ++
  [ op0 "push_ds";
    op0 "pop_ds" ].

Definition one_byte_20 : list x86_insn_spec_t :=
  foreach_x86_operand_combine "and" ++
  [ op0 "segment_es";
    op0 "daa" ] ++
  foreach_x86_operand_combine "sub" ++
  [ op0 "segment_cs";
    op0 "das" ].

Definition one_byte_30 : list x86_insn_spec_t :=
  foreach_x86_operand_combine "xor" ++
  [ op0 "segment_ss";
    op0 "aaa" ] ++
  foreach_x86_operand_combine "cmp" ++
  [ op0 "segment_ds";
    op0 "aas" ].

Definition one_byte_40 : list x86_insn_spec_t :=
  map (λ r, op1 "inc" r) foreach_x86_gp_reg ++
  map (λ r, op1 "dec" r) foreach_x86_gp_reg.

Definition one_byte_50 : list x86_insn_spec_t :=
  map (λ r, op1f "push" X86_INSN_SPEC_DEFAULT_64_BIT r) foreach_x86_gp_reg ++
  map (λ r, op1f "pop" X86_INSN_SPEC_DEFAULT_64_BIT r) foreach_x86_gp_reg.

Definition one_byte_60 : list x86_insn_spec_t :=
  [ op0 "pusha";
    op0 "popa";
    op2 "bound" "Gv" "Ma";
    op2 "movsxd" "Gv" "Ed";
    op0 "segment_fs";
    op0 "segment_gs";
    op0 "operand_type";
    op0 "address_size";
    op1f "push" X86_INSN_SPEC_DEFAULT_64_BIT "Iz";
    op3 "imul" "Gv" "Ev" "Iz";
    op1f "push" X86_INSN_SPEC_DEFAULT_64_BIT "Ib";
    op3 "imul" "Gv" "Ev" "Ib";
    op1 "insb" "DX";
    op1 "insw" "DX";
    op1 "outsb" "DX";
    op1 "outsw" "DX" ].

Definition one_byte_70 : list x86_insn_spec_t :=
  map (λ x, op1 ("j" +:+ x) "Jb") foreach_x86_condition.

Definition one_byte_80 : list x86_insn_spec_t :=
  [ op2f "modrm_group_1" X86_INSN_FLAG_MODRM_REG_GROUP_1 "Eb" "Ib";
    op2f "modrm_group_1" X86_INSN_FLAG_MODRM_REG_GROUP_1 "Ev" "Iz";
    op2f "modrm_group_1" X86_INSN_FLAG_MODRM_REG_GROUP_1 "Eb" "Ib";
    op2f "modrm_group_1" X86_INSN_FLAG_MODRM_REG_GROUP_1 "Ev" "Ib";
    op2 "test" "Eb" "Gb";
    op2 "test" "Ev" "Gv";
    op2 "xchg" "Eb" "Gb";
    op2 "xchg" "Ev" "Gv";
    op2 "mov" "Eb" "Gb";
    op2 "mov" "Ev" "Gv";
    op2 "mov" "Gb" "Eb";
    op2 "mov" "Gv" "Ev";
    op2 "mov" "Ev" "Sw";
    op2 "lea" "Gv" "Ev";
    op2 "mov" "Sw" "Ew";
    op1f "modrm_group_1a" X86_INSN_FLAG_MODRM_REG_GROUP_1a "Ev" ].

Definition one_byte_90 : list x86_insn_spec_t :=
  [ op0 "nop";
    op1 "xchg" "CX";
    op1 "xchg" "DX";
    op1 "xchg" "BX";
    op1 "xchg" "SP";
    op1 "xchg" "BP";
    op1 "xchg" "SI";
    op1 "xchg" "DI";
    op0 "cbw";
    op0 "cwd";
    op1 "call" "Ap";
    op0 "wait";
    op0 "pushf";
    op0 "popf";
    op0 "sahf";
    op0 "lahf" ].

Definition one_byte_a0 : list x86_insn_spec_t :=
  [ op2 "mov" "AL" "Ob";
    op2 "mov" "AX" "Ov";
    op2 "mov" "Ob" "AL";
    op2 "mov" "Ov" "AX";
    op0 "movsb";
    op0 "movsw";
    op0 "cmpsb";
    op0 "cmpsw";
    op2 "test" "AL" "Ib";
    op2 "test" "AX" "Iz";
    op1 "stosb" "AL";
    op1 "stosw" "AX";
    op1 "lodsb" "AL";
    op1 "lodsw" "AX";
    op1 "scasb" "AL";
    op1 "scasw" "AX" ].

Definition one_byte_b0 : list x86_insn_spec_t :=
  [ op2 "mov" "AL" "Ib";
    op2 "mov" "CL" "Ib";
    op2 "mov" "DL" "Ib";
    op2 "mov" "BL" "Ib";
    op2 "mov" "AH" "Ib";
    op2 "mov" "CH" "Ib";
    op2 "mov" "DH" "Ib";
    op2 "mov" "BH" "Ib" ] ++
  map (λ r, op2 "mov" r "Iv") foreach_x86_gp_reg.

Definition one_byte_c0 : list x86_insn_spec_t :=
  [ op2f "modrm_group_2" X86_INSN_FLAG_MODRM_REG_GROUP_2 "Eb" "Ib";
    op2f "modrm_group_2" X86_INSN_FLAG_MODRM_REG_GROUP_2 "Ev" "Ib";
    op1 "ret" "Iw";
    op0 "ret";
    op2 "les" "Gz" "Mp";
    op2 "lds" "Gz" "Mp";
    op2f "modrm_group_11" X86_INSN_FLAG_MODRM_REG_GROUP_11 "Eb" "Ib";
    op2f "modrm_group_11" X86_INSN_FLAG_MODRM_REG_GROUP_11 "Ev" "Iz";
    op2 "enter" "Iw" "Ib";
    op0 "leave";
    op1 "ret" "Iw";
    op0 "ret";
    op0 "int3";
    op1 "int" "Ib";
    op0 "into";
    op0 "iret" ].

Definition one_byte_d0 : list x86_insn_spec_t :=
  [ op2f "modrm_group_2" X86_INSN_FLAG_MODRM_REG_GROUP_2 "Eb" "1b";
    op2f "modrm_group_2" X86_INSN_FLAG_MODRM_REG_GROUP_2 "Ev" "1b";
    op2f "modrm_group_2" X86_INSN_FLAG_MODRM_REG_GROUP_2 "Eb" "CL";
    op2f "modrm_group_2" X86_INSN_FLAG_MODRM_REG_GROUP_2 "Ev" "CL";
    op0 "aam";
    op0 "aad";
    op0 "salc";
    op0 "xlat";
    op0 "bad";
    op0 "bad";
    op0 "bad";
    op0 "bad";
    op0 "bad";
    op0 "bad";
    op0 "bad";
    op0 "bad" ].

Definition one_byte_e0 : list x86_insn_spec_t :=
  [ op1 "loopnz" "Jb";
    op1 "loopz" "Jb";
    op1 "loop" "Jb";
    op1 "jcxz" "Jb";
    op2 "in" "AL" "Ib";
    op2 "in" "AX" "Ib";
    op2 "out" "Ib" "AL";
    op2 "out" "Ib" "AX";
    op1f "call" X86_INSN_SPEC_DEFAULT_64_BIT "Jz";
    op1f "jmp" X86_INSN_SPEC_DEFAULT_64_BIT "Jz";
    op1 "jmp" "Ap";
    op1 "jmp" "Jb";
    op2 "in" "AL" "DX";
    op2 "in" "AX" "DX";
    op2 "out" "DX" "AL";
    op2 "out" "DX" "AX" ].

Definition one_byte_f0 : list x86_insn_spec_t :=
  [ op0 "lock";
    op0 "int1";
    op0 "repne";
    op0 "rep";
    op0 "hlt";
    op0 "cmc";
    op0f "modrm_group_3" X86_INSN_FLAG_MODRM_REG_GROUP_3;
    op0f "modrm_group_3" X86_INSN_FLAG_MODRM_REG_GROUP_3;
    op0 "clc";
    op0 "stc";
    op0 "cli";
    op0 "sti";
    op0 "cld";
    op0 "std";
    op1f "modrm_group_4" X86_INSN_FLAG_MODRM_REG_GROUP_4 "Eb";
    op0f "modrm_group_5" X86_INSN_FLAG_MODRM_REG_GROUP_5 ].

Definition x86_opcode_map_one_byte : list x86_insn_spec_t :=
  one_byte_00 ++ one_byte_10 ++ one_byte_20 ++ one_byte_30 ++ one_byte_40 ++ one_byte_50 ++ one_byte_60 ++ one_byte_70 ++ one_byte_80 ++ one_byte_90 ++ one_byte_a0 ++ one_byte_b0 ++ one_byte_c0 ++ one_byte_d0 ++ one_byte_e0 ++ one_byte_f0.

Definition two_byte_00 : list x86_insn_spec_t :=
  [ op0f "modrm_group_6" X86_INSN_FLAG_MODRM_REG_GROUP_6;
    op0f "modrm_group_7" X86_INSN_FLAG_MODRM_REG_GROUP_7;
    op2 "lar" "Gv" "Ew";
    op2 "lsl" "Gv" "Ew";
    op0 "bad";
    op0 "syscall";
    op0 "clts";
    op0 "sysret";
    op0 "invd";
    op0 "wbinvd";
    op0 "bad";
    op0 "ud2";
    op0 "bad";
    op0f "modrm_group_p" X86_INSN_FLAG_MODRM_REG_GROUP_p;
    op0 "femms";
    op0 "escape_3dnow" ].

Definition two_byte_10 : list x86_insn_spec_t :=
  [ op2f "movups" X86_INSN_FLAG_SSE_GROUP_10 "Gx" "Ex";
    op2f "movups" X86_INSN_FLAG_SSE_GROUP_10 "Ex" "Gx";
    op2f "movlps" X86_INSN_FLAG_SSE_GROUP_10 "Ex" "Gx";
    op2f "movlps" X86_INSN_FLAG_SSE_GROUP_10 "Gx" "Ex";
    op2f "unpcklps" X86_INSN_FLAG_SSE_GROUP_10 "Gx" "Ex";
    op2f "unpckhps" X86_INSN_FLAG_SSE_GROUP_10 "Gx" "Ex";
    op2f "movhps" X86_INSN_FLAG_SSE_GROUP_10 "Ex" "Gx";
    op2f "movhps" X86_INSN_FLAG_SSE_GROUP_10 "Gx" "Ex";
    op0f "modrm_group_16" X86_INSN_FLAG_MODRM_REG_GROUP_16;
    op0 "nop";
    op0 "nop";
    op0 "nop";
    op0 "nop";
    op0 "nop";
    op0 "nop";
    op0 "nop" ].

Definition two_byte_20 : list x86_insn_spec_t :=
  [ op2 "mov" "Rv" "Cv";
    op2 "mov" "Rv" "Dv";
    op2 "mov" "Cv" "Rv";
    op2 "mov" "Dv" "Rv";
    op0 "bad";
    op0 "bad";
    op0 "bad";
    op0 "bad";
    op2f "movaps" X86_INSN_FLAG_SSE_GROUP_28 "Gx" "Ex";
    op2f "movaps" X86_INSN_FLAG_SSE_GROUP_28 "Ex" "Gx";
    op2f "cvtpi2ps" X86_INSN_FLAG_SSE_GROUP_28 "Gx" "Ex";
    op2f "movntps" X86_INSN_FLAG_SSE_GROUP_28 "Mx" "Gx";
    op2f "cvttps2pi" X86_INSN_FLAG_SSE_GROUP_28 "Gx" "Ex";
    op2f "cvtps2pi" X86_INSN_FLAG_SSE_GROUP_28 "Gx" "Ex";
    op2f "ucomiss" X86_INSN_FLAG_SSE_GROUP_28 "Gx" "Ex";
    op2f "comiss" X86_INSN_FLAG_SSE_GROUP_28 "Gx" "Ex" ].

Definition two_byte_30 : list x86_insn_spec_t :=
  [ op0 "wrmsr";
    op0 "rdtsc";
    op0 "rdmsr";
    op0 "rdpmc";
    op0 "sysenter";
    op0 "sysexit";
    op0 "bad";
    op0 "bad";
    op0 "bad";
    op0 "bad";
    op0 "bad";
    op0 "bad";
    op0 "bad";
    op0 "bad";
    op0 "bad";
    op0 "bad" ].

Definition two_byte_40 : list x86_insn_spec_t :=
  map (λ x, op2 ("cmov" +:+ x) "Gv" "Ev") foreach_x86_condition.

Definition two_byte_50 : list x86_insn_spec_t :=
  [ op2f "movmskps" X86_INSN_FLAG_SSE_GROUP_50 "Gd" "Rx";
    op2f "sqrtps" X86_INSN_FLAG_SSE_GROUP_50 "Gx" "Ex";
    op2f "rsqrtps" X86_INSN_FLAG_SSE_GROUP_50 "Gx" "Ex";
    op2f "rcpps" X86_INSN_FLAG_SSE_GROUP_50 "Gx" "Ex";
    op2f "andps" X86_INSN_FLAG_SSE_GROUP_50 "Gx" "Ex";
    op2f "andnps" X86_INSN_FLAG_SSE_GROUP_50 "Gx" "Ex";
    op2f "orps" X86_INSN_FLAG_SSE_GROUP_50 "Gx" "Ex";
    op2f "xorps" X86_INSN_FLAG_SSE_GROUP_50 "Gx" "Ex";
    op2f "addps" X86_INSN_FLAG_SSE_GROUP_58 "Gx" "Ex";
    op2f "mulps" X86_INSN_FLAG_SSE_GROUP_58 "Gx" "Ex";
    op2f "cvtps2pd" X86_INSN_FLAG_SSE_GROUP_58 "Gx" "Ex";
    op2f "cvtdq2ps" X86_INSN_FLAG_SSE_GROUP_58 "Gx" "Ex";
    op2f "subps" X86_INSN_FLAG_SSE_GROUP_58 "Gx" "Ex";
    op2f "minps" X86_INSN_FLAG_SSE_GROUP_58 "Gx" "Ex";
    op2f "divps" X86_INSN_FLAG_SSE_GROUP_58 "Gx" "Ex";
    op2f "maxps" X86_INSN_FLAG_SSE_GROUP_58 "Gx" "Ex" ].

Definition two_byte_60 : list x86_insn_spec_t :=
  [ op2f "punpcklbw" X86_INSN_FLAG_SSE_GROUP_60 "Gm" "Em";
    op2f "punpcklwd" X86_INSN_FLAG_SSE_GROUP_60 "Gm" "Em";
    op2f "punpckldq" X86_INSN_FLAG_SSE_GROUP_60 "Gm" "Em";
    op2f "packsswb" X86_INSN_FLAG_SSE_GROUP_60 "Gm" "Em";
    op2f "pcmpgtb" X86_INSN_FLAG_SSE_GROUP_60 "Gm" "Em";
    op2f "pcmpgtw" X86_INSN_FLAG_SSE_GROUP_60 "Gm" "Em";
    op2f "pcmpgtd" X86_INSN_FLAG_SSE_GROUP_60 "Gm" "Em";
    op2f "packuswb" X86_INSN_FLAG_SSE_GROUP_60 "Gm" "Em";
    op2f "punpckhbw" X86_INSN_FLAG_SSE_GROUP_68 "Gm" "Em";
    op2f "punpckhwd" X86_INSN_FLAG_SSE_GROUP_68 "Gm" "Em";
    op2f "punpckhdq" X86_INSN_FLAG_SSE_GROUP_68 "Gm" "Em";
    op2f "packssdw" X86_INSN_FLAG_SSE_GROUP_68 "Gm" "Em";
    op0f "bad" X86_INSN_FLAG_SSE_GROUP_68;
    op0f "bad" X86_INSN_FLAG_SSE_GROUP_68;
    op2f "movd" X86_INSN_FLAG_SSE_GROUP_68 "Gm" "Em";
    op2f "movq" X86_INSN_FLAG_SSE_GROUP_68 "Gm" "Em" ].

Definition two_byte_70 : list x86_insn_spec_t :=
  [ op3f "pshufw" X86_INSN_FLAG_SSE_GROUP_70 "Gm" "Em" "Ib";
    op0f "modrm_group_12" X86_INSN_FLAG_MODRM_REG_GROUP_12;
    op0f "modrm_group_13" X86_INSN_FLAG_MODRM_REG_GROUP_13;
    op0f "modrm_group_14" X86_INSN_FLAG_MODRM_REG_GROUP_14;
    op2f "pcmpeqb" X86_INSN_FLAG_SSE_GROUP_70 "Gm" "Em";
    op2f "pcmpeqw" X86_INSN_FLAG_SSE_GROUP_70 "Gm" "Em";
    op2f "pcmpeqd" X86_INSN_FLAG_SSE_GROUP_70 "Gm" "Em";
    op0f "emms" X86_INSN_FLAG_SSE_GROUP_70;
    op0f "bad" X86_INSN_FLAG_SSE_GROUP_78;
    op0f "bad" X86_INSN_FLAG_SSE_GROUP_78;
    op0f "bad" X86_INSN_FLAG_SSE_GROUP_78;
    op0f "bad" X86_INSN_FLAG_SSE_GROUP_78;
    op0f "bad" X86_INSN_FLAG_SSE_GROUP_78;
    op0f "bad" X86_INSN_FLAG_SSE_GROUP_78;
    op2f "movd" X86_INSN_FLAG_SSE_GROUP_78 "Em" "Gm";
    op2f "movq" X86_INSN_FLAG_SSE_GROUP_78 "Em" "Gm" ].

Definition two_byte_80 : list x86_insn_spec_t :=
  map (λ x, op1 ("jmp" +:+ x) "Jz") foreach_x86_condition.

Definition two_byte_90 : list x86_insn_spec_t :=
  map (λ x, op1 ("set" +:+ x) "Eb") foreach_x86_condition.

Definition two_byte_a0 : list x86_insn_spec_t :=
  [ op0 "push_fs";
    op0 "pop_fs";
    op0 "cpuid";
    op2 "bt" "Ev" "Gv";
    op3 "shld" "Ev" "Gv" "Ib";
    op3 "shld" "Ev" "Gv" "CL";
    op0 "bad";
    op0 "bad";
    op0 "push_gs";
    op0 "pop_gs";
    op0 "rsm";
    op2 "bts" "Ev" "Gv";
    op3 "shrd" "Ev" "Gv" "Ib";
    op3 "shrd" "Ev" "Gv" "CL";
    op0f "modrm_group_15" X86_INSN_FLAG_MODRM_REG_GROUP_15;
    op2 "imul" "Gv" "Ev" ].

Definition two_byte_b0 : list x86_insn_spec_t :=
  [ op2 "cmpxchg" "Eb" "Gb";
    op2 "cmpxchg" "Ev" "Gv";
    op2 "lss" "Gz" "Mp";
    op2 "btr" "Ev" "Gv";
    op2 "lfs" "Gz" "Mp";
    op2 "lgs" "Gz" "Mp";
    op2 "movzbl" "Gv" "Eb";
    op2 "movzwl" "Gv" "Ew";
    op0 "bad";
    op0f "modrm_group_10" X86_INSN_FLAG_MODRM_REG_GROUP_10;
    op2f "modrm_group_8" X86_INSN_FLAG_MODRM_REG_GROUP_8 "Ev" "Ib";
    op2 "btc" "Ev" "Gv";
    op2 "bsf" "Gv" "Ev";
    op2 "bsr" "Gv" "Ev";
    op2 "movsx" "Gv" "Eb";
    op2 "movsx" "Gv" "Ew" ].

Definition two_byte_c0 : list x86_insn_spec_t :=
  [ op2 "xadd" "Eb" "Gb";
    op2 "xadd" "Ev" "Gv";
    op3f "cmpps" X86_INSN_FLAG_SSE_GROUP_c0 "Gx" "Ex" "Ib";
    op2 "movnti" "Mv" "Gv";
    op3f "pinsrw" X86_INSN_FLAG_SSE_GROUP_c0 "Gm" "Ew" "Ib";
    op3f "pextrw" X86_INSN_FLAG_SSE_GROUP_c0 "Gd" "Rm" "Ib";
    op3f "shufps" X86_INSN_FLAG_SSE_GROUP_c0 "Gx" "Ex" "Ib";
    op1f "modrm_group_9" X86_INSN_FLAG_MODRM_REG_GROUP_9 "Mx" ] ++
  map (λ r, op1 "bswap" r) foreach_x86_gp_reg.

Definition two_byte_d0 : list x86_insn_spec_t :=
  [ op0f "bad" X86_INSN_FLAG_SSE_GROUP_d0;
    op2f "psrlw" X86_INSN_FLAG_SSE_GROUP_d0 "Gm" "Em";
    op2f "psrld" X86_INSN_FLAG_SSE_GROUP_d0 "Gm" "Em";
    op2f "psrlq" X86_INSN_FLAG_SSE_GROUP_d0 "Gm" "Em";
    op2f "paddq" X86_INSN_FLAG_SSE_GROUP_d0 "Gm" "Em";
    op2f "pmullw" X86_INSN_FLAG_SSE_GROUP_d0 "Gm" "Em";
    op0f "bad" X86_INSN_FLAG_SSE_GROUP_d0;
    op2f "pmovmskb" X86_INSN_FLAG_SSE_GROUP_d0 "Gd" "Rm";
    op2f "psubusb" X86_INSN_FLAG_SSE_GROUP_d8 "Gm" "Em";
    op2f "psubusw" X86_INSN_FLAG_SSE_GROUP_d8 "Gm" "Em";
    op2f "pminub" X86_INSN_FLAG_SSE_GROUP_d8 "Gm" "Em";
    op2f "pand" X86_INSN_FLAG_SSE_GROUP_d8 "Gm" "Em";
    op2f "paddusb" X86_INSN_FLAG_SSE_GROUP_d8 "Gm" "Em";
    op2f "paddusw" X86_INSN_FLAG_SSE_GROUP_d8 "Gm" "Em";
    op2f "pmaxub" X86_INSN_FLAG_SSE_GROUP_d8 "Gm" "Em";
    op2f "pandn" X86_INSN_FLAG_SSE_GROUP_d8 "Gm" "Em" ].

Definition two_byte_e0 : list x86_insn_spec_t :=
  [ op2f "pavgb" X86_INSN_FLAG_SSE_GROUP_e0 "Gm" "Em";
    op2f "psraw" X86_INSN_FLAG_SSE_GROUP_e0 "Gm" "Em";
    op2f "psrad" X86_INSN_FLAG_SSE_GROUP_e0 "Gm" "Em";
    op2f "pavgw" X86_INSN_FLAG_SSE_GROUP_e0 "Gm" "Em";
    op2f "pmulhuw" X86_INSN_FLAG_SSE_GROUP_e0 "Gm" "Em";
    op2f "pmulhw" X86_INSN_FLAG_SSE_GROUP_e0 "Gm" "Em";
    op2f "bad" X86_INSN_FLAG_SSE_GROUP_e0 "Gm" "Em";
    op2f "movntq" X86_INSN_FLAG_SSE_GROUP_e0 "Mm" "Gm";
    op2f "psubsb" X86_INSN_FLAG_SSE_GROUP_e8 "Gm" "Em";
    op2f "psubsw" X86_INSN_FLAG_SSE_GROUP_e8 "Gm" "Em";
    op2f "pminsw" X86_INSN_FLAG_SSE_GROUP_e8 "Gm" "Em";
    op2f "por" X86_INSN_FLAG_SSE_GROUP_e8 "Gm" "Em";
    op2f "paddsb" X86_INSN_FLAG_SSE_GROUP_e8 "Gm" "Em";
    op2f "paddsw" X86_INSN_FLAG_SSE_GROUP_e8 "Gm" "Em";
    op2f "pmaxsw" X86_INSN_FLAG_SSE_GROUP_e8 "Gm" "Em";
    op2f "pxor" X86_INSN_FLAG_SSE_GROUP_e8 "Gm" "Em" ].

Definition two_byte_f0 : list x86_insn_spec_t :=
  [ op0f "bad" X86_INSN_FLAG_SSE_GROUP_f0;
    op2f "psllw" X86_INSN_FLAG_SSE_GROUP_f0 "Gm" "Em";
    op2f "pslld" X86_INSN_FLAG_SSE_GROUP_f0 "Gm" "Em";
    op2f "psllq" X86_INSN_FLAG_SSE_GROUP_f0 "Gm" "Em";
    op2f "pmuludq" X86_INSN_FLAG_SSE_GROUP_f0 "Gm" "Em";
    op2f "pmaddwd" X86_INSN_FLAG_SSE_GROUP_f0 "Gm" "Em";
    op2f "psadbw" X86_INSN_FLAG_SSE_GROUP_f0 "Gm" "Em";
    op2f "maskmovq" X86_INSN_FLAG_SSE_GROUP_f0 "Gm" "Em";
    op2f "psubb" X86_INSN_FLAG_SSE_GROUP_f8 "Gm" "Em";
    op2f "psubw" X86_INSN_FLAG_SSE_GROUP_f8 "Gm" "Em";
    op2f "psubd" X86_INSN_FLAG_SSE_GROUP_f8 "Gm" "Em";
    op2f "psubq" X86_INSN_FLAG_SSE_GROUP_f8 "Gm" "Em";
    op2f "paddb" X86_INSN_FLAG_SSE_GROUP_f8 "Gm" "Em";
    op2f "paddw" X86_INSN_FLAG_SSE_GROUP_f8 "Gm" "Em";
    op2f "paddd" X86_INSN_FLAG_SSE_GROUP_f8 "Gm" "Em";
    op0f "bad" X86_INSN_FLAG_SSE_GROUP_f8 ].

Definition x86_opcode_map_two_byte : list x86_insn_spec_t :=
  two_byte_00 ++ two_byte_10 ++ two_byte_20 ++ two_byte_30 ++ two_byte_40 ++ two_byte_50 ++ two_byte_60 ++ two_byte_70 ++ two_byte_80 ++ two_byte_90 ++ two_byte_a0 ++ two_byte_b0 ++ two_byte_c0 ++ two_byte_d0 ++ two_byte_e0 ++ two_byte_f0.

Definition modrm_reg_group_1 : list x86_insn_spec_t :=
  [ op0 "add";
    op0 "or";
    op0 "adc";
    op0 "sbb";
    op0 "and";
    op0 "sub";
    op0 "xor";
    op0 "cmp" ].

Definition modrm_reg_group_1a : list x86_insn_spec_t :=
  [ op0f "pop" X86_INSN_SPEC_DEFAULT_64_BIT;
    op0 "bad";
    op0 "bad";
    op0 "bad";
    op0 "bad";
    op0 "bad";
    op0 "bad";
    op0 "bad" ].

Definition modrm_reg_group_2 : list x86_insn_spec_t :=
  [ op0 "rol";
    op0 "ror";
    op0 "rcl";
    op0 "rcr";
    op0 "shl";
    op0 "shr";
    op0 "sal";
    op0 "sar" ].

Definition modrm_reg_group_3 : list x86_insn_spec_t :=
  [ op0 "test";
    op0 "test";
    op0 "not";
    op0 "neg";
    op0 "mul";
    op0 "imul";
    op0 "div";
    op0 "idiv" ].

Definition modrm_reg_group_4 : list x86_insn_spec_t :=
  [ op0 "inc";
    op0 "dec";
    op0 "bad";
    op0 "bad";
    op0 "bad";
    op0 "bad";
    op0 "bad";
    op0 "bad" ].

Definition modrm_reg_group_5 : list x86_insn_spec_t :=
  [ op1 "inc" "Ev";
    op1 "dec" "Ev";
    op1f "call" X86_INSN_SPEC_DEFAULT_64_BIT "Ev";
    op1 "call" "Mp";
    op1f "jmp" X86_INSN_SPEC_DEFAULT_64_BIT "Ev";
    op1 "jmp" "Mp";
    op1f "push" X86_INSN_SPEC_DEFAULT_64_BIT "Ev";
    op0 "bad" ].

Definition modrm_reg_group_6 : list x86_insn_spec_t :=
  [ op1 "sldt" "Ev";
    op1 "str" "Ev";
    op1 "lldt" "Ev";
    op1 "ltr" "Ev";
    op1 "verr" "Ev";
    op1 "verw" "Ev";
    op0 "bad";
    op0 "bad" ].

Definition modrm_reg_group_7 : list x86_insn_spec_t :=
  [ op1 "sgdt" "Mv";
    op1 "sidt" "Mv";
    op1 "lgdt" "Mv";
    op1 "lidt" "Mv";
    op1 "smsw" "Ev";
    op0 "bad";
    op1 "lmsw" "Ew";
    op1 "invlpg" "Mv" ].

Definition modrm_reg_group_8 : list x86_insn_spec_t :=
  [ op0 "bad";
    op0 "bad";
    op0 "bad";
    op0 "bad";
    op2 "bt" "Ev" "Ib";
    op2 "bts" "Ev" "Ib";
    op2 "btr" "Ev" "Ib";
    op2 "btc" "Ev" "Ib" ].

Definition modrm_reg_group_9 : list x86_insn_spec_t :=
  [ op0 "bad";
    op1 "cmpxchg" "Mx";
    op0 "bad";
    op0 "bad";
    op0 "bad";
    op0 "bad";
    op0 "bad";
    op0 "bad" ].

Definition modrm_reg_group_10 : list x86_insn_spec_t :=
  [ op0 "bad";
    op0 "bad";
    op0 "bad";
    op0 "bad";
    op0 "bad";
    op0 "bad";
    op0 "bad";
    op0 "bad" ].

Definition modrm_reg_group_11 : list x86_insn_spec_t :=
  [ op0 "mov";
    op0 "bad";
    op0 "bad";
    op0 "bad";
    op0 "bad";
    op0 "bad";
    op0 "bad";
    op0 "bad" ].

Definition modrm_reg_group_12 : list x86_insn_spec_t :=
  [ op0 "bad";
    op0 "bad";
    op2 "psrlw" "Rm" "Ib";
    op0 "bad";
    op2 "psraw" "Rm" "Ib";
    op0 "bad";
    op2 "psllw" "Rm" "Ib";
    op0 "bad" ].

Definition modrm_reg_group_13 : list x86_insn_spec_t :=
  [ op0 "bad";
    op0 "bad";
    op2 "psrld" "Rm" "Ib";
    op0 "bad";
    op2 "psrad" "Rm" "Ib";
    op0 "bad";
    op2 "pslld" "Rm" "Ib";
    op0 "bad" ].

Definition modrm_reg_group_14 : list x86_insn_spec_t :=
  [ op0 "bad";
    op0 "bad";
    op2 "psrlq" "Rm" "Ib";
    op0f "bad" 0;
    op0 "bad";
    op0 "bad";
    op2 "psllq" "Rm" "Ib";
    op0f "bad" 0 ].

Definition modrm_reg_group_15 : list x86_insn_spec_t :=
  [ op1 "fxsave" "Mv";
    op1 "fxrstor" "Mv";
    op1 "ldmxcsr" "Mv";
    op1 "stmxcsr" "Mv";
    op0 "bad";
    op1 "lfence" "Mv";
    op1 "mfence" "Mv";
    op1 "sfence" "Mv" ].

Definition modrm_reg_group_16 : list x86_insn_spec_t :=
  [ op1 "prefetch_nta" "Mv";
    op1 "prefetch_t0" "Mv";
    op1 "prefetch_t1" "Mv";
    op1 "prefetch_t2" "Mv";
    op1 "prefetch_nop" "Mv";
    op1 "prefetch_nop" "Mv";
    op1 "prefetch_nop" "Mv";
    op1 "prefetch_nop" "Mv" ].

Definition modrm_reg_group_p : list x86_insn_spec_t :=
  [ op1 "prefetch_exclusive" "Mv";
    op1 "prefetch_modified" "Mv";
    op1 "prefetch_nop" "Mv";
    op1 "prefetch_modified" "Mv";
    op1 "prefetch_nop" "Mv";
    op1 "prefetch_nop" "Mv";
    op1 "prefetch_nop" "Mv";
    op1 "prefetch_nop" "Mv" ].

(** Designated initialisers leave index 0 zero-filled. *)
Definition x86_insn_modrm_reg_groups : list (list x86_insn_spec_t) :=
  [ replicate 8 zero_spec;
    modrm_reg_group_1;
    modrm_reg_group_1a;
    modrm_reg_group_2;
    modrm_reg_group_3;
    modrm_reg_group_4;
    modrm_reg_group_5;
    modrm_reg_group_6;
    modrm_reg_group_7;
    modrm_reg_group_8;
    modrm_reg_group_9;
    modrm_reg_group_10;
    modrm_reg_group_11;
    modrm_reg_group_12;
    modrm_reg_group_13;
    modrm_reg_group_14;
    modrm_reg_group_15;
    modrm_reg_group_16;
    modrm_reg_group_p ].

(** ** Shape of the tables *)

Lemma x86_opcode_map_one_byte_length : length x86_opcode_map_one_byte = 256%nat.
Proof. vm_compute. done. Qed.

Lemma x86_opcode_map_two_byte_length : length x86_opcode_map_two_byte = 256%nat.
Proof. vm_compute. done. Qed.
