(* ===== verification/X86Decode.v ===== *)
(** * The x86 instruction decoder

    x86_insn_reader.c and x86_insn_decode.c, function by function, as state
    monad programs over the byte reader and the instruction being filled in.
    [Undefined] is a read outside the reader's 20-byte buffer, [Aborted] the
    assert(0) behind FATAL, UNIMPLEMENTED and UNREACHABLE. *)

From S2P Require Import Prelude X86Spec X86Tables.

#[local] Open Scope cint_scope.

(** ** The reader (x86_insn_reader.c)

    All pointers of a reader point into one object: its own [buffer] when
    [in_buffer], else the code it was initialised with.  They are kept as
    offsets into that object. *)

Definition READER_BUFFER_SIZE : Z := 20.

Record x86_insn_reader_t : Set := Reader {
  in_buffer : bool;
  bytes : list Z;
  prefix : Z;
  opcode : Z;
  modrm : Z;
  buffer_cursor : Z
}.

(** [code] is the memory from [begin] on; [n] is [buffer_cursor - begin]. *)
Definition init_reader (code : list Z) (n : Z) : outcome x86_insn_reader_t :=
  if n <? READER_BUFFER_SIZE then
    if Z.of_nat (length code) <? n then Err Segv
    else Ret (Reader true
                (take (Z.to_nat n) code ++
                 replicate (Z.to_nat (READER_BUFFER_SIZE - n)) 0xcc) 0 0 0 0)
  else Ret (Reader false code 0 0 0 0).

Record decode_state : Set := DState { rd : x86_insn_reader_t; insn : x86_insn_decode_t }.
Abbreviation D := (CM decode_state).

Definition set_rd (r : x86_insn_reader_t) (s : decode_state) : decode_state := DState r (insn s).
Definition set_insn (i : x86_insn_decode_t) (s : decode_state) : decode_state := DState (rd s) i.
Definition update_insn (f : x86_insn_decode_t → x86_insn_decode_t) : D unit :=
  modify (λ s, set_insn (f (insn s)) s).

Definition with_buffer_cursor (p : Z) (r : x86_insn_reader_t) : x86_insn_reader_t :=
  Reader (in_buffer r) (bytes r) (prefix r) (opcode r) (modrm r) p.

(** [p[0]] for a pointer of the reader. *)
Definition deref (p : Z) : D Z := λ s,
  match bytes (rd s) !! Z.to_nat p with
  | Some b => (Ret (u8 b), s)
  | None => (Err (if in_buffer (rd s) then Undefined else Segv), s)
  end.

Definition reader_offset : D Z :=
  s ← get;
  if in_buffer (rd s) then mret (u32 (buffer_cursor (rd s))) else fail Undefined.

Definition peek_byte : D Z :=
  p ← gets (buffer_cursor ∘ rd); deref p.

Definition advance (n : Z) : D Z :=
  p ← gets (buffer_cursor ∘ rd);
  modify (λ s, set_rd (with_buffer_cursor (p + n) (rd s)) s);;
  mret p.

Definition read_uint8 : D Z := p ← advance 1; deref p.

Definition read_uint16 : D Z :=
  p ← advance 2;
  b0 ← deref p; b1 ← deref (p + 1);
  mret (u16 (b0 .| (b1 << 8))).

Definition read_uint32 : D Z :=
  p ← advance 4;
  b0 ← deref p; b1 ← deref (p + 1); b2 ← deref (p + 2); b3 ← deref (p + 3);
  mret (b0 .| (b1 << 8) .| (b2 << 16) .| (b3 << 24)).

(** Reads eight bytes and moves the cursor by four. *)
Definition read_uint64 : D Z :=
  p ← advance 4;
  b0 ← deref p; b1 ← deref (p + 1); b2 ← deref (p + 2); b3 ← deref (p + 3);
  b4 ← deref (p + 4); b5 ← deref (p + 5); b6 ← deref (p + 6); b7 ← deref (p + 7);
  mret (b0 .| (b1 << 8) .| (b2 << 16) .| (b3 << 24) .|
        (b4 << 32) .| (b5 << 40) .| (b6 << 48) .| (b7 << 56)).

(** The rest of the reader's interface, which the decoder does not use. *)
Definition read_imm (size : Z) : D Z :=
  if size =? 8 then read_uint8
  else if size =? 16 then read_uint16
  else if size =? 32 then read_uint32
  else mret 0.

Definition read_modrm : D Z :=
  s ← get;
  when (buffer_cursor (rd s) =? modrm (rd s)) (_ ← advance 1; mret tt);;
  deref (modrm (rd s)).

Definition continue_modrm : D unit :=
  modify (λ s, set_rd (Reader (in_buffer (rd s)) (bytes (rd s)) (prefix (rd s))
    (opcode (rd s)) (buffer_cursor (rd s)) (buffer_cursor (rd s))) s).

Definition continue_opcode : D unit :=
  modify (λ s, set_rd (Reader (in_buffer (rd s)) (bytes (rd s)) (prefix (rd s))
    (buffer_cursor (rd s)) (buffer_cursor (rd s)) (buffer_cursor (rd s))) s).

(** ** Field updates of [x86_insn_decode_t] *)

Definition with_flags (v : Z) (i : x86_insn_decode_t) : x86_insn_decode_t :=
  InsnDecode v (insn_length i) (displacement_offset i) (immediate_offset i)
    (insn_operands i) (insn_prefix i) (insn_rex i) (primary_opcode i)
    (insn_modrm i) (insn_sib i) (immediate i) (insn_spec i).
Definition with_length (v : Z) (i : x86_insn_decode_t) : x86_insn_decode_t :=
  InsnDecode (insn_flags i) v (displacement_offset i) (immediate_offset i)
    (insn_operands i) (insn_prefix i) (insn_rex i) (primary_opcode i)
    (insn_modrm i) (insn_sib i) (immediate i) (insn_spec i).
Definition with_displacement_offset (v : Z) (i : x86_insn_decode_t) : x86_insn_decode_t :=
  InsnDecode (insn_flags i) (insn_length i) v (immediate_offset i)
    (insn_operands i) (insn_prefix i) (insn_rex i) (primary_opcode i)
    (insn_modrm i) (insn_sib i) (immediate i) (insn_spec i).
Definition with_immediate_offset (v : Z) (i : x86_insn_decode_t) : x86_insn_decode_t :=
  InsnDecode (insn_flags i) (insn_length i) (displacement_offset i) v
    (insn_operands i) (insn_prefix i) (insn_rex i) (primary_opcode i)
    (insn_modrm i) (insn_sib i) (immediate i) (insn_spec i).
Definition with_operands (v : list x86_insn_operand_t) (i : x86_insn_decode_t) : x86_insn_decode_t :=
  InsnDecode (insn_flags i) (insn_length i) (displacement_offset i) (immediate_offset i)
    v (insn_prefix i) (insn_rex i) (primary_opcode i)
    (insn_modrm i) (insn_sib i) (immediate i) (insn_spec i).
Definition with_prefix (v : Z) (i : x86_insn_decode_t) : x86_insn_decode_t :=
  InsnDecode (insn_flags i) (insn_length i) (displacement_offset i) (immediate_offset i)
    (insn_operands i) v (insn_rex i) (primary_opcode i)
    (insn_modrm i) (insn_sib i) (immediate i) (insn_spec i).
Definition with_rex (v : Z) (i : x86_insn_decode_t) : x86_insn_decode_t :=
  InsnDecode (insn_flags i) (insn_length i) (displacement_offset i) (immediate_offset i)
    (insn_operands i) (insn_prefix i) v (primary_opcode i)
    (insn_modrm i) (insn_sib i) (immediate i) (insn_spec i).
Definition with_opcode (v : Z) (sp : x86_insn_spec_t) (i : x86_insn_decode_t) : x86_insn_decode_t :=
  InsnDecode (insn_flags i) (insn_length i) (displacement_offset i) (immediate_offset i)
    (insn_operands i) (insn_prefix i) (insn_rex i) v
    (insn_modrm i) (insn_sib i) (immediate i) sp.
Definition with_modrm (v : Z) (i : x86_insn_decode_t) : x86_insn_decode_t :=
  InsnDecode (insn_flags i) (insn_length i) (displacement_offset i) (immediate_offset i)
    (insn_operands i) (insn_prefix i) (insn_rex i) (primary_opcode i)
    v (insn_sib i) (immediate i) (insn_spec i).
Definition with_sib (v : Z) (i : x86_insn_decode_t) : x86_insn_decode_t :=
  InsnDecode (insn_flags i) (insn_length i) (displacement_offset i) (immediate_offset i)
    (insn_operands i) (insn_prefix i) (insn_rex i) (primary_opcode i)
    (insn_modrm i) v (immediate i) (insn_spec i).
Definition with_immediate (v : Z) (i : x86_insn_decode_t) : x86_insn_decode_t :=
  InsnDecode (insn_flags i) (insn_length i) (displacement_offset i) (immediate_offset i)
    (insn_operands i) (insn_prefix i) (insn_rex i) (primary_opcode i)
    (insn_modrm i) (insn_sib i) v (insn_spec i).

(** [insn->operands[k].reg = v], [insn->operands[k].mem.base = v], ... *)
Definition set_operand_reg (k : nat) (v : Z) : D unit :=
  update_insn (λ i, with_operands (alter (λ o, Operand v (mem o)) k (insn_operands i)) i).
Definition update_mem (k : nat) (f : x86_insn_mem_t → x86_insn_mem_t) : D unit :=
  update_insn (λ i, with_operands
    (alter (λ o, Operand (op_reg o) (f (mem o))) k (insn_operands i)) i).
Definition set_mem_base (k : nat) (v : Z) : D unit :=
  update_mem k (λ m, Mem v (index m) (scale m) (disp m)).
Definition set_mem_index (k : nat) (v : Z) : D unit :=
  update_mem k (λ m, Mem (base m) v (scale m) (disp m)).
Definition set_mem_scale (k : nat) (v : Z) : D unit :=
  update_mem k (λ m, Mem (base m) (index m) v (disp m)).
Definition set_mem_disp (k : nat) (v : Z) : D unit :=
  update_mem k (λ m, Mem (base m) (index m) (scale m) v).
Definition get_mem_base (k : nat) : D Z :=
  s ← get;
  o ← lift_opt Undefined (insn_operands (insn s) !! k);
  mret (base (mem o)).
(** [insn->flags |= v] *)
Definition or_flags (v : Z) : D unit :=
  update_insn (λ i, with_flags (insn_flags i .| v) i).

(** ** Prefixes *)

Definition legacy_prefix (c : Z) : Z :=
  if c =? 0xF0 then INSN_PREFIX_LOCK
  else if c =? 0xF2 then INSN_PREFIX_REPNE
  else if c =? 0xF3 then INSN_PREFIX_REPE
  else if c =? 0x2E then INSN_PREFIX_CS
  else if c =? 0x36 then INSN_PREFIX_SS
  else if c =? 0x3E then INSN_PREFIX_DS
  else if c =? 0x26 then INSN_PREFIX_ES
  else if c =? 0x64 then INSN_PREFIX_FS
  else if c =? 0x65 then INSN_PREFIX_GS
  else if c =? 0x66 then INSN_PREFIX_OPERAND_SIZE
  else if c =? 0x67 then INSN_PREFIX_ADDRESS_SIZE
  else 0.

Definition is_rex (mode c : Z) : bool :=
  (mode =? 64) && ((0x40 <=? c) && (c <=? 0x4f)).

Fixpoint x86_insn_decode_prefix_loop (fuel : nat) (mode insn_prefix : Z) : D Z :=
  match fuel with
  | O => fail OutOfFuel
  | S fuel =>
      c ← peek_byte;
      if is_rex mode c then
        rex ← read_uint8;
        when (truthy (REX_W rex)) (or_flags X86_INSN_DECODE_FLAG_OPERAND_SIZE_64);;
        update_insn (with_rex rex);;
        mret insn_prefix
      else if legacy_prefix c =? 0 then mret insn_prefix
      else
        _ ← read_uint8;
        x86_insn_decode_prefix_loop fuel mode (insn_prefix .| legacy_prefix c)
  end.

(** Each round consumes a byte of the reader's object, so its size plus one
    rounds are enough. *)
Definition x86_insn_decode_prefix (mode : Z) : D Z :=
  s ← get;
  x86_insn_decode_prefix_loop (S (length (bytes (rd s)))) mode 0.

(** ** What the operand specifications ask for *)

Definition char_G : Z := 71.
Definition char_E : Z := 69.
Definition char_M : Z := 77.
Definition char_R : Z := 82.
Definition char_J : Z := 74.
Definition char_I : Z := 73.
Definition char_O : Z := 79.

Definition is_modrm_code (c : Z) : bool :=
  (c =? char_G) || (c =? char_E) || (c =? char_M) || (c =? char_R).
Definition is_immediate_code (c : Z) : bool :=
  (c =? char_J) || (c =? char_I) || (c =? char_O).

Definition x86_insn_has_modrm_byte (sp : x86_insn_spec_t) : bool :=
  existsb (λ o, is_modrm_code (code o)) (operands sp).

Definition x86_insn_has_immediate (sp : x86_insn_spec_t) : bool :=
  existsb (λ o, is_immediate_code (code o)) (operands sp).

(** The loop bound is [sizeof(insn->operands)], six, over an array of three:
    with no immediate operand it reads past the array. *)
Definition x86_insn_immediate_type (sp : x86_insn_spec_t) : outcome Z :=
  match List.find (λ o, is_immediate_code (code o)) (operands sp) with
  | Some o => Ret (type o)
  | None => Err Undefined
  end.

Definition x86_insn_imm_bits (sp : x86_insn_spec_t) (operand_bits : Z) : outcome Z :=
  match x86_insn_immediate_type sp with
  | Err e => Err e
  | Ret t => Ret (
      if t =? 98 (* b *) then 8
      else if t =? 119 (* w *) then 16
      else if t =? 100 (* d *) then 32
      else if t =? 113 (* q *) then 64
      else if t =? 122 (* z *) then (if operand_bits =? 64 then 32 else operand_bits)
      else if t =? 118 (* v *) then operand_bits
      else 0)
  end.

(** ** Numbers *)

Definition x86_insn_decode_number (number_bits : Z) : D Z :=
  if number_bits =? 64 then n ← read_uint64; mret (sint 64 n)
  else if number_bits =? 32 then read_uint32
  else if number_bits =? 16 then read_uint16
  else if number_bits =? 8 then read_uint8
  else fail Aborted.

(** ** ModR/M and SIB *)

Definition effective_address_bits (mode : Z) : D Z :=
  s ← get;
  let override := truthy (insn_prefix (insn s) & INSN_PREFIX_ADDRESS_SIZE) in
  if mode =? 64 then mret (if override then 32 else 64)
  else if mode =? 32 then mret (if override then 16 else 32)
  else fail Aborted.

(** [disp_bits] from [mod] and [rm], before the SIB byte. *)
Definition decode_mod_disp (mod_ rm : Z) : D Z :=
  if (mod_ =? 0) && ((rm & 7) =? 5) then
    update_insn (with_flags X86_INSN_DECODE_FLAG_IP_RELATIVE);;
    set_mem_base 1 RIP;;
    mret 32
  else if mod_ =? 0 then mret 0
  else if mod_ =? 1 then mret 8
  else if mod_ =? 2 then mret 32
  else mret 0.

(** The displacement a base register forces, [bases] being the values of
    [mem.base] the code compares with. *)
Definition decode_sib_base (bases : list Z) (mod_ disp_bits : Z) : D Z :=
  b ← get_mem_base 1;
  if existsb (Z.eqb b) bases then
    when (mod_ =? 0) (set_mem_base 1 RNone);;
    mret (if mod_ =? 1 then 8 else 32)
  else mret disp_bits.

Definition decode_sib (eab mod_ disp_bits : Z) : D Z :=
  sib ← read_uint8;
  update_insn (with_sib sib);;
  s ← get;
  let rex := insn_rex (insn s) in
  let base := u8 (sib_base sib .| (REX_B rex << 3)) in
  let index := u8 (sib_index sib .| (REX_X rex << 3)) in
  let scale := u8 (1 << sib_log2_scale sib) in
  let has_index := negb (sib_index sib =? X86_INSN_GP_REG_SP) in
  or_flags X86_INSN_DECODE_FLAG_HAS_BASE;;
  when has_index (or_flags X86_INSN_DECODE_FLAG_HAS_INDEX);;
  set_mem_base 1 base;;
  set_mem_index 1 index;;
  set_mem_scale 1 scale;;
  when (negb has_index) (set_mem_index 1 RNone;; set_mem_scale 1 0);;
  disp_bits ←
    (if eab =? 64 then
       d ← decode_sib_base [RBP; R13] mod_ disp_bits;
       when has_index (or_flags X86_INSN_DECODE_FLAG_HAS_INDEX);;
       mret d
     else mret disp_bits);
  (if eab =? 32 then decode_sib_base [RBP] mod_ disp_bits else mret disp_bits).

(** The 32 and 64-bit forms. *)
Definition decode_address_32_64 (eab mod_ rm : Z) : D Z :=
  set_mem_base 1 rm;;
  or_flags X86_INSN_DECODE_FLAG_HAS_BASE;;
  disp_bits ← decode_mod_disp mod_ rm;
  if (rm & 7) =? 4 then decode_sib eab mod_ disp_bits else mret disp_bits.

(** The 16-bit forms.  [disp_bits] keeps its initial 255 when [mod] is 0 and
    [rm] is not 6. *)
Definition decode_address_16 (m disp_bits : Z) : D Z :=
  let rm := modrm_rm m in
  if (modrm_mode m =? 0) && (rm =? 6) then mret 16
  else
    (if rm <=? 1 then
       set_mem_base 1 X86_INSN_GP_REG_BX;;
       set_mem_index 1 (X86_INSN_GP_REG_SI + (rm & 1));;
       or_flags (X86_INSN_DECODE_FLAG_HAS_BASE .| X86_INSN_DECODE_FLAG_HAS_INDEX)
     else if rm <=? 3 then
       set_mem_base 1 X86_INSN_GP_REG_BP;;
       set_mem_index 1 (X86_INSN_GP_REG_SI + (rm & 1));;
       or_flags (X86_INSN_DECODE_FLAG_HAS_BASE .| X86_INSN_DECODE_FLAG_HAS_INDEX)
     else if rm <=? 5 then
       set_mem_base 1 (X86_INSN_GP_REG_SI + (rm & 1));;
       or_flags X86_INSN_DECODE_FLAG_HAS_BASE
     else if rm =? 6 then
       set_mem_base 1 X86_INSN_GP_REG_BP;;
       or_flags X86_INSN_DECODE_FLAG_HAS_BASE
     else
       set_mem_base 1 X86_INSN_GP_REG_BX;;
       or_flags X86_INSN_DECODE_FLAG_HAS_BASE);;
    mret (if negb (modrm_mode m =? 0)
          then (if modrm_mode m =? 1 then 8 else 16)
          else disp_bits).

Definition decode_displacement (disp_bits : Z) : D unit :=
  when (negb (disp_bits =? 0))
    (off ← reader_offset;
     update_insn (with_displacement_offset (u8 off));;
     disp ← x86_insn_decode_number disp_bits;
     set_mem_disp 1 (u32 disp)).

Definition x86_insn_decode_modrm_sib (mode : Z) : D unit :=
  m ← read_uint8;
  update_insn (with_modrm m);;
  s ← get;
  let rex := insn_rex (insn s) in
  let mod_ := modrm_mode m in
  let rm := u8 ((REX_B rex << 3) .| modrm_rm m) in
  let reg := u8 ((REX_R rex << 3) .| modrm_reg m) in
  set_operand_reg 0 reg;;
  if mod_ =? 3 then set_operand_reg 1 rm
  else
    or_flags X86_INSN_DECODE_FLAG_IS_ADDRESS;;
    eab ← effective_address_bits mode;
    disp_bits ←
      (if (eab =? 32) || (eab =? 64) then decode_address_32_64 eab mod_ rm else mret 255);
    disp_bits ← (if eab =? 16 then decode_address_16 m disp_bits else mret disp_bits);
    decode_displacement disp_bits.

(** ** Opcode *)

(** The table entry of a one or two-byte opcode. *)
Definition read_opcode : D (Z * x86_insn_spec_t) :=
  opcode ← read_uint8;
  if opcode =? 0x0f then
    opcode ← read_uint8;
    sp ← lift_opt Undefined (x86_opcode_map_two_byte !! Z.to_nat opcode);
    mret (opcode, sp)
  else
    sp ← lift_opt Undefined (x86_opcode_map_one_byte !! Z.to_nat opcode);
    mret (opcode, sp).

(** An opcode extended by the ModR/M reg field takes the name and the flags of
    the group entry, and keeps its own operands. *)
Definition resolve_group (sp : x86_insn_spec_t) : D x86_insn_spec_t :=
  let group_ndx := X86_INSN_FLAG_GET_GROUP (flags sp) in
  when (X86_INSN_SSE_GROUP_START <? group_ndx) (fail Aborted);;
  if (X86_INSN_GROUP_START <? group_ndx) && (group_ndx <? X86_INSN_SSE_GROUP_START) then
    m ← peek_byte;
    insns ← lift_opt Undefined (x86_insn_modrm_reg_groups !! Z.to_nat group_ndx);
    group_insn ← lift_opt Undefined (insns !! Z.to_nat (modrm_reg m));
    mret (InsnSpec (name group_insn) (operands sp) (flags group_insn))
  else mret sp.

Definition x86_insn_decode_opcode (mode : Z) : D unit :=
  e ← read_opcode;
  sp ← resolve_group e.2;
  update_insn (with_opcode e.1 sp).

(** ** Immediate *)

Definition effective_operand_bits (mode : Z) (i : x86_insn_decode_t) : Z :=
  let bits := if truthy (insn_prefix i & INSN_PREFIX_OPERAND_SIZE) then 16 else 32 in
  let bits :=
    if truthy (insn_flags i & X86_INSN_DECODE_FLAG_OPERAND_SIZE_64) then 64 else bits in
  if (mode =? 64) && truthy (flags (insn_spec i) & X86_INSN_SPEC_DEFAULT_64_BIT)
  then 64 else bits.

Definition x86_insn_decode_immediate (mode : Z) : D unit :=
  s ← get;
  match x86_insn_imm_bits (insn_spec (insn s)) (effective_operand_bits mode (insn s)) with
  | Err e => fail e
  | Ret imm_bits =>
      when (negb (imm_bits =? 0))
        (off ← reader_offset;
         update_insn (with_immediate_offset (u8 off));;
         n ← x86_insn_decode_number imm_bits;
         update_insn (with_immediate n))
  end.

(** ** The decoder *)

Definition x86_insn_decode_body (mode : Z) : D unit :=
  p ← x86_insn_decode_prefix mode;
  update_insn (with_prefix p);;
  x86_insn_decode_opcode mode;;
  s ← get;
  when (x86_insn_has_modrm_byte (insn_spec (insn s))) (x86_insn_decode_modrm_sib mode);;
  when (x86_insn_has_immediate (insn_spec (insn s))) (x86_insn_decode_immediate mode);;
  off ← reader_offset;
  update_insn (with_length off).

(** [code] is the memory at [buffer]; the reader always copies 15 bytes. *)
Definition x86_insn_decode (i : x86_insn_decode_t) (code : list Z) (mode : Z)
  : outcome x86_insn_decode_t :=
  match init_reader code 15 with
  | Err e => Err e
  | Ret r =>
      match x86_insn_decode_body mode (DState r i) with
      | (Ret _, s) => Ret (insn s)
      | (Err e, _) => Err e
      end
  end.

(** Decoding from a zeroed [insn], as the callers do. *)
Definition decode_fresh (code : list Z) (mode : Z) : outcome x86_insn_decode_t :=
  x86_insn_decode zero_insn code mode.
