(* ===== verification/X86Props.v ===== *)
(** * Correctness of the x86 decoder

    Where the decoder stays inside its 20-byte buffer, what its prefix,
    ModR/M and immediate stages compute, and how the lengths it reports
    compare with the instruction format. *)

From S2P Require Import Prelude X86Spec X86Tables X86Decode.

#[local] Open Scope cint_scope.

(** ** Reading the buffer *)

(** The byte at offset [p] of a reader buffer. *)
Definition byte_at (bs : list Z) (p : Z) : Z := u8 (default 0 (bs !! Z.to_nat p)).

(** The value of the [bits]-wide little-endian number at [p], as the decoder
    stores it in an int64_t. *)
Definition number_at (bs : list Z) (p bits : Z) : Z :=
  if bits =? 64 then
    sint 64 (byte_at bs p .| (byte_at bs (p + 1) << 8) .| (byte_at bs (p + 2) << 16) .|
      (byte_at bs (p + 3) << 24) .| (byte_at bs (p + 4) << 32) .| (byte_at bs (p + 5) << 40) .|
      (byte_at bs (p + 6) << 48) .| (byte_at bs (p + 7) << 56))
  else if bits =? 32 then
    byte_at bs p .| (byte_at bs (p + 1) << 8) .| (byte_at bs (p + 2) << 16) .|
      (byte_at bs (p + 3) << 24)
  else if bits =? 16 then u16 (byte_at bs p .| (byte_at bs (p + 1) << 8))
  else byte_at bs p.

(** The reader works in its own buffer [bs] and stands at [c]. *)
Definition at_ (bs : list Z) (c : Z) (s : decode_state) : Prop :=
  in_buffer (rd s) = true ∧ bytes (rd s) = bs ∧ buffer_cursor (rd s) = c.

(** Bytes a number of that width needs, and bytes the cursor moves over it. *)
Definition number_size (bits : Z) : Z := bits / 8.
Definition number_step (bits : Z) : Z := if bits =? 64 then 4 else bits / 8.

(** The widths [x86_insn_decode_number] reads. *)
Definition number_width (bits : Z) : Prop := bits = 8 ∨ bits = 16 ∨ bits = 32 ∨ bits = 64.

Section reader.
Context (bs : list Z) (Hbs : length bs = 20%nat).
Implicit Types (s : decode_state) (E : fault → decode_state → Prop).

Lemma byte_at_range p : 0 ≤ byte_at bs p < 256.
Proof. apply u8_range. Qed.

Lemma deref_spec c p s Q E :
  at_ bs c s → 0 ≤ p < 20 → Q (byte_at bs p) s → wp (deref p) Q E s.
Proof using Hbs.
  intros (Hin & Hb & _) Hp HQ. unfold wp, deref. rewrite Hb. unfold byte_at in HQ.
  destruct (lookup_lt_is_Some_2 bs (Z.to_nat p)) as [b Hlk]; [lia|].
  by rewrite Hlk in HQ |- *.
Qed.

Lemma peek_byte_spec c s Q E :
  at_ bs c s → 0 ≤ c < 20 → Q (byte_at bs c) s → wp peek_byte Q E s.
Proof using Hbs.
  intros Hat Hc HQ. unfold peek_byte. wp_go. simpl.
  pose proof Hat as (_ & _ & ->). by eapply deref_spec.
Qed.

Lemma advance_spec n c s Q E :
  at_ bs c s →
  (∀ s', at_ bs (c + n) s' → insn s' = insn s → Q c s') → wp (advance n) Q E s.
Proof using Hbs.
  intros (Hin & Hb & Hc) HQ. unfold advance. wp_go. simpl. rewrite Hc. apply HQ; done.
Qed.

Lemma read_uint8_spec c s Q E :
  at_ bs c s → 0 ≤ c < 20 →
  (∀ s', at_ bs (c + 1) s' → insn s' = insn s → Q (byte_at bs c) s') →
  wp read_uint8 Q E s.
Proof using Hbs.
  intros Hat Hc HQ. unfold read_uint8. wp_go. eapply advance_spec; [done|].
  intros s' Hat' Hi. eapply deref_spec; eauto.
Qed.

Lemma read_uint16_spec c s Q E :
  at_ bs c s → 0 ≤ c → c + 2 ≤ 20 →
  (∀ s', at_ bs (c + 2) s' → insn s' = insn s → Q (number_at bs c 16) s') →
  wp read_uint16 Q E s.
Proof using Hbs.
  intros Hat Hc ? HQ. unfold read_uint16. wp_go. eapply advance_spec; [done|].
  intros s' Hat' Hi. do 2 (wp_go; eapply deref_spec; [done|lia|]). wp_go. by apply HQ.
Qed.

Lemma read_uint32_spec c s Q E :
  at_ bs c s → 0 ≤ c → c + 4 ≤ 20 →
  (∀ s', at_ bs (c + 4) s' → insn s' = insn s → Q (number_at bs c 32) s') →
  wp read_uint32 Q E s.
Proof using Hbs.
  intros Hat Hc ? HQ. unfold read_uint32. wp_go. eapply advance_spec; [done|].
  intros s' Hat' Hi. do 4 (wp_go; eapply deref_spec; [done|lia|]). wp_go. by apply HQ.
Qed.

Lemma read_uint64_spec c s Q E :
  at_ bs c s → 0 ≤ c → c + 8 ≤ 20 →
  (∀ s', at_ bs (c + 4) s' → insn s' = insn s → Q (number_at bs c 64) s') →
  wp (n ← read_uint64; mret (sint 64 n)) Q E s.
Proof using Hbs.
  intros Hat Hc ? HQ. unfold read_uint64. wp_go. eapply advance_spec; [done|].
  intros s' Hat' Hi. do 8 (wp_go; eapply deref_spec; [done|lia|]). wp_go. by apply HQ.
Qed.

(** A number of width [bits]: any other width aborts. *)
Lemma x86_insn_decode_number_spec bits c s Q E :
  at_ bs c s → 0 ≤ c →
  (number_width bits → c + number_size bits ≤ 20) →
  (¬ number_width bits → E Aborted s) →
  (∀ s', number_width bits → at_ bs (c + number_step bits) s' → insn s' = insn s →
    Q (number_at bs c bits) s') →
  wp (x86_insn_decode_number bits) Q E s.
Proof using Hbs.
  intros Hat Hc Hsz HE HQ. unfold x86_insn_decode_number.
  destruct (bits =? 64) eqn:H64; [apply Z.eqb_eq in H64; subst|].
  { eapply read_uint64_spec; [done|done|apply Hsz; by do 3 right|].
    intros; apply HQ; [by do 3 right|done..]. }
  destruct (bits =? 32) eqn:H32; [apply Z.eqb_eq in H32; subst|].
  { eapply read_uint32_spec; [done|done|apply Hsz; do 2 right; by left|].
    intros; apply HQ; [do 2 right; by left|done..]. }
  destruct (bits =? 16) eqn:H16; [apply Z.eqb_eq in H16; subst|].
  { eapply read_uint16_spec; [done|done|apply Hsz; right; by left|].
    intros; apply HQ; [right; by left|done..]. }
  destruct (bits =? 8) eqn:H8; [apply Z.eqb_eq in H8; subst|].
  { assert (c + number_size 8 ≤ 20) by (apply Hsz; by left).
    change (number_size 8) with 1 in *.
    eapply read_uint8_spec; [done|lia|intros; apply HQ; [by left|done..]]. }
  apply wp_fail, HE. unfold number_width. lia.
Qed.

Lemma reader_offset_spec c s Q E :
  at_ bs c s → 0 ≤ c ≤ 20 → Q c s → wp reader_offset Q E s.
Proof using Hbs.
  intros (Hin & Hb & Hc) Hr HQ. unfold reader_offset. wp_go; [|congruence].
  rewrite Hc, wrap_small by lia. done.
Qed.

End reader.

(** ** The prefix stage *)

(** The legacy prefixes a byte list starts with. *)
Fixpoint legacy_run (mode : Z) (l : list Z) : list Z :=
  match l with
  | [] => []
  | b :: l' =>
      if is_rex mode (u8 b) then []
      else if legacy_prefix (u8 b) =? 0 then []
      else u8 b :: legacy_run mode l'
  end.

(** What a REX byte does to the instruction. *)
Definition apply_rex (mode b : Z) (i : x86_insn_decode_t) : x86_insn_decode_t :=
  if is_rex mode b then
    with_rex b
      (if truthy (REX_W b)
       then with_flags (insn_flags i .| X86_INSN_DECODE_FLAG_OPERAND_SIZE_64) i else i)
  else i.
Definition rex_size (mode b : Z) : Z := if is_rex mode b then 1 else 0.

Section stages.
Context (bs : list Z) (Hbs : length bs = 20%nat).
Implicit Types (s : decode_state) (E : fault → decode_state → Prop).

Lemma legacy_run_step mode c :
  0 ≤ c < 20 →
  legacy_run mode (drop (Z.to_nat c) bs) =
    if is_rex mode (byte_at bs c) then []
    else if legacy_prefix (byte_at bs c) =? 0 then []
    else byte_at bs c :: legacy_run mode (drop (Z.to_nat (c + 1)) bs).
Proof using Hbs.
  intros Hc. destruct (lookup_lt_is_Some_2 bs (Z.to_nat c)) as [b Hb]; [lia|].
  rewrite (drop_S _ _ _ Hb). unfold byte_at. rewrite Hb. simpl.
  replace (Z.to_nat (c + 1)) with (S (Z.to_nat c)) by lia. done.
Qed.

Lemma x86_insn_decode_prefix_loop_spec fuel mode acc c s Q E :
  at_ bs c s → 0 ≤ c → (20 - Z.to_nat c < fuel)%nat →
  let run := legacy_run mode (drop (Z.to_nat c) bs) in
  let d := c + Z.of_nat (length run) in
  d < 20 →
  (∀ s', at_ bs (d + rex_size mode (byte_at bs d)) s' →
    insn s' = apply_rex mode (byte_at bs d) (insn s) →
    Q (foldl Z.lor acc (map legacy_prefix run)) s') →
  wp (x86_insn_decode_prefix_loop fuel mode acc) Q E s.
Proof using Hbs.
  revert acc c s. induction fuel as [|fuel IH]; intros acc c s Hat Hc Hfuel; [lia|].
  destruct (decide (c < 20)) as [Hlt|]; [|cbv zeta; lia].
  rewrite legacy_run_step by lia. cbv zeta. unfold x86_insn_decode_prefix_loop; fold x86_insn_decode_prefix_loop.
  intros Hd HQ. wp_go. eapply peek_byte_spec; [done..|]. cbv beta.
  unfold rex_size, apply_rex in HQ.
  destruct (is_rex mode (byte_at bs c)) eqn:Hrex; simpl in *.
  { rewrite Z.add_0_r, Hrex in HQ. wp_go.
    eapply read_uint8_spec; [done..|]. intros s' Hat' Hi. cbv beta. wp_go.
    all: apply HQ; [done|].
    - simpl. rewrite Hi. match goal with H : truthy _ = true |- _ => by rewrite H end.
    - simpl. rewrite Hi. match goal with H : truthy _ = false |- _ => by rewrite H end. }
  destruct (legacy_prefix (byte_at bs c) =? 0) eqn:Hleg; simpl in *.
  { rewrite Z.add_0_r, Hrex, Z.add_0_r in HQ. apply wp_ret, HQ; done. }
  wp_go. eapply read_uint8_spec; [done..|]. intros s' Hat' Hi. cbv beta.
  eapply IH; [done|lia|lia| |].
  { lia. }
  intros s'' Hat'' Hi''. rewrite Hi in Hi''.
  replace (c + 1 + Z.of_nat (length (legacy_run mode (drop (Z.to_nat (c + 1)) bs))))
    with (c + Z.of_nat (S (length (legacy_run mode (drop (Z.to_nat (c + 1)) bs))))) in * by lia.
  by apply HQ.
Qed.

Lemma x86_insn_decode_prefix_correct mode s Q E :
  at_ bs 0 s →
  let run := legacy_run mode bs in
  let d := Z.of_nat (length run) in
  d < 20 →
  (∀ s', at_ bs (d + rex_size mode (byte_at bs d)) s' →
    insn s' = apply_rex mode (byte_at bs d) (insn s) →
    Q (foldl Z.lor 0 (map legacy_prefix run)) s') →
  wp (x86_insn_decode_prefix mode) Q E s.
Proof using Hbs.
  intros Hat. cbv zeta. intros Hd HQ. unfold x86_insn_decode_prefix. wp_go.
  pose proof Hat as (_ & Hb & _). rewrite Hb, Hbs.
  eapply (x86_insn_decode_prefix_loop_spec _ _ _ 0); [done|lia|lia| |]; [done|apply HQ].
Qed.

End stages.

(** ** The opcode stage *)

(** The table entry of the opcode at [c]: its size, its last byte and its
    specification. *)
Definition table_entry (bs : list Z) (c : Z) : option (Z * Z * x86_insn_spec_t) :=
  if byte_at bs c =? 0x0f then
    sp ← x86_opcode_map_two_byte !! Z.to_nat (byte_at bs (c + 1));
    Some (2, byte_at bs (c + 1), sp)
  else
    sp ← x86_opcode_map_one_byte !! Z.to_nat (byte_at bs c);
    Some (1, byte_at bs c, sp).

(** *** Facts of the tables, by evaluation *)

(** Bytes of the widest immediate an entry can ask for. *)
Definition max_imm (sp : x86_insn_spec_t) : Z :=
  match x86_insn_immediate_type sp with
  | Err _ => 0
  | Ret t =>
      if t =? 98 then 1 else if t =? 119 then 2
      else if (t =? 100) || (t =? 122) then 4
      else if (t =? 113) || (t =? 118) then 8 else 0
  end.

(** An entry with a ModR/M byte has an immediate of at most [k] bytes. *)
Definition modrm_imm_le (k : Z) (sp : x86_insn_spec_t) : bool :=
  implb (x86_insn_has_modrm_byte sp) (max_imm sp <=? k).

Definition three_operands (sp : x86_insn_spec_t) : bool := (length (operands sp) =? 3)%nat.

(** The group indices an entry can carry are valid. *)
Definition group_ok (sp : x86_insn_spec_t) : bool :=
  X86_INSN_FLAG_GET_GROUP (flags sp) <? X86_INSN_GROUP_END.

Lemma one_byte_ok :
  forallb (λ sp, modrm_imm_le 4 sp && group_ok sp && three_operands sp)
    x86_opcode_map_one_byte = true.
Proof. vm_compute. done. Qed.

Lemma two_byte_ok :
  forallb (λ sp, modrm_imm_le 1 sp && group_ok sp && three_operands sp)
    x86_opcode_map_two_byte = true.
Proof. vm_compute. done. Qed.

(** Every group index below the SSE groups has its eight entries. *)
Lemma modrm_groups_ok :
  length x86_insn_modrm_reg_groups = 19%nat ∧
  forallb (λ g, (length g =? 8)%nat) x86_insn_modrm_reg_groups = true.
Proof. vm_compute. done. Qed.

Lemma one_byte_lookup b :
  0 ≤ b < 256 → ∃ sp, x86_opcode_map_one_byte !! Z.to_nat b = Some sp ∧
    modrm_imm_le 4 sp = true ∧ three_operands sp = true.
Proof.
  intros Hb. destruct (lookup_lt_is_Some_2 x86_opcode_map_one_byte (Z.to_nat b)) as [sp Hsp].
  { rewrite x86_opcode_map_one_byte_length. lia. }
  exists sp. split; [done|].
  pose proof one_byte_ok as H. rewrite forallb_forall in H.
  specialize (H sp). rewrite !andb_true_iff in H. destruct H as [[? ?] ?]; [|done].
  apply list_elem_of_In, list_elem_of_lookup. eauto.
Qed.

Lemma two_byte_lookup b :
  0 ≤ b < 256 → ∃ sp, x86_opcode_map_two_byte !! Z.to_nat b = Some sp ∧
    modrm_imm_le 1 sp = true ∧ three_operands sp = true.
Proof.
  intros Hb. destruct (lookup_lt_is_Some_2 x86_opcode_map_two_byte (Z.to_nat b)) as [sp Hsp].
  { rewrite x86_opcode_map_two_byte_length. lia. }
  exists sp. split; [done|].
  pose proof two_byte_ok as H. rewrite forallb_forall in H.
  specialize (H sp). rewrite !andb_true_iff in H. destruct H as [[? ?] ?]; [|done].
  apply list_elem_of_In, list_elem_of_lookup. eauto.
Qed.

Lemma modrm_group_lookup g m :
  X86_INSN_GROUP_START < g < X86_INSN_SSE_GROUP_START →
  ∃ insns gi, x86_insn_modrm_reg_groups !! Z.to_nat g = Some insns ∧
    insns !! Z.to_nat (modrm_reg m) = Some gi.
Proof.
  unfold X86_INSN_GROUP_START, X86_INSN_SSE_GROUP_START. intros Hg.
  destruct modrm_groups_ok as [Hlen Hall]. rewrite forallb_forall in Hall.
  destruct (lookup_lt_is_Some_2 x86_insn_modrm_reg_groups (Z.to_nat g)) as [insns Hi]; [lia|].
  exists insns. specialize (Hall insns).
  rewrite Nat.eqb_eq in Hall. rewrite Hi.
  assert (length insns = 8%nat) as H8.
  { apply Hall, list_elem_of_In, list_elem_of_lookup. eauto. }
  destruct (lookup_lt_is_Some_2 insns (Z.to_nat (modrm_reg m))) as [gi Hgi]; [|eauto].
  rewrite H8. unfold modrm_reg. change 7 with (Z.ones 3). rewrite Z.land_ones by lia.
  pose proof (Z.mod_pos_bound (m >> 3) (2 ^ 3)). lia.
Qed.

(** ** Opcode, ModR/M and immediate stages *)

(** What the address stages never touch. *)
Definition core (i : x86_insn_decode_t) :=
  (immediate_offset i, immediate i, length (insn_operands i), insn_prefix i,
   insn_rex i, primary_opcode i, insn_spec i).

Section stages2.
Context (bs : list Z) (Hbs : length bs = 20%nat).
Implicit Types (s : decode_state) (E : fault → decode_state → Prop).

(** The specification a group opcode ends up with: name and flags of the group
    entry its ModR/M byte [m] selects, its own operands. *)
Definition in_group (g : Z) : bool := (X86_INSN_GROUP_START <? g) && (g <? X86_INSN_SSE_GROUP_START).
Definition resolved (sp : x86_insn_spec_t) (m : Z) : x86_insn_spec_t :=
  let g := X86_INSN_FLAG_GET_GROUP (flags sp) in
  if in_group g then
    let gi := default zero_spec (default [] (x86_insn_modrm_reg_groups !! Z.to_nat g)
                !! Z.to_nat (modrm_reg m)) in
    InsnSpec (name gi) (operands sp) (flags gi)
  else sp.
(** An opcode of an SSE group. *)
Definition sse_entry (sp : x86_insn_spec_t) : Prop :=
  X86_INSN_SSE_GROUP_START < X86_INSN_FLAG_GET_GROUP (flags sp).

Lemma resolved_operands sp m : operands (resolved sp m) = operands sp.
Proof using Type. unfold resolved. by destruct (in_group _). Qed.

(** The room an entry needs, by the size [k] of its opcode. *)
Definition entry_room (k : Z) (sp : x86_insn_spec_t) : Prop :=
  k = 1 ∧ modrm_imm_le 4 sp = true ∨ k = 2 ∧ modrm_imm_le 1 sp = true.

Lemma table_entry_room c k opc sp : table_entry bs c = Some (k, opc, sp) → entry_room k sp.
Proof using Type.
  unfold table_entry, entry_room. destruct (byte_at bs c =? 0x0f).
  - destruct (two_byte_lookup (byte_at bs (c + 1))) as (sp' & Hsp & Himm & _).
    { apply byte_at_range. }
    rewrite Hsp. simpl. intros [= <- <- <-]. by right.
  - destruct (one_byte_lookup (byte_at bs c)) as (sp' & Hsp & Himm & _).
    { apply byte_at_range. }
    rewrite Hsp. simpl. intros [= <- <- <-]. by left.
Qed.

Lemma read_opcode_spec c s Q E :
  at_ bs c s → 0 ≤ c → c + 2 ≤ 20 →
  (∀ s' k opc sp, at_ bs (c + k) s' → table_entry bs c = Some (k, opc, sp) →
    insn s' = insn s → Q (opc, sp) s') →
  wp read_opcode Q E s.
Proof using Hbs.
  intros Hat Hc Hroom HQ. unfold read_opcode, table_entry in *. wp_step.
  eapply (read_uint8_spec bs); [done..|lia|]. intros s1 Hat1 Hi1. cbv beta.
  wp_step; match goal with H : (byte_at bs c =? _) = _ |- _ => rewrite H in HQ end.
  - wp_step. eapply (read_uint8_spec bs); [done..|lia|]. intros s2 Hat2 Hi2. cbv beta.
    destruct (two_byte_lookup (byte_at bs (c + 1))) as (sp & Hsp & _ & _).
    { apply byte_at_range. }
    rewrite Hsp in *. wp_go; simplify_eq. apply (HQ _ 2); [|done|congruence].
    by replace (c + 2) with (c + 1 + 1) by lia.
  - destruct (one_byte_lookup (byte_at bs c)) as (sp & Hsp & _ & _).
    { apply byte_at_range. }
    rewrite Hsp in *. wp_go; simplify_eq. by apply (HQ _ 1).
Qed.

Lemma resolve_group_spec c sp s Q E :
  at_ bs c s → 0 ≤ c < 20 → (sse_entry sp → E Aborted s) →
  (¬ sse_entry sp → Q (resolved sp (byte_at bs c)) s) →
  wp (resolve_group sp) Q E s.
Proof using Hbs.
  intros Hat Hc HE HQ. unfold resolve_group, sse_entry, resolved in *. cbv zeta.
  fold (in_group (X86_INSN_FLAG_GET_GROUP (flags sp))). apply wp_bind, wp_when.
  { rewrite Z.ltb_lt. intros H. by apply wp_fail, HE. }
  rewrite Z.ltb_ge. intros Hsse. specialize (HQ ltac:(lia)). cbv beta.
  apply wp_if; intros Hin; rewrite Hin in HQ; [|by apply wp_ret].
  wp_step. eapply (peek_byte_spec bs); [done..|lia|].
  unfold in_group in Hin. rewrite andb_true_iff, !Z.ltb_lt in Hin.
  destruct (modrm_group_lookup (X86_INSN_FLAG_GET_GROUP (flags sp)) (byte_at bs c))
    as (insns & gi & Hg & Hgi); [done|]. rewrite Hg in HQ |- *. simpl in HQ. rewrite Hgi in HQ.
  wp_go; simplify_eq/=. all: try done; try congruence.
Qed.

Lemma x86_insn_decode_opcode_spec mode c s Q E :
  at_ bs c s → 0 ≤ c → c + 3 ≤ 20 →
  (∀ s' k opc sp, table_entry bs c = Some (k, opc, sp) → sse_entry sp → E Aborted s') →
  (∀ s' k opc sp, at_ bs (c + k) s' → table_entry bs c = Some (k, opc, sp) → ¬ sse_entry sp →
    insn s' = with_opcode opc (resolved sp (byte_at bs (c + k))) (insn s) → Q tt s') →
  wp (x86_insn_decode_opcode mode) Q E s.
Proof using Hbs.
  intros Hat Hc Hroom HE HQ. unfold x86_insn_decode_opcode. wp_step.
  eapply read_opcode_spec; [done|lia..|]. intros s1 k opc sp Hat1 Hk Hi1. cbv beta.
  pose proof (table_entry_room _ _ _ _ Hk) as Hroom'.
  wp_step. eapply resolve_group_spec; [done|unfold entry_room in Hroom'; lia|by eapply HE|].
  intros Hsse. by eapply (HQ _ k opc sp); [..|simpl; rewrite Hi1].
Qed.

End stages2.

(** *** Updates that leave the reader and [core] alone *)

Definition keeps (s s' : decode_state) : Prop :=
  rd s' = rd s ∧ core (insn s') = core (insn s) ∧
  displacement_offset (insn s') = displacement_offset (insn s).

(** ... and also the base register of the memory operand. *)
Definition mem_base1 (i : x86_insn_decode_t) : option Z :=
  (base ∘ mem) <$> insn_operands i !! 1%nat.
Definition keeps_base (s s' : decode_state) : Prop :=
  keeps s s' ∧ mem_base1 (insn s') = mem_base1 (insn s).

#[export] Instance keeps_preorder : PreOrder keeps.
Proof.
  split; [done|]. intros s1 s2 s3 (? & ? & ?) (? & ? & ?). repeat split; congruence.
Qed.
#[export] Instance keeps_base_preorder : PreOrder keeps_base.
Proof.
  split; [done|]. intros s1 s2 s3 [? ?] [? ?]. split; [by etrans|congruence].
Qed.
#[export] Instance keeps_of_base {A} (m : D A) :
  Preserves keeps_base m → Preserves keeps m.
Proof. intros Hm s. eapply wp_wand; [apply Hm|]. by intros _ s' [? _]. Qed.

Lemma preserves_update R f :
  (∀ s, R s (set_insn (f (insn s)) s)) → Preserves R (update_insn f).
Proof. intros H. by apply preserves_modify. Qed.

#[export] Instance or_flags_keeps v : Preserves keeps_base (or_flags v).
Proof. apply preserves_update. intros s. repeat split. Qed.
#[export] Instance with_flags_keeps v : Preserves keeps_base (update_insn (with_flags v)).
Proof. apply preserves_update. intros s. repeat split. Qed.
#[export] Instance with_modrm_keeps v : Preserves keeps_base (update_insn (with_modrm v)).
Proof. apply preserves_update. intros s. repeat split. Qed.
#[export] Instance with_sib_keeps v : Preserves keeps_base (update_insn (with_sib v)).
Proof. apply preserves_update. intros s. repeat split. Qed.

(** An update of operand [k] that keeps the base of a memory operand. *)
Lemma operand_keeps k g :
  Preserves keeps (update_insn (λ i, with_operands (alter g k (insn_operands i)) i)).
Proof.
  apply preserves_update. intros s. repeat split. unfold core. simpl. by rewrite length_alter.
Qed.
Lemma operand_keeps_base k g :
  (∀ o, base (mem (g o)) = base (mem o)) →
  Preserves keeps_base (update_insn (λ i, with_operands (alter g k (insn_operands i)) i)).
Proof.
  intros Hg. apply preserves_update. intros s. split.
  { repeat split. unfold core. simpl. by rewrite length_alter. }
  unfold mem_base1. simpl. rewrite list_lookup_alter. case_decide as Hk; [subst k|done].
  destruct (insn_operands (insn s) !! 1%nat); simpl; [|done]. unfold compose. by rewrite Hg.
Qed.

#[export] Instance set_operand_reg_keeps k v : Preserves keeps_base (set_operand_reg k v).
Proof. by apply operand_keeps_base. Qed.
#[export] Instance set_mem_base_keeps k v : Preserves keeps (set_mem_base k v).
Proof. apply operand_keeps. Qed.
#[export] Instance set_mem_index_keeps k v : Preserves keeps_base (set_mem_index k v).
Proof. by apply operand_keeps_base. Qed.
#[export] Instance set_mem_scale_keeps k v : Preserves keeps_base (set_mem_scale k v).
Proof. by apply operand_keeps_base. Qed.
#[export] Instance set_mem_disp_keeps k v : Preserves keeps_base (set_mem_disp k v).
Proof. by apply operand_keeps_base. Qed.

(** *** The address forms *)

(** The displacement width [mod] and [rm] select. *)
Definition mod_disp (mod_ rm : Z) : Z :=
  if (mod_ =? 0) && ((rm & 7) =? 5) then 32
  else if mod_ =? 0 then 0 else if mod_ =? 1 then 8 else if mod_ =? 2 then 32 else 0.

(** The base register number the decoder stores for a SIB byte. *)
Definition sib_base_reg (rex sib : Z) : Z := u8 (sib_base sib .| (REX_B rex << 3)).

(** The displacement width after the SIB byte. *)
Definition sib_disp (eab rex sib mod_ d : Z) : Z :=
  let b := sib_base_reg rex sib in
  if (if eab =? 64 then (b =? RBP) || (b =? R13) else if eab =? 32 then b =? RBP else false)
  then (if mod_ =? 1 then 8 else 32) else d.

(** The displacement width of the 32 and 64-bit forms, and the bytes before
    the displacement. *)
Definition address_disp (eab rex mod_ rm sib : Z) : Z :=
  if (rm & 7) =? 4 then sib_disp eab rex sib mod_ (mod_disp mod_ rm) else mod_disp mod_ rm.
Definition sib_size (rm : Z) : Z := if (rm & 7) =? 4 then 1 else 0.

(** ... and of the 16-bit forms: 255 is the initial value the code leaves in
    place. *)
Definition address16_disp (m : Z) : Z :=
  if (modrm_mode m =? 0) && (modrm_rm m =? 6) then 16
  else if modrm_mode m =? 0 then 255 else if modrm_mode m =? 1 then 8 else 16.

Lemma length3 {A} (l : list A) : length l = 3%nat → ∃ a b c, l = [a; b; c].
Proof. destruct l as [|a [|b [|c [|? ?]]]]; naive_solver. Qed.

Section stages3.
Context (bs : list Z) (Hbs : length bs = 20%nat).
Implicit Types (s : decode_state) (E : fault → decode_state → Prop).

Lemma at_keeps c s s' : at_ bs c s → keeps s s' → at_ bs c s'.
Proof. intros (? & ? & ?) (Hr & _). unfold at_. by rewrite Hr. Qed.

Lemma decode_mod_disp_spec mod_ rm s Q E :
  (∀ s', keeps s s' → Q (mod_disp mod_ rm) s') → wp (decode_mod_disp mod_ rm) Q E s.
Proof.
  intros HQ. unfold decode_mod_disp, mod_disp in *.
  repeat case_match; try (apply wp_ret, HQ; done).
  apply wp_bind, (wp_preserves keeps); [apply _|]. intros _ s1 H1. cbv beta.
  apply wp_bind, (wp_preserves keeps); [apply _|]. intros _ s2 H2. apply wp_ret, HQ.
  by etrans.
Qed.

Lemma set_mem_base_spec v s Q E :
  length (insn_operands (insn s)) = 3%nat →
  (∀ s', keeps s s' → mem_base1 (insn s') = Some v → Q tt s') →
  wp (set_mem_base 1 v) Q E s.
Proof.
  intros Hlen HQ. destruct (length3 _ Hlen) as (o0 & o1 & o2 & Hops).
  apply wp_modify, HQ.
  - repeat split. unfold core. simpl. by rewrite length_alter.
  - unfold mem_base1. simpl. by rewrite Hops.
Qed.

Lemma get_mem_base_spec v s Q E :
  mem_base1 (insn s) = Some v → Q v s → wp (get_mem_base 1) Q E s.
Proof.
  unfold mem_base1, get_mem_base. rewrite fmap_Some. intros (o & Ho & ->) HQ.
  wp_go; by simplify_eq/=.
Qed.

Lemma decode_sib_base_spec bases mod_ d v s Q E :
  mem_base1 (insn s) = Some v →
  (∀ s', keeps s s' → Q (if existsb (Z.eqb v) bases then (if mod_ =? 1 then 8 else 32) else d) s') →
  wp (decode_sib_base bases mod_ d) Q E s.
Proof.
  intros Hv HQ. unfold decode_sib_base. apply wp_bind. eapply get_mem_base_spec; [done|].
  cbv beta. destruct (existsb _ _); [|by apply wp_ret, HQ].
  apply wp_bind, (wp_preserves keeps); [apply _|]. intros _ s' Hs'. by apply wp_ret, HQ.
Qed.


Definition same_core (s s' : decode_state) : Prop :=
  core (insn s') = core (insn s) ∧
  displacement_offset (insn s') = displacement_offset (insn s).

Lemma core_operands i i' :
  core i' = core i → length (insn_operands i') = length (insn_operands i).
Proof. unfold core. congruence. Qed.
Lemma core_rex i i' : core i' = core i → insn_rex i' = insn_rex i.
Proof. unfold core. congruence. Qed.
Lemma core_prefix i i' : core i' = core i → insn_prefix i' = insn_prefix i.
Proof. unfold core. congruence. Qed.
Lemma core_spec i i' : core i' = core i → insn_spec i' = insn_spec i.
Proof. unfold core. congruence. Qed.
Lemma core_immediate_offset i i' : core i' = core i → immediate_offset i' = immediate_offset i.
Proof. unfold core. congruence. Qed.
Lemma core_immediate i i' : core i' = core i → immediate i' = immediate i.
Proof. unfold core. congruence. Qed.

Definition has_base (v : Z) (s s' : decode_state) : Prop :=
  keeps s s' ∧ mem_base1 (insn s') = Some v.

Lemma has_base_step v s s1 s2 : has_base v s s1 → keeps_base s1 s2 → has_base v s s2.
Proof. intros [H1 Hb] [H2 Hb2]. split; [by etrans|congruence]. Qed.

Lemma decode_sib_spec eab mod_ d c s Q E :
  at_ bs c s → 0 ≤ c < 20 → length (insn_operands (insn s)) = 3%nat →
  (∀ s', at_ bs (c + 1) s' → same_core s s' →
    Q (sib_disp eab (insn_rex (insn s)) (byte_at bs c) mod_ d) s') →
  wp (decode_sib eab mod_ d) Q E s.
Proof using Hbs.
  intros Hat Hc Hlen HQ. unfold decode_sib.
  apply wp_bind. eapply (read_uint8_spec bs); [done..|]. intros s1 Hat1 Hi1. cbv beta.
  set (sib := byte_at bs c) in *.
  apply wp_bind, (wp_preserves keeps); [apply _|]. intros _ s2 Hk2. cbv beta.
  apply wp_bind, wp_get. cbv zeta.
  assert (Hcore2 : core (insn s2) = core (insn s)) by (destruct Hk2 as (_ & -> & _); congruence).
  assert (insn_rex (insn s2) = insn_rex (insn s)) as -> by (by apply core_rex).
  fold (sib_base_reg (insn_rex (insn s)) sib).
  apply wp_bind, (wp_preserves keeps); [apply _|]. intros _ s3 Hk3. cbv beta.
  apply wp_bind, (wp_preserves keeps); [apply _|]. intros _ s4 Hk4. cbv beta.
  apply wp_bind. apply set_mem_base_spec.
  { destruct Hk3 as (_ & Hc3 & _), Hk4 as (_ & Hc4 & _).
    by rewrite (core_operands _ _ Hc4), (core_operands _ _ Hc3), (core_operands _ _ Hcore2). }
  intros s5 Hk5 Hb5. cbv beta.
  assert (Hb : has_base (sib_base_reg (insn_rex (insn s)) sib) s1 s5).
  { split; [|done]. repeat (etrans; [done|]). done. }
  clear Hb5 Hk5.
  do 3 (apply wp_bind, (wp_preserves keeps_base); [apply _|]; intros _ ? Hkb;
    eapply has_base_step in Hkb; [|exact Hb]; clear Hb; rename Hkb into Hb; cbv beta).
  destruct Hb as [Hk Hb].
  assert (Hfin : ∀ s6 s7, keeps s6 s7 → keeps s1 s6 → at_ bs (c + 1) s7 ∧ same_core s s7).
  { intros s6 s7 H67 H16. assert (keeps s1 s7) as H17 by (by etrans).
    split; [by eapply at_keeps|]. destruct H17 as (_ & Hc17 & Hd17). split; congruence. }
  unfold sib_disp in HQ. apply wp_bind.
  destruct (eab =? 64) eqn:He64.
  - apply Z.eqb_eq in He64. subst eab. simpl in *.
    apply wp_bind. eapply decode_sib_base_spec; [done|]. intros s6 Hk6. cbv beta.
    apply wp_bind, (wp_preserves keeps); [apply _|]. intros _ s7 Hk7.
    do 2 apply wp_ret. destruct (Hfin s6 s7) as [? ?]; [done|by etrans|].
    cbn [existsb]. rewrite orb_false_r. by apply HQ.
  - apply wp_ret. destruct (eab =? 32) eqn:He32.
    + eapply decode_sib_base_spec; [done|]. intros s6 Hk6. cbn [existsb]. rewrite orb_false_r.
      destruct (Hfin _ s6 Hk6) as [? ?]; [done|]. by apply HQ.
    + apply wp_ret. destruct (Hfin _ _ (reflexivity _) Hk) as [? ?]. by apply HQ.
Qed.


Lemma same_core_keeps s s1 s2 : keeps s s1 → same_core s1 s2 → same_core s s2.
Proof. intros (_ & Hc & Hd) [? ?]. split; congruence. Qed.

Lemma decode_address_32_64_spec eab mod_ rm c s Q E :
  at_ bs c s → 0 ≤ c < 20 → length (insn_operands (insn s)) = 3%nat →
  (∀ s', at_ bs (c + sib_size rm) s' → same_core s s' →
    Q (address_disp eab (insn_rex (insn s)) mod_ rm (byte_at bs c)) s') →
  wp (decode_address_32_64 eab mod_ rm) Q E s.
Proof using Hbs.
  intros Hat Hc Hlen HQ. unfold decode_address_32_64.
  apply wp_bind, (wp_preserves keeps); [apply _|]. intros _ s1 Hk1. cbv beta.
  apply wp_bind, (wp_preserves keeps); [apply _|]. intros _ s2 Hk2. cbv beta.
  apply wp_bind, decode_mod_disp_spec. intros s3 Hk3. cbv beta.
  assert (Hk : keeps s s3) by (do 2 (etrans; [done|]); done).
  pose proof Hk as (_ & Hcore & _).
  unfold address_disp, sib_size in HQ. apply wp_if; intros Hsib; rewrite Hsib in HQ.
  - eapply decode_sib_spec; [by eapply at_keeps|done|by rewrite (core_operands _ _ Hcore)|].
    intros s4 Hat4 Hsc. rewrite (core_rex _ _ Hcore). apply HQ; [done|].
    by eapply same_core_keeps.
  - apply wp_ret. rewrite Z.add_0_r in HQ. apply HQ; [by eapply at_keeps|].
    by destruct Hk as (_ & ? & ?).
Qed.

Lemma decode_address_16_spec m d s Q E :
  (∀ s', keeps s s' →
    Q (if (modrm_mode m =? 0) && (modrm_rm m =? 6) then 16
       else if modrm_mode m =? 0 then d else if modrm_mode m =? 1 then 8 else 16) s') →
  wp (decode_address_16 m d) Q E s.
Proof.
  intros HQ. unfold decode_address_16. apply wp_if; intros H6; rewrite H6 in HQ.
  { apply wp_ret. by apply HQ. }
  apply wp_bind, (wp_preserves keeps); [apply _|]. intros _ s1 Hk1. apply wp_ret.
  specialize (HQ _ Hk1). by destruct (modrm_mode m =? 0).
Qed.

(** The displacement of the memory operand. *)
Definition mem_disp1 (i : x86_insn_decode_t) : option Z := (disp ∘ mem) <$> insn_operands i !! 1%nat.

(** A displacement of [d] bits was read at [c]. *)
Definition displaced (c d : Z) (s s' : decode_state) : Prop :=
  core (insn s') = core (insn s) ∧
  if d =? 0 then displacement_offset (insn s') = displacement_offset (insn s)
  else displacement_offset (insn s') = c ∧ mem_disp1 (insn s') = Some (u32 (number_at bs c d)).

Lemma decode_displacement_spec d c s Q E :
  at_ bs c s → 0 ≤ c ≤ 20 → d = 0 ∨ d = 8 ∨ d = 16 ∨ d = 32 ∨ d = 255 → (d ≠ 255 → c + d / 8 ≤ 20) →
  length (insn_operands (insn s)) = 3%nat → (d = 255 → ∀ s', E Aborted s') →
  (∀ s', d ≠ 255 → at_ bs (c + d / 8) s' → displaced c d s s' → Q tt s') →
  wp (decode_displacement d) Q E s.
Proof using Hbs.
  intros Hat Hc Hd Hroom Hlen HE HQ. unfold decode_displacement.
  apply wp_when; [|intros Hd0; apply HQ].
  - rewrite negb_true_iff, Z.eqb_neq. intros Hd0.
    apply wp_bind. eapply (reader_offset_spec bs); [done..|]. cbv beta.
    apply wp_bind, wp_modify. cbv beta. apply wp_bind.
    eapply (x86_insn_decode_number_spec bs); [done|exact Hat|lia| | |].
    { unfold number_width, number_size. intros Hin. apply Hroom. lia. }
    { unfold number_width. intros Hin. apply HE. lia. }
    intros s' Hin Hat' Hi'. cbv beta.
    assert (Hstep : number_step d = d / 8).
    { unfold number_step. case_match eqn:E64; [|done]. apply Z.eqb_eq in E64. lia. }
    apply wp_modify. apply HQ; [unfold number_width in Hin; lia|by rewrite <- Hstep|].
    destruct (length3 _ Hlen) as (o0 & o1 & o2 & Hops).
    assert ((d =? 0) = false) as Hd0' by by apply Z.eqb_neq.
    unfold displaced. simpl. rewrite Hd0', Hi'. unfold core, mem_disp1. simpl. rewrite Hops. simpl.
    rewrite (wrap_small 8 c) by lia. done.
  - apply negb_false_iff, Z.eqb_eq in Hd0. lia.
  - apply negb_false_iff, Z.eqb_eq in Hd0. subst d. by rewrite Z.add_0_r.
  - unfold displaced. apply negb_false_iff in Hd0. by rewrite Hd0.
Qed.

End stages3.

(** The effective address width the decoder uses in mode 32 or 64. *)
Definition address_bits (mode prefix : Z) : Z :=
  let override := truthy (prefix & INSN_PREFIX_ADDRESS_SIZE) in
  if mode =? 64 then (if override then 32 else 64) else (if override then 16 else 32).

(** The register numbers of a ModR/M byte under a REX byte. *)
Definition rm_reg (rex m : Z) : Z := u8 ((REX_B rex << 3) .| modrm_rm m).

(** The displacement width of a ModR/M byte [m] followed by [sib], and the
    bytes from [m] to the displacement. *)
Definition modrm_disp (eab rex m sib : Z) : Z :=
  if modrm_mode m =? 3 then 0
  else if eab =? 16 then address16_disp m
  else address_disp eab rex (modrm_mode m) (rm_reg rex m) sib.
Definition modrm_pre (eab rex m : Z) : Z :=
  if modrm_mode m =? 3 then 1
  else if eab =? 16 then 1 else 1 + sib_size (rm_reg rex m).

Lemma address_disp_cases eab rex mod_ rm sib :
  let d := address_disp eab rex mod_ rm sib in d = 0 ∨ d = 8 ∨ d = 32.
Proof. unfold address_disp, sib_disp, mod_disp. cbv zeta. repeat case_match; auto. Qed.

Lemma modrm_disp_cases eab rex m sib :
  let d := modrm_disp eab rex m sib in
  d = 0 ∨ d = 8 ∨ d = 16 ∨ d = 32 ∨ d = 255.
Proof.
  unfold modrm_disp, address16_disp. cbv zeta.
  pose proof (address_disp_cases eab rex (modrm_mode m) (rm_reg rex m) sib) as H. cbv zeta in H.
  repeat case_match; lia.
Qed.

Lemma modrm_disp_size eab rex m sib :
  let d := modrm_disp eab rex m sib in d ≠ 255 → 0 ≤ d / 8 ≤ 4.
Proof.
  cbv zeta. destruct (modrm_disp_cases eab rex m sib) as [-> | [-> | [-> | [-> | ->]]]]; vm_compute; intuition congruence.
Qed.

Lemma modrm_pre_bounds eab rex m : 1 ≤ modrm_pre eab rex m ≤ 2.
Proof. unfold modrm_pre, sib_size. repeat case_match; lia. Qed.

Section stages4.
Context (bs : list Z) (Hbs : length bs = 20%nat).
Implicit Types (s : decode_state) (E : fault → decode_state → Prop).

Lemma effective_address_bits_spec mode s Q E :
  mode = 32 ∨ mode = 64 → Q (address_bits mode (insn_prefix (insn s))) s →
  wp (effective_address_bits mode) Q E s.
Proof.
  intros Hmode HQ. unfold effective_address_bits. apply wp_bind, wp_get. cbv zeta.
  unfold address_bits in HQ. destruct Hmode as [-> | ->]; simpl in *; by apply wp_ret.
Qed.

Lemma displaced_from c d s s1 s2 : same_core s s1 → displaced bs c d s1 s2 → displaced bs c d s s2.
Proof.
  intros [Hc Hd] [Hc2 H2]. split; [congruence|]. destruct (d =? 0); [congruence|done].
Qed.

Lemma x86_insn_decode_modrm_sib_spec mode c s Q E :
  mode = 32 ∨ mode = 64 → at_ bs c s → 0 ≤ c → c + 6 ≤ 20 →
  length (insn_operands (insn s)) = 3%nat →
  let rex := insn_rex (insn s) in
  let eab := address_bits mode (insn_prefix (insn s)) in
  let d := modrm_disp eab rex (byte_at bs c) (byte_at bs (c + 1)) in
  let p := c + modrm_pre eab rex (byte_at bs c) in
  (d = 255 → ∀ s', E Aborted s') →
  (∀ s', d ≠ 255 → at_ bs (p + d / 8) s' → displaced bs p d s s' → Q tt s') →
  wp (x86_insn_decode_modrm_sib mode) Q E s.
Proof using Hbs.
  intros Hmode Hat Hc Hroom Hlen rex eab d p HE HQ. unfold x86_insn_decode_modrm_sib.
  pose proof (modrm_disp_cases eab rex (byte_at bs c) (byte_at bs (c + 1))) as Hd.
  pose proof (modrm_pre_bounds eab rex (byte_at bs c)) as Hpre. simpl in Hd. fold d in Hd.
  apply wp_bind. eapply (read_uint8_spec bs); [done..|lia|]. intros s1 Hat1 Hi1. cbv beta.
  set (m := byte_at bs c) in *.
  pose proof (modrm_disp_size eab rex m (byte_at bs (c + 1))) as Hsize. cbv zeta in Hsize. fold d in Hsize.
  assert (Hdeq : d = modrm_disp eab rex m (byte_at bs (c + 1))) by done.
  assert (Hpeq : p = c + modrm_pre eab rex m) by done.
  clearbody d p. assert (Hpb : c + 1 ≤ p ≤ c + 2) by lia. clear Hpre.
  unfold modrm_disp, modrm_pre in Hdeq, Hpeq.
  apply wp_bind, (wp_preserves keeps); [apply _|]. intros _ s2 Hk2. cbv beta.
  apply wp_bind, wp_get. cbv zeta.
  apply wp_bind, (wp_preserves keeps); [apply _|]. intros _ s3 Hk3. cbv beta.
  assert (Hcore2 : core (insn s2) = core (insn s)) by (destruct Hk2 as (_ & ? & _); congruence).
  rewrite (core_rex _ _ Hcore2). fold rex. fold (rm_reg rex m).
  assert (Hk13 : keeps s1 s3) by by etrans.
  apply wp_if; intros Hm3.
  { apply (wp_preserves keeps); [apply _|]. intros [] s4 Hk4.
    assert (keeps s1 s4) as Hk14 by by etrans.
    rewrite Hm3 in Hdeq, Hpeq. subst d p. apply HQ; [done| |].
    - rewrite Z.div_0_l, Z.add_0_r by done. by eapply at_keeps.
    - destruct Hk14 as (_ & ? & ?). split; simpl; congruence. }
  apply wp_bind, (wp_preserves keeps); [apply _|]. intros _ s4 Hk4. cbv beta.
  assert (Hk14 : keeps s1 s4) by by etrans.
  assert (Hsc4 : same_core s s4) by (destruct Hk14 as (_ & ? & ?); split; congruence).
  destruct (Hsc4) as [Hcore4 _].
  apply wp_bind, effective_address_bits_spec; [done|]. cbv beta.
  rewrite (core_prefix _ _ Hcore4). fold eab.
  assert (Hfin : ∀ s5, at_ bs p s5 → same_core s s5 → wp (decode_displacement d) Q E s5).
  { intros s5 Hat5 Hsc5. eapply (decode_displacement_spec bs); [done|done|lia|done| | |done|].
    - intros Hd255. specialize (Hsize Hd255). lia.
    - destruct Hsc5 as [Hcore5 _]. by rewrite (core_operands _ _ Hcore5).
    - intros s6 Hd255 Hat6 Hdis. apply HQ; [done|done|by eapply displaced_from]. }
  apply wp_bind. destruct ((eab =? 32) || (eab =? 64)) eqn:He.
  - assert ((eab =? 16) = false) as H16.
    { apply orb_true_iff in He as [He|He]; apply Z.eqb_eq in He; by rewrite He. }
    eapply (decode_address_32_64_spec bs); [done|by eapply at_keeps|lia| |].
    { by rewrite (core_operands _ _ Hcore4). }
    intros s5 Hat5 Hsc5. cbv beta. rewrite H16. apply wp_bind, wp_ret.
    rewrite (core_rex _ _ Hcore4). fold rex.
    rewrite Hm3, H16 in Hdeq, Hpeq. rewrite <- Hdeq. apply Hfin.
    + rewrite Hpeq. by replace (c + (1 + sib_size (rm_reg rex m))) with (c + 1 + sib_size (rm_reg rex m)) by lia.
    + destruct Hsc4, Hsc5. split; congruence.
  - assert (eab = 16) as H16.
    { unfold eab, address_bits in *. repeat case_match; done. }
    rewrite H16 in *. simpl. apply wp_ret. apply wp_bind.
    apply decode_address_16_spec. intros s5 Hk5. cbv beta.
    rewrite Hm3 in Hdeq, Hpeq. simpl in Hdeq, Hpeq. unfold address16_disp in Hdeq.
    rewrite <- Hdeq. apply Hfin.
    + rewrite Hpeq. eapply at_keeps; [by eapply at_keeps|done].
    + destruct Hsc4, Hk5 as (_ & ? & ?). split; congruence.
Qed.

End stages4.

(** *** The immediate stage *)

Lemma imm_bits_cases sp ob b :
  ob = 16 ∨ ob = 32 ∨ ob = 64 → x86_insn_imm_bits sp ob = Ret b →
  b = 0 ∨ number_width b ∧ 0 < number_size b ≤ max_imm sp.
Proof.
  unfold x86_insn_imm_bits, max_imm. intros Hob.
  destruct (x86_insn_immediate_type sp) as [t|]; [|done]. intros [= <-].
  unfold number_width, number_size.
  destruct Hob as [-> | [-> | ->]]; simpl;
    repeat case_match; repeat match goal with H : (_ =? _) = true |- _ => apply Z.eqb_eq in H; subst end;
    try discriminate; try (by left); right; (split; [lia|vm_compute; intuition congruence]).
Qed.

Lemma effective_operand_bits_cases mode i :
  let b := effective_operand_bits mode i in b = 16 ∨ b = 32 ∨ b = 64.
Proof. unfold effective_operand_bits. cbv zeta. repeat case_match; auto. Qed.

(** An immediate of [b] bits was read at [c] ([b] = 0: none). *)
Definition immediated (bs : list Z) (c b : Z) (i i' : x86_insn_decode_t) : Prop :=
  if b =? 0 then i' = i
  else i' = with_immediate (number_at bs c b) (with_immediate_offset c i).
Definition imm_step (b : Z) : Z := if b =? 0 then 0 else number_step b.

Section stages5.
Context (bs : list Z) (Hbs : length bs = 20%nat).
Implicit Types (s : decode_state) (E : fault → decode_state → Prop).

Lemma has_immediate_type sp :
  x86_insn_has_immediate sp = true → ∃ t, x86_insn_immediate_type sp = Ret t.
Proof.
  unfold x86_insn_has_immediate, x86_insn_immediate_type.
  destruct (List.find _ _) as [o|] eqn:Hf; [eauto|].
  intros (o & Hin & Ho)%existsb_exists. by pose proof (List.find_none _ _ Hf o Hin); congruence.
Qed.

Lemma x86_insn_decode_immediate_spec mode c s Q E :
  at_ bs c s → 0 ≤ c ≤ 20 → c + max_imm (insn_spec (insn s)) ≤ 20 →
  x86_insn_has_immediate (insn_spec (insn s)) = true →
  (∀ s' b, x86_insn_imm_bits (insn_spec (insn s)) (effective_operand_bits mode (insn s)) = Ret b →
    b = 0 ∨ number_width b → at_ bs (c + imm_step b) s' → c + imm_step b ≤ 20 →
    immediated bs c b (insn s) (insn s') → Q tt s') →
  wp (x86_insn_decode_immediate mode) Q E s.
Proof using Hbs.
  intros Hat Hc Hroom Himm HQ. unfold x86_insn_decode_immediate. apply wp_bind, wp_get.
  destruct (has_immediate_type _ Himm) as [t Ht].
  destruct (x86_insn_imm_bits _ _) as [b|e] eqn:Hb;
    [|unfold x86_insn_imm_bits in Hb; by rewrite Ht in Hb].
  pose proof Hb as Hbits. apply imm_bits_cases in Hb; [|apply effective_operand_bits_cases].
  apply wp_when; rewrite ?negb_true_iff, ?negb_false_iff; intros Hb0.
  - apply Z.eqb_neq in Hb0 as Hb0'. destruct Hb as [->|[Hw Hsz]]; [done|].
    apply wp_bind. eapply (reader_offset_spec bs); [done..|]. cbv beta.
    apply wp_bind, wp_modify. cbv beta. apply wp_bind.
    eapply (x86_insn_decode_number_spec bs); [done|exact Hat|lia|lia|done|].
    intros s' _ Hat' Hi'. cbv beta. apply wp_modify.
    assert (number_step b ≤ number_size b) as Hstep.
    { unfold number_step, number_size. destruct Hw as [-> | [-> | [-> | ->]]]; vm_compute; congruence. }
    apply (HQ _ b); [done|by right|unfold imm_step; by rewrite Hb0|unfold imm_step; rewrite Hb0; lia|].
    + unfold immediated. rewrite Hb0. simpl. rewrite Hi', (wrap_small 8 c) by lia. done.
  - apply Z.eqb_eq in Hb0. subst b.
    apply (HQ _ 0); [done|by left|..|done]; unfold imm_step; simpl; rewrite Z.add_0_r; [done|lia].
Qed.

End stages5.

(** ** The whole decoder *)

(** What a successful decode of the buffer [bs] from instruction [i] leaves:
    prefixes, REX, opcode, address form, displacement and immediate follow
    each other, and the length is the end of the last one. *)
Definition decoded (bs : list Z) (mode : Z) (i i' : x86_insn_decode_t) : Prop :=
  let run := legacy_run mode bs in
  let d0 := Z.of_nat (length run) in
  let c0 := d0 + rex_size mode (byte_at bs d0) in
  let eab := address_bits mode (insn_prefix i') in
  ∃ k sp p d b,
    insn_prefix i' = foldl Z.lor 0 (map legacy_prefix run) ∧
    insn_rex i' = insn_rex (apply_rex mode (byte_at bs d0) i) ∧
    table_entry bs c0 = Some (k, primary_opcode i', sp) ∧
    insn_spec i' = resolved sp (byte_at bs (c0 + k)) ∧ ¬ sse_entry sp ∧
    (if x86_insn_has_modrm_byte sp then
       p = c0 + k + modrm_pre eab (insn_rex i') (byte_at bs (c0 + k)) ∧
       d = modrm_disp eab (insn_rex i') (byte_at bs (c0 + k)) (byte_at bs (c0 + k + 1)) ∧ d ≠ 255
     else p = c0 + k ∧ d = 0 ∧ insn_flags i' = insn_flags (apply_rex mode (byte_at bs d0) i)) ∧
    (if x86_insn_has_immediate sp then
       x86_insn_imm_bits (insn_spec i') (effective_operand_bits mode i') = Ret b
     else b = 0) ∧
    (b = 0 ∨ number_width b) ∧
    insn_length i' = p + d / 8 + imm_step b ∧ insn_length i' ≤ 20 ∧
    (if d =? 0 then displacement_offset i' = displacement_offset i
     else displacement_offset i' = p ∧ mem_disp1 i' = Some (u32 (number_at bs p d))) ∧
    (if b =? 0 then immediate_offset i' = immediate_offset i ∧ immediate i' = immediate i
     else immediate_offset i' = p + d / 8 ∧ immediate i' = number_at bs (p + d / 8) b).

(** The two forms the decoder gives up on with assert(0): an SSE group opcode
    and a 16-bit memory operand without displacement. *)
Definition unsupported (bs : list Z) (mode : Z) (i : x86_insn_decode_t) : Prop :=
  let run := legacy_run mode bs in
  let d0 := Z.of_nat (length run) in
  let c0 := d0 + rex_size mode (byte_at bs d0) in
  let eab := address_bits mode (foldl Z.lor 0 (map legacy_prefix run)) in
  let rex := insn_rex (apply_rex mode (byte_at bs d0) i) in
  ∃ k opc sp,
    table_entry bs c0 = Some (k, opc, sp) ∧
    (sse_entry sp ∨ x86_insn_has_modrm_byte sp = true ∧
       modrm_disp eab rex (byte_at bs (c0 + k)) (byte_at bs (c0 + k + 1)) = 255).
Definition gives_up (bs : list Z) (mode : Z) (i : x86_insn_decode_t) (e : fault)
    (_ : decode_state) : Prop :=
  e = Aborted ∧ unsupported bs mode i.

Lemma imm_step_nonneg b : b = 0 ∨ number_width b → 0 ≤ imm_step b.
Proof.
  unfold imm_step, number_step. intros [-> | [-> | [-> | [-> | ->]]]]; vm_compute; congruence.
Qed.

Lemma has_modrm_operands sp sp' :
  operands sp' = operands sp →
  x86_insn_has_modrm_byte sp' = x86_insn_has_modrm_byte sp ∧
  x86_insn_has_immediate sp' = x86_insn_has_immediate sp ∧ max_imm sp' = max_imm sp.
Proof.
  unfold x86_insn_has_modrm_byte, x86_insn_has_immediate, max_imm, x86_insn_immediate_type.
  by intros ->.
Qed.

Lemma entry_imm_room k sp :
  entry_room k sp →
  (x86_insn_has_modrm_byte sp = true → k + max_imm sp ≤ 5) ∧ max_imm sp ≤ 8.
Proof.
  unfold entry_room, modrm_imm_le. intros H. split.
  - intros Hm. rewrite Hm in H. simpl in H. rewrite !Z.leb_le in H. lia.
  - unfold max_imm. repeat case_match; lia.
Qed.

Section body.
Context (bs : list Z) (Hbs : length bs = 20%nat).

(** The immediate and the length, from the end [e] of the address stage. *)
Lemma decode_tail_spec mode s e (Q : unit → decode_state → Prop) E :
  at_ bs e s → 0 ≤ e ≤ 20 →
  (x86_insn_has_immediate (insn_spec (insn s)) = true → e + max_imm (insn_spec (insn s)) ≤ 20) →
  (∀ s' i1 b,
    (if x86_insn_has_immediate (insn_spec (insn s)) then
       x86_insn_imm_bits (insn_spec (insn s)) (effective_operand_bits mode (insn s)) = Ret b
     else b = 0) →
    (b = 0 ∨ number_width b) → e + imm_step b ≤ 20 →
    immediated bs e b (insn s) i1 → insn s' = with_length (e + imm_step b) i1 → Q tt s') →
  wp (when (x86_insn_has_immediate (insn_spec (insn s))) (x86_insn_decode_immediate mode);;
      off ← reader_offset; update_insn (with_length off)) Q E s.
Proof using Hbs.
  intros Hat Hr Hroom HQ. apply wp_bind, wp_when; intros Hhas; rewrite Hhas in HQ.
  - eapply (x86_insn_decode_immediate_spec bs); [done|done|done|by apply Hroom|done|].
    intros s' b Hbits Hb Hat' Hle Himm. apply wp_bind. pose proof (imm_step_nonneg _ Hb).
    eapply (reader_offset_spec bs); [done..|lia|]. apply wp_modify.
    by apply (HQ _ (insn s') b).
  - apply wp_bind. eapply (reader_offset_spec bs); [done..|]. apply wp_modify.
    apply (HQ _ (insn s) 0); try done; try (by left); unfold imm_step; simpl;
      rewrite Z.add_0_r; [lia|done].
Qed.

Lemma x86_insn_decode_body_spec mode s :
  mode = 32 ∨ mode = 64 → at_ bs 0 s → length (insn_operands (insn s)) = 3%nat →
  (length (legacy_run mode bs) ≤ 8)%nat →
  wp (x86_insn_decode_body mode) (λ _ s', decoded bs mode (insn s) (insn s'))
    (gives_up bs mode (insn s)) s.
Proof using Hbs.
  intros Hmode Hat Hlen Hrun. unfold x86_insn_decode_body, decoded, gives_up, unsupported. cbv zeta.
  set (d0 := Z.of_nat (length (legacy_run mode bs))).
  assert (Hrexsz : 0 ≤ rex_size mode (byte_at bs d0) ≤ 1) by (unfold rex_size; case_match; lia).
  apply wp_bind. eapply (x86_insn_decode_prefix_correct bs); [done..|lia|]. fold d0.
  intros s1 Hat1 Hi1. cbv beta. apply wp_bind, wp_modify. cbv beta.
  apply wp_bind. eapply (x86_insn_decode_opcode_spec bs); [done|exact Hat1|lia|lia| |].
  { intros s' k opc sp Hk Hsse. split; [done|]. exists k, opc, sp. auto. }
  intros s2 k opc sp Hat2 Hk Hsse Hi2. cbv beta. apply wp_bind, wp_get. cbv zeta.
  pose proof (table_entry_room _ _ _ _ _ Hk) as Hkr.
  destruct (entry_imm_room _ _ Hkr) as [Hroom1 Hroom2].
  set (c0 := d0 + rex_size mode (byte_at bs d0)) in *.
  set (sp' := resolved sp (byte_at bs (c0 + k))) in *.
  destruct (has_modrm_operands sp sp') as (Hhm & Hhi & Hmax); [apply resolved_operands|].
  assert (Hc : 0 ≤ c0 ≤ 9 ∧ 1 ≤ k ≤ 2) by (unfold entry_room in Hkr; lia).
  simpl in Hi2. rewrite Hi1 in Hi2. set (i1 := apply_rex mode (byte_at bs d0) (insn s)) in *.
  assert (Hi1' : length (insn_operands i1) = 3%nat ∧ immediate_offset i1 = immediate_offset (insn s) ∧
    immediate i1 = immediate (insn s) ∧ displacement_offset i1 = displacement_offset (insn s)).
  { unfold i1, apply_rex. by repeat case_match. }
  destruct Hi1' as (Hlen1 & Hio1 & Him1 & Hdo1).
  assert (Hsp2 : insn_spec (insn s2) = sp') by by rewrite Hi2.
  rewrite Hsp2. apply wp_bind, wp_when; intros Hmod; rewrite Hhm in Hmod.
  - eapply (x86_insn_decode_modrm_sib_spec bs); [done|done|exact Hat2|lia|lia|by rewrite Hi2| |].
    { intros Hd255 s'. split; [done|]. exists k, opc, sp. rewrite Hi2 in Hd255. auto. }
    cbv zeta. intros s3 Hd255 Hat3 [Hcore3 Hdis3]. cbv beta. rewrite Hi2 in *. simpl in *.
    match type of Hat3 with at_ _ (_ + ?pp + ?dd / 8) _ => set (pre := pp) in *; set (d := dd) in * end.
    assert (Hdsz : 0 ≤ d / 8 ≤ 4) by by apply modrm_disp_size.
    assert (Hpre : 1 ≤ pre ≤ 2) by apply modrm_pre_bounds.
    assert (Hsp3 : insn_spec (insn s3) = sp') by (rewrite (core_spec _ _ Hcore3); done).
    rewrite <- Hsp3. specialize (Hroom1 Hmod).
    eapply decode_tail_spec; [done|lia|rewrite Hsp3, Hmax; lia|].
    rewrite Hsp3, Hhi. intros s4 i4 b Hbits Hb Hle Himm ->.
    exists k, sp, (c0 + k + pre), d, b. unfold core in Hcore3.
    injection Hcore3 as Hio3 Him3 Hlen3 Hpf3 Hrex3 Hopc3 _.
    unfold immediated in Himm. destruct (b =? 0) eqn:Hb0; rewrite Himm; simpl.
    all: rewrite Hpf3, Hrex3, Hopc3, Hmod, Hsp3; split_and!; try done.
    all: try (by destruct (d =? 0); [rewrite Hdis3|]); congruence.
  - cbv beta. rewrite <- Hsp2.
    eapply decode_tail_spec; [exact Hat2|lia|rewrite Hsp2, Hmax; lia|].
    rewrite Hsp2, Hhi. intros s4 i4 b Hbits Hb Hle Himm ->.
    exists k, sp, (c0 + k), 0, b. rewrite Hmod. change (0 =? 0) with true. cbv iota.
    change (0 / 8) with 0. rewrite Z.add_0_r.
    unfold immediated in Himm. rewrite Hi2 in Himm, Hbits. simpl in Himm.
    destruct (b =? 0) eqn:Hb0; rewrite Himm; simpl; by split_and!.
Qed.

End body.

(** The reader's buffer: the first 15 bytes of the code, then [int3]s. *)
Definition reader_buffer (code : list Z) : list Z := take 15 code ++ replicate 5 0xcc.

Lemma reader_buffer_length code : (15 ≤ length code)%nat → length (reader_buffer code) = 20%nat.
Proof.
  intros. unfold reader_buffer. rewrite length_app, length_take, length_replicate. lia.
Qed.

Lemma x86_insn_decode_spec i code mode :
  mode = 32 ∨ mode = 64 → (15 ≤ length code)%nat → length (insn_operands i) = 3%nat →
  (length (legacy_run mode (reader_buffer code)) ≤ 8)%nat →
  match x86_insn_decode i code mode with
  | Ret i' => decoded (reader_buffer code) mode i i'
  | Err e => e = Aborted ∧ unsupported (reader_buffer code) mode i
  end.
Proof.
  intros Hmode Hcode Hops Hrun. unfold x86_insn_decode, init_reader.
  change (15 <? READER_BUFFER_SIZE) with true. cbv iota.
  destruct (Z.ltb_spec (Z.of_nat (length code)) 15) as [|_]; [lia|]. cbv iota.
  change (take (Z.to_nat 15) code ++ replicate (Z.to_nat (READER_BUFFER_SIZE - 15)) 204)
    with (reader_buffer code).
  pose proof (x86_insn_decode_body_spec (reader_buffer code) (reader_buffer_length _ Hcode) mode
    (DState (Reader true (reader_buffer code) 0 0 0 0) i) Hmode) as H.
  unfold wp in H. destruct (x86_insn_decode_body _ _) as [[[]|e] s']; by apply H.
Qed.
