(* ===== verification/X86Correct.v ===== *)
(** * What the x86 decoder promises

    Totality, layout, prefixes, agreement of the instruction length with the
    Intel manual and its exceptions, for [x86_insn_decode] as a whole. *)

From S2P Require Import Prelude X86Spec X86Tables X86Decode X86Props.

#[local] Open Scope cint_scope.

(** ** The encoding by the manual (Intel SDM volume 2, 64-bit mode)

    Written from tables 2-2, 2-3 and A-2, A-3, independently of the decoder's
    tables. *)

Definition in_range (a b x : Z) : bool := (a <=? x) && (x <=? b).
Definition one_of (l : list Z) (x : Z) : bool := existsb (Z.eqb x) l.

(** One-byte opcodes followed by a ModR/M byte. *)
Definition manual_modrm (b : Z) : bool :=
  (in_range 0 0x3f b && (b & 7 <? 4)) || in_range 0x80 0x8f b || in_range 0xd0 0xd3 b ||
  in_range 0xd8 0xdf b ||
  one_of [0x63; 0x69; 0x6b; 0xc0; 0xc1; 0xc6; 0xc7; 0xf6; 0xf7; 0xfe; 0xff] b.

(** Bytes of immediate, without an operand-size prefix; [w] is REX.W. *)
Definition manual_imm (w : bool) (b : Z) : Z :=
  if in_range 0 0x3f b then (if b & 7 =? 4 then 1 else if b & 7 =? 5 then 4 else 0)
  else if in_range 0xb8 0xbf b then (if w then 8 else 4)
  else if in_range 0x70 0x7f b || in_range 0xb0 0xb7 b || in_range 0xe0 0xe7 b ||
    one_of [0x6a; 0x6b; 0x80; 0x83; 0xa8; 0xc0; 0xc1; 0xc6; 0xcd; 0xeb] b then 1
  else if one_of [0x68; 0x69; 0x81; 0xa9; 0xc7; 0xe8; 0xe9] b then 4
  else if one_of [0xc2; 0xca] b then 2
  else if b =? 0xc8 then 3
  else if in_range 0xa0 0xa3 b then 8
  else 0.

(** One-byte opcodes that mean nothing in 64-bit mode. *)
Definition manual_invalid (b : Z) : bool :=
  one_of [0x06; 0x07; 0x0e; 0x16; 0x17; 0x1e; 0x1f; 0x27; 0x2f; 0x37; 0x3f; 0x60; 0x61; 0x62;
    0x82; 0x9a; 0xc4; 0xc5; 0xce; 0xd4; 0xd5; 0xd6; 0xea] b.

(** Two-byte opcodes: the valid ones outside the SSE, group 6, 7, 9, 10, 15,
    16, P and no-op rows. *)
Definition manual2_plain (b : Z) : bool :=
  in_range 0x20 0x23 b || in_range 0x30 0x35 b || in_range 0x40 0x4f b ||
  in_range 0x80 0xa5 b || in_range 0xa8 0xad b || in_range 0xaf 0xb7 b ||
  in_range 0xba 0xc1 b || in_range 0xc8 0xcf b ||
  one_of [0x02; 0x03; 0x05; 0x06; 0x07; 0x08; 0x09; 0x0b; 0xc3] b.
Definition manual2_modrm (b : Z) : bool :=
  in_range 0x20 0x23 b || in_range 0x40 0x4f b || in_range 0x90 0x9f b ||
  in_range 0xaf 0xc1 b || one_of [0x02; 0x03; 0xa3; 0xa4; 0xa5; 0xab; 0xac; 0xad; 0xc3] b.
Definition manual2_imm (b : Z) : Z :=
  if in_range 0x80 0x8f b then 4 else if one_of [0xa4; 0xac; 0xba] b then 1 else 0.

(** Displacement bits and bytes up to the displacement of a ModR/M byte [m]
    followed by [sib]. *)
Definition manual_disp (m sib : Z) : Z :=
  if modrm_mode m =? 0 then
    if modrm_rm m =? 5 then 32
    else if (modrm_rm m =? 4) && (sib_base sib =? 5) then 32 else 0
  else if modrm_mode m =? 1 then 8 else if modrm_mode m =? 2 then 32 else 0.
Definition manual_pre (m : Z) : Z :=
  if negb (modrm_mode m =? 3) && (modrm_rm m =? 4) then 2 else 1.

(** The SIB forms whose displacement the decoder misjudges: it compares the
    base with the numbers of RBP and R13 in an enumeration that starts at 1. *)
Definition sib_misjudged (eab rex m sib : Z) : bool :=
  (modrm_mode m =? 0) && (modrm_rm m =? 4) &&
  one_of (if eab =? 64 then [5; 13; 7; 14] else [5; 13; 7]) (sib_base_reg rex sib).

(** *** The decoder's address forms against it *)

Lemma land_cases (z w : Z) : 0 ≤ w → 0 ≤ Z.land z (Z.ones w) < 2 ^ w.
Proof. intros. rewrite Z.land_ones by done. apply Z.mod_pos_bound. lia. Qed.

Definition range (n : nat) : list Z := map Z.of_nat (seq 0 n).
Lemma elem_of_range n z : 0 ≤ z < Z.of_nat n → List.In z (range n).
Proof.
  intros Hz. apply in_map_iff. exists (Z.to_nat z). split; [lia|]. apply in_seq. lia.
Qed.

(** The address size by the fields alone. *)
Definition fields_disp (eab mode rm base b : Z) : Z :=
  if mode =? 3 then 0
  else
    let r := u8 ((b << 3) .| rm) in
    let s := u8 (base .| (b << 3)) in
    if r & 7 =? 4 then
      if (if eab =? 64 then (s =? RBP) || (s =? R13) else if eab =? 32 then s =? RBP else false)
      then (if mode =? 1 then 8 else 32) else mod_disp mode r
    else mod_disp mode r.

Definition fields_check (eab mode rm base b : Z) : bool :=
  let manual :=
    if mode =? 0 then
      if rm =? 5 then 32 else if (rm =? 4) && (base =? 5) then 32 else 0
    else if mode =? 1 then 8 else if mode =? 2 then 32 else 0 in
  let bad := (mode =? 0) && (rm =? 4) &&
    one_of (if eab =? 64 then [5; 13; 7; 14] else [5; 13; 7]) (u8 (base .| (b << 3))) in
  Bool.eqb (fields_disp eab mode rm base b =? manual) (negb bad) &&
  ((if mode =? 3 then 1 else 1 + sib_size (u8 ((b << 3) .| rm))) =?
   (if negb (mode =? 3) && (rm =? 4) then 2 else 1)).

Lemma fields_checked :
  forallb (λ eab, forallb (λ mode, forallb (λ rm, forallb (λ base, forallb (λ b,
    fields_check eab mode rm base b) (range 2)) (range 8)) (range 8)) (range 4)) [32; 64] = true.
Proof. vm_compute. done. Qed.

Lemma modrm_fields m :
  0 ≤ modrm_mode m < 4 ∧ 0 ≤ modrm_rm m < 8.
Proof.
  unfold modrm_mode, modrm_rm. change 3 with (Z.ones 2). change 7 with (Z.ones 3).
  pose proof (land_cases (m >> 6) 2). pose proof (land_cases m 3). lia.
Qed.

Lemma sib_fields sib rex : 0 ≤ sib_base sib < 8 ∧ 0 ≤ REX_B rex < 2.
Proof.
  unfold sib_base, REX_B. rewrite Z.shiftr_0_r. change 1 with (Z.ones 1). change 7 with (Z.ones 3).
  pose proof (land_cases sib 3). pose proof (land_cases rex 1). lia.
Qed.

(** ModR/M, SIB and displacement as the manual says, but for the misjudged
    SIB forms. *)
Lemma modrm_manual eab rex m sib :
  eab = 32 ∨ eab = 64 →
  (modrm_disp eab rex m sib = manual_disp m sib ↔ sib_misjudged eab rex m sib = false) ∧
  modrm_pre eab rex m = manual_pre m.
Proof.
  intros Heab. pose proof fields_checked as H.
  destruct (modrm_fields m) as [Hmode Hrm], (sib_fields sib rex) as [Hbase Hb].
  rewrite forallb_forall in H. specialize (H eab ltac:(destruct Heab; subst; simpl; auto)).
  rewrite forallb_forall in H. specialize (H _ (elem_of_range 4 _ Hmode)).
  rewrite forallb_forall in H. specialize (H _ (elem_of_range 8 _ Hrm)).
  rewrite forallb_forall in H. specialize (H _ (elem_of_range 8 _ Hbase)).
  rewrite forallb_forall in H. specialize (H _ (elem_of_range 2 _ Hb)).
  unfold fields_check in H. apply andb_true_iff in H as [H1 H2].
  apply eqb_prop in H1. apply Z.eqb_eq in H2.
  assert (E16 : (eab =? 16) = false) by (by destruct Heab; subst).
  unfold modrm_disp, modrm_pre, address_disp, sib_disp. rewrite E16.
  fold (sib_base_reg rex sib) in H1. split; [|exact H2].
  change (fields_disp eab (modrm_mode m) (modrm_rm m) (sib_base sib) (REX_B rex) =
    manual_disp m sib ↔ sib_misjudged eab rex m sib = false).
  rewrite <- Z.eqb_eq, <- negb_true_iff. unfold manual_disp, sib_misjudged. by rewrite H1.
Qed.

(** *** The tables against it *)

(** One-byte opcodes the table gets wrong: moffs (A0 to A3), ENTER, the x87
    escapes and groups 3 and 5. *)
Definition table_wrong (b : Z) : bool :=
  in_range 0xa0 0xa3 b || in_range 0xd8 0xdf b || one_of [0xc8; 0xf6; 0xf7; 0xff] b.

Definition imm_bytes (sp : x86_insn_spec_t) (ob : Z) : Z :=
  if x86_insn_has_immediate sp then
    match x86_insn_imm_bits sp ob with Ret b => b / 8 | Err _ => -1 end
  else 0.

(** The opcode is one of the table, and the manual, with [k] bytes. *)
Definition entry_known (k opc : Z) : bool :=
  if k =? 1 then negb (manual_invalid opc || table_wrong opc)
  else manual2_plain opc.
Definition entry_modrm (k opc : Z) : bool :=
  if k =? 1 then manual_modrm opc else manual2_modrm opc.
Definition entry_imm (w : bool) (k opc : Z) : Z :=
  if k =? 1 then manual_imm w opc else manual2_imm opc.

Definition entry_agrees (k opc : Z) (sp : x86_insn_spec_t) : bool :=
  implb (entry_known k opc)
    (Bool.eqb (x86_insn_has_modrm_byte sp) (entry_modrm k opc) &&
     (imm_bytes sp 32 =? entry_imm false k opc) && (imm_bytes sp 64 =? entry_imm true k opc) &&
     implb (x86_insn_has_modrm_byte sp)
       ((entry_imm true k opc =? entry_imm false k opc) && (entry_imm false k opc <? 8)) &&
     implb (in_group (X86_INSN_FLAG_GET_GROUP (flags sp)) ||
            truthy (flags sp & X86_INSN_SPEC_DEFAULT_64_BIT))
       (entry_imm true k opc =? entry_imm false k opc) &&
     negb (X86_INSN_SSE_GROUP_START <? X86_INSN_FLAG_GET_GROUP (flags sp))).

Lemma one_byte_agrees :
  forallb (λ b, match x86_opcode_map_one_byte !! Z.to_nat b with
                | Some sp => entry_agrees 1 b sp | None => false end) (range 256) = true.
Proof. vm_compute. done. Qed.

Lemma two_byte_agrees :
  forallb (λ b, match x86_opcode_map_two_byte !! Z.to_nat b with
                | Some sp => entry_agrees 2 b sp | None => false end) (range 256) = true.
Proof. vm_compute. done. Qed.

Lemma table_agrees bs c k opc sp :
  table_entry bs c = Some (k, opc, sp) → entry_agrees k opc sp = true.
Proof.
  unfold table_entry. destruct (byte_at bs c =? 0x0f); intros H.
  - pose proof two_byte_agrees as Ha. rewrite forallb_forall in Ha.
    specialize (Ha (byte_at bs (c + 1)) (elem_of_range 256 _ (byte_at_range _ _))).
    destruct (x86_opcode_map_two_byte !! _) as [sp'|]; [|done]. by injection H as <- <- <-.
  - pose proof one_byte_agrees as Ha. rewrite forallb_forall in Ha.
    specialize (Ha (byte_at bs c) (elem_of_range 256 _ (byte_at_range _ _))).
    destruct (x86_opcode_map_one_byte !! _) as [sp'|]; [|done]. by injection H as <- <- <-.
Qed.

(** *** Operand size *)

Lemma foldl_lor_testbit (f : Z → Z) l acc n :
  Z.testbit (foldl Z.lor acc (map f l)) n =
  Z.testbit acc n || existsb (λ c, Z.testbit (f c) n) l.
Proof.
  revert acc. induction l as [|c l IH]; intros acc; simpl; [by rewrite orb_false_r|].
  by rewrite IH, Z.lor_spec, orb_assoc.
Qed.

Lemma truthy_land_pow2 a n : 0 ≤ n → truthy (Z.land a (2 ^ n)) = Z.testbit a n.
Proof.
  intros Hn. unfold truthy. destruct (Z.testbit a n) eqn:Ha.
  - apply negb_true_iff, Z.eqb_neq. intros H0.
    assert (Z.testbit (Z.land a (2 ^ n)) n = false) as E by (by rewrite H0, Z.bits_0).
    rewrite Z.land_spec, Ha, Z.pow2_bits_true in E; done.
  - apply negb_false_iff, Z.eqb_eq, Z.bits_inj_0. intros m. rewrite Z.land_spec.
    destruct (decide (m = n)) as [->|]; [by rewrite Ha|].
    by rewrite Z.pow2_bits_false, andb_false_r.
Qed.

Lemma legacy_prefix_operand_size c : Z.testbit (legacy_prefix c) 9 = (c =? 0x66).
Proof.
  unfold legacy_prefix.
  repeat match goal with
  | |- context [if ?b then _ else _] => destruct b eqn:?
  end; repeat match goal with H : (_ =? _) = true |- _ => apply Z.eqb_eq in H; subst end;
    vm_compute; by repeat case_match.
Qed.

Lemma no_operand_size_prefix run :
  0x66 ∉ run →
  truthy (foldl Z.lor 0 (map legacy_prefix run) & INSN_PREFIX_OPERAND_SIZE) = false.
Proof.
  intros Hrun. change INSN_PREFIX_OPERAND_SIZE with (2 ^ 9). rewrite truthy_land_pow2 by done.
  rewrite foldl_lor_testbit, Z.bits_0, orb_false_l. apply not_true_iff_false.
  intros (c & Hin & Hc)%existsb_exists. cbv beta in Hc. rewrite legacy_prefix_operand_size, Z.eqb_eq in Hc.
  subst c. by apply Hrun, list_elem_of_In.
Qed.

Lemma imm_bits_resolved sp m ob :
  x86_insn_imm_bits (resolved sp m) ob = x86_insn_imm_bits sp ob.
Proof.
  unfold x86_insn_imm_bits, x86_insn_immediate_type. by rewrite resolved_operands.
Qed.

(** The REX.W bit of the byte at [d0], in 64-bit mode. *)
Definition rex_w (b : Z) : bool := is_rex 64 b && truthy (REX_W b).

Lemma rex_w_flags b :
  truthy (insn_flags (apply_rex 64 b zero_insn) & X86_INSN_DECODE_FLAG_OPERAND_SIZE_64) = rex_w b.
Proof. unfold apply_rex, rex_w. by destruct (is_rex 64 b), (truthy (REX_W b)). Qed.

(** The bytes of immediate of a known entry: the manual's, whatever the
    decoder makes of the operand size. *)
Lemma known_imm k opc sp bs c m b0 i b :
  table_entry bs c = Some (k, opc, sp) → entry_known k opc = true →
  insn_spec i = resolved sp m →
  truthy (insn_prefix i & INSN_PREFIX_OPERAND_SIZE) = false →
  (x86_insn_has_modrm_byte sp = false → insn_flags i = insn_flags (apply_rex 64 b0 zero_insn)) →
  (if x86_insn_has_immediate sp then
     x86_insn_imm_bits (insn_spec i) (effective_operand_bits 64 i) = Ret b else b = 0) →
  b / 8 = entry_imm (rex_w b0) k opc.
Proof.
  intros Hk Hkn Hsp Hpre Hfl Hb. pose proof (table_agrees _ _ _ _ _ Hk) as H.
  unfold entry_agrees in H. rewrite Hkn in H. simpl in H.
  rewrite !andb_true_iff in H. destruct H as [[[[[_ H32] H64] Hmod] Hgrp] _].
  apply Z.eqb_eq in H32, H64.
  set (ob := effective_operand_bits 64 i) in *.
  assert (Hib : b / 8 = imm_bytes sp ob).
  { unfold imm_bytes. destruct (x86_insn_has_immediate sp); [|by subst b].
    rewrite Hsp, imm_bits_resolved in Hb. by rewrite Hb. }
  rewrite Hib. clear Hib Hb.
  assert (ob = 32 ∨ ob = 64) as Hob.
  { unfold ob, effective_operand_bits. rewrite Hpre. repeat case_match; auto. }
  assert (Hsame : entry_imm true k opc = entry_imm false k opc →
    imm_bytes sp ob = entry_imm (rex_w b0) k opc).
  { intros He. destruct Hob as [-> | ->], (rex_w b0); congruence. }
  destruct (x86_insn_has_modrm_byte sp) eqn:Hm.
  { apply andb_true_iff in Hmod as [Hmod _]. by apply Hsame, Z.eqb_eq. }
  destruct (in_group _ || truthy _) eqn:Hg; [by apply Hsame, Z.eqb_eq|].
  apply orb_false_iff in Hg as [Hg Hd64].
  assert (ob = if rex_w b0 then 64 else 32) as ->.
  { unfold ob, effective_operand_bits. rewrite Hpre, (Hfl eq_refl), rex_w_flags, Hsp.
    unfold resolved. rewrite Hg, Hd64, andb_false_r. done. }
  by destruct (rex_w b0).
Qed.

(** ** The shape of an instruction in a buffer *)

Lemma rex_size_bounds mode b : 0 ≤ rex_size mode b ≤ 1.
Proof. unfold rex_size. destruct (is_rex mode b); lia. Qed.

Definition prefix_end (mode : Z) (bs : list Z) : Z := Z.of_nat (length (legacy_run mode bs)).
Definition opcode_start (mode : Z) (bs : list Z) : Z :=
  prefix_end mode bs + rex_size mode (byte_at bs (prefix_end mode bs)).
Definition opcode_size (bs : list Z) (c : Z) : Z := if byte_at bs c =? 0x0f then 2 else 1.
Definition opcode_at (bs : list Z) (c : Z) : Z :=
  if byte_at bs c =? 0x0f then byte_at bs (c + 1) else byte_at bs c.

Lemma table_entry_opcode bs c k opc sp :
  table_entry bs c = Some (k, opc, sp) → k = opcode_size bs c ∧ opc = opcode_at bs c.
Proof.
  unfold table_entry, opcode_size, opcode_at. destruct (byte_at bs c =? 0x0f); intros H.
  - by destruct (x86_opcode_map_two_byte !! _); [|done]; injection H as <- <- <-.
  - by destruct (x86_opcode_map_one_byte !! _); [|done]; injection H as <- <- <-.
Qed.

(** The length of the instruction in [bs] by the manual, where it has no
    operand-size prefix. *)
Definition manual_length (bs : list Z) : Z :=
  let c := opcode_start 64 bs in
  let k := opcode_size bs c in
  let opc := opcode_at bs c in
  let m := byte_at bs (c + k) in
  c + k + (if entry_modrm k opc then manual_pre m + manual_disp m (byte_at bs (c + k + 1)) / 8
           else 0) +
  entry_imm (rex_w (byte_at bs (prefix_end 64 bs))) k opc.

(** Instructions the decoder measures wrong: MOV r64, imm64, and the misjudged
    SIB forms. *)
Definition measured_wrong (bs : list Z) : bool :=
  let c := opcode_start 64 bs in
  let k := opcode_size bs c in
  let opc := opcode_at bs c in
  let d := byte_at bs (prefix_end 64 bs) in
  let eab := address_bits 64 (foldl Z.lor 0 (map legacy_prefix (legacy_run 64 bs))) in
  (entry_imm (rex_w d) k opc =? 8) ||
  (entry_modrm k opc &&
   sib_misjudged eab (insn_rex (apply_rex 64 d zero_insn)) (byte_at bs (c + k))
     (byte_at bs (c + k + 1))).

Lemma entry_imm_modrm bs c k opc sp w :
  table_entry bs c = Some (k, opc, sp) → entry_known k opc = true →
  x86_insn_has_modrm_byte sp = entry_modrm k opc ∧
  (entry_modrm k opc = true → entry_imm w k opc ≠ 8).
Proof.
  intros Hk Hkn. pose proof (table_agrees _ _ _ _ _ Hk) as H.
  unfold entry_agrees in H. rewrite Hkn in H. simpl in H.
  rewrite !andb_true_iff in H. destruct H as [[[[[H1 _] _] H2] _] _].
  apply eqb_prop in H1. rewrite H1 in H2. split; [done|]. intros Hm. rewrite Hm in H2.
  apply andb_true_iff in H2 as [H2 H8]. apply Z.eqb_eq in H2. apply Z.ltb_lt in H8.
  destruct w; lia.
Qed.

Lemma disp_div8 a b :
  (a = 0 ∨ a = 8 ∨ a = 32) → (b = 0 ∨ b = 8 ∨ b = 32) → (a / 8 = b / 8 ↔ a = b).
Proof. intros [-> | [-> | ->]] [-> | [-> | ->]]; vm_compute; intuition congruence. Qed.

Lemma manual_disp_cases m sib :
  manual_disp m sib = 0 ∨ manual_disp m sib = 8 ∨ manual_disp m sib = 32.
Proof. unfold manual_disp. repeat case_match; auto. Qed.

Lemma modrm_disp_cases64 eab rex m sib :
  eab = 32 ∨ eab = 64 →
  let d := modrm_disp eab rex m sib in d = 0 ∨ d = 8 ∨ d = 32.
Proof.
  intros Heab. cbv zeta. unfold modrm_disp. case_match; [auto|].
  destruct Heab as [-> | ->]; simpl; apply address_disp_cases.
Qed.

Lemma address_bits_64 p : address_bits 64 p = 32 ∨ address_bits 64 p = 64.
Proof. unfold address_bits. simpl. case_match; auto. Qed.

(** The length a successful decode reports, against the manual's. *)
Lemma decoded_length bs i' :
  decoded bs 64 zero_insn i' →
  entry_known (opcode_size bs (opcode_start 64 bs)) (opcode_at bs (opcode_start 64 bs)) = true →
  0x66 ∉ legacy_run 64 bs →
  insn_length i' = manual_length bs ↔ measured_wrong bs = false.
Proof.
  intros Hdec Hkn H66. unfold decoded in Hdec. cbv zeta in Hdec.
  destruct Hdec as (k & sp & p & d & b & Hpre & Hrex & Hk & Hsp & _ & Hmod & Himm & Hb & Hlen & _).
  fold (prefix_end 64 bs) in *. fold (opcode_start 64 bs) in *.
  destruct (table_entry_opcode _ _ _ _ _ Hk) as [Hks Hopc].
  unfold manual_length, measured_wrong. rewrite <- Hks, <- Hopc in *.
  set (c := opcode_start 64 bs) in *. set (w := rex_w (byte_at bs (prefix_end 64 bs))).
  destruct (entry_imm_modrm _ _ _ _ _ w Hk Hkn) as [Hhm Hi8].
  rewrite <- Hpre, <- Hrex. rewrite Hhm in Hmod.
  assert (Hbits : b / 8 = entry_imm w k (primary_opcode i')).
  { eapply known_imm; [exact Hk|done|exact Hsp|by rewrite Hpre; apply no_operand_size_prefix| |exact Himm].
    rewrite Hhm. intros E. rewrite E in Hmod. apply Hmod. }
  assert (Hstep : imm_step b = if b =? 64 then 4 else b / 8).
  { unfold imm_step, number_step. by destruct Hb as [-> | [-> | [-> | [-> | ->]]]]. }
  assert (Hb8 : (entry_imm w k (primary_opcode i') =? 8) = (b =? 64)).
  { rewrite <- Hbits. by destruct Hb as [-> | [-> | [-> | [-> | ->]]]]. }
  rewrite Hb8, <- Hbits, Hlen, Hstep. destruct (entry_modrm k (primary_opcode i')) eqn:Hem.
  - assert ((b =? 64) = false) as ->.
    { rewrite <- Hb8. by apply Z.eqb_neq, Hi8. }
    destruct Hmod as (-> & Hd & _). simpl.
    destruct (modrm_manual (address_bits 64 (insn_prefix i')) (insn_rex i') (byte_at bs (c + k))
      (byte_at bs (c + k + 1)) (address_bits_64 _)) as [Hdisp ->].
    rewrite <- Hd in Hdisp. rewrite <- Hdisp.
    rewrite <- (disp_div8 d); [lia|rewrite Hd; by apply modrm_disp_cases64, address_bits_64|].
    apply manual_disp_cases.
  - destruct Hmod as (-> & -> & _). rewrite orb_false_r.
    change (0 / 8) with 0. destruct (Z.eqb_spec b 64) as [->|].
    + change (64 / 8) with 8. split; [lia|done].
    + split; [done|lia].
Qed.

(** *** Known opcodes always decode *)

Lemma decoded_or_gives_up i code :
  (15 ≤ length code)%nat → length (insn_operands i) = 3%nat →
  (length (legacy_run 64 (reader_buffer code)) ≤ 8)%nat →
  entry_known (opcode_size (reader_buffer code) (opcode_start 64 (reader_buffer code)))
    (opcode_at (reader_buffer code) (opcode_start 64 (reader_buffer code))) = true →
  ∃ i', x86_insn_decode i code 64 = Ret i' ∧ decoded (reader_buffer code) 64 i i'.
Proof.
  intros Hcode Hops Hrun Hkn.
  pose proof (x86_insn_decode_spec i code 64 (or_intror eq_refl) Hcode Hops Hrun) as H.
  destruct (x86_insn_decode i code 64) as [i'|e]; [by eauto|]. exfalso.
  destruct H as (_ & k & opc & sp & Hk & Hbad).
  fold (prefix_end 64 (reader_buffer code)) in *. fold (opcode_start 64 (reader_buffer code)) in *.
  destruct (table_entry_opcode _ _ _ _ _ Hk) as [Hks Hopc]. rewrite <- Hks, <- Hopc in Hkn.
  pose proof (table_agrees _ _ _ _ _ Hk) as Ha. unfold entry_agrees in Ha. rewrite Hkn in Ha.
  simpl in Ha. rewrite !andb_true_iff in Ha. destruct Ha as [_ Hsse].
  apply negb_true_iff, Z.ltb_ge in Hsse. destruct Hbad as [Hbad|[_ Hbad]].
  - unfold sse_entry in Hbad. lia.
  - match type of Hbad with modrm_disp ?e ?r ?m ?s = _ =>
      pose proof (modrm_disp_cases64 e r m s (address_bits_64 _)) as Hd end.
    cbv zeta in Hd. lia.
Qed.

Lemma byte_at_reader code p :
  (15 ≤ length code)%nat → 0 ≤ p < 15 → byte_at (reader_buffer code) p = byte_at code p.
Proof.
  intros Hcode Hp. unfold byte_at, reader_buffer.
  by rewrite lookup_app_l, lookup_take_lt by (rewrite ?length_take; lia).
Qed.

Lemma number_at_reader code p b :
  (15 ≤ length code)%nat → number_width b → 0 ≤ p → p + b / 8 ≤ 15 →
  number_at (reader_buffer code) p b = number_at code p b.
Proof.
  intros Hcode Hb Hp Hroom. unfold number_at.
  destruct Hb as [-> | [-> | [-> | ->]]]; simpl;
    match type of Hroom with context [?a / 8] => let x := eval vm_compute in (a / 8) in
      change (a / 8) with x in Hroom end;
    by rewrite !byte_at_reader by lia.
Qed.

(** ** Properties *)

(** The instruction state a decode starts from, in the witnesses below:
    LEA RAX, [RIP + 0x11223344] with REX.W and a segment override. *)
Definition lea_code : list Z :=
  [0x2e; 0x48; 0x8d; 0x05; 0x44; 0x33; 0x22; 0x11; 0xc3; 0; 0; 0; 0; 0; 0].

(** C39: with at most eight legacy prefixes the decoder never reads outside its
    20-byte buffer and never fails but by the assert(0) of the two unsupported
    forms (an SSE group opcode, a 16-bit operand without displacement);
    otherwise it returns a length of 1 to 20. *)
Theorem x86_insn_decode_total mode i code :
  mode = 32 ∨ mode = 64 → (15 ≤ length code)%nat → length (insn_operands i) = 3%nat →
  (length (legacy_run mode (reader_buffer code)) ≤ 8)%nat →
  (∃ i', x86_insn_decode i code mode = Ret i' ∧ 1 ≤ insn_length i' ≤ 20) ∨
  (x86_insn_decode i code mode = Err Aborted ∧ unsupported (reader_buffer code) mode i).
Proof.
  intros Hmode Hcode Hops Hrun. pose proof (x86_insn_decode_spec i code mode Hmode Hcode Hops Hrun) as H.
  destruct (x86_insn_decode i code mode) as [i'|e]; [left|right; destruct H as [-> ?]; done].
  exists i'. split; [done|]. unfold decoded in H. cbv zeta in H.
  destruct H as (k & sp & p & d & b & _ & _ & Hk & _ & _ & Hmod & _ & Hb & Hlen & Hle & _).
  split; [|done]. pose proof (imm_step_nonneg b Hb). apply table_entry_room in Hk.
  pose proof (rex_size_bounds mode (byte_at (reader_buffer code)
    (Z.of_nat (length (legacy_run mode (reader_buffer code)))))) as Hrex.
  unfold entry_room in Hk. destruct (x86_insn_has_modrm_byte sp).
  - destruct Hmod as (-> & Hd & Hd255). rewrite Hd in Hd255. rewrite <- Hd in Hd255.
    match type of Hd with d = modrm_disp ?e ?r ?m ?s =>
      pose proof (modrm_disp_size e r m s) as Hs; pose proof (modrm_pre_bounds e r m) end.
    cbv zeta in Hs. rewrite <- Hd in Hs. specialize (Hs Hd255). lia.
  - destruct Hmod as (-> & -> & _). change (0 / 8) with 0 in *. lia.
Qed.

Lemma x86_insn_decode_total_witness :
  ∃ i', x86_insn_decode zero_insn lea_code 64 = Ret i' ∧ 1 ≤ insn_length i' ≤ 20.
Proof.
  destruct (x86_insn_decode_total 64 zero_insn lea_code) as [H|[H _]];
    [by right|vm_compute; lia|done|vm_compute; lia|exact H|].
  exfalso. revert H. vm_compute. discriminate.
Defined.

(** a decode that returns has laid the instruction out as prefixes, REX,
    opcode, ModR/M and SIB, displacement, immediate: the offsets it records are
    those of the displacement and the immediate, their values the
    little-endian bytes there, and the length the end of the last part. *)
Theorem x86_insn_decode_layout mode i code i' :
  mode = 32 ∨ mode = 64 → (15 ≤ length code)%nat → length (insn_operands i) = 3%nat →
  (length (legacy_run mode (reader_buffer code)) ≤ 8)%nat →
  x86_insn_decode i code mode = Ret i' → decoded (reader_buffer code) mode i i'.
Proof.
  intros Hmode Hcode Hops Hrun Hret.
  pose proof (x86_insn_decode_spec i code mode Hmode Hcode Hops Hrun) as H. by rewrite Hret in H.
Qed.

Lemma x86_insn_decode_layout_witness :
  ∃ i', x86_insn_decode zero_insn lea_code 64 = Ret i' ∧ displacement_offset i' = 4 ∧
    mem_disp1 i' = Some 0x11223344 ∧ insn_length i' = 8 ∧
    decoded (reader_buffer lea_code) 64 zero_insn i'.
Proof.
  eexists. split; [vm_compute; reflexivity|]. split_and!; [reflexivity..|].
  apply (x86_insn_decode_layout 64 zero_insn lea_code);
    [by right|vm_compute; lia|reflexivity|vm_compute; lia|vm_compute; reflexivity].
Defined.



(** the prefix word of a decoded instruction has exactly the bits of the
    legacy prefixes of the maximal run the code starts with, and its REX byte
    is the one that follows that run in 64-bit mode, if there is one. *)
Theorem x86_insn_decode_prefixes mode i code i' :
  mode = 32 ∨ mode = 64 → (15 ≤ length code)%nat → length (insn_operands i) = 3%nat →
  (length (legacy_run mode (reader_buffer code)) ≤ 8)%nat →
  x86_insn_decode i code mode = Ret i' →
  (∀ n, Z.testbit (insn_prefix i') n =
     existsb (λ c, Z.testbit (legacy_prefix c) n) (legacy_run mode (reader_buffer code))) ∧
  insn_rex i' =
    (let b := byte_at code (prefix_end mode (reader_buffer code)) in
     if is_rex mode b then b else insn_rex i).
Proof.
  intros Hmode Hcode Hops Hrun Hret.
  pose proof (x86_insn_decode_spec i code mode Hmode Hcode Hops Hrun) as H. rewrite Hret in H.
  unfold decoded in H. cbv zeta in H. destruct H as (k & sp & p & d & b & Hp & Hr & _).
  split.
  - intros n. rewrite Hp, foldl_lor_testbit, Z.bits_0. done.
  - cbv zeta. rewrite <- byte_at_reader; [|done|unfold prefix_end; lia]. rewrite Hr.
    unfold apply_rex, prefix_end. by repeat case_match.
Qed.

Lemma x86_insn_decode_prefixes_witness :
  ∃ i', x86_insn_decode zero_insn lea_code 64 = Ret i' ∧
    (∀ n, Z.testbit (insn_prefix i') n = existsb (λ c, Z.testbit (legacy_prefix c) n) [0x2e]) ∧
    insn_rex i' = 0x48.
Proof.
  eexists. split; [vm_compute; reflexivity|].
  apply (x86_insn_decode_prefixes 64 zero_insn lea_code);
    [by right|vm_compute; lia|reflexivity|vm_compute; lia|vm_compute; reflexivity].
Defined.

Lemma opcode_size_bounds bs c : 1 ≤ opcode_size bs c ≤ 2.
Proof. unfold opcode_size. destruct (byte_at bs c =? 0x0f); lia. Qed.

Lemma unprefixed bs :
  opcode_start 64 bs = 0 → legacy_run 64 bs = [] ∧ rex_w (byte_at bs (prefix_end 64 bs)) = false.
Proof.
  unfold opcode_start. intros Hstart.
  pose proof (rex_size_bounds 64 (byte_at bs (prefix_end 64 bs))) as Hb.
  unfold rex_w. unfold rex_size in *. destruct (is_rex 64 _).
  - unfold prefix_end in *. lia.
  - split; [|done]. apply nil_length_inv. unfold prefix_end in *. lia.
Qed.

(** The width of the displacement of the relative branches: Jcc, LOOP, JRCXZ,
    CALL, JMP. *)
Definition branch_bits (k opc : Z) : Z :=
  if k =? 1 then
    if one_of [0xe8; 0xe9] opc then 32
    else if in_range 0x70 0x7f opc || in_range 0xe0 0xe3 opc || (opc =? 0xeb) then 8 else 0
  else if in_range 0x80 0x8f opc then 32 else 0.

Lemma branch_checked :
  forallb (λ k, forallb (λ opc, implb (negb (branch_bits k opc =? 0))
    (entry_known k opc && negb (entry_modrm k opc) && (entry_imm false k opc =? branch_bits k opc / 8) &&
     one_of [8; 32] (branch_bits k opc))) (range 256)) [1; 2] = true.
Proof. vm_compute. done. Qed.

Lemma branch_entry bs c :
  let k := opcode_size bs c in let opc := opcode_at bs c in
  branch_bits k opc ≠ 0 →
  entry_known k opc = true ∧ entry_modrm k opc = false ∧
  entry_imm false k opc = branch_bits k opc / 8 ∧ (branch_bits k opc = 8 ∨ branch_bits k opc = 32).
Proof.
  intros k opc Hb. pose proof branch_checked as H. rewrite forallb_forall in H.
  assert (Hk : List.In k [1; 2]) by (pose proof (opcode_size_bounds bs c); simpl; lia).
  specialize (H k Hk). rewrite forallb_forall in H.
  assert (Hopc : List.In opc (range 256)).
  { apply elem_of_range. unfold opc, opcode_at. case_match; apply byte_at_range. }
  specialize (H opc Hopc). apply Z.eqb_neq in Hb. rewrite Hb in H. simpl in H.
  unfold one_of in H. simpl in H.
  rewrite !andb_true_iff, orb_false_r, orb_true_iff, !Z.eqb_eq, negb_true_iff in H. tauto.
Qed.

Definition jmp_code : list Z := [0xe9; 0xfb; 0xff; 0xff; 0xff; 0; 0; 0; 0; 0; 0; 0; 0; 0; 0].

(** How a relative branch decodes. *)
Lemma decode_branch code :
  let bs := reader_buffer code in
  let k := opcode_size bs 0 in
  let bits := branch_bits k (opcode_at bs 0) in
  (15 ≤ length code)%nat → opcode_start 64 bs = 0 → bits ≠ 0 →
  ∃ i', decode_fresh code 64 = Ret i' ∧ primary_opcode i' = opcode_at bs 0 ∧
    insn_length i' = k + bits / 8 ∧ immediate_offset i' = k ∧ immediate i' = number_at code k bits.
Proof.
  intros bs k bits Hcode Hstart Hbits.
  destruct (branch_entry bs 0 Hbits) as (Hkn & Hmod & Himm & Hb8). fold k bits in Himm, Hb8.
  destruct (unprefixed bs Hstart) as [Hrun Hw].
  rewrite <- Hstart in Hkn at 1 2.
  destruct (decoded_or_gives_up zero_insn code Hcode eq_refl) as (i' & Hret & Hdec);
    [fold bs; rewrite Hrun; simpl; lia|exact Hkn|].
  exists i'. split; [exact Hret|]. fold bs in Hdec. unfold decoded in Hdec. cbv zeta in Hdec.
  destruct Hdec as (k' & sp & p & d & b & Hpre & _ & Hk & Hsp & _ & Hmod' & Hib & Hb & Hlen & _ & _ & Himm').
  fold (prefix_end 64 bs) in *. fold (opcode_start 64 bs) in *. rewrite Hstart in *.
  destruct (table_entry_opcode _ _ _ _ _ Hk) as [Hks Hopc]. fold k in Hks. subst k'.
  destruct (entry_imm_modrm bs 0 k _ sp false Hk) as [Hhm _]; [by rewrite Hopc|].
  rewrite Hopc in Hhm. unfold k in Hhm. rewrite Hmod in Hhm. fold k in Hhm. rewrite Hhm in Hmod'.
  destruct Hmod' as (-> & -> & Hfl). change (0 / 8) with 0 in *. rewrite Z.add_0_l, !Z.add_0_r in *.
  assert (Hb' : b / 8 = bits / 8).
  { rewrite <- Himm. unfold bits. rewrite <- Hopc.
    rewrite <- Hw. eapply known_imm; [exact Hk|by rewrite Hopc|exact Hsp| |done|exact Hib].
    rewrite Hpre, Hrun. done. }
  assert (b = bits) as ->.
  { destruct Hb8 as [E | E]; rewrite E in *; destruct Hb as [-> | [-> | [-> | [-> | ->]]]];
      vm_compute in Hb'; congruence. }
  assert (Hz : (bits =? 0) = false) by by apply Z.eqb_neq.
  rewrite Hz in Himm'. destruct Himm' as [Hoff Hval].
  pose proof (opcode_size_bounds bs 0) as Hkb. fold k in Hkb.
  split; [done|]. split; [|split; [done|]].
  - rewrite Hlen. unfold imm_step, number_step. rewrite Hz. by destruct Hb8 as [-> | ->].
  - rewrite Hval. apply number_at_reader; [done|unfold number_width; lia|lia|].
    destruct Hb8 as [-> | ->]; simpl; change (32 / 8) with 4; change (8 / 8) with 1; lia.
Qed.

(** an unprefixed relative branch always decodes, to its opcode, the right
    length and its displacement, zero-extended, as the immediate. *)
Theorem x86_insn_decode_branch code :
  let bs := reader_buffer code in
  let k := opcode_size bs 0 in
  let bits := branch_bits k (opcode_at bs 0) in
  (15 ≤ length code)%nat → opcode_start 64 bs = 0 → bits ≠ 0 →
  ∃ i', decode_fresh code 64 = Ret i' ∧ primary_opcode i' = opcode_at bs 0 ∧
    insn_length i' = k + bits / 8 ∧ immediate_offset i' = k ∧ immediate i' = number_at code k bits.
Proof. apply decode_branch. Qed.

Lemma x86_insn_decode_branch_witness :
  ∃ i', decode_fresh jmp_code 64 = Ret i' ∧ primary_opcode i' = 0xe9 ∧
    insn_length i' = 5 ∧ immediate_offset i' = 1 ∧ immediate i' = 0xfffffffb.
Proof.
  apply (x86_insn_decode_branch jmp_code); [vm_compute; lia|reflexivity|vm_compute; discriminate].
Defined.

(** *** Where the tables and the cursor go wrong *)

(** The opcodes whose entry has neither ModR/M nor immediate although the
    manual gives them a ModR/M byte: groups 3 and 5, whose operands are in the
    group tables the decoder does not copy, and the x87 escapes. *)
Definition bare_entry (opc : Z) : bool := one_of [0xf6; 0xf7; 0xff] opc || in_range 0xd8 0xdf opc.

Lemma bare_checked :
  forallb (λ b, implb (bare_entry b) (
    match x86_opcode_map_one_byte !! Z.to_nat b with
    | Some sp => negb (x86_insn_has_modrm_byte sp) && negb (x86_insn_has_immediate sp) &&
        negb (X86_INSN_SSE_GROUP_START <? X86_INSN_FLAG_GET_GROUP (flags sp))
    | None => false
    end && negb (b =? 0x0f) && negb (is_rex 64 b) && (legacy_prefix b =? 0))) (range 256) = true.
Proof. vm_compute. done. Qed.

(** CALL, JMP and PUSH through a register or memory (FF), the F6 and F7
    group and the x87 instructions decode as one byte, whatever follows, though
    all of them have a ModR/M byte. *)
Theorem x86_insn_decode_group_length code :
  (15 ≤ length code)%nat → bare_entry (byte_at code 0) = true →
  ∃ i', decode_fresh code 64 = Ret i' ∧ insn_length i' = 1.
Proof.
  intros Hcode Hbare. pose proof bare_checked as H. rewrite forallb_forall in H.
  specialize (H _ (elem_of_range 256 _ (byte_at_range code 0))). rewrite Hbare in H. simpl in H.
  rewrite !andb_true_iff, !negb_true_iff in H. destruct H as [[[H H0f] Hrex] Hleg].
  set (bs := reader_buffer code) in *.
  rewrite <- (byte_at_reader code 0) in * by (done || lia). fold bs in H, H0f, Hrex, Hleg.
  assert (Hrun : legacy_run 64 bs = []).
  { pose proof (legacy_run_step bs (reader_buffer_length _ Hcode) 64 0 ltac:(lia)) as E.
    change (drop (Z.to_nat 0) bs) with bs in E. by rewrite Hrex, Hleg in E. }
  pose proof (x86_insn_decode_spec zero_insn code 64 (or_intror eq_refl) Hcode eq_refl) as Hs.
  fold bs in Hs. unfold decoded, unsupported in Hs. cbv zeta in Hs. rewrite Hrun in Hs.
  change (Z.of_nat (length [])) with 0 in Hs. specialize (Hs ltac:(simpl; lia)).
  assert (Hrs : rex_size 64 (byte_at bs 0) = 0) by (unfold rex_size; by rewrite Hrex).
  rewrite Hrs, Z.add_0_r in Hs. unfold table_entry, decode_fresh in *. rewrite H0f in Hs.
  destruct (x86_opcode_map_one_byte !! Z.to_nat (byte_at bs 0)) as [sp|]; [|done].
  rewrite !andb_true_iff, !negb_true_iff, Z.ltb_ge in H. destruct H as [[Hm Hi] Hsse].
  destruct (x86_insn_decode zero_insn code 64) as [i'|e].
  - exists i'. split; [done|].
    destruct Hs as (k & sp' & p & d & b & _ & _ & Hk & _ & _ & Hmod & Himm & _ & -> & _).
    simpl in Hk. injection Hk as <- _ <-. rewrite Hm in Hmod. rewrite Hi in Himm.
    destruct Hmod as (-> & -> & _). by subst b.
  - exfalso. destruct Hs as (_ & k & opc & sp' & Hk & Hbad). simpl in Hk. injection Hk as _ _ <-.
    rewrite Hm in Hbad. destruct Hbad as [Hbad|[? _]]; [unfold sse_entry in Hbad; lia|done].
Qed.

Definition call_rax_code : list Z := [0xff; 0xd0; 0xc3; 0; 0; 0; 0; 0; 0; 0; 0; 0; 0; 0; 0].

Lemma x86_insn_decode_group_length_witness :
  ∃ i', decode_fresh call_rax_code 64 = Ret i' ∧ insn_length i' = 1.
Proof. apply (x86_insn_decode_group_length call_rax_code); [vm_compute; lia|reflexivity]. Defined.

(** MOV RAX, imm64 is ten bytes long and measured as six: read_uint64 moves
    the cursor by four. *)
Example mov_imm64_length :
  insn_length <$> match decode_fresh [0x48; 0xb8; 1; 2; 3; 4; 5; 6; 7; 8; 0; 0; 0; 0; 0] 64 with
                  | Ret i => Some i | Err _ => None end = Some 6.
Proof. vm_compute. done. Qed.

(** MOV EAX, [RBP*1 + disp32] with an RDI base is three bytes long and measured
    as seven: RDI's number is compared with the enumeration's RBP. *)
Example mov_sib_rdi_length :
  insn_length <$> match decode_fresh [0x8b; 0x04; 0x27; 0; 0; 0; 0; 0; 0; 0; 0; 0; 0; 0; 0] 64 with
                  | Ret i => Some i | Err _ => None end = Some 7.
Proof. vm_compute. done. Qed.

(** With an operand-size prefix: PUSH imm16 (66 68 34 12) is four bytes long and
    measured as six, a near JZ (66 0F 84), whose displacement stays 32 bits wide
    in 64-bit mode, seven bytes long and measured as five. *)
Example operand_size_length :
  let measured code := insn_length <$> match decode_fresh (code ++ replicate 12 0) 64 with Ret i => Some i | Err _ => None end in
  measured [0x66; 0x68; 0x34; 0x12] = Some 6 ∧ measured [0x66; 0x0f; 0x84; 1; 0; 0; 0] = Some 5.
Proof. vm_compute. auto. Qed.

(** Twelve prefixes and a MOV r64, imm64: the immediate is read past the end of
    the reader's buffer. *)
Example prefix_overrun :
  decode_fresh (replicate 12 0x66 ++ [0x48; 0xb8; 0]) 64 = Err Undefined.
Proof. vm_compute. done. Qed.

(** MOV AX, [BX+SI] in 32-bit mode with an address-size prefix aborts. *)
Example address16_aborts :
  decode_fresh ([0x67; 0x8b; 0x00] ++ replicate 12 0) 32 = Err Aborted.
Proof. vm_compute. done. Qed.
