(* ===== verification/X86Rip.v ===== *)
(** * RIP-relative operands

    When the decoder reports a RIP-relative memory operand: exactly for the
    ModR/M forms the manual makes RIP-relative in 64-bit mode. *)

From S2P Require Import Prelude X86Spec X86Tables X86Decode X86Props X86Correct.

#[local] Open Scope cint_scope.

(** What the relocator looks at. *)
Definition rip_operand (i : x86_insn_decode_t) : Prop :=
  truthy (insn_flags i & X86_INSN_DECODE_FLAG_IP_RELATIVE) = true ∧ mem_base1 i = Some RIP.
Definition norip (i : x86_insn_decode_t) : Prop := mem_base1 i ≠ Some RIP.

(** The manual's form: no displacement mode, r/m of RBP. *)
Definition rip_form (m : Z) : bool := (modrm_mode m =? 0) && (modrm_rm m =? 5).

(** ** Steps that leave flags and base register alone *)

Definition quiet (s s' : decode_state) : Prop :=
  insn_flags (insn s') = insn_flags (insn s) ∧ mem_base1 (insn s') = mem_base1 (insn s) ∧
  length (insn_operands (insn s')) = length (insn_operands (insn s)).
Definition keeps_norip (s s' : decode_state) : Prop := norip (insn s) → norip (insn s').

#[local] Instance quiet_preorder : PreOrder quiet.
Proof. split; [done|]. intros s1 s2 s3 (? & ? & ?) (? & ? & ?). split_and!; congruence. Qed.
#[local] Instance keeps_norip_preorder : PreOrder keeps_norip.
Proof. split; [by intros s H|]. intros s1 s2 s3 H1 H2 H. by apply H2, H1. Qed.
#[local] Instance quiet_norip {A} (m : D A) : Keeps quiet m → Keeps keeps_norip m.
Proof. intros H s Hs. destruct (H s) as (_ & E & _). unfold norip in *. by rewrite E. Qed.

Lemma quiet_rip s s' : quiet s s' → rip_operand (insn s) → rip_operand (insn s').
Proof. intros (E1 & E2 & _) [H1 H2]. split; congruence. Qed.

Lemma wp_keeps {A} R (m : D A) `{!Keeps R m} (Q : A → decode_state → Prop) s :
  (∀ a s', R s s' → Q a s') → wp m Q (λ _ _, True) s.
Proof.
  intros HQ. unfold wp. destruct (m s) as [[a|e] s'] eqn:E; [|done].
  apply HQ. by apply (keeps_run _ _ _ _ _ E).
Qed.

#[local] Instance deref_quiet p : Keeps quiet (deref p).
Proof. intros s. unfold deref. by destruct (bytes (rd s) !! Z.to_nat p). Qed.
#[local] Instance advance_quiet n : Keeps quiet (advance n).
Proof. unfold advance. solve_keeps. Qed.
#[local] Instance read_uint8_quiet : Keeps quiet read_uint8.
Proof. apply _. Qed.
#[local] Instance number_quiet bits : Keeps quiet (x86_insn_decode_number bits).
Proof.
  unfold x86_insn_decode_number, read_uint64, read_uint32, read_uint16. solve_keeps.
Qed.
#[local] Instance reader_offset_quiet : Keeps quiet reader_offset.
Proof. unfold reader_offset. solve_keeps. Qed.

Lemma update_quiet f :
  (∀ i, insn_flags (f i) = insn_flags i ∧ mem_base1 (f i) = mem_base1 i ∧
    length (insn_operands (f i)) = length (insn_operands i)) → Keeps quiet (update_insn f).
Proof. intros Hf. apply keeps_modify. intros s. apply Hf. Qed.

#[local] Instance set_operand_reg_quiet k v : Keeps quiet (set_operand_reg k v).
Proof.
  apply update_quiet. intros i. split_and!; [done| |apply length_alter]. unfold mem_base1. cbn [insn_operands with_operands].
  rewrite list_lookup_alter. case_decide as Hk; [subst k|done]. by destruct (insn_operands i !! 1%nat).
Qed.
Lemma update_mem_quiet k f : (∀ m, base (f m) = base m) → Keeps quiet (update_mem k f).
Proof.
  intros Hf. apply update_quiet. intros i. split_and!; [done| |apply length_alter]. unfold mem_base1.
  cbn [insn_operands with_operands]. rewrite list_lookup_alter. case_decide as Hk; [subst k|done].
  destruct (insn_operands i !! 1%nat) as [o|]; [|done].
  simpl. unfold compose. simpl. by rewrite Hf.
Qed.
#[local] Instance set_mem_index_quiet k v : Keeps quiet (set_mem_index k v).
Proof. by apply update_mem_quiet. Qed.
#[local] Instance set_mem_scale_quiet k v : Keeps quiet (set_mem_scale k v).
Proof. by apply update_mem_quiet. Qed.
#[local] Instance set_mem_disp_quiet k v : Keeps quiet (set_mem_disp k v).
Proof. by apply update_mem_quiet. Qed.
#[local] Instance with_modrm_quiet v : Keeps quiet (update_insn (with_modrm v)).
Proof. by apply update_quiet. Qed.
#[local] Instance with_sib_quiet v : Keeps quiet (update_insn (with_sib v)).
Proof. by apply update_quiet. Qed.
#[local] Instance with_displacement_offset_quiet v : Keeps quiet (update_insn (with_displacement_offset v)).
Proof. by apply update_quiet. Qed.
#[local] Instance decode_displacement_quiet d : Keeps quiet (decode_displacement d).
Proof. unfold decode_displacement. solve_keeps. Qed.

#[local] Instance or_flags_norip v : Keeps keeps_norip (or_flags v).
Proof. apply keeps_modify. by intros s H. Qed.
Lemma set_mem_base_norip v : v ≠ RIP → Keeps keeps_norip (set_mem_base 1 v).
Proof.
  intros Hv. apply keeps_modify. intros s H. unfold norip, mem_base1 in *.
  cbn [insn set_insn insn_operands with_operands]. rewrite list_lookup_alter, decide_True by done. destruct (insn_operands (insn s) !! 1%nat); [|done].
  simpl. unfold compose. simpl. congruence.
Qed.
#[local] Instance set_mem_base_none : Keeps keeps_norip (set_mem_base 1 RNone).
Proof. by apply set_mem_base_norip. Qed.

#[local] Instance with_immediate_quiet v : Keeps quiet (update_insn (with_immediate v)).
Proof. by apply update_quiet. Qed.
#[local] Instance with_immediate_offset_quiet v : Keeps quiet (update_insn (with_immediate_offset v)).
Proof. by apply update_quiet. Qed.
#[local] Instance with_length_quiet v : Keeps quiet (update_insn (with_length v)).
Proof. by apply update_quiet. Qed.
#[local] Instance decode_immediate_quiet mode : Keeps quiet (x86_insn_decode_immediate mode).
Proof. unfold x86_insn_decode_immediate. solve_keeps. Qed.

(** ** The address forms *)

Lemma register_not_rip x y : 0 ≤ x < 8 → 0 ≤ y < 2 → u8 (x .| (y << 3)) ≠ RIP ∧ u8 ((y << 3) .| x) ≠ RIP.
Proof.
  intros Hx Hy. assert (y = 0 ∨ y = 1) as [-> | ->] by lia;
    (assert (x = 0 ∨ x = 1 ∨ x = 2 ∨ x = 3 ∨ x = 4 ∨ x = 5 ∨ x = 6 ∨ x = 7) as H by lia;
     repeat (destruct H as [-> | H]); [done..|]; by subst).
Qed.

#[local] Instance decode_sib_base_norip bases mod_ d : Keeps keeps_norip (decode_sib_base bases mod_ d).
Proof. unfold decode_sib_base, get_mem_base. solve_keeps. Qed.

#[local] Instance decode_sib_norip eab mod_ d : Keeps keeps_norip (decode_sib eab mod_ d).
Proof.
  unfold decode_sib. apply keeps_bind; [apply _..|]. intros sib. apply keeps_bind; [apply _..|]. intros _.
  apply keeps_bind; [apply _..|]. intros s. cbv zeta.
  destruct (sib_fields sib (insn_rex (insn s))) as [H1 H2].
  destruct (register_not_rip _ _ H1 H2) as [Hne _]. pose proof (set_mem_base_norip _ Hne). solve_keeps.
Qed.

Lemma decode_address_rip eab mod_ rm s :
  norip (insn s) → length (insn_operands (insn s)) = 3%nat → rm ≠ RIP →
  wp (decode_address_32_64 eab mod_ rm)
    (λ _ s', if (mod_ =? 0) && ((rm & 7) =? 5) then rip_operand (insn s') else norip (insn s'))
    (λ _ _, True) s.
Proof.
  intros Hs Hlen Hrm. unfold decode_address_32_64.
  apply wp_bind. eapply set_mem_base_spec; [done|]. intros s1 (_ & Hc1 & _) Hb1. cbv beta.
  assert (Hn1 : norip (insn s1)) by (unfold norip; congruence).
  apply wp_bind, wp_modify. cbv beta. unfold decode_mod_disp.
  destruct ((mod_ =? 0) && ((rm & 7) =? 5)) eqn:Hf.
  - apply wp_bind, wp_bind, wp_modify, wp_bind, wp_modify, wp_ret. cbv beta.
    apply andb_true_iff in Hf as [_ Hrm5%Z.eqb_eq]. rewrite Hrm5. apply wp_ret.
    destruct (length3 _ (eq_trans (core_operands _ _ Hc1) Hlen)) as (o0 & o1 & o2 & Hops).
    split; [done|]. unfold mem_base1. simpl. by rewrite Hops.
  - apply wp_bind.
    assert (Hd : ∀ d, wp (if (rm & 7) =? 4 then decode_sib eab mod_ d else mret d)
      (λ _ s', norip (insn s')) (λ _ _, True) (set_insn (with_flags (insn_flags (insn s1) .| X86_INSN_DECODE_FLAG_HAS_BASE) (insn s1)) s1)).
    { intros d. apply wp_if; intros _; [|by apply wp_ret]. apply (wp_keeps keeps_norip); [apply _|]. intros _ s' H. by apply H. }
    repeat (apply wp_if; intros _; [apply wp_ret, Hd|]). apply wp_ret, Hd.
Qed.

Lemma modrm_sib_rip bs c s :
  length bs = 20%nat → at_ bs c s → 0 ≤ c < 20 → norip (insn s) → length (insn_operands (insn s)) = 3%nat →
  wp (x86_insn_decode_modrm_sib 64)
    (λ _ s', if rip_form (byte_at bs c) then rip_operand (insn s') else norip (insn s')) (λ _ _, True) s.
Proof.
  intros Hbs Hat Hc Hn Hlen. unfold x86_insn_decode_modrm_sib, rip_form.
  apply wp_bind. eapply (read_uint8_spec bs); [done..|]. intros s1 _ Hi1. cbv beta.
  set (m := byte_at bs c). apply wp_bind, wp_modify, wp_bind, wp_get. cbv zeta.
  destruct (sib_fields m (insn_rex (insn s1))) as [_ Hx].
  assert (Hm : 0 ≤ modrm_rm m < 8) by (apply (land_cases m 3); lia).
  destruct (register_not_rip _ _ Hm Hx) as [_ Hrm].
  set (s2 := set_insn _ s1). change (insn_rex (insn s2)) with (insn_rex (insn s1)).
  assert (Hrm7 : (u8 ((REX_B (insn_rex (insn s1)) << 3) .| modrm_rm m) & 7) = modrm_rm m).
  { clear -Hm Hx. revert Hm Hx. generalize (modrm_rm m), (REX_B (insn_rex (insn s1))). intros x y Hm Hx.
    assert (y = 0 ∨ y = 1) as [-> | ->] by lia;
    (assert (x = 0 ∨ x = 1 ∨ x = 2 ∨ x = 3 ∨ x = 4 ∨ x = 5 ∨ x = 6 ∨ x = 7) as H by lia;
     repeat (destruct H as [-> | H]); [done..|]; by subst). }
  apply wp_bind, (wp_keeps quiet); [apply _|]. intros _ s3 H3. cbv beta.
  assert (Hn3 : norip (insn s3)).
  { unfold norip in *. destruct H3 as (_ & -> & _). unfold s2. by rewrite <- Hi1 in Hn. }
  apply wp_if; intros Hmode.
  { apply Z.eqb_eq in Hmode. rewrite Hmode. apply (wp_keeps keeps_norip); [apply _|]. intros _ s' H. by apply H. }
  apply wp_bind, wp_modify. cbv beta. apply wp_bind, effective_address_bits_spec; [by right|]. cbv beta.
  set (s4 := set_insn _ s3). set (eab := address_bits 64 _).
  assert (He : (eab =? 32) || (eab =? 64) = true ∧ (eab =? 16) = false).
  { unfold eab. destruct (address_bits_64 (insn_prefix (insn s4))) as [-> | ->]; done. }
  destruct He as [-> ->]. apply wp_bind.
  assert (Hlen4 : length (insn_operands (insn s4)) = 3%nat).
  { change (length (insn_operands (insn s3)) = 3%nat). destruct H3 as (_ & _ & ->).
    unfold s2. cbn [insn set_insn insn_operands with_modrm]. by rewrite Hi1. }
  eapply wp_mono; [apply (decode_address_rip eab (modrm_mode m) _ s4); done| |done]. cbv beta.
  intros d s5 H5. apply wp_bind, wp_ret. rewrite Hrm7 in H5.
  apply (wp_keeps quiet); [apply _|]. intros [] s6 H6. destruct (_ && _); [by eapply quiet_rip|].
  unfold norip in *. by destruct H6 as (_ & -> & _).
Qed.

(** ** The whole decoder *)

(** The ModR/M byte of the instruction in [bs], if it has one. *)
Definition modrm_of (bs : list Z) : option Z :=
  let c := opcode_start 64 bs in
  let k := opcode_size bs c in
  if entry_modrm k (opcode_at bs c) then Some (byte_at bs (c + k)) else None.

Lemma x86_insn_decode_rip code i' :
  let bs := reader_buffer code in
  (15 ≤ length code)%nat → (length (legacy_run 64 bs) ≤ 8)%nat →
  entry_known (opcode_size bs (opcode_start 64 bs)) (opcode_at bs (opcode_start 64 bs)) = true →
  decode_fresh code 64 = Ret i' →
  length (insn_operands i') = 3%nat ∧
  (if (if modrm_of bs is Some m then rip_form m else false) then rip_operand i' else norip i').
Proof.
  intros bs Hcode Hrun Hkn Hret.
  assert (Hbs : length bs = 20%nat) by by apply reader_buffer_length.
  set (s0 := DState (Reader true bs 0 0 0 0) zero_insn).
  cut (wp (x86_insn_decode_body 64) (λ _ s', length (insn_operands (insn s')) = 3%nat ∧
    (if (if modrm_of bs is Some m then rip_form m else false) then rip_operand (insn s') else norip (insn s')))
    (λ _ _, True) s0).
  { intros Hw. revert Hret. unfold decode_fresh, x86_insn_decode, init_reader.
    change (15 <? READER_BUFFER_SIZE) with true. cbv iota.
    destruct (Z.ltb_spec (Z.of_nat (length code)) 15) as [|_]; [lia|]. cbv iota.
    change (take (Z.to_nat 15) code ++ replicate (Z.to_nat (READER_BUFFER_SIZE - 15)) 204) with bs.
    fold s0. unfold wp in Hw. destruct (x86_insn_decode_body 64 s0) as [[u|e] s']; [|done].
    by intros [= <-]. }
  clear Hret. unfold x86_insn_decode_body. set (c := opcode_start 64 bs) in *.
  assert (Hd0 : Z.of_nat (length (legacy_run 64 bs)) + rex_size 64 (byte_at bs (Z.of_nat (length (legacy_run 64 bs)))) = c) by done.
  pose proof (rex_size_bounds 64 (byte_at bs (Z.of_nat (length (legacy_run 64 bs))))).
  apply wp_bind. eapply (x86_insn_decode_prefix_correct bs Hbs); [done|lia|]. rewrite Hd0. intros s1 Hat1 Hi1. cbv beta.
  apply wp_bind, wp_modify. cbv beta.
  apply wp_bind. eapply (x86_insn_decode_opcode_spec bs Hbs); [exact Hat1|lia|lia|done|].
  intros s2 k opc sp Hat2 Hk _ Hi2. cbv beta. apply wp_bind, wp_get.
  destruct (table_entry_opcode _ _ _ _ _ Hk) as [Hks Hopc]. unfold modrm_of. fold c.
  rewrite <- Hks, <- Hopc in *. destruct (entry_imm_modrm _ _ _ _ _ false Hk Hkn) as [Hhm _].
  assert (Hsp : insn_spec (insn s2) = resolved sp (byte_at bs (c + k))) by by rewrite Hi2.
  destruct (has_modrm_operands sp _ (resolved_operands sp (byte_at bs (c + k)))) as (Hhm' & _ & _).
  rewrite Hsp, Hhm', Hhm.
  assert (Hs2 : norip (insn s2) ∧ length (insn_operands (insn s2)) = 3%nat).
  { rewrite Hi2. simpl. rewrite Hi1. unfold apply_rex, norip, mem_base1. repeat case_match; done. }
  destruct Hs2 as [Hn2 Hl2]. pose proof (table_entry_room _ _ _ _ _ Hk). unfold entry_room in *.
  apply wp_bind. eapply (wp_mono _ (λ _ s3, length (insn_operands (insn s3)) = 3%nat ∧
    (if (if (if entry_modrm k opc then Some (byte_at bs (c + k)) else None) is Some m then rip_form m else false)
     then rip_operand (insn s3) else norip (insn s3)))); [| |done].
  - destruct (entry_modrm k opc); [|done]. cbn [when]. apply wp_conj.
    + eapply (x86_insn_decode_modrm_sib_spec bs Hbs 64 (c + k) s2 _ (λ _ _, True));
        [by right|exact Hat2|lia|lia|done|done|].
      intros s' _ _ [Hc _]. rewrite <- Hl2. by apply core_operands.
    + apply (modrm_sib_rip bs (c + k) s2); [done|done|lia|done|done].
  - cbv beta. intros [] s3 [Hl3 H3].
    apply (wp_keeps quiet); [apply _|]. intros [] s4 Hq. split; [by destruct Hq as (_ & _ & ->)|].
    destruct (match _ with Some _ => _ | None => _ end); [by eapply quiet_rip|].
    unfold norip in *. by destruct Hq as (_ & -> & _).
Qed.
