(* ===== verification/DobbyBits.v ===== *)
(** * Bit fields and byte sequences

    The macros of include/utility_macro.h and the decoding kit of the ARM64
    relocator (inst_decode_encode_kit.h), with the arithmetic of bit fields
    they are verified against, and little-endian byte sequences. *)

From S2P Require Import Prelude.

#[local] Open Scope cint_scope.

(** ** utility_macro.h *)

Definition LeftShift (a b c : Z) : Z := (a & ((1 << b) - 1)) << c.
Definition RightShift (a b c : Z) : Z := (a >> c) & ((1 << b) - 1).

(** The masks are taken at 64 bits: [range] is at most [2^63]. *)
Definition ALIGN_FLOOR (address range : Z) : Z := address & Z.lnot (range - 1).
Definition ALIGN_CEIL (address range : Z) : Z := u64 (address + range - 1) & Z.lnot (range - 1).

Definition submask (x : Z) : Z := (1 << (x + 1)) - 1.
Definition bits (obj st fn : Z) : Z := (obj >> st) & submask (fn - st).
Definition bit (obj st : Z) : Z := (obj >> st) & 1.
Definition set_bit (obj st b : Z) : Z := (Z.lnot (1 << st) & obj) .| (b << st).
Definition set_bits (obj st fn b : Z) : Z :=
  (Z.lnot (submask (fn - st) << st) & obj) .| (b << st).

(** ** inst_decode_encode_kit.h *)

(** [x] is an unsigned long; the result is read as an int64_t. *)
Definition SignExtend (x M : Z) : Z :=
  let sign_bit := bit x (M - 1) in
  let sign_mask := u64 (0 - sign_bit) in
  sint 64 (x .| ((sign_mask >> M) << M)).

Definition decode_imm14_offset (instr : Z) : Z :=
  let imm14 := bits instr 5 18 in SignExtend (imm14 << 2) (2 + 14).
Definition encode_imm14_offset (instr offset : Z) : Z :=
  let imm14 := bits (offset >> 2) 0 13 in u32 (set_bits instr 5 18 imm14).

Definition decode_imm19_offset (instr : Z) : Z :=
  let imm19 := bits instr 5 23 in SignExtend (imm19 << 2) (2 + 19).
Definition encode_imm19_offset (instr offset : Z) : Z :=
  let imm19 := bits (offset >> 2) 0 18 in u32 (set_bits instr 5 23 imm19).

Definition decode_imm26_offset (instr : Z) : Z :=
  let imm26 := bits instr 0 25 in SignExtend (imm26 << 2) (2 + 26).
Definition encode_imm26_offset (instr offset : Z) : Z :=
  let imm26 := bits (offset >> 2) 0 25 in u32 (set_bits instr 0 25 imm26).

(** The bit-field struct Rd:5, immhi:19, dummy_0:5, immlo:2, op:1, the lowest
    bits first. *)
Definition immhi_field (instr : Z) : Z := bits instr 5 23.
Definition immlo_field (instr : Z) : Z := bits instr 29 30.

Definition decode_immhi_immlo_offset (instr : Z) : Z :=
  SignExtend (immlo_field instr + (immhi_field instr << 2)) (2 + 19).
(** An assignment to a bit-field keeps the low bits that fit. *)
Definition encode_immhi_immlo_offset (instr offset : Z) : Z :=
  let instr := set_bits instr 29 30 (bits offset 0 2 & 3) in
  u32 (set_bits instr 5 23 (bits offset 2 (2 + 19) & 524287)).

Definition decode_immhi_immlo_zero12_offset (instr : Z) : Z :=
  sint 64 (decode_immhi_immlo_offset instr << 12).
Definition encode_immhi_immlo_zero12_offset (instr offset : Z) : Z :=
  encode_immhi_immlo_offset instr (offset >> 12).

Definition decode_rt (instr : Z) : Z := bits instr 0 4.
Definition decode_rd (instr : Z) : Z := bits instr 0 4.

(** ** Fields

    [field w lo n]: the [n] bits of [w] from bit [lo]. *)

Definition field (w lo n : Z) : Z := (w / 2 ^ lo) mod 2 ^ n.

(** The two's complement value of an [n]-bit field. *)
Definition sfield (w lo n : Z) : Z := sint n (field w lo n).

Lemma testbit_field w lo n i :
  0 ≤ lo → 0 ≤ n → 0 ≤ i →
  Z.testbit (field w lo n) i = bool_decide (i < n) && Z.testbit w (lo + i).
Proof.
  intros. unfold field. rewrite <- Z.land_ones, <- Z.shiftr_div_pow2 by lia.
  rewrite Z.land_spec, Z.shiftr_spec, Z.testbit_ones by lia.
  rewrite (Z.add_comm lo), andb_comm. f_equal. case_bool_decide; lia.
Qed.

Lemma field_range w lo n : 0 ≤ n → 0 ≤ field w lo n < 2 ^ n.
Proof. intros. apply Z.mod_pos_bound. lia. Qed.

Lemma field_eq w w' lo n :
  0 ≤ lo → 0 ≤ n →
  (∀ i, 0 ≤ i < n → Z.testbit w (lo + i) = Z.testbit w' (lo + i)) →
  field w lo n = field w' lo n.
Proof.
  intros ? ? H. apply Z.bits_inj'. intros i Hi. rewrite !testbit_field by done.
  case_bool_decide; [|done]. by rewrite H.
Qed.

Lemma testbit_ones_shift n i : 0 ≤ n → 0 ≤ i → Z.testbit ((1 << n) - 1) i = bool_decide (i < n).
Proof.
  intros. rewrite Z.shiftl_1_l. replace (2 ^ n - 1) with (Z.ones n) by (rewrite Z.ones_equiv; lia).
  rewrite Z.testbit_ones by done. case_bool_decide; lia.
Qed.

Lemma bits_field obj st fn : 0 ≤ st ≤ fn + 1 → bits obj st fn = field obj st (fn - st + 1).
Proof.
  intros. apply Z.bits_inj'. intros i Hi. rewrite testbit_field by lia. unfold bits, submask.
  rewrite Z.land_spec, Z.shiftr_spec, testbit_ones_shift by lia. by rewrite andb_comm, (Z.add_comm i st).
Qed.

Lemma bit_field obj st : 0 ≤ st → bit obj st = field obj st 1.
Proof.
  intros. transitivity (bits obj st st); [unfold bits, submask, bit; by rewrite Z.sub_diag|].
  rewrite bits_field by lia. f_equal. lia.
Qed.

(** A shifted value, bit by bit. *)
Lemma testbit_shifted v lo i :
  0 ≤ lo → 0 ≤ i → Z.testbit (v << lo) i = bool_decide (lo ≤ i) && Z.testbit v (i - lo).
Proof.
  intros. rewrite Z.shiftl_spec by done. case_bool_decide; [done|].
  rewrite Z.testbit_neg_r by lia. done.
Qed.

Lemma testbit_above v n i : 0 ≤ v < 2 ^ n → n ≤ i → 0 ≤ n → Z.testbit v i = false.
Proof.
  intros Hv Hi Hn. destruct (decide (v = 0)) as [->|]; [apply Z.bits_0|].
  apply Z.bits_above_log2; [lia|]. apply Z.lt_le_trans with n; [|done]. apply Z.log2_lt_pow2; lia.
Qed.

Lemma testbit_set_bits w st fn v i :
  0 ≤ st ≤ fn + 1 → 0 ≤ v < 2 ^ (fn - st + 1) → 0 ≤ i →
  Z.testbit (set_bits w st fn v) i =
  if decide (st ≤ i ≤ fn) then Z.testbit v (i - st) else Z.testbit w i.
Proof.
  intros Hst Hv Hi. unfold set_bits, submask.
  rewrite Z.lor_spec, Z.land_spec, Z.lnot_spec, !testbit_shifted by lia.
  destruct (decide (st ≤ i)) as [Hs|Hs].
  - rewrite bool_decide_true, testbit_ones_shift by lia. simpl.
    destruct (decide (i ≤ fn)).
    + rewrite bool_decide_true, decide_True by lia. done.
    + rewrite bool_decide_false, decide_False by lia. simpl.
      rewrite (testbit_above v (fn - st + 1)) by lia. by rewrite orb_false_r.
  - rewrite bool_decide_false, decide_False by lia. simpl. by rewrite orb_false_r.
Qed.

(** The fields of a word after [set_bits]. *)
Lemma field_set_bits_same w st fn v :
  0 ≤ st ≤ fn + 1 → 0 ≤ v < 2 ^ (fn - st + 1) → field (set_bits w st fn v) st (fn - st + 1) = v.
Proof.
  intros. apply Z.bits_inj'. intros i Hi. rewrite testbit_field by lia. case_bool_decide.
  - rewrite testbit_set_bits, decide_True by lia. simpl. f_equal. lia.
  - simpl. symmetry. apply (testbit_above v (fn - st + 1)); lia.
Qed.

Lemma field_set_bits_ne w st fn v lo n :
  0 ≤ st ≤ fn + 1 → 0 ≤ v < 2 ^ (fn - st + 1) → 0 ≤ lo → 0 ≤ n → lo + n ≤ st ∨ fn < lo →
  field (set_bits w st fn v) lo n = field w lo n.
Proof.
  intros. apply field_eq; [done..|]. intros i Hi. rewrite testbit_set_bits, decide_False by lia. done.
Qed.

Lemma set_bits_range w st fn v k :
  0 ≤ st ≤ fn + 1 → 0 ≤ v < 2 ^ (fn - st + 1) → fn < k → 0 ≤ w < 2 ^ k →
  0 ≤ set_bits w st fn v < 2 ^ k.
Proof.
  intros Hst Hv Hk Hw. assert (E : set_bits w st fn v mod 2 ^ k = set_bits w st fn v).
  { apply Z.bits_inj'. intros i Hi. destruct (decide (i < k)).
    - by rewrite Z.mod_pow2_bits_low by lia.
    - rewrite Z.mod_pow2_bits_high by lia. symmetry.
      rewrite testbit_set_bits, decide_False by lia. apply (testbit_above w k); lia. }
  rewrite <- E. apply Z.mod_pos_bound. lia.
Qed.

Lemma set_bit_set_bits w st b : 0 ≤ st → set_bit w st b = set_bits w st st b.
Proof. intros. unfold set_bit, set_bits, submask. by rewrite Z.sub_diag. Qed.

Lemma set_bits_twice w st fn v v' :
  0 ≤ st ≤ fn + 1 → 0 ≤ v < 2 ^ (fn - st + 1) → 0 ≤ v' < 2 ^ (fn - st + 1) →
  set_bits (set_bits w st fn v) st fn v' = set_bits w st fn v'.
Proof.
  intros. apply Z.bits_inj'. intros i Hi. rewrite !testbit_set_bits by lia. by case_decide.
Qed.

Lemma field_lor a b lo n :
  0 ≤ lo → 0 ≤ n → field (a .| b) lo n = field a lo n .| field b lo n.
Proof.
  intros. apply Z.bits_inj'. intros i Hi.
  rewrite Z.lor_spec, !testbit_field, Z.lor_spec by lia. by rewrite andb_orb_distrib_r.
Qed.

Lemma field_u32 w lo n : 0 ≤ lo → 0 ≤ n → lo + n ≤ 32 → field (u32 w) lo n = field w lo n.
Proof.
  intros. apply field_eq; [done..|]. intros i Hi. unfold wrap. apply Z.mod_pow2_bits_low. lia.
Qed.

(** A [k]-bit value put at bit [s]. *)
Lemma field_LeftShift_same v k s : 0 ≤ k → 0 ≤ s → field (LeftShift v k s) s k = v mod 2 ^ k.
Proof.
  intros. apply Z.bits_inj'. intros i Hi. rewrite testbit_field by lia. unfold LeftShift.
  rewrite testbit_shifted, (bool_decide_true (s ≤ s + i)), Z.land_spec, testbit_ones_shift by lia.
  replace (s + i - s) with i by lia. case_bool_decide; simpl.
  - rewrite Z.mod_pow2_bits_low by lia. by rewrite andb_true_r.
  - by rewrite Z.mod_pow2_bits_high by lia.
Qed.

Lemma field_LeftShift_ne v k s lo n :
  0 ≤ k → 0 ≤ s → 0 ≤ lo → 0 ≤ n → lo + n ≤ s ∨ s + k ≤ lo → field (LeftShift v k s) lo n = 0.
Proof.
  intros. apply Z.bits_inj'. intros i Hi. rewrite testbit_field, Z.bits_0 by lia. unfold LeftShift.
  case_bool_decide; [simpl|done]. rewrite testbit_shifted by lia. case_bool_decide; [simpl|done].
  rewrite Z.land_spec, testbit_ones_shift, bool_decide_false by lia. by rewrite andb_false_r.
Qed.

Lemma field_small w k lo n : 0 ≤ w < 2 ^ k → 0 ≤ k ≤ lo → 0 ≤ n → field w lo n = 0.
Proof.
  intros. apply Z.bits_inj'. intros i Hi. rewrite testbit_field, Z.bits_0 by lia.
  rewrite (testbit_above w k) by lia. by rewrite andb_false_r.
Qed.

Lemma field_whole w n : 0 ≤ w < 2 ^ n → field w 0 n = w.
Proof. intros. unfold field. rewrite Z.div_1_r. by apply Z.mod_small. Qed.

(** A test of a field against a mask, [(w & mask) == fixed], on contiguous
    bits. *)
Lemma mask_field w lo n v :
  0 ≤ lo → 0 ≤ n → 0 ≤ v < 2 ^ n →
  ((w & LeftShift (-1) n lo) =? LeftShift v n lo) = (field w lo n =? v).
Proof.
  intros Hlo Hn Hv.
  assert (E : w & LeftShift (-1) n lo = LeftShift (field w lo n) n lo).
  { apply Z.bits_inj'. intros i Hi. unfold LeftShift.
    rewrite Z.land_spec, !testbit_shifted by lia. case_bool_decide; simpl; [|by rewrite andb_false_r].
    rewrite !Z.land_spec, testbit_ones_shift, Z.bits_m1, testbit_field by lia. simpl.
    replace (lo + (i - lo)) with i by lia. case_bool_decide; simpl; [by rewrite andb_true_r|].
    by rewrite andb_false_r. }
  rewrite E. destruct (decide (field w lo n = v)) as [->|Hne]; [by rewrite !Z.eqb_refl|].
  rewrite (proj2 (Z.eqb_neq _ v)) by done. apply Z.eqb_neq. intros Heq.
  apply (f_equal (λ x, field x lo n)) in Heq. rewrite !field_LeftShift_same in Heq by lia.
  rewrite !Z.mod_small in Heq by (done || by apply field_range). done.
Qed.

(** Two masks on different bits are tested one by one. *)
Lemma mask_split w m1 m2 f1 f2 :
  m1 & m2 = 0 → f1 & m1 = f1 → f2 & m2 = f2 →
  ((w & (m1 .| m2)) =? (f1 .| f2)) = ((w & m1) =? f1) && ((w & m2) =? f2).
Proof.
  intros Hm H1 H2.
  assert (P1 : ∀ a b, a & m1 = a → b & m2 = b → (a .| b) & m1 = a).
  { intros a b Ha Hb. rewrite Z.land_lor_distr_l, Ha, <- Hb, <- Z.land_assoc, (Z.land_comm m2), Hm.
    by rewrite Z.land_0_r, Z.lor_0_r. }
  assert (P2 : ∀ a b, a & m1 = a → b & m2 = b → (a .| b) & m2 = b).
  { intros a b Ha Hb. rewrite Z.land_lor_distr_l, Hb, <- Ha, <- Z.land_assoc, Hm.
    by rewrite Z.land_0_r. }
  assert (Hw : ∀ m, w & m & m = w & m) by (intros; by rewrite <- Z.land_assoc, Z.land_diag).
  rewrite Z.land_lor_distr_r. apply eq_true_iff_eq. rewrite andb_true_iff, !Z.eqb_eq. split.
  - intros E. split.
    + rewrite <- (P1 (w & m1) (w & m2)), E by apply Hw. by apply P1.
    + rewrite <- (P2 (w & m1) (w & m2)), E by apply Hw. by apply P2.
  - by intros [-> ->].
Qed.

(** ** Sign extension *)

Lemma SignExtend_sint x M : 0 < M ≤ 63 → 0 ≤ x < 2 ^ M → SignExtend x M = sint M x.
Proof.
  intros HM Hx. unfold SignExtend, bit. rewrite (Z.shiftr_div_pow2 x) by lia.
  assert (H2 : 2 ^ M = 2 * 2 ^ (M - 1)) by (rewrite <- Z.pow_succ_r by lia; f_equal; lia).
  assert (Hp : 0 < 2 ^ (M - 1)) by lia.
  assert (Hp64 : 2 ^ M ≤ 2 ^ 63) by (apply Z.pow_le_mono_r; lia).
  unfold sint at 2. rewrite (wrap_small M) by lia. case_decide as Hs.
  - replace (x / 2 ^ (M - 1)) with 1 by (Z.to_euclidean_division_equations; nia).
    change (u64 (0 - (1 & 1))) with (Z.ones 64). rewrite Z.shiftr_div_pow2, Z.shiftl_mul_pow2 by lia.
    assert (Hland : x & (Z.ones (64 - M) * 2 ^ M) = 0).
    { apply Z.bits_inj'. intros i Hi. rewrite <- Z.shiftl_mul_pow2 by lia.
      rewrite Z.land_spec, testbit_shifted, Z.bits_0 by lia. destruct (decide (M ≤ i)).
      - rewrite (testbit_above x M) by lia. done.
      - rewrite bool_decide_false by lia. by rewrite andb_false_r. }
    rewrite Z.ones_div_pow2 by lia. rewrite <- Z.lxor_lor, <- Z.add_nocarry_lxor.
    + rewrite Z.ones_equiv. unfold sint, wrap.
      replace (x + Z.pred (2 ^ (64 - M)) * 2 ^ M) with (x - 2 ^ M + 1 * 2 ^ 64)
        by (replace (2 ^ 64) with (2 ^ (64 - M) * 2 ^ M) by (rewrite <- Z.pow_add_r by lia; f_equal; lia); lia).
      rewrite (Z.mod_small (x - 2 ^ M + 1 * 2 ^ 64)) by lia. rewrite decide_True by lia. lia.
    + exact Hland.
    + exact Hland.
  - replace (x / 2 ^ (M - 1)) with 0 by (Z.to_euclidean_division_equations; nia).
    change (u64 (0 - (0 & 1))) with 0. rewrite Z.shiftr_0_l, Z.shiftl_0_l, Z.lor_0_r.
    unfold sint. rewrite wrap_small by lia. rewrite decide_False by lia. done.
Qed.

(** ** Little-endian bytes *)

Fixpoint le_bytes (n : nat) (v : Z) : list Z :=
  match n with
  | O => []
  | S n => u8 v :: le_bytes n (v / 256)
  end.

Fixpoint le_num (l : list Z) : Z :=
  match l with
  | [] => 0
  | b :: l => b + 256 * le_num l
  end.

(** A sequence of 32-bit words as bytes. *)
Definition words_bytes (ws : list Z) : list Z := ws ≫= le_bytes 4.

Lemma length_le_bytes n v : length (le_bytes n v) = n.
Proof. revert v. induction n; intros; simpl; auto. Qed.

Lemma le_num_le_bytes n v : le_num (le_bytes n v) = v mod 256 ^ Z.of_nat n.
Proof.
  revert v. induction n as [|n IH]; intros v; [by rewrite Z.mod_1_r|].
  cbn [le_bytes le_num]. rewrite IH. replace (Z.of_nat (S n)) with (1 + Z.of_nat n) by lia.
  rewrite Z.pow_add_r, Z.rem_mul_r by lia. unfold wrap. done.
Qed.

Lemma words_bytes_app ws ws' : words_bytes (ws ++ ws') = words_bytes ws ++ words_bytes ws'.
Proof. apply bind_app. Qed.

Lemma length_words_bytes ws : length (words_bytes ws) = (4 * length ws)%nat.
Proof.
  induction ws as [|w ws IH]; [done|]. unfold words_bytes in *. cbn [mbind list_bind].
  rewrite length_app, length_le_bytes, IH. simpl. lia.
Qed.

Lemma words_bytes_split ws i w :
  ws !! i = Some w →
  words_bytes ws = words_bytes (take i ws) ++ le_bytes 4 w ++ words_bytes (drop (S i) ws).
Proof.
  intros Hi. rewrite <- (take_drop_middle ws i w Hi) at 1. rewrite words_bytes_app. done.
Qed.

(** Sixty-four-bit literals as pairs of words. *)
Definition dword (v : Z) : list Z := [u32 v; u32 (v / 2 ^ 32)].

Lemma le_bytes_dword v : le_bytes 8 v = words_bytes (dword v).
Proof.
  unfold dword, words_bytes. cbn [mbind list_bind app le_bytes].
  assert (H : ∀ k, 0 ≤ k ≤ 3 → ∀ x, u8 (u32 x / 256 ^ k) = u8 (x / 256 ^ k)).
  { intros k Hk x. unfold wrap.
    assert (k = 0 ∨ k = 1 ∨ k = 2 ∨ k = 3) as [->|[->|[->| ->]]] by lia;
      simpl; Z.to_euclidean_division_equations; lia. }
  rewrite !Zdiv.Zdiv_Zdiv by lia.
  pose proof (λ x, H 0 ltac:(lia) x) as H0. pose proof (λ x, H 1 ltac:(lia) x) as H1.
  pose proof (λ x, H 2 ltac:(lia) x) as H2. pose proof (λ x, H 3 ltac:(lia) x) as H3.
  change (256 ^ 0) with 1 in H0. change (256 ^ 1) with 256 in H1.
  change (256 ^ 2) with 65536 in H2. change (256 ^ 3) with 16777216 in H3.
  setoid_rewrite Z.div_1_r in H0. cbn. rewrite !H0, !H1, !H2, !H3.
  by rewrite !Zdiv.Zdiv_Zdiv by lia.
Qed.

Lemma words_bytes_one w : words_bytes [w] = le_bytes 4 w.
Proof. apply app_nil_r. Qed.

Lemma le_bytes_u8 n v : Forall (λ b, u8 b = b) (le_bytes n v).
Proof. revert v. induction n as [|n IH]; intros v; constructor; [by apply wrap_idem|apply IH]. Qed.

Lemma words_bytes_u8 ws : Forall (λ b, u8 b = b) (words_bytes ws).
Proof.
  induction ws as [|w ws IH]; [constructor|]. change (w :: ws) with ([w] ++ ws).
  rewrite words_bytes_app, words_bytes_one. apply Forall_app. split; [apply le_bytes_u8|done].
Qed.

#[global] Opaque le_bytes.
#[global] Opaque words_bytes.
