(* ===== verification/DobbyMem.v ===== *)
(** * Memory management of Dobby

    The permissions and system calls of platform-posix.cc, the memory layout
    read from /proc/self/maps (ProcessRuntimeUtility.cc), the code patch tool,
    and the two allocators: MemoryAllocator.cc, which carves blocks out of
    arenas, and NearMemoryAllocator.cc, which finds one within reach of a
    branch. *)

From stdpp Require Import sorting.
From S2P Require Import Prelude CMem XhUtil DobbyBits.

#[local] Open Scope cint_scope.

(** ** Data *)

Record MemRange : Set := mkMemRange { start : Z; end_ : Z; size : Z }.
Definition MemRange_new (start size : Z) : MemRange := mkMemRange start (start ⊕ size) size.

Record MemBlock : Set := mkMemBlock { block_range : MemRange; block_addr : Z }.
Definition MemBlock_new (addr size : Z) : MemBlock := mkMemBlock (MemRange_new addr size) addr.
(** The constructor without arguments. *)
Definition MemBlock_null : MemBlock := MemBlock_new 0 0.
(** [reset] rewrites every field. *)
Definition MemBlock_reset (addr size : Z) (_ : MemBlock) : MemBlock := MemBlock_new addr size.
Definition block_size (b : MemBlock) : Z := size (block_range b).

Record MemoryArena : Set := mkMemoryArena {
  arena_range : MemRange;
  arena_addr : Z;
  cursor_addr : Z
}.
Definition MemoryArena_new (addr size : Z) : MemoryArena :=
  mkMemoryArena (MemRange_new addr size) addr addr.

Inductive MemoryPermission : Set :=
  | kNoAccess | kRead | kReadWrite | kReadWriteExecute | kReadExecute.

Record MemRegion : Set := mkMemRegion { region_range : MemRange; permission : MemoryPermission }.

(** InterceptEntry.h; the routing object is left out, no code reads it. *)
Inductive InterceptEntryType : Set := kFunctionInlineHook | kInstructionInstrument.

Record InterceptEntry : Set := mkInterceptEntry {
  id : Z;
  type : InterceptEntryType;
  patched_addr : Z;
  patched_size : Z;
  relocated_addr : Z;
  relocated_size : Z;
  origin_insns : list Z;
  origin_insn_size : Z
}.

(** ** The process as Dobby sees it

    Its memory and the objects behind the singletons: the arenas of
    MemoryAllocator, the entries of Interceptor, and whether the near branch
    plugin is installed. *)

Record dobby : Set := mkDobby {
  d_mem : memory;
  code_arenas : list MemoryArena;
  data_arenas : list MemoryArena;
  entries : list InterceptEntry;
  near_branch_trampoline : bool
}.

Abbreviation DM := (CM dobby).

Definition set_mem (m : memory) (s : dobby) : dobby :=
  mkDobby m (code_arenas s) (data_arenas s) (entries s) (near_branch_trampoline s).
Definition set_code_arenas (l : list MemoryArena) (s : dobby) : dobby :=
  mkDobby (d_mem s) l (data_arenas s) (entries s) (near_branch_trampoline s).
Definition set_data_arenas (l : list MemoryArena) (s : dobby) : dobby :=
  mkDobby (d_mem s) (code_arenas s) l (entries s) (near_branch_trampoline s).
Definition set_entries (l : list InterceptEntry) (s : dobby) : dobby :=
  mkDobby (d_mem s) (code_arenas s) (data_arenas s) l (near_branch_trampoline s).

Definition on_memory {A} (c : CM memory A) : DM A := λ s,
  let '(r, m) := c (d_mem s) in (r, set_mem m s).

(** The system calls Dobby adds to those of the hook library.  [os_mmap m addr
    len prot] is mmap of private anonymous pages, with MAP_FIXED where [addr]
    is given; [None] is MAP_FAILED.  [os_heap_entry] is what malloc leaves in a
    new InterceptEntry. *)
Class OS : Type := {
  os_kernel : Kernel;
  os_mmap : memory → option Z → Z → Z → option Z * memory;
  os_heap_entry : InterceptEntry
}.
#[export] Existing Instance os_kernel.

(** memcpy from a buffer of bytes. *)
Fixpoint memcpy (a : Z) (bs : list Z) : CM memory unit :=
  match bs with
  | [] => mret tt
  | b :: bs => _ ← store 1 a b; memcpy (a + 1) bs
  end.

(** CHECK and CHECK_EQ end in assert(0). *)
Definition CHECK (b : bool) : DM unit := if b then mret tt else fail Aborted.

Section os.
Context {os : OS}.

(** ** OSMemory (platform-posix.cc) *)

Definition GetProtectionFromMemoryPermission (access : MemoryPermission) : Z :=
  match access with
  | kNoAccess => 0
  | kRead => PROT_READ
  | kReadWrite => PROT_READ .| PROT_WRITE
  | kReadWriteExecute => PROT_READ .| PROT_WRITE .| PROT_EXEC
  | kReadExecute => PROT_READ .| PROT_EXEC
  end.

Definition PageSize : Z := PAGE_SIZE.

(** The address, or 0 for nullptr. *)
Definition OSMemory_Allocate (size : Z) (access : MemoryPermission) (fixed_address : Z) : DM Z :=
  s ← get;
  let fixed := if fixed_address =? 0 then None else Some fixed_address in
  let '(result, m) := os_mmap (d_mem s) fixed size (GetProtectionFromMemoryPermission access) in
  _ ← put (set_mem m s);
  mret (default 0 result).

Definition OSMemory_SetPermission (address size : Z) (access : MemoryPermission) : DM bool :=
  s ← get;
  let '(ret, _, m) := k_mprotect (d_mem s) address size (GetProtectionFromMemoryPermission access) in
  _ ← put (set_mem m s);
  mret (ret =? 0).

(** ** code-patch-tool-posix.cc *)

Definition mprotect (address len prot : Z) : DM unit :=
  s ← get;
  let '(_, _, m) := k_mprotect (d_mem s) address len prot in
  put (set_mem m s).

Definition ClearCache (first last : Z) : CM memory unit :=
  modify (λ m, Memory (m_data m) (m_prot m) ((first, last) :: m_flushed m)).

(** It always returns kMemoryOperationSuccess. *)
Definition DobbyCodePatch (address : Z) (buffer : list Z) : DM unit :=
  let buffer_size := u32 (Z.of_nat (length buffer)) in
  let patch_page := ALIGN_FLOOR address PageSize in
  let patch_end_page := ALIGN_FLOOR (address ⊕ buffer_size) PageSize in
  let rwx := PROT_READ .| PROT_WRITE .| PROT_EXEC in
  let rx := PROT_READ .| PROT_EXEC in
  _ ← mprotect patch_page PageSize rwx;
  _ ← when (negb (patch_page =? patch_end_page)) (mprotect patch_end_page PageSize rwx);
  _ ← on_memory (memcpy address buffer);
  _ ← mprotect patch_page PageSize rx;
  _ ← when (negb (patch_page =? patch_end_page)) (mprotect patch_end_page PageSize rx);
  on_memory (ClearCache address (address ⊕ buffer_size)).

(** ** MemoryAllocator.cc *)

Definition allocMemBlock (size : Z) (arena : MemoryArena) : option (MemBlock * MemoryArena) :=
  if end_ (arena_range arena) ⊖ cursor_addr arena <? size then None
  else
    Some (MemBlock_new (cursor_addr arena) size,
          mkMemoryArena (arena_range arena) (arena_addr arena) (cursor_addr arena ⊕ size)).

(** The loop over the arenas: the block of the first arena with room, and the
    arenas after it. *)
Fixpoint alloc_first (size : Z) (arenas : list MemoryArena) : option (MemBlock * list MemoryArena) :=
  match arenas with
  | [] => None
  | arena :: arenas =>
      match allocMemBlock size arena with
      | Some (block, arena) => Some (block, arena :: arenas)
      | None =>
          match alloc_first size arenas with
          | Some (block, arenas) => Some (block, arena :: arenas)
          | None => None
          end
      end
  end.

(** Returns the index of the new arena. *)
Definition allocateCodeMemoryArena (size : Z) : DM nat :=
  _ ← CHECK (size mod PageSize =? 0);
  arena_addr ← OSMemory_Allocate size kNoAccess 0;
  _ ← OSMemory_SetPermission arena_addr size kReadExecute;
  s ← get;
  _ ← put (set_code_arenas (code_arenas s ++ [MemoryArena_new arena_addr size]) s);
  mret (length (code_arenas s)).

(** [arena->allocMemBlock(size)] on the [i]th code arena. *)
Definition code_arena_alloc (i : nat) (size : Z) : DM (option MemBlock) :=
  s ← get;
  arena ← lift_opt Undefined (code_arenas s !! i);
  match allocMemBlock size arena with
  | None => mret None
  | Some (block, arena) =>
      _ ← put (set_code_arenas (<[i := arena]> (code_arenas s)) s);
      mret (Some block)
  end.
Definition data_arena_alloc (i : nat) (size : Z) : DM (option MemBlock) :=
  s ← get;
  arena ← lift_opt Undefined (data_arenas s !! i);
  match allocMemBlock size arena with
  | None => mret None
  | Some (block, arena) =>
      _ ← put (set_data_arenas (<[i := arena]> (data_arenas s)) s);
      mret (Some block)
  end.

(** CHECK_NOT_NULL *)
Definition check_block (block : option MemBlock) : DM MemBlock := lift_opt Aborted block.

Definition allocateExecBlock (size : Z) : DM MemBlock :=
  s ← get;
  match alloc_first size (code_arenas s) with
  | Some (block, arenas) => _ ← put (set_code_arenas arenas s); mret block
  | None =>
      let arena_size := u32 (ALIGN_CEIL size PageSize) in
      arena ← allocateCodeMemoryArena arena_size;
      block ← code_arena_alloc arena size;
      check_block block
  end.

Definition allocateExecMemory (size : Z) : DM Z :=
  block ← allocateExecBlock size; mret (block_addr block).
Definition allocateExecMemory_buffer (buffer : list Z) : DM Z :=
  mem ← allocateExecMemory (u32 (Z.of_nat (length buffer)));
  _ ← DobbyCodePatch mem buffer;
  mret mem.

Definition allocateDataMemoryArena (size : Z) : DM nat :=
  let buffer_size := u32 (ALIGN_CEIL size PageSize) in
  buffer ← OSMemory_Allocate buffer_size kNoAccess 0;
  _ ← OSMemory_SetPermission buffer buffer_size kReadWrite;
  s ← get;
  _ ← put (set_data_arenas (data_arenas s ++ [MemoryArena_new buffer buffer_size]) s);
  mret (length (data_arenas s)).

(** The new arena is a code arena of the unrounded size. *)
Definition allocateDataBlock (size : Z) : DM MemBlock :=
  s ← get;
  match alloc_first size (data_arenas s) with
  | Some (block, arenas) => _ ← put (set_data_arenas arenas s); mret block
  | None =>
      arena ← allocateCodeMemoryArena size;
      block ← code_arena_alloc arena size;
      check_block block
  end.

Definition allocateDataMemory (size : Z) : DM Z :=
  block ← allocateDataBlock size; mret (block_addr block).
Definition allocateDataMemory_buffer (buffer : list Z) : DM Z :=
  mem ← allocateDataMemory (u32 (Z.of_nat (length buffer)));
  _ ← on_memory (memcpy mem buffer);
  mret mem.

(** ** ProcessRuntimeUtility.cc *)

Definition LINE_MAX : nat := 2048.

Fixpoint scan_dec_digits (acc : Z) (l : list Z) : Z * list Z :=
  match l with
  | [] => (acc, [])
  | c :: l' =>
      if (48 <=? c) && (c <=? 57) then scan_dec_digits (10 * acc + (c - 48)) l' else (acc, l)
  end.
(** [%ld] *)
Definition scan_ld (l : list Z) : option (Z * list Z) :=
  let l := skip_space l in
  let l := match l with c :: l' => if (c =? 45) || (c =? 43) then l' else l | [] => [] end in
  match l with
  | c :: _ => if (48 <=? c) && (c <=? 57) then Some (scan_dec_digits 0 l) else None
  | [] => None
  end.
Definition scan_char (c : Z) (l : list Z) : option (list Z) :=
  match l with d :: l => if d =? c then Some l else None | [] => None end.

(** [sscanf(line, "%lx-%lx %4c %lx %hhx:%hhx %ld %n", ...) >= 7]: the region's
    bounds and its permissions. *)
Definition sscanf_region (line : list Z) : option (Z * Z * list Z) :=
  '(region_start, l) ← scan_hex line;
  l ← scan_char 45 l;
  '(region_end, l) ← scan_hex l;
  let l := skip_space l in
  let permissions := take 4 l in
  if bool_decide (permissions = []) then None
  else
    '(_, l) ← scan_hex (drop 4 l);
    '(_, l) ← scan_hex l;
    l ← scan_char 58 l;
    '(_, l) ← scan_hex l;
    '(_, _) ← scan_ld l;
    Some (region_start, region_end, permissions).

(** [permissions] is NUL-terminated by its initialiser. *)
Definition region_permission (permissions : list Z) : MemoryPermission :=
  let p i := default 0 (permissions !! i) in
  if (p 0%nat =? 114) && (p 1%nat =? 119) then kReadWrite
  else if (p 0%nat =? 114) && (p 2%nat =? 120) then kReadExecute
  else if (p 0%nat =? 114) && (p 1%nat =? 119) && (p 2%nat =? 120) then kReadWriteExecute
  else kNoAccess.

(** The rest of an overlong line. *)
Fixpoint skip_line (text : list Z) : option (list Z) :=
  match text with
  | [] => None
  | c :: text => if c =? 10 then Some text else skip_line text
  end.

(** The loop [while (!feof(fp))].  [eof] is the end-of-file flag of the stream,
    [stale] what [line_buffer] holds when fgets reads nothing: the line before,
    which the buffer of every iteration shares. *)
Fixpoint layout_loop (fuel : nat) (text : list Z) (eof : bool) (stale : list Z)
    (regions : list MemRegion) : outcome (list MemRegion) :=
  if eof then Ret regions
  else
    match fuel with
    | O => Err OutOfFuel
    | S fuel =>
        let '(line, rest) := fgets (LINE_MAX - 1) text in
        let eof := bool_decide (rest = []) && negb (bool_decide (last line = Some 10)) &&
                   (length line <? LINE_MAX - 1)%nat in
        let line_buffer := if bool_decide (line = []) then stale else cstr line in
        let overlong := (length line_buffer =? LINE_MAX)%nat in
        match (if overlong then skip_line rest else Some rest) with
        | None => Ret regions
        | Some rest =>
            match sscanf_region line_buffer with
            | None => Err Aborted
            | Some (region_start, region_end, permissions) =>
                let region := mkMemRegion (MemRange_new region_start (region_end ⊖ region_start))
                                (region_permission permissions) in
                layout_loop fuel rest eof line_buffer (regions ++ [region])
            end
        end
    end.

Definition memory_region_comparator (a b : MemRegion) : Prop :=
  start (region_range a) ≤ start (region_range b).
#[local] Instance memory_region_comparator_dec : RelDecision memory_region_comparator.
Proof. intros a b. unfold memory_region_comparator. apply _. Defined.

(** The first iteration of an empty file reads an uninitialised buffer, which
    the model takes as empty. *)
Definition GetProcessMemoryLayout : DM (list MemRegion) :=
  maps ← gets (λ s, k_maps (d_mem s));
  match maps with
  | None => mret []
  | Some text =>
      regions ← lift_outcome (layout_loop (S (S (length text))) text false [] []);
      mret (merge_sort memory_region_comparator regions)
  end.

(** ** NearMemoryAllocator.cc *)

Definition min (a b : Z) : Z := if a <? b then a else b.
Definition max (a b : Z) : Z := if b <? a then a else b.

(** The lambda allocateFromDefaultArena; 0 where the arena does not serve. *)
Definition allocateFromDefaultArena (min_valid_addr max_valid_addr : Z) (arena : MemoryArena) (sz : Z) : Z :=
  let unused_mem_start := cursor_addr arena in
  let unused_mem_end := arena_addr arena ⊕ size (arena_range arena) in
  if (unused_mem_end <? min_valid_addr) || (max_valid_addr <? unused_mem_start) then 0
  else
    let unused_mem_start := max unused_mem_start min_valid_addr in
    let unused_mem_end := min unused_mem_end max_valid_addr in
    if unused_mem_end <=? unused_mem_start then 0
    else if unused_mem_end ⊖ unused_mem_start <? sz then 0
    else unused_mem_start.

(** The loop over the code arenas stops at the first that serves. *)
Fixpoint near_code_loop (lo hi sz : Z) (i : nat) (arenas : list MemoryArena) : option (nat * Z) :=
  match arenas with
  | [] => None
  | arena :: arenas =>
      let unused_mem := allocateFromDefaultArena lo hi arena sz in
      if truthy unused_mem then Some (i, unused_mem) else near_code_loop lo hi sz (S i) arenas
  end.
(** The loop over the data arenas has no break: the last arena decides. *)
Fixpoint near_data_loop (lo hi sz : Z) (i : nat) (arenas : list MemoryArena)
    (found : option (nat * Z)) : option (nat * Z) :=
  match arenas with
  | [] => found
  | arena :: arenas =>
      let unused_mem := allocateFromDefaultArena lo hi arena sz in
      near_data_loop lo hi sz (S i) arenas (if truthy unused_mem then Some (i, unused_mem) else None)
  end.

Definition allocateNearBlockFromDefaultAllocator (size pos search_range : Z) (executable : bool)
  : DM (option MemBlock) :=
  let min_valid_addr := pos ⊖ search_range in
  let max_valid_addr := pos ⊕ search_range in
  s ← get;
  let arenas := if executable then code_arenas s else data_arenas s in
  let found :=
    if executable then near_code_loop min_valid_addr max_valid_addr size 0 arenas
    else near_data_loop min_valid_addr max_valid_addr size 0 arenas None in
  match found with
  | None => mret None
  | Some (i, unused_mem) =>
      arena ← lift_opt Undefined (arenas !! i);
      let placeholder_block_size := unused_mem ⊖ cursor_addr arena in
      let arena_alloc := if executable then code_arena_alloc else data_arena_alloc in
      _ ← arena_alloc i placeholder_block_size;
      arena_alloc i size
  end.

(** The lambda check_has_sufficient_memory_between_region. *)
Definition check_has_sufficient_memory_between_region (min_valid_addr max_valid_addr : Z)
    (region next_region : MemRegion) (sz : Z) : Z :=
  let unused_mem_start := start (region_range region) ⊕ size (region_range region) in
  let unused_mem_end := start (region_range next_region) in
  if (unused_mem_end <? min_valid_addr) || (max_valid_addr <? unused_mem_start) then 0
  else
    let unused_mem_start := ALIGN_FLOOR unused_mem_start 4 in
    let unused_mem_start := max unused_mem_start min_valid_addr in
    let unused_mem_end := min unused_mem_end max_valid_addr in
    if unused_mem_end <=? unused_mem_start then 0
    else if unused_mem_end ⊖ unused_mem_start <? sz then 0
    else unused_mem_start.

Fixpoint near_region_loop (lo hi sz : Z) (regions : list MemRegion) : Z :=
  match regions with
  | r :: ((r' :: _) as rest) =>
      let unused_mem := check_has_sufficient_memory_between_region lo hi r r' sz in
      if unused_mem =? 0 then near_region_loop lo hi sz rest else unused_mem
  | _ => 0
  end.

(** The lambda register_near_arena: the index of the new arena. *)
Definition register_near_arena (arena_addr arena_size : Z) (executable : bool) : DM nat :=
  s ← get;
  let arena := MemoryArena_new arena_addr arena_size in
  _ ← put (if executable then set_code_arenas (code_arenas s ++ [arena]) s
           else set_data_arenas (data_arenas s ++ [arena]) s);
  _ ← OSMemory_SetPermission arena_addr arena_size (if executable then kReadExecute else kReadWrite);
  mret (length (if executable then code_arenas s else data_arenas s)).

Definition allocateNearBlockFromUnusedRegion (size pos search_range : Z) (executable : bool)
  : DM (option MemBlock) :=
  let min_valid_addr := pos ⊖ search_range in
  let max_valid_addr := pos ⊕ search_range in
  regions ← GetProcessMemoryLayout;
  let unused_mem := near_region_loop min_valid_addr max_valid_addr size regions in
  if unused_mem =? 0 then mret None
  else
    let unused_arena_first_page_addr := ALIGN_FLOOR unused_mem PageSize in
    let unused_arena_end_page_addr := ALIGN_FLOOR (unused_mem ⊕ size) PageSize in
    let unused_arena_size := unused_arena_end_page_addr ⊖ unused_arena_first_page_addr ⊕ PageSize in
    let unused_arena_addr := unused_arena_first_page_addr in
    got ← OSMemory_Allocate unused_arena_size kNoAccess unused_arena_addr;
    if got =? 0 then mret None
    else
      unused_arena ← register_near_arena unused_arena_addr unused_arena_size executable;
      let placeholder_block_size := unused_mem ⊖ unused_arena_addr in
      let arena_alloc := if executable then code_arena_alloc else data_arena_alloc in
      _ ← arena_alloc unused_arena placeholder_block_size;
      arena_alloc unused_arena size.

Definition allocateNearBlock (size pos search_range : Z) (executable : bool) : DM (option MemBlock) :=
  result ← allocateNearBlockFromDefaultAllocator size pos search_range executable;
  match result with
  | Some block => mret (Some block)
  | None => allocateNearBlockFromUnusedRegion size pos search_range executable
  end.

(** nullptr is 0. *)
Definition allocateNearExecMemory (size pos search_range : Z) : DM Z :=
  block ← allocateNearBlock size pos search_range true;
  mret (match block with Some block => block_addr block | None => 0 end).
Definition allocateNearExecMemory_buffer (buffer : list Z) (pos search_range : Z) : DM Z :=
  mem ← allocateNearExecMemory (u32 (Z.of_nat (length buffer))) pos search_range;
  _ ← DobbyCodePatch mem buffer;
  mret mem.

Definition allocateNearDataMemory (size pos search_range : Z) : DM Z :=
  block ← allocateNearBlock size pos search_range false;
  mret (match block with Some block => block_addr block | None => 0 end).
(** The memory comes from the executable allocator. *)
Definition allocateNearDataMemory_buffer (buffer : list Z) (pos search_range : Z) : DM Z :=
  mem ← allocateNearExecMemory (u32 (Z.of_nat (length buffer))) pos search_range;
  _ ← on_memory (memcpy mem buffer);
  mret mem.

End os.
