(* ===== verification/DobbyMemProps.v ===== *)
(** * Memory patched and handed out by Dobby

    What the code patch tool does to the memory, and that the blocks the
    allocators hand out are mapped and never overlap.  The kernel is assumed to
    do what the manual pages of mmap and mprotect say, and to let the process
    change the permissions of its pages. *)

From stdpp Require Import sorting.
From S2P Require Import Prelude CMem XhUtil DobbyBits DobbyMem.

#[local] Open Scope cint_scope.

(** ** The kernel *)

Definition page_mapped (m : memory) (a : Z) : Prop := is_Some (m_prot m !! (a / PAGE_SIZE)).
Definition range_mapped (m : memory) (a n : Z) : Prop := ∀ b, a ≤ b < a + n → page_mapped m b.

#[export] Instance page_mapped_dec m a : Decision (page_mapped m a).
Proof. unfold page_mapped. apply _. Defined.

(** mmap put pages at [a]: their permission is set, no other byte changes. *)
Definition maps_pages (a len prot : Z) (m m' : memory) : Prop :=
  m_prot m' = m_prot (set_prot a len prot m) ∧
  (∀ b, ¬ a ≤ b < a + len → byte_of m' b = byte_of m b).

(** An mprotect that succeeds sets the permission, of one page that fails
    changes nothing, and it does fail for an unmapped page (ENOMEM); mmap
    without an address finds unmapped pages. *)
Class OSLaws (os : OS) : Prop := {
  os_mprotect_done m a len prot e m' :
    k_mprotect m a len prot = (0, e, m') → m' = set_prot a len prot m;
  os_mprotect_failed m a prot r e m' :
    k_mprotect m a PAGE_SIZE prot = (r, e, m') → r ≠ 0 → m' = m;
  os_mprotect_unmapped m a prot r e m' :
    ¬ page_mapped m a → k_mprotect m a PAGE_SIZE prot = (r, e, m') → r ≠ 0;
  os_mmap_fresh m len prot a m' :
    os_mmap m None len prot = (Some a, m') → 0 < len → len mod PAGE_SIZE = 0 →
    0 < a ∧ a mod PAGE_SIZE = 0 ∧ a + len < 2 ^ 63 ∧
    (∀ b, a ≤ b < a + len → ¬ page_mapped m b) ∧ maps_pages a len prot m m';
  os_mmap_failed m o len prot m' : os_mmap m o len prot = (None, m') → m' = m;
  os_mmap_fixed m fixed len prot a m' :
    os_mmap m (Some fixed) len prot = (Some a, m') → 0 < len → fixed mod PAGE_SIZE = 0 →
    len mod PAGE_SIZE = 0 → a = fixed ∧ maps_pages a len prot m m'
}.

(** What the manual does not promise: mprotect can refuse to make a mapped page
    executable or writable (EACCES, by the mapping of a file or a policy), or
    find no memory for it.  The theorems about a hook that is installed are for
    a process that is allowed it: mprotect of mapped pages succeeds. *)
Class OSGrants (os : OS) : Prop := {
  os_mprotect_mapped m a len prot :
    a mod PAGE_SIZE = 0 → len mod PAGE_SIZE = 0 → range_mapped m a len →
    ∃ e, k_mprotect m a len prot = (0, e, set_prot a len prot m)
}.

(** A kernel that maps above everything it has mapped. *)
Definition top_page (m : memory) : Z := map_fold (λ k _ acc, Z.max acc (k + 1)) 1 (m_prot m).

Definition sample_mmap (m : memory) (addr : option Z) (len prot : Z) : option Z * memory :=
  let a := default (top_page m * PAGE_SIZE) addr in
  if (0 <? len) && (a + len <? 2 ^ 63) then (Some a, set_prot a len prot m) else (None, m).

Definition sample_mprotect (m : memory) (a len prot : Z) : Z * Z * memory :=
  if forallb (λ i, bool_decide (page_mapped m (a + PAGE_SIZE * Z.of_nat i)))
       (seq 0 (Z.to_nat (len / PAGE_SIZE)))
  then (0, 0, set_prot a len prot m) else (-1, 12, m).

Definition sample_os (maps : option (list Z)) (heap : InterceptEntry) : OS := {|
  os_kernel := {| k_mprotect := sample_mprotect; k_maps _ := maps |};
  os_mmap := sample_mmap;
  os_heap_entry := heap
|}.

Lemma top_page_above m k : is_Some (m_prot m !! k) → k < top_page m.
Proof.
  unfold top_page. apply (map_fold_weak_ind (λ r pm, is_Some (pm !! k) → k < r)).
  - by rewrite lookup_empty; intros [].
  - intros i x pm r Hi IH. destruct (decide (i = k)) as [->|Hne]; [lia|].
    rewrite lookup_insert_ne by done. intros H. specialize (IH H). lia.
Qed.

Lemma top_page_pos m : 0 < top_page m.
Proof.
  unfold top_page. apply (map_fold_weak_ind (λ r _, 0 < r)); [lia|]. intros. lia.
Qed.

Lemma aligned_page a i : a mod PAGE_SIZE = 0 → (a + PAGE_SIZE * i) / PAGE_SIZE = a / PAGE_SIZE + i.
Proof. unfold PAGE_SIZE. intros. Z.to_euclidean_division_equations. lia. Qed.

#[export] Instance sample_os_grants maps heap : OSGrants (sample_os maps heap).
Proof.
  split. intros m a len prot Ha Hl Hm. exists 0. simpl. unfold sample_mprotect.
  assert (Hall : forallb (λ i, bool_decide (page_mapped m (a + PAGE_SIZE * Z.of_nat i)))
    (seq 0 (Z.to_nat (len / PAGE_SIZE))) = true); [|by rewrite Hall].
  apply forallb_forall. intros i Hi%in_seq. apply bool_decide_eq_true. apply Hm.
  unfold PAGE_SIZE in *. Z.to_euclidean_division_equations. lia.
Qed.

#[export] Instance sample_os_laws maps heap : OSLaws (sample_os maps heap).
Proof.
  split.
  - intros m a len prot e m'. simpl. unfold sample_mprotect. by case_match; intros [= <- <-].
  - intros m a prot r e m'. simpl. unfold sample_mprotect. by case_match; intros [= <- _ <-].
  - intros m a prot r e m' Hm. simpl. unfold sample_mprotect.
    change (Z.to_nat (PAGE_SIZE / PAGE_SIZE)) with 1%nat. simpl.
    rewrite Z.add_0_r, bool_decide_false by done. by intros [= <- _ _].
  - intros m len prot a m'. simpl. unfold sample_mmap. simpl. case_match eqn:E; [|done].
    intros [= <- <-] Hl Hlen. pose proof (top_page_pos m). apply andb_true_iff in E as [_ E].
    split_and!; [unfold PAGE_SIZE; lia|by apply Z_mod_mult|lia| |done].
    intros b Hb [p Hp]. pose proof (top_page_above m (b / PAGE_SIZE) ltac:(eauto)).
    unfold PAGE_SIZE in *. Z.to_euclidean_division_equations. lia.
  - intros m o len prot m'. simpl. unfold sample_mmap. case_match; by intros [= <-].
  - intros m fixed len prot a m'. simpl. unfold sample_mmap. simpl. case_match; [|done].
    by intros [= <- <-].
Qed.

(** ** memcpy *)

Fixpoint write_bytes (a : Z) (bs : list Z) (m : memory) : memory :=
  match bs with
  | [] => m
  | b :: bs => write_bytes (a + 1) bs (write_number 1 a b m)
  end.

Lemma memcpy_inv a bs m u m' : memcpy a bs m = (Ret u, m') → m' = write_bytes a bs m.
Proof.
  revert a m. induction bs as [|b bs IH]; intros a m H; simpl in *; [by injection H|].
  apply CM_bind_inv in H as (v & m1 & H1 & H2). apply store_inv in H1 as [_ ->]. by apply IH.
Qed.

Lemma write_bytes_prot a bs m : m_prot (write_bytes a bs m) = m_prot m.
Proof. revert a m. induction bs as [|b bs IH]; intros a m; [done|]. simpl. by rewrite IH. Qed.

Lemma memcpy_run a bs m :
  (∀ i, 0 ≤ i < Z.of_nat (length bs) → byte_allows PROT_WRITE m (a + i) = true) →
  memcpy a bs m = (Ret tt, write_bytes a bs m).
Proof.
  revert a m. induction bs as [|b bs IH]; intros a m H; [done|]. cbn [memcpy write_bytes].
  assert (Hs : store 1 a b m = (Ret tt, write_number 1 a b m)).
  { unfold store. simpl. rewrite <- (Z.add_0_r a) at 1. rewrite H by (simpl; lia). done. }
  rewrite (CM_bind_Ret _ _ _ _ _ Hs). apply IH. intros i Hi.
  change (byte_allows PROT_WRITE (write_number 1 a b m) (a + 1 + i)) with
    (byte_allows PROT_WRITE m (a + 1 + i)).
  replace (a + 1 + i) with (a + (i + 1)) by lia. apply H. simpl. lia.
Qed.

Lemma byte_of_write_bytes a bs m x :
  byte_of (write_bytes a bs m) x =
  if decide (a ≤ x < a + Z.of_nat (length bs)) then u8 (default 0 (bs !! Z.to_nat (x - a))) else byte_of m x.
Proof.
  revert a m. induction bs as [|b bs IH]; intros a m; cbn [write_bytes].
  { rewrite decide_False; [done|simpl; lia]. }
  rewrite IH. cbn [length]. case_decide as H1.
  - rewrite decide_True by lia. replace (Z.to_nat (x - a)) with (S (Z.to_nat (x - (a + 1)))) by lia. done.
  - destruct (decide (x = a)) as [->|Hne].
    + rewrite decide_True by lia. rewrite Z.sub_diag. simpl. unfold byte_of. simpl.
      rewrite lookup_insert_eq. simpl. by apply wrap_idem.
    + rewrite decide_False by lia. apply byte_of_write_ne. lia.
Qed.

(** A range of little-endian bytes, read as a number. *)
Lemma number_of_bytes m a bs n i :
  (∀ k, (k < length bs)%nat → byte_of m (a + Z.of_nat k) = default 0 (bs !! k)) →
  (i + n ≤ length bs)%nat → number_of m n (a + Z.of_nat i) = le_num (take n (drop i bs)).
Proof.
  intros Hb. revert i. induction n as [|n IH]; intros i Hi; [by rewrite take_0|].
  cbn [number_of]. rewrite Hb by lia.
  replace (a + Z.of_nat i + 1) with (a + Z.of_nat (S i)) by lia. rewrite IH by lia.
  destruct (lookup_lt_is_Some_2 bs i) as [b Hbi]; [lia|]. rewrite Hbi.
  rewrite (drop_S bs b i Hbi). done.
Qed.

(** ** The code patch tool *)

Lemma ALIGN_FLOOR_page a : ALIGN_FLOOR a PageSize = a / PAGE_SIZE * PAGE_SIZE.
Proof.
  unfold ALIGN_FLOOR, PageSize, PAGE_SIZE. change (4096 - 1) with (Z.ones 12).
  rewrite <- Z.ldiff_land, Z.ldiff_ones_r by lia. by rewrite Z.shiftr_div_pow2, Z.shiftl_mul_pow2 by lia.
Qed.

(** The permission of one page, where it is mapped. *)
Definition touch (p a : Z) (m : memory) : memory :=
  if decide (page_mapped m a) then set_prot a PAGE_SIZE p m else m.

Lemma set_prot_byte a len p m b : byte_of (set_prot a len p m) b = byte_of m b.
Proof. done. Qed.
Lemma touch_byte p a m b : byte_of (touch p a m) b = byte_of m b.
Proof. unfold touch. by case_decide. Qed.

Lemma set_prot_page_lookup a p m k :
  a mod PAGE_SIZE = 0 →
  m_prot (set_prot a PAGE_SIZE p m) !! k = if decide (k = a / PAGE_SIZE) then Some p else m_prot m !! k.
Proof.
  intros Ha. unfold set_prot. simpl. change (Z.to_nat (PAGE_SIZE / PAGE_SIZE)) with 1%nat. simpl.
  rewrite Z.add_0_r. case_decide as Hk; [subst; by rewrite lookup_insert_eq|].
  by rewrite lookup_insert_ne.
Qed.

Lemma touch_mapped p a m b : a mod PAGE_SIZE = 0 → page_mapped (touch p a m) b ↔ page_mapped m b.
Proof.
  intros Ha. unfold touch. case_decide as Hm; [|done]. unfold page_mapped in *.
  rewrite set_prot_page_lookup by done. case_decide as Hb; [|done]. rewrite Hb. split; [done|eauto].
Qed.

Lemma touch_prot p a m b :
  a mod PAGE_SIZE = 0 →
  prot_at (touch p a m) b =
  if decide (page_mapped m b ∧ b / PAGE_SIZE = a / PAGE_SIZE) then p else prot_at m b.
Proof.
  intros Ha. unfold touch, prot_at. destruct (decide (page_mapped m a)) as [Hm|Hm].
  - rewrite set_prot_page_lookup by done. destruct (decide (b / PAGE_SIZE = a / PAGE_SIZE)) as [E|E].
    + rewrite decide_True; [done|]. unfold page_mapped in *. by rewrite E.
    + rewrite decide_False; [done|]. tauto.
  - rewrite decide_False; [done|]. intros [Hb E]. apply Hm. unfold page_mapped in *. by rewrite <- E.
Qed.

Section patch.
Context {os : OS} {laws : OSLaws os} {grants : OSGrants os}.

Lemma mprotect_touch s a p :
  a mod PAGE_SIZE = 0 → mprotect a PageSize p s = (Ret tt, set_mem (touch p a (d_mem s)) s).
Proof using laws grants.
  intros Ha. unfold mprotect, touch, mbind, CM_bind, get, put.
  destruct (decide (page_mapped (d_mem s) a)) as [Hm|Hm].
  - destruct (os_mprotect_mapped (d_mem s) a PAGE_SIZE p) as [e He]; [done|done| |].
    { intros b Hb. unfold page_mapped in *. replace (b / PAGE_SIZE) with (a / PAGE_SIZE); [done|].
      unfold PAGE_SIZE in *. Z.to_euclidean_division_equations. lia. }
    unfold PageSize. by rewrite He.
  - destruct (k_mprotect (d_mem s) a PageSize p) as [[r e] m'] eqn:He.
    pose proof (os_mprotect_unmapped _ _ _ _ _ _ Hm He) as Hr. by rewrite (os_mprotect_failed _ _ _ _ _ _ He Hr).
Qed.

(** The memory after a patch of [bs] at [a]. *)
Record patched (a : Z) (bs : list Z) (m m' : memory) : Prop := {
  patched_bytes b : byte_of m' b =
    if decide (a ≤ b < a + Z.of_nat (length bs)) then u8 (default 0 (bs !! Z.to_nat (b - a))) else byte_of m b;
  patched_mapped b : page_mapped m' b ↔ page_mapped m b;
  patched_prot b : prot_at m' b =
    if decide (page_mapped m b ∧
               (b / PAGE_SIZE = a / PAGE_SIZE ∨ b / PAGE_SIZE = (a + Z.of_nat (length bs)) / PAGE_SIZE))
    then PROT_READ .| PROT_EXEC else prot_at m b
}.

Lemma page_aligned x : (x / PAGE_SIZE * PAGE_SIZE) mod PAGE_SIZE = 0.
Proof using Type. by apply Z_mod_mult. Qed.
Lemma page_div x : x / PAGE_SIZE * PAGE_SIZE / PAGE_SIZE = x / PAGE_SIZE.
Proof using Type. by apply Z_div_mult_full. Qed.

(** Both pages, in one go. *)
Definition touch2 (p x y : Z) (m : memory) : memory :=
  let m := touch p (x / PAGE_SIZE * PAGE_SIZE) m in
  if x / PAGE_SIZE * PAGE_SIZE =? y / PAGE_SIZE * PAGE_SIZE then m
  else touch p (y / PAGE_SIZE * PAGE_SIZE) m.

Lemma touch2_byte p x y m b : byte_of (touch2 p x y m) b = byte_of m b.
Proof using Type. unfold touch2. case_match; by rewrite !touch_byte. Qed.
Lemma touch2_mapped p x y m b : page_mapped (touch2 p x y m) b ↔ page_mapped m b.
Proof using Type. unfold touch2. case_match; by rewrite !touch_mapped by apply page_aligned. Qed.
Lemma touch2_prot p x y m b :
  prot_at (touch2 p x y m) b =
  if decide (page_mapped m b ∧ (b / PAGE_SIZE = x / PAGE_SIZE ∨ b / PAGE_SIZE = y / PAGE_SIZE))
  then p else prot_at m b.
Proof using Type.
  unfold touch2. destruct (Z.eqb_spec (x / PAGE_SIZE * PAGE_SIZE) (y / PAGE_SIZE * PAGE_SIZE)) as [E|E].
  - rewrite touch_prot, page_div by apply page_aligned.
    assert (x / PAGE_SIZE = y / PAGE_SIZE) as <- by (unfold PAGE_SIZE in *; lia).
    apply decide_ext. tauto.
  - rewrite !touch_prot, !page_div by apply page_aligned.
    destruct (decide (page_mapped m b ∧ (b / PAGE_SIZE = x / PAGE_SIZE ∨ b / PAGE_SIZE = y / PAGE_SIZE))) as [H|H].
    + case_decide as H1; [done|]. rewrite touch_mapped in H1 by apply page_aligned.
      rewrite decide_True; [done|]. tauto.
    + rewrite decide_False; [rewrite decide_False; [done|]|]; [tauto|].
      rewrite touch_mapped by apply page_aligned. tauto.
Qed.

Lemma mprotect_two s x y p :
  (_ ← mprotect (x / PAGE_SIZE * PAGE_SIZE) PageSize p;
   when (negb (x / PAGE_SIZE * PAGE_SIZE =? y / PAGE_SIZE * PAGE_SIZE))
     (mprotect (y / PAGE_SIZE * PAGE_SIZE) PageSize p)) s = (Ret tt, set_mem (touch2 p x y (d_mem s)) s).
Proof using laws grants.
  rewrite (CM_bind_Ret _ _ _ _ _ (mprotect_touch s _ p (page_aligned x))). unfold touch2.
  destruct (_ =? _); simpl; [done|]. by rewrite mprotect_touch by apply page_aligned.
Qed.

Lemma DobbyCodePatch_run s a bs :
  0 ≤ a → a + Z.of_nat (length bs) < 2 ^ 64 → Z.of_nat (length bs) ≤ PAGE_SIZE →
  range_mapped (d_mem s) a (Z.of_nat (length bs)) →
  ∃ m', DobbyCodePatch a bs s = (Ret tt, set_mem m' s) ∧ patched a bs (d_mem s) m'.
Proof using laws grants.
  intros Ha Hend Hlen Hmap. unfold DobbyCodePatch.
  assert (Hsz : u32 (Z.of_nat (length bs)) = Z.of_nat (length bs))
    by (apply wrap_small; unfold PAGE_SIZE in *; lia).
  rewrite Hsz, (wrap_small 64 (a + _)), !ALIGN_FLOOR_page by lia.
  set (e := a + Z.of_nat (length bs)) in *.
  set (rwx := PROT_READ .| PROT_WRITE .| PROT_EXEC). set (rx := PROT_READ .| PROT_EXEC).
  set (m1 := touch2 rwx a e (d_mem s)). set (m2 := write_bytes a bs m1). set (m3 := touch2 rx a e m2).
  set (m4 := Memory (m_data m3) (m_prot m3) ((a, e) :: m_flushed m3)).
  exists m4. split.
  - rewrite <- CM_assoc, (CM_bind_Ret _ _ _ _ _ (mprotect_two s a e rwx)).
    assert (Hcpy : on_memory (memcpy a bs) (set_mem m1 s) = (Ret tt, set_mem m2 s)).
    { unfold on_memory. simpl. rewrite memcpy_run; [done|]. intros i Hi. unfold byte_allows, m1.
      rewrite touch2_prot, decide_True; [done|]. split; [apply Hmap; lia|].
      unfold e, PAGE_SIZE in *. Z.to_euclidean_division_equations. lia. }
    rewrite (CM_bind_Ret _ _ _ _ _ Hcpy), <- CM_assoc.
    rewrite (CM_bind_Ret _ _ _ _ _ (mprotect_two (set_mem m2 s) a e rx)). done.
  - split; intros b.
    + change (byte_of m4 b) with (byte_of m3 b). unfold m3. rewrite touch2_byte. unfold m2.
      rewrite byte_of_write_bytes. unfold m1. by rewrite touch2_byte.
    + change (page_mapped m4 b) with (page_mapped m3 b). unfold m3. rewrite touch2_mapped.
      unfold page_mapped at 1, m2. rewrite write_bytes_prot. apply touch2_mapped.
    + change (prot_at m4 b) with (prot_at m3 b). unfold m3. rewrite touch2_prot.
      assert (Hm2 : page_mapped m2 b ↔ page_mapped (d_mem s) b).
      { unfold page_mapped at 1, m2. rewrite write_bytes_prot. apply touch2_mapped. }
      destruct (decide (page_mapped (d_mem s) b ∧ (b / PAGE_SIZE = a / PAGE_SIZE ∨ b / PAGE_SIZE = e / PAGE_SIZE))) as [H|H].
      * by rewrite !decide_True by (tauto || (rewrite Hm2; exact H)).
      * rewrite !decide_False by (tauto || (rewrite Hm2; exact H)). unfold prot_at, m2. rewrite write_bytes_prot.
        fold (prot_at m1 b). unfold m1. by rewrite touch2_prot, decide_False.
Qed.

End patch.

(** ** The allocators *)

Definition all_arenas (s : dobby) : list MemoryArena := code_arenas s ++ data_arenas s.
Definition arena_end (ar : MemoryArena) : Z := end_ (arena_range ar).

(** An arena is a mapped range with its cursor inside. *)
Record arena_ok (m : memory) (ar : MemoryArena) : Prop := {
  arena_ok_start : 0 < arena_addr ar;
  arena_ok_size : 0 < size (arena_range ar);
  arena_ok_end : arena_end ar = arena_addr ar + size (arena_range ar) ∧ arena_end ar < 2 ^ 63;
  arena_ok_cursor : arena_addr ar ≤ cursor_addr ar ≤ arena_end ar;
  arena_ok_mapped : range_mapped m (arena_addr ar) (size (arena_range ar))
}.

Definition apart (ar ar' : MemoryArena) : Prop :=
  arena_end ar ≤ arena_addr ar' ∨ arena_end ar' ≤ arena_addr ar.

Definition pairwise {A} (R : relation A) (l : list A) : Prop :=
  ∀ i j x y, i ≠ j → l !! i = Some x → l !! j = Some y → R x y.

(** The invariant of the allocators. *)
Record arenas_ok (s : dobby) : Prop := {
  arenas_each : Forall (arena_ok (d_mem s)) (all_arenas s);
  arenas_apart : pairwise apart (all_arenas s)
}.

(** Memory in use that no arena will hand out. *)
Record in_use (s : dobby) (x n : Z) : Prop := {
  in_use_mapped : range_mapped (d_mem s) x n;
  in_use_free ar : ar ∈ all_arenas s → x + n ≤ cursor_addr ar ∨ arena_end ar ≤ x
}.

(** Mapped memory is left as it is. *)
Record undisturbed (m m' : memory) : Prop := {
  undisturbed_mapped b : page_mapped m b → page_mapped m' b;
  undisturbed_bytes b : page_mapped m b → byte_of m' b = byte_of m b;
  undisturbed_prot b : page_mapped m b → prot_at m' b = prot_at m b
}.

#[export] Instance undisturbed_preorder : PreOrder undisturbed.
Proof.
  split; [by split|]. intros a b c [H1 H2 H3] [H4 H5 H6].
  split; intros x Hx; [auto|by rewrite H5, H2 by auto|by rewrite H6, H3 by auto].
Qed.

(** What a block [a, a + n) handed out between [s] and [s'] means. *)
Record handed_out (s s' : dobby) (a n : Z) : Prop := {
  handed_ok : arenas_ok s';
  handed_range : 0 < a ∧ a + n < 2 ^ 63;
  handed_in_use : in_use s' a n;
  handed_fresh x k : 0 < k → in_use s x k → in_use s' x k ∧ (x + k ≤ a ∨ a + n ≤ x);
  handed_undisturbed : undisturbed (d_mem s) (d_mem s')
}.

Lemma pairwise_insert {A} (R : relation A) l i x y :
  pairwise R l → l !! i = Some x → (∀ z, R x z → R y z) → (∀ z, R z x → R z y) →
  pairwise R (<[i := y]> l).
Proof.
  intros H Hi H1 H2 j k u v Hjk Hj Hk. rewrite list_lookup_insert in Hj, Hk.
  pose proof (lookup_lt_Some _ _ _ Hi).
  destruct (decide (i = j)) as [->|]; [rewrite decide_True in Hj by done|rewrite decide_False in Hj by tauto];
    (destruct (decide (i = k)) as [->|] || destruct (decide (j = k)) as [->|]);
    try (rewrite decide_True in Hk by done); try (rewrite decide_False in Hk by tauto); simplify_eq; eauto.
Qed.

Lemma pairwise_middle {A} (R : relation A) l1 l2 y :
  pairwise R (l1 ++ l2) → (∀ x, x ∈ l1 ++ l2 → R x y ∧ R y x) → pairwise R (l1 ++ y :: l2).
Proof.
  intros H Hy.
  assert (Hget : ∀ i x, (l1 ++ y :: l2) !! i = Some x →
    (i = length l1 ∧ x = y) ∨ ∃ i', (l1 ++ l2) !! i' = Some x ∧
      (i < length l1 ∧ i' = i ∨ length l1 < i ∧ i = S i')%nat).
  { intros i x Hi. apply lookup_app_Some in Hi as [Hi|[Hle Hi]].
    - right. exists i. pose proof (lookup_lt_Some _ _ _ Hi). rewrite lookup_app_l by done. auto.
    - destruct (i - length l1)%nat as [|k] eqn:E; simpl in Hi; [left; split; [lia|congruence]|].
      right. exists (length l1 + k)%nat. rewrite lookup_app_r by lia.
      replace (length l1 + k - length l1)%nat with k by lia. split; [done|lia]. }
  intros i j x z Hij Hi Hj. apply Hget in Hi as [[-> ->]|(i' & Hi & Hi')]; apply Hget in Hj as [[-> ->]|(j' & Hj & Hj')].
  - done.
  - apply Hy. by eapply list_elem_of_lookup_2.
  - apply Hy. by eapply list_elem_of_lookup_2.
  - apply (H i' j'); [lia|done..].
Qed.

(** *** A block carved out of an arena *)

Lemma allocMemBlock_some n ar b ar' m :
  arena_ok m ar → 0 ≤ n → allocMemBlock n ar = Some (b, ar') →
  cursor_addr ar + n ≤ arena_end ar ∧ b = MemBlock_new (cursor_addr ar) n ∧
  arena_range ar' = arena_range ar ∧ arena_addr ar' = arena_addr ar ∧ cursor_addr ar' = cursor_addr ar + n.
Proof.
  intros [H1 H0 [H2 H3] H4 H5] Hn. unfold allocMemBlock. fold (arena_end ar).
  rewrite (wrap_small 64 (arena_end ar - cursor_addr ar)) by lia. case_match; [done|].
  intros [= <- <-]. split_and!; try done; simpl; [lia|]. rewrite wrap_small; lia.
Qed.

(** A block [a, a + n) of the free part of the [k]th arena, whose cursor moves
    behind it. *)
Lemma carve_ok s s' k ar ar' a n :
  arenas_ok s → all_arenas s !! k = Some ar → all_arenas s' = <[k := ar']> (all_arenas s) →
  d_mem s' = d_mem s → 0 < n → cursor_addr ar ≤ a → a + n ≤ arena_end ar →
  arena_range ar' = arena_range ar → arena_addr ar' = arena_addr ar → cursor_addr ar' = a + n →
  handed_out s s' a n.
Proof.
  intros [He Hap] Hk Hall Hm Hn Hcur Hroom Hr Ha Hc.
  assert (Hok : arena_ok (d_mem s) ar) by (by eapply Forall_lookup_1).
  assert (Hend : arena_end ar' = arena_end ar) by (unfold arena_end; by rewrite Hr).
  destruct Hok as [O1 O0 [O2 O3] O4 O5].
  assert (Hin : ∀ x, x ∈ all_arenas s' → x = ar' ∨ x ∈ all_arenas s ∧ apart ar x).
  { intros x Hx. rewrite Hall in Hx. apply list_elem_of_lookup_1 in Hx as [j Hj].
    rewrite list_lookup_insert in Hj. case_decide as Hd; [left; congruence|right].
    split; [by eapply list_elem_of_lookup_2|]. apply (Hap k j); [|done..].
    intros ->. apply Hd. split; [done|by eapply lookup_lt_Some]. }
  split; [split|lia| | |by rewrite Hm].
  - rewrite Hall, Hm. apply Forall_insert; [done|]. split; [lia|by rewrite Hr|rewrite Hend, Ha, Hr; lia|lia|].
    by rewrite Ha, Hr.
  - rewrite Hall. apply (pairwise_insert _ _ _ ar); [done..| |];
      unfold apart; intros z; rewrite Hend, Ha; done.
  - split; [rewrite Hm; intros b Hb; apply O5; lia|]. intros x Hx.
    destruct (Hin x Hx) as [->|[Hxs Hx']]; [lia|].
    assert (Hx2 : arena_ok (d_mem s) x) by (rewrite Forall_forall in He; auto).
    destruct Hx2 as [X1 X0 [X2 X3] X4 X5]. unfold apart in Hx'. lia.
  - intros x q Hq [Hx1 Hx2]. pose proof (Hx2 ar (list_elem_of_lookup_2 _ _ _ Hk)). split; [|lia].
    split; [by rewrite Hm|]. intros y Hy. destruct (Hin y Hy) as [->|[Hys _]]; [lia|auto].
Qed.
