(* ===== verification/DobbyAlloc.v ===== *)
(** * The blocks Dobby's allocators hand out

    Specifications of the operations of MemoryAllocator.cc and
    NearMemoryAllocator.cc, and what they promise together: whatever sequence of
    allocations and patches runs, the blocks handed out are mapped and no two
    of them overlap. *)

From stdpp Require Import sorting.
From S2P Require Import Prelude CMem XhUtil DobbyBits DobbyMem DobbyMemProps.

#[local] Open Scope cint_scope.

(** ** The two pools of arenas *)

Definition pool (executable : bool) (s : dobby) : list MemoryArena :=
  if executable then code_arenas s else data_arenas s.
Definition set_pool (executable : bool) (l : list MemoryArena) (s : dobby) : dobby :=
  if executable then set_code_arenas l s else set_data_arenas l s.
Definition pool_alloc (executable : bool) : nat → Z → DM (option MemBlock) :=
  if executable then code_arena_alloc else data_arena_alloc.

Lemma pool_set e l s : pool e (set_pool e l s) = l.
Proof. by destruct e. Qed.
Lemma set_pool_mem e l s : d_mem (set_pool e l s) = d_mem s.
Proof. by destruct e. Qed.
Lemma set_pool_twice e l l' s : set_pool e l' (set_pool e l s) = set_pool e l' s.
Proof. by destruct e. Qed.

Lemma pool_alloc_run e i n s ar :
  pool e s !! i = Some ar →
  pool_alloc e i n s =
  match allocMemBlock n ar with
  | None => (Ret None, s)
  | Some (b, ar') => (Ret (Some b), set_pool e (<[i := ar']> (pool e s)) s)
  end.
Proof.
  destruct e; simpl; intros Hi; unfold code_arena_alloc, data_arena_alloc, mbind, CM_bind, get; simpl; rewrite Hi;
    simpl; by destruct (allocMemBlock n ar) as [[b ar']|].
Qed.

(** Where the arena of a pool is among all arenas. *)
Lemma pool_position e s i ar :
  pool e s !! i = Some ar →
  ∃ k, all_arenas s !! k = Some ar ∧
    ∀ ar', all_arenas (set_pool e (<[i := ar']> (pool e s)) s) = <[k := ar']> (all_arenas s).
Proof.
  unfold all_arenas. destruct e; simpl; intros Hi; pose proof (lookup_lt_Some _ _ _ Hi) as Hlt.
  - exists i. split; [by rewrite lookup_app_l|]. intros ar'. by rewrite insert_app_l.
  - exists (length (code_arenas s) + i)%nat. split; [by rewrite lookup_app_r, Nat.add_sub_swap, Nat.sub_diag by lia|].
    intros ar'. by rewrite insert_app_r.
Qed.

Lemma pool_in e s ar : ar ∈ pool e s → ar ∈ all_arenas s.
Proof. unfold all_arenas. rewrite elem_of_app. destruct e; auto. Qed.

(** ** Carving *)

(** The [i]th arena of a pool gives up what is before [a], then the block. *)
Lemma pool_carve e s i ar ar' a n :
  arenas_ok s → pool e s !! i = Some ar → 0 < n → cursor_addr ar ≤ a → a + n ≤ arena_end ar →
  arena_range ar' = arena_range ar → arena_addr ar' = arena_addr ar → cursor_addr ar' = a + n →
  handed_out s (set_pool e (<[i := ar']> (pool e s)) s) a n.
Proof.
  intros Hok Hi Hn Hcur Hroom Hr Ha Hc. destruct (pool_position e s i ar Hi) as (k & Hk & Hall).
  eapply (carve_ok s _ k ar ar'); try done. apply set_pool_mem.
Qed.

Lemma arenas_ok_pool e s i ar : arenas_ok s → pool e s !! i = Some ar → arena_ok (d_mem s) ar.
Proof.
  intros [He _] Hi. rewrite Forall_forall in He. apply He, (pool_in e). by eapply list_elem_of_lookup_2.
Qed.

(** The numbers of an arena. *)
Record arena_span (ar : MemoryArena) : Prop := {
  span_end : arena_end ar = arena_addr ar + size (arena_range ar) ∧ arena_end ar < 2 ^ 64;
  span_cursor : 0 ≤ arena_addr ar ≤ cursor_addr ar ∧ cursor_addr ar ≤ arena_end ar
}.

Lemma arena_ok_span m ar : arena_ok m ar → arena_span ar.
Proof. intros [H1 H0 [H2 H3] H4 H5]. split; lia. Qed.

(** allocMemBlock where there is room. *)
Lemma allocMemBlock_room n ar :
  arena_span ar → 0 ≤ n → cursor_addr ar + n ≤ arena_end ar →
  allocMemBlock n ar =
  Some (MemBlock_new (cursor_addr ar) n, mkMemoryArena (arena_range ar) (arena_addr ar) (cursor_addr ar + n)).
Proof.
  intros [[H2 H3] H4] Hn Hroom. unfold allocMemBlock. fold (arena_end ar).
  rewrite !wrap_small by lia. by rewrite (proj2 (Z.ltb_ge _ _)) by lia.
Qed.

Lemma alloc_first_some n l b l' :
  alloc_first n l = Some (b, l') →
  ∃ k ar ar', l !! k = Some ar ∧ allocMemBlock n ar = Some (b, ar') ∧ l' = <[k := ar']> l.
Proof.
  revert l'. induction l as [|ar l IH]; intros l' H; [done|]. simpl in H.
  destruct (allocMemBlock n ar) as [[b' ar']|] eqn:E.
  - injection H as <- <-. by exists 0%nat, ar, ar'.
  - destruct (alloc_first n l) as [[b' l'']|]; [|done]. injection H as <- <-.
    destruct (IH l'' eq_refl) as (k & x & x' & ? & ? & ->). by exists (S k), x, x'.
Qed.

Lemma alloc_first_ok e n s b l' :
  arenas_ok s → 0 < n → alloc_first n (pool e s) = Some (b, l') →
  b = MemBlock_new (block_addr b) n ∧ handed_out s (set_pool e l' s) (block_addr b) n.
Proof.
  intros Hok Hn (k & ar & ar' & Hk & Ha & ->)%alloc_first_some.
  destruct (allocMemBlock_some n ar b ar' (d_mem s)) as (Hroom & -> & Hr & Had & Hc);
    [by eapply arenas_ok_pool|lia|done|].
  split; [done|]. simpl. by apply (pool_carve e s k ar ar').
Qed.

(** ** A new arena *)

Lemma page_mapped_set_prot a len p m b :
  a mod PAGE_SIZE = 0 → len mod PAGE_SIZE = 0 →
  page_mapped (set_prot a len p m) b ↔ page_mapped m b ∨ a ≤ b < a + len.
Proof.
  intros Ha Hl. unfold page_mapped, set_prot. simpl. rewrite foldr_insert_lookup.
  assert (Hiff : b / PAGE_SIZE - a / PAGE_SIZE ∈ Z.of_nat <$> seq 0 (Z.to_nat (len / PAGE_SIZE)) ↔ a ≤ b < a + len).
  { unfold PAGE_SIZE in *. rewrite list_elem_of_fmap. split.
    - intros (i & Hi & Hin%elem_of_seq). Z.to_euclidean_division_equations. lia.
    - intros Hb. exists (Z.to_nat (b / 4096 - a / 4096)).
      rewrite elem_of_seq. Z.to_euclidean_division_equations. lia. }
  case_decide as Hd; rewrite Hiff in Hd; [split; [by right|eauto]|]. split; [by left|]. intros [?|?]; tauto.
Qed.

(** Intervals that share no address. *)
Lemma apart_intervals x k a n (P : Z → Prop) :
  0 < k → 0 < n → (∀ b, x ≤ b < x + k → P b) → (∀ b, a ≤ b < a + n → ¬ P b) → x + k ≤ a ∨ a + n ≤ x.
Proof.
  intros Hk Hn H1 H2. destruct (decide (x + k ≤ a)); [by left|]. destruct (decide (a + n ≤ x)); [by right|].
  exfalso. apply (H2 (Z.max x a)); [lia|]. apply H1. lia.
Qed.

Section os.
Context {os : OS} {laws : OSLaws os} {grants : OSGrants os}.

(** What mmap and mprotect leave behind. *)
Record fresh_pages (a len : Z) (m m' : memory) : Prop := {
  fresh_start : 0 < a;
  fresh_aligned : a mod PAGE_SIZE = 0;
  fresh_end : a + len < 2 ^ 63;
  fresh_unmapped b : a ≤ b < a + len → ¬ page_mapped m b;
  fresh_mapped b : page_mapped m' b ↔ page_mapped m b ∨ a ≤ b < a + len;
  fresh_undisturbed : undisturbed m m'
}.

Lemma mmap_protect m len prot prot' a m1 :
  os_mmap m None len prot = (Some a, m1) → 0 < len → len mod PAGE_SIZE = 0 →
  ∃ e m', k_mprotect m1 a len prot' = (0, e, m') ∧ fresh_pages a len m m'.
Proof using laws grants.
  intros Hmm Hl Hlen. destruct (os_mmap_fresh _ _ _ _ _ Hmm Hl Hlen) as (H1 & H2 & H3 & H4 & H5 & H6).
  assert (Hmap : ∀ b, page_mapped m1 b ↔ page_mapped m b ∨ a ≤ b < a + len).
  { intros b. unfold page_mapped at 1. rewrite H5. by apply page_mapped_set_prot. }
  destruct (os_mprotect_mapped m1 a len prot') as [e He]; [done..| |].
  { intros b Hb. apply Hmap. by right. }
  exists e, (set_prot a len prot' m1). split; [done|].
  assert (Hmap' : ∀ b, page_mapped (set_prot a len prot' m1) b ↔ page_mapped m b ∨ a ≤ b < a + len).
  { intros b. rewrite page_mapped_set_prot, Hmap by done. tauto. }
  assert (Hout : ∀ b, page_mapped m b → ¬ a ≤ b < a + len) by (intros b Hb Hin; by eapply H4).
  split; [done..|]. split; intros b Hb.
  - apply Hmap'. by left.
  - rewrite set_prot_byte. auto.
  - rewrite prot_at_set_prot, decide_False by auto. unfold prot_at at 1. rewrite H5.
    fold (prot_at (set_prot a len prot m) b). rewrite prot_at_set_prot, decide_False by auto. done.
Qed.

Lemma undisturbed_range m m' a n : undisturbed m m' → range_mapped m a n → range_mapped m' a n.
Proof using Type. intros [H _ _] Hr b Hb. auto. Qed.

Lemma arena_ok_undisturbed m m' ar : undisturbed m m' → arena_ok m ar → arena_ok m' ar.
Proof using Type. intros Hu [H1 H2 H3 H4 H5]. split; try done. by eapply undisturbed_range. Qed.

(** The arena over fresh pages, added to a pool. *)
Lemma new_arena_ok e s a len m' :
  arenas_ok s → 0 < len → fresh_pages a len (d_mem s) m' →
  let s' := set_pool e (pool e s ++ [MemoryArena_new a len]) (set_mem m' s) in
  arenas_ok s' ∧
  ∀ x k, 0 < k → in_use s x k → in_use s' x k ∧ (x + k ≤ a ∨ a + len ≤ x).
Proof using Type.
  intros [He Hap] Hl [F1 F2 F3 F4 F5 F6] s'.
  set (ar := MemoryArena_new a len).
  assert (Har : arena_addr ar = a ∧ cursor_addr ar = a ∧ arena_end ar = a + len ∧ size (arena_range ar) = len).
  { unfold ar, arena_end. simpl. rewrite wrap_small by lia. done. }
  destruct Har as (A1 & A2 & A3 & A4).
  assert (Hsplit : ∃ l1 l2, all_arenas s = l1 ++ l2 ∧ all_arenas s' = l1 ++ ar :: l2).
  { unfold all_arenas, s', set_pool, pool. destruct e; simpl.
    - exists (code_arenas s), (data_arenas s). by rewrite <- app_assoc.
    - exists (code_arenas s ++ data_arenas s), []. by rewrite app_nil_r, app_assoc. }
  destruct Hsplit as (l1 & l2 & Hall & Hall').
  assert (Hmem : d_mem s' = m') by (unfold s'; by destruct e).
  assert (Haway : ∀ x k, 0 < k → range_mapped (d_mem s) x k → x + k ≤ a ∨ a + len ≤ x).
  { intros x k Hk Hx. by apply (apart_intervals x k a len (page_mapped (d_mem s))). }
  assert (Hboth : ∀ x, x ∈ l1 ++ l2 → apart x ar ∧ apart ar x).
  { intros x Hx. rewrite Hall, Forall_forall in He. destruct (He x Hx) as [X1 X0 [X2 X3] X4 X5].
    unfold apart. rewrite A1, A3. pose proof (Haway _ _ X0 X5). lia. }
  split; [split|].
  - rewrite Hall', Hmem. rewrite Hall, Forall_app in He. destruct He as [He1 He2].
    apply Forall_app. split; [|constructor].
    + eapply Forall_impl; [exact He1|]. intros x. by apply arena_ok_undisturbed.
    + split; [rewrite A1; lia|by rewrite A4|rewrite A3, A1, A4; lia|rewrite A1, A2, A3; lia|].
      rewrite A1, A4. intros b Hb. apply F5. by right.
    + eapply Forall_impl; [exact He2|]. intros x. by apply arena_ok_undisturbed.
  - rewrite Hall'. apply pairwise_middle; [by rewrite <- Hall|done].
  - intros x k Hk [U1 U2]. split; [|by apply Haway]. split; [rewrite Hmem; by eapply undisturbed_range|].
    intros y Hy. rewrite Hall' in Hy. rewrite elem_of_app, elem_of_cons in Hy.
    assert (y = ar ∨ y ∈ all_arenas s) as [->|Hy'] by (rewrite Hall, elem_of_app; tauto); [|by apply U2].
    rewrite A2, A3. by apply Haway.
Qed.

(** A block from an arena that is new. *)
Lemma handed_out_after s s1 s2 a len b n :
  arenas_ok s → (∀ x k, 0 < k → in_use s x k → in_use s1 x k ∧ (x + k ≤ a ∨ a + len ≤ x)) →
  undisturbed (d_mem s) (d_mem s1) → handed_out s1 s2 b n → handed_out s s2 b n.
Proof using Type.
  intros Hok H1 Hu [G1 G0 G2 G3 G4]. split; [done..| |by etrans].
  intros x k Hk Hx. destruct (H1 x k Hk Hx) as [Hx1 _]. by apply G3.
Qed.

(** *** MemoryAllocator.cc *)

(** mmap and mprotect as OSMemory calls them; [a = 0] where mmap fails. *)
Lemma OSMemory_new len prot s :
  0 < len → len mod PAGE_SIZE = 0 →
  ∃ a m', (a ← OSMemory_Allocate len kNoAccess 0; _ ← OSMemory_SetPermission a len prot; mret a) s =
            (Ret a, set_mem m' s) ∧
          (a = 0 ∨ fresh_pages a len (d_mem s) m').
Proof using laws grants.
  intros Hl Hlen. unfold OSMemory_Allocate, OSMemory_SetPermission, mbind, CM_bind, get, put.
  simpl (0 =? 0). cbv match.
  destruct (os_mmap (d_mem s) None len (GetProtectionFromMemoryPermission kNoAccess)) as [[a|] m1] eqn:E.
  - destruct (mmap_protect _ _ _ (GetProtectionFromMemoryPermission prot) _ _ E Hl Hlen) as (e & m' & H & F).
    simpl. rewrite H. exists a, m'. split; [done|by right].
  - simpl. destruct (k_mprotect m1 0 len (GetProtectionFromMemoryPermission prot)) as [[r e] m'].
    exists 0, m'. split; [done|by left].
Qed.

(** What a block of [n] bytes means to the caller of an allocator: address 0
    stands for the failed mmap that nobody checked. *)
Definition block_ok (s : dobby) (n : Z) (b : MemBlock) (s' : dobby) : Prop :=
  b = MemBlock_new (block_addr b) n ∧ (block_addr b ≠ 0 → handed_out s s' (block_addr b) n).

Lemma pool_app_lookup e l ar s : pool e (set_pool e (l ++ [ar]) s) !! length l = Some ar.
Proof using Type. rewrite pool_set. by rewrite lookup_app_r, Nat.sub_diag by lia. Qed.

(** The first block of an arena that was just added. *)
Lemma first_block e s m' a len n :
  arenas_ok s → 0 < n ≤ len → len < 2 ^ 63 → a = 0 ∨ fresh_pages a len (d_mem s) m' →
  let s1 := set_pool e (pool e s ++ [MemoryArena_new a len]) (set_mem m' s) in
  ∃ b s2, pool_alloc e (length (pool e s)) n s1 = (Ret (Some b), s2) ∧ block_ok s n b s2.
Proof using Type.
  intros Hok Hn Hlen Ha s1. set (ar := MemoryArena_new a len).
  assert (Hcase : 0 ≤ a ∧ a + len < 2 ^ 64) by (destruct Ha as [->|[]]; lia).
  assert (Hal : allocMemBlock n ar = Some (MemBlock_new a n, mkMemoryArena (arena_range ar) a (a + n))).
  { unfold allocMemBlock, ar. simpl. rewrite (wrap_small 64 (a + len)), (wrap_small 64 (_ - _)) by lia.
    rewrite (proj2 (Z.ltb_ge _ _)) by lia. by rewrite (wrap_small 64 (a + n)) by lia. }
  exists (MemBlock_new a n). eexists. split; [by rewrite (pool_alloc_run _ _ _ _ ar), Hal by apply pool_app_lookup|].
  split; [done|]. simpl. intros Ha0. destruct Ha as [|F]; [done|].
  destruct (new_arena_ok e s a len m' Hok ltac:(lia) F) as [Hok1 Huse]. fold ar s1 in Hok1, Huse.
  assert (Hend : arena_end ar = a + len) by (unfold arena_end; simpl; rewrite wrap_small by lia; done).
  eapply (handed_out_after s s1 _ a len); [done..| |].
  { unfold s1. rewrite set_pool_mem. simpl. apply F. }
  apply (pool_carve e s1 _ ar); try done; try (simpl; lia). apply pool_app_lookup.
Qed.

Lemma allocateCodeMemoryArena_run len s :
  0 < len → len mod PAGE_SIZE = 0 →
  ∃ a m', allocateCodeMemoryArena len s =
            (Ret (length (code_arenas s)),
             set_pool true (pool true s ++ [MemoryArena_new a len]) (set_mem m' s)) ∧
          (a = 0 ∨ fresh_pages a len (d_mem s) m').
Proof using laws grants.
  intros Hl Hlen. destruct (OSMemory_new len kReadExecute s Hl Hlen) as (a & m' & Hrun & Ha).
  exists a, m'. split; [|done]. unfold allocateCodeMemoryArena, CHECK, PageSize.
  rewrite (proj2 (Z.eqb_eq _ _) Hlen). rewrite CM_left_id.
  unfold mbind, CM_bind in Hrun |- *. destruct (OSMemory_Allocate len kNoAccess 0 s) as [[x|e] s1]; [|done].
  destruct (OSMemory_SetPermission x len kReadExecute s1) as [[ok|e] s2]; [|done].
  unfold mret, CM_ret in Hrun. injection Hrun as -> ->. done.
Qed.

Lemma ALIGN_CEIL_page n :
  0 ≤ n → n + PAGE_SIZE ≤ 2 ^ 32 → ALIGN_CEIL n PageSize = (n + PAGE_SIZE - 1) / PAGE_SIZE * PAGE_SIZE.
Proof using Type.
  intros H1 H2. unfold ALIGN_CEIL. rewrite wrap_small by (unfold PageSize, PAGE_SIZE in *; lia).
  apply ALIGN_FLOOR_page.
Qed.

(** The size of the arena for a block of [n] bytes. *)
Lemma arena_size_ok n :
  0 < n → n + PAGE_SIZE ≤ 2 ^ 32 →
  let len := u32 (ALIGN_CEIL n PageSize) in n ≤ len ∧ len < 2 ^ 32 ∧ len mod PAGE_SIZE = 0.
Proof using Type.
  intros H1 H2 len. unfold len. rewrite ALIGN_CEIL_page by lia.
  rewrite wrap_small by (unfold PAGE_SIZE in *; Z.to_euclidean_division_equations; lia).
  split_and!; [unfold PAGE_SIZE in *; Z.to_euclidean_division_equations; lia..|by apply Z_mod_mult].
Qed.

Lemma allocateDataMemoryArena_run n s :
  0 < n → n + PAGE_SIZE ≤ 2 ^ 32 →
  let len := u32 (ALIGN_CEIL n PageSize) in
  ∃ a m', allocateDataMemoryArena n s =
            (Ret (length (data_arenas s)),
             set_pool false (pool false s ++ [MemoryArena_new a len]) (set_mem m' s)) ∧
          (a = 0 ∨ fresh_pages a len (d_mem s) m').
Proof using laws grants.
  intros H1 H2 len. destruct (arena_size_ok n H1 H2) as (L1 & L2 & L3). fold len in L1, L2, L3.
  destruct (OSMemory_new len kReadWrite s ltac:(lia) L3) as (a & m' & Hrun & Ha).
  exists a, m'. split; [|done]. unfold allocateDataMemoryArena. fold len.
  unfold mbind, CM_bind in Hrun |- *. destruct (OSMemory_Allocate len kNoAccess 0 s) as [[x|e] s1]; [|done].
  destruct (OSMemory_SetPermission x len kReadWrite s1) as [[ok|e] s2]; [|done].
  unfold mret, CM_ret in Hrun. injection Hrun as -> ->. done.
Qed.

(** The blocks of a code arena made for them. *)
Lemma new_code_block_wp len n s (E : fault → dobby → Prop) :
  arenas_ok s → 0 < n ≤ len → len < 2 ^ 32 → len mod PAGE_SIZE = 0 →
  wp (arena ← allocateCodeMemoryArena len; block ← code_arena_alloc arena n; check_block block)
    (block_ok s n) E s.
Proof using laws grants.
  intros Hok Hn Hlen Hpage.
  destruct (allocateCodeMemoryArena_run len s ltac:(lia) Hpage) as (a & m' & Hrun & Ha).
  destruct (first_block true s m' a len n Hok Hn ltac:(lia) Ha) as (b & s2 & Hal & Hb).
  unfold wp. rewrite (CM_bind_Ret _ _ _ _ _ Hrun), (CM_bind_Ret _ _ _ _ _ Hal). done.
Qed.

Lemma allocateExecBlock_wp n s (E : fault → dobby → Prop) :
  arenas_ok s → 0 < n → n + PAGE_SIZE ≤ 2 ^ 32 → wp (allocateExecBlock n) (block_ok s n) E s.
Proof using laws grants.
  intros Hok Hn Hmax. unfold allocateExecBlock. wp_go.
  destruct (alloc_first n (code_arenas s)) as [[b l]|] eqn:Ef.
  - wp_go. destruct (alloc_first_ok true n s b l Hok Hn Ef) as [Hb Hh]. by split.
  - destruct (arena_size_ok n Hn Hmax) as (L1 & L2 & L3). by apply new_code_block_wp.
Qed.

(** A new arena must be a whole number of pages, or the process aborts. *)
Lemma allocateDataBlock_wp n s :
  arenas_ok s → 0 < n < 2 ^ 32 →
  wp (allocateDataBlock n) (block_ok s n) (λ e _, e = Aborted ∧ n mod PAGE_SIZE ≠ 0) s.
Proof using laws grants.
  intros Hok Hn. unfold allocateDataBlock. wp_go.
  destruct (alloc_first n (data_arenas s)) as [[b l]|] eqn:Ef.
  - wp_go. destruct (alloc_first_ok false n s b l Hok ltac:(lia) Ef) as [Hb Hh]. by split.
  - destruct (Z.eq_dec (n mod PAGE_SIZE) 0) as [Hp|Hp]; [by apply new_code_block_wp; try lia|].
    unfold wp, allocateCodeMemoryArena, CHECK, PageSize. by rewrite (proj2 (Z.eqb_neq _ _) Hp).
Qed.

(** *** NearMemoryAllocator.cc *)

Definition found_in (lo hi n : Z) (ar : MemoryArena) (a : Z) : Prop :=
  cursor_addr ar ≤ a ∧ lo ≤ a ∧ a + n ≤ hi ∧ a + n ≤ arena_end ar.

Lemma allocateFromDefaultArena_found m lo hi ar n :
  arena_ok m ar → 0 ≤ lo → hi < 2 ^ 64 → 0 < n →
  allocateFromDefaultArena lo hi ar n ≠ 0 → found_in lo hi n ar (allocateFromDefaultArena lo hi ar n).
Proof using Type.
  intros [H1 H0 [H2 H3] H4 H5] Hlo Hhi Hn. unfold allocateFromDefaultArena, found_in, min, max.
  rewrite (wrap_small 64 (arena_addr ar + size (arena_range ar))) by lia.
  repeat case_match; try done; intros _; rewrite wrap_small in * by lia; lia.
Qed.

Lemma near_code_loop_found m lo hi n l j i a :
  Forall (arena_ok m) l → 0 ≤ lo → hi < 2 ^ 64 → 0 < n →
  near_code_loop lo hi n j l = Some (i, a) →
  ∃ ar, (j ≤ i)%nat ∧ l !! (i - j)%nat = Some ar ∧ found_in lo hi n ar a.
Proof using Type.
  intros Hl Hlo Hhi Hn. revert j. induction Hl as [|ar l Har Hl IH]; intros j; simpl; [done|].
  unfold truthy. destruct (Z.eqb_spec (allocateFromDefaultArena lo hi ar n) 0) as [|Hne]; simpl.
  - intros (x & Hle & Hx & Hf)%IH. exists x. split; [lia|]. by replace (i - j)%nat with (S (i - S j)) by lia.
  - intros [= <- <-]. exists ar. rewrite Nat.sub_diag. split; [lia|]. split; [done|].
    by eapply allocateFromDefaultArena_found.
Qed.

Lemma near_data_loop_found m lo hi n l j found i a :
  Forall (arena_ok m) l → 0 ≤ lo → hi < 2 ^ 64 → 0 < n →
  near_data_loop lo hi n j l found = Some (i, a) →
  found = Some (i, a) ∨ ∃ ar, (j ≤ i)%nat ∧ l !! (i - j)%nat = Some ar ∧ found_in lo hi n ar a.
Proof using Type.
  intros Hl Hlo Hhi Hn. revert j found. induction Hl as [|ar l Har Hl IH]; intros j found; simpl; [by left|].
  intros [H|(x & Hle & Hx & Hf)]%IH; right.
  - unfold truthy in H. destruct (Z.eqb_spec (allocateFromDefaultArena lo hi ar n) 0) as [|Hne]; simpl in H; [done|].
    injection H as <- <-. exists ar. rewrite Nat.sub_diag. split; [lia|]. split; [done|].
    by eapply allocateFromDefaultArena_found.
  - exists x. split; [lia|]. by replace (i - j)%nat with (S (i - S j)) by lia.
Qed.

Lemma near_loop_found m lo hi n s (e : bool) i a :
  Forall (arena_ok m) (pool e s) → 0 ≤ lo → hi < 2 ^ 64 → 0 < n →
  (if e then near_code_loop lo hi n 0 (if e then code_arenas s else data_arenas s)
   else near_data_loop lo hi n 0 (if e then code_arenas s else data_arenas s) None) = Some (i, a) →
  ∃ ar, pool e s !! i = Some ar ∧ found_in lo hi n ar a.
Proof using Type.
  intros Hl Hlo Hhi Hn. destruct e.
  - intros (ar & _ & Har & Hf)%(near_code_loop_found m); try done. rewrite Nat.sub_0_r in Har. eauto.
  - intros [|(ar & _ & Har & Hf)]%(near_data_loop_found m); try done. rewrite Nat.sub_0_r in Har. eauto.
Qed.

(** The placeholder and the block. *)
Lemma placeholder_block e s i ar a n :
  pool e s !! i = Some ar → arena_span ar → cursor_addr ar ≤ a → 0 < n → a + n ≤ arena_end ar →
  (_ ← pool_alloc e i (a ⊖ cursor_addr ar); pool_alloc e i n) s =
  (Ret (Some (MemBlock_new a n)),
   set_pool e (<[i := mkMemoryArena (arena_range ar) (arena_addr ar) (a + n)]> (pool e s)) s).
Proof using Type.
  intros Hi Hok Hcur Hn Hroom. pose proof Hok as [[H2 H3] H4].
  rewrite (wrap_small 64 (a - cursor_addr ar)) by lia.
  pose proof (pool_alloc_run e i (a - cursor_addr ar) s ar Hi) as Hrun.
  rewrite (allocMemBlock_room _ ar) in Hrun by (done || lia). rewrite (CM_bind_Ret _ _ _ _ _ Hrun).
  replace (cursor_addr ar + (a - cursor_addr ar)) with a by lia.
  set (ar' := mkMemoryArena (arena_range ar) (arena_addr ar) a).
  erewrite (pool_alloc_run e i n _ ar') by (rewrite pool_set; apply list_lookup_insert_eq; by eapply lookup_lt_Some).
  assert (Hok' : arena_span ar').
  { split; [done|]. change (arena_end ar') with (arena_end ar). simpl. lia. }
  rewrite (allocMemBlock_room _ ar'); [|done|lia|done].
  by rewrite set_pool_twice, pool_set, list_insert_insert_eq.
Qed.

Lemma allocateNearBlockFromDefaultAllocator_wp n pos range e s (E : fault → dobby → Prop) :
  arenas_ok s → 0 < n →
  wp (allocateNearBlockFromDefaultAllocator n pos range e)
    (λ r s', match r with
             | None => s' = s
             | Some b => block_ok s n b s' ∧ pos ⊖ range ≤ block_addr b ∧ block_addr b + n ≤ pos ⊕ range
             end) E s.
Proof using Type.
  intros Hok Hn. unfold allocateNearBlockFromDefaultAllocator. wp_go.
  destruct (wrap_range 64 (pos - range)) as [Hlo _]; [lia|]. destruct (wrap_range 64 (pos + range)) as [_ Hhi]; [lia|].
  case_match eqn:Ef; [|by wp_go]. destruct p as [i a].
  assert (Hpool : Forall (arena_ok (d_mem s)) (pool e s)).
  { apply Forall_forall. intros x Hx. destruct Hok as [He _]. rewrite Forall_forall in He. by apply He, (pool_in e). }
  destruct (near_loop_found _ _ _ _ _ _ _ _ Hpool Hlo Hhi Hn Ef) as (ar & Hi & F1 & F2 & F3 & F4).
  change (if e then code_arenas s else data_arenas s) with (pool e s).
  change (if e then code_arena_alloc else data_arena_alloc) with (pool_alloc e).
  rewrite Hi. apply wp_bind, wp_ret. eapply wp_of_run; [by eapply placeholder_block; [done|by eapply arena_ok_span, arenas_ok_pool|..]|].
  split; [|done]. split; [done|]. intros _. by apply (pool_carve e s i ar).
Qed.

Lemma near_region_loop_found lo hi n l :
  0 ≤ lo → hi < 2 ^ 64 → 0 < n → near_region_loop lo hi n l ≠ 0 →
  lo ≤ near_region_loop lo hi n l ∧ near_region_loop lo hi n l + n ≤ hi.
Proof using Type.
  intros Hlo Hhi Hn. induction l as [|r [|r' l] IH]; [done..|]. cbn [near_region_loop].
  destruct (Z.eqb_spec (check_has_sufficient_memory_between_region lo hi r r' n) 0) as [|Hne]; [exact IH|].
  intros _. revert Hne. unfold check_has_sufficient_memory_between_region, min, max.
  repeat case_match; try done; intros _; rewrite wrap_small in * by lia; lia.
Qed.

Lemma wp_any {S A} (m : CM S A) s : wp m (λ _ _, True) (λ _ _, True) s.
Proof using Type. unfold wp. by destruct (m s) as [[x|x] s']. Qed.

(** The arena over the pages of [a, a + n). *)
Lemma page_arena_span a n :
  0 ≤ a → 0 < n → a + n < 2 ^ 63 →
  let first := ALIGN_FLOOR a PageSize in
  let ar := MemoryArena_new first (ALIGN_FLOOR (a ⊕ n) PageSize ⊖ first ⊕ PageSize) in
  arena_span ar ∧ cursor_addr ar ≤ a ∧ a + n ≤ arena_end ar.
Proof using Type.
  intros Ha Hn Hmax first ar. unfold ar, first. rewrite (wrap_small 64 (a + n)), !ALIGN_FLOOR_page by lia.
  set (F := a / PAGE_SIZE * PAGE_SIZE). set (G := (a + n) / PAGE_SIZE * PAGE_SIZE).
  assert (HF : 0 ≤ F ≤ a) by (unfold F, PAGE_SIZE; Z.to_euclidean_division_equations; lia).
  assert (HG : F ≤ G ∧ G ≤ a + n < G + PAGE_SIZE) by (unfold F, G, PAGE_SIZE; Z.to_euclidean_division_equations; lia).
  clearbody F G. unfold PageSize, PAGE_SIZE in *.
  rewrite (wrap_small 64 (G - F)), (wrap_small 64 (G - F + 4096)) by lia.
  assert (Hend : arena_end (MemoryArena_new F (G - F + 4096)) = G + 4096).
  { unfold arena_end. simpl. rewrite wrap_small; lia. }
  split_and!; [split; rewrite Hend; simpl; lia|simpl; lia|lia].
Qed.

Lemma allocateNearBlockFromUnusedRegion_reach n pos range e s :
  0 < n → pos + range < 2 ^ 63 → 0 ≤ pos → 0 ≤ range →
  wp (allocateNearBlockFromUnusedRegion n pos range e)
    (λ r _, ∀ b, r = Some b →
      b = MemBlock_new (block_addr b) n ∧ pos ⊖ range ≤ block_addr b ∧ block_addr b + n ≤ pos + range)
    (λ _ _, True) s.
Proof using Type.
  intros Hn Hmax Hpos Hrange. unfold allocateNearBlockFromUnusedRegion.
  destruct (wrap_range 64 (pos - range)) as [Hlo _]; [lia|]. rewrite (wrap_small 64 (pos + range)) by lia.
  apply wp_bind. eapply wp_mono; [apply wp_any| |done].
  intros regions s1 _. cbv beta zeta.
  set (a := near_region_loop (pos ⊖ range) (pos + range) n regions).
  destruct (Z.eqb_spec a 0) as [|Ha]; [by wp_go|].
  destruct (near_region_loop_found (pos ⊖ range) (pos + range) n regions Hlo ltac:(lia) Hn Ha) as [F1 F2].
  fold a in F1, F2. destruct (page_arena_span a n ltac:(lia) Hn ltac:(lia)) as (Hspan & Hcur & Hroom).
  apply wp_bind. eapply wp_mono; [apply wp_any| |done].
  intros got s2 _. cbv beta. destruct (got =? 0); [by wp_go|].
  set (first := ALIGN_FLOOR a PageSize) in *. set (len := ALIGN_FLOOR (a ⊕ n) PageSize ⊖ first ⊕ PageSize) in *.
  assert (Hreg : ∃ s3, register_near_arena first len e s2 = (Ret (length (pool e s2)), s3) ∧
    pool e s3 = pool e s2 ++ [MemoryArena_new first len]).
  { unfold register_near_arena, OSMemory_SetPermission, mbind, CM_bind, get, put.
    destruct e; simpl; destruct (k_mprotect _ _ _ _) as [[r err] m]; by eexists. }
  destruct Hreg as (s3 & Hreg & Hpool). apply wp_bind. eapply wp_of_run; [exact Hreg|].
  change (if e then code_arena_alloc else data_arena_alloc) with (pool_alloc e).
  assert (Hlast : pool e s3 !! length (pool e s2) = Some (MemoryArena_new first len))
    by (rewrite Hpool; by rewrite lookup_app_r, Nat.sub_diag by lia).
  eapply wp_of_run; [exact (placeholder_block e s3 _ _ a n Hlast Hspan Hcur Hn Hroom)|].
  intros b [= <-]. done.
Qed.

(** *** The two properties *)

(** The reach of the near allocator. *)
Lemma allocateNearBlock_reach n pos range e s b s' :
  arenas_ok s → 0 < n → 0 ≤ pos → 0 ≤ range → pos + range < 2 ^ 63 →
  allocateNearBlock n pos range e s = (Ret (Some b), s') →
  b = MemBlock_new (block_addr b) n ∧ 0 ≤ block_addr b ∧ pos - range ≤ block_addr b ∧ block_addr b + n ≤ pos + range.
Proof using laws grants.
  intros Hok Hn Hpos Hrange Hmax. unfold allocateNearBlock.
  pose proof (wrap_range 64 (pos - range) ltac:(lia)) as H0.
  assert (Hlo : pos - range ≤ wrap 64 (pos - range)).
  { destruct (decide (range ≤ pos)); [by rewrite wrap_small by lia|lia]. }
  pose proof (allocateNearBlockFromDefaultAllocator_wp n pos range e s (λ _ _, True) Hok Hn) as H1.
  intros (r & s1 & Hd & H)%CM_bind_inv. apply (wp_run _ _ _ _ _ _ H1) in Hd. destruct r as [b'|].
  - unfold mret, CM_ret in H. injection H as -> <-. destruct Hd as ([Hb _] & H2 & H3).
    rewrite (wrap_small 64 (pos + range)) in H3 by lia. split; [done|lia].
  - subst. pose proof (allocateNearBlockFromUnusedRegion_reach n pos range e s Hn Hmax Hpos Hrange) as H2.
    destruct (wp_run _ _ _ _ _ _ H2 H b eq_refl) as (? & ? & ?). split; [done|lia].
Qed.

(** C8: a block from the near allocator lies within the search range around the
    position asked for. *)
Theorem near_block_in_reach n pos range e s b s' :
  arenas_ok s → 0 < n → 0 ≤ pos → 0 ≤ range → pos + range < 2 ^ 63 →
  allocateNearBlock n pos range e s = (Ret (Some b), s') →
  b = MemBlock_new (block_addr b) n ∧ pos - range ≤ block_addr b ∧ block_addr b + n ≤ pos + range.
Proof using laws grants. intros H1 H2 H3 H4 H5 H. by destruct (allocateNearBlock_reach n pos range e s b s') as (? & _ & ? & ?). Qed.

(** One allocation; the kernel had memory for it. *)
Inductive allocates (n : Z) (s : dobby) : MemBlock → dobby → Prop :=
  | allocates_exec b s' :
      allocateExecBlock n s = (Ret b, s') → block_addr b ≠ 0 → allocates n s b s'
  | allocates_data b s' :
      allocateDataBlock n s = (Ret b, s') → block_addr b ≠ 0 → allocates n s b s'
  | allocates_near pos range e b s' :
      allocateNearBlockFromDefaultAllocator n pos range e s = (Ret (Some b), s') →
      block_addr b ≠ 0 → allocates n s b s'.

(** What a process does to Dobby's memory: it starts without arenas, allocates
    blocks, the log, and patches mapped memory. *)
Inductive runs : list (Z * Z) → dobby → Prop :=
  | runs_start s : code_arenas s = [] → data_arenas s = [] → runs [] s
  | runs_alloc log s n b s' :
      runs log s → 0 < n → n + PAGE_SIZE ≤ 2 ^ 32 → allocates n s b s' → runs ((block_addr b, n) :: log) s'
  | runs_patch log s a bs s' :
      runs log s → 0 ≤ a → a + Z.of_nat (length bs) < 2 ^ 64 → Z.of_nat (length bs) ≤ PAGE_SIZE →
      range_mapped (d_mem s) a (Z.of_nat (length bs)) → DobbyCodePatch a bs s = (Ret tt, s') → runs log s'.

Definition disjoint_blocks (x y : Z * Z) : Prop := x.1 + x.2 ≤ y.1 ∨ y.1 + y.2 ≤ x.1.

Lemma allocates_ok n s b s' :
  arenas_ok s → 0 < n → n + PAGE_SIZE ≤ 2 ^ 32 → allocates n s b s' → handed_out s s' (block_addr b) n.
Proof using laws grants.
  intros Hok Hn Hmax [b' s'' H Hb|b' s'' H Hb|pos range e b' s'' H Hb].
  - apply (wp_run _ _ (λ _ _, True) _ _ _ (allocateExecBlock_wp n s _ Hok Hn Hmax)) in H. by apply H.
  - apply (wp_run _ _ _ _ _ _ (allocateDataBlock_wp n s Hok ltac:(unfold PAGE_SIZE in *; lia))) in H. by apply H.
  - apply (wp_run _ _ _ _ _ _
      (allocateNearBlockFromDefaultAllocator_wp n pos range e s (λ _ _, True) Hok Hn)) in H.
    by apply H.
Qed.

Lemma pairwise_cons {A} (R : relation A) x l :
  pairwise R l → (∀ y, y ∈ l → R x y ∧ R y x) → pairwise R (x :: l).
Proof using Type. intros H Hx. apply (pairwise_middle R [] l x H). intros y Hy. by destruct (Hx y Hy). Qed.

Lemma patched_arenas s a bs m' : patched a bs (d_mem s) m' → arenas_ok s → arenas_ok (set_mem m' s).
Proof using Type.
  intros [_ Hp _] [He Hap]. split; [|done]. eapply Forall_impl; [exact He|].
  intros ar [H1 H0 H2 H3 H4]. split; try done. intros b Hb. apply Hp. auto.
Qed.

Lemma patched_in_use s a bs m' x k : patched a bs (d_mem s) m' → in_use s x k → in_use (set_mem m' s) x k.
Proof using Type. intros [_ Hp _] [H1 H2]. split; [|done]. intros b Hb. apply Hp. auto. Qed.

Lemma arenas_ok_none s : code_arenas s = [] → data_arenas s = [] → arenas_ok s.
Proof using Type.
  intros Hc Hd. split; unfold all_arenas; rewrite Hc, Hd; [constructor|by intros i].
Qed.

Lemma runs_inv log s :
  runs log s →
  arenas_ok s ∧ (∀ x k, (x, k) ∈ log → 0 < k ∧ in_use s x k) ∧ pairwise disjoint_blocks log.
Proof using laws grants.
  induction 1 as [s Hc Hd|log s n b s' Hr (Hok & Huse & Hdis) Hn Hmax Hal|log s a bs s' Hr (Hok & Huse & Hdis) Ha Hend Hl Hm Hp].
  - split_and!; [by apply arenas_ok_none|intros x k Hx; by apply elem_of_nil in Hx|by intros i].
  - destruct (allocates_ok n s b s' Hok Hn Hmax Hal) as [G1 G0 G2 G3 G4].
    split_and!; [done| |].
    + intros x k [[= -> ->]|Hx]%elem_of_cons; [done|]. destruct (Huse x k Hx) as [Hk Hu]. split; [done|].
      by apply G3.
    + apply pairwise_cons; [done|]. intros [x k] Hx. destruct (Huse x k Hx) as [Hk Hu].
      destruct (G3 x k Hk Hu) as [_ Hd]. unfold disjoint_blocks. simpl. tauto.
  - destruct (DobbyCodePatch_run s a bs Ha Hend Hl Hm) as (m' & Hrun & Hpat). rewrite Hrun in Hp.
    injection Hp as <-. split_and!; [by eapply patched_arenas| |done].
    intros x k Hx. destruct (Huse x k Hx) as [Hk Hu]. split; [done|]. by eapply patched_in_use.
Qed.

(** C7: whatever sequence of patches, of code and data allocations, and of near
    allocations from the arenas there are runs, the arenas stay well-formed,
    every block handed out so far is mapped, no arena will hand it out again,
    and no two blocks overlap.  A near allocation from an unused region of the
    process is not among them: its arena can replace a page that is mapped
    (near_arena_clobbers). *)
Theorem blocks_disjoint log s :
  runs log s →
  arenas_ok s ∧ Forall (λ x, in_use s x.1 x.2) log ∧ pairwise disjoint_blocks log.
Proof using laws grants.
  intros (Hok & Huse & Hdis)%runs_inv. split_and!; [done| |done].
  apply Forall_forall. intros [x k] Hx. by apply Huse.
Qed.

End os.

(** ** Concrete runs *)

(** An empty process with the given permissions. *)
Definition sample_entry : InterceptEntry :=
  mkInterceptEntry 0 kFunctionInlineHook 0 0 0 0 (replicate 256 0) 0.
Definition sample_process (pages : list (Z * Z)) : dobby :=
  mkDobby (Memory ∅ (list_to_map pages) []) [] [] [] false.

Definition near_maps : list Z :=
  line_of "8800000-8801000 r-xp 00000000 00:00 0" ++ line_of "8900000-8901000 rw-p 00000000 00:00 0".
Definition sample_near : outcome (option MemBlock) * dobby :=
  let os := sample_os (Some near_maps) sample_entry in
  allocateNearBlock 12 0x9000000 0x8000000 true (sample_process [(0x8800, 5); (0x8900, 3)]).

Lemma near_block_in_reach_witness :
  sample_near = (Ret (Some (MemBlock_new 0x8801000 12)), snd sample_near) ∧
  0x9000000 - 0x8000000 ≤ block_addr (MemBlock_new 0x8801000 12) ∧
  block_addr (MemBlock_new 0x8801000 12) + 12 ≤ 0x9000000 + 0x8000000.
Proof.
  assert (H : sample_near = (Ret (Some (MemBlock_new 0x8801000 12)), snd sample_near)) by (vm_compute; reflexivity).
  split; [exact H|].
  eapply (near_block_in_reach (os := sample_os (Some near_maps) sample_entry) 12 0x9000000 0x8000000 true); [|lia|lia|lia|lia|exact H].
  by apply arenas_ok_none.
Defined.

(** An allocation of each kind and a patch of the first block. *)
Definition sample_exec : outcome MemBlock * dobby :=
  let os := sample_os None sample_entry in allocateExecBlock 100 (sample_process []).
Definition sample_data : outcome MemBlock * dobby :=
  let os := sample_os None sample_entry in allocateDataBlock 4096 (snd sample_exec).
Definition sample_patch : outcome unit * dobby :=
  let os := sample_os None sample_entry in DobbyCodePatch 4096 [1; 2; 3; 4] (snd sample_data).

Lemma blocks_disjoint_witness :
  let os := sample_os None sample_entry in
  runs [(8192, 4096); (4096, 100)] (snd sample_patch) ∧ arenas_ok (snd sample_patch).
Proof.
  intros os.
  assert (H1 : sample_exec = (Ret (MemBlock_new 4096 100), snd sample_exec)) by (vm_compute; reflexivity).
  assert (H2 : sample_data = (Ret (MemBlock_new 8192 4096), snd sample_data)) by (vm_compute; reflexivity).
  assert (H3 : sample_patch = (Ret tt, snd sample_patch)) by (vm_compute; reflexivity).
  assert (R : runs [(8192, 4096); (4096, 100)] (snd sample_patch)).
  { apply (runs_patch _ (snd sample_data) 4096 [1; 2; 3; 4]); [|lia|simpl; lia|unfold PAGE_SIZE; simpl; lia| |exact H3].
    - apply (runs_alloc _ (snd sample_exec) 4096 (MemBlock_new 8192 4096)); [|lia|unfold PAGE_SIZE; lia|].
      + apply (runs_alloc _ (sample_process []) 100 (MemBlock_new 4096 100)); [|lia|unfold PAGE_SIZE; lia|].
        * by constructor.
        * by apply allocates_exec.
      + by apply allocates_data.
    - intros b Hb. simpl in Hb. unfold page_mapped.
      replace (b / PAGE_SIZE) with 1 by (unfold PAGE_SIZE; Z.to_euclidean_division_equations; lia).
      vm_compute. eauto. }
  split; [exact R|]. apply (blocks_disjoint _ _ R).
Defined.

(** The pages of an arena near [pos] reach one page too far where the block
    ends at a page boundary: the read-write page at 0x12000 becomes part of
    the new arena. *)
Definition sample_clobber : outcome (option MemBlock) * dobby :=
  let os := sample_os (Some (line_of "10000-11000 r-xp 00000000 00:00 0" ++
                             line_of "12000-13000 rw-p 00000000 00:00 0")) sample_entry in
  allocateNearBlock 12 (0x11ff4 + 0x8000000) 0x8000000 true (sample_process [(0x10, 5); (0x12, 3)]).

Lemma near_arena_clobbers :
  fst sample_clobber = Ret (Some (MemBlock_new 0x11ff4 12)) ∧
  prot_at (d_mem (sample_process [(0x10, 5); (0x12, 3)])) 0x12000 = 3 ∧
  prot_at (d_mem (snd sample_clobber)) 0x12000 = 5.
Proof. vm_compute. auto. Qed.
