(* ===== verification/A64Asm.v ===== *)
(** * The ARM64 assembler of Dobby

    The registers and encodings of core/arch/arm64, the code buffer, the
    labels of AssemblerPseudoLabel.h and the assembler of
    core/assembler/assembler-arm64.h.  An instruction word is a number below
    [2^32], whatever the signedness of the C type that carries it; [Emit] cuts
    it to 32 bits. *)

From S2P Require Import Prelude DobbyBits.

#[local] Open Scope cint_scope.

(** ** registers-arm64.h *)

Inductive RegisterType : Set :=
  | kRegister_32 | kRegister_64 | kRegister
  | kVRegister
  | kSIMD_FP_Register_8 | kSIMD_FP_Register_16 | kSIMD_FP_Register_32
  | kSIMD_FP_Register_64 | kSIMD_FP_Register_128
  | kInvalid.

#[export] Instance RegisterType_eq_dec : EqDecision RegisterType.
Proof. solve_decision. Defined.

(** The enumerators in order, for [<] and [>]. *)
Definition RegisterType_num (t : RegisterType) : Z :=
  match t with
  | kRegister_32 => 0 | kRegister_64 => 1 | kRegister => 2
  | kVRegister => 3
  | kSIMD_FP_Register_8 => 4 | kSIMD_FP_Register_16 => 5 | kSIMD_FP_Register_32 => 6
  | kSIMD_FP_Register_64 => 7 | kSIMD_FP_Register_128 => 8
  | kInvalid => 9
  end.

Record CPURegister : Set := mkCPURegister {
  reg_code_ : Z;
  reg_size_ : Z;
  reg_type_ : RegisterType
}.

Definition Xr (code : Z) : CPURegister := mkCPURegister code 64 kRegister_64.
Definition Wr (code : Z) : CPURegister := mkCPURegister code 32 kRegister_32.
Definition Qr (code : Z) : CPURegister := mkCPURegister code 128 kSIMD_FP_Register_128.
Definition InvalidRegister : CPURegister := mkCPURegister 0 0 kInvalid.

(** Registers are compared by their number alone. *)
Definition reg_Is (r r' : CPURegister) : bool := reg_code_ r' =? reg_code_ r.
Definition Is64Bits (r : CPURegister) : bool := reg_size_ r =? 64.
Definition IsRegister (r : CPURegister) : bool :=
  RegisterType_num (reg_type_ r) <? RegisterType_num kRegister.
Definition IsVRegister (r : CPURegister) : bool :=
  RegisterType_num kVRegister <? RegisterType_num (reg_type_ r).

Definition wzr : CPURegister := Wr 31.
Definition xzr : CPURegister := Xr 31.
Definition SP : CPURegister := Xr 31.

Definition ARM64_TMP_REG_NDX_0 : Z := 17.
Definition TMP_REG_0 : CPURegister := Xr ARM64_TMP_REG_NDX_0.

(** ** constants-arm64.h *)

Inductive Shift : Set := NO_SHIFT | LSL | LSR | ASR | ROR | MSL.
Definition Shift_num (s : Shift) : Z :=
  match s with NO_SHIFT => -1 | LSL => 0 | LSR => 1 | ASR => 2 | ROR => 3 | MSL => 4 end.

Inductive Extend : Set :=
  | NO_EXTEND | UXTB | UXTH | UXTW | UXTX | SXTB | SXTH | SXTW | SXTX.

Inductive AddrMode : Set := Offset | PreIndex | PostIndex.

Definition kRdShift : Z := 0.
Definition kRnShift : Z := 5.
Definition kRmShift : Z := 16.
Definition kRtShift : Z := 0.
Definition kRt2Shift : Z := 10.

Definition ExceptionFixed : Z := 0xD4000000.
Definition BRK : Z := ExceptionFixed .| 0x00200000.

Definition UnconditionalBranchFixed : Z := 0x14000000.
Definition UnconditionalBranchFixedMask : Z := 0x7C000000.
Definition UnconditionalBranchMask : Z := 0xFC000000.
Definition B : Z := UnconditionalBranchFixed .| 0x00000000.
Definition BL : Z := UnconditionalBranchFixed .| 0x80000000.

Definition UnconditionalBranchToRegisterFixed : Z := 0xD6000000.
Definition BR : Z := UnconditionalBranchToRegisterFixed .| 0x001F0000.
Definition BLR : Z := UnconditionalBranchToRegisterFixed .| 0x003F0000.

Definition LoadRegLiteralFixed : Z := 0x18000000.
Definition LoadRegLiteralFixedMask : Z := 0x3B000000.
Definition LoadRegLiteralSub (opc V : Z) : Z :=
  LoadRegLiteralFixed .| LeftShift opc 2 30 .| LeftShift V 1 26.
Definition LDR_w_literal : Z := LoadRegLiteralSub 0 0.
Definition LDR_x_literal : Z := LoadRegLiteralSub 1 0.
Definition LDR_s_literal : Z := LoadRegLiteralSub 0 1.
Definition LDR_d_literal : Z := LoadRegLiteralSub 1 1.
Definition LDR_q_literal : Z := LoadRegLiteralSub 2 1.

Definition LoadStoreOpSub (size V opc : Z) : Z :=
  LeftShift size 2 30 .| LeftShift V 1 26 .| LeftShift opc 2 22.
Definition STR_x : Z := LoadStoreOpSub 3 0 0.
Definition LDR_x : Z := LoadStoreOpSub 3 0 1.
Definition LoadStoreUnsignedOffsetFixed : Z := 0x39000000.

Definition LoadStorePairOpSub (opc V L : Z) : Z :=
  LeftShift opc 2 30 .| LeftShift V 1 26 .| LeftShift L 1 22.
Definition STP_x : Z := LoadStorePairOpSub 2 0 0.
Definition LDP_x : Z := LoadStorePairOpSub 2 0 1.
Definition STP_q : Z := LoadStorePairOpSub 2 1 0.
Definition LDP_q : Z := LoadStorePairOpSub 2 1 1.
Definition LoadStorePairOffsetFixed : Z := 0x29000000.
Definition LoadStorePairPostIndexFixed : Z := 0x28800000.
Definition LoadStorePairPreIndexFixed : Z := 0x29800000.

Definition MoveWideImmediateFixed : Z := 0x12800000.
Definition MOVN : Z := 0x00000000.
Definition MOVZ : Z := 0x40000000.
Definition MOVK : Z := 0x60000000.

Definition AddSubImmediateFixed : Z := 0x11000000.
Definition AddSubImmediateOpSub (sf op S : Z) : Z :=
  AddSubImmediateFixed .| LeftShift sf 1 31 .| LeftShift op 1 30 .| LeftShift S 1 29.
Definition ADD_w_imm : Z := AddSubImmediateOpSub 0 0 0.
Definition SUB_w_imm : Z := AddSubImmediateOpSub 0 1 0.
Definition ADD_x_imm : Z := AddSubImmediateOpSub 1 0 0.
Definition SUB_x_imm : Z := AddSubImmediateOpSub 1 1 0.

Definition ORR : Z := 0x20000000.
Definition LogicalShiftedFixed : Z := 0x0A000000.

Definition PCRelAddressingFixed : Z := 0x10000000.
Definition PCRelAddressingFixedMask : Z := 0x1F000000.
Definition PCRelAddressingMask : Z := 0x9F000000.
Definition ADR : Z := PCRelAddressingFixed .| 0x00000000.
Definition ADRP : Z := PCRelAddressingFixed .| 0x80000000.

(** ** AssemblerPseudoLabel.h *)

Definition kLabelImm19 : Z := 0.

Record ref_label_inst_t : Set := mkRef { type_ : Z; vmaddr_ : Z; offset_ : Z }.

(** A RelocLabel: [data_] holds the [data_size_] bytes of its value. *)
Record RelocLabel : Set := mkRelocLabel {
  pos_ : Z;
  relocated_pos_ : Z;
  ref_label_insts_ : list ref_label_inst_t;
  data_ : list Z;
  data_size_ : Z
}.

(** [RelocLabel(value)] for an 8-byte value. *)
Definition RelocLabel_new (value : Z) : RelocLabel :=
  mkRelocLabel 0 0 [] (le_bytes 8 value) 8.

Definition link_to (type inst_vmaddr offset : Z) (l : RelocLabel) : RelocLabel :=
  mkRelocLabel (pos_ l) (relocated_pos_ l)
    (ref_label_insts_ l ++ [mkRef type inst_vmaddr offset]) (data_ l) (data_size_ l).
Definition bind_to (addr : Z) (l : RelocLabel) : RelocLabel :=
  mkRelocLabel (pos_ l) addr (ref_label_insts_ l) (data_ l) (data_size_ l).
Definition has_confused_instructions (l : RelocLabel) : bool :=
  negb (Z.of_nat (length (ref_label_insts_ l)) =? 0).

(** ** The assembler object

    Labels are allocated with new and held by pointer: [labels] is the heap
    they live in, a pointer is an index. *)

Record TurboAssembler : Set := mkAsm {
  buffer_ : list Z;
  realized_addr_ : Z;
  labels : list RelocLabel;
  data_labels_ : list nat
}.

Abbreviation AM := (CM TurboAssembler).

Definition asm_new (address : Z) : TurboAssembler := mkAsm [] address [] [].

Definition set_buffer (b : list Z) (a : TurboAssembler) : TurboAssembler :=
  mkAsm b (realized_addr_ a) (labels a) (data_labels_ a).
Definition set_labels (ls : list RelocLabel) (a : TurboAssembler) : TurboAssembler :=
  mkAsm (buffer_ a) (realized_addr_ a) ls (data_labels_ a).

(** *** CodeBufferBase and code_buffer_arm64.h *)

Definition GetBufferSize : AM Z := gets (λ a, Z.of_nat (length (buffer_ a))).
Definition EmitBuffer (bs : list Z) : AM unit := modify (λ a, set_buffer (buffer_ a ++ bs) a).
Definition Emit32 (data : Z) : AM unit := EmitBuffer (le_bytes 4 data).
Definition Emit64 (data : Z) : AM unit := EmitBuffer (le_bytes 8 data).

(** An access outside the vector is undefined. *)
Definition LoadInst (offset : Z) : AM Z :=
  a ← get;
  if (0 <=? offset) && (offset + 4 <=? Z.of_nat (length (buffer_ a)))
  then mret (le_num (take 4 (drop (Z.to_nat offset) (buffer_ a))))
  else fail Undefined.
Definition RewriteInst (offset instr : Z) : AM unit :=
  a ← get;
  if (0 <=? offset) && (offset + 4 <=? Z.of_nat (length (buffer_ a)))
  then
    put (set_buffer (take (Z.to_nat offset) (buffer_ a) ++ le_bytes 4 instr ++
                     drop (Z.to_nat offset + 4) (buffer_ a)) a)
  else fail Undefined.

(** *** Labels *)

Definition new_RelocLabel (value : Z) : AM nat :=
  a ← get;
  _ ← put (set_labels (labels a ++ [RelocLabel_new value]) a);
  mret (length (labels a)).

Definition AppendRelocLabel (label : nat) : AM unit :=
  modify (λ a, mkAsm (buffer_ a) (realized_addr_ a) (labels a) (data_labels_ a ++ [label])).

Definition get_label (label : nat) : AM RelocLabel :=
  a ← get; lift_opt Undefined (labels a !! label).
Definition update_label (label : nat) (f : RelocLabel → RelocLabel) : AM unit :=
  modify (λ a, set_labels (alter f label (labels a)) a).

(** AssemblerPseudoLabel::link_confused_instructions: the loop over the
    recorded references. *)
Fixpoint link_confused_instructions (relocated_pos : Z) (refs : list ref_label_inst_t) : AM unit :=
  match refs with
  | [] => mret tt
  | r :: refs =>
      let fixup_offset := sint 64 (relocated_pos - offset_ r) in
      inst ← LoadInst (offset_ r);
      let new_inst := if type_ r =? kLabelImm19 then encode_imm19_offset inst fixup_offset else 0 in
      _ ← RewriteInst (offset_ r) new_inst;
      link_confused_instructions relocated_pos refs
  end.

Definition PseudoBind (label : nat) : AM unit :=
  bound_offset ← GetBufferSize;
  _ ← update_label label (bind_to bound_offset);
  l ← get_label label;
  when (has_confused_instructions l)
    (link_confused_instructions (relocated_pos_ l) (ref_label_insts_ l)).

Fixpoint bind_labels (ls : list nat) : AM unit :=
  match ls with
  | [] => mret tt
  | data_label :: ls =>
      _ ← PseudoBind data_label;
      l ← get_label data_label;
      _ ← EmitBuffer (take (Z.to_nat (data_size_ l)) (data_ l));
      bind_labels ls
  end.

Definition RelocBind : AM unit := ls ← gets data_labels_; bind_labels ls.

Definition SetRealizedAddress (address : Z) : AM unit :=
  modify (λ a, mkAsm (buffer_ a) address (labels a) (data_labels_ a)).

(** ** Operands *)

Record Operand : Set := mkOperand {
  immediate_ : Z;
  reg_ : CPURegister;
  shift_ : Shift;
  extend_ : Extend;
  shift_extent_imm_ : Z
}.

Definition Operand_imm (imm : Z) : Operand := mkOperand imm InvalidRegister NO_SHIFT NO_EXTEND 0.
Definition Operand_shift (reg : CPURegister) (shift : Shift) (shift_imm : Z) : Operand :=
  mkOperand 0 reg shift NO_EXTEND shift_imm.
Definition Operand_extend (reg : CPURegister) (extend : Extend) (shift_imm : Z) : Operand :=
  mkOperand 0 reg NO_SHIFT extend shift_imm.

Definition Operand_IsImmediate (o : Operand) : bool := reg_Is (reg_ o) InvalidRegister.

Record MemOperand : Set := mkMemOperand {
  mo_base : CPURegister;
  mo_regoffset : CPURegister;
  mo_offset : Z;
  mo_shift : Shift;
  mo_extend : Extend;
  mo_shift_extend_imm : Z;
  mo_addrmode : AddrMode
}.

Definition MemOperand_imm (base : CPURegister) (offset : Z) (addrmode : AddrMode) : MemOperand :=
  mkMemOperand base InvalidRegister offset NO_SHIFT NO_EXTEND 0 addrmode.

Definition IsImmediateOffset (m : MemOperand) : bool :=
  match mo_addrmode m with Offset => true | _ => false end.
Definition IsRegisterOffset (m : MemOperand) : bool :=
  match mo_addrmode m with Offset => true | _ => false end.
Definition IsPreIndex (m : MemOperand) : bool :=
  match mo_addrmode m with PreIndex => true | _ => false end.
Definition IsPostIndex (m : MemOperand) : bool :=
  match mo_addrmode m with PostIndex => true | _ => false end.

(** ** Encoders (class OpEncode) *)

Definition enc_Rd (r : CPURegister) : Z := reg_code_ r << kRdShift.
Definition enc_Rt (r : CPURegister) : Z := reg_code_ r << kRtShift.
Definition enc_Rt2 (r : CPURegister) : Z := reg_code_ r << kRt2Shift.
Definition enc_Rn (r : CPURegister) : Z := reg_code_ r << kRnShift.
Definition enc_Rm (r : CPURegister) : Z := reg_code_ r << kRmShift.

Definition OpEncode_sf (r : CPURegister) : Z := if Is64Bits r then LeftShift 1 1 31 else 0.
Definition OpEncode_V (r : CPURegister) : Z := if IsVRegister r then LeftShift 1 1 26 else 0.
Definition OpEncode_L (load_or_store : bool) : Z := if load_or_store then LeftShift 1 1 22 else 0.
Definition OpEncode_shift (s : Shift) : Z := LeftShift (Shift_num s) 2 22.

(** The local [N] is computed and left out of the word, as in the source. *)
Definition EncodeLogicalImmediate (rd rn : CPURegister) (operand : Operand) : Z :=
  let imm := immediate_ operand in
  let immr := bits imm 0 5 in
  let imms := bits imm 6 11 in
  OpEncode_sf rd .| LeftShift immr 6 16 .| LeftShift imms 6 10 .| enc_Rd rd .| enc_Rn rn.

Definition EncodeLogicalShift (rd rn : CPURegister) (operand : Operand) : Z :=
  OpEncode_sf rd .| OpEncode_shift (shift_ operand) .| enc_Rm (reg_ operand) .|
  LeftShift (shift_extent_imm_ operand) 6 10 .| enc_Rn rn .| enc_Rd rd.

Definition OpEncode_LoadStorePair (op : Z) (rt rt2 : CPURegister) (addr : MemOperand) : Z :=
  let opc := bits op 30 31 in
  let scale :=
    if IsRegister rt then 2 + bit opc 1
    else if IsVRegister rt then 2 + opc
    else 2 in
  let imm7 := sint 32 (mo_offset addr >> scale) in
  LeftShift imm7 7 15.

Definition OpEncode_scale (op : Z) : Z :=
  if op & LoadStoreUnsignedOffsetFixed =? LoadStoreUnsignedOffsetFixed then bits op 30 31 else 0.

(** ** class Assembler *)

Definition Emit (value : Z) : AM unit := Emit32 (u32 value).
Definition EmitInt64 (value : Z) : AM unit := Emit64 (u64 value).
Definition UNREACHABLE {A} : AM A := fail Aborted.

Definition nop : AM unit := Emit 0xD503201F.
Definition brk (code : Z) : AM unit := Emit (BRK .| LeftShift code 16 5).
Definition ret : AM unit := Emit 0xD65F03C0.

Definition adrp (rd : CPURegister) (imm : Z) : AM unit :=
  let immlo := LeftShift (bits (imm >> 12) 0 1) 2 29 in
  let immhi := LeftShift (bits (imm >> 12) 2 20) 19 5 in
  Emit (ADRP .| enc_Rd rd .| immlo .| immhi).

Definition AddSubImmediate (rd rn : CPURegister) (operand : Operand) (op : Z) : AM unit :=
  if Operand_IsImmediate operand then
    let imm12 := LeftShift (immediate_ operand) 12 10 in
    Emit (op .| enc_Rd rd .| enc_Rn rn .| imm12)
  else UNREACHABLE.

Definition add (rd rn : CPURegister) (imm : Z) : AM unit :=
  if Is64Bits rd && Is64Bits rn then AddSubImmediate rd rn (Operand_imm imm) ADD_x_imm
  else AddSubImmediate rd rn (Operand_imm imm) ADD_w_imm.
Definition adds (rd rn : CPURegister) (imm : Z) : AM unit := UNREACHABLE.
Definition sub (rd rn : CPURegister) (imm : Z) : AM unit :=
  if Is64Bits rd && Is64Bits rn then AddSubImmediate rd rn (Operand_imm imm) SUB_x_imm
  else AddSubImmediate rd rn (Operand_imm imm) SUB_w_imm.
Definition subs (rd rn : CPURegister) (imm : Z) : AM unit := UNREACHABLE.

Definition b (imm : Z) : AM unit :=
  let imm26 := bits (imm >> 2) 0 25 in Emit (B .| imm26).
Definition br (rn : CPURegister) : AM unit := Emit (BR .| enc_Rn rn).
Definition blr (rn : CPURegister) : AM unit := Emit (BLR .| enc_Rn rn).

Definition EmitLoadRegLiteral (op : Z) (rt : CPURegister) (imm : Z) : AM unit :=
  Emit (op .| LeftShift imm 26 5 .| enc_Rt rt).
Definition ldr_literal (rt : CPURegister) (imm : Z) : AM unit :=
  match reg_type_ rt with
  | kRegister_32 => EmitLoadRegLiteral LDR_w_literal rt imm
  | kRegister_64 => EmitLoadRegLiteral LDR_x_literal rt imm
  | kSIMD_FP_Register_32 => EmitLoadRegLiteral LDR_s_literal rt imm
  | kSIMD_FP_Register_64 => EmitLoadRegLiteral LDR_d_literal rt imm
  | kSIMD_FP_Register_128 => EmitLoadRegLiteral LDR_q_literal rt imm
  | _ => UNREACHABLE
  end.

Definition LoadStore (op : Z) (rt : CPURegister) (addr : MemOperand) : AM unit :=
  if IsImmediateOffset addr then
    let imm12 := mo_offset addr >> OpEncode_scale (LoadStoreUnsignedOffsetFixed .| op) in
    Emit (LoadStoreUnsignedOffsetFixed .| op .| LeftShift imm12 12 10 .|
          enc_Rn (mo_base addr) .| enc_Rt rt)
  else UNREACHABLE.
(** The 64-bit opcode, whatever the register. *)
Definition ldr (rt : CPURegister) (src : MemOperand) : AM unit := LoadStore LDR_x rt src.
Definition str (rt : CPURegister) (src : MemOperand) : AM unit := LoadStore STR_x rt src.

Definition LoadStorePair (op : Z) (rt rt2 : CPURegister) (addr : MemOperand) : AM unit :=
  let combine_fields_op :=
    OpEncode_LoadStorePair op rt rt2 addr .| enc_Rt2 rt2 .| enc_Rn (mo_base addr) .| enc_Rt rt in
  let addrmodeop :=
    if IsImmediateOffset addr then LoadStorePairOffsetFixed
    else if IsPreIndex addr then LoadStorePairPreIndexFixed
    else LoadStorePairPostIndexFixed in
  Emit (op .| addrmodeop .| combine_fields_op).

Definition ldp (rt rt2 : CPURegister) (src : MemOperand) : AM unit :=
  match reg_type_ rt with
  | kSIMD_FP_Register_128 => LoadStorePair LDP_q rt rt2 src
  | kRegister_64 => LoadStorePair LDP_x rt rt2 src
  | _ => UNREACHABLE
  end.
Definition stp (rt rt2 : CPURegister) (dst : MemOperand) : AM unit :=
  match reg_type_ rt with
  | kSIMD_FP_Register_128 => LoadStorePair STP_q rt rt2 dst
  | kRegister_64 => LoadStorePair STP_x rt rt2 dst
  | _ => UNREACHABLE
  end.

Definition MoveWide (rd : CPURegister) (imm shift op : Z) : AM unit :=
  let shift := if 0 <? shift then Z.quot shift 16 else 0 in
  let imm16 := LeftShift imm 16 5 in
  Emit (MoveWideImmediateFixed .| op .| OpEncode_sf rd .| LeftShift shift 2 21 .| imm16 .| enc_Rd rd).
Definition movk (rd : CPURegister) (imm shift : Z) : AM unit := MoveWide rd imm shift MOVK.
Definition movn (rd : CPURegister) (imm shift : Z) : AM unit := MoveWide rd imm shift MOVN.
Definition movz (rd : CPURegister) (imm shift : Z) : AM unit := MoveWide rd imm shift MOVZ.

Definition LogicalImmediate (rd rn : CPURegister) (operand : Operand) (op : Z) : AM unit :=
  Emit (op .| EncodeLogicalImmediate rd rn operand).
Definition LogicalShift (rd rn : CPURegister) (operand : Operand) (op : Z) : AM unit :=
  Emit (op .| LogicalShiftedFixed .| EncodeLogicalShift rd rn operand).
Definition Logical (rd rn : CPURegister) (operand : Operand) (op : Z) : AM unit :=
  if Operand_IsImmediate operand then LogicalImmediate rd rn operand op
  else LogicalShift rd rn operand op.
Definition orr (rd rn : CPURegister) (operand : Operand) : AM unit := Logical rd rn operand ORR.

Definition mov (rd rn : CPURegister) : AM unit :=
  if reg_Is rd SP || reg_Is rn SP then add rd rn 0
  else if Is64Bits rd then orr rd xzr (Operand_shift rn LSL 0)
  else orr rd wzr (Operand_shift rn LSL 0).

(** ** class TurboAssembler *)

Definition Low16Bits (value : Z) : Z := u16 (value & 0xffff).
Definition High16Bits (value : Z) : Z := u16 (value >> 16).
Definition Low32Bits (value : Z) : Z := u32 value.
Definition High32Bits (value : Z) : Z := u32 (value >> 32).

Definition Ldr (rt : CPURegister) (label : nat) : AM unit :=
  l ← get_label label;
  size ← GetBufferSize;
  if truthy (relocated_pos_ l) then
    let offset := sint 32 (relocated_pos_ l - size) in
    ldr_literal rt offset
  else
    _ ← update_label label (link_to kLabelImm19 0 size);
    ldr_literal rt 0.

Definition Mov (rd : CPURegister) (imm : Z) : AM unit :=
  let w0 := Low32Bits imm in
  let w1 := High32Bits imm in
  let h0 := Low16Bits w0 in
  let h1 := High16Bits w0 in
  let h2 := Low16Bits w1 in
  let h3 := High16Bits w1 in
  _ ← movz rd h0 0;
  _ ← movk rd h1 16;
  _ ← movk rd h2 32;
  movk rd h3 48.

Definition CallFunction (function : Z) : AM unit :=
  _ ← Mov TMP_REG_0 function;
  blr TMP_REG_0.

(** The uint64_t difference of the pages is read as the int64_t argument. *)
Definition AdrpAdd (rd : CPURegister) (from to : Z) : AM unit :=
  let from_PAGE := ALIGN_FLOOR from 0x1000 in
  let to_PAGE := ALIGN_FLOOR to 0x1000 in
  let to_PAGEOFF := to mod 0x1000 in
  _ ← adrp rd (sint 64 (to_PAGE - from_PAGE));
  add rd rd to_PAGEOFF.

(** ** CodeGen *)

(** codegen-arm64.cc: the labels are bound here, with all the others. *)
Definition LiteralLdrBranch (address : Z) : AM unit :=
  dst_label ← new_RelocLabel address;
  _ ← AppendRelocLabel dst_label;
  _ ← Ldr TMP_REG_0 dst_label;
  _ ← br TMP_REG_0;
  RelocBind.
