(* ===== verification/A64Reloc.v ===== *)
(** * The ARM64 relocator of Dobby

    InstructionRelocationARM64.cc: the instructions that a trampoline will
    overwrite are rewritten so that they can run somewhere else.  The
    instruction classes follow inst_constants.h; [relo_inst] is one iteration
    of the loop of relo_relocate. *)

From S2P Require Import Prelude CMem DobbyBits DobbyMem A64Asm.

#[local] Open Scope cint_scope.

(** ** inst_constants.h *)

Definition CompareBranchFixed : Z := 0x34000000.
Definition CompareBranchFixedMask : Z := 0x7E000000.
Definition ConditionalBranchFixed : Z := 0x54000000.
Definition ConditionalBranchFixedMask : Z := 0xFE000000.
Definition TestBranchFixed : Z := 0x36000000.
Definition TestBranchFixedMask : Z := 0x7E000000.

(** [x & ~(0x1000 - 1)], the mask sign-extended to 64 bits *)
Definition arm64_trunc_page (x : Z) : Z := x & Z.lnot (0x1000 - 1).

(** ** Instruction classes *)

Definition inst_is_b_bl (instr : Z) : bool :=
  instr & UnconditionalBranchFixedMask =? UnconditionalBranchFixed.
Definition inst_is_ldr_literal (instr : Z) : bool :=
  instr & LoadRegLiteralFixedMask =? LoadRegLiteralFixed.
Definition inst_is_adr (instr : Z) : bool :=
  (instr & PCRelAddressingFixedMask =? PCRelAddressingFixed) && (instr & PCRelAddressingMask =? ADR).
Definition inst_is_adrp (instr : Z) : bool :=
  (instr & PCRelAddressingFixedMask =? PCRelAddressingFixed) && (instr & PCRelAddressingMask =? ADRP).
Definition inst_is_b_cond (instr : Z) : bool :=
  instr & ConditionalBranchFixedMask =? ConditionalBranchFixed.
Definition inst_is_compare_b (instr : Z) : bool :=
  instr & CompareBranchFixedMask =? CompareBranchFixed.
Definition inst_is_test_b (instr : Z) : bool :=
  instr & TestBranchFixedMask =? TestBranchFixed.

(** ** One instruction *)

(** The branch at the end of a relocated conditional branch. *)
Definition emit_label_branch (label : nat) : AM unit :=
  _ ← Ldr TMP_REG_0 label;
  br TMP_REG_0.

(** [cur] is relo_cur_src_vmaddr(ctx). *)
Definition relo_inst (cur inst : Z) : AM unit :=
  if inst_is_b_bl inst then
    let offset := decode_imm26_offset inst in
    let dst_vmaddr := cur ⊕ offset in
    dst_label ← new_RelocLabel dst_vmaddr;
    _ ← AppendRelocLabel dst_label;
    _ ← Ldr TMP_REG_0 dst_label;
    if inst & UnconditionalBranchMask =? BL then blr TMP_REG_0 else br TMP_REG_0
  else if inst_is_ldr_literal inst then
    let offset := decode_imm19_offset inst in
    let dst_vmaddr := cur ⊕ offset in
    let rt := decode_rt inst in
    let opc := bits inst 30 31 in
    _ ← Mov TMP_REG_0 dst_vmaddr;
    if opc =? 0 then ldr (Wr rt) (MemOperand_imm TMP_REG_0 0 Offset)
    else if opc =? 1 then ldr (Xr rt) (MemOperand_imm TMP_REG_0 0 Offset)
    else fail Aborted
  else if inst_is_adr inst then
    let offset := decode_immhi_immlo_offset inst in
    let dst_vmaddr := cur ⊕ offset in
    let rd := decode_rd inst in
    Mov (Xr rd) dst_vmaddr
  else if inst_is_adrp inst then
    let offset := decode_immhi_immlo_zero12_offset inst in
    let dst_vmaddr := cur ⊕ offset in
    let dst_vmaddr := arm64_trunc_page dst_vmaddr in
    let rd := decode_rd inst in
    Mov (Xr rd) dst_vmaddr
  else if inst_is_b_cond inst then
    let offset := decode_imm19_offset inst in
    let dst_vmaddr := cur ⊕ offset in
    let branch_instr :=
      let cond := Z.lxor (bits inst 0 3) 1 in
      let branch_instr := set_bits inst 0 3 cond in
      let imm19 := (4 * 3) >> 2 in
      u32 (set_bits branch_instr 5 23 imm19) in
    dst_label ← new_RelocLabel dst_vmaddr;
    _ ← AppendRelocLabel dst_label;
    _ ← Emit branch_instr;
    emit_label_branch dst_label
  else if inst_is_compare_b inst then
    let offset := decode_imm19_offset inst in
    let dst_vmaddr := cur ⊕ offset in
    let branch_instr :=
      let op := Z.lxor (bit inst 24) 1 in
      let branch_instr := set_bit inst 24 op in
      let imm19 := (4 * 3) >> 2 in
      u32 (set_bits branch_instr 5 23 imm19) in
    dst_label ← new_RelocLabel dst_vmaddr;
    _ ← AppendRelocLabel dst_label;
    _ ← Emit branch_instr;
    emit_label_branch dst_label
  else if inst_is_test_b inst then
    let offset := decode_imm14_offset inst in
    let dst_vmaddr := cur ⊕ offset in
    let branch_instr :=
      let op := Z.lxor (bit inst 24) 1 in
      let branch_instr := set_bit inst 24 op in
      let imm14 := (4 * 3) >> 2 in
      u32 (set_bits branch_instr 5 18 imm14) in
    dst_label ← new_RelocLabel dst_vmaddr;
    _ ← AppendRelocLabel dst_label;
    _ ← Emit branch_instr;
    emit_label_branch dst_label
  else Emit inst.

(** ** relo_relocate *)

(** The fields of relo_ctx_t that are used; the labels of the assembler stand
    for label_map, which is not. *)
Record relo_ctx_t : Set := mkReloCtx {
  buffer : Z;
  buffer_cursor : Z;
  buffer_size : Z;
  src_vmaddr : Z;
  dst_vmaddr : Z;
  relocated_offset_map : gmap Z Z
}.

Definition relo_cur_src_vmaddr (ctx : relo_ctx_t) : Z :=
  src_vmaddr ctx ⊕ (buffer_cursor ctx - buffer ctx).

(** Run code of the assembler, a local object of the caller. *)
Definition run_asm {A} (c : AM A) (a : TurboAssembler) : DM (A * TurboAssembler) := λ s,
  match c a with
  | (Ret x, a') => (Ret (x, a'), s)
  | (Err e, _) => (Err e, s)
  end.

(** The while loop; every iteration moves the cursor by 4. *)
Fixpoint relo_loop (fuel : nat) (ctx : relo_ctx_t) (turbo_assembler_ : TurboAssembler)
  : DM (relo_ctx_t * TurboAssembler) :=
  if buffer_cursor ctx <? buffer ctx + buffer_size ctx then
    match fuel with
    | O => fail OutOfFuel
    | S fuel =>
        let orig_off := u32 (buffer_cursor ctx - buffer ctx) in
        let relocated_off := u32 (Z.of_nat (length (buffer_ turbo_assembler_))) in
        inst ← on_memory (load32 (buffer_cursor ctx));
        '(_, turbo_assembler_) ← run_asm (relo_inst (relo_cur_src_vmaddr ctx) inst) turbo_assembler_;
        relo_loop fuel
          (mkReloCtx (buffer ctx) (buffer_cursor ctx + 4) (buffer_size ctx) (src_vmaddr ctx)
             (dst_vmaddr ctx) (<[orig_off := relocated_off]> (relocated_offset_map ctx)))
          turbo_assembler_
    end
  else mret (ctx, turbo_assembler_).

Section os.
Context {os : OS}.

(** AssemblyCodeBuilder.cc *)
Definition FinalizeFromTurboAssembler (assembler : TurboAssembler) : DM MemBlock :=
  let buffer := buffer_ assembler in
  let buffer_size := Z.of_nat (length buffer) in
  realized_addr ←
    (if realized_addr_ assembler =? 0 then
       block ← allocateExecBlock (u32 buffer_size);
       mret (block_addr block)
     else mret (realized_addr_ assembler));
  _ ← DobbyCodePatch realized_addr buffer;
  mret (MemBlock_new realized_addr buffer_size).

(** Returns the origin block, reset, and the relocated code. *)
Definition relo_relocate (ctx : relo_ctx_t) (origin : MemBlock) (branch : bool)
  : DM (MemBlock * MemBlock) :=
  '(ctx, turbo_assembler_) ← relo_loop (Z.to_nat (buffer_size ctx)) ctx (asm_new 0);
  let new_origin_len := sint 32 (buffer_cursor ctx - buffer ctx) in
  let origin := MemBlock_reset (block_addr origin) (u64 new_origin_len) origin in
  '(_, turbo_assembler_) ←
    run_asm (when branch (LiteralLdrBranch (block_addr origin ⊕ block_size origin))) turbo_assembler_;
  '(_, turbo_assembler_) ← run_asm RelocBind turbo_assembler_;
  code ← FinalizeFromTurboAssembler turbo_assembler_;
  mret (origin, code).

(** Returns what [*origin] and [*relocated] become. *)
Definition GenRelocateCode (buffer : Z) (origin relocated : MemBlock) (branch : bool)
  : DM (MemBlock * MemBlock) :=
  let ctx := mkReloCtx buffer buffer (block_size origin) (block_addr origin) (block_addr relocated) ∅ in
  '(origin, code) ← relo_relocate ctx origin branch;
  mret (origin, MemBlock_reset (block_addr code) (block_size code) relocated).

Definition GenRelocateCodeAndBranch (buffer : Z) (origin relocated : MemBlock) : DM (MemBlock * MemBlock) :=
  GenRelocateCode buffer origin relocated true.

End os.
