(* ===== verification/A64Spec.v ===== *)
(** * A reference semantics of the ARM64 instructions Dobby reads and writes

    Decoding and execution after the Arm Architecture Reference Manual, by the
    fields of the word and independent of the masks of the code.  Instructions
    that do not read the program counter are left to a parameter. *)

From S2P Require Import Prelude CMem DobbyBits.

#[local] Open Scope cint_scope.

(** ** Instructions *)

Inductive ainsn : Set :=
  | ABranch (link : bool) (off : Z)                    (* B, BL *)
  | ABcond (cond : Z) (off : Z)                        (* B.cond *)
  | ACbz (x nz : bool) (rt off : Z)                    (* CBZ, CBNZ *)
  | ATbz (nz : bool) (b rt off : Z)                    (* TBZ, TBNZ *)
  | AAdr (rd off : Z)                                  (* ADR *)
  | AAdrp (rd off : Z)                                 (* ADRP *)
  | ALdrLit (v : bool) (opc rt off : Z)                (* LDR (literal), LDRSW, PRFM *)
  | ABranchReg (link : bool) (rn : Z)                  (* BR, BLR *)
  | AMovWide (keep : bool) (rd hw imm : Z)             (* MOVZ, MOVK, 64-bit *)
  | ALdrImm (rt rn off : Z)                            (* LDR (unsigned offset), 64-bit *)
  | AAddImm (rd rn imm : Z)                            (* ADD (immediate), 64-bit *)
  | AUnallocated
  | AOther (w : Z).

Definition decode (w : Z) : ainsn :=
  if field w 26 5 =? 5 then ABranch (field w 31 1 =? 1) (4 * sfield w 0 26)
  else if field w 24 8 =? 84 then
    if field w 4 1 =? 0 then ABcond (field w 0 4) (4 * sfield w 5 19) else AUnallocated
  else if field w 24 8 =? 85 then AUnallocated
  else if field w 25 6 =? 26 then
    ACbz (field w 31 1 =? 1) (field w 24 1 =? 1) (field w 0 5) (4 * sfield w 5 19)
  else if field w 25 6 =? 27 then
    ATbz (field w 24 1 =? 1) (32 * field w 31 1 + field w 19 5) (field w 0 5) (4 * sfield w 5 14)
  else if field w 24 5 =? 16 then
    if field w 31 1 =? 0 then AAdr (field w 0 5) (sint 21 (4 * field w 5 19 + field w 29 2))
    else AAdrp (field w 0 5) (4096 * sint 21 (4 * field w 5 19 + field w 29 2))
  else if (field w 27 3 =? 3) && (field w 24 2 =? 0) then
    ALdrLit (field w 26 1 =? 1) (field w 30 2) (field w 0 5) (4 * sfield w 5 19)
  else if (field w 23 9 =? 428) && (field w 10 13 =? 1984) && (field w 0 5 =? 0) then
    ABranchReg false (field w 5 5)
  else if (field w 23 9 =? 428) && (field w 10 13 =? 4032) && (field w 0 5 =? 0) then
    ABranchReg true (field w 5 5)
  else if field w 23 9 =? 421 then AMovWide false (field w 0 5) (field w 21 2) (field w 5 16)
  else if field w 23 9 =? 485 then AMovWide true (field w 0 5) (field w 21 2) (field w 5 16)
  else if (field w 23 9 =? 498) && (field w 22 1 =? 1) then
    ALdrImm (field w 0 5) (field w 5 5) (8 * field w 10 12)
  else if (field w 23 9 =? 290) && (field w 22 1 =? 0) then
    AAddImm (field w 0 5) (field w 5 5) (field w 10 12)
  else AOther w.

(** ** The machine *)

Record nzcv : Set := mkNZCV { fl_n : bool; fl_z : bool; fl_c : bool; fl_v : bool }.

(** General registers by number, SP apart; [other] is the rest of the machine:
    vector and system registers. *)
Record cpu (V : Type) : Type := mkCpu {
  xreg : Z → Z;
  spreg : Z;
  flags : nzcv;
  pc : Z;
  mem : memory;
  other : V
}.
Arguments mkCpu {V}.
Arguments xreg {V}.
Arguments spreg {V}.
Arguments flags {V}.
Arguments pc {V}.
Arguments mem {V}.
Arguments other {V}.

(** ConditionHolds *)
Definition cond_holds (cond : Z) (f : nzcv) : bool :=
  let base :=
    match Z.to_nat (cond / 2) with
    | 0%nat => fl_z f
    | 1%nat => fl_c f
    | 2%nat => fl_n f
    | 3%nat => fl_v f
    | 4%nat => fl_c f && negb (fl_z f)
    | 5%nat => eqb (fl_n f) (fl_v f)
    | 6%nat => eqb (fl_n f) (fl_v f) && negb (fl_z f)
    | _ => true
    end in
  if (cond mod 2 =? 1) && negb (cond =? 15) then negb base else base.

Section machine.
Context {V : Type}.
Implicit Types s : cpu V.

(** Register 31 is the zero register, or SP as a base. *)
Definition rd_x s (r : Z) : Z := if r =? 31 then 0 else xreg s r.
Definition rd_sp s (r : Z) : Z := if r =? 31 then spreg s else xreg s r.
Definition set_pc (p : Z) s : cpu V :=
  mkCpu (xreg s) (spreg s) (flags s) (u64 p) (mem s) (other s).
Definition wr_x (r v : Z) s : cpu V :=
  if r =? 31 then s
  else mkCpu (λ r', if r' =? r then u64 v else xreg s r') (spreg s) (flags s) (pc s) (mem s) (other s).
Definition wr_sp (r v : Z) s : cpu V :=
  if r =? 31 then mkCpu (xreg s) (u64 v) (flags s) (pc s) (mem s) (other s) else wr_x r v s.
Definition next s : cpu V := set_pc (pc s + 4) s.
Definition jump_if (c : bool) (off : Z) s : cpu V := if c then set_pc (pc s + off) s else next s.

Definition load_x (n : nat) (r a : Z) s : option (cpu V) :=
  let a := u64 a in
  if allows PROT_READ n a (mem s) then Some (next (wr_x r (number_of (mem s) n a) s)) else None.

(** The effect of the instructions that do not read the program counter, on a
    machine whose program counter is 0: where they jump, if they do (RET), and
    the machine after them; [None] where they fault. *)
Context (exec_other : Z → cpu V → option (option Z * cpu V)).

Definition exec (i : ainsn) s : option (cpu V) :=
  match i with
  | ABranch false off => Some (set_pc (pc s + off) s)
  | ABranch true off => Some (set_pc (pc s + off) (wr_x 30 (pc s + 4) s))
  | ABcond cond off => Some (jump_if (cond_holds cond (flags s)) off s)
  | ACbz x nz rt off =>
      let v := if x then rd_x s rt else u32 (rd_x s rt) in
      Some (jump_if (eqb nz (truthy v)) off s)
  | ATbz nz b rt off => Some (jump_if (eqb nz (Z.testbit (rd_x s rt) b)) off s)
  | AAdr rd off => Some (next (wr_x rd (pc s + off) s))
  | AAdrp rd off => Some (next (wr_x rd (pc s / 4096 * 4096 + off) s))
  | ALdrLit false 0 rt off => load_x 4 rt (pc s + off) s
  | ALdrLit false 1 rt off => load_x 8 rt (pc s + off) s
  | ALdrLit _ _ _ _ => None
  | ABranchReg false rn => Some (set_pc (rd_x s rn) s)
  | ABranchReg true rn => Some (set_pc (rd_x s rn) (wr_x 30 (pc s + 4) s))
  | AMovWide false rd hw imm => Some (next (wr_x rd (imm << (16 * hw)) s))
  | AMovWide true rd hw imm =>
      Some (next (wr_x rd (set_bits (rd_x s rd) (16 * hw) (16 * hw + 15) imm) s))
  | ALdrImm rt rn off => load_x 8 rt (rd_sp s rn + off) s
  | AAddImm rd rn imm => Some (next (wr_sp rd (rd_sp s rn + imm) s))
  | AUnallocated => None
  | AOther w =>
      '(target, s') ← exec_other w (set_pc 0 s);
      Some (set_pc (default (pc s + 4) target) s')
  end.

(** One step: fetch from executable memory, decode, execute. *)
Definition step s : option (cpu V) :=
  if allows PROT_EXEC 4 (pc s) (mem s) then exec (decode (number_of (mem s) 4 (pc s))) s else None.

Fixpoint steps (n : nat) s : option (cpu V) :=
  match n with
  | O => Some s
  | S n => s' ← step s; steps n s'
  end.

Lemma steps_add n k s s' s'' :
  steps n s = Some s' → steps k s' = Some s'' → steps (n + k) s = Some s''.
Proof.
  revert s. induction n as [|n IH]; simpl; intros s H1 H2; [by simplify_eq|].
  destruct (step s) as [t|]; simpl in *; [|done]. eauto.
Qed.

End machine.
