(* ===== verification/A64Layout.v ===== *)
(** * What the relocator emits

    The output of the assembler as a sequence of pieces, words and loads from
    the literal pool, and the words it becomes when the labels are bound. *)

From S2P Require Import Prelude DobbyBits DobbyMem A64Asm A64Reloc A64Spec.

#[local] Open Scope cint_scope.

(** ** Words *)

Definition LDR17 : Z := 0x58000011.
Definition BR17 : Z := 0xD61F0220.
Definition BLR17 : Z := 0xD63F0220.

(** MOVZ and MOVK of the [hw]th half-word of a 64-bit value. *)
Definition half (v hw : Z) : Z := field v (16 * hw) 16.
Definition movz_word (rd v : Z) : Z := u32 (0xD2800000 .| LeftShift (half v 0) 16 5 .| rd).
Definition movk_word (rd v hw : Z) : Z :=
  u32 (0xF2800000 .| LeftShift hw 2 21 .| LeftShift (half v hw) 16 5 .| rd).
Definition mov_words (rd v : Z) : list Z :=
  [movz_word rd v; movk_word rd v 1; movk_word rd v 2; movk_word rd v 3].
(** LDR rt, [x17] *)
Definition ldr_word (rt : Z) : Z := u32 (0xF9400220 .| rt).

(** ** Pieces *)

Inductive piece : Set :=
  | PW (w : Z)      (* a word *)
  | PL (v : Z).     (* LDR x17 from a pool entry that holds [v] *)

(** What an instruction at [cur] becomes; [None] where the relocator stops or
    the word is not an instruction. *)
Definition relo_pieces (cur w : Z) : option (list piece) :=
  match decode w with
  | ABranch link off => Some [PL (u64 (cur + off)); PW (if link then BLR17 else BR17)]
  | ALdrLit _ opc rt off =>
      if decide (opc < 2) then Some (PW <$> mov_words 17 (u64 (cur + off)) ++ [ldr_word rt]) else None
  | AAdr rd off => Some (PW <$> mov_words rd (u64 (cur + off)))
  | AAdrp rd off => Some (PW <$> mov_words rd (u64 (cur + off) / 4096 * 4096))
  | ABcond cond off =>
      Some [PW (set_bits (set_bits w 0 3 (Z.lxor cond 1)) 5 23 3); PL (u64 (cur + off)); PW BR17]
  | ACbz _ nz _ off =>
      Some [PW (set_bits (set_bits w 24 24 (if nz then 0 else 1)) 5 23 3); PL (u64 (cur + off)); PW BR17]
  | ATbz nz _ _ off =>
      Some [PW (set_bits (set_bits w 24 24 (if nz then 0 else 1)) 5 18 3); PL (u64 (cur + off)); PW BR17]
  | AUnallocated => None
  | _ => Some [PW w]
  end.

(** A sequence of instructions from [cur] on. *)
Fixpoint relo_seq (cur : Z) (ws : list Z) : option (list piece) :=
  match ws with
  | [] => Some []
  | w :: ws => ps ← relo_pieces cur w; qs ← relo_seq (cur ⊕ 4) ws; Some (ps ++ qs)
  end.

(** ** The assembler before the labels are bound *)

Definition piece_word (p : piece) : Z := match p with PW w => w | PL _ => LDR17 end.

(** The literals and the word positions that load them. *)
Fixpoint literals (i : nat) (ps : list piece) : list (nat * Z) :=
  match ps with
  | [] => []
  | PW _ :: ps => literals (S i) ps
  | PL v :: ps => (i, v) :: literals (S i) ps
  end.

Definition literal_label (l : nat * Z) : RelocLabel :=
  mkRelocLabel 0 0 [mkRef kLabelImm19 0 (4 * Z.of_nat (l.1))] (le_bytes 8 (l.2)) 8.

Definition asm_of (ps : list piece) : TurboAssembler :=
  mkAsm (words_bytes (piece_word <$> ps)) 0 (literal_label <$> literals 0 ps)
    (seq 0 (length (literals 0 ps))).

Lemma literals_app i ps qs : literals i (ps ++ qs) = literals i ps ++ literals (i + length ps) qs.
Proof.
  revert i. induction ps as [|[w|v] ps IH]; intros i; simpl; [by rewrite Nat.add_0_r|..];
    rewrite IH, Nat.add_succ_r; done.
Qed.

Lemma literals_lookup ps k j p v : literals j ps !! k = Some (p, v) → (j ≤ p)%nat ∧ ps !! (p - j)%nat = Some (PL v).
Proof.
  revert j k. induction ps as [|[w|u] ps IH]; intros j k H; simpl in H; [done|..].
  - apply IH in H as [? H]. split; [lia|]. by replace (p - j)%nat with (S (p - S j)) by lia.
  - destruct k as [|k]; simpl in H.
    + simplify_eq. by rewrite Nat.sub_diag.
    + apply IH in H as [? H]. split; [lia|]. by replace (p - j)%nat with (S (p - S j)) by lia.
Qed.

Lemma literals_find ps i j v : ps !! i = Some (PL v) → ∃ k, literals j ps !! k = Some ((j + i)%nat, v).
Proof.
  revert i j. induction ps as [|[w|u] ps IH]; intros [|i] j H; simplify_eq/=.
  - destruct (IH i (S j) H) as [k Hk]. exists k. by rewrite Hk, Nat.add_succ_r.
  - exists 0%nat. simpl. by rewrite Nat.add_0_r.
  - destruct (IH i (S j) H) as [k Hk]. exists (S k). simpl. by rewrite Hk, Nat.add_succ_r.
Qed.

(** Each literal is loaded at one position. *)
Lemma literals_inj ps j k k' p v v' :
  literals j ps !! k = Some (p, v) → literals j ps !! k' = Some (p, v') → k = k'.
Proof.
  revert j k k'. induction ps as [|[w|u] ps IH]; intros j k k' H H'; simpl in H, H'; [done|eauto|].
  destruct k as [|k], k' as [|k']; simpl in H, H'; [done|..].
  - apply literals_lookup in H' as [? _]. simplify_eq. lia.
  - apply literals_lookup in H as [? _]. simplify_eq. lia.
  - f_equal. eauto.
Qed.

Lemma buffer_length ps : Z.of_nat (length (buffer_ (asm_of ps))) = 4 * Z.of_nat (length ps).
Proof. simpl. rewrite length_words_bytes, length_fmap. lia. Qed.

Lemma Emit_asm_of w ps : 0 ≤ w < 2 ^ 32 → Emit w (asm_of ps) = (Ret tt, asm_of (ps ++ [PW w])).
Proof.
  intros Hw. unfold Emit, Emit32, EmitBuffer, modify, asm_of, set_buffer. simpl.
  rewrite literals_app. simpl. rewrite app_nil_r, fmap_app, words_bytes_app.
  rewrite wrap_small by done. simpl. by rewrite words_bytes_one.
Qed.

(** Emitting a word leaves the labels alone. *)
Definition with_label (v : Z) (ps : list piece) (refs : list ref_label_inst_t) : TurboAssembler :=
  mkAsm (words_bytes (piece_word <$> ps)) 0
    ((literal_label <$> literals 0 ps) ++ [mkRelocLabel 0 0 refs (le_bytes 8 v) 8])
    (seq 0 (length (literals 0 ps)) ++ [length (literals 0 ps)]).

Lemma new_label_asm_of v ps k (Q : nat → AM unit) :
  k = length (literals 0 ps) →
  (label ← new_RelocLabel v; _ ← AppendRelocLabel label; Q label) (asm_of ps) = Q k (with_label v ps []).
Proof.
  intros ->. unfold new_RelocLabel, AppendRelocLabel, modify, set_labels, asm_of, with_label.
  unfold mbind, CM_bind, get, put. simpl. by rewrite length_fmap.
Qed.

Lemma Emit_with_label w v ps :
  0 ≤ w < 2 ^ 32 → Emit w (with_label v ps []) = (Ret tt, with_label v (ps ++ [PW w]) []).
Proof.
  intros Hw. unfold Emit, Emit32, EmitBuffer, modify, with_label, set_buffer. simpl.
  rewrite literals_app. simpl. rewrite app_nil_r, fmap_app, words_bytes_app.
  rewrite wrap_small by done. simpl. by rewrite words_bytes_one.
Qed.

Lemma Ldr_with_label v ps k :
  k = length (literals 0 ps) →
  Ldr TMP_REG_0 k (with_label v ps []) = (Ret tt, asm_of (ps ++ [PL v])).
Proof.
  intros ->. unfold Ldr, get_label, GetBufferSize, update_label, modify, gets, with_label.
  unfold mbind, CM_bind, get. simpl.
  rewrite lookup_app_r by by rewrite length_fmap. rewrite length_fmap, Nat.sub_diag. simpl.
  unfold ldr_literal, EmitLoadRegLiteral, Emit, Emit32, EmitBuffer, modify, asm_of, set_buffer, set_labels.
  simpl. rewrite literals_app, length_app. simpl. rewrite !fmap_app, words_bytes_app, seq_app.
  rewrite alter_app_r_alt by by rewrite length_fmap. rewrite length_fmap, Nat.sub_diag. simpl.
  unfold link_to, literal_label. simpl. rewrite length_words_bytes, length_fmap, words_bytes_one.
  by replace (Z.of_nat (4 * length ps)) with (4 * Z.of_nat (length ps)) by lia.
Qed.

(** *** One instruction *)

Lemma Emit_words_asm_of ws ps :
  Forall (λ w, 0 ≤ w < 2 ^ 32) ws →
  foldr (λ w (c : AM unit), _ ← Emit w; c) (mret tt) ws (asm_of ps) = (Ret tt, asm_of (ps ++ (PW <$> ws))).
Proof.
  intros H. revert ps. induction H as [|w ws Hw H IH]; intros ps; simpl; [by rewrite app_nil_r|].
  rewrite (CM_bind_Ret _ _ _ _ _ (Emit_asm_of w ps Hw)), IH. by rewrite <- app_assoc.
Qed.

Lemma half_High v : 0 ≤ v < 2 ^ 64 →
  Low16Bits (Low32Bits v) = half v 0 ∧ High16Bits (Low32Bits v) = half v 1 ∧
  Low16Bits (High32Bits v) = half v 2 ∧ High16Bits (High32Bits v) = half v 3.
Proof.
  intros Hv. unfold Low16Bits, High16Bits, Low32Bits, High32Bits, half, field, wrap.
  change 0xffff with (Z.ones 16). rewrite !Z.land_ones, !Z.shiftr_div_pow2 by lia. simpl Z.mul.
  repeat split; Z.to_euclidean_division_equations; lia.
Qed.

Lemma half_range v hw : 0 ≤ half v hw < 2 ^ 16.
Proof. apply field_range. lia. Qed.

Lemma mov_words_range rd v : Forall (λ w, 0 ≤ w < 2 ^ 32) (mov_words rd v).
Proof. unfold mov_words, movz_word, movk_word. repeat constructor; apply (wrap_range 32); lia. Qed.

Lemma MoveWide_word rd imm shift op hw :
  hw = (if 0 <? shift then Z.quot shift 16 else 0) →
  MoveWide (Xr rd) imm shift op =
  Emit (u32 (MoveWideImmediateFixed .| op .| LeftShift 1 1 31 .| LeftShift hw 2 21 .| LeftShift imm 16 5 .| rd)).
Proof.
  intros ->. unfold MoveWide, Emit, enc_Rd, OpEncode_sf. simpl. rewrite wrap_idem by lia.
  by rewrite Z.shiftl_0_r.
Qed.

Lemma Mov_asm_of rd v ps :
  0 ≤ v < 2 ^ 64 → Mov (Xr rd) v (asm_of ps) = (Ret tt, asm_of (ps ++ (PW <$> mov_words rd v))).
Proof.
  intros Hv. rewrite <- (Emit_words_asm_of _ ps (mov_words_range rd v)). unfold Mov, movz, movk.
  destruct (half_High v Hv) as (-> & -> & -> & ->).
  rewrite (MoveWide_word rd _ 0 MOVZ 0), (MoveWide_word rd _ 16 MOVK 1), (MoveWide_word rd _ 32 MOVK 2),
    (MoveWide_word rd _ 48 MOVK 3) by done.
  cbn [mov_words foldr]. unfold movz_word, movk_word.
  change (MoveWideImmediateFixed .| MOVZ .| LeftShift 1 1 31 .| LeftShift 0 2 21) with 0xD2800000.
  change (MoveWideImmediateFixed .| MOVK .| LeftShift 1 1 31) with 0xF2800000.
  unfold mbind, CM_bind. repeat (destruct (Emit _ _) as [[[]|e] ?]; try done).
Qed.

(** What [relo_pieces] is for an instruction that becomes a branch over a jump. *)
Lemma label_jump_asm_of v (link : bool) ps (Q : AM unit) :
  (∀ a, Q a = (if link then blr TMP_REG_0 else br TMP_REG_0) a) →
  (label ← new_RelocLabel v; _ ← AppendRelocLabel label; _ ← Ldr TMP_REG_0 label; Q) (asm_of ps) =
  (Ret tt, asm_of (ps ++ [PL v; PW (if link then BLR17 else BR17)])).
Proof.
  intros HQ. rewrite (new_label_asm_of v ps _ _ eq_refl).
  rewrite (CM_bind_Ret _ _ _ _ _ (Ldr_with_label v ps _ eq_refl)), HQ.
  replace (ps ++ [PL v; PW (if link then BLR17 else BR17)]) with
    ((ps ++ [PL v]) ++ [PW (if link then BLR17 else BR17)]) by by rewrite <- app_assoc.
  by destruct link; apply Emit_asm_of.
Qed.

Lemma branch_jump_asm_of w v ps :
  0 ≤ w < 2 ^ 32 →
  (label ← new_RelocLabel v; _ ← AppendRelocLabel label; _ ← Emit w; emit_label_branch label) (asm_of ps) =
  (Ret tt, asm_of (ps ++ [PW w; PL v; PW BR17])).
Proof.
  intros Hw. rewrite (new_label_asm_of v ps _ _ eq_refl).
  rewrite (CM_bind_Ret _ _ _ _ _ (Emit_with_label w v ps Hw)). unfold emit_label_branch.
  assert (Hl : length (literals 0 ps) = length (literals 0 (ps ++ [PW w]))).
  { rewrite literals_app. simpl. by rewrite app_nil_r. }
  rewrite (CM_bind_Ret _ _ _ _ _ (Ldr_with_label v (ps ++ [PW w]) _ Hl)).
  replace (ps ++ [PW w; PL v; PW BR17]) with (((ps ++ [PW w]) ++ [PL v]) ++ [PW BR17])
    by by rewrite <- !app_assoc.
  by apply Emit_asm_of.
Qed.

(** ** The instruction classes and the fields of the word *)

Section classes.
Context (w : Z).

Lemma class_b_bl : inst_is_b_bl w = (field w 26 5 =? 5).
Proof. apply (mask_field w 26 5 5); lia. Qed.
Lemma class_b_cond : inst_is_b_cond w = (field w 25 7 =? 42).
Proof. apply (mask_field w 25 7 42); lia. Qed.
Lemma class_compare_b : inst_is_compare_b w = (field w 25 6 =? 26).
Proof. apply (mask_field w 25 6 26); lia. Qed.
Lemma class_test_b : inst_is_test_b w = (field w 25 6 =? 27).
Proof. apply (mask_field w 25 6 27); lia. Qed.
Lemma class_ldr_literal : inst_is_ldr_literal w = (field w 27 3 =? 3) && (field w 24 2 =? 0).
Proof.
  rewrite <- (mask_field w 27 3 3), <- (mask_field w 24 2 0), <- mask_split by (done || lia). done.
Qed.
Lemma class_adr : inst_is_adr w = (field w 24 5 =? 16) && (field w 31 1 =? 0).
Proof.
  unfold inst_is_adr. rewrite <- (mask_field w 24 5 16), <- (mask_field w 31 1 0) by lia.
  rewrite <- (mask_split w (LeftShift (-1) 5 24) (LeftShift (-1) 1 31)) by done.
  change (LeftShift (-1) 5 24 .| LeftShift (-1) 1 31) with PCRelAddressingMask.
  change (LeftShift 16 5 24 .| LeftShift 0 1 31) with ADR.
  destruct (_ =? ADR) eqn:E; [|by rewrite andb_false_r]. rewrite andb_true_r.
  apply Z.eqb_eq in E. apply Z.eqb_eq.
  change PCRelAddressingFixedMask with (PCRelAddressingMask & PCRelAddressingFixedMask).
  by rewrite Z.land_assoc, E.
Qed.
Lemma class_adrp : inst_is_adrp w = (field w 24 5 =? 16) && (field w 31 1 =? 1).
Proof.
  unfold inst_is_adrp. rewrite <- (mask_field w 24 5 16), <- (mask_field w 31 1 1) by lia.
  rewrite <- (mask_split w (LeftShift (-1) 5 24) (LeftShift (-1) 1 31)) by done.
  change (LeftShift (-1) 5 24 .| LeftShift (-1) 1 31) with PCRelAddressingMask.
  change (LeftShift 16 5 24 .| LeftShift 1 1 31) with ADRP.
  destruct (_ =? ADRP) eqn:E; [|by rewrite andb_false_r]. rewrite andb_true_r.
  apply Z.eqb_eq in E. apply Z.eqb_eq.
  change PCRelAddressingFixedMask with (PCRelAddressingMask & PCRelAddressingFixedMask).
  by rewrite Z.land_assoc, E.
Qed.
Lemma link_bit : field w 26 5 = 5 → (w & UnconditionalBranchMask =? BL) = (field w 31 1 =? 1).
Proof.
  intros H. change UnconditionalBranchMask with (LeftShift (-1) 5 26 .| LeftShift (-1) 1 31).
  change BL with (LeftShift 5 5 26 .| LeftShift 1 1 31).
  rewrite mask_split, !mask_field, H by (done || lia). done.
Qed.

(** The offsets the relocator decodes. *)
Lemma scaled_SignExtend lo n :
  0 ≤ lo → 0 < n ≤ 61 → SignExtend (field w lo n << 2) (2 + n) = 4 * sfield w lo n.
Proof.
  intros Hlo Hn. pose proof (field_range w lo n ltac:(lia)) as Hr.
  assert (Hp : 2 ^ (2 + n) = 4 * 2 ^ n) by by rewrite Z.pow_add_r by lia.
  rewrite Z.shiftl_mul_pow2 by lia. change (2 ^ 2) with 4. rewrite SignExtend_sint by lia.
  unfold sfield, sint. rewrite !wrap_small by lia.
  replace (2 ^ (2 + n - 1)) with (4 * 2 ^ (n - 1)) by (rewrite <- (Z.pow_add_r 2 2) by lia; f_equal; lia).
  rewrite Hp. case_decide; case_decide; lia.
Qed.

Lemma decode_imm26_eq : decode_imm26_offset w = 4 * sfield w 0 26.
Proof. unfold decode_imm26_offset. rewrite bits_field by lia. apply scaled_SignExtend; lia. Qed.
Lemma decode_imm19_eq : decode_imm19_offset w = 4 * sfield w 5 19.
Proof. unfold decode_imm19_offset. rewrite bits_field by lia. apply (scaled_SignExtend 5 19); lia. Qed.
Lemma decode_imm14_eq : decode_imm14_offset w = 4 * sfield w 5 14.
Proof. unfold decode_imm14_offset. rewrite bits_field by lia. apply (scaled_SignExtend 5 14); lia. Qed.
Lemma decode_adr_eq : decode_immhi_immlo_offset w = sint 21 (4 * field w 5 19 + field w 29 2).
Proof.
  unfold decode_immhi_immlo_offset, immlo_field, immhi_field. rewrite !bits_field by lia.
  pose proof (field_range w 5 19 ltac:(lia)). pose proof (field_range w 29 2 ltac:(lia)).
  change (30 - 29 + 1) with 2. change (23 - 5 + 1) with 19. change (2 + 19) with 21.
  rewrite Z.shiftl_mul_pow2, SignExtend_sint by lia. f_equal. lia.
Qed.
Lemma decode_adrp_eq :
  decode_immhi_immlo_zero12_offset w = 4096 * sint 21 (4 * field w 5 19 + field w 29 2).
Proof.
  unfold decode_immhi_immlo_zero12_offset. rewrite decode_adr_eq.
  set (v := sint 21 _). assert (Hv : - 2 ^ 20 ≤ v < 2 ^ 20).
  { unfold v, sint. pose proof (wrap_range 21 (4 * field w 5 19 + field w 29 2) ltac:(lia)).
    case_decide; lia. }
  rewrite Z.shiftl_mul_pow2 by lia. unfold sint, wrap.
  case_decide; Z.to_euclidean_division_equations; lia.
Qed.

End classes.

(** *** The order of the tests does not matter *)

Lemma field_sub w lo n k m :
  0 ≤ lo → 0 ≤ k → 0 ≤ m → k + m ≤ n → field w (lo + k) m = field (field w lo n) k m.
Proof.
  intros. apply Z.bits_inj'. intros i Hi. rewrite !testbit_field by lia.
  case_bool_decide; [simpl|done]. rewrite bool_decide_true by lia. simpl. f_equal. lia.
Qed.

(** The class of a word, in the order of relo_relocate and in that of
    [decode], from its top byte. *)
Definition code_class (t : Z) : nat :=
  if field t 2 5 =? 5 then 1
  else if (field t 3 3 =? 3) && (field t 0 2 =? 0) then 2
  else if (field t 0 5 =? 16) && (field t 7 1 =? 0) then 3
  else if (field t 0 5 =? 16) && (field t 7 1 =? 1) then 4
  else if field t 1 7 =? 42 then 5
  else if field t 1 6 =? 26 then 6
  else if field t 1 6 =? 27 then 7
  else 0.
Definition decode_class (t : Z) : nat :=
  if field t 2 5 =? 5 then 1
  else if t =? 84 then 5
  else if t =? 85 then 5
  else if field t 1 6 =? 26 then 6
  else if field t 1 6 =? 27 then 7
  else if field t 0 5 =? 16 then if field t 7 1 =? 0 then 3 else 4
  else if (field t 3 3 =? 3) && (field t 0 2 =? 0) then 2
  else 0.

Lemma classes_agree t : 0 ≤ t < 256 → code_class t = decode_class t.
Proof.
  intros Ht. assert (H : forallb (λ n, (code_class (Z.of_nat n) =? decode_class (Z.of_nat n))%nat)
    (seq 0 256) = true) by (vm_compute; done).
  rewrite forallb_forall in H. specialize (H (Z.to_nat t)).
  rewrite Z2Nat.id, Nat.eqb_eq in H by lia. apply H, in_seq. lia.
Qed.

(** A field of the top byte of [w]. *)
Ltac top_field w lo k m :=
  change (field w lo m) with (field w (24 + k) m); rewrite (field_sub w 24 8 k m) by lia.

Definition relo_class (c : nat) (cur w : Z) : AM unit :=
  match c with
  | 1%nat =>
      dst_label ← new_RelocLabel (cur ⊕ decode_imm26_offset w);
      _ ← AppendRelocLabel dst_label;
      _ ← Ldr TMP_REG_0 dst_label;
      if w & UnconditionalBranchMask =? BL then blr TMP_REG_0 else br TMP_REG_0
  | 2%nat =>
      _ ← Mov TMP_REG_0 (cur ⊕ decode_imm19_offset w);
      if bits w 30 31 =? 0 then ldr (Wr (decode_rt w)) (MemOperand_imm TMP_REG_0 0 Offset)
      else if bits w 30 31 =? 1 then ldr (Xr (decode_rt w)) (MemOperand_imm TMP_REG_0 0 Offset)
      else fail Aborted
  | 3%nat => Mov (Xr (decode_rd w)) (cur ⊕ decode_immhi_immlo_offset w)
  | 4%nat => Mov (Xr (decode_rd w)) (arm64_trunc_page (cur ⊕ decode_immhi_immlo_zero12_offset w))
  | 5%nat =>
      label ← new_RelocLabel (cur ⊕ decode_imm19_offset w);
      _ ← AppendRelocLabel label;
      _ ← Emit (u32 (set_bits (set_bits w 0 3 (Z.lxor (bits w 0 3) 1)) 5 23 3));
      emit_label_branch label
  | 6%nat =>
      label ← new_RelocLabel (cur ⊕ decode_imm19_offset w);
      _ ← AppendRelocLabel label;
      _ ← Emit (u32 (set_bits (set_bit w 24 (Z.lxor (bit w 24) 1)) 5 23 3));
      emit_label_branch label
  | 7%nat =>
      label ← new_RelocLabel (cur ⊕ decode_imm14_offset w);
      _ ← AppendRelocLabel label;
      _ ← Emit (u32 (set_bits (set_bit w 24 (Z.lxor (bit w 24) 1)) 5 18 3));
      emit_label_branch label
  | _ => Emit w
  end.

Definition word_class (w : Z) : nat :=
  if field w 26 5 =? 5 then 1
  else if field w 24 8 =? 84 then 5
  else if field w 24 8 =? 85 then 5
  else if field w 25 6 =? 26 then 6
  else if field w 25 6 =? 27 then 7
  else if field w 24 5 =? 16 then if field w 31 1 =? 0 then 3 else 4
  else if (field w 27 3 =? 3) && (field w 24 2 =? 0) then 2
  else 0.

Lemma word_class_eq w : word_class w = decode_class (field w 24 8).
Proof.
  unfold word_class, decode_class. top_field w 26 2 5. top_field w 27 3 3. top_field w 24 0 2.
  top_field w 24 0 5. top_field w 31 7 1. top_field w 25 1 6. done.
Qed.

Lemma relo_inst_class cur w : relo_inst cur w = relo_class (word_class w) cur w.
Proof.
  rewrite word_class_eq.
  rewrite <- classes_agree by (apply (field_range w 24 8); lia). unfold relo_inst, code_class.
  rewrite class_b_bl, class_ldr_literal, class_adr, class_adrp, class_b_cond, class_compare_b, class_test_b.
  top_field w 26 2 5. top_field w 27 3 3. top_field w 24 0 2. top_field w 24 0 5. top_field w 31 7 1.
  top_field w 25 1 7. top_field w 25 1 6.
  repeat (case_match; try done).
Qed.

Lemma flip_range x n : 0 ≤ x < 2 ^ n → 0 < n → 0 ≤ Z.lxor x 1 < 2 ^ n.
Proof.
  intros Hx Hn. assert (Hnn : 0 ≤ Z.lxor x 1) by (apply Z.lxor_nonneg; lia). split; [done|].
  destruct (decide (Z.lxor x 1 = 0)); [lia|]. apply Z.log2_lt_pow2; [lia|].
  pose proof (Z.log2_lxor x 1 ltac:(lia) ltac:(lia)). simpl in *.
  destruct (decide (x = 0)) as [->|]; [simpl in *; lia|].
  assert (Z.log2 x < n) by (apply Z.log2_lt_pow2; lia). lia.
Qed.

Lemma set_bits_field_range w st fn v :
  0 ≤ w < 2 ^ 32 → 0 ≤ st ≤ fn → fn < 32 → 0 ≤ v < 2 ^ (fn - st + 1) →
  0 ≤ set_bits w st fn v < 2 ^ 32.
Proof. intros. apply set_bits_range; lia. Qed.

Lemma decode_rt_range w : 0 ≤ decode_rt w < 32.
Proof. unfold decode_rt. rewrite bits_field by lia. apply (field_range w 0 5). lia. Qed.

Lemma ldr_asm_of r ps :
  0 ≤ reg_code_ r < 32 →
  ldr r (MemOperand_imm TMP_REG_0 0 Offset) (asm_of ps) =
  (Ret tt, asm_of (ps ++ [PW (ldr_word (reg_code_ r))])).
Proof.
  intros Hr. rewrite <- Emit_asm_of.
  - unfold ldr, LoadStore. simpl. unfold ldr_word, Emit, enc_Rt. rewrite wrap_idem, Z.shiftl_0_r by lia.
    done.
  - apply (wrap_range 32). lia.
Qed.

Lemma bit_flip w k : 0 ≤ k → Z.lxor (bit w k) 1 = (if field w k 1 =? 1 then 0 else 1).
Proof.
  intros. rewrite bit_field by done. pose proof (field_range w k 1 ltac:(lia)).
  assert (field w k 1 = 0 ∨ field w k 1 = 1) as [-> | ->] by lia; done.
Qed.

Lemma trunc_page_div x : arm64_trunc_page x = x / 4096 * 4096.
Proof.
  unfold arm64_trunc_page. change (0x1000 - 1) with (Z.ones 12).
  rewrite <- Z.ldiff_land, Z.ldiff_ones_r by lia. by rewrite Z.shiftr_div_pow2, Z.shiftl_mul_pow2 by lia.
Qed.

(** One iteration of the relocation loop emits the pieces of its instruction. *)
Lemma relo_inst_pieces cur w ps qs :
  0 ≤ w < 2 ^ 32 → relo_pieces cur w = Some qs →
  relo_inst cur w (asm_of ps) = (Ret tt, asm_of (ps ++ qs)).
Proof.
  intros Hw. rewrite relo_inst_class. unfold relo_pieces, decode, word_class.
  pose proof (field_range w 0 4 ltac:(lia)) as Hc.
  assert (Hflip : ∀ c : bool, 0 ≤ (if c then 0 else 1) < 2 ^ 1) by (intros []; lia).
  destruct (field w 26 5 =? 5) eqn:E1.
  { intros [= <-]. cbn [relo_class]. rewrite decode_imm26_eq. apply label_jump_asm_of. intros a.
    by rewrite link_bit by lia. }
  assert (Hcond : ∀ v, Some [PW (set_bits (set_bits w 0 3 (Z.lxor (field w 0 4) 1)) 5 23 3); PL v; PW BR17] = Some qs →
    v = cur ⊕ decode_imm19_offset w → relo_class 5 cur w (asm_of ps) = (Ret tt, asm_of (ps ++ qs))).
  { intros v [= <-] ->. cbn [relo_class]. rewrite (bits_field w 0 3) by lia.
    rewrite (wrap_small 32); [apply branch_jump_asm_of|]; apply set_bits_field_range; try lia;
      apply set_bits_field_range; try lia; by apply (flip_range _ 4). }
  destruct (field w 24 8 =? 84) eqn:E2.
  { destruct (field w 4 1 =? 0); [|done]. intros H. eapply Hcond; [exact H|]. by rewrite decode_imm19_eq. }
  destruct (field w 24 8 =? 85) eqn:E2'; [done|].
  destruct (field w 25 6 =? 26) eqn:E3.
  { intros [= <-]. cbn [relo_class]. rewrite decode_imm19_eq, bit_flip, set_bit_set_bits by lia.
    rewrite (wrap_small 32); [apply branch_jump_asm_of|]; apply set_bits_field_range; try lia;
      apply set_bits_field_range; try lia; apply Hflip. }
  destruct (field w 25 6 =? 27) eqn:E4.
  { intros [= <-]. cbn [relo_class]. rewrite decode_imm14_eq, bit_flip, set_bit_set_bits by lia.
    rewrite (wrap_small 32); [apply branch_jump_asm_of|]; apply set_bits_field_range; try lia;
      apply set_bits_field_range; try lia; apply Hflip. }
  destruct (field w 24 5 =? 16) eqn:E5.
  { destruct (field w 31 1 =? 0); intros [= <-]; cbn [relo_class]; unfold decode_rd;
      rewrite (bits_field w 0 4) by lia.
    - rewrite decode_adr_eq. apply Mov_asm_of, (wrap_range 64). lia.
    - rewrite decode_adrp_eq, trunc_page_div. apply Mov_asm_of.
      pose proof (u64_range (cur + 4096 * sint 21 (4 * field w 5 19 + field w 29 2))).
      Z.to_euclidean_division_equations. lia. }
  destruct ((field w 27 3 =? 3) && (field w 24 2 =? 0)) eqn:E6.
  { case_decide as Ho; [|done]. intros Hq. apply (inj Some) in Hq as <-. cbn [relo_class]. rewrite decode_imm19_eq, (bits_field w 30 31) by lia.
    change (31 - 30 + 1) with 2. pose proof (field_range w 30 2 ltac:(lia)).
    rewrite (CM_bind_Ret _ _ _ _ _ (Mov_asm_of 17 _ ps (wrap_range 64 _ ltac:(lia)))), fmap_app, app_assoc.
    pose proof (decode_rt_range w) as Hrt. unfold decode_rt in *.
    rewrite (bits_field w 0 4) in * by lia.
    assert (field w 30 2 = 0 ∨ field w 30 2 = 1) as [-> | ->] by lia; by apply ldr_asm_of. }
  assert (HE : Some [PW w] = Some qs → Emit w (asm_of ps) = (Ret tt, asm_of (ps ++ qs))).
  { intros [= <-]. by apply Emit_asm_of. }
  cbn [relo_class]. repeat (case_match; try done).
Qed.
