(* ===== verification/A64Bind.v ===== *)
(** * Binding the labels

    RelocBind on the output of the relocator: the words after the literal
    pools are appended and the loads point into them.  LiteralLdrBranch binds
    all labels and relo_relocate binds them again, so the pool is there twice
    and the loads end up at the second copy. *)

From S2P Require Import Prelude DobbyBits DobbyMem A64Asm A64Reloc A64Spec A64Layout.

#[local] Open Scope cint_scope.

(** ** The buffer as words *)

Definition is_word (w : Z) : Prop := 0 ≤ w < 2 ^ 32.

Lemma take_drop_words ws p w :
  ws !! p = Some w →
  take 4 (drop (4 * p) (words_bytes ws)) = le_bytes 4 w ∧
  (4 * p + 4 ≤ length (words_bytes ws))%nat ∧
  ∀ v, take (4 * p) (words_bytes ws) ++ le_bytes 4 v ++ drop (4 * p + 4) (words_bytes ws) =
       words_bytes (<[p := v]> ws).
Proof.
  intros Hp. pose proof (lookup_lt_Some _ _ _ Hp) as Hlt.
  assert (Hl : length (words_bytes (take p ws)) = (4 * p)%nat).
  { rewrite length_words_bytes, length_take. lia. }
  assert (Hb := length_le_bytes 4).
  repeat split.
  - rewrite (words_bytes_split ws p w Hp), <- Hl, drop_app_length, take_app_length'; auto.
  - rewrite length_words_bytes. lia.
  - intros v. rewrite (insert_take_drop ws p v) by done.
    change (v :: drop (S p) ws) with ([v] ++ drop (S p) ws).
    rewrite !words_bytes_app, words_bytes_one. rewrite (words_bytes_split ws p w Hp) at 1 2.
    rewrite <- Hl. rewrite take_app_length. do 2 f_equal.
    rewrite drop_app_add. rewrite drop_app_length'; auto.
Qed.

Lemma words_offset_ok ws p w :
  ws !! p = Some w →
  (0 <=? 4 * Z.of_nat p) && (4 * Z.of_nat p + 4 <=? Z.of_nat (length (words_bytes ws))) = true.
Proof. intros H. pose proof (take_drop_words ws p w H) as (_ & ? & _). lia. Qed.

Lemma LoadInst_words a ws p w :
  buffer_ a = words_bytes ws → ws !! p = Some w → is_word w →
  LoadInst (4 * Z.of_nat p) a = (Ret w, a).
Proof.
  intros Ha Hp Hw. unfold LoadInst, mbind, CM_bind, get. simpl. rewrite Ha, (words_offset_ok ws p w Hp).
  replace (Z.to_nat (4 * Z.of_nat p)) with (4 * p)%nat by lia.
  destruct (take_drop_words ws p w Hp) as (-> & _ & _). rewrite le_num_le_bytes.
  unfold mret, CM_ret. rewrite Z.mod_small; [done|]. exact Hw.
Qed.

Lemma RewriteInst_words a ws p w v :
  buffer_ a = words_bytes ws → ws !! p = Some w →
  RewriteInst (4 * Z.of_nat p) v a = (Ret tt, set_buffer (words_bytes (<[p := v]> ws)) a).
Proof.
  intros Ha Hp. unfold RewriteInst, mbind, CM_bind, get, put. simpl. rewrite Ha, (words_offset_ok ws p w Hp).
  replace (Z.to_nat (4 * Z.of_nat p)) with (4 * p)%nat by lia.
  destruct (take_drop_words ws p w Hp) as (_ & _ & ->). done.
Qed.

(** ** One label *)

Definition label_for (l : RelocLabel) (lit : nat * Z) : Prop :=
  ref_label_insts_ l = [mkRef kLabelImm19 0 (4 * Z.of_nat (lit.1))] ∧
  data_ l = le_bytes 8 (lit.2) ∧ data_size_ l = 8.

(** The words after one label is bound: its load points to the end, where its
    value is appended. *)
Definition bind_word (ws : list Z) (lit : nat * Z) : list Z :=
  alter (λ w, encode_imm19_offset w (4 * (Z.of_nat (length ws) - Z.of_nat (lit.1)))) (lit.1) ws ++ dword (lit.2).

Lemma length_bind_word ws lit : length (bind_word ws lit) = (length ws + 2)%nat.
Proof. unfold bind_word. rewrite length_app, length_alter. done. Qed.

(** The positions of the loads stay inside. *)
Definition below (ws : list Z) (lits : list (nat * Z)) : Prop :=
  Forall (λ lit, (lit.1 < length ws)%nat) lits.

Lemma below_bind ws lit lits : below ws lits → below (bind_word ws lit) lits.
Proof.
  unfold below. intros H. eapply Forall_impl; [exact H|]. cbv beta. intros x Hx.
  rewrite length_bind_word. lia.
Qed.

Lemma dword_words v : Forall is_word (dword v).
Proof. repeat constructor; apply (wrap_range 32); lia. Qed.

Lemma bind_word_words ws lit : Forall is_word ws → Forall is_word (bind_word ws lit).
Proof.
  intros H. unfold bind_word. apply Forall_app. split; [|apply dword_words].
  apply Forall_lookup. intros i w Hi. rewrite list_lookup_alter in Hi.
  case_decide; [|by eapply (Forall_lookup_1 is_word)].
  apply fmap_Some in Hi as (w0 & _ & ->). apply (wrap_range 32). lia.
Qed.

(** What binding leaves of an assembler besides its words. *)
Definition same_labels (a a' : TurboAssembler) : Prop :=
  data_labels_ a' = data_labels_ a ∧ realized_addr_ a' = realized_addr_ a ∧
  ∀ i l lit, labels a !! i = Some l → label_for l lit → ∃ l', labels a' !! i = Some l' ∧ label_for l' lit.

#[export] Instance same_labels_preorder : PreOrder same_labels.
Proof.
  split; [by intros a; split_and!; eauto|]. intros a b c (H1 & H2 & H3) (H4 & H5 & H6).
  split_and!; [congruence..|]. intros i l lit Hi Hl. destruct (H3 i l lit Hi Hl) as (l' & Hi' & Hl').
  eauto.
Qed.

Lemma bind_one a ws i l lit (k : AM unit) :
  buffer_ a = words_bytes ws → Forall is_word ws → labels a !! i = Some l → label_for l lit →
  (lit.1 < length ws)%nat → 4 * Z.of_nat (length ws) < 2 ^ 63 →
  ∃ a', (_ ← PseudoBind i; l ← get_label i;
         _ ← EmitBuffer (take (Z.to_nat (data_size_ l)) (data_ l)); k) a = k a' ∧
        buffer_ a' = words_bytes (bind_word ws lit) ∧ same_labels a a'.
Proof.
  intros Ha Hws Hi (Hr & Hd & Hs) Hlt Hmax. destruct lit as [p v]. simpl in *.
  destruct (lookup_lt_is_Some_2 ws p Hlt) as [w Hp].
  set (bound := Z.of_nat (length (buffer_ a))).
  assert (Hbound : bound = 4 * Z.of_nat (length ws)).
  { unfold bound. rewrite Ha, length_words_bytes. lia. }
  set (l' := bind_to bound l).
  set (a1 := set_labels (alter (bind_to bound) i (labels a)) a).
  assert (Hi1 : labels a1 !! i = Some l') by (simpl; by rewrite list_lookup_alter_eq, Hi).
  set (w' := encode_imm19_offset w (4 * (Z.of_nat (length ws) - Z.of_nat p))).
  set (a2 := set_buffer (words_bytes (<[p := w']> ws)) a1).
  assert (Hbind : PseudoBind i a = (Ret tt, a2)).
  { unfold PseudoBind, GetBufferSize, update_label, get_label, gets, modify.
    unfold mbind, CM_bind, get. fold bound. fold a1. cbn -[link_confused_instructions]. fold a1.
    change (alter (bind_to bound) i (labels a) !! i) with (labels a1 !! i). rewrite Hi1.
    cbn -[link_confused_instructions a1]. unfold has_confused_instructions. rewrite Hr.
    cbn -[link_confused_instructions a1]. cbn [link_confused_instructions offset_ type_].
    rewrite Hr. assert (Ha1 : buffer_ a1 = words_bytes ws) by exact Ha.
    cbn [length]. change (Z.of_nat 1 =? 0) with false. cbv [when negb].
    rewrite (CM_bind_Ret _ _ _ _ _ (LoadInst_words a1 ws p w Ha1 Hp (Forall_lookup_1 _ _ _ _ Hws Hp))).
    rewrite (CM_bind_Ret _ _ _ _ _ (RewriteInst_words a1 ws p w _ Ha1 Hp)).
    unfold mret, CM_ret. unfold a2, w'. do 5 f_equal. rewrite Hbound. change (kLabelImm19 =? kLabelImm19) with true.
    cbn iota. f_equal. unfold sint. rewrite wrap_small; [rewrite decide_False; lia|lia]. }
  exists (set_buffer (words_bytes (bind_word ws (p, v))) a2). split_and!.
  - rewrite (CM_bind_Ret _ _ _ _ _ Hbind). unfold get_label, EmitBuffer, modify, mbind, CM_bind, get.
    cbn -[a2]. change (labels a2) with (labels a1). rewrite Hi1. cbn -[a2]. rewrite Hd, Hs.
    rewrite firstn_all2 by by rewrite length_le_bytes. f_equal. f_equal.
    unfold bind_word. cbn [fst snd]. rewrite words_bytes_app, le_bytes_dword. f_equal. simpl. f_equal.
    unfold w'. apply list_eq. intros j. rewrite list_lookup_alter, list_lookup_insert.
    destruct (decide (p = j)) as [<-|Hne].
    { by rewrite decide_True, Hp by done. }
    by rewrite decide_False by by intros [].
  - done.
  - split_and!; [done..|]. intros j lj lit Hj Hlj. simpl. destruct (decide (j = i)) as [->|Hne].
    + exists l'. rewrite list_lookup_alter_eq, Hi. split; [done|].
      assert (lj = l) as -> by congruence. done.
    + exists lj. rewrite list_lookup_alter_ne by done. done.
Qed.

(** ** All labels *)

Lemma bind_labels_words idxs lits a ws :
  buffer_ a = words_bytes ws → Forall is_word ws →
  Forall2 (λ i lit, ∃ l, labels a !! i = Some l ∧ label_for l lit) idxs lits →
  below ws lits →
  4 * (Z.of_nat (length ws) + 2 * Z.of_nat (length lits)) < 2 ^ 63 →
  ∃ a', bind_labels idxs a = (Ret tt, a') ∧
        buffer_ a' = words_bytes (foldl bind_word ws lits) ∧ same_labels a a'.
Proof.
  intros Ha Hws Hl. revert a ws Ha Hws Hl. revert lits.
  induction idxs as [|i idxs IH]; intros lits a ws Ha Hws Hl Hlt Hmax; inversion Hl as [|? lit ? lits' (l & Hi & Hlit) Hrest]; subst.
  { exists a. split_and!; [done..|reflexivity]. }
  apply Forall_cons in Hlt as [Hp Hlt]. cbn [length] in Hmax.
  destruct (bind_one a ws i l lit (bind_labels idxs) Ha Hws Hi Hlit Hp ltac:(lia)) as (a1 & Hrun & Ha1 & Hs1).
  destruct (IH lits' a1 (bind_word ws lit) Ha1) as (a2 & Hrun2 & Ha2 & Hs2).
  - by apply bind_word_words.
  - eapply Forall2_impl; [exact Hrest|]. intros j lit' (lj & Hj & Hlj). by apply (proj2 (proj2 Hs1) j lj).
  - by apply below_bind.
  - rewrite length_bind_word. lia.
  - exists a2. split_and!; [|done|by etrans]. cbn [bind_labels]. by rewrite Hrun.
Qed.

Lemma foldl_bind_word_words ws lits : Forall is_word ws → Forall is_word (foldl bind_word ws lits).
Proof. revert ws. induction lits; intros ws H; simpl; [done|]. by apply IHlits, bind_word_words. Qed.

Lemma length_foldl_bind ws lits : length (foldl bind_word ws lits) = (length ws + 2 * length lits)%nat.
Proof. revert ws. induction lits; intros ws; simpl; [lia|]. rewrite IHlits, length_bind_word. lia. Qed.

(** Words no label loads from are left alone. *)
Lemma foldl_bind_other ws lits i :
  (i < length ws)%nat → i ∉ lits.*1 → foldl bind_word ws lits !! i = ws !! i.
Proof.
  revert ws. induction lits as [|[p v] lits IH]; intros ws Hi Hnin; [done|]. simpl.
  rewrite fmap_cons, not_elem_of_cons in Hnin. destruct Hnin as [Hne Hnin].
  rewrite IH by (rewrite ?length_bind_word; auto with lia). unfold bind_word.
  rewrite lookup_app_l by (rewrite length_alter; lia). simpl in *.
  by rewrite list_lookup_alter_ne by done.
Qed.

(** The pool holds the values. *)
Lemma foldl_bind_pool ws lits k p v :
  below ws lits → lits !! k = Some (p, v) →
  foldl bind_word ws lits !! (length ws + 2 * k)%nat = Some (u32 v) ∧
  foldl bind_word ws lits !! (length ws + 2 * k + 1)%nat = Some (u32 (v / 2 ^ 32)).
Proof.
  revert ws k. induction lits as [|[p' v'] lits IH]; intros ws k Hlt Hk; [done|].
  apply Forall_cons in Hlt as [Hp Hlt]. simpl foldl.
  pose proof (below_bind ws (p', v') lits Hlt) as Hlt'.
  destruct k as [|k]; simpl in Hk.
  - simplify_eq. assert (Hnin : ∀ i, (length ws ≤ i)%nat → i ∉ lits.*1).
    { intros i Hi (lit & -> & Hin)%list_elem_of_fmap. unfold below in Hlt. rewrite Forall_forall in Hlt. specialize (Hlt _ Hin). lia. }
    rewrite !foldl_bind_other by (rewrite ?length_bind_word; auto with lia).
    unfold bind_word. rewrite !lookup_app_r, length_alter by (rewrite length_alter; lia).
    replace (length ws + 2 * 0 - length ws)%nat with 0%nat by lia.
    by replace (length ws + 2 * 0 + 1 - length ws)%nat with 1%nat by lia.
  - destruct (IH _ k Hlt' Hk) as [H1 H2]. rewrite length_bind_word in *.
    by replace (length ws + 2 * S k)%nat with (length ws + 2 + 2 * k)%nat by lia.
Qed.

(** The loads point to their entries. *)
Lemma foldl_bind_load ws lits k p v w :
  NoDup (lits.*1) → below ws lits →
  lits !! k = Some (p, v) → ws !! p = Some w →
  foldl bind_word ws lits !! p =
  Some (encode_imm19_offset w (4 * (Z.of_nat (length ws + 2 * k) - Z.of_nat p))).
Proof.
  revert ws k. induction lits as [|[p' v'] lits IH]; intros ws k Hnd Hlt Hk Hp; [done|].
  apply Forall_cons in Hlt as [Hp' Hlt]. simpl foldl. rewrite fmap_cons in Hnd.
  apply NoDup_cons in Hnd as [Hnin Hnd]. simpl in Hnin, Hp'.
  destruct k as [|k]; simpl in Hk.
  - simplify_eq. rewrite foldl_bind_other by (rewrite ?length_bind_word; auto with lia).
    unfold bind_word. simpl. rewrite lookup_app_l by (rewrite length_alter; lia).
    rewrite list_lookup_alter_eq, Hp. simpl. by rewrite Nat.add_0_r.
  - assert (Hne : p' ≠ p).
    { intros ->. apply Hnin, list_elem_of_fmap. exists (p, v). split; [done|]. by eapply list_elem_of_lookup_2. }
    rewrite (IH _ k); [| done | | done |].
    + rewrite length_bind_word. do 3 f_equal. lia.
    + by apply below_bind.
    + unfold bind_word. simpl. pose proof (lookup_lt_Some _ _ _ Hp).
      rewrite lookup_app_l by (rewrite length_alter; lia). by rewrite list_lookup_alter_ne.
Qed.

(** ** The bound code *)

Definition final_words (ps : list piece) : list Z :=
  foldl bind_word (foldl bind_word (piece_word <$> ps) (literals 0 ps)) (literals 0 ps).

(** LDR x17 from [off] bytes ahead. *)
Definition ldr17 (off : Z) : Z := encode_imm19_offset LDR17 off.

Lemma encode_imm19_twice w o o' :
  is_word w → encode_imm19_offset (encode_imm19_offset w o) o' = encode_imm19_offset w o'.
Proof.
  intros Hw. unfold encode_imm19_offset.
  assert (Hb : ∀ x, 0 ≤ bits (x >> 2) 0 18 < 2 ^ (23 - 5 + 1)).
  { intros x. rewrite bits_field by lia. apply (field_range _ 0 19). lia. }
  rewrite (wrap_small 32 (set_bits w _ _ (bits (o >> 2) 0 18)))
    by (apply set_bits_range; [lia|apply Hb|lia|exact Hw]).
  f_equal. apply set_bits_twice; [lia|apply Hb..].
Qed.

Lemma literals_NoDup ps : NoDup ((literals 0 ps).*1).
Proof.
  rewrite NoDup_alt. intros i j p Hi Hj. rewrite list_lookup_fmap in Hi, Hj.
  apply fmap_Some in Hi as ([p1 v1] & Hi & ->). apply fmap_Some in Hj as ([p2 v2] & Hj & Heq).
  simpl in Heq. subst. by eapply literals_inj.
Qed.

Lemma literals_below ps ws : (length ps ≤ length ws)%nat → below ws (literals 0 ps).
Proof.
  intros Hl. apply Forall_lookup. intros k [p v] Hk. apply literals_lookup in Hk as [_ Hk].
  rewrite Nat.sub_0_r in Hk. apply lookup_lt_Some in Hk. simpl. lia.
Qed.

Section final.
Context (ps : list piece).
Let lits := literals 0 ps.
Let ws0 := piece_word <$> ps.
Let ws1 := foldl bind_word ws0 lits.

Lemma length_ws0 : length ws0 = length ps.
Proof using Type. apply length_fmap. Qed.
Lemma length_ws1 : length ws1 = (length ps + 2 * length lits)%nat.
Proof using Type. unfold ws1. by rewrite length_foldl_bind, length_ws0. Qed.
Lemma length_final_words : length (final_words ps) = (length ps + 4 * length lits)%nat.
Proof using Type. unfold final_words. fold ws0 lits ws1. rewrite length_foldl_bind, length_ws1. lia. Qed.

Lemma final_words_word i w : ps !! i = Some (PW w) → final_words ps !! i = Some w.
Proof using Type.
  intros Hi. pose proof (lookup_lt_Some _ _ _ Hi).
  assert (Hnin : i ∉ lits.*1).
  { intros ([p v] & -> & Hin)%list_elem_of_fmap. apply list_elem_of_lookup_1 in Hin as [k Hk].
    apply literals_lookup in Hk as [_ Hk]. rewrite Nat.sub_0_r in Hk. simpl in Hi. congruence. }
  unfold final_words. rewrite !foldl_bind_other by (fold lits ws0 ws1; try rewrite length_ws1; try rewrite length_ws0; auto with lia).
  unfold ws0. by rewrite list_lookup_fmap, Hi.
Qed.

Lemma final_words_load i v :
  ps !! i = Some (PL v) →
  ∃ j, (i < j)%nat ∧ (j + 1 < length (final_words ps))%nat ∧
    final_words ps !! i = Some (ldr17 (4 * (Z.of_nat j - Z.of_nat i))) ∧
    final_words ps !! j = Some (u32 v) ∧ final_words ps !! (j + 1)%nat = Some (u32 (v / 2 ^ 32)).
Proof using Type.
  intros Hi. destruct (literals_find ps i 0 v Hi) as [k Hk]. fold lits in Hk. rewrite Nat.add_0_l in Hk.
  pose proof (lookup_lt_Some _ _ _ Hi) as Hlti. pose proof (lookup_lt_Some _ _ _ Hk) as Hltk.
  assert (H0 : ws0 !! i = Some LDR17) by (unfold ws0; by rewrite list_lookup_fmap, Hi).
  assert (Hb0 : below ws0 lits) by (apply literals_below; by rewrite length_ws0).
  assert (Hb1 : below ws1 lits) by (apply literals_below; rewrite length_ws1; lia).
  pose proof (literals_NoDup ps) as Hnd.
  pose proof (foldl_bind_load ws0 lits k i v LDR17 Hnd Hb0 Hk H0) as H1. fold ws1 in H1.
  pose proof (foldl_bind_load ws1 lits k i v _ Hnd Hb1 Hk H1) as H2.
  rewrite encode_imm19_twice in H2 by by split.
  destruct (foldl_bind_pool ws1 lits k i v Hb1 Hk) as [H3 H4].
  exists (length ws1 + 2 * k)%nat. rewrite length_ws1 in *. rewrite length_final_words.
  split_and!; [lia|fold lits; lia|exact H2|exact H3|exact H4].
Qed.

End final.

(** What RelocBind makes of the assembler, twice. *)
Lemma bind_twice ps :
  Forall is_word (piece_word <$> ps) → 4 * Z.of_nat (length (final_words ps)) < 2 ^ 63 →
  ∃ a', (_ ← RelocBind; RelocBind) (asm_of ps) = (Ret tt, a') ∧
        buffer_ a' = words_bytes (final_words ps) ∧ realized_addr_ a' = 0.
Proof.
  intros Hws Hmax. rewrite length_final_words in Hmax.
  set (ws0 := piece_word <$> ps) in *. set (lits := literals 0 ps) in *.
  assert (Hl : ∀ a, same_labels (asm_of ps) a →
    Forall2 (λ i lit, ∃ l, labels a !! i = Some l ∧ label_for l lit) (data_labels_ a) lits).
  { intros a (-> & _ & H). simpl. apply Forall2_same_length_lookup. split; [by rewrite length_seq|].
    intros i j lit Hi Hlit. apply lookup_seq in Hi as [-> _]. rewrite Nat.add_0_l.
    apply (H _ (literal_label lit)); [|done]. simpl. fold lits. by rewrite list_lookup_fmap, Hlit. }
  assert (Hws0 : length ws0 = length ps) by apply length_fmap.
  assert (Hws1 : length (foldl bind_word ws0 lits) = (length ps + 2 * length lits)%nat)
    by (rewrite length_foldl_bind; lia).
  destruct (bind_labels_words (data_labels_ (asm_of ps)) lits (asm_of ps) ws0) as (a1 & H1 & Hb1 & Hs1);
    [done|done|by apply Hl|apply literals_below; lia|lia|].
  destruct (bind_labels_words (data_labels_ a1) lits a1 (foldl bind_word ws0 lits)) as (a2 & H2 & Hb2 & Hs2);
    [done|by apply foldl_bind_word_words|by apply Hl|apply literals_below; lia|lia|].
  exists a2. split_and!; [|exact Hb2|].
  - unfold RelocBind. unfold mbind, CM_bind, gets. by rewrite H1.
  - destruct Hs1 as (_ & E1 & _), Hs2 as (_ & E2 & _). by rewrite E2, E1.
Qed.
