(* ===== verification/A64Sim.v ===== *)
(** * The relocated code does what the original did

    The words the relocator emits, decoded and executed by the reference
    semantics: one original instruction against its pieces, then a run of the
    original code against a run of the relocated code. *)

From S2P Require Import Prelude CMem DobbyBits DobbyMem A64Asm A64Reloc A64Spec A64Layout A64Bind.

#[local] Open Scope cint_scope.

(** ** Decoding the emitted words *)

(** [decode] by the top byte. *)
Definition decode8 (t w : Z) : ainsn :=
  if field t 2 5 =? 5 then ABranch (field t 7 1 =? 1) (4 * sfield w 0 26)
  else if t =? 84 then
    if field w 4 1 =? 0 then ABcond (field w 0 4) (4 * sfield w 5 19) else AUnallocated
  else if t =? 85 then AUnallocated
  else if field t 1 6 =? 26 then
    ACbz (field t 7 1 =? 1) (field t 0 1 =? 1) (field w 0 5) (4 * sfield w 5 19)
  else if field t 1 6 =? 27 then
    ATbz (field t 0 1 =? 1) (32 * field t 7 1 + field w 19 5) (field w 0 5) (4 * sfield w 5 14)
  else if field t 0 5 =? 16 then
    if field t 7 1 =? 0 then AAdr (field w 0 5) (sint 21 (4 * field w 5 19 + field w 29 2))
    else AAdrp (field w 0 5) (4096 * sint 21 (4 * field w 5 19 + field w 29 2))
  else if (field t 3 3 =? 3) && (field t 0 2 =? 0) then
    ALdrLit (field t 2 1 =? 1) (field t 6 2) (field w 0 5) (4 * sfield w 5 19)
  else if (field w 23 9 =? 428) && (field w 10 13 =? 1984) && (field w 0 5 =? 0) then
    ABranchReg false (field w 5 5)
  else if (field w 23 9 =? 428) && (field w 10 13 =? 4032) && (field w 0 5 =? 0) then
    ABranchReg true (field w 5 5)
  else if field w 23 9 =? 421 then AMovWide false (field w 0 5) (field w 21 2) (field w 5 16)
  else if field w 23 9 =? 485 then AMovWide true (field w 0 5) (field w 21 2) (field w 5 16)
  else if (field w 23 9 =? 498) && (field w 22 1 =? 1) then
    ALdrImm (field w 0 5) (field w 5 5) (8 * field w 10 12)
  else if (field w 23 9 =? 290) && (field w 22 1 =? 0) then
    AAddImm (field w 0 5) (field w 5 5) (field w 10 12)
  else AOther w.

Lemma decode_top w : decode w = decode8 (field w 24 8) w.
Proof.
  unfold decode. top_field w 26 2 5. top_field w 31 7 1. top_field w 25 1 6. top_field w 24 0 1.
  top_field w 24 0 5. top_field w 27 3 3. top_field w 24 0 2. top_field w 26 2 1. top_field w 30 6 2.
  done.
Qed.

Lemma decode_BR17 : decode BR17 = ABranchReg false 17.
Proof. by vm_compute. Qed.
Lemma decode_BLR17 : decode BLR17 = ABranchReg true 17.
Proof. by vm_compute. Qed.

Lemma field_reg rd lo n : 0 ≤ rd < 32 → 5 ≤ lo → 0 ≤ n → field rd lo n = 0.
Proof. intros. apply (field_small rd 5); lia. Qed.

(** A word of a constant, a half-word immediate and a register. *)
Definition imm_word (c h rd : Z) : Z := u32 (c .| LeftShift h 16 5 .| rd).

Lemma imm_word_top c h rd lo n :
  0 ≤ rd < 32 → 21 ≤ lo → 0 ≤ n → lo + n ≤ 32 → field (imm_word c h rd) lo n = field c lo n.
Proof.
  intros. unfold imm_word. rewrite field_u32, !field_lor, field_LeftShift_ne, (field_reg rd) by lia.
  by rewrite !Z.lor_0_r.
Qed.
Lemma imm_word_imm c h rd :
  0 ≤ rd < 32 → 0 ≤ h < 2 ^ 16 → field c 5 16 = 0 → field (imm_word c h rd) 5 16 = h.
Proof.
  intros ? ? Hc. unfold imm_word.
  rewrite field_u32, !field_lor, field_LeftShift_same, (field_reg rd), Hc, Z.mod_small by lia.
  by rewrite Z.lor_0_r.
Qed.
Lemma imm_word_reg c h rd : 0 ≤ rd < 32 → field c 0 5 = 0 → field (imm_word c h rd) 0 5 = rd.
Proof.
  intros ? Hc. unfold imm_word. rewrite field_u32, !field_lor, field_LeftShift_ne, Hc by lia.
  by rewrite (field_whole rd) by lia.
Qed.

Lemma decode_movz rd v : 0 ≤ rd < 32 → decode (movz_word rd v) = AMovWide false rd 0 (half v 0).
Proof.
  intros Hr. change (movz_word rd v) with (imm_word 0xD2800000 (half v 0) rd).
  rewrite decode_top. unfold decode8.
  rewrite !(imm_word_top _ _ _ 24), !(imm_word_top _ _ _ 23), (imm_word_top _ _ _ 21), imm_word_imm,
    imm_word_reg by (done || lia || apply half_range).
  eval_tests. done.
Qed.

Lemma decode_movk rd v hw :
  0 ≤ rd < 32 → 0 ≤ hw < 4 → decode (movk_word rd v hw) = AMovWide true rd hw (half v hw).
Proof.
  intros Hr Hhw. change (movk_word rd v hw) with (imm_word (0xF2800000 .| LeftShift hw 2 21) (half v hw) rd).
  assert (Hf : ∀ lo n, 0 ≤ lo → 0 ≤ n → lo + n ≤ 21 ∨ 23 ≤ lo →
    field (0xF2800000 .| LeftShift hw 2 21) lo n = field 0xF2800000 lo n).
  { intros. rewrite field_lor, field_LeftShift_ne by lia. by rewrite Z.lor_0_r. }
  rewrite decode_top. unfold decode8.
  rewrite !(imm_word_top _ _ _ 24), !(imm_word_top _ _ _ 23), (imm_word_top _ _ _ 21), imm_word_imm,
    imm_word_reg by (lia || apply half_range || (rewrite Hf by lia; done)).
  rewrite !(Hf 24), !(Hf 23) by lia. rewrite field_lor, field_LeftShift_same, Z.mod_small by lia.
  eval_tests. done.
Qed.

Lemma decode_ldr_word rt : 0 ≤ rt < 32 → decode (ldr_word rt) = ALdrImm rt 17 0.
Proof.
  intros Hr. change (ldr_word rt) with (u32 (0xF9400220 .| rt)).
  assert (Hf : ∀ lo n, 5 ≤ lo → 0 ≤ n → lo + n ≤ 32 → field (u32 (0xF9400220 .| rt)) lo n = field 0xF9400220 lo n).
  { intros. rewrite field_u32, field_lor, (field_reg rt) by lia. by rewrite Z.lor_0_r. }
  rewrite decode_top. unfold decode8. rewrite !(Hf 24), !(Hf 23), !(Hf 22) by lia. eval_tests.
  rewrite (Hf 5), (Hf 10), field_u32, field_lor, (field_whole rt) by lia. done.
Qed.

Lemma decode_ldr17 k :
  0 ≤ k < 2 ^ 18 → decode (ldr17 (4 * k)) = ALdrLit false 1 17 (4 * k) ∧ is_word (ldr17 (4 * k)).
Proof.
  intros Hk.
  assert (E : ldr17 (4 * k) = set_bits LDR17 5 23 k).
  { unfold ldr17, encode_imm19_offset. rewrite bits_field, Z.shiftr_div_pow2 by lia.
    replace (4 * k / 2 ^ 2) with k by (Z.to_euclidean_division_equations; lia).
    rewrite field_whole by lia. apply wrap_small, set_bits_range; try lia. done. }
  rewrite E. split; [|apply set_bits_range; try lia; done].
  assert (Hf : ∀ lo n, 0 ≤ lo → 0 ≤ n → lo + n ≤ 5 ∨ 23 < lo → field (set_bits LDR17 5 23 k) lo n = field LDR17 lo n).
  { intros. apply field_set_bits_ne; lia. }
  rewrite decode_top. unfold decode8. rewrite !(Hf 24) by lia. eval_tests. rewrite (Hf 0) by lia.
  unfold sfield, sint. rewrite (field_set_bits_same LDR17 5 23) by lia.
  rewrite wrap_small, decide_False by lia. done.
Qed.

(** *** The branches, inverted *)

Lemma decode_ABcond w c off :
  decode w = ABcond c off → field w 24 8 = 84 ∧ field w 4 1 = 0 ∧ c = field w 0 4.
Proof. unfold decode. repeat (case_match; try done). intros [= <- _]. lia. Qed.

Lemma decode_ACbz w x nz rt off :
  decode w = ACbz x nz rt off →
  field w 25 6 = 26 ∧ x = (field w 31 1 =? 1) ∧ nz = (field w 24 1 =? 1) ∧ rt = field w 0 5.
Proof. unfold decode. repeat (case_match; try done). intros [= <- <- <- _]. split_and!; [lia|done..]. Qed.

Lemma decode_ATbz w nz b rt off :
  decode w = ATbz nz b rt off →
  field w 25 6 = 27 ∧ nz = (field w 24 1 =? 1) ∧ b = 32 * field w 31 1 + field w 19 5 ∧ rt = field w 0 5.
Proof. unfold decode. repeat (case_match; try done). intros [= <- <- <- _]. split_and!; [lia|done..]. Qed.

(** A class whose top byte is even or odd by bit 24 alone. *)
Lemma top_byte w : field w 24 8 = 128 * field w 31 1 + 2 * field w 25 6 + field w 24 1.
Proof. unfold field. Z.to_euclidean_division_equations. lia. Qed.

Lemma imm_small_19 : sfield (set_bits 0 5 23 3) 5 19 = 3.
Proof. done. Qed.

Lemma decode_flip_cond w c off :
  decode w = ABcond c off →
  decode (set_bits (set_bits w 0 3 (Z.lxor c 1)) 5 23 3) = ABcond (Z.lxor c 1) 12.
Proof.
  intros (Ht & H4 & ->)%decode_ABcond. pose proof (field_range w 0 4 ltac:(lia)) as Hr.
  pose proof (flip_range _ 4 Hr ltac:(lia)) as Hx. rewrite decode_top.
  rewrite !field_set_bits_ne, Ht by lia. unfold decode8. eval_tests.
  rewrite !(field_set_bits_ne _ 5 23) by lia. rewrite (field_set_bits_ne _ 0 3 _ 4), H4 by lia.
  rewrite (field_set_bits_same w 0 3) by lia. unfold sfield.
  rewrite (field_set_bits_same _ 5 23) by lia. done.
Qed.

Definition flip (nz : bool) : Z := if nz then 0 else 1.

Lemma flip_bit nz : 0 ≤ flip nz < 2 ^ (24 - 24 + 1) ∧ (flip nz =? 1) = negb nz.
Proof. by destruct nz. Qed.

(** The fields of a compare- or test-and-branch word with its test flipped and
    its immediate, at bits 5 to [hi], replaced. *)
Lemma flipped_fields w nz hi v :
  18 ≤ hi ≤ 23 → 0 ≤ v < 2 ^ (hi - 5 + 1) →
  let w' := set_bits (set_bits w 24 24 (flip nz)) 5 hi v in
  field w' 24 8 = 128 * field w 31 1 + 2 * field w 25 6 + flip nz ∧
  field w' 0 5 = field w 0 5 ∧ field w' 5 (hi - 5 + 1) = v ∧
  (hi = 18 → field w' 19 5 = field w 19 5).
Proof.
  intros Hhi Hv w'. destruct (flip_bit nz) as [Hf _]. unfold w'. split_and!.
  - rewrite top_byte, !(field_set_bits_ne _ 5 hi) by lia.
    rewrite (field_set_bits_ne _ 24 24 _ 31), (field_set_bits_ne _ 24 24 _ 25) by lia.
    do 2 f_equal. by apply (field_set_bits_same w 24 24).
  - by rewrite !field_set_bits_ne by lia.
  - by apply field_set_bits_same; lia.
  - intros ->. by rewrite !field_set_bits_ne by lia.
Qed.

Lemma bit_field_cases w k : 0 ≤ k → field w k 1 = 0 ∨ field w k 1 = 1.
Proof. intros. pose proof (field_range w k 1 ltac:(lia)). lia. Qed.

Lemma decode_flip_cbz w x nz rt off :
  decode w = ACbz x nz rt off →
  decode (set_bits (set_bits w 24 24 (flip nz)) 5 23 3) = ACbz x (negb nz) rt 12.
Proof.
  intros (Ht & -> & _ & ->)%decode_ACbz.
  destruct (flipped_fields w nz 23 3 ltac:(lia) ltac:(lia)) as (H8 & H0 & H5 & _).
  change (23 - 5 + 1) with 19 in H5.
  rewrite decode_top, H8, Ht. unfold decode8. rewrite !H0. unfold sfield. rewrite H5.
  by destruct (bit_field_cases w 31 ltac:(lia)) as [-> | ->], nz.
Qed.

Lemma decode_flip_tbz w nz b rt off :
  decode w = ATbz nz b rt off →
  decode (set_bits (set_bits w 24 24 (flip nz)) 5 18 3) = ATbz (negb nz) b rt 12.
Proof.
  intros (Ht & _ & -> & ->)%decode_ATbz.
  destruct (flipped_fields w nz 18 3 ltac:(lia) ltac:(lia)) as (H8 & H0 & H5 & H19).
  change (18 - 5 + 1) with 14 in H5.
  rewrite decode_top, H8, Ht. unfold decode8. rewrite !H0, H19 by done. unfold sfield. rewrite H5.
  by destruct (bit_field_cases w 31 ltac:(lia)) as [-> | ->], nz.
Qed.

Lemma cond_flip c f : 0 ≤ c < 14 → cond_holds (Z.lxor c 1) f = negb (cond_holds c f).
Proof.
  intros Hc. assert (Hall : forallb (λ n, forallb (λ f, eqb (cond_holds (Z.lxor (Z.of_nat n) 1) f)
    (negb (cond_holds (Z.of_nat n) f)))
    ((λ '(a, b, c, d), mkNZCV a b c d) <$> (list_prod (list_prod (list_prod [true; false] [true; false]) [true; false]) [true; false])))
    (seq 0 14) = true) by (vm_compute; done).
  rewrite forallb_forall in Hall. specialize (Hall (Z.to_nat c) ltac:(apply in_seq; lia)).
  rewrite Z2Nat.id, forallb_forall in Hall by lia. apply eqb_prop, (Hall f).
  destruct f as [[] [] [] []]; simpl; tauto.
Qed.
