(* ===== verification/A64Run.v ===== *)
(** * Running the relocated code

    One original instruction against the pieces it becomes, and a run through
    the original instructions against a run of the relocated ones.  The scratch
    register X17 is not compared, and a link register holds the address of the
    next instruction on either side. *)

From S2P Require Import Prelude CMem DobbyBits DobbyMem A64Asm A64Reloc A64Spec A64Layout A64Bind A64Sim.

#[local] Open Scope cint_scope.

(** ** Code in memory *)

(** The words [ws] at [a], on pages that can be read and executed. *)
Definition code_at (m : memory) (a : Z) (ws : list Z) : Prop :=
  ∀ i w, ws !! i = Some w →
    allows PROT_EXEC 4 (a + 4 * Z.of_nat i) m = true ∧
    allows PROT_READ 4 (a + 4 * Z.of_nat i) m = true ∧
    number_of m 4 (a + 4 * Z.of_nat i) = w.

Lemma allows_split p n k a m :
  allows p (n + k) a m = allows p n a m && allows p k (a + Z.of_nat n) m.
Proof.
  revert a. induction n as [|n IH]; intros a; [by rewrite Z.add_0_r|].
  cbn [allows Nat.add]. rewrite IH, <- andb_assoc. do 3 f_equal. lia.
Qed.

Lemma number_of_split m n k a :
  number_of m (n + k) a = number_of m n a + 256 ^ Z.of_nat n * number_of m k (a + Z.of_nat n).
Proof.
  revert a. induction n as [|n IH]; intros a; [simpl Nat.add; rewrite Z.add_0_r; simpl number_of; lia|].
  cbn [number_of Nat.add]. rewrite IH. replace (Z.of_nat (S n)) with (1 + Z.of_nat n) by lia.
  rewrite Z.pow_add_r, Z.add_assoc by lia. lia.
Qed.

(** A literal: two words read as a 64-bit number. *)
Lemma code_at_dword m a ws j v :
  code_at m a ws → ws !! j = Some (u32 v) → ws !! (j + 1)%nat = Some (u32 (v / 2 ^ 32)) →
  0 ≤ v < 2 ^ 64 →
  allows PROT_READ 8 (a + 4 * Z.of_nat j) m = true ∧ number_of m 8 (a + 4 * Z.of_nat j) = v.
Proof.
  intros Hc Hj Hj1 Hv. destruct (Hc j _ Hj) as (_ & R & N). destruct (Hc _ _ Hj1) as (_ & R1 & N1).
  replace (a + 4 * Z.of_nat (j + 1)) with (a + 4 * Z.of_nat j + Z.of_nat 4) in * by lia.
  change 8%nat with (4 + 4)%nat. rewrite allows_split, number_of_split, R, R1, N, N1. split; [done|].
  change (256 ^ Z.of_nat 4) with (2 ^ 32). unfold wrap. Z.to_euclidean_division_equations. lia.
Qed.

(** The half-words of a register, put together. *)
Lemma mov_value v :
  0 ≤ v < 2 ^ 64 →
  set_bits (set_bits (set_bits (half v 0) 16 31 (half v 1)) 32 47 (half v 2)) 48 63 (half v 3) = v.
Proof.
  intros Hv. apply Z.bits_inj'. intros n Hn.
  assert (Hh : ∀ k, 0 ≤ half v k < 2 ^ 16) by (intros; apply half_range).
  rewrite !testbit_set_bits by (try lia; apply Hh). unfold half.
  destruct (decide (64 ≤ n)).
  { rewrite !decide_False by lia. rewrite testbit_field, bool_decide_false by lia.
    simpl. by rewrite (testbit_above v 64) by lia. }
  repeat case_decide; rewrite testbit_field, bool_decide_true by lia; simpl; f_equal; lia.
Qed.

Lemma u64_set_bits x st v : 0 ≤ x < 2 ^ 64 → 0 ≤ st ≤ 48 → 0 ≤ v < 2 ^ 16 →
  u64 (set_bits x st (st + 15) v) = set_bits x st (st + 15) v ∧ 0 ≤ set_bits x st (st + 15) v < 2 ^ 64.
Proof.
  intros Hx Hst Hv. assert (Hr : 0 ≤ set_bits x st (st + 15) v < 2 ^ 64).
  { apply set_bits_range; try lia. by replace (st + 15 - st + 1) with 16 by lia. }
  split; [by apply (wrap_small 64)|done].
Qed.

(** ** Machines that agree *)

Section machines.
Context {V : Type}.
Implicit Types s t : cpu V.

(** The same machine, register by register. *)
Definition same_cpu s t : Prop :=
  (∀ r, xreg s r = xreg t r) ∧ spreg s = spreg t ∧ flags s = flags t ∧ pc s = pc t ∧
  mem s = mem t ∧ other s = other t.

#[global] Instance same_cpu_equiv : Equivalence same_cpu.
Proof using Type.
  split.
  - by intros s; split_and!.
  - intros s t (? & ? & ? & ? & ? & ?). by split_and!.
  - intros s t u (Hr & ? & ? & ? & ? & ?) (Hr' & ? & ? & ? & ? & ?).
    split_and!; congruence.
Qed.

(** The same but for X17 and the program counter; with [link], X30 is the next
    address on either side. *)
Definition agree (link : bool) (p q : Z) s t : Prop :=
  (∀ r, r ≠ 17 → (link = true → r ≠ 30) → xreg s r = xreg t r) ∧
  (link = true → xreg s 30 = u64 p ∧ xreg t 30 = u64 q) ∧
  spreg s = spreg t ∧ flags s = flags t ∧ mem s = mem t ∧ other s = other t.

Definition same_but_tmp s t : Prop := agree false 0 0 s t.

Lemma agree_false p q s t : same_but_tmp s t → agree false p q s t.
Proof using Type. intros (Hr & _ & Hrest). by split_and!; try apply Hrest. Qed.

Lemma same_but_tmp_reg s t r : same_but_tmp s t → r ≠ 17 → xreg s r = xreg t r.
Proof using Type. intros (H & _) Hr. by apply H. Qed.

#[global] Instance same_cpu_agree link p q : Proper (same_cpu ==> same_cpu ==> iff) (agree link p q).
Proof using Type.
  assert (Himp : ∀ s s' t t', same_cpu s s' → same_cpu t t' → agree link p q s t → agree link p q s' t').
  { intros s s' t t' (Hs & ? & ? & ? & ? & ?) (Ht & ? & ? & ? & ? & ?) (Hr & Hl & ? & ? & ? & ?).
    split_and!; try congruence.
    - intros r ? ?. rewrite <- Hs, <- Ht. auto.
    - intros ?. rewrite <- Hs, <- Ht. auto. }
  intros s s' Hs t t' Ht. split; apply Himp; by try symmetry.
Qed.

Lemma wr_x_pc r v t : pc (wr_x r v t) = pc t.
Proof. unfold wr_x. by case_match. Qed.
Lemma wr_x_mem r v t : mem (wr_x r v t) = mem t.
Proof. unfold wr_x. by case_match. Qed.

Lemma rd_x_wr rd v t : rd ≠ 31 → rd_x (next (wr_x rd v t)) rd = u64 v.
Proof.
  intros Hr. unfold rd_x, wr_x, next, set_pc. rewrite (proj2 (Z.eqb_neq rd 31)) by done. simpl.
  by rewrite Z.eqb_refl.
Qed.

Lemma xreg_next_wr rd v t r :
  xreg (next (wr_x rd v t)) r = if decide (r = rd ∧ rd ≠ 31) then u64 v else xreg t r.
Proof.
  unfold next, wr_x, set_pc. destruct (Z.eqb_spec rd 31).
  - rewrite decide_False by tauto. done.
  - simpl. destruct (Z.eqb_spec r rd); [rewrite decide_True by done|rewrite decide_False by tauto]; done.
Qed.

(** Everything but the general registers and the program counter. *)
Definition same_rest s t : Prop :=
  spreg s = spreg t ∧ flags s = flags t ∧ mem s = mem t ∧ other s = other t.

#[global] Instance same_rest_equiv : Equivalence same_rest.
Proof.
  split; [by intros s; split_and!|by intros s t (? & ? & ? & ?); split_and!|].
  intros s t u (? & ? & ? & ?) (? & ? & ? & ?). split_and!; congruence.
Qed.

Lemma same_rest_next_wr rd v t : same_rest (next (wr_x rd v t)) t.
Proof. unfold next, wr_x, set_pc. case_match; by split_and!. Qed.

(** The register after the last MOVK. *)
Lemma mov_reg rd v t :
  0 ≤ v < 2 ^ 64 → rd ≠ 31 →
  let t1 := next (wr_x rd (half v 0 << 16 * 0) t) in
  let t2 := next (wr_x rd (set_bits (rd_x t1 rd) (16 * 1) (16 * 1 + 15) (half v 1)) t1) in
  let t3 := next (wr_x rd (set_bits (rd_x t2 rd) (16 * 2) (16 * 2 + 15) (half v 2)) t2) in
  u64 (set_bits (rd_x t3 rd) (16 * 3) (16 * 3 + 15) (half v 3)) = v.
Proof.
  intros Hv Hr t1 t2 t3. unfold t3. rewrite rd_x_wr by done. unfold t2. rewrite rd_x_wr by done.
  unfold t1. rewrite rd_x_wr by done. change (16 * 0) with 0. rewrite Z.shiftl_0_r.
  assert (H0 : 0 ≤ half v 0 < 2 ^ 64) by (split; [apply half_range|]; pose proof (half_range v 0); lia).
  rewrite (wrap_small 64 (half v 0)) by done.
  destruct (u64_set_bits (half v 0) 16 (half v 1) H0 ltac:(lia) (half_range _ _)) as [E1 R1].
  change (16 * 1) with 16. rewrite E1.
  destruct (u64_set_bits _ 32 (half v 2) R1 ltac:(lia) (half_range _ _)) as [E2 R2].
  change (16 * 2) with 32. rewrite E2.
  destruct (u64_set_bits _ 48 (half v 3) R2 ltac:(lia) (half_range _ _)) as [E3 _].
  change (16 * 3) with 48. rewrite E3. by apply mov_value.
Qed.


End machines.

(** ** Steps of the relocated code *)

Section run.
Context {V : Type} (exec_other : Z → cpu V → option (option Z * cpu V)).
Implicit Types s t : cpu V.
Local Abbreviation exec := (exec exec_other).
Local Abbreviation step := (step exec_other).
Local Abbreviation steps := (steps exec_other).

Context (dst : Z) (ps : list piece).
Hypothesis Hsmall : 4 * Z.of_nat (length (final_words ps)) < 2 ^ 20.
Hypothesis Hdst : 0 ≤ dst ∧ dst + 2 ^ 20 < 2 ^ 64.

Definition at_piece (i : nat) t : Prop :=
  code_at (mem t) dst (final_words ps) ∧ pc t = dst + 4 * Z.of_nat i.

Lemma step_word i t w :
  at_piece i t → final_words ps !! i = Some w → step t = exec (decode w) t.
Proof using Type.
  intros [Hc Hpc] Hi. destruct (Hc i w Hi) as (X & _ & N). unfold A64Spec.step. by rewrite Hpc, X, N.
Qed.

Lemma next_piece i t t' :
  at_piece i t → (i < length (final_words ps))%nat → mem t' = mem t → pc t' = pc t →
  at_piece (S i) (next t').
Proof using Hsmall Hdst.
  intros [Hc Hpc] Hi Hm Hp. split; simpl; [by rewrite Hm|]. rewrite Hp, Hpc.
  rewrite wrap_small; lia.
Qed.

(** A load from the pool. *)
Lemma step_PL i t v :
  at_piece i t → ps !! i = Some (PL v) → 0 ≤ v < 2 ^ 64 →
  step t = Some (next (wr_x 17 v t)) ∧ at_piece (S i) (next (wr_x 17 v t)).
Proof using Hsmall Hdst.
  intros Ht Hi Hv. pose proof Ht as [Hc Hpc].
  destruct (final_words_load ps i v Hi) as (j & Hij & Hj & Hw & H1 & H2).
  pose proof (lookup_lt_Some _ _ _ Hw) as Hlt. split.
  - rewrite (step_word i t _ Ht Hw).
    destruct (decode_ldr17 (Z.of_nat j - Z.of_nat i) ltac:(lia)) as [-> _]. simpl.
    unfold load_x. rewrite Hpc.
    replace (dst + 4 * Z.of_nat i + 4 * (Z.of_nat j - Z.of_nat i)) with (dst + 4 * Z.of_nat j) by lia.
    rewrite wrap_small by lia.
    destruct (code_at_dword _ dst _ j v Hc H1 H2 Hv) as [-> ->]. done.
  - by apply (next_piece i t).
Qed.

Lemma step_PW i t w :
  at_piece i t → ps !! i = Some (PW w) → step t = exec (decode w) t.
Proof using Type. intros Ht Hi. by apply (step_word i), final_words_word. Qed.

Lemma piece_lt i p : ps !! i = Some p → (i < length (final_words ps))%nat.
Proof using Type. intros H%lookup_lt_Some. rewrite length_final_words. lia. Qed.

(** The four words that set a register. *)
Lemma steps_S n t t1 : step t = Some t1 → steps (S n) t = steps n t1.
Proof using Type. intros H. cbn. by rewrite H. Qed.

(** One MOVZ or MOVK. *)
Lemma step_mov i t w keep rd hw imm :
  at_piece i t → ps !! i = Some (PW w) → decode w = AMovWide keep rd hw imm →
  let v := if keep then set_bits (rd_x t rd) (16 * hw) (16 * hw + 15) imm else imm << (16 * hw) in
  step t = Some (next (wr_x rd v t)) ∧ at_piece (S i) (next (wr_x rd v t)).
Proof using Hsmall Hdst.
  intros Ht Hi Hd v. rewrite (step_PW i t w Ht Hi), Hd. split; [by destruct keep|].
  apply (next_piece i t); [done|by eapply piece_lt|apply wr_x_mem|apply wr_x_pc].
Qed.

Lemma mov_steps i t rd v :
  at_piece i t → 0 ≤ rd < 32 → 0 ≤ v < 2 ^ 64 →
  (∀ k w, mov_words rd v !! k = Some w → ps !! (i + k)%nat = Some (PW w)) →
  ∃ t', steps 4 t = Some t' ∧ at_piece (i + 4) t' ∧ same_cpu t' (set_pc (dst + 4 * Z.of_nat (i + 4)) (wr_x rd v t)).
Proof using Hsmall Hdst.
  intros Ht Hr Hv Hps.
  assert (Hp : ∀ k w, mov_words rd v !! k = Some w → ps !! (k + i)%nat = Some (PW w)).
  { intros k w Hk. rewrite Nat.add_comm. eauto. }
  destruct (step_mov i t _ _ _ _ _ Ht (Hp 0%nat _ eq_refl) (decode_movz rd v Hr)) as [S1 A1].
  destruct (step_mov (S i) _ _ _ _ _ _ A1 (Hp 1%nat _ eq_refl) (decode_movk rd v 1 Hr ltac:(lia))) as [S2 A2].
  destruct (step_mov (S (S i)) _ _ _ _ _ _ A2 (Hp 2%nat _ eq_refl) (decode_movk rd v 2 Hr ltac:(lia))) as [S3 A3].
  destruct (step_mov (S (S (S i))) _ _ _ _ _ _ A3 (Hp 3%nat _ eq_refl) (decode_movk rd v 3 Hr ltac:(lia))) as [S4 A4].
  pose proof (mov_reg rd v t Hv) as Hreg. cbv zeta in *.
  set (t1 := next (wr_x rd _ t)) in *. set (t2 := next (wr_x rd _ t1)) in *.
  set (t3 := next (wr_x rd _ t2)) in *. set (t4 := next (wr_x rd _ t3)) in *.
  exists t4. replace (i + 4)%nat with (S (S (S (S i)))) by lia. split; [|split; [exact A4|]].
  - rewrite (steps_S 3 t _ S1), (steps_S 2 _ _ S2), (steps_S 1 _ _ S3), (steps_S 0 _ _ S4). done.
  - assert (Hrest : same_rest t4 (next (wr_x rd v t))).
    { unfold t4, t3, t2, t1. by rewrite !same_rest_next_wr. }
    destruct Hrest as (? & ? & ? & ?). pose proof A4 as [_ Hpc].
    pose proof (piece_lt _ _ (Hp 3%nat _ eq_refl)). split_and!; try done.
    + intros r. change (xreg (set_pc _ (wr_x rd v t)) r) with (xreg (next (wr_x rd v t)) r).
      rewrite xreg_next_wr. destruct (decide (r = rd ∧ rd ≠ 31)) as [[-> Hne]|Hne].
      * unfold t4. rewrite xreg_next_wr, decide_True, Hreg by done. by rewrite (wrap_small 64 v).
      * unfold t4, t3, t2, t1. by rewrite !xreg_next_wr, !decide_False.
    + rewrite Hpc. simpl. rewrite wrap_small; [done|]. lia.
Qed.

(** *** Branches through the pool *)

Lemma at_piece_code i t t' : at_piece i t → mem t' = mem t → pc t' = dst + 4 * Z.of_nat i → at_piece i t'.
Proof using Type. intros [Hc _] Hm Hp. split; [by rewrite Hm|done]. Qed.

(** LDR x17, literal; BR or BLR x17. *)
Lemma jump_steps i t v (link : bool) :
  at_piece i t → ps !! i = Some (PL v) → ps !! S i = Some (PW (if link then BLR17 else BR17)) →
  0 ≤ v < 2 ^ 64 →
  ∃ t', steps 2 t = Some t' ∧ pc t' = v ∧ mem t' = mem t ∧
        agree link (dst + 4 * Z.of_nat (i + 2)) (dst + 4 * Z.of_nat (i + 2))
          (if link then wr_x 30 (dst + 4 * Z.of_nat (i + 2)) t else t) t'.
Proof using Hsmall Hdst.
  intros Ht Hi Hi1 Hv. destruct (step_PL i t v Ht Hi Hv) as [S1 A1].
  pose proof (step_PW (S i) _ _ A1 Hi1) as S2. pose proof A1 as [_ Hpc1].
  set (t1 := next (wr_x 17 v t)) in *.
  assert (Hv17 : rd_x t1 17 = v) by (unfold t1; rewrite rd_x_wr by done; by apply wrap_small).
  assert (Hregs : ∀ r, r ≠ 17 → xreg t1 r = xreg t r).
  { intros r Hr. unfold t1. rewrite xreg_next_wr, decide_False; [done|tauto]. }
  assert (Hp : pc t1 + 4 = dst + 4 * Z.of_nat (i + 2)) by lia.
  destruct (same_rest_next_wr 17 v t) as (E1 & E2 & E3 & E4). fold t1 in E1, E2, E3, E4. clearbody t1.
  destruct link.
  - rewrite decode_BLR17 in S2. simpl in S2. rewrite Hv17, Hp in S2. eexists. split.
    { by rewrite (steps_S 1 t _ S1), (steps_S 0 _ _ S2). }
    split_and!; [by apply wrap_small|done|]. split_and!; try done. intros r Hr Hr30. simpl.
    rewrite (proj2 (Z.eqb_neq r 30)) by auto. symmetry. auto.
  - rewrite decode_BR17 in S2. simpl in S2. rewrite Hv17 in S2. eexists. split.
    { by rewrite (steps_S 1 t _ S1), (steps_S 0 _ _ S2). }
    split_and!; [by apply wrap_small|done|]. split_and!; try done. intros r Hr _. symmetry.
    exact (Hregs r Hr).
Qed.

(** A conditional branch over the jump. *)
Lemma cond_steps i t v w' (c : bool) :
  at_piece i t → ps !! i = Some (PW w') → ps !! S i = Some (PL v) → ps !! S (S i) = Some (PW BR17) →
  0 ≤ v < 2 ^ 64 → exec (decode w') t = Some (jump_if (negb c) 12 t) →
  ∃ n t', steps n t = Some t' ∧ same_but_tmp t t' ∧
          pc t' = if c then v else dst + 4 * Z.of_nat (i + 3).
Proof using Hsmall Hdst.
  intros Ht Hi Hi1 Hi2 Hv Hex. pose proof (step_PW i t w' Ht Hi) as S1. rewrite Hex in S1.
  pose proof (piece_lt _ _ Hi2) as Hlt. destruct c.
  - pose proof (next_piece i t t Ht (piece_lt _ _ Hi) eq_refl eq_refl) as A1.
    destruct (jump_steps (S i) _ v false A1 Hi1 Hi2 Hv) as (t' & S2 & Hpc & _ & Hag).
    exists 3%nat, t'. split_and!; [by rewrite (steps_S 2 t _ S1)| |done..].
    destruct Hag as (H1 & _ & H2). split_and!; [exact H1|done|apply H2..].
  - exists 1%nat, (jump_if (negb false) 12 t). split_and!; try done; [by rewrite (steps_S 0 t _ S1)|].
    simpl. destruct Ht as [_ ->]. rewrite wrap_small; lia.
Qed.

(** ** One instruction *)

(** The instruction jumps from this state. *)
Definition taken (i : ainsn) s : bool :=
  match i with
  | ABranch _ _ | ABranchReg _ _ => true
  | ABcond cond _ => cond_holds cond (flags s)
  | ACbz x nz rt _ => eqb nz (truthy (if x then rd_x s rt else u32 (rd_x s rt)))
  | ATbz nz b rt _ => eqb nz (Z.testbit (rd_x s rt) b)
  | AOther w => match exec_other w (set_pc 0 s) with Some (Some _, _) => true | _ => false end
  | _ => false
  end.

(** It writes the link register. *)
Definition links (i : ainsn) : bool :=
  match i with ABranch link _ | ABranchReg link _ => link | _ => false end.

(** The instruction of the parameter that does not use X17. *)
Definition insensitive (w : Z) : Prop :=
  ∀ s t, same_but_tmp s t → pc s = pc t →
    match exec_other w s, exec_other w t with
    | Some (a, s'), Some (b, t') => a = b ∧ same_but_tmp s' t'
    | None, None => True
    | _, _ => False
    end.

(** What the relocator handles: no use of X17, no B.AL or B.NV, of the literal
    loads only the 64-bit one. *)
Definition portable (w : Z) : Prop :=
  match decode w with
  | ABcond c _ => c < 14
  | ACbz _ _ rt _ | ATbz _ _ rt _ => rt ≠ 17
  | ALdrLit v opc _ _ => v = false ∧ opc = 1
  | ABranchReg _ rn | ALdrImm _ rn _ | AAddImm _ rn _ => rn ≠ 17
  | AMovWide keep rd _ _ => keep = true → rd ≠ 17
  | AUnallocated => False
  | AOther _ => insensitive w
  | _ => True
  end.

(** The pieces [qs] are the [i]th ones on. *)
Definition pieces_at (i : nat) (qs : list piece) : Prop :=
  ∀ k p, qs !! k = Some p → ps !! (i + k)%nat = Some p.

(** What the relocated code does for one instruction: [s'] is the original
    machine after it, [q] the address of the next relocated instruction. *)
Definition matches (i : ainsn) (cur q : Z) s s' t : Prop :=
  ∃ n t', steps n t = Some t' ∧ agree (links i) (cur + 4) q s' t' ∧
          pc t' = if taken i s then pc s' else q.

Lemma agree_wr_tmp s t v : same_but_tmp s t → same_but_tmp s (wr_x 17 v t).
Proof using Type.
  intros (Hr & _ & Hrest). split_and!; [|done|apply Hrest..]. intros r H17 _. simpl.
  rewrite (proj2 (Z.eqb_neq r 17)) by done. by apply Hr.
Qed.

Lemma agree_wr s t r v : same_but_tmp s t → same_but_tmp (wr_x r v s) (wr_x r v t).
Proof using Type.
  intros (Hr & _ & Hrest). unfold wr_x. case_match; [by split_and!; try apply Hrest|].
  split_and!; [|done|apply Hrest..]. intros r' ? ?. simpl. case_match; [done|by apply Hr].
Qed.

Lemma rd_x_agree s t r : same_but_tmp s t → r ≠ 17 → rd_x s r = rd_x t r.
Proof using Type. intros H Hr. unfold rd_x. case_match; [done|]. by apply same_but_tmp_reg. Qed.
Lemma rd_sp_agree s t r : same_but_tmp s t → r ≠ 17 → rd_sp s r = rd_sp t r.
Proof using Type.
  intros H Hr. unfold rd_sp. case_match; [apply H|]. by apply same_but_tmp_reg.
Qed.

Lemma same_but_tmp_pc s t p q : same_but_tmp s t → same_but_tmp (set_pc p s) (set_pc q t).
Proof using Type. done. Qed.

#[local] Hint Resolve same_but_tmp_pc agree_wr agree_wr_tmp : core.

(** An instruction that is kept. *)
Lemma sim_kept i s t w s' cur :
  at_piece i t → pc s = cur → same_but_tmp s t → ps !! i = Some (PW w) →
  (∃ f : cpu V → cpu V, exec (decode w) s = Some (next (f s)) ∧ exec (decode w) t = Some (next (f t)) ∧
    same_but_tmp (f s) (f t) ∧ pc (f t) = pc t) →
  exec (decode w) s = Some s' → taken (decode w) s = false → links (decode w) = false →
  matches (decode w) cur (dst + 4 * Z.of_nat (i + 1)) s s' t.
Proof using Hsmall Hdst.
  intros Ht Hpc Hag Hi (f & Hs & Htt & Hf & Hfp) Hex Htk Hl. pose proof (piece_lt _ _ Hi) as Hlt.
  rewrite Hs in Hex. injection Hex as <-. exists 1%nat, (next (f t)). rewrite Hl, Htk.
  split; [|split].
  - by rewrite (steps_S 0 _ _ (eq_trans (step_PW i t w Ht Hi) Htt)).
  - by apply agree_false, same_but_tmp_pc.
  - simpl. destruct Ht as [_ Hp]. rewrite Hfp, Hp, wrap_small; lia.
Qed.

(** A branch: the jump through the pool. *)
Lemma sim_branch i s t cur link off s' :
  at_piece i t → pc s = cur → same_but_tmp s t →
  pieces_at i [PL (u64 (cur + off)); PW (if link : bool then BLR17 else BR17)] →
  exec (ABranch link off) s = Some s' →
  matches (ABranch link off) cur (dst + 4 * Z.of_nat (i + 2)) s s' t.
Proof using Hsmall Hdst.
  intros Ht Hpc Hag Hps Hex. pose proof (Hps 0%nat _ eq_refl) as H0. pose proof (Hps 1%nat _ eq_refl) as H1.
  rewrite Nat.add_0_r in H0. rewrite Nat.add_1_r in H1.
  destruct (jump_steps i t _ link Ht H0 H1 (u64_range _)) as (t' & S1 & Hp' & _ & Hr & Hl & Hrest).
  exists 2%nat, t'. split; [done|]. destruct Hag as (Hs & _ & Hsrest).
  destruct link; simpl in Hex; injection Hex as <-; simpl.
  - split; [|by rewrite Hp', Hpc]. split_and!; try (etrans; [apply Hsrest|apply Hrest]).
    + intros r H17 H30. specialize (Hr r H17 H30). simpl in *.
      rewrite (proj2 (Z.eqb_neq r 30)) in * by auto. rewrite <- Hr. by apply Hs.
    + intros _. simpl. rewrite Hpc. split; [done|]. by apply Hl.
  - split; [|by rewrite Hp', Hpc]. split_and!; try (etrans; [apply Hsrest|apply Hrest]); [|done].
    intros r H17 H30. simpl. rewrite <- (Hr r H17 H30). by apply Hs.
Qed.

(** A conditional branch whose word has been flipped. *)
Lemma sim_cond i s t cur w w' off (c : bool) s' :
  at_piece i t → pc s = cur → same_but_tmp s t →
  pieces_at i [PW w'; PL (u64 (cur + off)); PW BR17] →
  exec (decode w') t = Some (jump_if (negb c) 12 t) →
  s' = jump_if c off s → taken (decode w) s = c → links (decode w) = false →
  matches (decode w) cur (dst + 4 * Z.of_nat (i + 3)) s s' t.
Proof using Hsmall Hdst.
  intros Ht Hpc Hag Hps Hex -> Htk Hl. pose proof (Hps 0%nat _ eq_refl) as H0.
  pose proof (Hps 1%nat _ eq_refl) as H1. pose proof (Hps 2%nat _ eq_refl) as H2.
  rewrite Nat.add_0_r in H0. rewrite Nat.add_1_r in H1. replace (i + 2)%nat with (S (S i)) in H2 by lia.
  destruct (cond_steps i t _ w' c Ht H0 H1 H2 (u64_range _) Hex) as (n & t' & S1 & Hag' & Hp').
  exists n, t'. split; [done|]. rewrite Hl, Htk. split.
  - apply agree_false. destruct Hag as (Hr & _ & Hrest), Hag' as (Hr' & _ & Hrest').
    split_and!; [|done|..]; try (etrans; [|apply Hrest']; etrans; [|apply Hrest]; by destruct c).
    intros r H17 H30. rewrite <- (Hr' r H17 H30), <- (Hr r H17 H30). by destruct c.
  - rewrite Hp'. destruct c; [|done]. simpl. by rewrite Hpc.
Qed.

Lemma at_mov_pieces i rd v qs k w :
  pieces_at i ((PW <$> mov_words rd v) ++ qs) → mov_words rd v !! k = Some w → ps !! (i + k)%nat = Some (PW w).
Proof using Type.
  intros H Hk. apply H. rewrite lookup_app_l; [by rewrite list_lookup_fmap, Hk|].
  rewrite length_fmap. by apply lookup_lt_Some in Hk.
Qed.

Lemma u64_trunc_add x off : u64 (x / 4096 * 4096 + 4096 * off) = u64 (x + 4096 * off) / 4096 * 4096.
Proof using Type. clear. unfold wrap. Z.to_euclidean_division_equations. lia. Qed.

(** An address put into a register. *)
Lemma sim_mov i s t rd v cur w s' :
  at_piece i t → pc s = cur → same_but_tmp s t → 0 ≤ rd < 32 → pieces_at i (PW <$> mov_words rd (u64 v)) →
  exec (decode w) s = Some s' → s' = next (wr_x rd v s) →
  taken (decode w) s = false → links (decode w) = false →
  matches (decode w) cur (dst + 4 * Z.of_nat (i + 4)) s s' t.
Proof using Hsmall Hdst.
  intros Ht Hpc Hag Hrd Hps Hex -> Htk Hl.
  destruct (mov_steps i t rd (u64 v) Ht Hrd (u64_range _)) as (t' & S1 & [_ Hp'] & Hsame).
  { intros k u Hk. apply (at_mov_pieces i rd (u64 v) [] k); [by rewrite app_nil_r|done]. }
  exists 4%nat, t'. split; [done|]. rewrite Hl, Htk. split; [|done].
  apply agree_false. unfold same_but_tmp. rewrite Hsame.
  assert (E : wr_x rd (u64 v) t = wr_x rd v t) by (unfold wr_x; rewrite wrap_idem by lia; done).
  rewrite E. by apply same_but_tmp_pc, agree_wr.
Qed.

(** A literal load: the address, then the load. *)
Lemma sim_ldr i s t rt off cur s' :
  at_piece i t → pc s = cur → same_but_tmp s t → 0 ≤ rt < 32 →
  pieces_at i ((PW <$> mov_words 17 (u64 (cur + off))) ++ [PW (ldr_word rt)]) →
  exec (ALdrLit false 1 rt off) s = Some s' →
  matches (ALdrLit false 1 rt off) cur (dst + 4 * Z.of_nat (i + 5)) s s' t.
Proof using Hsmall Hdst.
  intros Ht Hpc Hag Hrt Hps Hex.
  destruct (mov_steps i t 17 (u64 (cur + off)) Ht ltac:(lia) (u64_range _)) as (t1 & S1 & A1 & Hsame).
  { intros k u Hk. by apply (at_mov_pieces i 17 (u64 (cur + off)) [PW (ldr_word rt)] k). }
  assert (Hi4 : ps !! (i + 4)%nat = Some (PW (ldr_word rt))) by (apply Hps; done).
  pose proof (piece_lt _ _ Hi4) as Hlt. pose proof (step_PW (i + 4) t1 _ A1 Hi4) as S2.
  rewrite decode_ldr_word in S2 by done. simpl in Hex, S2. unfold load_x in Hex, S2.
  pose proof A1 as [_ Hpc1]. destruct Hsame as (Hr & Hs1 & Hs2 & _ & Hmem & Hs3).
  assert (H17 : rd_sp t1 17 = u64 (cur + off)).
  { unfold rd_sp. simpl. rewrite Hr. simpl. by rewrite wrap_idem by lia. }
  rewrite H17, Z.add_0_r, wrap_idem in S2 by lia. simpl in Hmem. rewrite Hpc in Hex.
  pose proof Hag as (Har & _ & Hasp & Hafl & Hamem & Hao). rewrite Hmem, <- Hamem in S2.
  destruct (allows PROT_READ 8 (u64 (cur + off)) (mem s)); [|done]. injection Hex as <-.
  eexists 5%nat, _. split; [|split].
  - apply (steps_add _ 4 1 _ _ _ S1). rewrite (steps_S 0 _ _ S2). done.
  - apply agree_false, same_but_tmp_pc, agree_wr. split_and!; [|done|by etrans; [|symmetry]..].
    intros r H _. rewrite Hr. simpl. rewrite (proj2 (Z.eqb_neq r 17)) by done. by apply Har.
  - simpl. rewrite wr_x_pc, Hpc1, wrap_small; lia.
Qed.

(** Instructions that are copied. *)
Lemma sim_copied i s t w cur s' :
  at_piece i t → pc s = cur → same_but_tmp s t → ps !! i = Some (PW w) → portable w →
  match decode w with
  | ABranchReg _ _ | AMovWide _ _ _ _ | ALdrImm _ _ _ | AAddImm _ _ _ | AOther _ => True
  | _ => False
  end →
  exec (decode w) s = Some s' →
  matches (decode w) cur (dst + 4 * Z.of_nat (i + 1)) s s' t.
Proof using Hsmall Hdst.
  intros Ht Hpc Hag Hi Hport Hcl Hex. pose proof (piece_lt _ _ Hi) as Hlt.
  pose proof (step_PW i t w Ht Hi) as S1. pose proof Ht as [_ Hpt].
  pose proof (sim_kept i s t w s' cur Ht Hpc Hag Hi) as Hkept.
  unfold portable in Hport. destruct (decode w) as [| | | | | | |link rn|keep rd hw imm|rt rn off|rd rn imm| |w']
    eqn:Hd; try done.
  - exists 1%nat. destruct link; simpl in Hex, S1; injection Hex as <-; eexists.
    + split; [by rewrite (steps_S 0 _ _ S1)|]. rewrite <- (rd_x_agree s t rn Hag Hport). split; [|done].
      destruct Hag as (Hr & _ & Hrest). split_and!; [| |apply Hrest..].
      * intros r H17 H30. simpl. rewrite (proj2 (Z.eqb_neq r 30)) by auto. by apply Hr.
      * intros _. simpl. rewrite Hpc, Hpt. split; [done|]. f_equal. lia.
    + split; [by rewrite (steps_S 0 _ _ S1)|]. rewrite <- (rd_x_agree s t rn Hag Hport).
      split; [by apply agree_false|done].
  - apply Hkept; [|done..]. destruct keep.
    + exists (λ s, wr_x rd (set_bits (rd_x s rd) (16 * hw) (16 * hw + 15) imm) s). split_and!; [done..| |apply wr_x_pc].
      rewrite (rd_x_agree s t rd) by auto. by apply agree_wr.
    + exists (wr_x rd (imm << (16 * hw))). split_and!; [done..|by apply agree_wr|apply wr_x_pc].
  - pose proof (rd_sp_agree s t rn Hag Hport) as Hsp. simpl in Hex. unfold load_x in Hex.
    destruct (allows PROT_READ 8 (u64 (rd_sp s rn + off)) (mem s)) eqn:Hal; [|done].
    assert (Hm : mem t = mem s) by (symmetry; apply Hag).
    apply Hkept; [|unfold A64Spec.exec, load_x; by rewrite Hal|done..].
    exists (λ u, wr_x rt (number_of (mem s) 8 (u64 (rd_sp s rn + off))) u). unfold A64Spec.exec, load_x.
    rewrite <- Hsp, Hm, Hal. split_and!; [done..|by apply agree_wr|apply wr_x_pc].
  - pose proof (rd_sp_agree s t rn Hag Hport) as Hsp. apply Hkept; [|done..].
    exists (λ s, wr_sp rd (rd_sp s rn + imm) s). split_and!; [done..| |].
    + rewrite Hsp. unfold wr_sp. case_match; [|by apply agree_wr].
      destruct Hag as (Hr & _ & Hrest). by split_and!; try apply Hrest.
    + unfold wr_sp. case_match; [done|apply wr_x_pc].
  - simpl in Hex, S1. pose proof (Hport (set_pc 0 s) (set_pc 0 t) (same_but_tmp_pc s t 0 0 Hag) eq_refl) as Hins.
    assert (w' = w) as ->.
    { clear -Hd. unfold decode in Hd. repeat (case_match; try done). by injection Hd. }
    destruct (exec_other w (set_pc 0 s)) as [[a s1]|] eqn:Es; [|done].
    destruct (exec_other w (set_pc 0 t)) as [[a' t1]|] eqn:Et; [|done]. destruct Hins as [<- Hins].
    simpl in Hex, S1. injection Hex as <-. exists 1%nat. eexists. split; [by rewrite (steps_S 0 _ _ S1)|].
    split; [by apply agree_false|]. unfold taken. rewrite Es. destruct a; [done|].
    simpl. rewrite Hpt, wrap_small; lia.
Qed.

Lemma decode_regs w r off v opc :
  decode w = AAdr r off ∨ decode w = AAdrp r off ∨ decode w = ALdrLit v opc r off → 0 ≤ r < 32.
Proof using Type.
  clear. unfold decode. repeat case_match; intros [H'|[H'|H']]; try done; simplify_eq; apply (field_range w 0 5); lia.
Qed.

(** The pieces of a portable instruction do what the instruction does. *)
Lemma relo_insn_matches i s t w cur qs s' :
  at_piece i t → pc s = cur → same_but_tmp s t → relo_pieces cur w = Some qs → pieces_at i qs →
  portable w → exec (decode w) s = Some s' →
  matches (decode w) cur (dst + 4 * Z.of_nat (i + length qs)) s s' t.
Proof using Hsmall Hdst.
  intros Ht Hpc Hag Hq Hps Hport Hex. pose proof (sim_copied i s t w cur s' Ht Hpc Hag) as Hcopy.
  assert (Hregs : ∀ r off, decode w = AAdr r off ∨ decode w = AAdrp r off ∨ decode w = ALdrLit false 1 r off → 0 ≤ r < 32)
    by (intros; by eapply decode_regs). pose proof Hport as Hport'. unfold relo_pieces in Hq.
  unfold portable in Hport.
  assert (Hone : ∀ w', qs = [PW w'] → ps !! i = Some (PW w')).
  { intros w' ->. rewrite <- (Nat.add_0_r i). by apply Hps. }
  destruct (decode w) as [link off|c off|x nz rt off|nz b rt off|rd off|rd off|v opc rt off|link rn|keep rd hw imm|rt rn off|rd rn imm| |w']
    eqn:Hd; try done;
    try (injection Hq as <-; apply Hcopy; [exact (Hone w eq_refl)|exact Hport'|done|done]).
  - injection Hq as <-. by apply (sim_branch i s t cur link off).
  - injection Hq as <-. rewrite <- Hd. pose proof (decode_ABcond _ _ _ Hd) as (_ & _ & Hc).
    pose proof (field_range w 0 4 ltac:(lia)).
    apply (sim_cond i s t cur w (set_bits (set_bits w 0 3 (Z.lxor c 1)) 5 23 3) off (cond_holds c (flags s))); rewrite ?Hd; try done.
    + rewrite (decode_flip_cond _ _ _ Hd). simpl.
      assert (Hfl : flags s = flags t) by apply Hag. by rewrite cond_flip, Hfl by lia.
    + by injection Hex.
  - injection Hq as <-. rewrite <- Hd.
    apply (sim_cond i s t cur w (set_bits (set_bits w 24 24 (flip nz)) 5 23 3) off (eqb nz (truthy (if x then rd_x s rt else u32 (rd_x s rt)))));
      rewrite ?Hd; try done.
    + rewrite (decode_flip_cbz _ _ _ _ _ Hd). simpl.
      rewrite <- (rd_x_agree s t rt Hag Hport). by destruct nz, (truthy _).
    + by injection Hex.
  - injection Hq as <-. rewrite <- Hd.
    apply (sim_cond i s t cur w (set_bits (set_bits w 24 24 (flip nz)) 5 18 3) off (eqb nz (Z.testbit (rd_x s rt) b))); rewrite ?Hd; try done.
    + rewrite (decode_flip_tbz _ _ _ _ _ Hd). simpl.
      rewrite <- (rd_x_agree s t rt Hag Hport). by destruct nz, (Z.testbit _ _).
    + by injection Hex.
  - injection Hq as <-. rewrite <- Hd. subst cur. simpl in Hex. injection Hex as <-.
    refine (sim_mov i s t rd (pc s + off) (pc s) w _ Ht eq_refl Hag _ Hps _ eq_refl _ _); rewrite ?Hd; eauto.
  - assert (Hoff : ∃ k, off = 4096 * k).
    { clear -Hd. unfold decode in Hd. repeat (case_match; try done). injection Hd as _ <-. eauto. }
    destruct Hoff as [k ->]. rewrite <- u64_trunc_add in Hq. injection Hq as <-. rewrite <- Hd. subst cur. simpl in Hex. injection Hex as <-.
    refine (sim_mov i s t rd (pc s / 4096 * 4096 + 4096 * k) (pc s) w _ Ht eq_refl Hag _ Hps _ eq_refl _ _);
      rewrite ?Hd; eauto.
  - destruct Hport as [-> ->]. rewrite decide_True in Hq by lia. injection Hq as <-.
    apply (sim_ldr i s t rt off cur s' Ht Hpc Hag); [|done|done]. by eapply Hregs; right; right.
Qed.

(** ** A run through the code *)

Lemma exec_falls i s s' : exec i s = Some s' → taken i s = false → pc s' = u64 (pc s + 4).
Proof using Type.
  destruct i as [link off|c off|x nz rt off|nz b rt off|rd off|rd off|v opc rt off|link rn|keep rd hw imm|rt rn off|rd rn imm| |w];
    simpl; intros H Htk; try done; unfold load_x in *; simplify_eq; simpl;
    rewrite ?Htk; simpl; rewrite ?wr_x_pc; try done.
  - destruct v; [done|]. destruct opc as [|[p|p|]|]; try done; case_match; simplify_eq; simpl; by rewrite wr_x_pc.
  - destruct keep; simplify_eq; simpl; by rewrite wr_x_pc.
  - case_match; simplify_eq; simpl. by rewrite wr_x_pc.
  - unfold wr_sp. case_match; [done|]. by rewrite wr_x_pc.
  - destruct (exec_other w (set_pc 0 s)) as [[[a|] s1]|]; simplify_eq/=; done.
Qed.

Context (src : Z) (ws : list Z) (body : list piece).
Hypothesis Hsrc : 0 ≤ src ∧ src + 4 * Z.of_nat (length ws) < 2 ^ 64.
Hypothesis Hbody : relo_seq src ws = Some body.
Hypothesis Hps : ps = body ++ [PL (src + 4 * Z.of_nat (length ws)); PW BR17].

(** The machine [s] at instruction [i] of the original code executes the
    instructions up to [j] one after the other and becomes [s'].  The code it
    runs is [portable] and does not write the relocated code. *)
Inductive falls : nat → cpu V → nat → cpu V → Prop :=
  | falls_refl i s : falls i s i s
  | falls_step i s w s1 j s' :
      ws !! i = Some w → portable w → exec (decode w) s = Some s1 → taken (decode w) s = false →
      code_at (mem s1) dst (final_words ps) → falls (S i) s1 j s' → falls i s j s'.

(** The index of the [i]th instruction's first piece. *)
Definition piece_pos (i : nat) : nat := length (default [] (relo_seq src (take i ws))).

Lemma relo_seq_app cur us vs :
  relo_seq cur (us ++ vs) =
  (ps ← relo_seq cur us; qs ← relo_seq (u64 (cur + 4 * Z.of_nat (length us))) vs; Some (ps ++ qs)) ∨ us = [].
Proof using Type.
  clear. revert cur. induction us as [|u us IH]; intros cur; [by right|left]. simpl.
  destruct (relo_pieces cur u) as [p|]; [simpl|done].
  destruct us as [|u' us].
  - simpl. rewrite app_nil_r. by destruct (relo_seq _ vs).
  - destruct (IH (cur ⊕ 4)) as [E|]; [|done]. rewrite E.
    destruct (relo_seq (cur ⊕ 4) (u' :: us)) as [q|]; [simpl|done].
    rewrite wrap_add_l. replace (cur + 4 + 4 * Z.of_nat (S (length us))) with
      (cur + 4 * Z.of_nat (S (S (length us)))) by lia.
    destruct (relo_seq (u64 (cur + _)) vs); simpl; [by rewrite app_assoc|done].
Qed.

Lemma relo_seq_take i w :
  ws !! i = Some w →
  ∃ qs, relo_pieces (src + 4 * Z.of_nat i) w = Some qs ∧ pieces_at (piece_pos i) qs ∧
        piece_pos (S i) = (piece_pos i + length qs)%nat.
Proof using Hsrc Hbody Hps.
  intros Hi. pose proof (lookup_lt_Some _ _ _ Hi) as Hlt.
  assert (Hl : length (take i ws) = i) by (rewrite length_take; lia).
  assert (Hsplit : ∀ us vs r, us ++ vs = r → relo_seq src r =
    (ps ← relo_seq src us; qs ← relo_seq (u64 (src + 4 * Z.of_nat (length us))) vs; Some (ps ++ qs))).
  { intros us vs r <-. destruct (relo_seq_app src us vs) as [E| ->]; [done|]. simpl.
    rewrite Z.add_0_r, (wrap_small 64) by lia. by destruct (relo_seq src vs). }
  pose proof (Hsplit _ _ _ (take_drop_middle ws i w Hi)) as E1. rewrite Hl, Hbody, (wrap_small 64) in E1 by lia.
  assert (E2 : take (S i) ws = take i ws ++ [w]) by by apply take_S_r.
  pose proof (Hsplit _ _ _ (eq_sym E2)) as E3. rewrite Hl, (wrap_small 64) in E3 by lia.
  unfold piece_pos. rewrite E3. destruct (relo_seq src (take i ws)) as [pre|]; [|done]. simpl in *.
  destruct (relo_pieces (src + 4 * Z.of_nat i) w) as [qs|]; [simpl in *|done].
  destruct (relo_seq _ (drop (S i) ws)) as [post|]; [simpl in *|done]. injection E1 as E1.
  exists qs. split_and!; [done| |by rewrite app_nil_r, length_app].
  intros k p Hk. rewrite Hps, E1, <- !app_assoc. rewrite lookup_app_r by lia.
  replace (length pre + k - length pre)%nat with k by lia.
  rewrite lookup_app_l; [done|]. by eapply lookup_lt_Some.
Qed.

(** The relocated code follows a run that falls through. *)
Lemma falls_matches i s j s' t :
  falls i s j s' → at_piece (piece_pos i) t → pc s = src + 4 * Z.of_nat i → same_but_tmp s t →
  (i ≤ length ws)%nat →
  ∃ n t', steps n t = Some t' ∧ at_piece (piece_pos j) t' ∧ pc s' = src + 4 * Z.of_nat j ∧
          same_but_tmp s' t' ∧ (j ≤ length ws)%nat.
Proof using Hsmall Hdst Hsrc Hbody Hps.
  intros Hf. revert t. induction Hf as [i s|i s w s1 j s' Hi Hport Hex Htk Hcode Hf IH]; intros t Ht Hpc Hag Hle.
  { by exists 0%nat, t. }
  pose proof (lookup_lt_Some _ _ _ Hi) as Hlt.
  destruct (relo_seq_take i w Hi) as (qs & Hq & Hat & Hnext).
  destruct (relo_insn_matches _ s t w _ qs s1 Ht Hpc Hag Hq Hat Hport Hex) as (n & t1 & S1 & Hag1 & Hp1).
  rewrite Htk in Hp1. rewrite <- Hnext in Hp1.
  assert (Hlinks : links (decode w) = false) by (destruct (decode w); done).
  rewrite Hlinks in Hag1. assert (Hag1' : same_but_tmp s1 t1).
  { destruct Hag1 as (Hr & _ & Hrest). by split_and!; try apply Hrest. }
  pose proof (exec_falls _ _ _ Hex Htk) as Hpc1. rewrite Hpc, wrap_small in Hpc1 by lia.
  assert (Hm1 : mem s1 = mem t1) by apply Hag1'.
  destruct (IH t1) as (n' & t' & S2 & Ht' & Hpc' & Hag' & Hle'); [split; [by rewrite <- Hm1|done]|lia|done|lia|].
  exists (n + n')%nat, t'. split_and!; try done; [by eapply steps_add|apply Ht'..].
Qed.

(** At its end it returns to the original code. *)
Lemma falls_to_end s s' t :
  falls 0 s (length ws) s' → at_piece 0 t → pc s = src → same_but_tmp s t →
  ∃ n t', steps n t = Some t' ∧ pc t' = src + 4 * Z.of_nat (length ws) ∧ pc s' = pc t' ∧ same_but_tmp s' t'.
Proof using Hsmall Hdst Hsrc Hbody Hps.
  intros Hf Ht Hpc Hag.
  destruct (falls_matches 0 s _ s' t Hf) as (n & t1 & S1 & A1 & Hpc1 & Hag1 & _); [done|lia|done|lia|].
  assert (Hpos : piece_pos (length ws) = length body) by (unfold piece_pos; by rewrite firstn_all, Hbody).
  rewrite Hpos in A1.
  destruct (jump_steps (length body) t1 (src + 4 * Z.of_nat (length ws)) false) as (t' & S2 & Hp2 & _ & Hag2).
  - done.
  - by rewrite Hps, lookup_app_r, Nat.sub_diag by lia.
  - rewrite Hps, lookup_app_r by lia. by replace (S (length body) - length body)%nat with 1%nat by lia.
  - lia.
  - exists (n + 2)%nat, t'. split_and!; [by eapply steps_add|done|lia|..].
    destruct Hag1 as (Hr & _ & Hrest), Hag2 as (Hr' & _ & Hrest').
    split_and!; [|done|..]; try (etrans; [apply Hrest|apply Hrest']).
    intros r H17 H30. rewrite (Hr r H17 H30). by apply Hr'.
Qed.

(** Where the original leaves by a branch, so does the relocated code. *)
Lemma falls_then_branch s j s1 w s2 t :
  falls 0 s j s1 → at_piece 0 t → pc s = src → same_but_tmp s t →
  ws !! j = Some w → portable w → exec (decode w) s1 = Some s2 → taken (decode w) s1 = true →
  ∃ n t' q, steps n t = Some t' ∧ pc t' = pc s2 ∧
    agree (links (decode w)) (src + 4 * Z.of_nat j + 4) q s2 t' ∧
    q = dst + 4 * Z.of_nat (piece_pos (S j)).
Proof using Hsmall Hdst Hsrc Hbody Hps.
  intros Hf Ht Hpc Hag Hj Hport Hex Htk.
  destruct (falls_matches 0 s _ s1 t Hf) as (n & t1 & S1 & A1 & Hpc1 & Hag1 & _); [done|lia|done|lia|].
  destruct (relo_seq_take j w Hj) as (qs & Hq & Hat & Hnext).
  destruct (relo_insn_matches _ s1 t1 w _ qs s2 A1 Hpc1 Hag1 Hq Hat Hport Hex) as (n' & t' & S2 & Hag' & Hp').
  rewrite Htk in Hp'. rewrite <- Hnext in Hag'. eexists (n + n')%nat, t', _.
  split_and!; [by eapply steps_add|done|done|done].
Qed.

End run.
