(* ===== verification/A64RelocProps.v ===== *)
(** * Relocated code, in memory

    The loop of relo_relocate reads a sequence of instructions and leaves the
    pieces of A64Layout.v in the assembler; the result is bound, copied into a
    block of executable memory and runs there as the original would have. *)

From S2P Require Import Prelude CMem XhUtil DobbyBits DobbyMem DobbyMemProps DobbyAlloc A64Asm A64Reloc A64Spec A64Layout A64Bind A64Sim A64Run.

#[local] Open Scope cint_scope.

(** ** Words in memory *)

Definition words_at (m : memory) (a : Z) (ws : list Z) : Prop :=
  ∀ i w, ws !! i = Some w →
    allows PROT_READ 4 (a + 4 * Z.of_nat i) m = true ∧ number_of m 4 (a + 4 * Z.of_nat i) = w.

Lemma words_at_cons m a w ws :
  words_at m a (w :: ws) →
  allows PROT_READ 4 a m = true ∧ number_of m 4 a = w ∧ words_at m (a + 4) ws.
Proof.
  intros H. destruct (H 0%nat w eq_refl) as [H1 H2]. rewrite Z.add_0_r in H1, H2. split_and!; [done..|].
  intros i v Hi. destruct (H (S i) v Hi) as [H3 H4].
  replace (a + 4 * Z.of_nat (S i)) with (a + 4 + 4 * Z.of_nat i) in H3, H4 by lia. done.
Qed.

Lemma code_at_words m a ws : code_at m a ws → words_at m a ws.
Proof. intros H i w Hi. by destruct (H i w Hi) as (_ & ? & ?). Qed.

Lemma le_num_words ws i w :
  Forall is_word ws → ws !! i = Some w → le_num (take 4 (drop (4 * i) (words_bytes ws))) = w.
Proof.
  intros Hws Hi. destruct (take_drop_words ws i w Hi) as (-> & _ & _). rewrite le_num_le_bytes.
  apply Z.mod_small. by apply (Forall_lookup_1 _ _ _ _ Hws Hi).
Qed.

(** Code from its bytes. *)
Lemma bytes_code_at m a ws :
  Forall is_word ws →
  (∀ i, (i < length (words_bytes ws))%nat → byte_of m (a + Z.of_nat i) = default 0 (words_bytes ws !! i) ∧
     byte_allows PROT_READ m (a + Z.of_nat i) = true ∧ byte_allows PROT_EXEC m (a + Z.of_nat i) = true) →
  code_at m a ws.
Proof.
  intros Hws Hb i w Hi. pose proof (lookup_lt_Some _ _ _ Hi). rewrite length_words_bytes in Hb.
  assert (Hall : ∀ b, a + 4 * Z.of_nat i ≤ b < a + 4 * Z.of_nat i + 4 →
    byte_allows PROT_READ m b = true ∧ byte_allows PROT_EXEC m b = true).
  { intros b Hb'. destruct (Hb (Z.to_nat (b - a)) ltac:(lia)) as (_ & H1 & H2).
    replace (a + Z.of_nat (Z.to_nat (b - a))) with b in * by lia. done. }
  split_and!; [apply allows_all; intros b Hb'; by apply Hall..|].
  replace (a + 4 * Z.of_nat i) with (a + Z.of_nat (4 * i)) by lia.
  rewrite (number_of_bytes m a (words_bytes ws)); [by apply le_num_words| |rewrite length_words_bytes; lia].
  intros k Hk. rewrite length_words_bytes in Hk. by apply Hb.
Qed.

(** A patch puts code where it should be. *)
Lemma patched_code m m' a ws :
  patched a (words_bytes ws) m m' → Forall is_word ws → 4 * Z.of_nat (length ws) ≤ PAGE_SIZE →
  range_mapped m a (4 * Z.of_nat (length ws)) → code_at m' a ws.
Proof.
  intros [Hb Hm Hp] Hws Hlen Hmap. apply bytes_code_at; [done|]. rewrite length_words_bytes in *. intros k Hk.
  assert (Hprot : prot_at m' (a + Z.of_nat k) = PROT_READ .| PROT_EXEC).
  { rewrite Hp, decide_True; [done|]. split; [apply Hmap; lia|].
    unfold PAGE_SIZE in *. Z.to_euclidean_division_equations. lia. }
  unfold byte_allows. rewrite Hprot. split; [|done]. rewrite Hb, decide_True by lia.
  replace (Z.to_nat (a + Z.of_nat k - a)) with k by lia.
  destruct (lookup_lt_is_Some_2 (words_bytes ws) k) as [b Hbk]; [rewrite length_words_bytes; lia|].
  rewrite Hbk. simpl. by apply (Forall_lookup_1 _ _ _ _ (words_bytes_u8 ws) Hbk).
Qed.

(** ** The loop of relo_relocate *)

Lemma run_asm_Ret {A} (c : AM A) a x a' s : c a = (Ret x, a') → run_asm c a s = (Ret (x, a'), s).
Proof. unfold run_asm. by intros ->. Qed.

Lemma on_memory_load32 a s :
  allows PROT_READ 4 a (d_mem s) = true → on_memory (load32 a) s = (Ret (number_of (d_mem s) 4 a), s).
Proof. intros H. unfold on_memory. rewrite load_ok by done. by destruct s. Qed.

Lemma relo_loop_run s buf size src dst ws :
  ∀ fuel cur map ps qs,
  words_at (d_mem s) cur ws → relo_seq (src ⊕ (cur - buf)) ws = Some qs → Forall is_word ws →
  cur + 4 * Z.of_nat (length ws) = buf + size → (length ws ≤ fuel)%nat →
  ∃ map', relo_loop fuel (mkReloCtx buf cur size src dst map) (asm_of ps) s =
    (Ret (mkReloCtx buf (buf + size) size src dst map', asm_of (ps ++ qs)), s).
Proof.
  induction ws as [|w ws IH]; intros fuel cur map ps qs Hw Hq Hws Hend Hfuel.
  - simpl in Hq, Hend. injection Hq as <-. exists map. rewrite app_nil_r. replace cur with (buf + size) by lia.
    destruct fuel; simpl; by rewrite Z.ltb_irrefl.
  - apply words_at_cons in Hw as (Hr & Hn & Hw). simpl in Hq.
    destruct (relo_pieces (src ⊕ (cur - buf)) w) as [p|] eqn:Hp; [|done]. simpl in Hq.
    destruct (relo_seq (src ⊕ (cur - buf) ⊕ 4) ws) as [r|] eqn:Hs; [|done]. simpl in Hq. injection Hq as <-.
    apply Forall_cons in Hws as [Hww Hws]. cbn [length] in Hend, Hfuel.
    destruct fuel as [|fuel]; [lia|]. cbn [relo_loop buffer_cursor buffer buffer_size].
    rewrite (proj2 (Z.ltb_lt _ _)) by lia. cbv zeta.
    rewrite (CM_bind_Ret _ _ _ _ _ (on_memory_load32 cur s Hr)), Hn.
    assert (Hrun : relo_inst (relo_cur_src_vmaddr (mkReloCtx buf cur size src dst map)) w (asm_of ps) =
      (Ret tt, asm_of (ps ++ p))).
    { unfold relo_cur_src_vmaddr. cbn [src_vmaddr buffer_cursor buffer]. by apply relo_inst_pieces. }
    rewrite (CM_bind_Ret _ _ _ _ _ (run_asm_Ret _ _ _ _ s Hrun)). cbn iota.
    destruct (IH fuel (cur + 4) (<[u32 (cur - buf) := u32 (Z.of_nat (length (buffer_ (asm_of ps))))]> map)
      (ps ++ p) r Hw) as [map' Hm]; [|done|lia|lia|].
    { rewrite <- Hs. f_equal. rewrite wrap_add_l. f_equal. lia. }
    exists map'. rewrite app_assoc. exact Hm.
Qed.

(** *** The pieces are words *)

Definition piece_ok (p : piece) : Prop := is_word (piece_word p).

Lemma is_word_bool z : (0 <=? z) && (z <? 2 ^ 32) = true → is_word z.
Proof. unfold is_word. lia. Qed.

Lemma PW_words_ok ws : Forall is_word ws → Forall piece_ok (PW <$> ws).
Proof. intros H. by apply Forall_fmap. Qed.

Lemma PL_ok v : piece_ok (PL v).
Proof. by apply is_word_bool. Qed.
Lemma BR17_ok : piece_ok (PW BR17).
Proof. by apply is_word_bool. Qed.

Lemma cond_pieces_ok w v : is_word w → Forall piece_ok [PW w; PL v; PW BR17].
Proof. intros Hw. by repeat (apply Forall_cons_2; [done || apply PL_ok || apply BR17_ok|]). Qed.

(** A branch with another offset and condition. *)
Lemma flipped_word w st fn v fn' :
  is_word w → 0 ≤ st ≤ fn + 1 → fn < 32 → 0 ≤ v < 2 ^ (fn - st + 1) → 17 < fn' < 32 →
  is_word (set_bits (set_bits w st fn v) 5 fn' 3).
Proof.
  intros Hw Hst Hfn Hv Hfn'. apply set_bits_range; [lia| |lia|].
  - split; [lia|]. assert (2 ^ 2 ≤ 2 ^ (fn' - 5 + 1)) by (apply Z.pow_le_mono_r; lia). lia.
  - by apply set_bits_range.
Qed.

Lemma pieces_are_words cur w ps : is_word w → relo_pieces cur w = Some ps → Forall piece_ok ps.
Proof.
  intros Hw. unfold relo_pieces. destruct (decode w) as [link off|c off|x nz rt off|nz b rt off|rd off|rd off|v opc rt off|link rn|keep rd hw imm|rt rn off|rd rn imm| |w'] eqn:Hd;
    intros Hp; simplify_eq.
  - apply Forall_cons_2; [apply PL_ok|]. apply Forall_singleton. by destruct link; apply is_word_bool.
  - apply decode_ABcond in Hd as (_ & _ & ->). apply cond_pieces_ok, flipped_word; try lia; [done|].
    apply flip_range; [|lia]. apply field_range. lia.
  - apply cond_pieces_ok, flipped_word; try lia; [done|]. by destruct nz.
  - apply cond_pieces_ok, flipped_word; try lia; [done|]. by destruct nz.
  - apply PW_words_ok, mov_words_range.
  - apply PW_words_ok, mov_words_range.
  - case_decide; [|done]. simplify_eq. apply PW_words_ok, Forall_app. split; [apply mov_words_range|].
    apply Forall_singleton, (wrap_range 32). lia.
  - by apply Forall_singleton.
  - by apply Forall_singleton.
  - by apply Forall_singleton.
  - by apply Forall_singleton.
  - assert (w' = w) as -> by (revert Hd; unfold decode; repeat (case_match; try done); congruence).
    by apply Forall_singleton.
Qed.

Lemma relo_seq_words cur ws ps : Forall is_word ws → relo_seq cur ws = Some ps → Forall piece_ok ps.
Proof.
  intros Hws. revert cur ps. induction Hws as [|w ws Hw Hws IH]; intros cur ps H; simpl in H; [by injection H as <-|].
  destruct (relo_pieces cur w) as [p|] eqn:Hp; [|done]. simpl in H.
  destruct (relo_seq _ ws) as [q|] eqn:Hq; [|done]. simpl in H. injection H as <-.
  apply Forall_app. split; [by eapply pieces_are_words|by eapply IH].
Qed.

Lemma final_words_words ps : Forall piece_ok ps → Forall is_word (final_words ps).
Proof. intros H. unfold final_words. by apply foldl_bind_word_words, foldl_bind_word_words, Forall_fmap. Qed.

(** ** The whole relocation *)

(** The literal branch that ends the relocated code: its labels are bound. *)
Lemma LiteralLdrBranch_asm_of v ps :
  LiteralLdrBranch v (asm_of ps) = RelocBind (asm_of (ps ++ [PL v; PW BR17])).
Proof.
  unfold LiteralLdrBranch. rewrite (new_label_asm_of v ps _ _ eq_refl).
  rewrite (CM_bind_Ret _ _ _ _ _ (Ldr_with_label v ps _ eq_refl)).
  assert (Hbr : br TMP_REG_0 (asm_of (ps ++ [PL v])) = (Ret tt, asm_of ((ps ++ [PL v]) ++ [PW BR17]))).
  { rewrite <- Emit_asm_of by by apply is_word_bool. done. }
  rewrite (CM_bind_Ret _ _ _ _ _ Hbr), <- app_assoc. done.
Qed.

Lemma relo_seq_length cur ws ps : relo_seq cur ws = Some ps → (length ws ≤ length ps)%nat.
Proof.
  revert cur ps. induction ws as [|w ws IH]; intros cur ps H; [simpl; lia|]. simpl in H.
  destruct (relo_pieces cur w) as [p|] eqn:Hp; [|done]. simpl in H.
  destruct (relo_seq _ ws) as [q|] eqn:Hq; [|done]. simpl in H. injection H as <-.
  rewrite length_app. simpl. apply IH in Hq. destruct p as [|x p]; [|simpl; lia].
  exfalso. revert Hp. unfold relo_pieces. repeat (case_match; try done).
Qed.

(** The pieces of a relocated sequence: the instructions and the way back. *)
Definition relocation (src : Z) (ws : list Z) (body : list piece) : list piece :=
  body ++ [PL (src + 4 * Z.of_nat (length ws)); PW BR17].

Section os.
Context {os : OS} {laws : OSLaws os} {grants : OSGrants os}.

(** What a block of code holds after it was written. *)
Lemma code_block_run s s1 b ws n :
  n = 4 * Z.of_nat (length ws) → n ≤ PAGE_SIZE → Forall is_word ws → handed_out s s1 b n →
  ∃ m', DobbyCodePatch b (words_bytes ws) s1 = (Ret tt, set_mem m' s1) ∧
        patched b (words_bytes ws) (d_mem s1) m' ∧ code_at m' b ws.
Proof using laws grants.
  intros -> Hmax Hws [_ Hr [Hmap _] _ _].
  assert (Hl : Z.of_nat (length (words_bytes ws)) = 4 * Z.of_nat (length ws)) by (rewrite length_words_bytes; lia).
  destruct (DobbyCodePatch_run s1 b (words_bytes ws)) as (m' & Hrun & Hp); rewrite ?Hl; [lia..|done|].
  exists m'. split_and!; [done..|]. by eapply patched_code.
Qed.

Lemma asm_new_nil : asm_new 0 = asm_of [].
Proof using Type. done. Qed.

Lemma FinalizeFromTurboAssembler_run s s1 s2 a ws b n :
  realized_addr_ a = 0 → buffer_ a = words_bytes ws → n = 4 * Z.of_nat (length ws) → n ≤ PAGE_SIZE →
  allocateExecBlock n s = (Ret b, s1) → b = MemBlock_new (block_addr b) n →
  DobbyCodePatch (block_addr b) (words_bytes ws) s1 = (Ret tt, s2) →
  FinalizeFromTurboAssembler a s = (Ret b, s2).
Proof using Type.
  intros Ha Hbuf Hn Hmax Hal Hb Hpatch. unfold FinalizeFromTurboAssembler. rewrite Ha, Hbuf, Z.eqb_refl.
  rewrite length_words_bytes. replace (Z.of_nat (4 * length ws)) with n by lia.
  rewrite (wrap_small 32) by (unfold PAGE_SIZE in *; lia).
  rewrite CM_assoc, (CM_bind_Ret _ _ _ _ _ Hal), CM_left_id, (CM_bind_Ret _ _ _ _ _ Hpatch). by rewrite <- Hb.
Qed.

Lemma GenRelocateCodeAndBranch_run s s1 src ws body b n :
  let ps := relocation src ws body in
  Forall is_word ws → words_at (d_mem s) src ws → 0 ≤ src → src + 4 * Z.of_nat (length ws) < 2 ^ 64 →
  relo_seq src ws = Some body → n = 4 * Z.of_nat (length (final_words ps)) → n ≤ PAGE_SIZE →
  allocateExecBlock n s = (Ret b, s1) → block_ok s n b s1 → block_addr b ≠ 0 →
  ∃ m', GenRelocateCodeAndBranch src (MemBlock_new src (4 * Z.of_nat (length ws))) MemBlock_null s =
          (Ret (MemBlock_new src (4 * Z.of_nat (length ws)), b), set_mem m' s1) ∧
        patched (block_addr b) (words_bytes (final_words ps)) (d_mem s1) m' ∧
        code_at m' (block_addr b) (final_words ps).
Proof using laws grants.
  intros ps Hws Hw Hsrc Hend Hbody Hn Hmax Hal [Hb Hok] Hb0. specialize (Hok Hb0).
  set (len := 4 * Z.of_nat (length ws)) in *.
  assert (Hpw : Forall piece_ok ps).
  { apply Forall_app. split; [by eapply relo_seq_words|]. apply Forall_cons_2; [apply PL_ok|].
    apply Forall_singleton, BR17_ok. }
  assert (Hlen : len ≤ n).
  { rewrite Hn, length_final_words. unfold len, ps, relocation. rewrite length_app.
    pose proof (relo_seq_length _ _ _ Hbody). lia. }
  destruct (code_block_run s s1 (block_addr b) (final_words ps) n Hn Hmax) as (m' & Hpatch & Hp & Hcode);
    [by apply final_words_words|done|].
  exists m'. split; [|done]. unfold GenRelocateCodeAndBranch, GenRelocateCode, relo_relocate.
  destruct (relo_loop_run s src len src (block_addr MemBlock_null) ws (Z.to_nat len) src ∅ [] body) as [map' Hloop];
    [done|by rewrite Z.sub_diag, Z.add_0_r, wrap_small by lia|done|done|lia|].
  change (block_size (MemBlock_new src len)) with len. change (block_addr (MemBlock_new src len)) with src.
  cbn [buffer_size]. rewrite asm_new_nil, CM_assoc, (CM_bind_Ret _ _ _ _ _ Hloop). cbn iota beta zeta.
  cbn [buffer_cursor buffer app]. replace (src + len - src) with len by lia.
  assert (Hsint : u64 (sint 32 len) = len).
  { unfold sint. rewrite (wrap_small 32 len) by (unfold PAGE_SIZE in *; lia).
    rewrite decide_False by (unfold PAGE_SIZE in *; lia). rewrite wrap_small by (unfold PAGE_SIZE in *; lia). done. }
  rewrite Hsint. change (MemBlock_reset src len (MemBlock_new src len)) with (MemBlock_new src len).
  change (block_size (MemBlock_new src len)) with len. change (block_addr (MemBlock_new src len)) with src.
  rewrite (wrap_small 64 (src + len)) by lia. cbn [when].
  destruct (bind_twice ps) as (a2 & Hbind & Hbuf & Hreal); [by apply Forall_fmap|unfold PAGE_SIZE in *; lia|].
  apply CM_bind_inv in Hbind as ([] & a1 & H1 & H2).
  pose proof (LiteralLdrBranch_asm_of (src + len) body) as Hlit.
  change (body ++ [PL (src + len); PW BR17]) with ps in Hlit. rewrite <- Hlit in H1.
  rewrite CM_assoc, (CM_bind_Ret _ _ _ _ _ (run_asm_Ret _ _ _ _ s H1)). cbn iota beta.
  rewrite CM_assoc, (CM_bind_Ret _ _ _ _ _ (run_asm_Ret _ _ _ _ s H2)). cbn iota beta.
  rewrite CM_assoc, (CM_bind_Ret _ _ _ _ _
    (FinalizeFromTurboAssembler_run s s1 _ a2 (final_words ps) b n Hreal Hbuf Hn Hmax Hal Hb Hpatch)).
  rewrite CM_left_id. cbn iota beta. by rewrite Hb.
Qed.

(** What is asked of a sequence of instructions and of the process it is
    relocated in: the words are readable at [src], the relocator knows them all,
    the result fits a page, and the allocator has memory for it. *)
Record relocatable (s s1 : dobby) (src : Z) (ws : list Z) (body : list piece) (b : MemBlock) : Prop := {
  rel_arenas : arenas_ok s;
  rel_words : Forall is_word ws;
  rel_at : words_at (d_mem s) src ws;
  rel_src : 0 ≤ src ∧ src + 4 * Z.of_nat (length ws) < 2 ^ 64;
  rel_pieces : relo_seq src ws = Some body;
  rel_size : 4 * Z.of_nat (length (final_words (relocation src ws body))) ≤ PAGE_SIZE;
  rel_block : allocateExecBlock (4 * Z.of_nat (length (final_words (relocation src ws body)))) s = (Ret b, s1);
  rel_null : block_addr b ≠ 0
}.

Lemma relocation_nonempty src ws body : (2 ≤ length (final_words (relocation src ws body)))%nat.
Proof using Type. rewrite length_final_words. unfold relocation. rewrite length_app. simpl. lia. Qed.

Lemma relocatable_block s s1 src ws body b :
  relocatable s s1 src ws body b →
  block_ok s (4 * Z.of_nat (length (final_words (relocation src ws body)))) b s1.
Proof using laws grants.
  intros [R1 R2 R3 R4 R5 R6 R7 R8]. pose proof (relocation_nonempty src ws body) as Hne.
  eapply (wp_run _ _ (λ _ _, True)); [apply allocateExecBlock_wp; [exact R1|lia|unfold PAGE_SIZE in *; lia]|exact R7].
Qed.

Lemma relocatable_run s s1 src ws body b :
  relocatable s s1 src ws body b →
  ∃ m', GenRelocateCodeAndBranch src (MemBlock_new src (4 * Z.of_nat (length ws))) MemBlock_null s =
          (Ret (MemBlock_new src (4 * Z.of_nat (length ws)), b), set_mem m' s1) ∧
        patched (block_addr b) (words_bytes (final_words (relocation src ws body))) (d_mem s1) m' ∧
        code_at m' (block_addr b) (final_words (relocation src ws body)).
Proof using laws grants.
  intros R. pose proof (relocatable_block _ _ _ _ _ _ R) as Hb. destruct R as [R1 R2 R3 [R4 R4'] R5 R6 R7 R8].
  by eapply GenRelocateCodeAndBranch_run.
Qed.

(** *** The simulation *)

Section simulation.
Context {V : Type} (exec_other : Z → cpu V → option (option Z * cpu V)).

(** The relocated code at [dst] does for a machine what the instructions [ws]
    at [src] do: where they run through, it goes on behind them; where one of
    them jumps, it jumps to the same place.  It does so as far as the
    instructions executed are [portable], that is: they do not use X17; a
    conditional branch is not B.AL or B.NV; a literal load is the 64-bit one of
    a general register; the word is allocated.  For the other words the code is
    wrong (a W or SIMD literal load becomes a load of X, B.AL one of B.NV) and
    nothing is said; nor is it where the instructions write the relocated code. *)
Definition simulates (src dst : Z) (ws : list Z) (ps : list piece) (c t : cpu V) : Prop :=
  (∀ c', falls exec_other dst ps ws 0 c (length ws) c' →
     ∃ n t', steps exec_other n t = Some t' ∧ pc t' = src + 4 * Z.of_nat (length ws) ∧ pc c' = pc t' ∧
       same_but_tmp c' t') ∧
  (∀ j w c1 c2, falls exec_other dst ps ws 0 c j c1 → ws !! j = Some w → portable exec_other w →
     exec exec_other (decode w) c1 = Some c2 → taken exec_other (decode w) c1 = true →
     ∃ n t' q, steps exec_other n t = Some t' ∧ pc t' = pc c2 ∧
       agree (links (decode w)) (src + 4 * Z.of_nat j + 4) q c2 t').

Lemma code_simulates src dst ws body c t :
  let ps := relocation src ws body in
  0 ≤ src ∧ src + 4 * Z.of_nat (length ws) < 2 ^ 64 → relo_seq src ws = Some body →
  4 * Z.of_nat (length (final_words ps)) ≤ PAGE_SIZE → 0 < dst ∧ dst < 2 ^ 63 →
  code_at (mem t) dst (final_words ps) → pc t = dst → pc c = src → same_but_tmp c t →
  simulates src dst ws ps c t.
Proof using Type.
  intros ps Hsrc Hbody Hsize Hdst Hcode Ht Hc Hag.
  assert (Hsmall : 4 * Z.of_nat (length (final_words ps)) < 2 ^ 20) by (unfold PAGE_SIZE in *; lia).
  assert (Hdst' : 0 ≤ dst ∧ dst + 2 ^ 20 < 2 ^ 64) by lia.
  assert (Hat : at_piece dst ps 0 t) by (split; [done|lia]).
  split.
  - intros c' Hf. by eapply (falls_to_end exec_other dst ps Hsmall Hdst' src ws body).
  - intros j w c1 c2 Hf Hj Hp Hx Htk.
    destruct (falls_then_branch exec_other dst ps Hsmall Hdst' src ws body Hsrc Hbody eq_refl
      c j c1 w c2 t) as (n & t' & q & H1 & H2 & H3 & _); [done..|]. by exists n, t', q.
Qed.

(** C4: GenRelocateCodeAndBranch puts code into a block of its own that, for
    every state of the machine, simulates the instructions it was given as far
    as those executed are portable: no use of X17, no B.AL or B.NV, of the
    literal loads only the 64-bit one of a general register. *)
Theorem relocation_simulates s s1 src ws body b :
  relocatable s s1 src ws body b →
  ∃ s', GenRelocateCodeAndBranch src (MemBlock_new src (4 * Z.of_nat (length ws))) MemBlock_null s =
          (Ret (MemBlock_new src (4 * Z.of_nat (length ws)), b), s') ∧
        ∀ c t : cpu V, mem t = d_mem s' → pc t = block_addr b → pc c = src → same_but_tmp c t →
          simulates src (block_addr b) ws (relocation src ws body) c t.
Proof using laws grants.
  intros R. destruct (relocatable_run _ _ _ _ _ _ R) as (m' & Hrun & _ & Hcode).
  pose proof (relocatable_block _ _ _ _ _ _ R) as [_ Hb]. destruct (Hb (rel_null _ _ _ _ _ _ R)) as [_ Hr _ _ _].
  eexists. split; [exact Hrun|]. intros c t Hm Ht Hc Hag.
  apply code_simulates; [apply R|apply R|apply R|lia|by rewrite Hm|done..].
Qed.

End simulation.
End os.
