(* ===== verification/DobbyHook.v ===== *)
(** * Inline hooks

    The trampolines that overwrite a function's first instructions
    (trampoline_arm64.cc, near_trampoline_arm64.cc), the routing of one hook
    (InterceptRouting.cpp, FunctionInlineHook), the registry of hooks
    (Interceptor.cpp) and the entry points DobbyHook and DobbyDestroy. *)

From S2P Require Import Prelude CMem DobbyBits DobbyMem A64Asm A64Reloc.

#[local] Open Scope cint_scope.

Section os.
Context {os : OS}.

(** ** Trampolines *)

(** [llabs] of the difference of two addresses, as a uint64_t. *)
Definition distance (a b : Z) : Z := u64 (Z.abs (sint 64 (a - b))).
Definition adrp_range : Z := 1 << (2 + 19 + 12 - 1).

(** Copy() gives the bytes of the code buffer. *)
Definition GenerateNormalTrampolineBuffer (from to : Z) : DM (list Z) :=
  '(_, turbo_assembler_) ← run_asm
    (if distance from to <? adrp_range then
       _ ← AdrpAdd TMP_REG_0 from to;
       br TMP_REG_0
     else LiteralLdrBranch to)
    (asm_new from);
  mret (buffer_ turbo_assembler_).

Definition ARM64_B_XXX_RANGE : Z := (1 << 25) << 2.

(** The code that carries a branch further, within reach of [src]; [None] where
    no memory is near enough. *)
Definition GenerateFastForwardTrampoline (src dst : Z) : DM (option MemBlock) :=
  let tramp_size := 3 * 4 in
  tramp_mem ← allocateNearExecMemory tramp_size src ARM64_B_XXX_RANGE;
  if tramp_mem =? 0 then mret None
  else
    '(tramp_mem, turbo_assembler_) ←
      (if distance tramp_mem dst <? adrp_range then
         '(_, a) ← run_asm (_ ← AdrpAdd TMP_REG_0 tramp_mem dst; br TMP_REG_0) (asm_new 0);
         mret (tramp_mem, a)
       else
         '(_, a) ← run_asm (_ ← Mov TMP_REG_0 dst; br TMP_REG_0) (asm_new 0);
         let tramp_size := u32 (Z.of_nat (length (buffer_ a))) in
         tramp_mem ← allocateNearExecMemory tramp_size src ARM64_B_XXX_RANGE;
         mret (tramp_mem, a));
    if tramp_mem =? 0 then mret None
    else
      '(_, turbo_assembler_) ← run_asm (SetRealizedAddress tramp_mem) turbo_assembler_;
      code ← FinalizeFromTurboAssembler turbo_assembler_;
      mret (Some code).

Definition GenerateNearTrampolineBuffer (src dst : Z) : DM (option (list Z)) :=
  if Z.abs (sint 64 (dst - src)) <? ARM64_B_XXX_RANGE then
    '(_, turbo_assembler_) ← run_asm (b (sint 64 (dst - src))) (asm_new src);
    mret (Some (buffer_ turbo_assembler_))
  else
    fast_forward_trampoline ← GenerateFastForwardTrampoline src dst;
    match fast_forward_trampoline with
    | None => mret None
    | Some code =>
        '(_, turbo_assembler_) ← run_asm (b (sint 64 (block_addr code - src))) (asm_new src);
        mret (Some (buffer_ turbo_assembler_))
    end.

(** ** Interceptor *)

Fixpoint find_entry (addr : Z) (entries : list InterceptEntry) : option InterceptEntry :=
  match entries with
  | [] => None
  | entry :: entries => if patched_addr entry =? addr then Some entry else find_entry addr entries
  end.
Definition Interceptor_find (addr : Z) : DM (option InterceptEntry) :=
  gets (λ s, find_entry addr (entries s)).

Definition Interceptor_add (entry : InterceptEntry) : DM unit :=
  modify (λ s, set_entries (entries s ++ [entry]) s).

Fixpoint remove_entry (addr : Z) (entries : list InterceptEntry) : list InterceptEntry :=
  match entries with
  | [] => []
  | entry :: entries =>
      if patched_addr entry =? addr then entries else entry :: remove_entry addr entries
  end.
Definition Interceptor_remove (addr : Z) : DM unit :=
  modify (λ s, set_entries (remove_entry addr (entries s)) s).

Definition Interceptor_getEntry (i : nat) : DM InterceptEntry :=
  s ← get; lift_opt Undefined (entries s !! i).
Definition Interceptor_count : DM Z := gets (λ s, Z.of_nat (length (entries s))).

(** The constructor sets the type, the address and the id; the rest is what
    the heap holds. *)
Definition InterceptEntry_new (ty : InterceptEntryType) (address : Z) : DM InterceptEntry :=
  count ← Interceptor_count;
  let e := os_heap_entry in
  mret (mkInterceptEntry (u32 count) ty address (patched_size e) (relocated_addr e)
          (relocated_size e) (origin_insns e) (origin_insn_size e)).

(** ** InterceptRouting *)

Record routing : Set := mkRouting {
  entry_ : InterceptEntry;
  origin_ : option MemBlock;
  relocated_ : option MemBlock;
  trampoline_buffer_ : option (list Z);
  trampoline_target_ : Z;
  replace_func : Z
}.

Definition FunctionInlineHookRouting_new (entry : InterceptEntry) (replace_func : Z) : routing :=
  mkRouting entry None None None 0 replace_func.

Definition SetTrampolineBuffer (buffer : option (list Z)) (r : routing) : routing :=
  mkRouting (entry_ r) (origin_ r) (relocated_ r) buffer (trampoline_target_ r) (replace_func r).
Definition SetTrampolineTarget (address : Z) (r : routing) : routing :=
  mkRouting (entry_ r) (origin_ r) (relocated_ r) (trampoline_buffer_ r) address (replace_func r).

(** The plugin sets the trampoline buffer where it finds one. *)
Definition NearBranch_GenerateTrampolineBuffer (r : routing) (src dst : Z) : DM (bool * routing) :=
  trampoline_buffer ← GenerateNearTrampolineBuffer src dst;
  match trampoline_buffer with
  | None => mret (false, r)
  | Some buffer => mret (true, SetTrampolineBuffer (Some buffer) r)
  end.

Definition GenerateTrampolineBuffer (r : routing) (src dst : Z) : DM routing :=
  near ← gets near_branch_trampoline;
  r ← (if near : bool then
         '(_, r) ← NearBranch_GenerateTrampolineBuffer r src dst; mret r
       else mret r);
  match trampoline_buffer_ r with
  | Some _ => mret r
  | None =>
      tramp_buffer ← GenerateNormalTrampolineBuffer src dst;
      mret (SetTrampolineBuffer (Some tramp_buffer) r)
  end.

(** memcpy into origin_insns, an array of 256 bytes. *)
Definition save_origin (address size : Z) (e : InterceptEntry) : DM InterceptEntry :=
  if 256 <? size then fail Undefined
  else
    m ← gets d_mem;
    if allows PROT_READ (Z.to_nat size) address m then
      let bytes := (λ i, byte_of m (address + Z.of_nat i)) <$> seq 0 (Z.to_nat size) in
      mret (mkInterceptEntry (id e) (type e) (patched_addr e) (patched_size e) (relocated_addr e)
              (relocated_size e) (bytes ++ drop (Z.to_nat size) (origin_insns e)) (origin_insn_size e))
    else fail Segv.

Definition set_relocated_addr (addr : Z) (e : InterceptEntry) : InterceptEntry :=
  mkInterceptEntry (id e) (type e) (patched_addr e) (patched_size e) addr (relocated_size e)
    (origin_insns e) (origin_insn_size e).

Definition GenerateRelocatedCode (r : routing) : DM (bool * routing) :=
  buffer ← lift_opt Segv (trampoline_buffer_ r);
  let tramp_size := u32 (Z.of_nat (length buffer)) in
  let entry := entry_ r in
  let origin := MemBlock_new (patched_addr entry) tramp_size in
  '(origin, relocated) ← GenRelocateCodeAndBranch (patched_addr entry) origin MemBlock_null;
  let r e := mkRouting e (Some origin) (Some relocated) (trampoline_buffer_ r) (trampoline_target_ r)
               (replace_func r) in
  if block_size relocated =? 0 then mret (false, r entry)
  else
    let entry := set_relocated_addr (block_addr relocated) entry in
    entry ← save_origin (block_addr origin) (block_size origin) entry;
    mret (true, r entry).

Definition Active (r : routing) : DM unit :=
  buffer ← lift_opt Segv (trampoline_buffer_ r);
  DobbyCodePatch (patched_addr (entry_ r)) buffer.

Definition Commit (r : routing) : DM unit := Active r.

Definition BuildRouting (r : routing) : DM routing :=
  let r := SetTrampolineTarget (replace_func r) r in
  let from := patched_addr (entry_ r) in
  let to := trampoline_target_ r in
  GenerateTrampolineBuffer r from to.

(** The result of GenerateRelocatedCode is not looked at. *)
Definition DispatchRouting (r : routing) : DM routing :=
  r ← BuildRouting r;
  '(_, r) ← GenerateRelocatedCode r;
  mret r.

(** ** The entry points *)

Definition dobby_enable_near_branch_trampoline : DM unit :=
  modify (λ s, mkDobby (d_mem s) (code_arenas s) (data_arenas s) (entries s) true).
Definition dobby_disable_near_branch_trampoline : DM unit :=
  modify (λ s, mkDobby (d_mem s) (code_arenas s) (data_arenas s) (entries s) false).

Definition RS_FAILED : Z := -1.
Definition RS_SUCCESS : Z := 0.

(** [origin_func] is the address to store the relocated function at, if any. *)
Definition DobbyHook (address replace_func : Z) (origin_func : option Z) : DM Z :=
  if address =? 0 then mret RS_FAILED
  else
    let page_align_address := ALIGN_FLOOR address PageSize in
    ok ← OSMemory_SetPermission page_align_address PageSize kReadExecute;
    if negb ok then mret RS_FAILED
    else
      entry ← Interceptor_find address;
      match entry with
      | Some _ => mret RS_FAILED
      | None =>
          entry ← InterceptEntry_new kFunctionInlineHook address;
          routing ← DispatchRouting (FunctionInlineHookRouting_new entry replace_func);
          _ ← match origin_func with
              | Some p => on_memory (store 8 p (relocated_addr (entry_ routing)))
              | None => mret tt
              end;
          _ ← Commit routing;
          _ ← Interceptor_add (entry_ routing);
          mret RS_SUCCESS
      end.

(** dobby.cpp: the bytes of origin_insns are written back, as many as
    origin_insn_size says. *)
Definition DobbyDestroy (address : Z) : DM Z :=
  entry ← Interceptor_find address;
  match entry with
  | None => mret RS_FAILED
  | Some entry =>
      let buffer_size := origin_insn_size entry in
      _ ← (if Z.of_nat (length (origin_insns entry)) <? buffer_size then fail Undefined
           else DobbyCodePatch address (take (Z.to_nat buffer_size) (origin_insns entry)));
      _ ← Interceptor_remove address;
      mret RS_SUCCESS
  end.

End os.
