(* ===== verification/A64Type.v ===== *)
(** * Well-formed assemblers

    The invariant of the assembler object of A64Asm.v: the buffer is a sequence
    of whole instruction words, every reference of a label lies inside it, and
    every pointer to a label is valid.  The relocator keeps it, so that no
    access of the code buffer is ever out of bounds. *)

From S2P Require Import Prelude CMem DobbyBits DobbyMem A64Asm A64Reloc A64Spec A64Layout.

#[local] Open Scope cint_scope.

(** ** The invariant *)

Record ref_ok (n : nat) (r : ref_label_inst_t) : Prop := {
  ref_type : type_ r = kLabelImm19;
  ref_aligned : offset_ r mod 4 = 0;
  ref_inside : 0 ≤ offset_ r ∧ offset_ r + 4 ≤ Z.of_nat n
}.

Record label_ok (n : nat) (l : RelocLabel) : Prop := {
  label_refs : Forall (ref_ok n) (ref_label_insts_ l);
  label_data : Z.of_nat (length (data_ l)) = data_size_ l;
  label_size : data_size_ l mod 4 = 0;
  label_bytes : Forall (λ b, u8 b = b) (data_ l)
}.

Record asm_ok (a : TurboAssembler) : Prop := {
  asm_words : Z.of_nat (length (buffer_ a)) mod 4 = 0;
  asm_bytes : Forall (λ b, u8 b = b) (buffer_ a);
  asm_labels : Forall (label_ok (length (buffer_ a))) (labels a);
  asm_pointers : Forall (λ i, (i < length (labels a))%nat) (data_labels_ a)
}.

Lemma ref_ok_mono n m r : (n ≤ m)%nat → ref_ok n r → ref_ok m r.
Proof. intros Hle [H1 H2 H3]. split; [done..|lia]. Qed.

Lemma label_ok_mono n m l : (n ≤ m)%nat → label_ok n l → label_ok m l.
Proof.
  intros Hle [H1 H2 H3 H4]. split; [|done..]. eapply Forall_impl; [exact H1|]. intros r. by apply ref_ok_mono.
Qed.

Lemma asm_ok_new address : asm_ok (asm_new address).
Proof. by split; constructor. Qed.

(** Appending whole words. *)
Lemma asm_ok_append a bs :
  asm_ok a → Z.of_nat (length bs) mod 4 = 0 → Forall (λ b, u8 b = b) bs → asm_ok (set_buffer (buffer_ a ++ bs) a).
Proof.
  intros [H1 H2 H3 H4] Hl Hb. split; cbn [buffer_ set_buffer labels data_labels_]; [|by apply Forall_app| |done].
  - rewrite length_app. Z.to_euclidean_division_equations. lia.
  - eapply Forall_impl; [exact H3|]. intros l. apply label_ok_mono. rewrite length_app. lia.
Qed.

(** ** Emitting

    [emits m] is the contract of the code that only appends to the assembler:
    it keeps the invariant and the labels, or aborts. *)

Definition emits (m : AM unit) : Prop :=
  ∀ a, asm_ok a →
    wp m (λ _ a', asm_ok a' ∧ (length (labels a) ≤ length (labels a'))%nat) (λ e _, e = Aborted) a.

Lemma emits_bind m k : emits m → emits k → emits (_ ← m; k).
Proof.
  intros Hm Hk a Ha. apply wp_bind. eapply wp_mono; [by apply Hm| |done]. cbv beta.
  intros [] a' [Ha' Hl]. eapply wp_mono; [by apply Hk| |done]. cbv beta. intros [] a'' [? ?]. split; [done|lia].
Qed.

Lemma emits_Emit w : emits (Emit w).
Proof.
  intros a Ha. unfold Emit, Emit32, EmitBuffer. wp_go. split; [|done].
  apply asm_ok_append; [done|by rewrite length_le_bytes|apply le_bytes_u8].
Qed.

Lemma emits_fail : emits (fail Aborted).
Proof. intros a _. by apply wp_fail. Qed.

Lemma emits_if (b : bool) m k : emits m → emits k → emits (if b then m else k).
Proof. by destruct b. Qed.

Create HintDb emits.
#[export] Hint Resolve emits_Emit emits_fail emits_bind emits_if : emits.

Lemma emits_Mov rd v : emits (Mov rd v).
Proof. unfold Mov, movz, movk, MoveWide. auto 10 with emits. Qed.

Lemma emits_br rn : emits (br rn).
Proof. unfold br. auto with emits. Qed.
Lemma emits_blr rn : emits (blr rn).
Proof. unfold blr. auto with emits. Qed.

Lemma emits_LoadStore op rt addr : emits (LoadStore op rt addr).
Proof. unfold LoadStore, UNREACHABLE. auto with emits. Qed.
Lemma emits_ldr rt addr : emits (ldr rt addr).
Proof. apply emits_LoadStore. Qed.

#[export] Hint Resolve emits_Mov emits_br emits_blr emits_ldr : emits.

(** ** Labels *)

Lemma list_alter_ok (P : RelocLabel → Prop) f i (ls : list RelocLabel) :
  Forall P ls → (∀ l, P l → P (f l)) → Forall P (alter f i ls).
Proof.
  intros H Hf. apply Forall_lookup. intros j l Hj. rewrite list_lookup_alter in Hj.
  case_decide; [|by eapply (Forall_lookup_1 P)]. apply fmap_Some in Hj as (l' & Hl' & ->).
  apply Hf. by eapply (Forall_lookup_1 P).
Qed.

(** LDR of a label that exists: the reference is the word about to be
    emitted. *)
Lemma Ldr_ok label a :
  asm_ok a → (label < length (labels a))%nat →
  wp (Ldr TMP_REG_0 label) (λ _ a', asm_ok a' ∧ (length (labels a) ≤ length (labels a'))%nat) (λ _ _, False) a.
Proof.
  intros Ha Hl. pose proof Ha as [H1 H2 H3 H4]. destruct (lookup_lt_is_Some_2 _ _ Hl) as [l Hlab].
  unfold Ldr, get_label, GetBufferSize, update_label, ldr_literal, EmitLoadRegLiteral, Emit, Emit32, EmitBuffer.
  cbn [reg_type_ TMP_REG_0 Xr]. repeat (wp_step; cbv beta); simplify_eq.
  - split; [|done]. apply asm_ok_append; [done|by rewrite length_le_bytes|apply le_bytes_u8].
  - cbn [labels set_labels set_buffer]. rewrite length_alter. split; [|done].
    split; cbn [buffer_ set_buffer set_labels labels data_labels_].
    + rewrite length_app, length_le_bytes. Z.to_euclidean_division_equations. lia.
    + apply Forall_app. split; [done|apply le_bytes_u8].
    + rewrite length_app, length_le_bytes. apply list_alter_ok.
      * eapply Forall_impl; [exact H3|]. intros x. apply label_ok_mono. lia.
      * intros x [X1 X2 X3 X4]. split; [|done..]. cbn [link_to ref_label_insts_]. apply Forall_app. split; [done|].
        apply Forall_singleton. split; [done|done|cbn [offset_]; lia].
    + by rewrite length_alter.
Qed.

(** A new label, put on the list and used. *)
Lemma emits_label v (k : nat → AM unit) :
  (∀ label a, asm_ok a → (label < length (labels a))%nat →
     wp (k label) (λ _ a', asm_ok a' ∧ (length (labels a) ≤ length (labels a'))%nat) (λ e _, e = Aborted) a) →
  emits (label ← new_RelocLabel v; _ ← AppendRelocLabel label; k label).
Proof.
  intros Hk a Ha. pose proof Ha as [H1 H2 H3 H4]. unfold new_RelocLabel, AppendRelocLabel. wp_go.
  eapply wp_mono; [apply Hk| |done].
  - split; cbn [buffer_ labels data_labels_ set_labels]; [done|done| |].
    + apply Forall_app. split; [done|]. apply Forall_singleton.
      split; cbn [RelocLabel_new ref_label_insts_ data_ data_size_]; [constructor|by rewrite length_le_bytes|done|].
      apply le_bytes_u8.
    + rewrite length_app. apply Forall_app. split; [|apply Forall_singleton; simpl; lia].
      eapply Forall_impl; [exact H4|]. simpl. lia.
  - cbn [labels set_labels]. rewrite length_app. simpl. lia.
  - cbv beta. intros [] a' [Ha' Hl]. split; [done|]. cbn [labels set_labels] in Hl. rewrite length_app in Hl. lia.
Qed.

Lemma Ldr_then label k a :
  emits k → asm_ok a → (label < length (labels a))%nat →
  wp (_ ← Ldr TMP_REG_0 label; k) (λ _ a', asm_ok a' ∧ (length (labels a) ≤ length (labels a'))%nat)
    (λ e _, e = Aborted) a.
Proof.
  intros Hk Ha Hl. apply wp_bind. eapply wp_mono; [by apply Ldr_ok| |done]. cbv beta. intros [] a' [Ha' Hle].
  eapply wp_mono; [by apply Hk| |done]. cbv beta. intros [] a'' [? ?]. split; [done|lia].
Qed.

Lemma Emit_then w label (k : AM unit) a :
  (∀ a', asm_ok a' → (label < length (labels a'))%nat →
    wp k (λ _ a'', asm_ok a'' ∧ (length (labels a') ≤ length (labels a''))%nat) (λ e _, e = Aborted) a') →
  asm_ok a → (label < length (labels a))%nat →
  wp (_ ← Emit w; k) (λ _ a', asm_ok a' ∧ (length (labels a) ≤ length (labels a'))%nat) (λ e _, e = Aborted) a.
Proof.
  intros Hk Ha Hl. apply wp_bind. eapply wp_mono; [by apply emits_Emit| |done]. cbv beta. intros [] a' [Ha' Hle].
  eapply wp_mono; [apply Hk; [done|lia]| |done]. cbv beta. intros [] a'' [? ?]. split; [done|lia].
Qed.

(** ** The relocator *)

Lemma emits_label_branch v w :
  emits (label ← new_RelocLabel v; _ ← AppendRelocLabel label; _ ← Emit w; emit_label_branch label).
Proof.
  apply emits_label. intros label a. apply Emit_then. intros a' Ha Hl. apply Ldr_then; auto with emits.
Qed.

Lemma emits_relo_inst cur inst : emits (relo_inst cur inst).
Proof.
  unfold relo_inst. repeat apply emits_if; cbv zeta; auto using emits_label_branch with emits.
  apply emits_label. intros label a. apply Ldr_then. auto with emits.
Qed.

(** ** Binding *)

(** The state between the fixups of one label: only words of the buffer
    change. *)
Definition same_shape (a a' : TurboAssembler) : Prop :=
  length (buffer_ a') = length (buffer_ a) ∧ labels a' = labels a ∧ data_labels_ a' = data_labels_ a ∧
  Forall (λ b, u8 b = b) (buffer_ a').

Lemma link_confused_ok pos refs a :
  Forall (ref_ok (length (buffer_ a))) refs → Forall (λ b, u8 b = b) (buffer_ a) →
  wp (link_confused_instructions pos refs) (λ _ a', same_shape a a') (λ _ _, False) a.
Proof.
  revert a. induction refs as [|r refs IH]; intros a Hr Hb; [by apply wp_ret|].
  apply Forall_cons in Hr as [[R1 R2 [R3 R4]] Hr]. cbn [link_confused_instructions]. cbv zeta.
  assert (Hin : (0 <=? offset_ r) && (offset_ r + 4 <=? Z.of_nat (length (buffer_ a))) = true) by lia.
  unfold LoadInst, RewriteInst. apply wp_bind, wp_bind, wp_get. rewrite Hin. apply wp_ret.
  apply wp_bind, wp_bind, wp_get. rewrite Hin. apply wp_put.
  set (a1 := set_buffer _ a).
  assert (Hl : length (buffer_ a1) = length (buffer_ a)).
  { unfold a1. cbn [buffer_ set_buffer]. rewrite !length_app, length_le_bytes, length_take, length_drop. lia. }
  assert (Hb1 : Forall (λ b, u8 b = b) (buffer_ a1)).
  { unfold a1. cbn [buffer_ set_buffer]. apply Forall_app. split; [by apply Forall_take|].
    apply Forall_app. split; [apply le_bytes_u8|by apply Forall_drop]. }
  eapply wp_wand; [apply IH; [by rewrite Hl|done]|]. cbv beta. intros [] a' (E1 & E2 & E3 & E4).
  split_and!; [by rewrite E1|done..].
Qed.

Lemma PseudoBind_ok label a :
  asm_ok a → (label < length (labels a))%nat →
  wp (PseudoBind label) (λ _ a', asm_ok a' ∧ length (labels a') = length (labels a) ∧
    data_labels_ a' = data_labels_ a) (λ _ _, False) a.
Proof.
  intros [H1 H2 H3 H4] Hl. unfold PseudoBind, GetBufferSize, update_label, get_label.
  apply wp_bind, wp_gets, wp_bind, wp_modify, wp_bind, wp_bind, wp_get.
  cbn [labels set_labels]. rewrite list_lookup_alter_eq.
  destruct (lookup_lt_is_Some_2 _ _ Hl) as [l Hlab]. rewrite Hlab. apply wp_ret.
  assert (Hlok : label_ok (length (buffer_ a)) l) by by eapply (Forall_lookup_1 _ _ _ _ H3).
  set (a1 := set_labels _ a).
  assert (Hok : ∀ a', same_shape a1 a' → asm_ok a').
  { intros a' (E1 & E2 & E3 & E4). split; rewrite ?E1, ?E2, ?E3; [done|done| |].
    - cbn [a1 labels set_labels buffer_]. apply list_alter_ok; [done|]. intros x [X1 X2 X3 X4]. by split.
    - cbn [a1 labels set_labels data_labels_]. by rewrite length_alter. }
  apply wp_when; intros Hc.
  - eapply wp_wand; [apply link_confused_ok; [apply Hlok|done]|]. cbv beta. intros [] a' Hs.
    split; [by apply Hok|]. destruct Hs as (_ & -> & -> & _). unfold a1. cbn. by rewrite length_alter.
  - split; [by apply Hok; split_and!|]. unfold a1. cbn. by rewrite length_alter.
Qed.

Lemma bind_labels_ok ls a :
  asm_ok a → Forall (λ i, (i < length (labels a))%nat) ls →
  wp (bind_labels ls) (λ _ a', asm_ok a') (λ _ _, False) a.
Proof.
  revert a. induction ls as [|i ls IH]; intros a Ha Hls; [by apply wp_ret|].
  apply Forall_cons in Hls as [Hi Hls]. cbn [bind_labels].
  apply wp_bind. eapply wp_mono; [by apply PseudoBind_ok| |done]. cbv beta. intros [] a1 (Ha1 & Hl1 & _).
  unfold get_label, EmitBuffer. apply wp_bind, wp_bind, wp_get.
  destruct (lookup_lt_is_Some_2 (labels a1) i) as [l Hlab]; [by rewrite Hl1|]. rewrite Hlab. apply wp_ret.
  assert (Hlok : label_ok (length (buffer_ a1)) l) by (by eapply (Forall_lookup_1 _ _ _ _ (asm_labels _ Ha1))).
  destruct Hlok as [L1 L2 L3 L4].
  apply wp_bind, wp_modify. apply IH; [|cbn [labels set_buffer]; by rewrite Hl1].
  apply asm_ok_append; [done| |by apply Forall_take].
  rewrite length_take. replace (Z.of_nat (Z.to_nat (data_size_ l) `min` length (data_ l))) with (data_size_ l) by lia. done.
Qed.

(** C35: the assembler stays well-formed.  From a well-formed state, relocating
    any word, at any address, leaves a well-formed state or aborts at an
    unsupported literal load; binding the labels of a well-formed state always
    succeeds, within the bounds of the code buffer, and leaves one. *)
Theorem relocator_well_formed cur inst a :
  asm_ok a →
  wp (relo_inst cur inst) (λ _ a', asm_ok a') (λ e _, e = Aborted) a ∧
  wp RelocBind (λ _ a', asm_ok a') (λ _ _, False) a.
Proof.
  intros Ha. split.
  - eapply wp_wand; [by apply emits_relo_inst|]. by intros [] a' [? _].
  - unfold RelocBind. apply wp_bind, wp_gets. by apply bind_labels_ok, Ha.
Qed.

(** A literal load of a kind the code does not know is relocated by nothing. *)
Lemma relo_inst_unknown_ldr cur w ps v opc rt off :
  decode w = ALdrLit v opc rt off → 2 ≤ opc → fst (relo_inst cur w (asm_of ps)) = Err Aborted.
Proof.
  rewrite relo_inst_class. unfold decode. intros Hd Ho.
  assert (opc = field w 30 2 ∧ word_class w = 2%nat) as [-> ->].
  { unfold word_class. repeat (case_match; try done); by simplify_eq. }
  cbn [relo_class]. rewrite (bits_field w 30 31) by lia. change (31 - 30 + 1) with 2.
  rewrite (proj2 (Z.eqb_neq (field w 30 2) 0)), (proj2 (Z.eqb_neq (field w 30 2) 1)) by lia.
  by rewrite (CM_bind_Ret _ _ _ _ _ (Mov_asm_of 17 _ ps (wrap_range 64 _ ltac:(lia)))).
Qed.

(** An encoding no processor executes is relocated all the same. *)
Lemma relo_inst_unallocated cur w ps :
  0 ≤ w < 2 ^ 32 → decode w = AUnallocated → fst (relo_inst cur w (asm_of ps)) = Ret tt.
Proof.
  intros Hw. rewrite relo_inst_class. unfold decode. intros Hd.
  assert (Hc : relo_class (word_class w) cur w = relo_class 5 cur w).
  { unfold word_class. repeat (case_match; try done; simplify_eq). }
  rewrite Hc. cbn [relo_class]. rewrite branch_jump_asm_of; [done|]. apply (wrap_range 32). lia.
Qed.

(** relocation aborts exactly at the literal loads it does not know,
    LDRSW, PRFM and the 128-bit one. *)
Theorem relo_inst_aborts cur w ps :
  0 ≤ w < 2 ^ 32 →
  fst (relo_inst cur w (asm_of ps)) = Err Aborted ↔
  ∃ v opc rt off, decode w = ALdrLit v opc rt off ∧ 2 ≤ opc.
Proof.
  intros Hw. split; [|intros (v & opc & rt & off & Hd & Ho); by eapply relo_inst_unknown_ldr].
  destruct (relo_pieces cur w) as [qs|] eqn:E; [by rewrite (relo_inst_pieces _ _ _ _ Hw E)|].
  unfold relo_pieces in E. destruct (decode w) eqn:Ed; try done.
  - case_decide; [done|]. eauto 10 with lia.
  - by rewrite relo_inst_unallocated.
Qed.

Lemma relo_inst_aborts_witness :
  0 ≤ 0x98000040 < 2 ^ 32 ∧ fst (relo_inst 0x10000 0x98000040 (asm_of [])) = Err Aborted.
Proof.
  split; [lia|]. apply (relo_inst_aborts 0x10000 0x98000040 []); [lia|].
  exists false, 2, 0, 8. split; [by vm_compute|lia].
Defined.

Lemma relocator_well_formed_witness :
  asm_ok (asm_new 0) ∧ wp (relo_inst 0x10000 0xB4000060) (λ _ a', asm_ok a') (λ e _, e = Aborted) (asm_new 0).
Proof. split; [apply asm_ok_new|]. apply (relocator_well_formed 0x10000 0xB4000060 (asm_new 0)), asm_ok_new. Defined.
