(* ===== verification/DobbyHookProps.v ===== *)
(** * Trampolines and hooks

    The words of the trampolines and what they do when they run, and what
    DobbyHook and DobbyDestroy make of the process. *)

From S2P Require Import Prelude CMem XhUtil DobbyBits DobbyMem DobbyMemProps DobbyAlloc A64Asm A64Reloc A64Spec A64Layout A64Bind A64Sim A64Run A64RelocProps DobbyHook.

#[local] Open Scope cint_scope.

(** ** The words *)

(** [k] is a number of pages, [k] of [b_word] a number of words. *)
Definition adrp_word (k : Z) : Z :=
  u32 (ADRP .| 17 .| LeftShift (field k 0 2) 2 29 .| LeftShift (field k 2 19) 19 5).
Definition add_word (off : Z) : Z := u32 (ADD_x_imm .| 17 .| (17 << 5) .| LeftShift off 12 10).
Definition b_word (k : Z) : Z := u32 (B .| field k 0 26).

Definition normal_words (from to : Z) : list Z :=
  if distance from to <? adrp_range then [adrp_word (to / 4096 - from / 4096); add_word (to mod 4096); BR17]
  else [ldr17 8; BR17] ++ dword to.

Lemma sint_field k n : 0 < n → - 2 ^ (n - 1) ≤ k < 2 ^ (n - 1) → sint n (field k 0 n) = k.
Proof.
  intros Hn Hk. unfold field. rewrite Z.div_1_r. change (k mod 2 ^ n) with (wrap n k).
  rewrite sint_wrap by lia. by apply sint_small.
Qed.

Lemma decode_adrp_top w lo :
  field w 24 8 = 144 + 32 * lo → 0 ≤ lo < 4 →
  decode w = AAdrp (field w 0 5) (4096 * sint 21 (4 * field w 5 19 + field w 29 2)).
Proof.
  intros Ht Hlo. rewrite decode_top, Ht. unfold decode8.
  assert (lo = 0 ∨ lo = 1 ∨ lo = 2 ∨ lo = 3) as [->|[->|[->| ->]]] by lia; eval_tests; done.
Qed.

Lemma decode_adrp_word k : - 2 ^ 20 ≤ k < 2 ^ 20 → decode (adrp_word k) = AAdrp 17 (4096 * k).
Proof.
  intros Hk. unfold adrp_word. set (lo := field k 0 2). set (hi := field k 2 19).
  assert (Hlo : 0 ≤ lo < 4) by (apply (field_range k 0 2); lia).
  assert (Hhi : 0 ≤ hi < 2 ^ 19) by (apply (field_range k 2 19); lia).
  assert (Hsum : sint 21 (4 * hi + lo) = k).
  { rewrite <- (sint_field k 21) at 1 by lia. f_equal. unfold hi, lo, field. change (2 ^ 0) with 1.
    rewrite !Z.div_1_r. Z.to_euclidean_division_equations. lia. }
  rewrite (decode_adrp_top _ lo); [|rewrite field_u32, !field_lor, (field_LeftShift_ne hi) by lia|done].
  - rewrite !field_u32, !field_lor by lia. rewrite !field_LeftShift_same by lia.
    rewrite !(field_LeftShift_ne hi), !(field_LeftShift_ne lo) by lia. rewrite !Z.mod_small by lia.
    rewrite !Z.lor_0_r. change (field ADRP 0 5 .| field 17 0 5) with 17.
    change (field ADRP 5 19 .| field 17 5 19) with 0. change (field ADRP 29 2 .| field 17 29 2) with 0.
    by rewrite !Z.lor_0_l, Hsum.
  - assert (Htop : field (LeftShift lo 2 29) 24 8 = 32 * lo).
    { unfold LeftShift. rewrite Z.shiftl_mul_pow2 by lia. change ((1 << 2) - 1) with (Z.ones 2).
      rewrite Z.land_ones, Z.mod_small by lia. unfold field. Z.to_euclidean_division_equations. lia. }
    rewrite Htop, Z.lor_0_r. change (field ADRP 24 8 .| field 17 24 8) with 144.
    assert (lo = 0 ∨ lo = 1 ∨ lo = 2 ∨ lo = 3) as [->|[->|[->| ->]]] by lia; done.
Qed.

Lemma decode_add_word off : 0 ≤ off < 4096 → decode (add_word off) = AAddImm 17 17 off.
Proof.
  intros Hoff. unfold add_word. rewrite decode_top. unfold decode8.
  assert (Hf : ∀ lo n, 0 ≤ lo → 0 ≤ n → lo + n ≤ 32 → lo + n ≤ 10 ∨ 22 ≤ lo →
    field (u32 (ADD_x_imm .| 17 .| (17 << 5) .| LeftShift off 12 10)) lo n = field (ADD_x_imm .| 17 .| (17 << 5)) lo n).
  { intros. rewrite field_u32, field_lor, (field_LeftShift_ne off) by lia. apply Z.lor_0_r. }
  rewrite !(Hf 24), !(Hf 23), !(Hf 22) by lia. eval_tests. rewrite !(Hf 0), !(Hf 5) by lia.
  change (field (ADD_x_imm .| 17 .| (17 << 5)) 0 5) with 17. change (field (ADD_x_imm .| 17 .| (17 << 5)) 5 5) with 17.
  by rewrite field_u32, field_lor, field_LeftShift_same, Z.mod_small by lia.
Qed.

Lemma decode_b_word k : - 2 ^ 25 ≤ k < 2 ^ 25 → decode (b_word k) = ABranch false (4 * k).
Proof.
  intros Hk. unfold b_word. set (v := field k 0 26).
  assert (Hv : 0 ≤ v < 2 ^ 26) by (apply (field_range k 0 26); lia).
  assert (Hf : ∀ lo n, 26 ≤ lo → 0 ≤ n → lo + n ≤ 32 → field (u32 (B .| v)) lo n = field B lo n).
  { intros. rewrite field_u32, field_lor, (field_small v 26) by lia. apply Z.lor_0_r. }
  unfold decode. rewrite (Hf 26), (Hf 31) by lia. eval_tests. unfold sfield.
  rewrite field_u32, field_lor, (field_whole v) by lia. change (field B 0 26 .| v) with v.
  unfold v. pose proof (sint_field k 26 ltac:(lia) Hk) as E. by rewrite E.
Qed.

Lemma normal_words_ok from to : Forall is_word (normal_words from to).
Proof.
  unfold normal_words. case_match; repeat constructor; try apply (wrap_range 32); try lia;
    by apply is_word_bool.
Qed.

(** ** The buffers *)

Lemma Emit_run w a : Emit w a = (Ret tt, set_buffer (buffer_ a ++ words_bytes [u32 w]) a).
Proof. rewrite words_bytes_one. done. Qed.

Lemma br17_run a : br TMP_REG_0 a = (Ret tt, set_buffer (buffer_ a ++ words_bytes [BR17]) a).
Proof. unfold br. by rewrite Emit_run. Qed.

Lemma set_buffer_twice b b' a : set_buffer b' (set_buffer b a) = set_buffer b' a.
Proof. done. Qed.

Lemma page_number x : ALIGN_FLOOR x 0x1000 = x / 4096 * 4096.
Proof. apply ALIGN_FLOOR_page. Qed.

Lemma AdrpAdd_run from to a :
  0 ≤ from < 2 ^ 63 → 0 ≤ to < 2 ^ 63 →
  AdrpAdd TMP_REG_0 from to a =
  (Ret tt, set_buffer (buffer_ a ++ words_bytes [adrp_word (to / 4096 - from / 4096); add_word (to mod 4096)]) a).
Proof.
  intros Hf Ht. unfold AdrpAdd. rewrite !page_number.
  set (k := to / 4096 - from / 4096).
  assert (Hk : to / 4096 * 4096 - from / 4096 * 4096 = 4096 * k) by (unfold k; lia).
  assert (Hr : - 2 ^ 51 ≤ k < 2 ^ 51) by (unfold k; Z.to_euclidean_division_equations; lia).
  rewrite Hk.
  assert (Hs : sint 64 (4096 * k) = 4096 * k).
  { rewrite <- (sint_field (4096 * k) 64) at 2 by lia. unfold sint, field. rewrite Z.div_1_r.
    unfold wrap. by rewrite Z.mod_mod by lia. }
  rewrite Hs. unfold adrp, add, AddSubImmediate. cbn [Is64Bits reg_size_ TMP_REG_0 Xr andb Z.eqb Pos.eqb].
  rewrite (Z.shiftr_div_pow2 (4096 * k)) by lia.
  replace (4096 * k / 2 ^ 12) with k by (Z.to_euclidean_division_equations; lia).
  rewrite !bits_field by lia. rewrite (CM_bind_Ret _ _ _ _ _ (Emit_run _ a)).
  change (Operand_IsImmediate (Operand_imm (to mod 0x1000))) with true. cbv iota zeta.
  rewrite Emit_run, set_buffer_twice. do 2 f_equal. cbn [buffer_ set_buffer].
  rewrite <- app_assoc, <- words_bytes_app. done.
Qed.

Lemma LiteralLdrBranch_new from to :
  ∃ a', LiteralLdrBranch to (asm_new from) = (Ret tt, a') ∧
        buffer_ a' = words_bytes ([ldr17 8; BR17] ++ dword to).
Proof.
  set (label := mkRelocLabel 0 0 [mkRef kLabelImm19 0 0] (le_bytes 8 to) 8).
  set (a := mkAsm (words_bytes [LDR17; BR17]) from [label] [0%nat]).
  assert (Hrun : LiteralLdrBranch to (asm_new from) = bind_labels [0%nat] a) by reflexivity.
  destruct (bind_labels_words [0%nat] [(0%nat, to)] a [LDR17; BR17]) as (a' & Hb & Hbuf & _).
  - done.
  - repeat constructor; by apply is_word_bool.
  - constructor; [|constructor]. exists label. split; [reflexivity|]. split_and!; reflexivity.
  - constructor; [simpl; lia|constructor].
  - simpl. lia.
  - exists a'. rewrite Hrun. split; [exact Hb|exact Hbuf].
Qed.

Lemma GenerateNormalTrampolineBuffer_run from to s :
  0 ≤ from < 2 ^ 63 → 0 ≤ to < 2 ^ 63 →
  GenerateNormalTrampolineBuffer from to s = (Ret (words_bytes (normal_words from to)), s).
Proof.
  intros Hf Ht. unfold GenerateNormalTrampolineBuffer, normal_words. destruct (distance from to <? adrp_range).
  - assert (Hrun : (_ ← AdrpAdd TMP_REG_0 from to; br TMP_REG_0) (asm_new from) =
      (Ret tt, set_buffer (words_bytes [adrp_word (to / 4096 - from / 4096); add_word (to mod 4096); BR17]) (asm_new from))).
    { rewrite (CM_bind_Ret _ _ _ _ _ (AdrpAdd_run from to _ Hf Ht)), br17_run, set_buffer_twice.
      cbn [buffer_ set_buffer asm_new app]. by rewrite <- words_bytes_app. }
    by rewrite (CM_bind_Ret _ _ _ _ _ (run_asm_Ret _ _ _ _ s Hrun)).
  - destruct (LiteralLdrBranch_new from to) as (a' & Hrun & Hb).
    rewrite (CM_bind_Ret _ _ _ _ _ (run_asm_Ret _ _ _ _ s Hrun)). by rewrite Hb.
Qed.

(** The reach of the adrp: the distance alone does not decide it. *)
Definition adrp_reaches (from to : Z) : Prop :=
  distance from to < adrp_range → to / 4096 - from / 4096 < 2 ^ 20.

Lemma distance_small from to :
  0 ≤ from < 2 ^ 63 → 0 ≤ to < 2 ^ 63 → distance from to = Z.abs (from - to).
Proof.
  intros Hf Ht. unfold distance. assert (E : sint 64 (from - to) = from - to).
  { unfold sint, wrap. case_decide; Z.to_euclidean_division_equations; lia. }
  rewrite E. apply wrap_small. lia.
Qed.

(** ** What they do *)

Section run.
Context {V : Type} (exec_other : Z → cpu V → option (option Z * cpu V)).
Implicit Types t : cpu V.

Lemma step_at m a ws i w t :
  code_at m a ws → ws !! i = Some w → mem t = m → pc t = a + 4 * Z.of_nat i →
  step exec_other t = exec exec_other (decode w) t.
Proof using Type. intros Hc Hi Hm Hpc. destruct (Hc i w Hi) as (X & _ & N). unfold step. by rewrite Hm, Hpc, X, N. Qed.

(** The machine got to [to] with only X17 changed. *)
Definition jumps (to : Z) t : Prop :=
  ∃ n t', steps exec_other n t = Some t' ∧ pc t' = to ∧ same_but_tmp t t' ∧ mem t' = mem t.

Lemma adrp_trampoline_jumps from to t k off :
  code_at (mem t) from [adrp_word k; add_word off; BR17] → pc t = from → 0 ≤ from → from + 12 < 2 ^ 63 →
  - 2 ^ 20 ≤ k < 2 ^ 20 → 0 ≤ off < 4096 → to = from / 4096 * 4096 + 4096 * k + off → 0 ≤ to < 2 ^ 63 →
  jumps to t.
Proof using Type.
  intros Hc Hpc Hf Hf' Hk Hoff Hto Hto'.
  pose proof (step_at _ _ _ 0 _ t Hc eq_refl eq_refl ltac:(lia)) as S0. rewrite (decode_adrp_word k Hk) in S0.
  simpl in S0. rewrite Hpc in S0. set (t1 := next (wr_x 17 (from / 4096 * 4096 + 4096 * k) t)) in S0.
  assert (P1 : pc t1 = from + 4).
  { unfold t1, next, set_pc. cbn [pc]. rewrite wr_x_pc, Hpc, wrap_small; lia. }
  pose proof (step_at _ _ _ 1 _ t1 Hc eq_refl eq_refl ltac:(lia)) as S1. rewrite (decode_add_word off Hoff) in S1.
  cbn [exec] in S1. set (t2 := next (wr_sp 17 (rd_sp t1 17 + off) t1)) in S1.
  assert (P2 : pc t2 = from + 8).
  { unfold t2, next, set_pc. cbn [pc]. unfold wr_sp. simpl (17 =? 31). cbv iota.
    rewrite wr_x_pc, P1, wrap_small; lia. }
  pose proof (step_at _ _ _ 2 _ t2 Hc eq_refl eq_refl ltac:(lia)) as S2. rewrite decode_BR17 in S2.
  cbn [exec] in S2.
  assert (X : rd_x t2 17 = to).
  { unfold t2, rd_x, wr_sp, rd_sp, next, set_pc, wr_x, t1. simpl. rewrite (wrap_small 64 (_ + 4096 * k)) by lia.
    rewrite wrap_small; lia. }
  rewrite X in S2. exists 3%nat, (set_pc to t2). split_and!.
  - cbn [steps]. rewrite S0. simpl. rewrite S1. simpl. by rewrite S2.
  - unfold set_pc. cbn [pc]. apply wrap_small. lia.
  - split_and!; try done. intros r Hr _. unfold set_pc, t2, t1, next, wr_sp, wr_x. simpl.
    by rewrite !(proj2 (Z.eqb_neq r 17)) by done.
  - done.
Qed.

Lemma literal_trampoline_jumps from to t :
  code_at (mem t) from ([ldr17 8; BR17] ++ dword to) → pc t = from → 0 ≤ from → from + 12 < 2 ^ 63 →
  0 ≤ to < 2 ^ 63 → jumps to t.
Proof using Type.
  intros Hc Hpc Hf Hf' Hto.
  pose proof (step_at _ _ _ 0 _ t Hc eq_refl eq_refl ltac:(lia)) as S0.
  destruct (decode_ldr17 2 ltac:(lia)) as [Hd _]. change (4 * 2) with 8 in Hd. rewrite Hd in S0.
  destruct (code_at_dword _ _ _ 2 to Hc eq_refl eq_refl ltac:(lia)) as [Hr Hn].
  simpl exec in S0. unfold load_x in S0. rewrite Hpc, (wrap_small 64 (from + 8)) in S0 by lia.
  change (4 * Z.of_nat 2) with 8 in Hr, Hn. rewrite Hr, Hn in S0.
  set (t1 := next (wr_x 17 to t)) in S0.
  assert (P1 : pc t1 = from + 4).
  { unfold t1, next, set_pc. cbn [pc]. rewrite wr_x_pc, Hpc, wrap_small; lia. }
  pose proof (step_at _ _ _ 1 _ t1 Hc eq_refl eq_refl ltac:(lia)) as S1. rewrite decode_BR17 in S1.
  cbn [exec] in S1.
  assert (X : rd_x t1 17 = to) by (unfold t1; rewrite rd_x_wr by done; apply wrap_small; lia).
  rewrite X in S1. exists 2%nat, (set_pc to t1). split_and!.
  - cbn [steps]. rewrite S0. simpl. by rewrite S1.
  - unfold set_pc. cbn [pc]. apply wrap_small. lia.
  - split_and!; try done. intros r Hr' _. unfold set_pc, t1, next, wr_x. simpl.
    by rewrite (proj2 (Z.eqb_neq r 17)) by done.
  - done.
Qed.

Lemma normal_trampoline_jumps from to t :
  0 ≤ from → from + 16 < 2 ^ 63 → 0 ≤ to < 2 ^ 63 → adrp_reaches from to →
  code_at (mem t) from (normal_words from to) → pc t = from → jumps to t.
Proof using Type.
  intros Hf Hf' Ht Hreach. unfold normal_words. destruct (Z.ltb_spec (distance from to) adrp_range) as [Hd|Hd]; intros Hc Hpc.
  - specialize (Hreach Hd). rewrite (distance_small from to) in Hd by lia. change adrp_range with (2 ^ 32) in Hd.
    apply (adrp_trampoline_jumps from to t (to / 4096 - from / 4096) (to mod 4096)); try done; try lia;
      Z.to_euclidean_division_equations; lia.
  - apply (literal_trampoline_jumps from to t Hc Hpc); lia.
Qed.

End run.

(** ** Memory that stays *)

Lemma allows_mono p n a m m' :
  (∀ b, a ≤ b < a + Z.of_nat n → byte_allows p m b = true → byte_allows p m' b = true) →
  allows p n a m = true → allows p n a m' = true.
Proof. intros H Ha. apply allows_all. intros b Hb. apply H; [done|]. by eapply allows_elim. Qed.

(** What a patch allows: everything readable and executable stays so. *)
Lemma patched_allows p a bs m m' b :
  patched a bs m m' → p = PROT_READ ∨ p = PROT_EXEC → byte_allows p m b = true → byte_allows p m' b = true.
Proof.
  intros [_ _ Hp] Hcase Hb. unfold byte_allows in *. rewrite Hp. case_decide; [|done].
  by destruct Hcase as [->| ->].
Qed.

Lemma patched_keeps_code a bs m m' x ws :
  patched a bs m m' → x + 4 * Z.of_nat (length ws) ≤ a ∨ a + Z.of_nat (length bs) ≤ x →
  code_at m x ws → code_at m' x ws.
Proof.
  intros Hp Hd Hc i w Hi. pose proof (lookup_lt_Some _ _ _ Hi). destruct (Hc i w Hi) as (H1 & H2 & H3).
  split_and!; [eapply allows_mono; [|exact H1]|eapply allows_mono; [|exact H2]|].
  - intros b _. eapply patched_allows; [done|by right].
  - intros b _. eapply patched_allows; [done|by left].
  - rewrite <- H3. apply number_of_ext. intros b Hb. rewrite (patched_bytes _ _ _ _ Hp), decide_False by lia. done.
Qed.

Lemma write_keeps_code k p v m x ws :
  x + 4 * Z.of_nat (length ws) ≤ p ∨ p + Z.of_nat k ≤ x →
  code_at m x ws → code_at (write_number k p v m) x ws.
Proof.
  intros Hd Hc i w Hi. pose proof (lookup_lt_Some _ _ _ Hi). destruct (Hc i w Hi) as (H1 & H2 & H3).
  rewrite !allows_write, number_of_write_ne by lia. done.
Qed.

Lemma code_at_mapped m a ws : code_at m a ws → range_mapped m a (4 * Z.of_nat (length ws)).
Proof.
  intros Hc b Hb. destruct (lookup_lt_is_Some_2 ws (Z.to_nat ((b - a) / 4))) as [w Hw].
  { Z.to_euclidean_division_equations. lia. }
  destruct (Hc _ _ Hw) as (H & _ & _). unfold page_mapped.
  pose proof (allows_elim _ _ _ _ b H ltac:(Z.to_euclidean_division_equations; lia)) as Hall.
  unfold byte_allows, prot_at in Hall. destruct (m_prot m !! (b / PAGE_SIZE)); [eauto|]. done.
Qed.

(** Words that are readable stay so where memory is not disturbed. *)
Lemma words_at_undisturbed m m' a ws :
  undisturbed m m' → range_mapped m a (4 * Z.of_nat (length ws)) → words_at m a ws → words_at m' a ws.
Proof.
  intros [_ Hb Hp] Hm Hw i w Hi. pose proof (lookup_lt_Some _ _ _ Hi). destruct (Hw i w Hi) as [H1 H2].
  split.
  - eapply allows_mono; [|exact H1]. intros b Hb' Hr. unfold byte_allows. rewrite Hp; [exact Hr|]. apply Hm. lia.
  - rewrite <- H2. apply number_of_ext. intros b Hb'. apply Hb, Hm. lia.
Qed.

Lemma words_at_patched m m' a ws x bs :
  patched x bs m m' → a + 4 * Z.of_nat (length ws) ≤ x ∨ x + Z.of_nat (length bs) ≤ a →
  words_at m a ws → words_at m' a ws.
Proof.
  intros Hp Hd Hw i w Hi. pose proof (lookup_lt_Some _ _ _ Hi). destruct (Hw i w Hi) as [H1 H2]. split.
  - eapply allows_mono; [|exact H1]. intros b _. eapply patched_allows; [done|by left].
  - rewrite <- H2. apply number_of_ext. intros b Hb. rewrite (patched_bytes _ _ _ _ Hp), decide_False by lia. done.
Qed.

Lemma words_at_allows m a ws : words_at m a ws → allows PROT_READ (4 * length ws) a m = true.
Proof.
  revert a. induction ws as [|w ws IH]; intros a H; [done|]. apply words_at_cons in H as (H1 & _ & H2).
  replace (4 * length (w :: ws))%nat with (4 + 4 * length ws)%nat by (simpl; lia).
  rewrite allows_split, H1. by apply IH.
Qed.

#[local] Transparent le_bytes.

(** The bytes of words in memory. *)
Lemma number_le_bytes m a n : le_bytes n (number_of m n a) = (λ i, byte_of m (a + Z.of_nat i)) <$> seq 0 n.
Proof.
  revert a. induction n as [|n IH]; intros a; [done|]. cbn [le_bytes number_of seq].
  rewrite fmap_cons, Z.add_0_r. pose proof (byte_of_range m a).
  replace (u8 (byte_of m a + 256 * number_of m n (a + 1))) with (byte_of m a)
    by (unfold wrap; Z.to_euclidean_division_equations; lia).
  replace ((byte_of m a + 256 * number_of m n (a + 1)) / 256) with (number_of m n (a + 1))
    by (Z.to_euclidean_division_equations; lia).
  rewrite IH. f_equal. rewrite <- (fmap_S_seq 0), <- list_fmap_compose. apply list_fmap_ext. intros j x _.
  simpl. f_equal. lia.
Qed.

Lemma words_at_bytes m a ws :
  words_at m a ws → (λ i, byte_of m (a + Z.of_nat i)) <$> seq 0 (4 * length ws) = words_bytes ws.
Proof.
  revert a. induction ws as [|w ws IH]; intros a H; [done|]. apply words_at_cons in H as (_ & H1 & H2).
  replace (4 * length (w :: ws))%nat with (4 + 4 * length ws)%nat by (simpl; lia).
  change (w :: ws) with ([w] ++ ws). rewrite words_bytes_app, words_bytes_one, <- (IH _ H2), <- H1, number_le_bytes.
  rewrite seq_app, fmap_app. f_equal. rewrite Nat.add_0_l, <- (Nat.add_0_r 4) at 1.
  rewrite <- fmap_add_seq, <- list_fmap_compose. apply list_fmap_ext. intros j x _. cbn. f_equal. lia.
Qed.

(** ** DobbyHook *)

Section hook.
Context {os : OS} {laws : OSLaws os} {grants : OSGrants os}.

(** The allocators leave the registry alone. *)
Lemma allocateExecBlock_hooks n s :
  wp (allocateExecBlock n)
    (λ _ s', entries s' = entries s ∧ near_branch_trampoline s' = near_branch_trampoline s) (λ _ _, True) s.
Proof using Type.
  unfold allocateExecBlock, allocateCodeMemoryArena, CHECK, OSMemory_Allocate, OSMemory_SetPermission,
    code_arena_alloc, check_block.
  repeat first [wp_step; cbv beta | case_match]; done.
Qed.

Lemma CM_gets {S A B} (g : S → A) (k : A → CM S B) s : (gets g ≫= k) s = k (g s) s.
Proof using Type. done. Qed.

Lemma SetPermission_page a s p :
  page_mapped (d_mem s) a →
  OSMemory_SetPermission (ALIGN_FLOOR a PageSize) PageSize p s =
  (Ret true, set_mem (set_prot (a / PAGE_SIZE * PAGE_SIZE) PAGE_SIZE (GetProtectionFromMemoryPermission p) (d_mem s)) s).
Proof using laws grants.
  intros Ha. rewrite ALIGN_FLOOR_page. unfold OSMemory_SetPermission, mbind, CM_bind, get, put.
  destruct (os_mprotect_mapped (d_mem s) (a / PAGE_SIZE * PAGE_SIZE) PAGE_SIZE (GetProtectionFromMemoryPermission p))
    as [e He]; [apply page_aligned|done| |unfold PageSize; by rewrite He].
  intros b Hb. unfold page_mapped in *. replace (b / PAGE_SIZE) with (a / PAGE_SIZE); [done|].
  unfold PAGE_SIZE in *. Z.to_euclidean_division_equations. lia.
Qed.

Lemma save_origin_run a ws e s :
  words_at (d_mem s) a ws → (length ws ≤ 64)%nat →
  save_origin a (4 * Z.of_nat (length ws)) e s =
  (Ret (mkInterceptEntry (id e) (type e) (patched_addr e) (patched_size e) (relocated_addr e) (relocated_size e)
     (words_bytes ws ++ drop (4 * length ws) (origin_insns e)) (origin_insn_size e)), s).
Proof using Type.
  intros Hw Hl. unfold save_origin. rewrite (proj2 (Z.ltb_ge _ _)) by lia.
  replace (Z.to_nat (4 * Z.of_nat (length ws))) with (4 * length ws)%nat by lia.
  rewrite CM_gets. rewrite (words_at_allows _ _ _ Hw). by rewrite (words_at_bytes _ _ _ Hw).
Qed.

Lemma BuildRouting_run e f s :
  near_branch_trampoline s = false → 0 ≤ patched_addr e < 2 ^ 63 → 0 ≤ f < 2 ^ 63 →
  BuildRouting (FunctionInlineHookRouting_new e f) s =
  (Ret (mkRouting e None None (Some (words_bytes (normal_words (patched_addr e) f))) f f), s).
Proof using Type.
  intros Hn Ha Hf. unfold BuildRouting, GenerateTrampolineBuffer. rewrite CM_gets, Hn, CM_left_id.
  cbn [trampoline_buffer_ SetTrampolineTarget FunctionInlineHookRouting_new trampoline_target_ replace_func entry_].
  by rewrite (CM_bind_Ret _ _ _ _ _ (GenerateNormalTrampolineBuffer_run _ _ s Ha Hf)).
Qed.

Lemma normal_words_length from to : (3 ≤ length (normal_words from to) ≤ 4)%nat.
Proof using Type. unfold normal_words. case_match; simpl; lia. Qed.

Lemma GenerateRelocatedCode_run s s2 e buf target f ws b m' :
  let a := patched_addr e in
  Z.of_nat (length buf) = 4 * Z.of_nat (length ws) → (length ws ≤ 64)%nat →
  GenRelocateCodeAndBranch a (MemBlock_new a (4 * Z.of_nat (length ws))) MemBlock_null s =
    (Ret (MemBlock_new a (4 * Z.of_nat (length ws)), b), set_mem m' s2) →
  block_size b ≠ 0 → words_at m' a ws →
  ∃ r, GenerateRelocatedCode (mkRouting e None None (Some buf) target f) s = (Ret (true, r), set_mem m' s2) ∧
    trampoline_buffer_ r = Some buf ∧
    entry_ r = mkInterceptEntry (id e) (type e) a (patched_size e) (block_addr b) (relocated_size e)
                 (words_bytes ws ++ drop (4 * length ws) (origin_insns e)) (origin_insn_size e).
Proof using Type.
  intros a Hbuf Hl Hrun Hsize Hw. unfold GenerateRelocatedCode. cbn [trampoline_buffer_ entry_].
  unfold lift_opt. rewrite CM_left_id, Hbuf, (wrap_small 32) by lia. fold a.
  rewrite (CM_bind_Ret _ _ _ _ _ Hrun). cbv iota beta zeta. rewrite (proj2 (Z.eqb_neq _ _) Hsize).
  pose proof (save_origin_run a ws (set_relocated_addr (block_addr b) e) (set_mem m' s2) Hw Hl) as Hs.
  change (block_addr (MemBlock_new a (4 * Z.of_nat (length ws)))) with a.
  change (block_size (MemBlock_new a (4 * Z.of_nat (length ws)))) with (4 * Z.of_nat (length ws)).
  rewrite (CM_bind_Ret _ _ _ _ _ Hs). by eexists.
Qed.

(** *** What DobbyHook is called with *)

(** The state after the page of the function was made readable and
    executable. *)
Definition after_protect (s : dobby) (a : Z) : dobby :=
  set_mem (set_prot (a / PAGE_SIZE * PAGE_SIZE) PAGE_SIZE (PROT_READ .| PROT_EXEC) (d_mem s)) s.

(** The place the caller wants the relocated function at: writable, in no page
    that the patch of the new block touches, and apart from the code that is
    overwritten. *)
Definition slot_ok (m : memory) (a n b bn p : Z) : Prop :=
  (∀ x, p ≤ x < p + 8 → byte_allows PROT_WRITE m x = true ∧
     x / PAGE_SIZE ≠ b / PAGE_SIZE ∧ x / PAGE_SIZE ≠ (b + bn) / PAGE_SIZE) ∧
  (p + 8 ≤ a ∨ a + n ≤ p).

(** A function at [a] whose first instructions [ws] the trampoline to [f]
    overwrites, in a process without near branches. *)
Record hookable (s s2 : dobby) (a f : Z) (origin_func : option Z) (ws : list Z) (body : list piece) (b : MemBlock)
  : Prop := {
  hk_addr : 0 < a ∧ a + 16 < 2 ^ 63;
  hk_target : 0 ≤ f < 2 ^ 63;
  hk_page : page_mapped (d_mem s) a;
  hk_new : find_entry a (entries s) = None;
  hk_near : near_branch_trampoline s = false;
  hk_len : length ws = length (normal_words a f);
  hk_code : in_use (after_protect s a) a (4 * Z.of_nat (length ws));
  hk_rel : relocatable (after_protect s a) s2 a ws body b;
  hk_slot p : origin_func = Some p →
    slot_ok (d_mem s2) a (4 * Z.of_nat (length ws)) (block_addr b)
      (4 * Z.of_nat (length (final_words (relocation a ws body)))) p
}.

Section steps.
Context (s s2 : dobby) (a f : Z) (origin_func : option Z) (ws : list Z) (body : list piece) (b : MemBlock).
Context (hk : hookable s s2 a f origin_func ws body b).
Let code := final_words (relocation a ws body).
Let bn := 4 * Z.of_nat (length code).

Lemma hook_block : block_addr b ≠ 0 ∧ b = MemBlock_new (block_addr b) bn ∧
  handed_out (after_protect s a) s2 (block_addr b) bn.
Proof using hk laws grants.
  destruct hk as [_ _ _ _ _ _ _ R _]. pose proof (relocatable_block _ _ _ _ _ _ R) as [H1 H2].
  pose proof (rel_null _ _ _ _ _ _ R). auto.
Qed.

(** The relocated code and the slot of the original function. *)
Lemma slot_away p : origin_func = Some p → p + 8 ≤ block_addr b ∨ block_addr b + bn ≤ p.
Proof using hk laws grants.
  intros Hp. destruct (hk_slot _ _ _ _ _ _ _ _ hk p Hp) as [H _]. destruct hk as [_ _ _ _ _ _ _ R _].
  pose proof (rel_size _ _ _ _ _ _ R) as Hsize. fold code bn in H, Hsize.
  destruct (decide (p + 8 ≤ block_addr b)); [by left|]. destruct (decide (block_addr b + bn ≤ p)); [by right|].
  exfalso. destruct (H (Z.max p (block_addr b)) ltac:(lia)) as (_ & H1 & H2).
  unfold PAGE_SIZE in *. Z.to_euclidean_division_equations. lia.
Qed.

(** The registers of hooks are those of [s]. *)
Lemma hook_frame : entries s2 = entries s ∧ near_branch_trampoline s2 = near_branch_trampoline s.
Proof using hk.
  destruct hk as [_ _ _ _ _ _ _ R _].
  pose proof (wp_run _ _ _ _ _ _ (allocateExecBlock_hooks _ _) (rel_block _ _ _ _ _ _ R)) as H. exact H.
Qed.

(** The instructions are still there when they are saved. *)
Lemma hook_words m' :
  patched (block_addr b) (words_bytes code) (d_mem s2) m' → words_at m' a ws.
Proof using hk laws grants.
  intros Hp. destruct hook_block as (_ & _ & [_ _ _ Hfresh Hu]).
  destruct hk as [_ _ _ _ _ Hlen Hin R _].
  assert (Hpos : 0 < 4 * Z.of_nat (length ws)) by (rewrite Hlen; pose proof (normal_words_length a f); lia).
  destruct (Hfresh a _ Hpos Hin) as [_ Hd].
  eapply words_at_patched; [exact Hp|rewrite length_words_bytes; unfold bn in Hd; lia|].
  eapply words_at_undisturbed; [exact Hu|apply Hin|apply R].
Qed.

(** The memory after the optional store of the relocated address. *)
Definition with_slot (m : memory) : memory :=
  match origin_func with Some p => write_number 8 p (block_addr b) m | None => m end.

Lemma slot_store m' s0 :
  patched (block_addr b) (words_bytes code) (d_mem s2) m' → d_mem s0 = m' →
  match origin_func with
  | Some p => on_memory (store 8 p (block_addr b))
  | None => mret tt
  end s0 = (Ret tt, set_mem (with_slot m') s0).
Proof using hk laws grants.
  intros Hp Hs. unfold with_slot. destruct origin_func as [p|] eqn:Ho; [|subst; by destruct s0].
  destruct (hk_slot _ _ _ _ _ _ _ _ hk p eq_refl) as [H _]. unfold on_memory, store. rewrite Hs.
  assert (Ha : allows PROT_WRITE 8 p m' = true); [|by rewrite Ha].
  apply allows_all. intros x Hx. destruct (H x Hx) as (H1 & H2 & H3). unfold byte_allows in *.
  rewrite (patched_prot _ _ _ _ Hp), decide_False; [done|].
  rewrite length_words_bytes. fold code bn in H3. replace (Z.of_nat (4 * length code)) with bn by (unfold bn; lia). tauto.
Qed.

Lemma with_slot_mapped m a' n : range_mapped m a' n → range_mapped (with_slot m) a' n.
Proof using Type. clear hk. unfold with_slot. by destruct origin_func. Qed.

(** DobbyHook up to the registry entry: what the memory holds. *)
Lemma DobbyHook_run :
  ∃ e m',
    DobbyHook a f origin_func s = (Ret RS_SUCCESS, set_entries (entries s ++ [e]) (set_mem m' s2)) ∧
    patched_addr e = a ∧ relocated_addr e = block_addr b ∧ firstn (4 * length ws) (origin_insns e) = words_bytes ws ∧
    origin_insn_size e = origin_insn_size os_heap_entry ∧
    code_at m' a (normal_words a f) ∧ code_at m' (block_addr b) code ∧
    (∀ p, origin_func = Some p → number_of m' 8 p = block_addr b).
Proof using hk laws grants.
  pose proof hook_block as (Hb0 & Hb & Hout). pose proof hook_frame as [Hent Hnear].
  pose proof (normal_words_length a f) as Hnl. pose proof slot_away as Haway.
  pose proof (relocation_nonempty a ws body) as Hne. fold code in Hne.
  destruct hk as [K1 K2 K3 K4 K5 K6 K7 R K9].
  destruct (relocatable_run _ _ _ _ _ _ R) as (m1 & Hrel & Hpat & Hcode1). fold code in Hpat, Hcode1.
  pose proof (hook_words m1 Hpat) as Hwords. pose proof (slot_store m1 (set_mem m1 s2) Hpat eq_refl) as Hslot.
  destruct Hout as [Hok2 Hrange Huse2 Hfresh Hund]. assert (Hpos : 0 < 4 * Z.of_nat (length ws)) by lia.
  destruct (Hfresh a _ Hpos K7) as [Ha2 Hda].
  set (tramp := words_bytes (normal_words a f)).
  assert (Htl : Z.of_nat (length tramp) = 4 * Z.of_nat (length ws)) by (unfold tramp; rewrite length_words_bytes; lia).
  set (m2 := with_slot m1).
  assert (Hm2 : range_mapped m2 a (Z.of_nat (length tramp))).
  { apply with_slot_mapped. intros x Hx. apply (patched_mapped _ _ _ _ Hpat). apply Ha2. lia. }
  destruct (DobbyCodePatch_run (set_mem m2 s2) a tramp) as (m3 & Hcommit & Hpat3);
    [lia|unfold PAGE_SIZE in *; lia|unfold PAGE_SIZE in *; lia|exact Hm2|].
  assert (Hbs : block_size b = bn) by by rewrite Hb.
  set (e0 := mkInterceptEntry (u32 (Z.of_nat (length (entries s)))) kFunctionInlineHook a
    (patched_size os_heap_entry) (relocated_addr os_heap_entry) (relocated_size os_heap_entry)
    (origin_insns os_heap_entry) (origin_insn_size os_heap_entry)).
  set (s1 := after_protect s a) in *.
  assert (Hbuild : BuildRouting (FunctionInlineHookRouting_new e0 f) s1 =
    (Ret (mkRouting e0 None None (Some tramp) f f), s1)) by (apply BuildRouting_run; [done|simpl; lia|done]).
  destruct (GenerateRelocatedCode_run s1 s2 e0 tramp f f ws b m1 Htl ltac:(lia) Hrel) as (r & Hgen & Hrb & Hre);
    [rewrite Hbs; unfold bn; lia|exact Hwords|].
  exists (entry_ r), m3. split_and!.
  - unfold DobbyHook. rewrite (proj2 (Z.eqb_neq a 0)) by lia. cbv zeta.
    rewrite (CM_bind_Ret _ _ _ _ _ (SetPermission_page a s kReadExecute K3)).
    change (set_mem _ s) with s1. cbn [negb]. unfold Interceptor_find. rewrite CM_gets.
    change (entries s1) with (entries s). rewrite K4. unfold InterceptEntry_new, Interceptor_count.
    rewrite CM_assoc, CM_gets, CM_left_id. change (entries s1) with (entries s). fold e0.
    unfold DispatchRouting. rewrite CM_assoc, (CM_bind_Ret _ _ _ _ _ Hbuild), CM_assoc, (CM_bind_Ret _ _ _ _ _ Hgen).
    rewrite CM_left_id. rewrite Hre. cbn [relocated_addr].
    rewrite (CM_bind_Ret _ _ _ _ _ Hslot). unfold Commit, Active. rewrite Hrb, Hre. cbn [patched_addr].
    rewrite CM_assoc. unfold lift_opt. rewrite CM_left_id.
    change (set_mem (with_slot m1) (set_mem m1 s2)) with (set_mem m2 s2). change (patched_addr e0) with a.
    rewrite (CM_bind_Ret _ _ _ _ _ Hcommit). unfold Interceptor_add, modify.
    unfold mbind, CM_bind. simpl. by rewrite <- Hent.
  - by rewrite Hre.
  - by rewrite Hre.
  - rewrite Hre. cbn [origin_insns]. rewrite take_app_le by (rewrite length_words_bytes; lia).
    apply take_ge. rewrite length_words_bytes. lia.
  - by rewrite Hre.
  - apply (patched_code _ _ _ _ Hpat3 (normal_words_ok a f)); [unfold PAGE_SIZE; lia|].
    rewrite <- K6, <- Htl. exact Hm2.
  - assert (Hc2 : code_at m2 (block_addr b) code).
    { unfold m2, with_slot. destruct origin_func as [p|]; [|done].
      apply write_keeps_code; [|done]. specialize (Haway p eq_refl). unfold bn in Haway. lia. }
    eapply patched_keeps_code; [exact Hpat3| |exact Hc2]. unfold bn in Hda. lia.
  - intros p Hp. destruct (K9 p Hp) as [_ Hd].
    transitivity (number_of m2 8 p).
    + apply number_of_ext. intros x Hx. rewrite (patched_bytes _ _ _ _ Hpat3), decide_False by lia. done.
    + unfold m2, with_slot. rewrite Hp, number_of_write_eq. apply Z.mod_small. unfold bn in *. lia.
Qed.

End steps.
(** C2: a hook diverts the function and keeps its original.  DobbyHook
    registers an entry; from then on the function's address jumps to the
    replacement, with no register but X17 changed, and the address given back
    as the original function simulates the overwritten instructions.  The
    replacement is in the reach of the adrp where the trampoline uses one: at a
    distance below 4 GiB its page is less than 2^20 pages above the function's
    (adrp_trampoline_overflows).  The simulation is of [portable] instructions:
    no use of X17, no B.AL or B.NV, of the literal loads only the 64-bit one of
    a general register. *)
Theorem DobbyHook_diverts {V : Type} (exec_other : Z → cpu V → option (option Z * cpu V))
    s s2 a f origin_func ws body b :
  hookable s s2 a f origin_func ws body b → adrp_reaches a f →
  ∃ s' e,
    DobbyHook a f origin_func s = (Ret RS_SUCCESS, s') ∧ entries s' = entries s ++ [e] ∧ patched_addr e = a ∧
    (∀ p, origin_func = Some p → number_of (d_mem s') 8 p = relocated_addr e) ∧
    (∀ t : cpu V, mem t = d_mem s' → pc t = a → jumps exec_other f t) ∧
    (∀ c t : cpu V, mem t = d_mem s' → pc t = relocated_addr e → pc c = a → same_but_tmp c t →
       simulates exec_other a (relocated_addr e) ws (relocation a ws body) c t).
Proof using laws grants.
  intros hk Hreach. destruct (DobbyHook_run _ _ _ _ _ _ _ _ hk) as (e & m' & Hrun & He & Hr & _ & _ & Hc & Hc' & Hp).
  destruct (hook_block _ _ _ _ _ _ _ _ hk) as (_ & _ & [_ Hrange _ _ _]).
  destruct hk as [K1 K2 K3 K4 K5 K6 K7 R K9].
  eexists _, e. split_and!; [exact Hrun|done|done|by rewrite Hr|..].
  - intros t Hm Ht. apply (normal_trampoline_jumps exec_other a f); try done; try lia. by rewrite Hm.
  - intros c t Hm Ht Hc0 Hag. rewrite Hr in Ht |- *.
    apply code_simulates; [apply R|apply R|apply R| |by rewrite Hm|done..]. split; [lia|]. 
    pose proof (relocation_nonempty a ws body). lia.
Qed.

(** ** DobbyDestroy *)

Lemma find_entry_app a l e :
  find_entry a l = None → patched_addr e = a → find_entry a (l ++ [e]) = Some e ∧ remove_entry a (l ++ [e]) = l.
Proof using Type.
  intros H He. induction l as [|x l IH]; simpl in *.
  - by rewrite (proj2 (Z.eqb_eq _ _) He).
  - destruct (patched_addr x =? a); [done|]. destruct (IH H) as [-> ->]. done.
Qed.

Lemma DobbyDestroy_run s a e k :
  find_entry a (entries s) = Some e → k = origin_insn_size e → 0 ≤ k ≤ Z.of_nat (length (origin_insns e)) →
  k ≤ PAGE_SIZE → 0 ≤ a → a + k < 2 ^ 64 → range_mapped (d_mem s) a k →
  ∃ m', DobbyDestroy a s = (Ret RS_SUCCESS, set_entries (remove_entry a (entries s)) (set_mem m' s)) ∧
        patched a (firstn (Z.to_nat k) (origin_insns e)) (d_mem s) m'.
Proof using laws grants.
  intros Hf Hk Hlen Hpage Ha Hend Hm.
  assert (Hl : Z.of_nat (length (firstn (Z.to_nat k) (origin_insns e))) = k) by (rewrite length_take; lia).
  destruct (DobbyCodePatch_run s a (firstn (Z.to_nat k) (origin_insns e))) as (m' & Hrun & Hp); rewrite ?Hl; try done.
  exists m'. split; [|done]. unfold DobbyDestroy, Interceptor_find. rewrite CM_gets, Hf, <- Hk.
  rewrite (proj2 (Z.ltb_ge _ _)) by lia. by rewrite (CM_bind_Ret _ _ _ _ _ Hrun).
Qed.

(** C31: DobbyDestroy undoes DobbyHook, bytes and registry, provided the size
    field of the entry, which no code sets, happens to be the number of bytes
    that were overwritten. *)
Theorem DobbyDestroy_restores s s2 a f origin_func ws body b :
  hookable s s2 a f origin_func ws body b → origin_insn_size os_heap_entry = 4 * Z.of_nat (length ws) →
  ∃ s' s'', DobbyHook a f origin_func s = (Ret RS_SUCCESS, s') ∧ DobbyDestroy a s' = (Ret RS_SUCCESS, s'') ∧
    entries s'' = entries s ∧ code_at (d_mem s'') a ws.
Proof using laws grants.
  intros hk Hsize. destruct (DobbyHook_run _ _ _ _ _ _ _ _ hk) as (e & m' & Hrun & He & Hr & Hor & Hos & Hc & _ & _).
  pose proof (hook_frame _ _ _ _ _ _ _ _ hk) as [Hent _]. pose proof (normal_words_length a f).
  destruct hk as [K1 K2 K3 K4 K5 K6 K7 R K9]. rewrite Hsize in Hos.
  destruct (find_entry_app a (entries s) e K4 He) as [Hfind Hrem].
  set (s' := set_entries (entries s ++ [e]) (set_mem m' s2)) in *.
  assert (Hlen : (4 * length ws ≤ length (origin_insns e))%nat).
  { rewrite <- (length_words_bytes ws), <- Hor, length_take. lia. }
  assert (Hmap : range_mapped m' a (4 * Z.of_nat (length ws))) by (rewrite K6; by apply code_at_mapped).
  destruct (DobbyDestroy_run s' a e (4 * Z.of_nat (length ws))) as (m'' & Hd & Hp);
    [done|done|lia|unfold PAGE_SIZE; lia|lia|lia|done|].
  replace (Z.to_nat (4 * Z.of_nat (length ws))) with (4 * length ws)%nat in Hp by lia. rewrite Hor in Hp.
  exists s'. eexists. split_and!; [exact Hrun|exact Hd|done|].
  apply (patched_code _ _ _ _ Hp (rel_words _ _ _ _ _ _ R)); [unfold PAGE_SIZE; lia|done].
Qed.

End hook.

(** *** Where nothing is granted *)

Section refused.
Context {os : OS} {laws : OSLaws os}.

(** The system does not make the page of [a] readable and executable. *)
Definition page_refused (m : memory) (a : Z) : Prop :=
  (k_mprotect m (a / PAGE_SIZE * PAGE_SIZE) PAGE_SIZE (PROT_READ .| PROT_EXEC)).1.1 ≠ 0.

(** Either it does, or nothing changes. *)
Lemma SetPermission_result a s :
  OSMemory_SetPermission (ALIGN_FLOOR a PageSize) PageSize kReadExecute s =
    (if decide (page_refused (d_mem s) a) then (Ret false, s) else (Ret true, after_protect s a)).
Proof using laws.
  rewrite ALIGN_FLOOR_page. unfold OSMemory_SetPermission, mbind, CM_bind, get, put, page_refused, after_protect, PageSize.
  change (GetProtectionFromMemoryPermission kReadExecute) with (PROT_READ .| PROT_EXEC).
  destruct (k_mprotect (d_mem s) (a / PAGE_SIZE * PAGE_SIZE) PAGE_SIZE (PROT_READ .| PROT_EXEC)) as [[r e] m'] eqn:E. cbn [fst].
  destruct (decide (r ≠ 0)) as [Hr|Hr].
  - rewrite (os_mprotect_failed _ _ _ _ _ _ E Hr). unfold mret, CM_ret. rewrite (proj2 (Z.eqb_neq _ _) Hr). by destruct s.
  - assert (r = 0) as -> by lia. by rewrite (os_mprotect_done _ _ _ _ _ _ E).
Qed.

(** C36: DobbyHook refuses address 0, an address whose page is not mapped or
    that the system refuses to make executable, and a function that is hooked
    already: it returns RS_FAILED and leaves the registry, the arenas and every
    byte of memory as they are. *)
Theorem DobbyHook_refuses s a f origin_func :
  a = 0 ∨ ¬ page_mapped (d_mem s) a ∨ page_refused (d_mem s) a ∨ is_Some (find_entry a (entries s)) →
  ∃ s', DobbyHook a f origin_func s = (Ret RS_FAILED, s') ∧
    entries s' = entries s ∧ all_arenas s' = all_arenas s ∧ (∀ x, byte_of (d_mem s') x = byte_of (d_mem s) x).
Proof using laws.
  intros H. unfold DobbyHook. destruct (Z.eqb_spec a 0) as [|Ha]; [by exists s|].
  pose proof (SetPermission_result a s) as Hset. destruct (decide (page_refused (d_mem s) a)) as [Hr|Hr];
    rewrite (CM_bind_Ret _ _ _ _ _ Hset); cbn [negb]; [by exists s|].
  destruct H as [|[Hm|[|[e He]]]]; [done| |done|].
  - destruct Hr. unfold page_refused. destruct (k_mprotect _ _ _ _) as [[r e] m'] eqn:E.
    eapply os_mprotect_unmapped; [|exact E]. unfold page_mapped in *. by rewrite page_div.
  - unfold Interceptor_find. rewrite CM_gets. cbn [entries set_mem after_protect]. rewrite He. by eexists.
Qed.

End refused.

(** the normal trampoline, ADRP/ADD/BR or a literal load, takes any machine
    that runs it at [from] to [to], whatever its registers, and changes none
    but X17. *)
Theorem trampoline_jumps {V : Type} (exec_other : Z → cpu V → option (option Z * cpu V)) from to s buffer s' (t : cpu V) :
  0 ≤ from → from + 16 < 2 ^ 63 → 0 ≤ to < 2 ^ 63 → adrp_reaches from to →
  GenerateNormalTrampolineBuffer from to s = (Ret buffer, s') →
  (∀ i, (i < length buffer)%nat → byte_of (mem t) (from + Z.of_nat i) = default 0 (buffer !! i) ∧
     byte_allows PROT_READ (mem t) (from + Z.of_nat i) = true ∧
     byte_allows PROT_EXEC (mem t) (from + Z.of_nat i) = true) →
  pc t = from → jumps exec_other to t.
Proof.
  intros Hf Hf' Ht Hreach Hrun Hbytes Hpc.
  rewrite (GenerateNormalTrampolineBuffer_run from to s ltac:(lia) Ht) in Hrun. injection Hrun as <- <-.
  apply (normal_trampoline_jumps exec_other from to); try done. apply bytes_code_at; [apply normal_words_ok|done].
Qed.

(** Pages decide what the ADRP reaches: here the distance is within the range
    that the code tests, and the immediate is cut to its opposite. *)
Lemma adrp_trampoline_overflows :
  distance 0x100000ffc (0x100000ffc + 2 ^ 32 - 4) < adrp_range ∧
  decode (default 0 (normal_words 0x100000ffc (0x100000ffc + 2 ^ 32 - 4) !! 0%nat)) = AAdrp 17 (- 2 ^ 32).
Proof. by vm_compute. Qed.

(** ** A function that is hooked *)

(** CBZ x0, +12; ADR x1, +8; LDR x2, +8 at 0x10000, hooked to 0x30000; the
    original's address goes to 0x20000.  [size] is what the heap leaves in
    origin_insn_size. *)
Definition sample_words : list Z := [0xB4000060; 0x10000041; 0x58000042].
Definition hook_entry (size : Z) : InterceptEntry :=
  mkInterceptEntry 0 kFunctionInlineHook 0 0 0 0 (replicate 256 0) size.
Definition hook_process : dobby :=
  mkDobby (write_bytes 0x10000 (words_bytes sample_words) (Memory ∅ (list_to_map [(0x10, 5); (0x20, 3)]) []))
    [] [] [] false.
Definition hook_body : list piece := default [] (relo_seq 0x10000 sample_words).
Definition hook_alloc (size : Z) : outcome MemBlock * dobby :=
  let os := sample_os None (hook_entry size) in
  allocateExecBlock (4 * Z.of_nat (length (final_words (relocation 0x10000 sample_words hook_body))))
    (after_protect hook_process 0x10000).

Lemma hook_process_hookable size :
  let os := sample_os None (hook_entry size) in
  hookable hook_process (snd (hook_alloc size)) 0x10000 0x30000 (Some 0x20000) sample_words hook_body
    (MemBlock_new 0x21000 88).
Proof.
  intros os.
  assert (Hpage : ∀ b, 0x10000 ≤ b < 0x10000 + 12 → b / PAGE_SIZE = 16)
    by (intros b Hb; unfold PAGE_SIZE; Z.to_euclidean_division_equations; lia).
  split; [lia|lia|vm_compute; eauto|done|done|vm_compute; reflexivity| | |].
  - split; [|intros ar Har; by apply elem_of_nil in Har].
    intros b Hb. simpl in Hb. unfold page_mapped. rewrite Hpage by lia. vm_compute. eauto.
  - split; [by apply arenas_ok_none|repeat constructor; by apply is_word_bool| |vm_compute; done|vm_compute; reflexivity
      |vm_compute; done|vm_compute; reflexivity|done].
    intros i w Hi. do 3 (destruct i as [|i]; [injection Hi as <-; vm_compute; auto|]). done.
  - intros p [= <-]. split; [|right; vm_compute; done]. intros x Hx.
    assert (E : x / PAGE_SIZE = 32) by (unfold PAGE_SIZE; Z.to_euclidean_division_equations; lia).
    unfold byte_allows, prot_at. rewrite E. vm_compute. by split_and!.
Qed.

Definition run_hook (size : Z) : outcome Z * dobby :=
  let os := sample_os None (hook_entry size) in DobbyHook 0x10000 0x30000 (Some 0x20000) hook_process.

Lemma hook_process_reach : adrp_reaches 0x10000 0x30000.
Proof. intros _. vm_compute. done. Qed.

Lemma DobbyHook_diverts_witness :
  let os := sample_os None (hook_entry 0) in
  ∃ s', DobbyHook 0x10000 0x30000 (Some 0x20000) hook_process = (Ret RS_SUCCESS, s') ∧
    number_of (d_mem s') 8 0x20000 = 0x21000 ∧
    ∀ t : cpu unit, mem t = d_mem s' → pc t = 0x10000 → jumps (λ _ _, None) 0x30000 t.
Proof.
  intros os.
  destruct (DobbyHook_diverts (λ _ (_ : cpu unit), None) _ _ _ _ _ _ _ _ (hook_process_hookable 0) hook_process_reach)
    as (s' & e & H1 & H2 & H3 & H4 & H5 & H6).
  exists s'. split; [exact H1|]. split; [|exact H5].
  replace s' with (snd (run_hook 0)) by (unfold run_hook; by rewrite H1). vm_compute. reflexivity.
Defined.

Lemma DobbyDestroy_restores_witness :
  let os := sample_os None (hook_entry 12) in
  ∃ s' s'', DobbyHook 0x10000 0x30000 (Some 0x20000) hook_process = (Ret RS_SUCCESS, s') ∧
    DobbyDestroy 0x10000 s' = (Ret RS_SUCCESS, s'') ∧ entries s'' = [] ∧ code_at (d_mem s'') 0x10000 sample_words.
Proof.
  intros os. exact (DobbyDestroy_restores _ _ _ _ _ _ _ _ (hook_process_hookable 12) eq_refl).
Defined.

(** With the zero that a fresh heap holds there, DobbyDestroy reports success
    and leaves the trampoline where it is. *)
Definition run_destroy : outcome Z * dobby :=
  let os := sample_os None (hook_entry 0) in DobbyDestroy 0x10000 (snd (run_hook 0)).

Lemma DobbyDestroy_leaves_trampoline :
  fst run_destroy = Ret RS_SUCCESS ∧ entries (snd run_destroy) = [] ∧
  number_of (d_mem (snd run_destroy)) 4 0x10000 = default 0 (normal_words 0x10000 0x30000 !! 0%nat).
Proof. by vm_compute. Qed.

(** A system that keeps to its laws and makes nothing executable (EACCES). *)
Definition refusing_os (heap : InterceptEntry) : OS := {|
  os_kernel := {| k_mprotect m _ _ _ := (-1, 13, m); k_maps _ := None |};
  os_mmap := sample_mmap;
  os_heap_entry := heap
|}.
#[local] Instance refusing_os_laws heap : OSLaws (refusing_os heap).
Proof.
  pose proof (sample_os_laws None heap) as [_ _ _ H4 H5 H6].
  split; [done|by intros m a prot r e m' [= _ _ <-]|by intros m a prot r e m' _ [= <- _ _]|exact H4|exact H5|exact H6].
Qed.

(** A second hook of the function, and a hook where its page, which is mapped,
    is not made executable. *)
Lemma DobbyHook_refuses_witness :
  (let os := sample_os None (hook_entry 0) in
   let s := snd (run_hook 0) in
   is_Some (find_entry 0x10000 (entries s)) ∧
   ∃ s', DobbyHook 0x10000 0x30000 None s = (Ret RS_FAILED, s') ∧
     entries s' = entries s ∧ all_arenas s' = all_arenas s ∧ (∀ x, byte_of (d_mem s') x = byte_of (d_mem s) x)) ∧
  (let os := refusing_os (hook_entry 0) in
   let s := hook_process in
   page_mapped (d_mem s) 0x10000 ∧
   ∃ s', DobbyHook 0x10000 0x30000 None s = (Ret RS_FAILED, s') ∧
     entries s' = entries s ∧ all_arenas s' = all_arenas s ∧ (∀ x, byte_of (d_mem s') x = byte_of (d_mem s) x)).
Proof.
  split.
  - intros os s. assert (H : is_Some (find_entry 0x10000 (entries s))) by (vm_compute; eauto).
    split; [exact H|]. apply (DobbyHook_refuses s 0x10000 0x30000 None). right. right. right. exact H.
  - intros os s. split; [vm_compute; eauto|]. apply (DobbyHook_refuses s 0x10000 0x30000 None).
    right. right. left. vm_compute. discriminate.
Defined.

(** The bytes of the trampoline from 0x10000 in a readable and executable
    page. *)
Definition trampoline_machine (to : Z) : cpu unit :=
  mkCpu (λ _, 0) 0 (mkNZCV false false false false) 0x10000
    (write_bytes 0x10000 (words_bytes (normal_words 0x10000 to)) (Memory ∅ (list_to_map [(0x10, 5)]) [])) tt.

Lemma trampoline_jumps_witness :
  GenerateNormalTrampolineBuffer 0x10000 0x712345678 (sample_process []) =
    (Ret (words_bytes (normal_words 0x10000 0x712345678)), sample_process []) ∧
  jumps (λ _ _, None) 0x712345678 (trampoline_machine 0x712345678).
Proof.
  assert (H : GenerateNormalTrampolineBuffer 0x10000 0x712345678 (sample_process []) =
    (Ret (words_bytes (normal_words 0x10000 0x712345678)), sample_process [])) by (vm_compute; reflexivity).
  split; [exact H|].
  apply (trampoline_jumps (λ _ _, None) 0x10000 0x712345678 (sample_process [])
    (words_bytes (normal_words 0x10000 0x712345678)) (sample_process []) (trampoline_machine 0x712345678));
    [lia|lia|lia|intros Hd; vm_compute in Hd; discriminate Hd|exact H| |reflexivity].
  intros i Hi. vm_compute in Hi. do 16 (destruct i as [|i]; [vm_compute; by split_and!|]). lia.
Defined.

(** A machine at the function whose CBZ does not jump, and the same machine at
    the relocated code. *)
Definition reloc_start : dobby := after_protect hook_process 0x10000.
Definition run_reloc : outcome (MemBlock * MemBlock) * dobby :=
  let os := sample_os None (hook_entry 0) in
  GenRelocateCodeAndBranch 0x10000 (MemBlock_new 0x10000 12) MemBlock_null reloc_start.
Definition machine_at (m : memory) (p : Z) : cpu unit :=
  mkCpu (λ _, 1) 0 (mkNZCV false false false false) p m tt.
Definition no_other (_ : Z) (_ : cpu unit) : option (option Z * cpu unit) := None.

(** The three instructions fall through. *)
Lemma sample_falls m ps :
  code_at m 0x21000 (final_words ps) → allows PROT_READ 8 0x10010 m = true →
  let c2 := next (wr_x 1 0x1000c (set_pc 0x10004 (machine_at m 0x10000))) in
  falls no_other 0x21000 ps sample_words 0 (machine_at m 0x10000) 3 (next (wr_x 2 (number_of m 8 0x10010) c2)).
Proof.
  intros Hcode Hread c2.
  apply (falls_step _ _ _ _ 0 _ 0xB4000060 (set_pc 0x10004 (machine_at m 0x10000)));
    [done|vm_compute; done|reflexivity|reflexivity|exact Hcode|].
  apply (falls_step _ _ _ _ 1 _ 0x10000041 c2); [done|vm_compute; done|reflexivity|reflexivity|exact Hcode|].
  apply (falls_step _ _ _ _ 2 _ 0x58000042 (next (wr_x 2 (number_of m 8 0x10010) c2)));
    [done|vm_compute; done| |reflexivity|exact Hcode|apply falls_refl].
  unfold exec. change (decode 0x58000042) with (ALdrLit false 1 2 8). cbn iota. unfold load_x.
  change (u64 (pc c2 + 8)) with 0x10010. change (mem c2) with m. by rewrite Hread.
Qed.

Lemma relocation_simulates_witness :
  let os := sample_os None (hook_entry 0) in
  run_reloc = (Ret (MemBlock_new 0x10000 12, MemBlock_new 0x21000 88), snd run_reloc) ∧
  ∃ n t', steps no_other n (machine_at (d_mem (snd run_reloc)) 0x21000) = Some t' ∧ pc t' = 0x1000c ∧
    xreg t' 1 = 0x1000c ∧ xreg t' 2 = number_of (d_mem (snd run_reloc)) 8 0x10010.
Proof.
  intros os. pose proof (hk_rel _ _ _ _ _ _ _ _ (hook_process_hookable 0)) as R.
  destruct (relocation_simulates no_other _ _ _ _ _ _ R) as (s' & H1 & H2).
  destruct (relocatable_run _ _ _ _ _ _ R) as (m' & H3 & _ & Hcode).
  assert (Hs : s' = snd run_reloc) by exact (eq_sym (f_equal snd H1)).
  subst s'. split; [exact H1|].
  assert (Hm : m' = d_mem (snd run_reloc)) by exact (eq_sym (f_equal (λ r, d_mem (snd r)) H3)).
  assert (Hread : allows PROT_READ 8 0x10010 (d_mem (snd run_reloc)) = true) by (vm_compute; reflexivity).
  subst m'. clear H1 H3. set (m := d_mem (snd run_reloc)) in *. clearbody m.
  destruct (H2 (machine_at m 0x10000) (machine_at m 0x21000) eq_refl eq_refl eq_refl) as [Hfall _]; [by split_and!|].
  destruct (Hfall _ (sample_falls m _ Hcode Hread)) as (n & t' & S1 & P1 & _ & (Hreg & _)).
  exists n, t'. split; [exact S1|]. split; [exact P1|]. rewrite <- !Hreg by done. split; [reflexivity|].
  rewrite xreg_next_wr. simpl. apply number_of_u64.
Defined.
