(* ===== verification/Instrument.v ===== *)
(** * Instrumentation

    DobbyInstrument for ARM64: the closure trampoline and the closure bridge
    (TrampolineBridge/ClosureTrampolineBridge), which save the registers, call a
    handler and go on where the handler says, the routing of an instrumented
    instruction (InterceptRouting/Routing/InstructionInstrument) and the C side
    of the handler. *)

From S2P Require Import Prelude CMem DobbyBits DobbyMem A64Asm A64Reloc DobbyHook.

#[local] Open Scope cint_scope.

(** ** Data

    Objects made with new are held in lists, a pointer is an index.  Only the
    pointer to a ClosureTrampolineEntry becomes a number, as it is written into
    the code. *)

(** What carry_handler points to: one function is used. *)
Inductive routing_handler_t : Set := instrument_routing_dispatch_ptr.

Record ClosureTrampolineEntry : Set := mkClosureEntry {
  address : Z;
  entry_size : Z;
  carry_handler : routing_handler_t;
  carry_data : nat
}.

(** [prologue_dispatch_bridge] is set to nullptr and not used. *)
Record InstructionInstrumentRouting : Set := mkInstrumentRouting {
  base : routing;
  pre_handler : Z;
  post_handler : Z
}.
Definition InstructionInstrumentRouting_new (entry : InterceptEntry) (pre_handler post_handler : Z) : InstructionInstrumentRouting :=
  mkInstrumentRouting (mkRouting entry None None None 0 0) pre_handler post_handler.
Definition set_base (b : routing) (r : InstructionInstrumentRouting) : InstructionInstrumentRouting :=
  mkInstrumentRouting b (pre_handler r) (post_handler r).

(** Dobby's process, the static [closure_bridge] (0 for nullptr), the closure
    entries, and the routings with their InterceptEntry; [carry_data] points to
    the entry, and the entry to its routing. *)
Record instruments : Set := mkInstruments {
  i_dobby : dobby;
  closure_bridge : Z;
  closure_entries : list ClosureTrampolineEntry;
  routings : list InstructionInstrumentRouting
}.
Abbreviation IM := (CM instruments).

Definition on_dobby {A} (c : DM A) : IM A := λ s,
  let '(r, d) := c (i_dobby s) in (r, mkInstruments d (closure_bridge s) (closure_entries s) (routings s)).
Definition set_closure_bridge (b : Z) : IM unit :=
  modify (λ s, mkInstruments (i_dobby s) b (closure_entries s) (routings s)).
Definition set_closure_entries (l : list ClosureTrampolineEntry) (s : instruments) : instruments :=
  mkInstruments (i_dobby s) (closure_bridge s) l (routings s).
Definition set_routings (l : list InstructionInstrumentRouting) (s : instruments) : instruments :=
  mkInstruments (i_dobby s) (closure_bridge s) (closure_entries s) l.

(** The address of the [i]th ClosureTrampolineEntry and of the function
    common_closure_bridge_handler, and a call of a handler of the user:
    [dobby_instrument_callback_t] on an address and a register context. *)
Class Process : Type := {
  closure_entry_ptr : nat → Z;
  common_closure_bridge_handler_ptr : Z;
  call_handler : Z → Z → Z → CM memory unit
}.

(** ** The assembler *)

(** A label on the stack, without data. *)
Definition new_AssemblerPseudoLabel : AM nat :=
  a ← get;
  _ ← put (set_labels (labels a ++ [mkRelocLabel 0 0 [] [] 0]) a);
  mret (length (labels a)).

Definition MEM (reg : CPURegister) (offset : Z) : MemOperand := MemOperand_imm reg offset Offset.
Definition MEM_EXT (reg : CPURegister) (offset : Z) (addrmode : AddrMode) : MemOperand := MemOperand_imm reg offset addrmode.

(** sizeof(DobbyRegisterContext): dummy, sp, dummy, x0 to x28, fp, lr, q0 to
    q31. *)
Definition SIZEOF_DobbyRegisterContext : Z := 8 * 34 + 16 * 32.
(** FULL_FLOATING_POINT_REGISTER_PACK is off. *)
Definition REGISTER_CONTEXT_SIZE : Z := SIZEOF_DobbyRegisterContext - 24 * 16.

(** The code of closure_bridge_arm64.cc. *)
Definition closure_bridge_code (common_closure_bridge_handler : Z) : AM unit :=
  (* save {q0-q7} *)
  _ ← sub SP SP (8 * 16);
  _ ← stp (Qr 6) (Qr 7) (MEM SP (6 * 16));
  _ ← stp (Qr 4) (Qr 5) (MEM SP (4 * 16));
  _ ← stp (Qr 2) (Qr 3) (MEM SP (2 * 16));
  _ ← stp (Qr 0) (Qr 1) (MEM SP (0 * 16));
  (* save {x1-x30} *)
  _ ← sub SP SP (30 * 8);
  _ ← stp (Xr 29) (Xr 30) (MEM SP (28 * 8));
  _ ← stp (Xr 27) (Xr 28) (MEM SP (26 * 8));
  _ ← stp (Xr 25) (Xr 26) (MEM SP (24 * 8));
  _ ← stp (Xr 23) (Xr 24) (MEM SP (22 * 8));
  _ ← stp (Xr 21) (Xr 22) (MEM SP (20 * 8));
  _ ← stp (Xr 19) (Xr 20) (MEM SP (18 * 8));
  _ ← stp (Xr 17) (Xr 18) (MEM SP (16 * 8));
  _ ← stp (Xr 15) (Xr 16) (MEM SP (14 * 8));
  _ ← stp (Xr 13) (Xr 14) (MEM SP (12 * 8));
  _ ← stp (Xr 11) (Xr 12) (MEM SP (10 * 8));
  _ ← stp (Xr 9) (Xr 10) (MEM SP (8 * 8));
  _ ← stp (Xr 7) (Xr 8) (MEM SP (6 * 8));
  _ ← stp (Xr 5) (Xr 6) (MEM SP (4 * 8));
  _ ← stp (Xr 3) (Xr 4) (MEM SP (2 * 8));
  _ ← stp (Xr 1) (Xr 2) (MEM SP (0 * 8));
  (* save {x0} *)
  _ ← sub SP SP (2 * 8);
  _ ← str (Xr 0) (MEM SP 8);
  (* calculate original sp *)
  _ ← add TMP_REG_0 SP (2 * 8);
  _ ← add TMP_REG_0 TMP_REG_0 (2 * 8 + 30 * 8 + 8 * 16);
  (* alloc stack, store original sp *)
  _ ← sub SP SP (2 * 8);
  _ ← str TMP_REG_0 (MEM SP 8);
  (* create function arm64 call convention *)
  _ ← mov (Xr 0) SP;
  _ ← ldr (Xr 1) (MEM SP (REGISTER_CONTEXT_SIZE + 0));
  _ ← CallFunction common_closure_bridge_handler;
  (* restore sp placeholder stack *)
  _ ← add SP SP (2 * 8);
  (* restore {x0} *)
  _ ← ldr (Xr 0) (MEM SP 8);
  _ ← add SP SP (2 * 8);
  (* restore {x1-x30} *)
  _ ← ldp (Xr 1) (Xr 2) (MEM_EXT SP 16 PostIndex);
  _ ← ldp (Xr 3) (Xr 4) (MEM_EXT SP 16 PostIndex);
  _ ← ldp (Xr 5) (Xr 6) (MEM_EXT SP 16 PostIndex);
  _ ← ldp (Xr 7) (Xr 8) (MEM_EXT SP 16 PostIndex);
  _ ← ldp (Xr 9) (Xr 10) (MEM_EXT SP 16 PostIndex);
  _ ← ldp (Xr 11) (Xr 12) (MEM_EXT SP 16 PostIndex);
  _ ← ldp (Xr 13) (Xr 14) (MEM_EXT SP 16 PostIndex);
  _ ← ldp (Xr 15) (Xr 16) (MEM_EXT SP 16 PostIndex);
  _ ← ldp (Xr 17) (Xr 18) (MEM_EXT SP 16 PostIndex);
  _ ← ldp (Xr 19) (Xr 20) (MEM_EXT SP 16 PostIndex);
  _ ← ldp (Xr 21) (Xr 22) (MEM_EXT SP 16 PostIndex);
  _ ← ldp (Xr 23) (Xr 24) (MEM_EXT SP 16 PostIndex);
  _ ← ldp (Xr 25) (Xr 26) (MEM_EXT SP 16 PostIndex);
  _ ← ldp (Xr 27) (Xr 28) (MEM_EXT SP 16 PostIndex);
  _ ← ldp (Xr 29) (Xr 30) (MEM_EXT SP 16 PostIndex);
  (* restore {q0-q7} *)
  _ ← ldp (Qr 0) (Qr 1) (MEM_EXT SP 32 PostIndex);
  _ ← ldp (Qr 2) (Qr 3) (MEM_EXT SP 32 PostIndex);
  _ ← ldp (Qr 4) (Qr 5) (MEM_EXT SP 32 PostIndex);
  _ ← ldp (Qr 6) (Qr 7) (MEM_EXT SP 32 PostIndex);
  (* return to closure trampoline *)
  ret.

(** ClosureTrampolineARM64.cc up to the second literal, whose value is asked
    for after its label is bound. *)
Definition closure_trampoline_code (tramp_entry : Z) : AM unit :=
  entry_label ← new_AssemblerPseudoLabel;
  forward_bridge_label ← new_AssemblerPseudoLabel;
  (* prologue: alloc stack, store lr *)
  _ ← sub SP SP (2 * 8);
  _ ← str (Xr 30) (MEM SP 8);
  (* store data at stack *)
  _ ← Ldr TMP_REG_0 entry_label;
  _ ← str TMP_REG_0 (MEM SP 0);
  _ ← Ldr TMP_REG_0 forward_bridge_label;
  _ ← blr TMP_REG_0;
  (* epilogue: release stack *)
  _ ← ldr (Xr 30) (MEM SP 8);
  _ ← add SP SP (2 * 8);
  (* branch to next hop *)
  _ ← br TMP_REG_0;
  _ ← PseudoBind entry_label;
  _ ← EmitInt64 tramp_entry;
  PseudoBind forward_bridge_label.

Section instrument.
Context {os : OS} {proc : Process}.

Definition get_closure_bridge : IM Z :=
  bridge ← gets closure_bridge;
  if truthy bridge then mret bridge
  else
    '(_, turbo_assembler_) ← on_dobby (run_asm (closure_bridge_code common_closure_bridge_handler_ptr) (asm_new 0));
    code ← on_dobby (FinalizeFromTurboAssembler turbo_assembler_);
    _ ← set_closure_bridge (block_addr code);
    mret (block_addr code).

(** The new entry, whose fields are written at the end. *)
Definition new_ClosureTrampolineEntry : IM nat :=
  s ← get;
  _ ← put (set_closure_entries (closure_entries s ++ [mkClosureEntry 0 0 instrument_routing_dispatch_ptr 0]) s);
  mret (length (closure_entries s)).

Definition CreateClosureTrampoline (carry_data : nat) (carry_handler : routing_handler_t) : IM nat :=
  tramp_entry ← new_ClosureTrampolineEntry;
  '(_, turbo_assembler_) ← on_dobby (run_asm (closure_trampoline_code (closure_entry_ptr tramp_entry)) (asm_new 0));
  bridge ← get_closure_bridge;
  '(_, turbo_assembler_) ← on_dobby (run_asm (EmitInt64 bridge) turbo_assembler_);
  closure_tramp ← on_dobby (FinalizeFromTurboAssembler turbo_assembler_);
  let entry := mkClosureEntry (block_addr closure_tramp) (sint 32 (block_size closure_tramp)) carry_handler carry_data in
  _ ← modify (λ s, set_closure_entries (<[tramp_entry := entry]> (closure_entries s)) s);
  mret tramp_entry.

(** ** InstructionInstrumentRouting *)

Definition get_routing (r : nat) : IM InstructionInstrumentRouting :=
  s ← get; lift_opt Undefined (routings s !! r).
Definition put_routing (r : nat) (x : InstructionInstrumentRouting) : IM unit :=
  modify (λ s, set_routings (<[r := x]> (routings s)) s).
Definition get_closure_entry (i : nat) : IM ClosureTrampolineEntry :=
  s ← get; lift_opt Undefined (closure_entries s !! i).

(** A method of the base class, on the [r]th routing. *)
Definition on_base {A} (r : nat) (f : routing → DM (A * routing)) : IM A :=
  x ← get_routing r;
  '(a, b) ← on_dobby (f (base x));
  _ ← put_routing r (set_base b x);
  mret a.

Definition BuildRouting_instrument (r : nat) : IM unit :=
  closure_trampoline ← CreateClosureTrampoline r instrument_routing_dispatch_ptr;
  e ← get_closure_entry closure_trampoline;
  _ ← on_base r (λ b, mret (tt, SetTrampolineTarget (address e) b));
  on_base r (λ b,
    let from := patched_addr (entry_ b) in
    let to := trampoline_target_ b in
    b ← GenerateTrampolineBuffer b from to;
    mret (tt, b)).

Definition DispatchRouting_instrument (r : nat) : IM unit :=
  _ ← BuildRouting_instrument r;
  _ ← on_base r GenerateRelocatedCode;
  mret tt.

(** ** DobbyInstrument *)

Definition DobbyInstrument (address pre_handler : Z) : IM Z :=
  if address =? 0 then mret RS_FAILED
  else
    let page_align_address := ALIGN_FLOOR address PageSize in
    ok ← on_dobby (OSMemory_SetPermission page_align_address PageSize kReadExecute);
    if negb ok then mret RS_FAILED
    else
      entry ← on_dobby (Interceptor_find address);
      match entry with
      | Some _ => mret RS_FAILED
      | None =>
          entry ← on_dobby (InterceptEntry_new kInstructionInstrument address);
          s ← get;
          _ ← put (set_routings (routings s ++ [InstructionInstrumentRouting_new entry pre_handler 0]) s);
          let routing := length (routings s) in
          _ ← DispatchRouting_instrument routing;
          x ← get_routing routing;
          _ ← on_dobby (Commit (base x));
          _ ← on_dobby (Interceptor_add (entry_ (base x)));
          mret RS_SUCCESS
      end.

(** ** The C side of the handler *)

(** The place of a register in the context. *)
Definition general_x (ctx i : Z) : Z := ctx ⊕ (24 + 8 * i).

Definition on_process_memory {A} (c : CM memory A) : IM A := on_dobby (on_memory c).

Definition set_routing_bridge_next_hop (ctx address : Z) : CM memory unit :=
  store 8 (general_x ctx ARM64_TMP_REG_NDX_0) address.

Definition instrument_forward_handler (entry : nat) (ctx : Z) : IM unit :=
  routing ← get_routing entry;
  let entry_ := entry_ (base routing) in
  _ ← when (truthy (pre_handler routing))
        (on_process_memory (call_handler (pre_handler routing) (patched_addr entry_) ctx));
  on_process_memory (set_routing_bridge_next_hop ctx (relocated_addr entry_)).

Definition instrument_routing_dispatch (entry : nat) (ctx : Z) : IM unit := instrument_forward_handler entry ctx.

(** The index of the entry at an address. *)
Definition find_closure_entry (p : Z) (s : instruments) : option nat :=
  List.find (λ i, closure_entry_ptr i =? p) (seq 0 (length (closure_entries s))).

Definition common_closure_bridge_handler (ctx entry : Z) : IM unit :=
  i ← gets (find_closure_entry entry);
  i ← lift_opt Undefined i;
  entry ← get_closure_entry i;
  match carry_handler entry with
  | instrument_routing_dispatch_ptr => instrument_routing_dispatch (carry_data entry) ctx
  end.

End instrument.
