(* ===== verification/A64Frame.v ===== *)
(** * Code that works on the stack

    Not of the program: the semantics of the instructions that save and restore
    registers, after Arm's manual, as an instance of the instructions that
    A64Spec leaves to a parameter, and a symbolic evaluator for straight-line
    code of this kind, with its soundness.  The memory is what it was, with a
    list of writes below an address. *)

From S2P Require Import Prelude CMem DobbyBits DobbyMem A64Asm A64Reloc A64Spec A64Layout A64Bind A64Sim A64Run.

#[local] Open Scope cint_scope.

(** ** Instructions *)

Inductive sinsn : Set :=
  | SSubImm (rd rn imm : Z)                        (* SUB (immediate), 64-bit *)
  | SStr (rt rn off : Z)                           (* STR (unsigned offset), 64-bit *)
  | SStp (q : bool) (rt rt2 rn off : Z)            (* STP (signed offset), X or Q *)
  | SLdp (q : bool) (rt rt2 rn off : Z)            (* LDP (post-index), X or Q *)
  | SRet (rn : Z).

Definition decode_stack (w : Z) : option sinsn :=
  let pair f := f (field w 0 5) (field w 10 5) (field w 5 5) in
  if (field w 23 9 =? 418) && (field w 22 1 =? 0) then Some (SSubImm (field w 0 5) (field w 5 5) (field w 10 12))
  else if field w 22 10 =? 996 then Some (SStr (field w 0 5) (field w 5 5) (8 * field w 10 12))
  else if field w 22 10 =? 676 then Some (pair (SStp false) (8 * sfield w 15 7))
  else if field w 22 10 =? 692 then Some (pair (SStp true) (16 * sfield w 15 7))
  else if field w 22 10 =? 675 then Some (pair (SLdp false) (8 * sfield w 15 7))
  else if field w 22 10 =? 691 then Some (pair (SLdp true) (16 * sfield w 15 7))
  else if (field w 10 22 =? 3512256) && (field w 0 5 =? 0) then Some (SRet (field w 5 5))
  else None.

(** Any word of the code. *)
Definition decode_any (w : Z) : ainsn + sinsn :=
  match decode w with
  | AOther w' => match decode_stack w' with Some i => inr i | None => inl (AOther w') end
  | i => inl i
  end.

(** The machine has vector registers of 128 bits and a rest [W]. *)
Section machine.
Context {W : Type} (exec_more : Z → cpu ((Z → Z) * W) → option (option Z * cpu ((Z → Z) * W))).
Local Abbreviation machine := (cpu ((Z → Z) * W)).
Implicit Types s t : machine.

Definition qreg s : Z → Z := (other s).1.
Definition set_mem_cpu (m : memory) s : machine := mkCpu (xreg s) (spreg s) (flags s) (pc s) m (other s).
Definition wr_q (r v : Z) s : machine :=
  mkCpu (xreg s) (spreg s) (flags s) (pc s) (mem s) (λ r', if r' =? r then v else qreg s r', (other s).2).

Definition width (q : bool) : nat := if q then 16 else 8.
Definition rd_reg (q : bool) s (r : Z) : Z := if q then qreg s r else rd_x s r.
Definition wr_reg (q : bool) (r v : Z) s : machine := if q then wr_q r v s else wr_x r v s.

Definition store_reg (q : bool) (r a : Z) s : option machine :=
  let a := u64 a in
  if allows PROT_WRITE (width q) a (mem s) then Some (set_mem_cpu (write_number (width q) a (rd_reg q s r) (mem s)) s) else None.
Definition load_num (q : bool) (a : Z) s : option Z :=
  let a := u64 a in
  if allows PROT_READ (width q) a (mem s) then Some (number_of (mem s) (width q) a) else None.

Definition exec_stack (i : sinsn) s : option (option Z * machine) :=
  match i with
  | SSubImm rd rn imm => Some (None, wr_sp rd (rd_sp s rn - imm) s)
  | SStr rt rn off => s ← store_reg false rt (rd_sp s rn + off) s; Some (None, s)
  | SStp q rt rt2 rn off =>
      let a := rd_sp s rn + off in
      s ← store_reg q rt a s;
      s ← store_reg q rt2 (a + Z.of_nat (width q)) s;
      Some (None, s)
  | SLdp q rt rt2 rn off =>
      let a := rd_sp s rn in
      v ← load_num q a s;
      v2 ← load_num q (a + Z.of_nat (width q)) s;
      Some (None, wr_sp rn (a + off) (wr_reg q rt2 v2 (wr_reg q rt v s)))
  | SRet rn => Some (Some (rd_x s rn), s)
  end.

Definition exec_other (w : Z) s : option (option Z * machine) :=
  match decode_stack w with Some i => exec_stack i s | None => exec_more w s end.

(** ** Runs *)

Definition goes s t : Prop := ∃ n, steps exec_other n s = Some t.

#[global] Instance goes_preorder : PreOrder goes.
Proof using Type.
  split; [by intros s; exists 0%nat|]. intros s t u [n H1] [k H2]. exists (n + k)%nat. by eapply steps_add.
Qed.

Lemma goes_one s t : step exec_other s = Some t → goes s t.
Proof using Type. intros H. exists 1%nat. cbn. by rewrite H. Qed.

Lemma goes_exec a ws (i : nat) w s t :
  code_at (mem s) a ws → ws !! i = Some w → pc s = a + 4 * Z.of_nat i → exec exec_other (decode w) s = Some t → goes s t.
Proof using Type.
  intros Hc Hi Hp He. apply goes_one. destruct (Hc i w Hi) as (X & _ & N). unfold step. by rewrite Hp, X, N.
Qed.

End machine.

(** ** Writes below an address *)

(** A write: its size, its place against the address, its value; the last one
    comes first. *)
Record put_at : Set := PutAt { pa_n : nat; pa_off : Z; pa_v : Z }.
Fixpoint writes (base : Z) (l : list put_at) (m : memory) : memory :=
  match l with
  | [] => m
  | PutAt n off v :: l => write_number n (base + off) v (writes base l m)
  end.

(** The value of the [n] bytes at [off], if one write made them. *)
Fixpoint find_put (l : list put_at) (n : nat) (off : Z) : option Z :=
  match l with
  | [] => None
  | PutAt n' off' v :: l =>
      if bool_decide (n' = n) && (off' =? off) then Some v
      else if (off' + Z.of_nat n' <=? off) || (off + Z.of_nat n <=? off') then find_put l n off
      else None
  end.

Lemma find_put_read base l m n off v :
  find_put l n off = Some v → number_of (writes base l m) n (base + off) = v mod 256 ^ Z.of_nat n.
Proof.
  induction l as [|[n' off' v'] l IH]; [done|]. cbn [find_put writes].
  destruct (bool_decide (n' = n) && (off' =? off)) eqn:E.
  - apply andb_true_iff in E as [->%bool_decide_eq_true ->%Z.eqb_eq]. intros [= ->]. apply number_of_write_eq.
  - destruct ((off' + Z.of_nat n' <=? off) || (off + Z.of_nat n <=? off')) eqn:D; [|done]. intros H.
    rewrite number_of_write_ne; [by apply IH|]. apply orb_true_iff in D as [D%Z.leb_le|D%Z.leb_le]; lia.
Qed.

(** All writes lie in [base - size, base). *)
Definition within (size : Z) (l : list put_at) : Prop := Forall (λ p, - size ≤ pa_off p ∧ pa_off p + Z.of_nat (pa_n p) ≤ 0) l.

Lemma writes_allows p n a base l m : allows p n a (writes base l m) = allows p n a m.
Proof. induction l as [|[n' off v] l IH]; [done|]. cbn [writes]. by rewrite allows_write. Qed.

Lemma writes_byte base size l m b :
  within size l → b < base - size ∨ base ≤ b → byte_of (writes base l m) b = byte_of m b.
Proof.
  induction 1 as [|[n off v] l [H1 H2] Hl IH]; [done|]. intros Hb. cbn [writes pa_off pa_n] in *.
  rewrite byte_of_write_ne by lia. by apply IH.
Qed.

Lemma writes_code base size l m a ws :
  within size l → a + 4 * Z.of_nat (length ws) ≤ base - size ∨ base ≤ a → code_at m a ws → code_at (writes base l m) a ws.
Proof.
  intros Hl Ha Hc i w Hi. pose proof (lookup_lt_Some _ _ _ Hi). destruct (Hc i w Hi) as (H1 & H2 & H3).
  rewrite !writes_allows. split_and!; [done..|]. rewrite <- H3. apply number_of_ext. intros b Hb.
  apply (writes_byte _ size); [done|lia].
Qed.

(** ** The evaluator *)

Definition upd (x : Z → Z) (r v : Z) : Z → Z := λ r', if r' =? r then v else x r'.

(** Registers, the stack pointer against the address, the writes, the vector
    registers. *)
Record frame : Type := Frame { fr_x : Z → Z; fr_sp : Z; fr_l : list put_at; fr_q : Z → Z }.

Section frame.
Context {W : Type} (exec_more : Z → cpu ((Z → Z) * W) → option (option Z * cpu ((Z → Z) * W))).
Context (base size : Z) (m : memory) (f : nzcv) (rest : W).
Context (Hbase : 0 ≤ base - size ∧ base < 2 ^ 63).
Context (Hwrite : ∀ b, base - size ≤ b < base → byte_allows PROT_WRITE m b = true).
Context (Hread : ∀ b, base - size ≤ b < base → byte_allows PROT_READ m b = true).
Local Abbreviation goes := (goes exec_more).

Definition cpu_of (st : frame) (p : Z) : cpu ((Z → Z) * W) :=
  mkCpu (fr_x st) (base + fr_sp st) f p (writes base (fr_l st) m) (fr_q st, rest).

Definition fr_reg (q : bool) (st : frame) (r : Z) : Z :=
  if q then fr_q st r else if r =? 31 then 0 else fr_x st r.
Definition fr_base (st : frame) (r : Z) : Z := if r =? 31 then base + fr_sp st else fr_x st r.
Definition fr_set (q : bool) (r v : Z) (st : frame) : frame :=
  if q then Frame (fr_x st) (fr_sp st) (fr_l st) (upd (fr_q st) r v)
  else if r =? 31 then st else Frame (upd (fr_x st) r (u64 v)) (fr_sp st) (fr_l st) (fr_q st).
Definition fr_move (sp : Z) (st : frame) : frame := Frame (fr_x st) sp (fr_l st) (fr_q st).
Definition fr_put (q : bool) (off v : Z) (st : frame) : frame :=
  Frame (fr_x st) (fr_sp st) (PutAt (width q) off v :: fr_l st) (fr_q st).
Definition fr_read (q : bool) (off : Z) (st : frame) : Z :=
  match find_put (fr_l st) (width q) off with
  | Some v => v mod 256 ^ Z.of_nat (width q)
  | None => number_of (writes base (fr_l st) m) (width q) (base + off)
  end.
(** [n] bytes at [off] are in the frame. *)
Definition fits (off : Z) (n : nat) : bool := (- size <=? off) && (off + Z.of_nat n <=? 0).

Definition sym (i : ainsn + sinsn) (st : frame) : option frame :=
  match i with
  | inl (AAddImm rd rn imm) =>
      if rd =? 31 then
        if (rn =? 31) && fits (fr_sp st + imm) 0 then Some (fr_move (fr_sp st + imm) st) else None
      else Some (fr_set false rd (fr_base st rn + imm) st)
  | inl (AMovWide false rd hw imm) => Some (fr_set false rd (imm << (16 * hw)) st)
  | inl (AMovWide true rd hw imm) => Some (fr_set false rd (set_bits (fr_reg false st rd) (16 * hw) (16 * hw + 15) imm) st)
  | inl (ALdrImm rt rn off) =>
      let off := fr_sp st + off in
      if (rn =? 31) && fits off 8 then Some (fr_set false rt (fr_read false off st) st) else None
  | inr (SSubImm rd rn imm) =>
      if (rd =? 31) && (rn =? 31) && fits (fr_sp st - imm) 0 then Some (fr_move (fr_sp st - imm) st) else None
  | inr (SStr rt rn off) =>
      let off := fr_sp st + off in
      if (rn =? 31) && fits off 8 then Some (fr_put false off (fr_reg false st rt) st) else None
  | inr (SStp q rt rt2 rn off) =>
      let off := fr_sp st + off in
      let off2 := off + Z.of_nat (width q) in
      if (rn =? 31) && fits off (width q) && fits off2 (width q)
      then Some (fr_put q off2 (fr_reg q st rt2) (fr_put q off (fr_reg q st rt) st)) else None
  | inr (SLdp q rt rt2 rn off) =>
      let off2 := fr_sp st + Z.of_nat (width q) in
      if (rn =? 31) && fits (fr_sp st) (width q) && fits off2 (width q) && fits (fr_sp st + off) 0
      then Some (fr_move (fr_sp st + off) (fr_set q rt2 (fr_read q off2 st) (fr_set q rt (fr_read q (fr_sp st) st) st)))
      else None
  | _ => None
  end.

Lemma fits_range off n : fits off n = true → - size ≤ off ∧ off + Z.of_nat n ≤ 0.
Proof using Type. unfold fits. lia. Qed.

Lemma frame_allows p n off l :
  (∀ b, base - size ≤ b < base → byte_allows p m b = true) → fits off n = true →
  allows p n (base + off) (writes base l m) = true.
Proof using Type.
  intros Hp [H1 H2]%fits_range. rewrite writes_allows. apply allows_all. intros b Hb. apply Hp. lia.
Qed.

Lemma fr_read_number q off st : fr_read q off st = number_of (writes base (fr_l st) m) (width q) (base + off).
Proof using Type.
  unfold fr_read. destruct (find_put _ _ off) as [v|] eqn:H; [|done]. by rewrite (find_put_read _ _ _ _ _ _ H).
Qed.

Lemma store_reg_put q r off st p :
  fits off (width q) = true →
  store_reg q r (base + off) (cpu_of st p) = Some (cpu_of (fr_put q off (fr_reg q st r) st) p).
Proof using Hbase Hwrite.
  intros Hf. pose proof (fits_range _ _ Hf). unfold store_reg. cbn [mem cpu_of].
  rewrite (wrap_small 64) by lia. rewrite (frame_allows _ _ _ _ Hwrite Hf). by destruct q.
Qed.

Lemma load_num_read q off st p :
  fits off (width q) = true → load_num q (base + off) (cpu_of st p) = Some (fr_read q off st).
Proof using Hbase Hread.
  intros Hf. pose proof (fits_range _ _ Hf). unfold load_num. cbn [mem cpu_of].
  rewrite (wrap_small 64) by lia. rewrite (frame_allows _ _ _ _ Hread Hf), fr_read_number. done.
Qed.

Lemma wr_reg_set q r v st p : wr_reg q r v (cpu_of st p) = cpu_of (fr_set q r v st) p.
Proof using Type. unfold wr_reg, fr_set, wr_x. destruct q; [done|]. by destruct (r =? 31). Qed.

(** The stack pointer stays inside. *)
Definition good (st : frame) : Prop := - size ≤ fr_sp st ≤ 0 ∧ within size (fr_l st).

Lemma good_put q off v st : good st → fits off (width q) = true → good (fr_put q off v st).
Proof using Type. intros [H1 H2] Hf%fits_range. split; [done|]. by constructor. Qed.
Lemma good_set q r v st : good st → good (fr_set q r v st).
Proof using Type. intros H. unfold fr_set. destruct q; [done|]. by destruct (r =? 31). Qed.
Lemma good_move sp st : good st → fits sp 0 = true → good (fr_move sp st).
Proof using Type. intros [H1 H2] Hf%fits_range. split; [cbn; lia|done]. Qed.

(** Where the next instruction is. *)
Lemma after_next p : 0 ≤ p → p + 4 < 2 ^ 64 → ∀ st, set_pc (p + 4) (cpu_of st p) = cpu_of st (p + 4).
Proof using Type. intros H1 H2 st. unfold set_pc. cbn. by rewrite wrap_small by lia. Qed.

Ltac split_tests := repeat match goal with
  | H : (if ?b then _ else None) = Some _ |- _ => destruct b eqn:?; [|discriminate H]
  | H : _ && _ = true |- _ => apply andb_true_iff in H as [? ?]
  | H : (_ =? _) = true |- _ => apply Z.eqb_eq in H; subst
  | H : Some _ = Some _ |- _ => apply (inj Some) in H; subst
  end.

Lemma sym_sound w st st' p :
  good st → 0 ≤ p → p + 4 < 2 ^ 64 → sym (decode_any w) st = Some st' →
  exec (exec_other exec_more) (decode w) (cpu_of st p) = Some (cpu_of st' (p + 4)) ∧ good st'.
Proof using Hbase Hwrite Hread.
  intros Hg Hp Hp'. pose proof (after_next p Hp Hp') as Hnext. unfold decode_any.
  assert (Hset : ∀ q r v, next (wr_reg q r v (cpu_of st p)) = cpu_of (fr_set q r v st) (p + 4)).
  { intros q r v. rewrite wr_reg_set. apply Hnext. }
  assert (Hsp : ∀ k st q, fits k 0 = true → wr_sp 31 (base + k) (cpu_of st q) = cpu_of (fr_move k st) q).
  { intros k st1 q Hk%fits_range. unfold wr_sp, cpu_of. cbn. by rewrite wrap_small by lia. }
  destruct (decode w) as [| | | | | | |link rn|keep rd hw imm|rt rn off|rd rn imm| |w'] eqn:Hd; cbn [sym]; try done.
  - destruct keep; intros <-%(inj Some); (split; [exact (f_equal Some (Hset false rd _))|by apply good_set]).
  - intros H. split_tests. split; [|by apply good_set]. cbn [exec]. unfold load_x.
    change (rd_sp (cpu_of st p) 31) with (base + fr_sp st). cbn [mem cpu_of].
    match goal with H : fits _ 8 = true |- _ => pose proof (fits_range _ _ H); rename H into Hf end.
    rewrite <- Z.add_assoc, (wrap_small 64) by lia. rewrite (frame_allows _ _ _ _ Hread Hf).
    change 8%nat with (width false). rewrite <- fr_read_number. exact (f_equal Some (Hset false rt _)).
  - destruct (Z.eqb_spec rd 31) as [->|Hrd].
    + intros H. split_tests. split; [|by apply good_move]. cbn [exec]. change (rd_sp (cpu_of st p) 31) with (base + fr_sp st).
      rewrite <- Z.add_assoc, Hsp by done. f_equal. apply Hnext.
    + intros <-%(inj Some). split; [|by apply good_set]. cbn [exec]. unfold wr_sp. rewrite (proj2 (Z.eqb_neq rd 31)) by done.
      change (rd_sp (cpu_of st p) rn) with (fr_base st rn). exact (f_equal Some (Hset false rd _)).
  - destruct (decode_stack w') as [i|] eqn:Hs; [|done]. intros H.
    assert (E : exec (exec_other exec_more) (AOther w') (cpu_of st p) =
      '(target, s') ← exec_stack i (cpu_of st 0); Some (set_pc (default (p + 4) target) s')).
    { cbn [exec]. unfold exec_other. by rewrite Hs. }
    rewrite E. clear E Hs Hd.
    assert (Hback : ∀ st1, Some (set_pc (p + 4) (cpu_of st1 0)) = Some (cpu_of st1 (p + 4))).
    { intros st1. unfold set_pc, cpu_of. cbn. by rewrite wrap_small by lia. }
    destruct i as [rd rn imm|rt rn off|q rt rt2 rn off|q rt rt2 rn off|rn]; [| | | |done]; cbn [sym] in H; split_tests;
      cbn [exec_stack]; change (rd_sp (cpu_of st 0) 31) with (base + fr_sp st).
    + split; [|by apply good_move]. replace (base + fr_sp st - imm) with (base + (fr_sp st - imm)) by lia.
      rewrite Hsp by done. apply Hback.
    + split; [|by apply good_put]. rewrite <- Z.add_assoc, store_reg_put by done. apply Hback.
    + split; [|by do 2 (apply good_put; [|done])].
      rewrite <- (Z.add_assoc base (fr_sp st) off), <- (Z.add_assoc base (fr_sp st + off)).
      rewrite store_reg_put by done. cbn [mbind option_bind]. rewrite store_reg_put by done.
      change (fr_reg q (fr_put q (fr_sp st + off) (fr_reg q st rt) st) rt2) with (fr_reg q st rt2). apply Hback.
    + split; [|by apply good_move; [do 2 apply good_set|]].
      rewrite <- (Z.add_assoc base (fr_sp st) off), <- (Z.add_assoc base (fr_sp st) (Z.of_nat (width q))), !load_num_read by done. cbn [mbind option_bind]. rewrite !wr_reg_set, Hsp by done. apply Hback.
Qed.

Fixpoint symN (code : list (ainsn + sinsn)) (st : frame) : option frame :=
  match code with
  | [] => Some st
  | i :: code => match sym i st with Some st => symN code st | None => None end
  end.

(** A run through words that the evaluator knows. *)
Lemma symN_goes a ws code (i : nat) st st' :
  code_at m a ws → 0 ≤ a → a + 4 * Z.of_nat (length ws) < 2 ^ 64 → a + 4 * Z.of_nat (length ws) ≤ base - size ∨ base ≤ a →
  take (length code) (drop i (decode_any <$> ws)) = code → good st → symN code st = Some st' →
  goes (cpu_of st (a + 4 * Z.of_nat i)) (cpu_of st' (a + 4 * Z.of_nat (i + length code))) ∧ good st'.
Proof using Hbase Hwrite Hread.
  intros Hc Ha Ha' Haway. revert i st. induction code as [|x code IH]; intros i st Htake Hg Hs.
  { injection Hs as <-. rewrite Nat.add_0_r. by split. }
  cbn [symN] in Hs. destruct (sym x st) as [st1|] eqn:Hx; [|done].
  cbn [length] in Htake. destruct (drop i (decode_any <$> ws)) as [|y l] eqn:Hdrop; [done|]. injection Htake as -> Htake.
  assert (Hi : (decode_any <$> ws) !! i = Some x).
  { rewrite <- (Nat.add_0_r i), <- lookup_drop, Hdrop. done. }
  apply list_lookup_fmap_Some_1 in Hi as (w & -> & Hi). pose proof (lookup_lt_Some _ _ _ Hi).
  destruct (sym_sound w st st1 (a + 4 * Z.of_nat i) Hg ltac:(lia) ltac:(lia) Hx) as [He Hg1].
  destruct (IH (S i) st1) as [Hgo Hg']; [|done|done|].
  { rewrite <- Htake at 2. f_equal. by rewrite <- (Nat.add_1_r i), <- drop_drop, Hdrop. }
  split; [|done]. transitivity (cpu_of st1 (a + 4 * Z.of_nat (S i))).
  - eapply goes_exec; [|exact Hi|done|].
    + cbn [mem cpu_of]. by apply (writes_code _ size); [apply Hg| |].
    + rewrite He. do 2 f_equal. lia.
  - replace (i + length (decode_any w :: code))%nat with (S i + length code)%nat by (cbn; lia). done.
Qed.

(** A literal load from the code, and a branch to a register. *)
Lemma goes_literal a ws (i j : nat) w rt v st :
  code_at m a ws → 0 ≤ a → a + 4 * Z.of_nat (length ws) < 2 ^ 64 → a + 4 * Z.of_nat (length ws) ≤ base - size ∨ base ≤ a →
  good st → ws !! i = Some w → decode w = ALdrLit false 1 rt (4 * (Z.of_nat j - Z.of_nat i)) →
  ws !! j = Some (u32 v) → ws !! (j + 1)%nat = Some (u32 (v / 2 ^ 32)) → 0 ≤ v < 2 ^ 64 →
  goes (cpu_of st (a + 4 * Z.of_nat i)) (cpu_of (fr_set false rt v st) (a + 4 * Z.of_nat (S i))).
Proof using Hbase Hwrite Hread.
  intros Hc Ha Ha' Haway [_ Hl] Hi Hd Hj Hj1 Hv. pose proof (lookup_lt_Some _ _ _ Hi). pose proof (lookup_lt_Some _ _ _ Hj).
  pose proof (writes_code _ _ _ m a ws Hl Haway Hc) as Hc'.
  destruct (code_at_dword _ _ _ _ _ Hc' Hj Hj1 Hv) as [Hr Hn].
  eapply goes_exec; [exact Hc'|exact Hi|done|]. rewrite Hd. unfold exec, load_x. cbn [pc mem cpu_of].
  rewrite (wrap_small 64) by lia. replace (a + 4 * Z.of_nat i + 4 * (Z.of_nat j - Z.of_nat i)) with (a + 4 * Z.of_nat j) by lia.
  rewrite Hr, Hn. change (wr_x rt v ?s) with (wr_reg false rt v s). rewrite wr_reg_set. f_equal.
  replace (a + 4 * Z.of_nat (S i)) with (a + 4 * Z.of_nat i + 4) by lia. rewrite <- (after_next (a + 4 * Z.of_nat i)) by lia.
  done.
Qed.

Lemma at_pc q p st : 0 ≤ p < 2 ^ 64 → set_pc p (cpu_of st q) = cpu_of st p.
Proof using Type. intros Hp. unfold set_pc, cpu_of. cbn [xreg spreg flags mem other]. by rewrite wrap_small. Qed.

Lemma goes_branch a ws (i : nat) w link rn st :
  code_at m a ws → 0 ≤ a → a + 4 * Z.of_nat (length ws) < 2 ^ 64 → a + 4 * Z.of_nat (length ws) ≤ base - size ∨ base ≤ a →
  good st → ws !! i = Some w → decode w = ABranchReg link rn → rn ≠ 31 → 0 ≤ fr_x st rn < 2 ^ 64 →
  goes (cpu_of st (a + 4 * Z.of_nat i))
    (cpu_of (if link then fr_set false 30 (a + 4 * Z.of_nat (S i)) st else st) (fr_x st rn)).
Proof using Type.
  intros Hc Ha Ha' Haway [_ Hl] Hi Hd Hrn Hx.
  eapply goes_exec; [by apply (writes_code _ _ _ m a ws Hl Haway)|exact Hi|done|]. rewrite Hd.
  assert (E : rd_x (cpu_of st (a + 4 * Z.of_nat i)) rn = fr_x st rn)
    by (unfold rd_x; cbn [xreg cpu_of]; by rewrite (proj2 (Z.eqb_neq rn 31))).
  destruct link; cbn [exec]; rewrite E; f_equal.
  - change (wr_x 30 ?v ?s) with (wr_reg false 30 v s). rewrite wr_reg_set. cbn [pc cpu_of].
    replace (a + 4 * Z.of_nat i + 4) with (a + 4 * Z.of_nat (S i)) by lia.
    by apply at_pc.
  - by apply at_pc.
Qed.

(** The return of a procedure. *)
Lemma goes_ret a ws (i : nat) w rn st :
  code_at m a ws → 0 ≤ a → a + 4 * Z.of_nat (length ws) < 2 ^ 64 → a + 4 * Z.of_nat (length ws) ≤ base - size ∨ base ≤ a →
  good st → ws !! i = Some w → decode w = AOther w → decode_stack w = Some (SRet rn) → rn ≠ 31 → 0 ≤ fr_x st rn < 2 ^ 64 →
  goes (cpu_of st (a + 4 * Z.of_nat i)) (cpu_of st (fr_x st rn)).
Proof using Type.
  intros Hc Ha Ha' Haway [_ Hl] Hi Hd Hs Hrn Hx.
  eapply goes_exec; [by apply (writes_code _ _ _ m a ws Hl Haway)|exact Hi|done|]. rewrite Hd. cbn [exec].
  unfold exec_other. rewrite Hs. cbn [exec_stack mbind option_bind default]. unfold rd_x.
  rewrite (proj2 (Z.eqb_neq rn 31)) by done. cbn [xreg cpu_of]. rewrite at_pc by lia. by apply f_equal, at_pc.
Qed.

End frame.
