(* ===== verification/InstrumentCode.v ===== *)
(** * The code of instrumentation

    The words of the closure trampoline and the closure bridge, what a machine
    does that runs them, and what DobbyInstrument makes of the process: the
    handler is called with the registers of the machine, and what it leaves in
    the register context is what the machine goes on with. *)

From S2P Require Import Prelude CMem XhUtil DobbyBits DobbyMem DobbyMemProps DobbyAlloc A64Asm A64Reloc A64Spec A64Layout A64Bind A64Sim A64Run A64RelocProps DobbyHook DobbyHookProps Instrument A64Frame.

#[local] Open Scope cint_scope.

(** ** The words *)

(** Of the bridge: until the call, and behind it. *)
Definition save_words : list Z :=
  [0xd10203ff; 0xad031fe6; 0xad0217e4; 0xad010fe2; 0xad0007e0;
   0xd103c3ff; 0xa90e7bfd; 0xa90d73fb; 0xa90c6bf9; 0xa90b63f7; 0xa90a5bf5; 0xa90953f3; 0xa9084bf1; 0xa90743ef;
   0xa9063bed; 0xa90533eb; 0xa9042be9; 0xa90323e7; 0xa9021be5; 0xa90113e3; 0xa9000be1;
   0xd10043ff; 0xf90007e0; 0x910043f1; 0x91060231; 0xd10043ff; 0xf90007f1; 0x910003e0; 0xf940cbe1].
Definition restore_words : list Z :=
  [0x910043ff; 0xf94007e0; 0x910043ff;
   0xa8c10be1; 0xa8c113e3; 0xa8c11be5; 0xa8c123e7; 0xa8c12be9; 0xa8c133eb; 0xa8c13bed; 0xa8c143ef;
   0xa8c14bf1; 0xa8c153f3; 0xa8c15bf5; 0xa8c163f7; 0xa8c16bf9; 0xa8c173fb; 0xa8c17bfd;
   0xacc107e0; 0xacc10fe2; 0xacc117e4; 0xacc11fe6].
Definition RET30 : Z := 0xd65f03c0.

Definition bridge_words (handler : Z) : list Z :=
  save_words ++ mov_words 17 handler ++ [BLR17] ++ restore_words ++ [RET30].

(** Of the trampoline: until the call of the bridge, and behind it, with the
    address of the entry and of the bridge. *)
Definition closure_words (entry bridge : Z) : list Z :=
  [0xd10043ff; 0xf90007fe; ldr17 28; 0xf90003f1; ldr17 28; BLR17; 0xf94007fe; 0x910043ff; BR17] ++
  dword entry ++ dword bridge.

(** ** What the assembler writes *)

(** [c] appends words to the buffer and does nothing else. *)
Definition puts (c : AM unit) (ws : list Z) : Prop :=
  ∀ a, c a = (Ret tt, set_buffer (buffer_ a ++ words_bytes ws) a).

Lemma puts_bind c (k : AM unit) ws ws' : puts c ws → puts k ws' → puts (_ ← c; k) (ws ++ ws').
Proof.
  intros Hc Hk a. rewrite (CM_bind_Ret _ _ _ _ _ (Hc a)), Hk. unfold set_buffer. cbn [buffer_ realized_addr_ labels data_labels_].
  by rewrite words_bytes_app, app_assoc.
Qed.

Lemma puts_Emit w : puts (Emit w) [u32 w].
Proof. intros a. apply Emit_run. Qed.

Lemma puts_Mov rd v : 0 ≤ v < 2 ^ 64 → puts (Mov (Xr rd) v) (mov_words rd v).
Proof.
  intros Hv. unfold Mov, movz, movk. destruct (half_High v Hv) as (-> & -> & -> & ->).
  rewrite (MoveWide_word rd _ 0 MOVZ 0), (MoveWide_word rd _ 16 MOVK 1), (MoveWide_word rd _ 32 MOVK 2),
    (MoveWide_word rd _ 48 MOVK 3) by done.
  unfold mov_words, movz_word, movk_word.
  change (MoveWideImmediateFixed .| MOVZ .| LeftShift 1 1 31 .| LeftShift 0 2 21) with 0xD2800000.
  change (MoveWideImmediateFixed .| MOVK .| LeftShift 1 1 31) with 0xF2800000.
  pose proof (λ w, puts_Emit (u32 w)) as H. assert (H' : ∀ w, puts (Emit (u32 w)) [u32 w]).
  { intros w. specialize (H w). by rewrite wrap_idem in H. }
  apply (puts_bind _ _ [_] [_; _; _]); [apply H'|]. apply (puts_bind _ _ [_] [_; _]); [apply H'|].
  apply (puts_bind _ _ [_] [_]); apply H'.
Qed.

(** One instruction without variables. *)
Lemma puts_word (c : AM unit) w : (∀ a, c a = Emit w a) → is_word w → puts c [w].
Proof. intros Hc Hw a. rewrite Hc, Emit_run, wrap_small; [done|exact Hw]. Qed.

(** A sequence, one instruction after the other. *)
Lemma puts_cons c (k : AM unit) w ws : puts c [w] → puts k ws → puts (_ ← c; k) (w :: ws).
Proof. apply (puts_bind c k [w] ws). Qed.

Ltac puts_one := apply puts_word; [intros a; vm_compute; reflexivity|by apply is_word_bool].

Lemma closure_bridge_code_puts h : 0 ≤ h < 2 ^ 64 → puts (closure_bridge_code h) (bridge_words h).
Proof.
  intros Hh. unfold closure_bridge_code, bridge_words. rewrite (app_assoc (mov_words 17 h) [BLR17]).
  set (call := mov_words 17 h ++ [BLR17]). unfold save_words, restore_words. cbn [app].
  do 29 (apply puts_cons; [puts_one|]). subst call. apply puts_bind.
  - unfold CallFunction. apply puts_bind; [by apply puts_Mov|puts_one].
  - do 22 (apply puts_cons; [puts_one|]). puts_one.
Qed.

Lemma bridge_words_ok h : Forall is_word (bridge_words h).
Proof.
  unfold bridge_words. rewrite !Forall_app. split_and!; [|apply mov_words_range|..]; repeat constructor; by apply is_word_bool.
Qed.

Lemma closure_words_ok e p : Forall is_word (closure_words e p).
Proof.
  unfold closure_words. rewrite !Forall_app. split_and!; [|apply dword_words..].
  assert (H : is_word (ldr17 28)) by apply (decode_ldr17 7 ltac:(lia)).
  repeat (apply Forall_cons_2; [first [exact H|by apply is_word_bool]|]). apply Forall_nil_2.
Qed.

(** The trampoline: the labels are bound to the places of the two literals. *)
Definition closure_head (second : Z) : list Z :=
  [0xd10043ff; 0xf90007fe; ldr17 28; 0xf90003f1; second; BLR17; 0xf94007fe; 0x910043ff; BR17].

Lemma PseudoBind_words i l a ws k w :
  buffer_ a = words_bytes ws → Forall is_word ws → labels a !! i = Some l →
  ref_label_insts_ l = [mkRef kLabelImm19 0 (4 * Z.of_nat k)] → ws !! k = Some w → 4 * Z.of_nat (length ws) < 2 ^ 63 →
  PseudoBind i a =
    (Ret tt, mkAsm (words_bytes (<[k := encode_imm19_offset w (4 * (Z.of_nat (length ws) - Z.of_nat k))]> ws)) (realized_addr_ a)
       (alter (bind_to (4 * Z.of_nat (length ws))) i (labels a)) (data_labels_ a)).
Proof.
  intros Ha Hws Hi Hr Hk Hmax. pose proof (lookup_lt_Some _ _ _ Hk) as Hlt.
  set (n := 4 * Z.of_nat (length ws)). set (a1 := set_labels (alter (bind_to n) i (labels a)) a).
  assert (Hi1 : labels a1 !! i = Some (bind_to n l)) by (simpl; by rewrite list_lookup_alter_eq, Hi).
  assert (Hsize : GetBufferSize a = (Ret n, a)).
  { unfold GetBufferSize, gets. rewrite Ha, length_words_bytes. unfold n. do 2 f_equal. lia. }
  unfold PseudoBind. rewrite (CM_bind_Ret _ _ _ _ _ Hsize). unfold update_label. rewrite CM_bind_modify. fold a1.
  unfold get_label. rewrite CM_assoc, CM_bind_get, Hi1. cbn [lift_opt]. rewrite CM_left_id.
  unfold has_confused_instructions. cbn [ref_label_insts_ bind_to relocated_pos_]. rewrite Hr. change (negb _) with true. cbn [when].
  cbn [link_confused_instructions offset_ type_].
  rewrite (CM_bind_Ret _ _ _ _ _ (LoadInst_words a1 ws k w Ha Hk (Forall_lookup_1 _ _ _ _ Hws Hk))).
  change (kLabelImm19 =? kLabelImm19) with true. cbv iota zeta.
  rewrite (CM_bind_Ret _ _ _ _ _ (RewriteInst_words a1 ws k w _ Ha Hk)). unfold mret, CM_ret.
  unfold set_buffer. cbn [realized_addr_ labels data_labels_ a1 set_labels]. do 5 f_equal. unfold n, sint.
  rewrite wrap_small, decide_False by lia. lia.
Qed.

Lemma puts_EmitInt64 v : puts (EmitInt64 v) (dword (u64 v)).
Proof. intros a. unfold EmitInt64, Emit64, EmitBuffer, modify, set_buffer. by rewrite le_bytes_dword. Qed.

Lemma closure_trampoline_code_run e p :
  ∃ a1 a, closure_trampoline_code e (asm_new 0) = (Ret tt, a1) ∧ EmitInt64 p a1 = (Ret tt, a) ∧
    buffer_ a = words_bytes (closure_words (u64 e) (u64 p)) ∧ realized_addr_ a = 0.
Proof.
  set (l0 := mkRelocLabel 0 0 [mkRef kLabelImm19 0 8] [] 0). set (l1 := mkRelocLabel 0 0 [mkRef kLabelImm19 0 16] [] 0).
  set (w0 := [0xd10043ff; 0xf90007fe; LDR17; 0xf90003f1; LDR17; BLR17; 0xf94007fe; 0x910043ff; BR17]).
  assert (Hrun : closure_trampoline_code e (asm_new 0) =
    (_ ← PseudoBind 0; _ ← EmitInt64 e; PseudoBind 1) (mkAsm (words_bytes w0) 0 [l0; l1] [])) by reflexivity.
  assert (Hldr : encode_imm19_offset LDR17 28 = ldr17 28) by done.
  assert (Hok : is_word (ldr17 28)) by apply (decode_ldr17 7 ltac:(lia)).
  assert (H0 : Forall is_word w0) by (repeat constructor; by apply is_word_bool).
  set (w1 := [0xd10043ff; 0xf90007fe; ldr17 28; 0xf90003f1; LDR17; BLR17; 0xf94007fe; 0x910043ff; BR17] ++ dword (u64 e)).
  assert (H1 : Forall is_word w1).
  { apply Forall_app. split; [|apply dword_words].
    repeat (apply Forall_cons_2; [first [exact Hok|by apply is_word_bool]|]). apply Forall_nil_2. }
  set (w0' := [0xd10043ff; 0xf90007fe; ldr17 28; 0xf90003f1; LDR17; BLR17; 0xf94007fe; 0x910043ff; BR17]).
  assert (B0 : PseudoBind 0 (mkAsm (words_bytes w0) 0 [l0; l1] []) = (Ret tt, mkAsm (words_bytes w0') 0 [bind_to 36 l0; l1] [])).
  { exact (PseudoBind_words 0 l0 (mkAsm (words_bytes w0) 0 [l0; l1] []) w0 2 LDR17 eq_refl H0 eq_refl eq_refl eq_refl eq_refl). }
  assert (E0 : EmitInt64 e (mkAsm (words_bytes w0') 0 [bind_to 36 l0; l1] []) =
    (Ret tt, mkAsm (words_bytes w1) 0 [bind_to 36 l0; l1] [])).
  { rewrite puts_EmitInt64. unfold set_buffer, w1. by rewrite words_bytes_app. }
  set (w2 := [0xd10043ff; 0xf90007fe; ldr17 28; 0xf90003f1; ldr17 28; BLR17; 0xf94007fe; 0x910043ff; BR17] ++ dword (u64 e)).
  assert (B1 : PseudoBind 1 (mkAsm (words_bytes w1) 0 [bind_to 36 l0; l1] []) =
    (Ret tt, mkAsm (words_bytes w2) 0 [bind_to 36 l0; bind_to 44 l1] [])).
  { exact (PseudoBind_words 1 l1 (mkAsm (words_bytes w1) 0 [bind_to 36 l0; l1] []) w1 4 LDR17 eq_refl H1 eq_refl eq_refl eq_refl eq_refl). }
  eexists _, _. split_and!.
  - rewrite Hrun, (CM_bind_Ret _ _ _ _ _ B0), (CM_bind_Ret _ _ _ _ _ E0). exact B1.
  - apply puts_EmitInt64.
  - unfold set_buffer. cbn [buffer_]. rewrite <- words_bytes_app. unfold w2, closure_words. by rewrite <- app_assoc.
  - done.
Qed.

(** ** What a machine does that runs it *)

Definition save_code : list (ainsn + sinsn) := decode_any <$> save_words.
Definition mov_code (v : Z) : list (ainsn + sinsn) :=
  inl <$> [AMovWide false 17 0 (half v 0); AMovWide true 17 1 (half v 1); AMovWide true 17 2 (half v 2); AMovWide true 17 3 (half v 3)].
Definition restore_code : list (ainsn + sinsn) := decode_any <$> restore_words.

Lemma decode_mov_words v : decode_any <$> mov_words 17 v = mov_code v.
Proof.
  unfold mov_words, mov_code, decode_any. cbn [fmap list_fmap].
  by rewrite decode_movz, (decode_movk _ _ 1), (decode_movk _ _ 2), (decode_movk _ _ 3) by lia.
Qed.

Lemma decode_bridge h :
  decode_any <$> bridge_words h =
    (save_code ++ mov_code h) ++ [inl (ABranchReg true 17)] ++ restore_code ++ [inr (SRet 30)].
Proof. unfold bridge_words. rewrite !fmap_app, decode_mov_words, <- app_assoc. done. Qed.

(** The bytes that the closure and the bridge need below the stack pointer, and
    where they are in it. *)
Definition STACK : Z := 416.

Section run.
Context {W : Type} (exec_more : Z → cpu ((Z → Z) * W) → option (option Z * cpu ((Z → Z) * W))).
Context (S0 : Z) (m : memory) (f : nzcv) (rest : W).
Context (Hbase : 0 ≤ S0 - STACK ∧ S0 < 2 ^ 63).
Context (Hwrite : ∀ b, S0 - STACK ≤ b < S0 → byte_allows PROT_WRITE m b = true).
Context (Hread : ∀ b, S0 - STACK ≤ b < S0 → byte_allows PROT_READ m b = true).
Local Abbreviation goes := (goes exec_more).
Local Abbreviation cpu_of := (cpu_of S0 m f rest).
Local Abbreviation good := (good STACK).

(** Code that does not move and that the stack is apart from. *)
Record code_in (a : Z) (ws : list Z) : Prop := {
  ci_code : code_at m a ws;
  ci_low : 0 ≤ a;
  ci_high : a + 4 * Z.of_nat (length ws) < 2 ^ 63;
  ci_away : a + 4 * Z.of_nat (length ws) ≤ S0 - STACK ∨ S0 ≤ a
}.

Lemma run_code a pre cs post st :
  code_in a (pre ++ cs ++ post) → good st → is_Some (symN S0 STACK m (decode_any <$> cs) st) →
  let st' := default st (symN S0 STACK m (decode_any <$> cs) st) in
  goes (cpu_of st (a + 4 * Z.of_nat (length pre))) (cpu_of st' (a + 4 * Z.of_nat (length pre + length cs))) ∧ good st'.
Proof using Hbase Hwrite Hread.
  intros [Hc H1 H2 H3] Hg [st' Hs]. rewrite Hs. cbn [default].
  pose proof (symN_goes exec_more S0 STACK m f rest Hbase Hwrite Hread a (pre ++ cs ++ post) (decode_any <$> cs)
    (length pre) st st' Hc H1 ltac:(lia) H3) as G. rewrite length_fmap in G. apply G; [|done..].
  rewrite !fmap_app, drop_app_length' by by rewrite length_fmap.
  by rewrite <- (length_fmap decode_any cs), take_app_length.
Qed.

Lemma symN_ok code st : (if symN S0 STACK m code st is Some _ then true else false) = true → is_Some (symN S0 STACK m code st).
Proof using Type. destruct (symN _ _ _ _ _); [eauto|done]. Qed.

Lemma default_eq {A} (d : A) o : is_Some o → o = Some (default d o).
Proof using Type. by intros [x ->]. Qed.

(** *** The bridge, until the call *)

Section bridge.
Context (y q : Z → Z) (e r h : Z) (Hh : 0 ≤ h < 2 ^ 64).

(** As the trampoline leaves the stack: the entry and the register x30. *)
Definition at_bridge : frame := Frame y (-16) [PutAt 8 (-16) e; PutAt 8 (-8) r] q.
Definition bridged : frame := default at_bridge (symN S0 STACK m (save_code ++ mov_code h) at_bridge).

Lemma bridged_eq : symN S0 STACK m (save_code ++ mov_code h) at_bridge = Some bridged.
Proof using Type. apply default_eq, symN_ok. lazy. reflexivity. Qed.

Lemma bridged_sp : fr_sp bridged = - STACK ∧ fr_q bridged = q.
Proof using Type. split; reflexivity. Qed.

Lemma bridged_args :
  fr_x bridged 0 = u64 (S0 + - STACK + 0) ∧ fr_x bridged 1 = u64 (e mod 2 ^ 64) ∧
  fr_x bridged 17 = u64 (set_bits (u64 (set_bits (u64 (set_bits (u64 (half h 0 << 0)) 16 31 (half h 1))) 32 47 (half h 2))) 48 63 (half h 3)) ∧
  find_put (fr_l bridged) 8 (8 - STACK) = Some (u64 (u64 (S0 + -400 + 16) + 384)).
Proof using Type. split_and!; reflexivity. Qed.

Lemma bridged_within : within STACK (fr_l bridged).
Proof using Type.
  assert (H : forallb (λ p, (- STACK <=? pa_off p) && (pa_off p + Z.of_nat (pa_n p) <=? 0)) (fr_l bridged) = true) by (lazy; reflexivity).
  rewrite forallb_forall in H. apply Forall_forall. intros x Hx%list_elem_of_In%H. lia.
Qed.

Lemma bridged_frame : find_put (fr_l bridged) 8 (-8) = Some r.
Proof using Type. reflexivity. Qed.

Lemma bridged_x (k : nat) : (k ≤ 30)%nat → find_put (fr_l bridged) 8 (24 - STACK + 8 * Z.of_nat k) = Some (y (Z.of_nat k)).
Proof using Type. intros Hk. do 31 (destruct k as [|k]; [reflexivity|]). lia. Qed.

Lemma bridged_q (k : nat) : (k < 8)%nat → find_put (fr_l bridged) 16 (272 - STACK + 16 * Z.of_nat k) = Some (q (Z.of_nat k)).
Proof using Type. intros Hk. do 8 (destruct k as [|k]; [reflexivity|]). lia. Qed.

(** All of it, of a frame that does not compute. *)
Record saved_in (st : frame) : Prop := {
  sv_eq : symN S0 STACK m (save_code ++ mov_code h) at_bridge = Some st;
  sv_sp : fr_sp st = - STACK;
  sv_x0 : fr_x st 0 = u64 (S0 + - STACK + 0);
  sv_x1 : fr_x st 1 = u64 (e mod 2 ^ 64);
  sv_x17 : fr_x st 17 =
    u64 (set_bits (u64 (set_bits (u64 (set_bits (u64 (half h 0 << 0)) 16 31 (half h 1))) 32 47 (half h 2))) 48 63 (half h 3));
  sv_within : within STACK (fr_l st);
  sv_own_sp : find_put (fr_l st) 8 (8 - STACK) = Some (u64 (u64 (S0 + -400 + 16) + 384));
  sv_x30 : find_put (fr_l st) 8 (-8) = Some r;
  sv_x (k : nat) : (k ≤ 30)%nat → find_put (fr_l st) 8 (24 - STACK + 8 * Z.of_nat k) = Some (y (Z.of_nat k));
  sv_q (k : nat) : (k < 8)%nat → find_put (fr_l st) 16 (272 - STACK + 16 * Z.of_nat k) = Some (q (Z.of_nat k))
}.
Lemma bridged_saved : ∃ st, saved_in st.
Proof using Type.
  destruct bridged_args as (A0 & A1 & A17 & Asp). exists bridged. split.
  - exact bridged_eq.
  - exact (proj1 bridged_sp).
  - exact A0.
  - exact A1.
  - exact A17.
  - exact bridged_within.
  - exact Asp.
  - exact bridged_frame.
  - exact bridged_x.
  - exact bridged_q.
Qed.

End bridge.

(** *** Behind the call *)

Section restore.
Context (y q : Z → Z).

(** The handler leaves what it likes in the registers. *)
Definition at_return : frame := Frame y (- STACK) [] q.
Definition restored : frame := default at_return (symN S0 STACK m restore_code at_return).

Lemma restored_eq : symN S0 STACK m restore_code at_return = Some restored.
Proof using Type. apply default_eq, symN_ok. lazy. reflexivity. Qed.

Lemma restored_frame : fr_sp restored = -16 ∧ fr_l restored = [].
Proof using Type. split; reflexivity. Qed.

Lemma restored_x (k : nat) : (k ≤ 30)%nat → fr_x restored (Z.of_nat k) = u64 (number_of m 8 (S0 + (24 - STACK + 8 * Z.of_nat k))).
Proof using Type. intros Hk. do 31 (destruct k as [|k]; [reflexivity|]). lia. Qed.

Lemma restored_q (k : nat) : (k < 8)%nat → fr_q restored (Z.of_nat k) = number_of m 16 (S0 + (272 - STACK + 16 * Z.of_nat k)).
Proof using Type. intros Hk. do 8 (destruct k as [|k]; [reflexivity|]). lia. Qed.

Record restored_in (st : frame) : Prop := {
  re_eq : symN S0 STACK m restore_code at_return = Some st;
  re_frame : fr_sp st = -16 ∧ fr_l st = [];
  re_x (k : nat) : (k ≤ 30)%nat → fr_x st (Z.of_nat k) = u64 (number_of m 8 (S0 + (24 - STACK + 8 * Z.of_nat k)));
  re_q (k : nat) : (k < 8)%nat → fr_q st (Z.of_nat k) = number_of m 16 (S0 + (272 - STACK + 16 * Z.of_nat k))
}.
Lemma restored_ok : ∃ st, restored_in st.
Proof using Type.
  exists restored. split; [exact restored_eq|exact restored_frame|exact restored_x|exact restored_q].
Qed.

End restore.

End run.
