(* ===== verification/InstrumentRun.v ===== *)
(** * A machine that runs the closure

    The trampoline around the bridge: the handler is called with the registers
    of the machine in memory, and what it leaves there is what the machine goes
    on with. *)

From S2P Require Import Prelude CMem DobbyBits DobbyMem A64Asm A64Reloc A64Spec A64Layout A64Bind A64Sim A64Run A64Frame Instrument InstrumentCode.

#[local] Open Scope cint_scope.

(** The value that the four moves put together. *)
Lemma mov_chain h :
  0 ≤ h < 2 ^ 64 →
  u64 (set_bits (u64 (set_bits (u64 (set_bits (u64 (half h 0 << 0)) 16 31 (half h 1))) 32 47 (half h 2))) 48 63 (half h 3)) = h.
Proof.
  intros Hh. change (half h 0 << 0) with (half h 0).
  assert (R0 : 0 ≤ half h 0 < 2 ^ 64) by (pose proof (half_range h 0); lia). rewrite (wrap_small 64 (half h 0)) by done.
  destruct (u64_set_bits (half h 0) 16 (half h 1) R0 ltac:(lia) (half_range _ _)) as [E1 R1].
  destruct (u64_set_bits _ 32 (half h 2) R1 ltac:(lia) (half_range _ _)) as [E2 R2].
  destruct (u64_set_bits _ 48 (half h 3) R2 ltac:(lia) (half_range _ _)) as [E3 _].
  change (16 + 15) with 31 in *. change (32 + 15) with 47 in *. change (48 + 15) with 63 in *.
  rewrite E1, E2, E3. by apply mov_value.
Qed.

Section run.
Context {W : Type} (exec_more : Z → cpu ((Z → Z) * W) → option (option Z * cpu ((Z → Z) * W))).
Context (S0 : Z) (m : memory) (f : nzcv) (rest : W).
Context (Hbase : 0 ≤ S0 - STACK ∧ S0 < 2 ^ 63).
Context (Hwrite : ∀ b, S0 - STACK ≤ b < S0 → byte_allows PROT_WRITE m b = true).
Context (Hread : ∀ b, S0 - STACK ≤ b < S0 → byte_allows PROT_READ m b = true).
Local Abbreviation goes := (goes exec_more).
Local Abbreviation cpu_of := (cpu_of S0 m f rest).
Local Abbreviation good := (good STACK).
Local Abbreviation code_in := (code_in S0 m).
Local Abbreviation run_code := (run_code exec_more S0 m f rest Hbase Hwrite Hread).

Section trampoline.
Context (p e br h : Z) (Hp : code_in p (closure_words e br)) (Hb : code_in br (bridge_words h)).
Context (He : 0 ≤ e < 2 ^ 64) (Hh : 0 ≤ h < 2 ^ 63).

Lemma good_frame x sp l q : - STACK ≤ sp ≤ 0 → within STACK l → good (Frame x sp l q).
Proof using Type. done. Qed.

Lemma br_range : 0 ≤ br ∧ br + 228 < 2 ^ 63 ∧ 0 ≤ p ∧ p + 52 < 2 ^ 63.
Proof using Hp Hb. destruct Hp, Hb. cbn in *. lia. Qed.

(** Until the bridge is called. *)
Lemma trampoline_calls x q :
  ∃ y, goes (cpu_of (Frame x 0 [] q) p) (cpu_of (at_bridge y q e (x 30)) br) ∧
    y 17 = br ∧ y 30 = p + 24 ∧ ∀ r, r ≠ 17 → r ≠ 30 → y r = x r.
Proof using Hbase Hwrite Hread Hp Hb He.
  pose proof br_range as Hr. pose proof Hp as [Hc L1 L2 L3]. cbn in L2, L3.
  pose proof (decode_ldr17 7 ltac:(lia)) as [Hd _]. change (4 * 7) with 28 in Hd.
  set (l1 := [PutAt 8 (-8) (x 30)]). set (y1 := upd x 17 e). set (l2 := PutAt 8 (-16) e :: l1). set (y2 := upd y1 17 br).
  assert (Hs : within STACK l2) by (unfold STACK; repeat constructor; cbn; lia).
  pose proof (Forall_inv_tail Hs) as Hs1. assert (Hw : 0 ≤ br < 2 ^ 64) by lia.
  assert (Hset : ∀ v (z : Z → Z) l, 0 ≤ v < 2 ^ 64 → fr_set false 17 v (Frame z (-16) l q) = Frame (upd z 17 v) (-16) l q).
  { intros v z l Hv. unfold fr_set. cbn [Z.eqb Pos.eqb]. by rewrite wrap_small. }
  exists (upd y2 30 (p + 24)). split_and!; [|done..|].
  - transitivity (cpu_of (Frame x (-16) l1 q) (p + 4 * Z.of_nat 2)).
    { destruct (run_code p [] (take 2 (closure_words e br)) (drop 2 (closure_words e br)) (Frame x 0 [] q) Hp) as [G _];
        [apply good_frame; [unfold STACK; lia|constructor]|apply symN_ok; reflexivity|].
      rewrite Z.add_0_r in G. exact G. }
    transitivity (cpu_of (Frame y1 (-16) l1 q) (p + 4 * Z.of_nat 3)).
    { pose proof (goes_literal exec_more S0 STACK m f rest Hbase Hwrite Hread p _ 2 9 (ldr17 28) 17 e (Frame x (-16) l1 q) Hc L1 ltac:(cbn; lia) L3) as G.
      rewrite Hset in G by done. by apply G. }
    transitivity (cpu_of (Frame y1 (-16) l2 q) (p + 4 * Z.of_nat 4)).
    { destruct (run_code p (take 3 (closure_words e br)) [0xf90003f1] (drop 4 (closure_words e br)) (Frame y1 (-16) l1 q) Hp) as [G _];
        [apply good_frame; [unfold STACK; lia|done]|apply symN_ok; reflexivity|exact G]. }
    transitivity (cpu_of (Frame y2 (-16) l2 q) (p + 4 * Z.of_nat 5)).
    { pose proof (goes_literal exec_more S0 STACK m f rest Hbase Hwrite Hread p _ 4 11 (ldr17 28) 17 br (Frame y1 (-16) l2 q) Hc L1 ltac:(cbn; lia) L3) as G.
      rewrite Hset in G by done. by apply G. }
    pose proof (goes_branch exec_more S0 STACK m f rest p _ 5 BLR17 true 17 (Frame y2 (-16) l2 q) Hc L1 ltac:(cbn; lia) L3) as G.
    unfold fr_set in G. cbn [Z.eqb Pos.eqb fr_x fr_sp fr_l fr_q] in G. rewrite (wrap_small 64) in G by lia.
    by apply G.
  - intros r H17 H30. unfold upd, y2, y1, upd. by rewrite !(proj2 (Z.eqb_neq r _)) by done.
Qed.

(** Through the bridge, to the handler. *)
Lemma save_code_words : save_code ++ mov_code h = decode_any <$> (save_words ++ mov_words 17 h).
Proof using Type. by rewrite fmap_app, decode_mov_words. Qed.

Lemma bridge_split : bridge_words h = [] ++ (save_words ++ mov_words 17 h) ++ ([BLR17] ++ restore_words ++ [RET30]).
Proof using Type. unfold bridge_words. by rewrite (app_assoc save_words). Qed.

Lemma bridge_run st st' :
  good st → symN S0 STACK m (save_code ++ mov_code h) st = Some st' → fr_x st' 17 = h →
  goes (cpu_of st br) (cpu_of (fr_set false 30 (br + 136) st') h).
Proof using Hbase Hwrite Hread Hp Hb He Hh.
  intros Hg Hs Hx. rewrite save_code_words in Hs. pose proof Hb as Hb'. rewrite bridge_split in Hb'.
  pose proof (run_code br _ _ _ st Hb' Hg (mk_is_Some _ _ Hs)) as G. rewrite Hs in G.
  rewrite Z.add_0_r in G. destruct G as [G Hg']. etransitivity; [exact G|].
  pose proof br_range as Hr. pose proof Hb as [Hc L1 L2 L3].
  pose proof (goes_branch exec_more S0 STACK m f rest br _ 33 BLR17 true 17 st' Hc L1 ltac:(cbn; lia) L3 Hg' eq_refl decode_BLR17) as G2.
  rewrite Hx in G2. replace (br + 136) with (br + 4 * Z.of_nat 34) by lia. apply G2; [done|lia].
Qed.

Lemma bridge_calls y q r st :
  saved_in S0 m y q e r h st → goes (cpu_of (at_bridge y q e r) br) (cpu_of (fr_set false 30 (br + 136) st) h).
Proof using Hbase Hwrite Hread Hp Hb He Hh.
  intros Hst. pose proof (sv_x17 _ _ _ _ _ _ _ _ Hst) as H17. rewrite mov_chain in H17 by lia.
  apply bridge_run; [|apply Hst|exact H17].
  apply good_frame; [unfold STACK; lia|unfold STACK; repeat constructor; cbn; lia].
Qed.

(** Behind the call: to the trampoline, and on to where the slot of x17 says. *)
Lemma bridge_split' : bridge_words h = (save_words ++ mov_words 17 h ++ [BLR17]) ++ restore_words ++ [RET30].
Proof using Type. unfold bridge_words. by rewrite <- !app_assoc. Qed.

Lemma bridge_return_run st st' :
  good st → symN S0 STACK m restore_code st = Some st' → 0 ≤ fr_x st' 30 < 2 ^ 64 →
  goes (cpu_of st (br + 136)) (cpu_of st' (fr_x st' 30)).
Proof using Hbase Hwrite Hread Hp Hb.
  intros Hg Hs Hx. pose proof Hb as Hb'. rewrite bridge_split' in Hb'.
  pose proof (run_code br _ _ _ st Hb' Hg (mk_is_Some _ _ Hs)) as G. unfold restore_code in Hs. rewrite Hs in G.
  destruct G as [G Hg']. replace (br + 136) with (br + 4 * Z.of_nat 34) by lia. etransitivity; [exact G|].
  pose proof br_range as Hr. pose proof Hb as [Hc L1 L2 L3].
  by apply (goes_ret exec_more S0 STACK m f rest br _ 56 RET30 30 st' Hc L1 ltac:(cbn; lia) L3 Hg').
Qed.

Lemma trampoline_returns x q :
  0 ≤ x 17 < 2 ^ 64 →
  goes (cpu_of (Frame x (-16) [] q) (p + 24))
    (cpu_of (Frame (upd x 30 (u64 (number_of m 8 (S0 + -8)))) 0 [] q) (x 17)).
Proof using Hbase Hwrite Hread Hp Hb.
  intros Hx. pose proof br_range as Hr. pose proof Hp as [Hc L1 L2 L3]. cbn in L2, L3.
  set (st := Frame (upd x 30 (u64 (number_of m 8 (S0 + -8)))) 0 [] q).
  destruct (run_code p (take 6 (closure_words e br)) [0xf94007fe; 0x910043ff] (drop 8 (closure_words e br)) (Frame x (-16) [] q) Hp) as [G Hg];
    [apply good_frame; [unfold STACK; lia|constructor]|apply symN_ok; reflexivity|].
  replace (p + 24) with (p + 4 * Z.of_nat 6) by lia. etransitivity; [exact G|].
  assert (Hg' : good st) by (apply good_frame; [unfold STACK; lia|constructor]).
  exact (goes_branch exec_more S0 STACK m f rest p _ 8 BR17 false 17 st Hc L1 ltac:(cbn; lia) L3 Hg' eq_refl decode_BR17 ltac:(lia) Hx).
Qed.

Lemma closure_returns_run y q st :
  restored_in S0 m y q st → fr_x st 30 = p + 24 → 0 ≤ fr_x st 17 < 2 ^ 64 →
  goes (cpu_of (at_return y q) (br + 136))
    (cpu_of (Frame (upd (fr_x st) 30 (u64 (number_of m 8 (S0 + -8)))) 0 [] (fr_q st)) (fr_x st 17)).
Proof using Hbase Hwrite Hread Hp Hb.
  intros [Heq [Hsp Hl] _ _] H30 H17. pose proof br_range.
  transitivity (cpu_of st (p + 24)).
  - rewrite <- H30. apply bridge_return_run; [apply good_frame; [unfold STACK; lia|constructor]|exact Heq|lia].
  - destruct st as [x sp l q']. cbn [fr_sp fr_l fr_x fr_q] in *. subst sp l. by apply trampoline_returns.
Qed.

End trampoline.

End run.

(** ** What the machine does *)

Section machine.
Context {W : Type} (exec_more : Z → cpu ((Z → Z) * W) → option (option Z * cpu ((Z → Z) * W))).
Implicit Types t : cpu ((Z → Z) * W).

(** The bytes below the stack pointer that the closure works on. *)
Record stack_free (m : memory) (sp : Z) : Prop := {
  sf_range : STACK ≤ sp ∧ sp < 2 ^ 63;
  sf_write b : sp - STACK ≤ b < sp → byte_allows PROT_WRITE m b = true;
  sf_read b : sp - STACK ≤ b < sp → byte_allows PROT_READ m b = true
}.

(** The register context of a machine that was at [p]: its registers x0 to x29,
    with x17 gone, the vector registers q0 to q7 and the stack pointer; the
    place of x30 has the way back into the trampoline. *)
Record context_of t (p : Z) (m : memory) (ctx : Z) : Prop := {
  ctx_x k : (k < 30)%nat → k ≠ 17%nat → number_of m 8 (general_x ctx (Z.of_nat k)) = u64 (xreg t (Z.of_nat k));
  ctx_q k : (k < 8)%nat → number_of m 16 (ctx + 272 + 16 * Z.of_nat k) = qreg t (Z.of_nat k) mod 2 ^ 128;
  ctx_sp : number_of m 8 (ctx + 8) = spreg t;
  ctx_lr : number_of m 8 (general_x ctx 30) = p + 24;
  ctx_x30 : number_of m 8 (spreg t - 8) = u64 (xreg t 30)
}.

(** The handler [h] is called for the entry [e] from [p]. *)
Record handler_called t (p e br h : Z) t1 : Prop := {
  hc_pc : pc t1 = h;
  hc_args : xreg t1 0 = spreg t - STACK ∧ xreg t1 1 = e;
  hc_back : xreg t1 30 = br + 136 ∧ spreg t1 = spreg t - STACK;
  hc_context : context_of t p (mem t1) (spreg t - STACK);
  hc_mem b : b < spreg t - STACK ∨ spreg t ≤ b → byte_of (mem t1) b = byte_of (mem t) b;
  hc_prot q n a : allows q n a (mem t1) = allows q n a (mem t)
}.

Lemma general_x_at sp k :
  STACK ≤ sp ∧ sp < 2 ^ 63 → 0 ≤ k ≤ 30 → general_x (sp - STACK) k = sp + (24 - STACK + 8 * k).
Proof using Type. intros Hs Hk. unfold general_x, STACK in *. rewrite wrap_small by lia. lia. Qed.

(** A machine at the trampoline. *)
Lemma closure_calls p e br h t :
  stack_free (mem t) (spreg t) → code_in (spreg t) (mem t) p (closure_words e br) →
  code_in (spreg t) (mem t) br (bridge_words h) → 0 ≤ e < 2 ^ 64 → 0 ≤ h < 2 ^ 63 → pc t = p →
  ∃ t1, goes exec_more t t1 ∧ handler_called t p e br h t1.
Proof using Type.
  intros [Hs Hw Hr] Hp Hb He Hh Hpc. destruct t as [x sp f pc0 m [q w]]. cbn [spreg mem pc] in *. subst pc0.
  assert (Hbase : 0 ≤ sp - STACK ∧ sp < 2 ^ 63) by lia.
  destruct (trampoline_calls exec_more sp m f w Hbase Hw Hr p e br h Hp Hb He x q) as (y & G1 & H17 & H30 & Hy).
  destruct (bridged_saved sp m y q e (x 30) h) as [st Hst].
  pose proof (bridge_calls exec_more sp m f w Hbase Hw Hr p e br h Hp Hb He Hh y q (x 30) st Hst) as G2.
  exists (cpu_of sp m f w (fr_set false 30 (br + 136) st) h).
  split. { etransitivity; [|exact G2]. unfold cpu_of in G1 at 1. cbn in G1. by rewrite Z.add_0_r in G1. }
  destruct Hst as [_ Hsp A0 A1 _ Hin Asp Hf Hx Hq].
  pose proof (λ n off v, find_put_read sp (fr_l st) m n off v) as Hread.
  pose proof (br_range sp m p e br h Hp Hb) as Hrange.
  split; cbn [pc xreg spreg mem cpu_of fr_set Z.eqb Pos.eqb upd fr_x fr_sp fr_l].
  - done.
  - rewrite A0, A1. split; [unfold STACK in *; rewrite wrap_small by lia; lia|].
    rewrite Z.mod_small by lia. by apply wrap_small.
  - rewrite Hsp. split; [apply wrap_small; lia|lia].
  - split.
    + intros k Hk Hne. rewrite general_x_at by lia. rewrite (Hread 8%nat _ _ (Hx k ltac:(lia))), Hy by lia. done.
    + intros k Hk. replace (sp - STACK + 272 + 16 * Z.of_nat k) with (sp + (272 - STACK + 16 * Z.of_nat k)) by lia.
      by rewrite (Hread 16%nat _ _ (Hq k Hk)).
    + replace (sp - STACK + 8) with (sp + (8 - STACK)) by lia. rewrite (Hread 8%nat _ _ Asp).
      change (256 ^ Z.of_nat 8) with (2 ^ 64). change (u64 ?a mod 2 ^ 64) with (wrap 64 (u64 a)).
      unfold STACK in *. cbn [spreg].
      rewrite (wrap_small 64 (sp + -400 + 16)), (wrap_small 64 (sp + -400 + 16 + 384)), wrap_small by lia. lia.
    + rewrite general_x_at by lia. pose proof (Hread 8%nat _ _ (Hx 30%nat ltac:(lia))) as E.
      change (Z.of_nat 30) with 30 in E. rewrite E, H30. apply Z.mod_small. lia.
    + cbn [spreg xreg]. replace (sp - 8) with (sp + -8) by lia. by rewrite (Hread 8%nat _ _ Hf).
  - intros b Hb'. by apply (writes_byte _ STACK).
  - intros r n a. apply writes_allows.
Qed.

(** Behind the handler, with the registers of [t2] and the memory that it left. *)
Record goes_on t2 ctx t3 : Prop := {
  go_pc : pc t3 = number_of (mem t2) 8 (general_x ctx 17);
  go_x k : (k < 30)%nat → xreg t3 (Z.of_nat k) = number_of (mem t2) 8 (general_x ctx (Z.of_nat k));
  go_x30 : xreg t3 30 = number_of (mem t2) 8 (ctx + STACK - 8);
  go_q k : (k < 8)%nat → qreg t3 (Z.of_nat k) = number_of (mem t2) 16 (ctx + 272 + 16 * Z.of_nat k);
  go_sp : spreg t3 = ctx + STACK;
  go_rest : mem t3 = mem t2 ∧ flags t3 = flags t2
}.

Lemma closure_returns p e br h ctx t2 :
  stack_free (mem t2) (ctx + STACK) → code_in (ctx + STACK) (mem t2) p (closure_words e br) →
  code_in (ctx + STACK) (mem t2) br (bridge_words h) → pc t2 = br + 136 → spreg t2 = ctx →
  number_of (mem t2) 8 (general_x ctx 30) = p + 24 →
  ∃ t3, goes exec_more t2 t3 ∧ goes_on t2 ctx t3.
Proof using Type.
  intros [Hs Hw Hr] Hp Hb Hpc Hsp Hlr. destruct t2 as [x sp f pc0 m [q w]]. cbn [spreg mem pc] in *. subst pc0 sp.
  set (sp := ctx + STACK) in *. assert (Hctx : ctx = sp - STACK) by lia. clearbody sp. subst ctx.
  assert (Hbase : 0 ≤ sp - STACK ∧ sp < 2 ^ 63) by lia.
  pose proof (br_range sp m p e br h Hp Hb) as Hrange. destruct (restored_ok sp m x q) as [st Hst].
  assert (Hx : ∀ k, (k ≤ 30)%nat → fr_x st (Z.of_nat k) = number_of m 8 (general_x (sp - STACK) (Z.of_nat k))).
  { intros k Hk. rewrite general_x_at by lia. rewrite (re_x _ _ _ _ _ Hst) by done. apply number_of_u64. }
  pose proof (Hx 30%nat ltac:(lia)) as X30. pose proof (Hx 17%nat ltac:(lia)) as X17.
  change (Z.of_nat 30) with 30 in X30. change (Z.of_nat 17) with 17 in X17. rewrite Hlr in X30.
  assert (R17 : 0 ≤ fr_x st 17 < 2 ^ 64) by (rewrite X17; apply (number_of_range m 8)).
  pose proof (closure_returns_run exec_more sp m f w Hbase Hw Hr p e br h Hp Hb x q st Hst X30 R17) as G.
  assert (Hq : ∀ k, (k < 8)%nat → fr_q st (Z.of_nat k) = number_of m 16 (sp + (272 - STACK + 16 * Z.of_nat k)))
    by apply Hst.
  eexists. split; [exact G|].
  split; cbn [pc xreg spreg mem flags cpu_of fr_x fr_sp fr_l fr_q writes].
  - by rewrite X17.
  - intros k Hk. unfold upd. rewrite (proj2 (Z.eqb_neq _ 30)) by lia. apply Hx. lia.
  - change (upd ?x 30 ?v 30) with v. rewrite number_of_u64. f_equal. lia.
  - intros k Hk. unfold qreg. cbn [other cpu_of fst fr_q]. rewrite Hq by done. f_equal. lia.
  - lia.
  - done.
Qed.

End machine.
