(* ===== verification/InstrumentProps.v ===== *)
(** * Instrumentation, proved

    What DobbyInstrument makes of the process: a machine that comes to the
    instrumented address calls the handler with its registers in memory, and
    goes on with what the handler leaves there at the relocated instructions. *)

From S2P Require Import Prelude CMem XhUtil DobbyBits DobbyMem DobbyMemProps DobbyAlloc A64Asm A64Reloc A64Spec A64Layout A64Bind A64Sim A64Run A64RelocProps DobbyHook DobbyHookProps Instrument A64Frame InstrumentCode InstrumentRun.

#[local] Open Scope cint_scope.

(** ** Code that is placed *)

(** What stays while code is placed: the memory in use with its code, the
    registry of hooks. *)
Record kept (s s' : dobby) : Prop := {
  kept_use x k : 0 < k → in_use s x k → in_use s' x k;
  kept_code x ws : ws ≠ [] → in_use s x (4 * Z.of_nat (length ws)) → code_at (d_mem s) x ws → code_at (d_mem s') x ws;
  kept_words x ws : ws ≠ [] → in_use s x (4 * Z.of_nat (length ws)) → words_at (d_mem s) x ws → words_at (d_mem s') x ws;
  kept_hooks : entries s' = entries s ∧ near_branch_trampoline s' = near_branch_trampoline s
}.

Lemma four_pos (ws : list Z) : ws ≠ [] → 0 < 4 * Z.of_nat (length ws).
Proof. destruct ws; [done|]. simpl. lia. Qed.

#[export] Instance kept_preorder : PreOrder kept.
Proof.
  split; [by split|]. intros a b c [H1 H2 H3 [E N]] [H4 H5 H6 [E' N']].
  split; [eauto|intros x ws Hw Hu Hc|intros x ws Hw Hu Hc|split; congruence].
  - apply H5; [done|apply H1; [by apply four_pos|done]|by apply H2].
  - apply H6; [done|apply H1; [by apply four_pos|done]|by apply H3].
Qed.

(** The words [ws] are at [p], apart from all that was in use. *)
Record placed (s s' : dobby) (p : Z) (ws : list Z) : Prop := {
  placed_ok : arenas_ok s';
  placed_kept : kept s s';
  placed_use : in_use s' p (4 * Z.of_nat (length ws));
  placed_code : code_at (d_mem s') p ws;
  placed_range : 0 < p ∧ p + 4 * Z.of_nat (length ws) < 2 ^ 63;
  placed_fresh x k : 0 < k → in_use s x k → x + k ≤ p ∨ p + 4 * Z.of_nat (length ws) ≤ x
}.

Lemma code_at_undisturbed m m' a ws :
  undisturbed m m' → range_mapped m a (4 * Z.of_nat (length ws)) → code_at m a ws → code_at m' a ws.
Proof.
  intros [_ Hb Hp] Hm Hw i w Hi. pose proof (lookup_lt_Some _ _ _ Hi). destruct (Hw i w Hi) as (H1 & H2 & H3).
  split_and!; [eapply allows_mono; [|exact H1]|eapply allows_mono; [|exact H2]|].
  1, 2: intros b Hb' Hr; unfold byte_allows; rewrite Hp; [exact Hr|]; apply Hm; lia.
  rewrite <- H3. apply number_of_ext. intros b Hb'. apply Hb, Hm. lia.
Qed.

Section os.
Context {os : OS} {laws : OSLaws os} {permits : OSGrants os}.

Lemma block_placed s s1 p ws m' :
  ws ≠ [] → handed_out s s1 p (4 * Z.of_nat (length ws)) →
  entries s1 = entries s ∧ near_branch_trampoline s1 = near_branch_trampoline s →
  patched p (words_bytes ws) (d_mem s1) m' → code_at m' p ws → placed s (set_mem m' s1) p ws.
Proof using Type.
  intros Hne [Hok Hr Hu Hf Hund] Hh Hp Hc. assert (Hlen : Z.of_nat (length (words_bytes ws)) = 4 * Z.of_nat (length ws)).
  { rewrite length_words_bytes. lia. }
  split; [by eapply patched_arenas| |by eapply patched_in_use|done..|intros x k Hk Hx; by apply (Hf x k)].
  split; [| | |exact Hh].
  - intros x k Hk Hx. eapply patched_in_use; [exact Hp|]. by apply (Hf x k).
  - intros x ws' Hw Hx Hc'. destruct (Hf x _ (four_pos _ Hw) Hx) as [_ Hd].
    apply (patched_keeps_code _ _ _ _ _ _ Hp); [rewrite Hlen; lia|].
    eapply code_at_undisturbed; [exact Hund|apply Hx|done].
  - intros x ws' Hw Hx Hc'. destruct (Hf x _ (four_pos _ Hw) Hx) as [_ Hd].
    apply (words_at_patched _ _ _ _ _ _ Hp); [rewrite Hlen; lia|].
    eapply words_at_undisturbed; [exact Hund|apply Hx|done].
Qed.

(** The allocator has blocks of these sizes, at these addresses, one after the
    other, with code written into each. *)
Fixpoint grants (l : list (Z * Z)) (s : dobby) : Prop :=
  match l with
  | [] => True
  | (n, p) :: l =>
      p ≠ 0 ∧ ∃ s1, allocateExecBlock n s = (Ret (MemBlock_new p n), s1) ∧
        ∀ bs m', Z.of_nat (length bs) = n → patched p bs (d_mem s1) m' → grants l (set_mem m' s1)
  end.

Lemma granted n p l s :
  arenas_ok s → 0 < n → n ≤ PAGE_SIZE → grants ((n, p) :: l) s →
  ∃ s1, allocateExecBlock n s = (Ret (MemBlock_new p n), s1) ∧ handed_out s s1 p n ∧
    (entries s1 = entries s ∧ near_branch_trampoline s1 = near_branch_trampoline s) ∧
    ∀ bs m', Z.of_nat (length bs) = n → patched p bs (d_mem s1) m' → grants l (set_mem m' s1).
Proof using laws permits.
  intros Hok Hn Hmax (Hp & s1 & Hal & Hl). exists s1.
  pose proof (wp_run _ _ (λ _ _, True) _ _ _ (allocateExecBlock_wp n s _ Hok Hn ltac:(unfold PAGE_SIZE in *; lia)) Hal) as [_ Hb].
  split_and!; [done|by apply Hb| | |done]; by apply (wp_run _ _ _ _ _ _ (allocateExecBlock_hooks n s) Hal).
Qed.

Lemma Finalize_places a ws p l s :
  arenas_ok s → realized_addr_ a = 0 → buffer_ a = words_bytes ws → Forall is_word ws → ws ≠ [] →
  4 * Z.of_nat (length ws) ≤ PAGE_SIZE → grants ((4 * Z.of_nat (length ws), p) :: l) s →
  ∃ s', FinalizeFromTurboAssembler a s = (Ret (MemBlock_new p (4 * Z.of_nat (length ws))), s') ∧
    placed s s' p ws ∧ grants l s'.
Proof using laws permits.
  intros Hok Ha Hbuf Hws Hne Hmax Hg.
  destruct (granted _ _ _ _ Hok (four_pos _ Hne) Hmax Hg) as (s1 & Hal & Hout & Hh & Hl).
  destruct (code_block_run s s1 p ws _ eq_refl Hmax Hws Hout) as (m' & Hrun & Hp & Hc).
  exists (set_mem m' s1). split_and!.
  - by eapply FinalizeFromTurboAssembler_run.
  - by apply block_placed.
  - apply (Hl (words_bytes ws)); [rewrite length_words_bytes; lia|done].
Qed.

(** ** The closure *)

Section closure.
Context {proc : Process}.
Local Abbreviation handler := common_closure_bridge_handler_ptr.

(** What is asked of the addresses in the process. *)
Record pointers_ok (s : instruments) : Prop := {
  po_handler : 0 ≤ handler < 2 ^ 63;
  po_entry i : (i ≤ length (closure_entries s))%nat → 0 ≤ closure_entry_ptr i < 2 ^ 64;
  po_distinct i j : (i < j ≤ length (closure_entries s))%nat → closure_entry_ptr i ≠ closure_entry_ptr j
}.

(** The bridge, if there is one. *)
Record bridge_at (d : dobby) (br : Z) : Prop := {
  ba_use : in_use d br 228;
  ba_code : code_at (d_mem d) br (bridge_words handler);
  ba_range : 0 < br ∧ br + 228 < 2 ^ 63
}.

(** The first instrumentation makes the bridge at [br], the others find it. *)
Definition bridge_granted (s : instruments) (br : Z) (l : list (Z * Z)) : Prop :=
  (closure_bridge s = 0 ∧ grants ((228, br) :: l) (i_dobby s)) ∨
  (closure_bridge s = br ∧ bridge_at (i_dobby s) br ∧ grants l (i_dobby s)).

Lemma on_dobby_Ret {A} (c : DM A) s x d : c (i_dobby s) = (Ret x, d) →
  on_dobby c s = (Ret x, mkInstruments d (closure_bridge s) (closure_entries s) (routings s)).
Proof using Type. unfold on_dobby. by intros ->. Qed.

Lemma on_dobby_asm {A} (c : AM A) a x a' s : c a = (Ret x, a') → on_dobby (run_asm c a) s = (Ret (x, a'), s).
Proof using Type. intros H. rewrite (on_dobby_Ret _ s _ _ (run_asm_Ret _ _ _ _ _ H)). by destruct s. Qed.

Lemma kept_bridge d d' br : kept d d' → bridge_at d br → bridge_at d' br.
Proof using Type.
  intros [K1 K2 _ _] [H1 H2 H3]. split; [by apply K1|apply K2; [done| |done]|done]. exact H1.
Qed.

Lemma get_closure_bridge_run br l s :
  0 ≤ handler < 2 ^ 63 → arenas_ok (i_dobby s) → bridge_granted s br l →
  ∃ d, get_closure_bridge s = (Ret br, mkInstruments d br (closure_entries s) (routings s)) ∧
    arenas_ok d ∧ kept (i_dobby s) d ∧ bridge_at d br ∧ grants l d ∧
    (closure_bridge s = 0 → ∀ x k, 0 < k → in_use (i_dobby s) x k → x + k ≤ br ∨ br + 228 ≤ x).
Proof using laws permits.
  intros Hh Hok [[H0 Hg]|(H0 & Hb & Hg)].
  - destruct (Finalize_places (set_buffer (words_bytes (bridge_words handler)) (asm_new 0)) (bridge_words handler) br l (i_dobby s) Hok)
      as (d & Hrun & Hpl & Hl); [done|done|apply bridge_words_ok|done|vm_compute; done|exact Hg|].
    exists d. destruct Hpl as [P1 P2 P3 P4 P5 P6]. split_and!; [|done|done|split; [exact P3|done|exact P5]|done|intros _; exact P6].
    unfold get_closure_bridge. rewrite CM_gets, H0. change (truthy 0) with false. cbv iota.
    assert (Hh' : 0 ≤ handler < 2 ^ 64) by (clear -Hh; lia).
    rewrite (CM_bind_Ret _ _ _ _ _ (on_dobby_asm _ _ _ _ s (closure_bridge_code_puts handler Hh' (asm_new 0)))). cbv iota beta.
    change (buffer_ (asm_new 0) ++ words_bytes (bridge_words handler)) with (words_bytes (bridge_words handler)).
    rewrite (CM_bind_Ret _ _ _ _ _ (on_dobby_Ret _ s _ _ Hrun)). done.
  - exists (i_dobby s). split_and!; [|done..|].
    + unfold get_closure_bridge. rewrite CM_gets, H0. unfold truthy.
      rewrite (proj2 (Z.eqb_neq br 0)) by (destruct Hb; lia). cbn. destruct s. cbn in *. by subst.
    + destruct Hb. lia.
Qed.

Lemma CreateClosureTrampoline_run r hd br p l s :
  pointers_ok s → arenas_ok (i_dobby s) → bridge_granted s br ((52, p) :: l) →
  let i := length (closure_entries s) in
  let ws := closure_words (closure_entry_ptr i) br in
  ∃ d, CreateClosureTrampoline r hd s =
         (Ret i, mkInstruments d br (closure_entries s ++ [mkClosureEntry p 52 hd r]) (routings s)) ∧
    placed (i_dobby s) d p ws ∧ bridge_at d br ∧ (p + 52 ≤ br ∨ br + 228 ≤ p) ∧ grants l d ∧
    (closure_bridge s = 0 → ∀ x k, 0 < k → in_use (i_dobby s) x k → x + k ≤ br ∨ br + 228 ≤ x).
Proof using laws permits.
  intros [Hh He _] Hok Hg i ws. destruct (closure_trampoline_code_run (closure_entry_ptr i) br) as (a1 & a & Hc & Hem & Hbuf & Hreal).
  set (s1 := set_closure_entries (closure_entries s ++ [mkClosureEntry 0 0 instrument_routing_dispatch_ptr 0]) s).
  destruct (get_closure_bridge_run br ((52, p) :: l) s1 Hh Hok Hg) as (d1 & Hbr & Hok1 & Hk1 & Hb1 & Hg1 & Hf1).
  specialize (He i (le_n _)). pose proof (ba_range _ _ Hb1) as Hrange.
  rewrite (wrap_small 64 (closure_entry_ptr i)), (wrap_small 64 br) in Hbuf by lia. fold ws in Hbuf.
  destruct (Finalize_places a ws p l d1 Hok1 Hreal Hbuf (closure_words_ok _ _)) as (d & Hrun & Hpl & Hl);
    [done|vm_compute; done|exact Hg1|].
  exists d. split_and!; [| |by eapply kept_bridge; [apply Hpl|]| |done|done].
  - assert (Hnew : new_ClosureTrampolineEntry s = (Ret i, s1)) by done.
    unfold CreateClosureTrampoline. rewrite (CM_bind_Ret _ _ _ _ _ Hnew).
    rewrite (CM_bind_Ret _ _ _ _ _ (on_dobby_asm _ _ _ _ s1 Hc)). cbv iota beta.
    rewrite (CM_bind_Ret _ _ _ _ _ Hbr), (CM_bind_Ret _ _ _ _ _ (on_dobby_asm _ _ _ _ _ Hem)). cbv iota beta.
    rewrite (CM_bind_Ret _ _ _ _ _ (on_dobby_Ret _ (mkInstruments d1 br (closure_entries s1) (routings s1)) _ _ Hrun)).
    unfold modify, mbind, CM_bind, mret, CM_ret.
    unfold set_closure_entries. cbn [i_dobby closure_bridge closure_entries routings].
    unfold s1, set_closure_entries. cbn [closure_entries routings]. unfold i. rewrite insert_app_r_alt, Nat.sub_diag by done. done.
  - destruct Hpl as [P1 P2 P3 P4 P5 P6]. split; [done|by etrans|done..|]. intros x k Hk Hx. apply P6; [done|]. by apply Hk1.
  - destruct (placed_fresh _ _ _ _ Hpl br 228 ltac:(lia) (ba_use _ _ Hb1)) as [H|H]; [by right|left]. exact H.
Qed.

(** ** DobbyInstrument *)

(** The routing that was added last. *)
Lemma on_base_last {A} (f : routing → DM (A * routing)) rs x y b d d' br ces :
  f (base x) d = (Ret (y, b), d') →
  on_base (length rs) f (mkInstruments d br ces (rs ++ [x])) = (Ret y, mkInstruments d' br ces (rs ++ [set_base b x])).
Proof using Type.
  intros H. assert (Hget : get_routing (length rs) (mkInstruments d br ces (rs ++ [x])) = (Ret x, mkInstruments d br ces (rs ++ [x]))).
  { unfold get_routing, mbind, CM_bind, get, lift_opt. cbn [routings]. by rewrite list_lookup_middle. }
  unfold on_base. rewrite (CM_bind_Ret _ _ _ _ _ Hget).
  rewrite (CM_bind_Ret _ _ _ _ _ (on_dobby_Ret _ (mkInstruments d br ces (rs ++ [x])) _ _ H)). cbv iota beta.
  unfold put_routing, modify, set_routings, mbind, CM_bind, mret, CM_ret. cbn [i_dobby closure_bridge closure_entries routings].
  by rewrite insert_app_r_alt, Nat.sub_diag by done.
Qed.

Lemma get_routing_last rs x d br ces :
  get_routing (length rs) (mkInstruments d br ces (rs ++ [x])) = (Ret x, mkInstruments d br ces (rs ++ [x])).
Proof using Type. unfold get_routing, mbind, CM_bind, get, lift_opt. cbn [routings]. by rewrite list_lookup_middle. Qed.

Lemma GenerateTrampolineBuffer_run e target f from to d :
  near_branch_trampoline d = false → 0 ≤ from < 2 ^ 63 → 0 ≤ to < 2 ^ 63 →
  GenerateTrampolineBuffer (mkRouting e None None None target f) from to d =
    (Ret (mkRouting e None None (Some (words_bytes (normal_words from to))) target f), d).
Proof using Type.
  intros Hn Hf Ht. unfold GenerateTrampolineBuffer. rewrite CM_gets, Hn, CM_left_id. cbn [trampoline_buffer_].
  by rewrite (CM_bind_Ret _ _ _ _ _ (GenerateNormalTrampolineBuffer_run _ _ d Hf Ht)).
Qed.

(** An instruction at [a], with those behind it that the trampoline covers, in a
    process without near branches whose allocator gives [br] for the bridge, [p]
    for the trampoline and [bp] for the relocated instructions. *)
Definition protected (s : instruments) (a : Z) : instruments :=
  mkInstruments (after_protect (i_dobby s) a) (closure_bridge s) (closure_entries s) (routings s).

Record instrumentable (s : instruments) (a : Z) (ws : list Z) (body : list piece) (br p bp : Z) : Prop := {
  ik_addr : 0 < a ∧ a + 16 < 2 ^ 63;
  ik_page : page_mapped (d_mem (i_dobby s)) a;
  ik_new : find_entry a (entries (i_dobby s)) = None;
  ik_near : near_branch_trampoline (i_dobby s) = false;
  ik_arenas : arenas_ok (i_dobby (protected s a));
  ik_pointers : pointers_ok s;
  ik_words : Forall is_word ws;
  ik_at : words_at (d_mem (i_dobby (protected s a))) a ws;
  ik_len : length ws = length (normal_words a p);
  ik_code : in_use (i_dobby (protected s a)) a (4 * Z.of_nat (length ws));
  ik_pieces : relo_seq a ws = Some body;
  ik_size : 4 * Z.of_nat (length (final_words (relocation a ws body))) ≤ PAGE_SIZE;
  ik_memory : bridge_granted (protected s a) br
    [(52, p); (4 * Z.of_nat (length (final_words (relocation a ws body))), bp)];
  ik_apart : closure_bridge s = br → a + 4 * Z.of_nat (length ws) ≤ br ∨ br + 228 ≤ a
}.

Lemma BuildRouting_instrument_run e0 pre br p l d cb ces rs :
  let s := mkInstruments d cb ces (rs ++ [InstructionInstrumentRouting_new e0 pre 0]) in
  let ws := closure_words (closure_entry_ptr (length ces)) br in
  let tramp := words_bytes (normal_words (patched_addr e0) p) in
  pointers_ok s → arenas_ok d → bridge_granted s br ((52, p) :: l) →
  near_branch_trampoline d = false → 0 ≤ patched_addr e0 < 2 ^ 63 →
  ∃ d', BuildRouting_instrument (length rs) s =
      (Ret tt, mkInstruments d' br (ces ++ [mkClosureEntry p 52 instrument_routing_dispatch_ptr (length rs)])
         (rs ++ [mkInstrumentRouting (mkRouting e0 None None (Some tramp) p 0) pre 0])) ∧
    placed d d' p ws ∧ bridge_at d' br ∧ (p + 52 ≤ br ∨ br + 228 ≤ p) ∧ grants l d' ∧
    (cb = 0 → ∀ x k, 0 < k → in_use d x k → x + k ≤ br ∨ br + 228 ≤ x).
Proof using laws permits.
  intros s ws tramp Hpo Hok Hg Hnear Ha.
  destruct (CreateClosureTrampoline_run (length rs) instrument_routing_dispatch_ptr br p l s Hpo Hok Hg)
    as (d' & Hrun & Hpl & Hb & Hd & Hl & Hf).
  exists d'. split; [|done]. unfold BuildRouting_instrument. rewrite (CM_bind_Ret _ _ _ _ _ Hrun).
  set (entry := mkClosureEntry p 52 instrument_routing_dispatch_ptr (length rs)).
  set (s' := mkInstruments d' br (closure_entries s ++ [entry]) (routings s)).
  assert (Hget : get_closure_entry (length ces) s' = (Ret entry, s')).
  { unfold get_closure_entry, mbind, CM_bind, get, lift_opt. cbn [closure_entries s' s]. by rewrite list_lookup_middle. }
  rewrite (CM_bind_Ret _ _ _ _ _ Hget). unfold s'. cbn [closure_entries routings s address entry].
  pose proof (on_base_last (λ b, mret (tt, SetTrampolineTarget p b)) rs (InstructionInstrumentRouting_new e0 pre 0) tt
    (SetTrampolineTarget p (mkRouting e0 None None None 0 0)) d' d' br (ces ++ [entry]) eq_refl) as Hset.
  rewrite (CM_bind_Ret _ _ _ _ _ Hset).
  apply on_base_last. cbn [base set_base InstructionInstrumentRouting_new entry_ SetTrampolineTarget trampoline_target_].
  assert (Hgen : GenerateTrampolineBuffer (mkRouting e0 None None None p 0) (patched_addr e0) p d' =
    (Ret (mkRouting e0 None None (Some tramp) p 0), d')).
  { apply GenerateTrampolineBuffer_run; [|done|].
    - destruct Hpl as [_ [_ _ _ [_ Hn]] _ _ _ _]. by rewrite Hn.
    - pose proof (placed_range _ _ _ _ Hpl). lia. }
  unfold SetTrampolineTarget. cbn [entry_ trampoline_target_ origin_ relocated_ trampoline_buffer_ replace_func].
  by rewrite (CM_bind_Ret _ _ _ _ _ Hgen).
Qed.

(** What DobbyInstrument leaves. *)
Record instrumented (s s' : instruments) (a pre : Z) (ws : list Z) (body : list piece) (br p bp : Z) : Prop := {
  in_patch : code_at (d_mem (i_dobby s')) a (normal_words a p);
  in_closure : code_at (d_mem (i_dobby s')) p (closure_words (closure_entry_ptr (length (closure_entries s))) br);
  in_bridge : bridge_at (i_dobby s') br;
  in_relocated : code_at (d_mem (i_dobby s')) bp (final_words (relocation a ws body));
  in_range : (0 < p ∧ p + 52 < 2 ^ 63) ∧ 0 < bp ∧ bp + 4 * Z.of_nat (length (final_words (relocation a ws body))) < 2 ^ 63;
  in_entry : ∃ r, entries (i_dobby s') = entries (i_dobby s) ++ [entry_ r] ∧ patched_addr (entry_ r) = a ∧
    relocated_addr (entry_ r) = bp ∧ routings s' = routings s ++ [mkInstrumentRouting r pre 0];
  in_closures : closure_entries s' =
    closure_entries s ++ [mkClosureEntry p 52 instrument_routing_dispatch_ptr (length (routings s))];
  in_next : closure_bridge s' = br ∧ arenas_ok (i_dobby s')
}.

(** The relocated instructions and the patch. *)
Lemma relocate_and_patch e0 pre d br ces rs a ws body p bp :
  let tramp := words_bytes (normal_words a p) in
  let code := final_words (relocation a ws body) in
  let s := mkInstruments d br ces (rs ++ [mkInstrumentRouting (mkRouting e0 None None (Some tramp) p 0) pre 0]) in
  arenas_ok d → patched_addr e0 = a → 0 < a ∧ a + 16 < 2 ^ 63 → Forall is_word ws → words_at (d_mem d) a ws →
  length ws = length (normal_words a p) → in_use d a (4 * Z.of_nat (length ws)) → relo_seq a ws = Some body →
  4 * Z.of_nat (length code) ≤ PAGE_SIZE → grants [(4 * Z.of_nat (length code), bp)] d →
  ∃ r d3 m3,
    on_base (length rs) GenerateRelocatedCode s = (Ret true, mkInstruments d3 br ces (rs ++ [mkInstrumentRouting r pre 0])) ∧
    Commit r d3 = (Ret tt, set_mem m3 d3) ∧ patched_addr (entry_ r) = a ∧ relocated_addr (entry_ r) = bp ∧
    placed d d3 bp code ∧ patched a tramp (d_mem d3) m3.
Proof using laws permits.
  intros tramp code s Hok He Ha Hws Hat Hlen Hin Hbody Hsize Hg. pose proof (normal_words_length a p) as Hnl.
  assert (Hne : ws ≠ []) by (intros ->; simpl in Hlen; lia).
  pose proof (relocation_nonempty a ws body) as Hcl. fold code in Hcl.
  assert (Hcne : code ≠ []) by (intros E; rewrite E in Hcl; simpl in Hcl; lia).
  destruct (granted _ _ _ _ Hok (four_pos _ Hcne) Hsize Hg) as (d2 & Hal & Hout & Hh & _).
  assert (Hb0 : bp ≠ 0) by (destruct Hout; lia). set (b := MemBlock_new bp (4 * Z.of_nat (length code))).
  assert (R : relocatable d d2 a ws body b) by (split; try done; unfold PAGE_SIZE in *; lia).
  destruct (relocatable_run _ _ _ _ _ _ R) as (m1 & Hrel & Hpat & Hcode). fold code in Hpat, Hcode.
  pose proof (block_placed d d2 bp code m1 Hcne Hout Hh Hpat Hcode) as Hpl.
  pose proof (kept_words _ _ (placed_kept _ _ _ _ Hpl) a ws Hne Hin Hat) as Hat1.
  assert (Htl : Z.of_nat (length tramp) = 4 * Z.of_nat (length ws)) by (unfold tramp; rewrite length_words_bytes; lia).
  rewrite <- He in Hrel, Hat1.
  destruct (GenerateRelocatedCode_run d d2 e0 tramp p 0 ws b m1 Htl ltac:(lia) Hrel) as (r & Hgen & Hrb & Hre);
    [cbn; lia|exact Hat1|].
  destruct (DobbyCodePatch_run (set_mem m1 d2) a tramp) as (m3 & Hcommit & Hpat3);
    [lia|lia|unfold PAGE_SIZE in *; lia| |].
  { rewrite Htl. apply (in_use_mapped _ _ _ (kept_use _ _ (placed_kept _ _ _ _ Hpl) a _ (four_pos _ Hne) Hin)). }
  exists r, (set_mem m1 d2), m3. split_and!; [| |by rewrite Hre|by rewrite Hre|done..].
  - exact (on_base_last GenerateRelocatedCode rs (mkInstrumentRouting (mkRouting e0 None None (Some tramp) p 0) pre 0)
      true r d (set_mem m1 d2) br ces Hgen).
  - unfold Commit, Active. rewrite Hrb, Hre. cbn [patched_addr]. unfold lift_opt. by rewrite CM_left_id, He.
Qed.

Lemma closure_code_away s a ws body br p bp :
  instrumentable s a ws body br p bp → 0 < 4 * Z.of_nat (length ws).
Proof using Type. intros K. rewrite (ik_len _ _ _ _ _ _ _ K). pose proof (normal_words_length a p). lia. Qed.

(** The entry that DobbyInstrument makes. *)
Definition new_entry (s : instruments) (a : Z) : InterceptEntry :=
  mkInterceptEntry (u32 (Z.of_nat (length (entries (i_dobby s))))) kInstructionInstrument a
    (patched_size os_heap_entry) (relocated_addr os_heap_entry) (relocated_size os_heap_entry)
    (origin_insns os_heap_entry) (origin_insn_size os_heap_entry).

(** Its calls, one after the other. *)
Lemma DobbyInstrument_steps s a pre br b d2 d3 m3 ces r :
  let n := length (routings s) in
  a ≠ 0 → page_mapped (d_mem (i_dobby s)) a → find_entry a (entries (i_dobby s)) = None →
  BuildRouting_instrument n
    (mkInstruments (after_protect (i_dobby s) a) (closure_bridge s) (closure_entries s)
       (routings s ++ [InstructionInstrumentRouting_new (new_entry s a) pre 0])) =
    (Ret tt, mkInstruments d2 br ces (routings s ++ [b])) →
  on_base n GenerateRelocatedCode (mkInstruments d2 br ces (routings s ++ [b])) =
    (Ret true, mkInstruments d3 br ces (routings s ++ [mkInstrumentRouting r pre 0])) →
  Commit r d3 = (Ret tt, set_mem m3 d3) → entries d3 = entries (i_dobby s) →
  DobbyInstrument a pre s =
    (Ret RS_SUCCESS, mkInstruments (set_entries (entries (i_dobby s) ++ [entry_ r]) (set_mem m3 d3)) br ces
       (routings s ++ [mkInstrumentRouting r pre 0])).
Proof using laws permits.
  intros n Ha Hpage Hnew Hbuild Hgen Hcommit Hents. unfold DobbyInstrument. rewrite (proj2 (Z.eqb_neq a 0)) by done. cbv zeta.
  rewrite (CM_bind_Ret _ _ _ _ _ (on_dobby_Ret _ s _ _ (SetPermission_page a (i_dobby s) kReadExecute Hpage))). cbn [negb].
  set (s1 := mkInstruments _ (closure_bridge s) (closure_entries s) (routings s)).
  assert (Hfind : on_dobby (Interceptor_find a) s1 = (Ret None, s1)).
  { unfold on_dobby, Interceptor_find, gets. cbn [i_dobby s1 entries set_mem]. by rewrite Hnew. }
  rewrite (CM_bind_Ret _ _ _ _ _ Hfind).
  assert (Hentry : on_dobby (InterceptEntry_new kInstructionInstrument a) s1 = (Ret (new_entry s a), s1)) by done.
  rewrite (CM_bind_Ret _ _ _ _ _ Hentry). unfold mbind at 1, CM_bind at 1, get at 1. cbv beta iota.
  unfold mbind at 1, CM_bind at 1, put at 1. cbv beta iota. cbn [routings s1]. subst n.
  unfold DispatchRouting_instrument. rewrite CM_assoc, (CM_bind_Ret _ _ _ _ _ Hbuild), CM_assoc, (CM_bind_Ret _ _ _ _ _ Hgen).
  rewrite CM_left_id.
  rewrite (CM_bind_Ret _ _ _ _ _ (get_routing_last (routings s) (mkInstrumentRouting r pre 0) d3 br ces)). cbn [base].
  rewrite (CM_bind_Ret _ _ _ _ _ (on_dobby_Ret _ (mkInstruments d3 br ces (routings s ++ [mkInstrumentRouting r pre 0])) _ _ Hcommit)).
  cbn [closure_bridge closure_entries routings].
  unfold on_dobby, Interceptor_add, modify, mbind, CM_bind, mret, CM_ret. cbn [i_dobby closure_bridge closure_entries routings].
  change (entries (set_mem m3 d3)) with (entries d3). by rewrite Hents.
Qed.

Lemma DobbyInstrument_run s a pre ws body br p bp :
  instrumentable s a ws body br p bp →
  ∃ s', DobbyInstrument a pre s = (Ret RS_SUCCESS, s') ∧ instrumented s s' a pre ws body br p bp.
Proof using laws permits.
  intros K. pose proof (closure_code_away _ _ _ _ _ _ _ K) as Hpos.
  destruct K as [K1 K2 K3 K4 K5 [P1 P2 P3] K7 K8 K9 K10 K11 K12 K13 K14]. set (e0 := new_entry s a).
  set (d1 := after_protect (i_dobby s) a). change (i_dobby (protected s a)) with d1 in *.
  set (ces := closure_entries s) in *. set (rs := routings s). set (code := final_words (relocation a ws body)) in *.
  destruct (BuildRouting_instrument_run e0 pre br p [(4 * Z.of_nat (length code), bp)] d1 (closure_bridge s) ces rs)
    as (d2 & Hbuild & [Q1 Q2 Q3 Q4 Q5 Q6] & Hb2 & Hd2 & Hl2 & Hf2); [by split|done|exact K13|done|simpl; lia|].
  assert (Hne : ws ≠ []) by (intros ->; simpl in Hpos; lia).
  destruct (relocate_and_patch e0 pre d2 br (ces ++ [mkClosureEntry p 52 instrument_routing_dispatch_ptr (length rs)]) rs a ws body p bp)
    as (r & d3 & m3 & Hgen & Hcommit & Hr1 & Hr2 & [R1 R2 R3 R4 R5 R6] & Hpat); try done;
    [by apply Q2|by apply Q2|]. fold code in R3, R4, R5, R6.
  assert (Hents : entries d3 = entries (i_dobby s)).
  { destruct R2 as [_ _ _ [-> _]], Q2 as [_ _ _ [-> _]]. done. }
  eexists. split; [by eapply DobbyInstrument_steps; try done; lia|].
  pose proof (kept_bridge _ _ _ R2 Hb2) as [B1 B2 B3]. pose proof (kept_use _ _ Q2 a _ Hpos K10) as Hin2.
  set (tramp := words_bytes (normal_words a p)) in *.
  assert (Htl : Z.of_nat (length tramp) = 4 * Z.of_nat (length ws)) by (unfold tramp; rewrite length_words_bytes; lia).
  assert (Hkeep : ∀ x ws', x + 4 * Z.of_nat (length ws') ≤ a ∨ a + 4 * Z.of_nat (length ws) ≤ x →
    code_at (d_mem d3) x ws' → code_at m3 x ws').
  { intros x ws' Hd. apply (patched_keeps_code _ _ _ _ _ _ Hpat). lia. }
  assert (Hbr : a + 4 * Z.of_nat (length ws) ≤ br ∨ br + 228 ≤ a).
  { destruct K13 as [[H0 _]|[H0 _]]; [by apply Hf2|by apply K14]. }
  split; cbn [i_dobby d_mem set_entries set_mem closure_bridge].
  - apply (patched_code _ _ _ _ Hpat (normal_words_ok a p)); [pose proof (normal_words_length a p); unfold PAGE_SIZE; lia|].
    rewrite <- K9. apply (kept_use _ _ R2 a _ Hpos Hin2).
  - apply Hkeep; [destruct (Q6 a _ Hpos K10); [by right|by left]|]. by apply R2.
  - split; [by destruct (patched_in_use d3 _ _ m3 br 228 Hpat B1)| |done]. apply Hkeep; [|done]. destruct Hbr; [by right|by left].
  - apply Hkeep; [|done]. destruct (R6 a _ Hpos Hin2); [by right|by left].
  - by split.
  - exists r. by split_and!.
  - done.
  - split; [done|]. by destruct (patched_arenas d3 _ _ m3 Hpat R1).
Qed.

(** *** The C side of the handler *)

(** The process with another memory: what ran meanwhile only changed that. *)
Definition at_memory (m : memory) (s : instruments) : instruments :=
  mkInstruments (set_mem m (i_dobby s)) (closure_bridge s) (closure_entries s) (routings s).

(** What the handler of the user does with the context, if there is one. *)
Definition handled (pre a ctx : Z) (m mu : memory) : Prop :=
  if truthy pre then call_handler pre a ctx m = (Ret tt, mu) else mu = m.

Lemma find_entry_at i s :
  (∀ j k, (j < k < length (closure_entries s))%nat → closure_entry_ptr j ≠ closure_entry_ptr k) →
  (i < length (closure_entries s))%nat → find_closure_entry (closure_entry_ptr i) s = Some i.
Proof using Type.
  intros Hd Hi. unfold find_closure_entry. set (n := length (closure_entries s)) in *.
  replace n with (i + S (n - S i))%nat by lia. rewrite seq_app. cbn [seq].
  assert (Hnone : ∀ l, (∀ j, j ∈ l → (j < i)%nat) →
    ∀ l', List.find (λ j, closure_entry_ptr j =? closure_entry_ptr i) (l ++ i :: l') = Some i).
  { intros l Hl l'. induction l as [|j l IH]; cbn; [by rewrite Z.eqb_refl|].
    rewrite (proj2 (Z.eqb_neq _ _)); [|apply Hd; split; [apply Hl; by left|done]].
    apply IH. intros k Hk. apply Hl. by right. }
  apply Hnone. intros j [_ Hj]%elem_of_seq. lia.
Qed.

Lemma common_closure_bridge_handler_run s ctx i e x m mu :
  find_closure_entry (closure_entry_ptr i) s = Some i → closure_entries s !! i = Some e →
  routings s !! carry_data e = Some x → handled (pre_handler x) (patched_addr (entry_ (base x))) ctx m mu →
  allows PROT_WRITE 8 (general_x ctx 17) mu = true →
  common_closure_bridge_handler ctx (closure_entry_ptr i) (at_memory m s) =
    (Ret tt, at_memory (write_number 8 (general_x ctx 17) (relocated_addr (entry_ (base x))) mu) s).
Proof using Type.
  intros Hf He Hx Hh Hw. unfold common_closure_bridge_handler. rewrite CM_gets.
  change (find_closure_entry _ (at_memory m s)) with (find_closure_entry (closure_entry_ptr i) s). rewrite Hf.
  unfold lift_opt at 1. rewrite CM_left_id.
  assert (Hget : get_closure_entry i (at_memory m s) = (Ret e, at_memory m s)).
  { unfold get_closure_entry, mbind, CM_bind, get, lift_opt. cbn [closure_entries at_memory]. by rewrite He. }
  rewrite (CM_bind_Ret _ _ _ _ _ Hget). destruct (carry_handler e).
  unfold instrument_routing_dispatch, instrument_forward_handler.
  assert (Hr : get_routing (carry_data e) (at_memory m s) = (Ret x, at_memory m s)).
  { unfold get_routing, mbind, CM_bind, get, lift_opt. cbn [routings at_memory]. by rewrite Hx. }
  rewrite (CM_bind_Ret _ _ _ _ _ Hr). cbv zeta.
  assert (Hpre : when (truthy (pre_handler x)) (on_process_memory (call_handler (pre_handler x) (patched_addr (entry_ (base x))) ctx))
    (at_memory m s) = (Ret tt, at_memory mu s)).
  { unfold handled in Hh. destruct (truthy (pre_handler x)); [|by subst]. cbn [when].
    unfold on_process_memory, on_dobby, on_memory. cbn [i_dobby at_memory d_mem set_mem]. by rewrite Hh. }
  rewrite (CM_bind_Ret _ _ _ _ _ Hpre). unfold on_process_memory, on_dobby, on_memory, set_routing_bridge_next_hop, store.
  change (d_mem (i_dobby (at_memory mu s))) with mu. change ARM64_TMP_REG_NDX_0 with 17. by rewrite Hw.
Qed.

(** *** The machine *)

Section machine.
Context {W : Type} (exec_more : Z → cpu ((Z → Z) * W) → option (option Z * cpu ((Z → Z) * W))).
Implicit Types t : cpu ((Z → Z) * W).

(** The stack is free and the code that runs is apart from it. *)
Record stack_apart (sp br p bp n : Z) : Prop := {
  sa_br : br + 228 ≤ sp - STACK ∨ sp ≤ br;
  sa_p : p + 52 ≤ sp - STACK ∨ sp ≤ p;
  sa_bp : bp + n ≤ sp - STACK ∨ sp ≤ bp
}.

(** What the handler of the user leaves alone: the code, the permissions of the
    stack, and the place of x30 in the context with the word behind it. *)
Record leaves (sp br p bp : Z) (ws code : list Z) (m mu : memory) : Prop := {
  lv_closure : code_at m p ws → code_at mu p ws;
  lv_bridge h : code_at m br (bridge_words h) → code_at mu br (bridge_words h);
  lv_relocated : code_at m bp code → code_at mu bp code;
  lv_stack : stack_free mu sp;
  lv_lr : number_of mu 8 (general_x (sp - STACK) 30) = number_of m 8 (general_x (sp - STACK) 30)
}.

(** The machine behind the handler has the registers of the context in [m]. *)
Record resumed (sp bp : Z) (m : memory) t2 t3 : Prop := {
  rs_pc : pc t3 = bp;
  rs_x k : (k < 30)%nat → k ≠ 17%nat → xreg t3 (Z.of_nat k) = number_of m 8 (general_x (sp - STACK) (Z.of_nat k));
  rs_x30 : xreg t3 30 = number_of m 8 (sp - 8);
  rs_q k : (k < 8)%nat → qreg t3 (Z.of_nat k) = number_of m 16 (sp - STACK + 272 + 16 * Z.of_nat k);
  rs_sp : spreg t3 = sp;
  rs_rest : mem t3 = mem t2 ∧ flags t3 = flags t2
}.

Lemma called_same t t' p e br h t1 :
  same_but_tmp t t' → handler_called t' p e br h t1 → handler_called t p e br h t1.
Proof using Type.
  intros Hs [H1 H2 H3 [C1 C2 C3 C4 C5] H5 H6].
  assert (Hx : ∀ r, r ≠ 17 → xreg t r = xreg t' r) by (intros r Hr; by apply same_but_tmp_reg).
  destruct Hs as (_ & _ & Hsp & _ & Hm & Ho). rewrite <- Hsp in *. rewrite <- Hm in H5, H6.
  split; try done. split; try done.
  - intros k Hk Hne. rewrite (Hx (Z.of_nat k)) by lia. by apply C1.
  - intros k Hk. unfold qreg. rewrite Ho. by apply C2.
  - by rewrite Hx.
Qed.

(** The next hop is written into the context, and nothing else. *)
Lemma next_hop_slot sp k : STACK ≤ sp ∧ sp < 2 ^ 63 → (k ≤ 30)%nat →
  sp - STACK + 24 ≤ general_x (sp - STACK) (Z.of_nat k) ∧ general_x (sp - STACK) (Z.of_nat k) = sp - STACK + 24 + 8 * Z.of_nat k.
Proof using Type. intros Hs Hk. rewrite general_x_at by lia. lia. Qed.

Lemma handler_resumes sp br p e bp ws code h t1 mu t2 :
  let ctx := sp - STACK in
  let m' := write_number 8 (general_x ctx 17) bp mu in
  ws = closure_words e br → (0 ≤ p ∧ p + 52 < 2 ^ 63) → (0 ≤ br ∧ br + 228 < 2 ^ 63) → 0 ≤ bp < 2 ^ 63 →
  stack_apart sp br p bp (4 * Z.of_nat (length code)) →
  code_at (mem t1) p ws → code_at (mem t1) br (bridge_words h) → number_of (mem t1) 8 (general_x ctx 30) = p + 24 →
  leaves sp br p bp ws code (mem t1) mu → mem t2 = m' → pc t2 = br + 136 → spreg t2 = ctx →
  ∃ t3, goes exec_more t2 t3 ∧ resumed sp bp mu t2 t3.
Proof using Type.
  intros ctx m' -> Hp Hbr Hbp [A1 A2 A3] Hcp Hcb Hlr [L1 L2 _ [S1 S2 S3] L5] Hm Hpc Hsp.
  assert (Hslot : ∀ k, (k ≤ 30)%nat → general_x ctx (Z.of_nat k) = ctx + 24 + 8 * Z.of_nat k).
  { intros k Hk. by apply next_hop_slot. }
  pose proof (Hslot 17%nat ltac:(lia)) as H17. change (Z.of_nat 17) with 17 in H17.
  assert (Hkeep : ∀ n x, x + Z.of_nat n ≤ ctx + 160 ∨ ctx + 168 ≤ x → number_of m' n x = number_of mu n x).
  { intros n x Hx. unfold m'. rewrite number_of_write_ne; [done|lia]. }
  assert (Hcode : ∀ x cs, x + 4 * Z.of_nat (length cs) ≤ ctx ∨ sp ≤ x → code_at mu x cs → code_at m' x cs).
  { intros x cs Hx. apply write_keeps_code. unfold ctx, STACK in *. lia. }
  destruct (closure_returns exec_more p e br h ctx t2) as (t3 & Hgo & [G1 G2 G3 G4 G5 G6]); rewrite ?Hm.
  - replace (ctx + STACK) with sp by lia. split; [done| |]; intros b Hb; [by apply S2|by apply S3].
  - replace (ctx + STACK) with sp by lia. split; [by apply Hcode; [cbn; lia|apply L1]|cbn; lia..].
  - replace (ctx + STACK) with sp by lia. split; [by apply Hcode; [cbn; lia|apply L2]|cbn; lia..].
  - done.
  - done.
  - rewrite Hkeep; [exact (eq_trans L5 Hlr)|]. pose proof (Hslot 30%nat ltac:(lia)) as H30. change (Z.of_nat 30) with 30 in H30. lia.
  - exists t3. split; [done|]. rewrite Hm in *. split.
    + rewrite G1. unfold m'. rewrite number_of_write_eq. apply Z.mod_small. lia.
    + intros k Hk Hne. rewrite G2 by done. apply Hkeep. rewrite Hslot by lia. lia.
    + rewrite G3, Hkeep; [f_equal|]; unfold ctx, STACK; lia.
    + intros k Hk. rewrite G4 by done. apply Hkeep. lia.
    + lia.
    + by rewrite Hm.
Qed.

(** To the handler, from the patch. *)
Lemma patch_calls a p e br h t :
  0 ≤ a → a + 16 < 2 ^ 63 → 0 ≤ p → p + 52 < 2 ^ 63 → 0 ≤ br → br + 228 < 2 ^ 63 → adrp_reaches a p →
  0 ≤ e < 2 ^ 64 → 0 ≤ h < 2 ^ 63 → stack_free (mem t) (spreg t) →
  (br + 228 ≤ spreg t - STACK ∨ spreg t ≤ br) → (p + 52 ≤ spreg t - STACK ∨ spreg t ≤ p) →
  code_at (mem t) a (normal_words a p) → code_at (mem t) p (closure_words e br) → code_at (mem t) br (bridge_words h) →
  pc t = a → ∃ t1, goes exec_more t t1 ∧ handler_called t p e br h t1.
Proof using Type.
  intros Ha Ha' Hp Hp' Hb Hb' Hreach He Hh Hs Hab Hap Hc Hc' Hc'' Hpc.
  destruct (normal_trampoline_jumps (exec_other exec_more) a p t Ha Ha' ltac:(lia) Hreach Hc Hpc)
    as (n & t' & Hn & Hpc' & Hsame & Hm).
  assert (Hsp : spreg t' = spreg t) by (symmetry; apply Hsame).
  destruct (closure_calls exec_more p e br h t') as (t1 & G & Hcall); rewrite ?Hm, ?Hsp; try done.
  exists t1. split; [etransitivity; [by exists n|done]|by eapply called_same].
Qed.

(** What the machine's stack does to code that it is apart from: nothing. *)
Lemma called_keeps_code t p e br h t1 a ws :
  handler_called t p e br h t1 → a + 4 * Z.of_nat (length ws) ≤ spreg t - STACK ∨ spreg t ≤ a →
  code_at (mem t) a ws → code_at (mem t1) a ws.
Proof using Type.
  intros Hcall Ha Hc i w Hi. pose proof (lookup_lt_Some _ _ _ Hi). destruct (Hc i w Hi) as (H1 & H2 & H3).
  rewrite !(hc_prot _ _ _ _ _ _ Hcall). split_and!; [done..|]. rewrite <- H3. apply number_of_ext.
  intros b Hb. apply (hc_mem _ _ _ _ _ _ Hcall). lia.
Qed.

(** C3: a machine that comes to an instrumented address calls the handler with
    its registers, and goes on, with the registers that the handler leaves in
    the context, at a copy of the instructions there.  The closure's trampoline
    at [p] is in the reach of the adrp where the jump to it uses one
    (adrp_trampoline_overflows), and the copy simulates the instructions as far
    as those executed are [portable]: no use of X17, no B.AL or B.NV, of the
    literal loads only the 64-bit one of a general register. *)
Theorem DobbyInstrument_calls_handler s a pre ws body br p bp :
  let code := final_words (relocation a ws body) in
  let e := closure_entry_ptr (length (closure_entries s)) in
  instrumentable s a ws body br p bp → adrp_reaches a p →
  ∃ s', DobbyInstrument a pre s = (Ret RS_SUCCESS, s') ∧
    ∀ t, mem t = d_mem (i_dobby s') → pc t = a → stack_free (mem t) (spreg t) →
      stack_apart (spreg t) br p bp (4 * Z.of_nat (length code)) →
      ∃ t1, goes exec_more t t1 ∧ handler_called t p e br handler t1 ∧
        ∀ mu, handled pre a (spreg t - STACK) (mem t1) mu →
          leaves (spreg t) br p bp (closure_words e br) code (mem t1) mu →
          ∃ m', common_closure_bridge_handler (xreg t1 0) (xreg t1 1) (at_memory (mem t1) s') = (Ret tt, at_memory m' s') ∧
            ∀ t2, mem t2 = m' → pc t2 = xreg t1 30 → spreg t2 = spreg t1 →
              ∃ t3, goes exec_more t2 t3 ∧ resumed (spreg t) bp mu t2 t3 ∧
                ∀ c, pc c = a → same_but_tmp c t3 →
                  simulates (exec_other exec_more) a bp ws (relocation a ws body) c t3.
Proof using laws permits.
  intros code e K Hreach. destruct (DobbyInstrument_run s a pre ws body br p bp K) as (s' & Hrun & HI).
  exists s'. split; [done|]. intros t Hmem Hpc Hsf Hsa. pose proof (normal_words_length a p) as Hnl.
  destruct K as [K1 _ _ _ _ [P1 P2 P3] _ _ K9 _ K11 K12 _ _].
  destruct HI as [I1 I2 [_ I3 I3'] I4 [I5 I6] (r & I7 & I8 & I9 & I10) I11 _]. fold code e in I2, I4, I6, K12.
  rewrite <- Hmem in I1, I2, I3, I4. pose proof Hsa as [A1 A2 A3]. pose proof Hsf as [Hsp _ _].
  destruct (patch_calls a p e br handler t) as (t1 & G1 & Hcall); try done; try lia; [by apply P2|].
  exists t1. split_and!; [done..|]. intros mu Hmu Hl. set (ctx := spreg t - STACK).
  pose proof (called_keeps_code _ _ _ _ _ _ p (closure_words e br) Hcall A2 I2) as C2.
  pose proof (called_keeps_code _ _ _ _ _ _ br (bridge_words handler) Hcall A1 I3) as C3.
  pose proof (called_keeps_code _ _ _ _ _ _ bp code Hcall A3 I4) as C4.
  destruct (hc_args _ _ _ _ _ _ Hcall) as [-> ->]. destruct (hc_back _ _ _ _ _ _ Hcall) as [-> ->]. fold ctx.
  set (n := length (closure_entries s)) in *.
  exists (write_number 8 (general_x ctx 17) bp mu). split.
  - pose proof (common_closure_bridge_handler_run s' ctx n (mkClosureEntry p 52 instrument_routing_dispatch_ptr (length (routings s)))
      (mkInstrumentRouting r pre 0) (mem t1) mu) as Hh. cbn [pre_handler base carry_data] in Hh. rewrite I9, I8 in Hh.
    apply Hh; [|by rewrite I11, list_lookup_middle|by rewrite I10, list_lookup_middle|done|].
    + apply find_entry_at; rewrite I11, length_app; cbn [length]; [|unfold n; lia]. intros j k Hjk. apply P3. unfold n in *. lia.
    + pose proof (next_hop_slot (spreg t) 17 Hsp ltac:(lia)) as [_ H17]. change (Z.of_nat 17) with 17 in H17.
      apply allows_all. intros b Hb. apply (sf_write _ _ (lv_stack _ _ _ _ _ _ _ _ Hl)). unfold ctx, STACK in *. lia.
  - intros t2 Hm2 Hp2 Hs2. pose proof (hc_context _ _ _ _ _ _ Hcall) as [_ _ _ Hlr _].
    destruct (handler_resumes (spreg t) br p e bp _ code handler t1 mu t2 eq_refl ltac:(lia) ltac:(lia) ltac:(lia) Hsa C2 C3 Hlr Hl Hm2 Hp2 Hs2)
      as (t3 & G3 & Hr3).
    exists t3. split_and!; [done..|]. intros c Hc Hsame. destruct (rs_rest _ _ _ _ _ Hr3) as [Hm3 _].
    apply code_simulates; [lia|done|done|lia| |by apply Hr3|done|done]. rewrite Hm3, Hm2.
    apply write_keeps_code; [|by apply Hl]. pose proof (next_hop_slot (spreg t) 17 Hsp ltac:(lia)) as [_ H17].
    change (Z.of_nat 17) with 17 in H17. fold ctx in H17. rewrite H17. fold code. unfold ctx, STACK in *. lia.
Qed.

End machine.

End closure.
End os.

(** ** An instruction that is instrumented *)

(** The process of the hook, with a handler that sets x0 to 42. *)
Definition sample_proc : Process := {|
  closure_entry_ptr i := 0x40000 + 24 * Z.of_nat i;
  common_closure_bridge_handler_ptr := 0x50000;
  call_handler _ _ ctx := store 8 (general_x ctx 0) 42
|}.
Definition sample_instruments : instruments := mkInstruments hook_process 0 [] [].
Definition run_instrument : outcome Z * instruments :=
  let os := sample_os None (hook_entry 0) in let proc := sample_proc in DobbyInstrument 0x10000 0x30000 sample_instruments.

(** The allocator hands out block after block of one page that it maps. *)
Lemma grants_cons {os : OS} n p l s :
  p ≠ 0 → fst (allocateExecBlock n s) = Ret (MemBlock_new p n) →
  (∀ m, grants l (set_mem m (snd (allocateExecBlock n s)))) → grants ((n, p) :: l) s.
Proof.
  intros Hp Ha Hl. split; [done|]. exists (snd (allocateExecBlock n s)). rewrite <- Ha.
  split; [by destruct (allocateExecBlock n s)|]. intros bs m _ _. apply Hl.
Qed.

Lemma sample_granted :
  let os := sample_os None (hook_entry 0) in
  grants [(228, 0x21000); (52, 0x210e4); (88, 0x21118)] (after_protect hook_process 0x10000).
Proof.
  intros os. apply grants_cons; [done|vm_compute; reflexivity|]. intros m.
  apply grants_cons; [done|vm_compute; reflexivity|]. intros m'.
  apply grants_cons; [done|vm_compute; reflexivity|]. done.
Qed.

Lemma sample_instrumentable :
  let os := sample_os None (hook_entry 0) in let proc := sample_proc in
  instrumentable sample_instruments 0x10000 sample_words hook_body 0x21000 0x210e4 0x21118.
Proof.
  intros os proc. destruct (hook_process_hookable 0) as [_ _ _ _ _ _ H7 H8 _]. destruct H8 as [R1 R2 R3 R4 R5 R6 _ _].
  split; try done.
  - vm_compute. eauto.
  - split; [done| |].
    + intros i Hi. change (length (closure_entries sample_instruments)) with 0%nat in Hi.
      replace i with 0%nat by lia. done.
    + intros i j Hij. change (length (closure_entries sample_instruments)) with 0%nat in Hij. lia.
  - left. split; [done|]. exact sample_granted.
Qed.

(** A machine at the instruction, with its stack in the page behind. *)
Definition sample_machine (m : memory) : cpu ((Z → Z) * unit) :=
  mkCpu (λ _, 7) 0x20800 (mkNZCV false false false false) 0x10000 m (λ _, 9, tt).
Definition no_more (_ : Z) (_ : cpu ((Z → Z) * unit)) : option (option Z * cpu ((Z → Z) * unit)) := None.

Lemma sample_stack (q : Z) :
  q = PROT_READ ∨ q = PROT_WRITE →
  ∀ b, 0x20800 - STACK ≤ b < 0x20800 → byte_allows q (d_mem (i_dobby (snd run_instrument))) b = true.
Proof.
  intros Hq b Hb. unfold STACK in Hb. assert (E : b / PAGE_SIZE = 32) by (unfold PAGE_SIZE; Z.to_euclidean_division_equations; lia).
  unfold byte_allows, prot_at. rewrite E. destruct Hq as [->| ->]; vm_compute; reflexivity.
Qed.

Lemma stack_free_same m m' sp :
  (∀ q n a, allows q n a m' = allows q n a m) → stack_free m sp → stack_free m' sp.
Proof.
  intros H [H1 H2 H3]. split; [done| |]; intros b Hb.
  - apply (allows_elim PROT_WRITE 1 b m'); [|lia]. rewrite H. apply allows_all. intros x Hx. apply H2. lia.
  - apply (allows_elim PROT_READ 1 b m'); [|lia]. rewrite H. apply allows_all. intros x Hx. apply H3. lia.
Qed.

(** The handler does what it may: it writes x0 in the context. *)
Lemma sample_leaves m ws code :
  let proc := sample_proc in let ctx := 0x20800 - STACK in
  let mu := write_number 8 (general_x ctx 0) 42 m in
  length ws = 13%nat → length code = 22%nat → stack_free m 0x20800 →
  handled 0x30000 0x10000 ctx m mu ∧ leaves 0x20800 0x21000 0x210e4 0x21118 ws code m mu.
Proof.
  intros proc ctx mu Hws Hcode [S1 S2 S3]. assert (Hslot : general_x ctx 0 = 0x20800 - STACK + 24) by done.
  split.
  - unfold handled. change (truthy 0x30000) with true. cbv iota. cbn [call_handler proc sample_proc]. unfold store, mu.
    assert (Ha : allows PROT_WRITE 8 (general_x ctx 0) m = true); [|by rewrite Ha].
    apply allows_all. intros b Hb. apply S2. rewrite Hslot in Hb. unfold STACK in *. lia.
  - split.
    + apply write_keeps_code. rewrite Hslot, Hws. unfold STACK. lia.
    + intros h. apply write_keeps_code. change (length (bridge_words h)) with 57%nat. rewrite Hslot. unfold STACK. lia.
    + apply write_keeps_code. rewrite Hslot, Hcode. unfold STACK. lia.
    + apply (stack_free_same m); [|by split]. intros q n a. apply allows_write.
    + apply number_of_write_ne. change (general_x (0x20800 - STACK) 30) with (0x20800 - STACK + 264). rewrite Hslot. lia.
Qed.

Lemma DobbyInstrument_calls_handler_witness :
  let os := sample_os None (hook_entry 0) in let proc := sample_proc in
  ∃ s', DobbyInstrument 0x10000 0x30000 sample_instruments = (Ret RS_SUCCESS, s') ∧
    ∃ t1, goes no_more (sample_machine (d_mem (i_dobby s'))) t1 ∧ pc t1 = 0x50000 ∧ xreg t1 1 = 0x40000 ∧
      number_of (mem t1) 8 (general_x (0x20800 - STACK) 3) = 7 ∧
      ∃ t2 t3, goes no_more t2 t3 ∧ pc t3 = 0x21118 ∧ xreg t3 0 = 42 ∧ spreg t3 = 0x20800.
Proof.
  intros os proc.
  destruct (DobbyInstrument_calls_handler no_more sample_instruments 0x10000 0x30000 sample_words hook_body 0x21000 0x210e4 0x21118
    sample_instrumentable) as (s' & H1 & H2); [intros _; vm_compute; done|].
  exists s'. split; [exact H1|]. assert (Hs : s' = snd run_instrument) by exact (eq_sym (f_equal snd H1)).
  assert (Hfree : stack_free (d_mem (i_dobby s')) 0x20800).
  { rewrite Hs. split; [unfold STACK; lia|apply sample_stack; by right|apply sample_stack; by left]. }
  clear Hs. destruct (H2 (sample_machine (d_mem (i_dobby s'))) eq_refl eq_refl Hfree) as (t1 & G1 & Hc & Hrest).
  { split; cbn [spreg sample_machine]; unfold STACK; [lia..|vm_compute; by right]. }
  exists t1. split_and!; [exact G1|apply Hc|apply Hc|exact (ctx_x _ _ _ _ (hc_context _ _ _ _ _ _ Hc) 3 ltac:(lia) ltac:(lia))|].
  destruct (sample_leaves (mem t1) (closure_words 0x40000 0x21000) (final_words (relocation 0x10000 sample_words hook_body))) as [L1 L2];
    [done|vm_compute; done|apply (stack_free_same _ _ _ (hc_prot _ _ _ _ _ _ Hc)); exact Hfree|].
  destruct (Hrest _ L1 L2) as (m' & _ & H3).
  destruct (H3 (mkCpu (λ _, 0) (spreg t1) (flags t1) (xreg t1 30) m' (other t1)) eq_refl eq_refl eq_refl) as (t3 & G3 & Hr & _).
  exists (mkCpu (λ _, 0) (spreg t1) (flags t1) (xreg t1 30) m' (other t1)), t3. split_and!; [exact G3|apply Hr| |apply Hr].
  pose proof (rs_x _ _ _ _ _ Hr 0 ltac:(lia) ltac:(lia)) as X. change (Z.of_nat 0) with 0 in X. rewrite X.
  by rewrite number_of_write_eq.
Defined.
