(* ===== verification/X64Spec.v ===== *)
(** * A reference semantics of x86-64 code

    Decoding and execution after the Intel manual of the control transfers the
    x64 relocator reads and writes; every other instruction is a parameter.
    The lengths are those of X86Correct.v, independent of the decoder. *)

From S2P Require Import Prelude CMem X86Spec X86Tables X86Decode X86Props X86Correct X86Rip.

#[local] Open Scope cint_scope.

(** ** Instructions *)

(** Offsets count from the end of the instruction. *)
Inductive xinsn : Set :=
  | XJcc (cc off : Z)
  | XJmp (off : Z)
  | XCall (off : Z)
  | XJmpMem (off : Z)           (* JMP [RIP + off] *)
  | XCallMem (off : Z)
  | XRelative (bytes : list Z)  (* an operand at a distance from RIP *)
  | XOther (bytes : list Z)     (* reads no RIP *)
  | XUnknown.

(** Other instructions that read RIP: SYSCALL, SYSENTER, INT3, INT, ICEBP and
    XBEGIN. *)
Definition reads_rip (k opc m : Z) : bool :=
  if k =? 1 then one_of [0xcc; 0xcd; 0xf1] opc || ((opc =? 0xc7) && (m =? 0xf8))
  else one_of [0x05; 0x34] opc.

(** The branch with an opcode of [k] bytes, the last one [opc]. *)
Definition branch_of (k opc off : Z) : xinsn :=
  if (k =? 2) || in_range 0x70 0x7f opc then XJcc (opc & 15) off
  else if opc =? 0xe8 then XCall off
  else if one_of [0xe9; 0xeb] opc then XJmp off
  else XUnknown.

(** The instruction at the start of [bs] and its length. *)
Definition decode_x (bs : list Z) : xinsn * Z :=
  let c := opcode_start 64 bs in
  let k := opcode_size bs c in
  let opc := opcode_at bs c in
  let m := byte_at bs (c + k) in
  let bits := branch_bits k opc in
  if negb (bits =? 0) then
    if c =? 0 then (branch_of k opc (sint bits (number_at bs k bits)), k + bits / 8)
    else (XUnknown, 0)
  else if (c =? 0) && (k =? 1) && (opc =? 0xff) && one_of [0x15; 0x25] m then
    let off := sint 32 (number_at bs 2 32) in
    (if m =? 0x25 then XJmpMem off else XCallMem off, 6)
  else if negb (entry_known k opc) || reads_rip k opc m then (XUnknown, 0)
  else
    let n := manual_length bs in
    if 15 <? n then (XUnknown, 0)
    else if entry_modrm k opc && rip_form m then (XRelative (take (Z.to_nat n) bs), n)
    else (XOther (take (Z.to_nat n) bs), n).

(** ** The machine *)

(** The registers and everything else but the memory are [regs]. *)
Record xcpu (V : Type) : Type := mkXcpu { rip : Z; xmem : memory; regs : V }.
Arguments mkXcpu {V}.
Arguments rip {V}.
Arguments xmem {V}.
Arguments regs {V}.

Section machine.
Context {V : Type}.
Implicit Types s : xcpu V.

Definition set_rip (p : Z) s : xcpu V := mkXcpu (u64 p) (xmem s) (regs s).

(** The condition codes, a push on the stack, and the effect of the
    instructions that read no RIP, on a machine whose RIP is 0: where they
    jump, if they do, and the machine after them. *)
Context (cc_holds : Z → V → bool) (push : Z → xcpu V → option (xcpu V)).
Context (exec_other : list Z → xcpu V → option (option Z * xcpu V)).

Definition jump_mem (p : Z) s : option (xcpu V) :=
  let a := u64 p in
  if allows PROT_READ 8 a (xmem s) then Some (set_rip (number_of (xmem s) 8 a) s) else None.

(** The instruction [i] of [n] bytes at RIP. *)
Definition xexec (i : xinsn) (n : Z) s : option (xcpu V) :=
  let next := rip s + n in
  match i with
  | XJcc cc off => Some (set_rip (if cc_holds cc (regs s) then next + off else next) s)
  | XJmp off => Some (set_rip (next + off) s)
  | XCall off => s' ← push (u64 next) s; Some (set_rip (next + off) s')
  | XJmpMem off => jump_mem (next + off) s
  | XCallMem off => s' ← push (u64 next) s; jump_mem (next + off) s'
  | XOther bytes =>
      '(target, s') ← exec_other bytes (set_rip 0 s);
      Some (set_rip (default next target) s')
  | XRelative _ | XUnknown => None
  end.

Definition fetch (m : memory) (a : Z) : list Z := (λ i, byte_of m (a + Z.of_nat i)) <$> seq 0 15.

Definition xstep s : option (xcpu V) :=
  let '(i, n) := decode_x (fetch (xmem s) (rip s)) in
  if allows PROT_EXEC (Z.to_nat n) (rip s) (xmem s) then xexec i n s else None.

Fixpoint xsteps (n : nat) s : option (xcpu V) :=
  match n with
  | O => Some s
  | S n => s' ← xstep s; xsteps n s'
  end.

Lemma xsteps_add n k s s' s'' :
  xsteps n s = Some s' → xsteps k s' = Some s'' → xsteps (n + k) s = Some s''.
Proof.
  revert s. induction n as [|n IH]; simpl; intros s H1 H2; [by simplify_eq|].
  destruct (xstep s) as [t|]; simpl in *; [|done]. eauto.
Qed.

End machine.

(** ** Decoding looks at the instruction only *)

(** [bs] and [bs'] have the same first [n] bytes. *)
Definition same_bytes (n : Z) (bs bs' : list Z) : Prop := take (Z.to_nat n) bs = take (Z.to_nat n) bs'.

Lemma same_bytes_at n bs bs' p : same_bytes n bs bs' → 0 ≤ p < n → byte_at bs' p = byte_at bs p.
Proof.
  intros H Hp. unfold byte_at. rewrite <- (lookup_take_lt bs (Z.to_nat n)), H, lookup_take_lt by lia. done.
Qed.

Lemma same_bytes_le n k bs bs' : same_bytes n bs bs' → 0 ≤ k ≤ n → same_bytes k bs bs'.
Proof.
  unfold same_bytes. intros H Hk. apply (f_equal (take (Z.to_nat k))) in H.
  by rewrite !take_take, !Nat.min_l in H by lia.
Qed.

Lemma legacy_run_local k bs bs' :
  take k bs = take k bs' → (length (legacy_run 64 bs) < k)%nat → legacy_run 64 bs' = legacy_run 64 bs.
Proof.
  revert k bs'. induction bs as [|b bs IH]; intros k bs' Ht Hk.
  - destruct k; [simpl in Hk; lia|]. by destruct bs'.
  - destruct k; [lia|]. destruct bs' as [|b' bs']; [done|]. simpl in Ht. injection Ht as -> Ht.
    simpl in Hk |- *. repeat case_match; try done. simpl in Hk. f_equal. apply (IH k); [done|lia].
Qed.

Lemma prefix_end_le bs : 0 ≤ prefix_end 64 bs ≤ opcode_start 64 bs.
Proof. unfold opcode_start, prefix_end. pose proof (rex_size_bounds 64 (byte_at bs (Z.of_nat (length (legacy_run 64 bs))))). lia. Qed.

Lemma opcode_start_local n bs bs' :
  same_bytes n bs bs' → opcode_start 64 bs < n →
  legacy_run 64 bs' = legacy_run 64 bs ∧ opcode_start 64 bs' = opcode_start 64 bs ∧
  byte_at bs' (prefix_end 64 bs) = byte_at bs (prefix_end 64 bs).
Proof.
  intros Hs Hn. pose proof (prefix_end_le bs) as Hp.
  assert (Hr : legacy_run 64 bs' = legacy_run 64 bs).
  { apply (legacy_run_local (Z.to_nat n)); [done|]. unfold prefix_end in Hp. lia. }
  assert (Hb : byte_at bs' (prefix_end 64 bs) = byte_at bs (prefix_end 64 bs)) by (eapply same_bytes_at; [done|lia]).
  split_and!; [done| |done]. unfold opcode_start. unfold prefix_end in *. by rewrite Hr, Hb.
Qed.

Lemma opcode_local n bs bs' c :
  same_bytes n bs bs' → 0 ≤ c → c + opcode_size bs c ≤ n →
  opcode_size bs' c = opcode_size bs c ∧ opcode_at bs' c = opcode_at bs c.
Proof.
  intros Hs Hc Hn. pose proof (opcode_size_bounds bs c).
  unfold opcode_size, opcode_at in *. rewrite !(same_bytes_at n bs bs') by (done || lia).
  destruct (byte_at bs c =? 0x0f); [|done]. by rewrite (same_bytes_at n bs bs' (c + 1)) by (done || lia).
Qed.

Lemma entry_imm_nonneg w k opc : 0 ≤ entry_imm w k opc.
Proof. unfold entry_imm, manual_imm, manual2_imm. repeat case_match; lia. Qed.
Lemma manual_disp_nonneg m sib : 0 ≤ manual_disp m sib / 8.
Proof. destruct (manual_disp_cases m sib) as [-> | [-> | ->]]; by vm_compute. Qed.

(** The parts of an instruction's length. *)
Lemma manual_length_parts bs :
  let c := opcode_start 64 bs in
  let k := opcode_size bs c in
  let m := byte_at bs (c + k) in
  c + k + (if entry_modrm k (opcode_at bs c) then manual_pre m else 0) ≤ manual_length bs.
Proof.
  cbv zeta. unfold manual_length.
  pose proof (entry_imm_nonneg (rex_w (byte_at bs (prefix_end 64 bs))) (opcode_size bs (opcode_start 64 bs))
    (opcode_at bs (opcode_start 64 bs))).
  case_match; [|lia]. match goal with |- context [manual_disp ?m ?s] => pose proof (manual_disp_nonneg m s) end. lia.
Qed.

Lemma manual_pre_bounds m : 1 ≤ manual_pre m ≤ 2.
Proof. unfold manual_pre. case_match; lia. Qed.

Lemma manual_disp_sib m s s' : manual_pre m = 1 → manual_disp m s = manual_disp m s'.
Proof.
  unfold manual_pre, manual_disp. intros H. destruct (modrm_mode m =? 0) eqn:E0; [|done].
  apply Z.eqb_eq in E0. rewrite E0 in H. simpl in H. destruct (modrm_rm m =? 5); [done|].
  by destruct (modrm_rm m =? 4).
Qed.

Lemma manual_length_local bs bs' :
  same_bytes (manual_length bs) bs bs' → manual_length bs' = manual_length bs.
Proof.
  intros Hs. pose proof (manual_length_parts bs) as Hp. cbv zeta in Hp. pose proof (prefix_end_le bs).
  pose proof (opcode_size_bounds bs (opcode_start 64 bs)). pose proof (manual_pre_bounds (byte_at bs (opcode_start 64 bs + opcode_size bs (opcode_start 64 bs)))).
  destruct (opcode_start_local _ _ _ Hs) as (Hr & Hc & Hb); [case_match; lia|].
  destruct (opcode_local _ _ _ (opcode_start 64 bs) Hs) as [Hk Ho]; [lia|case_match; lia|].
  assert (Hpe : prefix_end 64 bs' = prefix_end 64 bs) by (unfold prefix_end; by rewrite Hr).
  revert Hp. unfold manual_length at 2 3. rewrite Hpe, Hc, Hk, Ho, Hb.
  destruct (entry_modrm _ _); [|done]. intros Hp. do 2 f_equal.
  rewrite (same_bytes_at (manual_length bs) bs bs' (_ + opcode_size _ _)) by (done || lia). f_equal.
  set (m := byte_at bs (_ + opcode_size _ _)) in *.
  destruct (decide (manual_pre m = 1)) as [Hm1|Hm1]; [by rewrite (manual_disp_sib m _ (byte_at bs (opcode_start 64 bs + opcode_size bs (opcode_start 64 bs) + 1)))|].
  rewrite (same_bytes_at (manual_length bs) bs bs' (_ + _ + 1)) by (done || lia). done.
Qed.

Lemma number_at_local n bs bs' p bits :
  same_bytes n bs bs' → bits = 8 ∨ bits = 32 → 0 ≤ p → p + bits / 8 ≤ n → number_at bs' p bits = number_at bs p bits.
Proof.
  intros Hs Hb Hp Hn. unfold number_at.
  destruct Hb as [-> | ->]; [change (8 / 8) with 1 in Hn|change (32 / 8) with 4 in Hn]; simpl;
    by rewrite !(same_bytes_at n bs bs') by (done || lia).
Qed.

Lemma decode_x_local bs bs' i n :
  decode_x bs = (i, n) → i ≠ XUnknown → same_bytes n bs bs' → decode_x bs' = (i, n).
Proof.
  unfold decode_x. set (c := opcode_start 64 bs). set (k := opcode_size bs c). set (opc := opcode_at bs c).
  set (m := byte_at bs (c + k)). pose proof (opcode_size_bounds bs c) as Hk. fold k in Hk.
  pose proof (prefix_end_le bs) as Hpe. fold c in Hpe. intros Hd Hi Hs.
  assert (Hloc : c + k ≤ n → opcode_start 64 bs' = c ∧ opcode_size bs' c = k ∧ opcode_at bs' c = opc).
  { intros H. destruct (opcode_start_local _ _ _ Hs) as (_ & Hc & _); [fold c; lia|].
    destruct (opcode_local _ _ _ c Hs) as [? ?]; [lia|fold k; lia|]. done. }
  destruct (branch_bits k opc =? 0) eqn:Hbits; cbn [negb] in Hd.
  - destruct ((c =? 0) && (k =? 1) && (opc =? 0xff) && one_of [0x15; 0x25] m) eqn:Hff.
    + assert (n = 6) as -> by (by injection Hd).
      rewrite !andb_true_iff, !Z.eqb_eq in Hff. destruct Hff as (((Hc0 & Hk1) & Hopc) & Hm).
      destruct Hloc as (-> & -> & ->); [lia|]. rewrite Hbits. cbn [negb].
      rewrite (same_bytes_at 6 bs bs') by (done || lia). fold m.
      rewrite (number_at_local 6 bs bs') by (done || lia || by right).
      by rewrite (proj2 (Z.eqb_eq _ _) Hc0), (proj2 (Z.eqb_eq _ _) Hk1), (proj2 (Z.eqb_eq _ _) Hopc), Hm.
    + destruct (negb (entry_known k opc) || reads_rip k opc m) eqn:Hkn; [by simplify_eq|].
      destruct (15 <? manual_length bs) eqn:H15; [by simplify_eq|].
      assert (manual_length bs = n) as Hn by (by destruct (_ && rip_form m); injection Hd).
      pose proof (manual_length_parts bs) as Hp. cbv zeta in Hp. fold c k opc m in Hp. rewrite Hn in Hp.
      pose proof (manual_pre_bounds m).
      destruct Hloc as (-> & -> & ->); [case_match; lia|]. rewrite Hbits. cbn [negb].
      apply orb_false_iff in Hkn as [Hkn Hrr]. apply negb_false_iff in Hkn.
      assert (Hff' : ∀ m', (c =? 0) && (k =? 1) && (opc =? 0xff) && one_of [0x15; 0x25] m' = false).
      { intros m'. destruct (Z.eqb_spec k 1) as [Ek|]; [|by rewrite andb_false_r].
        destruct (Z.eqb_spec opc 0xff) as [Eo|]; [|by rewrite andb_false_r].
        rewrite Ek, Eo in Hkn. by vm_compute in Hkn. }
      rewrite Hff', Hkn. cbn [negb orb]. rewrite (manual_length_local bs bs'), Hn by by rewrite Hn.
      rewrite Hn in H15, Hd. rewrite H15.
      assert (Ht : take (Z.to_nat n) bs' = take (Z.to_nat n) bs) by done. rewrite Ht.
      destruct (entry_modrm k opc) eqn:Hem.
      * rewrite (same_bytes_at n bs bs' (c + k)) by (done || lia). fold m. by rewrite Hrr.
      * assert (Hrr' : reads_rip k opc (byte_at bs' (c + k)) = false).
        { revert Hrr. unfold reads_rip. destruct (Z.eqb_spec k 1) as [Ek|]; [|done].
          destruct (Z.eqb_spec opc 0xc7) as [Eo|]; [|done]. rewrite Ek, Eo in Hem. by vm_compute in Hem. }
        by rewrite Hrr'.
  - apply Z.eqb_neq in Hbits. destruct (branch_entry bs c Hbits) as (_ & _ & _ & Hb). fold k opc in Hb.
    destruct (Z.eqb_spec c 0) as [Hc0|]; [|by simplify_eq].
    injection Hd as <- <-. assert (Hb8 : 1 ≤ branch_bits k opc / 8) by (destruct Hb as [-> | ->]; by vm_compute).
    destruct Hloc as (-> & -> & ->); [lia|]. rewrite (proj2 (Z.eqb_neq _ _) Hbits), (proj2 (Z.eqb_eq _ _) Hc0). cbn [negb].
    by rewrite (number_at_local _ bs bs' k _ Hs) by (done || lia).
Qed.
