(* ===== verification/X64Reloc.v ===== *)
(** * The x64 relocator of Dobby

    InstructionRelocationX86Shared.cc and InstructionRelocationX64.cc, the
    relocation that uses the instruction decoder of X86Decode.v, and
    trampoline_x64.cc, compiled for TARGET_ARCH_X64.  The assembler is the
    AssemblerBase of A64Asm.v: a code buffer and the address it will run at. *)

From S2P Require Import Prelude CMem XhUtil X86Spec X86Tables X86Decode DobbyBits DobbyMem A64Asm A64Reloc.

#[local] Open Scope cint_scope.

(** ** The code buffer and the code generator *)

Definition Emit8 (data : Z) : AM unit := EmitBuffer [u8 data].

(** [TurboAssembler::CurrentIP] *)
Definition CurrentIP : AM Z := gets (λ a, Z.of_nat (length (buffer_ a)) ⊕ realized_addr_ a).

(** codegen-x64.cc *)
Definition JmpNearIndirect (forward_stub_addr : Z) : AM unit :=
  ip ← CurrentIP;
  let currIP := ip ⊕ 6 in
  let offset := sint 32 (forward_stub_addr - currIP) in
  _ ← Emit8 0xFF;
  _ ← Emit8 0x25;
  Emit32 (u32 offset).

(** [jmp *(rip)] and the address behind it, which the relocator writes in four
    places; [modrm] is 0x15 for the call. *)
Definition emit_indirect (modrm dst_vmaddr : Z) : AM unit :=
  _ ← Emit8 0xFF;
  _ ← Emit8 modrm;
  _ ← Emit32 0;
  Emit64 dst_vmaddr.

(** [n] bytes of memory at [a], as memcpy and the decoder read them. *)
Definition read_bytes (a : Z) (n : nat) : CM memory (list Z) :=
  m ← get;
  if allows PROT_READ n a m then mret ((λ i, byte_of m (a + Z.of_nat i)) <$> seq 0 n) else fail Segv.

Section os.
Context {os : OS}.

(** ** One instruction *)

(** The case of an instruction with a RIP-relative operand: a copy of it goes
    to memory near the original, followed by a jump to [back]. *)
Definition relocate_rip (curr_orig_ip back buffer_cursor : Z) (insn : x86_insn_decode_t) : DM Z :=
  let jmp_near_range := 2 * 1024 * 1024 * 1024 in
  rip_insn_seq ← allocateNearExecMemory (u32 (insn_length insn + 6 + 8)) curr_orig_ip jmp_near_range;
  let rip_insn_req_ip := rip_insn_seq ⊕ 7 in
  operand ← lift_opt Undefined (insn_operands insn !! 1%nat);
  let orig_disp := sint 32 (disp (mem operand)) in
  let new_disp := sint 32 (curr_orig_ip + orig_disp - rip_insn_req_ip) in
  head ← on_memory (read_bytes buffer_cursor (Z.to_nat (displacement_offset insn)));
  tail ←
    (if truthy (immediate_offset insn) then
       on_memory (read_bytes (buffer_cursor + immediate_offset insn)
         (Z.to_nat (insn_length insn - immediate_offset insn)))
     else mret []);
  '(_, rip_insn_seq_buffer) ← run_asm
    (_ ← EmitBuffer head; _ ← Emit32 (u32 new_disp); _ ← EmitBuffer tail; emit_indirect 0x25 back)
    (asm_new 0);
  _ ← DobbyCodePatch rip_insn_seq (buffer_ rip_insn_seq_buffer);
  mret rip_insn_seq.

(** In 64-bit mode; the decoded instruction and the code buffer. *)
Definition GenRelocateSingleX86Insn (curr_orig_ip curr_relo_ip buffer_cursor : Z)
    (code_buffer : TurboAssembler) : DM (x86_insn_decode_t * TurboAssembler) :=
  code ← on_memory (read_bytes buffer_cursor 15);
  insn ← lift_outcome (x86_insn_decode zero_insn code 64);
  let curr_orig_ip := curr_orig_ip ⊕ insn_length insn in
  let op := primary_opcode insn in
  operand ← lift_opt Undefined (insn_operands insn !! 1%nat);
  '(_, code_buffer) ←
    (if (0x70 <=? op) && (op <=? 0x7F) then
       let orig_offset := sint 8 (immediate insn) in
       let opcode := 0x80 .| (op & 0x0f) in
       let dst_vmaddr := curr_orig_ip ⊕ orig_offset in
       run_asm
         (_ ← Emit8 opcode; _ ← Emit8 2;
          _ ← Emit8 0xEB; _ ← Emit8 (6 + 8);
          emit_indirect 0x25 dst_vmaddr) code_buffer
     else if truthy (insn_flags insn & X86_INSN_DECODE_FLAG_IP_RELATIVE) && (base (mem operand) =? RIP) then
       let curr_relo_ip := curr_relo_ip ⊕ 14 in
       rip_insn_seq_addr ← relocate_rip curr_orig_ip curr_relo_ip buffer_cursor insn;
       run_asm (emit_indirect 0x25 rip_insn_seq_addr) code_buffer
     else if op =? 0xEB then
       let orig_offset := sint 8 (immediate insn) in
       let dst_vmaddr := curr_orig_ip ⊕ orig_offset in
       run_asm (emit_indirect 0x25 dst_vmaddr) code_buffer
     else if (op =? 0xE8) || (op =? 0xE9) then
       let orig_offset := sint 32 (immediate insn) in
       _ ← CHECK (immediate_offset insn =? 1);
       let dst_vmaddr := curr_orig_ip ⊕ orig_offset in
       run_asm (emit_indirect (if op =? 0xE8 then 0x15 else 0x25) dst_vmaddr) code_buffer
     else if (0xE0 <=? op) && (op <=? 0xE2) then fail Aborted
     else if op =? 0xE3 then fail Aborted
     else
       insn_bytes ← on_memory (read_bytes buffer_cursor (Z.to_nat (insn_length insn)));
       run_asm (EmitBuffer insn_bytes) code_buffer);
  mret (insn, code_buffer).

(** ** InstructionRelocationX64.cc *)

Definition RT_FAILED : Z := -1.
Definition RT_SUCCESS : Z := 0.

(** The while loop up to [buffer_end]; [relocated_addr] is where the code will
    run.  Every instruction takes at least one byte. *)
Fixpoint relocate_loop (fuel : nat) (buffer_end relocated_addr curr_orig_ip curr_relo_ip buffer_cursor : Z)
    (turbo_assembler_ : TurboAssembler) : DM (Z * Z * TurboAssembler) :=
  if buffer_cursor <? buffer_end then
    match fuel with
    | O => fail OutOfFuel
    | S fuel =>
        '(insn, turbo_assembler_) ←
          GenRelocateSingleX86Insn curr_orig_ip curr_relo_ip buffer_cursor turbo_assembler_;
        relocate_loop fuel buffer_end relocated_addr
          (curr_orig_ip ⊕ insn_length insn)
          (relocated_addr ⊕ Z.of_nat (length (buffer_ turbo_assembler_)))
          (buffer_cursor + insn_length insn) turbo_assembler_
    end
  else mret (curr_orig_ip, curr_relo_ip, turbo_assembler_).

(** Returns the result and what [*origin] and [*relocated] become. *)
Definition GenRelocateCodeFixed (buffer : Z) (origin relocated : MemBlock) (branch : bool)
  : DM (Z * MemBlock * MemBlock) :=
  let predefined_relocate_size := block_size origin in
  '(curr_orig_ip, curr_relo_ip, turbo_assembler_) ←
    relocate_loop (Z.to_nat predefined_relocate_size) (buffer + predefined_relocate_size)
      (block_addr relocated) (block_addr origin) (block_addr relocated) buffer
      (asm_new (block_addr relocated));
  '(_, turbo_assembler_) ←
    run_asm (when branch
      (let stub_addr := curr_relo_ip ⊕ 6 in
       _ ← JmpNearIndirect stub_addr;
       Emit64 curr_orig_ip)) turbo_assembler_;
  let new_origin_len := sint 32 (curr_orig_ip - block_addr origin) in
  let origin := MemBlock_reset (block_addr origin) (u64 new_origin_len) origin in
  let relo_len := Z.of_nat (length (buffer_ turbo_assembler_)) in
  if block_size relocated <? relo_len then mret (RT_FAILED, origin, relocated)
  else
    code ← FinalizeFromTurboAssembler turbo_assembler_;
    mret (RT_SUCCESS, origin, MemBlock_reset (block_addr code) (block_size code) relocated).

(** The goto x86_try_again. *)
Fixpoint x86_try_again (fuel : nat) (buffer : Z) (origin relocated : MemBlock) (branch : bool)
    (expected_relocated_mem_size : Z) : DM (MemBlock * MemBlock) :=
  match fuel with
  | O => fail OutOfFuel
  | S fuel =>
      block ←
        (if block_addr relocated =? 0 then
           relocated_mem ← allocateExecMemory expected_relocated_mem_size;
           mret (if relocated_mem =? 0 then None
                 else Some (MemBlock_reset relocated_mem expected_relocated_mem_size relocated))
         else mret (Some relocated));
      match block with
      | None => mret (origin, relocated)
      | Some relocated =>
          '(ret, origin, relocated) ← GenRelocateCodeFixed buffer origin relocated branch;
          if negb (ret =? RT_SUCCESS) then
            x86_try_again fuel buffer origin (MemBlock_reset 0 0 relocated) branch
              (expected_relocated_mem_size + 16)
          else mret (origin, relocated)
      end
  end.

(** An instruction becomes eighteen bytes at most and the jump back fourteen,
    so every attempt but one per sixteen of these bytes succeeds. *)
Definition try_fuel (size : Z) : nat := Z.to_nat (2 * size + 3).

Definition GenRelocateCodeX86Shared (buffer : Z) (origin relocated : MemBlock) (branch : bool)
  : DM (MemBlock * MemBlock) :=
  x86_try_again (try_fuel (block_size origin)) buffer origin relocated branch 32.

Definition GenRelocateCode_x64 (buffer : Z) (origin relocated : MemBlock) (branch : bool)
  : DM (MemBlock * MemBlock) := GenRelocateCodeX86Shared buffer origin relocated branch.

Definition GenRelocateCodeAndBranch_x64 (buffer : Z) (origin relocated : MemBlock) : DM (MemBlock * MemBlock) :=
  GenRelocateCode_x64 buffer origin relocated true.

(** ** trampoline_x64.cc *)

Definition allocate_indirect_stub (jmp_insn_addr : Z) : DM Z :=
  let jmp_near_range := 2 * 1024 * 1024 * 1024 in
  allocateNearDataMemory 8 jmp_insn_addr jmp_near_range.

Definition GenerateNormalTrampolineBuffer_x64 (from to : Z) : DM (option (list Z)) :=
  let jump_near_next_insn_addr := from ⊕ 6 in
  forward_stub ← allocate_indirect_stub jump_near_next_insn_addr;
  if forward_stub =? 0 then mret None
  else
    _ ← on_memory (store 8 forward_stub to);
    '(_, turbo_assembler_) ← run_asm (JmpNearIndirect forward_stub) (asm_new from);
    mret (Some (buffer_ turbo_assembler_)).

End os.
