(* ===== verification/X64Props.v ===== *)
(** * Relocated x86-64 code

    What GenRelocateCodeAndBranch makes of straight-line code and relative
    jumps, that it terminates, and that the result runs as the original did;
    and where the trampoline goes. *)

From S2P Require Import Prelude CMem XhUtil X86Spec X86Tables X86Decode X86Props X86Correct X86Rip DobbyBits DobbyMem DobbyMemProps DobbyAlloc A64Asm A64Reloc A64RelocProps X64Spec X64Reloc.

#[local] Open Scope cint_scope.

(** ** Code in memory *)

(** The bytes [bs] can be read at [a]. *)
Definition bytes_in (m : memory) (a : Z) (bs : list Z) : Prop :=
  ∀ i b, bs !! i = Some b → byte_allows PROT_READ m (a + Z.of_nat i) = true ∧ byte_of m (a + Z.of_nat i) = b.
(** ... and executed. *)
Definition code_in (m : memory) (a : Z) (bs : list Z) : Prop :=
  bytes_in m a bs ∧ ∀ i, (i < length bs)%nat → byte_allows PROT_EXEC m (a + Z.of_nat i) = true.

Lemma bytes_in_app m a bs bs' :
  bytes_in m a (bs ++ bs') ↔ bytes_in m a bs ∧ bytes_in m (a + Z.of_nat (length bs)) bs'.
Proof.
  split.
  - intros H. split; intros i b Hi.
    + apply H. by apply lookup_app_l_Some.
    + replace (a + Z.of_nat (length bs) + Z.of_nat i) with (a + Z.of_nat (length bs + i)) by lia.
      apply H. by rewrite lookup_app_r, Nat.add_sub' by lia.
  - intros [H1 H2] i b [Hi|[Hle Hi]]%lookup_app_Some; [by apply H1|].
    replace (a + Z.of_nat i) with (a + Z.of_nat (length bs) + Z.of_nat (i - length bs)) by lia. by apply H2.
Qed.

Lemma code_in_app m a bs bs' :
  code_in m a (bs ++ bs') ↔ code_in m a bs ∧ code_in m (a + Z.of_nat (length bs)) bs'.
Proof.
  unfold code_in. rewrite bytes_in_app, length_app. split.
  - intros [[H1 H2] H3]. split_and!; try done; intros i Hi.
    + apply H3. lia.
    + replace (a + Z.of_nat (length bs) + Z.of_nat i) with (a + Z.of_nat (length bs + i)) by lia. apply H3. lia.
  - intros [[H1 H3] [H2 H4]]. split_and!; try done. intros i Hi.
    destruct (decide (i < length bs)%nat); [by apply H3|].
    replace (a + Z.of_nat i) with (a + Z.of_nat (length bs) + Z.of_nat (i - length bs)) by lia. apply H4. lia.
Qed.

Lemma bytes_in_allows m a bs n : bytes_in m a bs → (n ≤ length bs)%nat → allows PROT_READ n a m = true.
Proof.
  intros H Hn. apply allows_all. intros b Hb. destruct (lookup_lt_is_Some_2 bs (Z.to_nat (b - a))) as [x Hx]; [lia|].
  destruct (H _ _ Hx) as [H1 _]. by replace (a + Z.of_nat (Z.to_nat (b - a))) with b in H1 by lia.
Qed.

Lemma bytes_in_list m a bs n :
  bytes_in m a bs → (n ≤ length bs)%nat → (λ i, byte_of m (a + Z.of_nat i)) <$> seq 0 n = take n bs.
Proof.
  intros H Hn. apply list_eq. intros i. rewrite list_lookup_fmap. destruct (decide (i < n)%nat) as [Hi|Hi].
  - rewrite lookup_seq_lt, lookup_take_lt by lia. destruct (lookup_lt_is_Some_2 bs i) as [x Hx]; [lia|].
    rewrite Hx. simpl. f_equal. by apply H.
  - rewrite lookup_seq_ge, lookup_take_ge by lia. done.
Qed.

Lemma read_bytes_run s a bs n :
  bytes_in (d_mem s) a bs → (n ≤ length bs)%nat → on_memory (read_bytes a n) s = (Ret (take n bs), s).
Proof.
  intros H Hn. unfold on_memory, read_bytes, mbind, CM_bind, get. rewrite (bytes_in_allows _ _ _ _ H Hn).
  unfold mret, CM_ret. rewrite (bytes_in_list _ _ _ _ H Hn). by destruct s.
Qed.

(** ** What the relocator understands *)

(** [bs] are the fifteen bytes the decoder reads.  The instruction is a
    relative jump or reads no RIP, and is one of those the decoder measures as
    the manual does. *)
Definition movable (bs : list Z) : bool :=
  let r := reader_buffer bs in
  (length bs =? 15)%nat && (length (legacy_run 64 r) <=? 8)%nat && negb (existsb (Z.eqb 0x66) (legacy_run 64 r)) &&
  negb (measured_wrong r) && match fst (decode_x bs) with XJmp _ | XOther _ => true | _ => false end.

(** The instructions of [code] up to [size] bytes, with their bytes; the last
    one may go beyond. *)
Fixpoint items (fuel : nat) (code : list Z) (size : Z) : option (list (xinsn * list Z)) :=
  if size <=? 0 then Some []
  else
    match fuel with
    | O => None
    | S fuel =>
        if movable (take 15 code) then
          let '(i, n) := decode_x (take 15 code) in
          rest ← items fuel (drop (Z.to_nat n) code) (size - n);
          Some ((i, take (Z.to_nat n) code) :: rest)
        else None
    end.

Definition total (its : list (xinsn * list Z)) : Z := Z.of_nat (length (concat its.*2)).

(** JMP [RIP + 0] and the address. *)
Definition indirect (dst : Z) : list Z := [0xFF; 0x25; 0; 0; 0; 0] ++ le_bytes 8 dst.

(** What becomes of an instruction that ends at [next]. *)
Definition relo_bytes (next : Z) (it : xinsn * list Z) : list Z :=
  match it.1 with XJmp off => indirect (next ⊕ off) | _ => it.2 end.

Fixpoint relo_code (ip : Z) (its : list (xinsn * list Z)) : list Z :=
  match its with
  | [] => []
  | it :: its =>
      let next := ip ⊕ Z.of_nat (length it.2) in
      relo_bytes next it ++ relo_code next its
  end.

(** The relocated code with the jump back. *)
Definition relocated_code (src : Z) (its : list (xinsn * list Z)) : list Z :=
  relo_code src its ++ indirect (src ⊕ total its).

(** ** One instruction *)

Lemma same_bytes_reader bs n : length bs = 15%nat → n ≤ 15 → same_bytes n bs (reader_buffer bs).
Proof. intros Hl Hn. unfold same_bytes, reader_buffer. by rewrite take_app_le, take_take, Nat.min_l by (rewrite ?length_take; lia). Qed.

Lemma decode_x_length bs i n : decode_x bs = (i, n) → i ≠ XUnknown → 1 ≤ n ≤ 15.
Proof.
  unfold decode_x. cbv zeta. intros H Hi.
  pose proof (opcode_size_bounds bs (opcode_start 64 bs)) as Hk. pose proof (prefix_end_le bs).
  destruct (Z.eqb_spec (branch_bits (opcode_size bs (opcode_start 64 bs)) (opcode_at bs (opcode_start 64 bs))) 0) as [E|E]; cbn [negb] in H.
  - destruct (_ && one_of _ _); [injection H; lia|]. destruct (negb _ || _); [by simplify_eq|].
    destruct (Z.ltb_spec 15 (manual_length bs)); [by simplify_eq|]. pose proof (manual_length_parts bs) as Hp. cbv zeta in Hp.
    pose proof (manual_pre_bounds (byte_at bs (opcode_start 64 bs + opcode_size bs (opcode_start 64 bs)))).
    assert (manual_length bs = n) by (by destruct (_ && rip_form _); injection H). case_match; lia.
  - destruct (branch_entry bs _ E) as (_ & _ & _ & Hb). destruct (_ =? 0); [|by simplify_eq].
    injection H as _ <-. destruct Hb as [-> | ->]; [change (8 / 8) with 1|change (32 / 8) with 4]; lia.
Qed.

(** The decoder on a movable instruction. *)
Lemma movable_spec bs i n :
  movable bs = true → decode_x bs = (i, n) →
  length bs = 15%nat ∧ 1 ≤ n ≤ 15 ∧
  (length (legacy_run 64 (reader_buffer bs)) ≤ 8)%nat ∧ (0x66 ∉ legacy_run 64 (reader_buffer bs)) ∧
  measured_wrong (reader_buffer bs) = false ∧ decode_x (reader_buffer bs) = (i, n) ∧
  ((∃ off, i = XJmp off) ∨ ∃ b, i = XOther b).
Proof.
  unfold movable. rewrite !andb_true_iff, Nat.eqb_eq, Nat.leb_le, !negb_true_iff. intros [[[[Hl Hr] H66] Hm] Hd] Hx.
  rewrite Hx in Hd. simpl in Hd.
  assert (Hi : (∃ off, i = XJmp off) ∨ ∃ b, i = XOther b) by (destruct i; eauto; done).
  assert (Hne : i ≠ XUnknown) by (intros ->; by destruct Hi as [[? ?]|[? ?]]).
  pose proof (decode_x_length _ _ _ Hx Hne). split_and!; try done; try lia.
  - intros Hin. apply list_elem_of_In in Hin.
    assert (existsb (Z.eqb 0x66) (legacy_run 64 (reader_buffer bs)) = true); [|congruence].
    apply existsb_exists. eauto using Z.eqb_refl.
  - eapply decode_x_local; [done|done|]. apply same_bytes_reader; [done|lia].
Qed.

(** Opcodes the relocator has no case for. *)
Definition plain_op (op : Z) : bool :=
  negb (in_range 0x70 0x7f op || in_range 0xe0 0xe3 op || one_of [0xe8; 0xe9; 0xeb] op).

Lemma plain_ops :
  forallb (λ k, forallb (λ opc, implb (entry_known k opc && (branch_bits k opc =? 0)) (plain_op opc)) (range 256)) [1; 2] = true.
Proof. by vm_compute. Qed.

Lemma known_plain bs c :
  entry_known (opcode_size bs c) (opcode_at bs c) = true →
  branch_bits (opcode_size bs c) (opcode_at bs c) = 0 → plain_op (opcode_at bs c) = true.
Proof.
  intros Hk Hb. pose proof plain_ops as H. rewrite forallb_forall in H.
  specialize (H (opcode_size bs c) ltac:(pose proof (opcode_size_bounds bs c); simpl; lia)).
  rewrite forallb_forall in H.
  assert (Ho : 0 ≤ opcode_at bs c < 256) by (unfold opcode_at; case_match; apply byte_at_range).
  specialize (H (opcode_at bs c) (elem_of_range 256 _ Ho)).
  by rewrite Hk, Hb in H.
Qed.

Lemma decode_jump bs off n :
  movable bs = true → decode_x bs = (XJmp off, n) →
  ∃ insn, decode_fresh bs 64 = Ret insn ∧ insn_length insn = n ∧ length (insn_operands insn) = 3%nat ∧ norip insn ∧
    (primary_opcode insn = 0xEB ∧ sint 8 (immediate insn) = off ∨
     primary_opcode insn = 0xE9 ∧ sint 32 (immediate insn) = off ∧ immediate_offset insn = 1).
Proof.
  intros Hmov Hd. destruct (movable_spec _ _ _ Hmov Hd) as (Hl & Hn & Hrun & _ & _ & Hd' & _).
  set (r := reader_buffer bs) in *. unfold decode_x in Hd'. cbv zeta in Hd'.
  destruct (Z.eqb_spec (branch_bits (opcode_size r (opcode_start 64 r)) (opcode_at r (opcode_start 64 r))) 0) as [E|E]; cbn [negb] in Hd'.
  { repeat (case_match; simplify_eq; try done). }
  destruct (Z.eqb_spec (opcode_start 64 r) 0) as [Hc|]; [|done]. rewrite Hc in *.
  destruct (decode_branch bs ltac:(lia) Hc E) as (insn & Hret & Hop & Hlen & Hio & Himm). fold r in Hop, Hlen, Hio, Himm.
  destruct (branch_entry r 0 E) as (Hkn & Hmod & _ & Hb).
  injection Hd' as Hbr Hn'. unfold branch_of in Hbr.
  pose proof (opcode_size_bounds r 0) as Hk.
  destruct (Z.eqb_spec (opcode_size r 0) 2) as [|Hk2]; [done|]. assert (Hk1 : opcode_size r 0 = 1) by lia.
  rewrite Hk1 in *. destruct (in_range 0x70 0x7f (opcode_at r 0)); [done|]. cbn [orb] in Hbr.
  destruct (opcode_at r 0 =? 0xe8); [done|]. destruct (one_of [0xe9; 0xeb] (opcode_at r 0)) eqn:Ho; [|done].
  injection Hbr as Hoff. exists insn.
  destruct (x86_insn_decode_rip bs insn ltac:(lia) Hrun) as [Hops Hrip]; [fold r; by rewrite Hc, Hk1|done|].
  unfold modrm_of in Hrip. fold r in Hrip. rewrite Hc, Hk1, Hmod in Hrip.
  split_and!; [done|lia|done|done|]. rewrite Hop, Himm.
  assert (Hnum : number_at bs 1 (branch_bits 1 (opcode_at r 0)) = number_at r 1 (branch_bits 1 (opcode_at r 0))).
  { symmetry. apply number_at_reader; [lia|unfold number_width; lia|lia|]. destruct Hb as [-> | ->]; by vm_compute. }
  rewrite Hnum. revert Ho Hoff. unfold one_of. simpl. rewrite orb_false_r, orb_true_iff, !Z.eqb_eq.
  intros [Ho|Ho] Hoff; rewrite Ho in *; [right|left]; done.
Qed.

Lemma decode_x_other bs b n :
  decode_x bs = (XOther b, n) →
  let c := opcode_start 64 bs in
  let k := opcode_size bs c in
  let opc := opcode_at bs c in
  branch_bits k opc = 0 ∧ entry_known k opc = true ∧ manual_length bs = n ∧
  entry_modrm k opc && rip_form (byte_at bs (c + k)) = false ∧ b = take (Z.to_nat n) bs.
Proof.
  unfold decode_x. cbv zeta. set (c := opcode_start 64 bs). set (k := opcode_size bs c). set (opc := opcode_at bs c).
  destruct (Z.eqb_spec (branch_bits k opc) 0) as [E|E]; cbn [negb].
  2: { destruct (c =? 0); [|done]. intros [= H _]. revert H. unfold branch_of. by repeat case_match. }
  destruct (_ && one_of _ _); [by case_match|]. destruct (negb _ || _) eqn:Hkn; [done|].
  apply orb_false_iff in Hkn as [Hkn%negb_false_iff _]. destruct (15 <? _); [done|].
  destruct (entry_modrm k opc && _) eqn:Hrf; [done|]. by intros [= <- <-].
Qed.

Lemma decode_other bs b n :
  movable bs = true → decode_x bs = (XOther b, n) →
  b = take (Z.to_nat n) bs ∧
  ∃ insn, decode_fresh bs 64 = Ret insn ∧ insn_length insn = n ∧ length (insn_operands insn) = 3%nat ∧ norip insn ∧
    plain_op (primary_opcode insn) = true.
Proof.
  intros Hmov Hd. destruct (movable_spec _ _ _ Hmov Hd) as (Hl & Hn & Hrun & H66 & Hm & Hd' & _). split.
  { by apply decode_x_other in Hd as (_ & _ & _ & _ & ->). }
  set (r := reader_buffer bs) in *. apply decode_x_other in Hd'. cbv zeta in Hd'. set (c := opcode_start 64 r) in *.
  destruct Hd' as (E & Hkn & Hn' & Hrf & _).
  destruct (decoded_or_gives_up zero_insn bs ltac:(lia) eq_refl Hrun Hkn) as (insn & Hret & Hdec). fold r in Hdec.
  exists insn. destruct (x86_insn_decode_rip bs insn ltac:(lia) Hrun Hkn Hret) as [Hops Hrip].
  split_and!; [done| |done| |].
  - rewrite <- Hn'. by apply decoded_length.
  - revert Hrip. unfold modrm_of. fold r c. destruct (entry_modrm _ _); [|done]. simpl in Hrf. by rewrite Hrf.
  - pose proof Hdec as Hdec'. unfold decoded in Hdec'. cbv zeta in Hdec'. destruct Hdec' as (k & sp & _ & _ & _ & _ & _ & Hk & _).
    fold (prefix_end 64 r) in Hk. fold (opcode_start 64 r) in Hk. fold c in Hk.
    destruct (table_entry_opcode _ _ _ _ _ Hk) as [_ ->]. by apply known_plain.
Qed.

(** ** The relocator *)

Lemma emit_indirect_run modrm dst a :
  0 ≤ modrm < 256 →
  emit_indirect modrm dst a = (Ret tt, set_buffer (buffer_ a ++ [0xFF; modrm; 0; 0; 0; 0] ++ le_bytes 8 dst) a).
Proof.
  intros Hm. unfold emit_indirect, Emit8, Emit32, Emit64, EmitBuffer, modify, mbind, CM_bind.
  rewrite (wrap_small 8 modrm) by lia. unfold set_buffer.
  cbn [buffer_ realized_addr_ labels data_labels_]. by rewrite <- !app_assoc.
Qed.

Section os.
Context {os : OS}.

Lemma single_run s code i n ip relo_ip cursor a :
  bytes_in (d_mem s) cursor code → movable (take 15 code) = true → decode_x (take 15 code) = (i, n) →
  ∃ insn, insn_length insn = n ∧
    GenRelocateSingleX86Insn ip relo_ip cursor a s =
    (Ret (insn, set_buffer (buffer_ a ++ relo_bytes (ip ⊕ n) (i, take (Z.to_nat n) code)) a), s).
Proof using Type.
  intros Hcode Hmov Hd. pose proof (movable_spec _ _ _ Hmov Hd) as (Hl & Hn & _ & _ & _ & _ & Hi).
  assert (H15 : (15 ≤ length code)%nat) by (rewrite length_take in Hl; lia).
  unfold GenRelocateSingleX86Insn.
  assert (Hops : ∀ insn, length (insn_operands insn) = 3%nat → norip insn →
    ∃ o, insn_operands insn !! 1%nat = Some o ∧ (base (mem o) =? RIP) = false).
  { intros insn Hlen Hn'. destruct (lookup_lt_is_Some_2 (insn_operands insn) 1) as [o Ho]; [lia|].
    exists o. split; [done|]. apply Z.eqb_neq. intros E. apply Hn'. unfold mem_base1. rewrite Ho. simpl. unfold compose. by rewrite E. }
  destruct Hi as [[off ->]|[b ->]].
  - destruct (decode_jump _ _ _ Hmov Hd) as (insn & Hret & Hlen & H3 & Hrip & Hop).
    destruct (Hops _ H3 Hrip) as (o & Ho & Hb). exists insn. split; [done|].
    rewrite (CM_bind_Ret _ _ _ _ _ (read_bytes_run _ _ _ _ Hcode H15)). unfold decode_fresh in Hret.
    unfold lift_outcome at 1. rewrite Hret.
    rewrite (CM_bind_Ret _ _ s insn s) by done. unfold lift_opt. rewrite Ho, CM_left_id, Hb, andb_false_r, Hlen.
    destruct Hop as [(-> & <-)|(-> & <- & Hio)].
    + eval_tests. rewrite (CM_bind_Ret _ _ _ _ _ (run_asm_Ret _ _ _ _ s (emit_indirect_run 0x25 _ a ltac:(lia)))). done.
    + rewrite Hio. unfold CHECK. eval_tests. rewrite CM_assoc, CM_left_id.
      rewrite (CM_bind_Ret _ _ _ _ _ (run_asm_Ret _ _ _ _ s (emit_indirect_run 0x25 _ a ltac:(lia)))). done.
  - destruct (decode_other _ _ _ Hmov Hd) as (Hb & insn & Hret & Hlen & H3 & Hrip & Hop).
    destruct (Hops _ H3 Hrip) as (o & Ho & Hbo). exists insn. split; [done|].
    rewrite (CM_bind_Ret _ _ _ _ _ (read_bytes_run _ _ _ _ Hcode H15)). unfold decode_fresh in Hret.
    unfold lift_outcome at 1. rewrite Hret.
    rewrite (CM_bind_Ret _ _ s insn s) by done. unfold lift_opt. rewrite Ho, CM_left_id, Hbo, andb_false_r, Hlen.
    unfold plain_op, in_range, one_of in Hop. simpl in Hop.
    rewrite orb_false_r, negb_true_iff, !orb_false_iff in Hop. destruct Hop as [[H7 He] (E8 & E9 & EB)].
    rewrite H7, E8, E9, EB. cbn [orb].
    assert (((0xE0 <=? primary_opcode insn) && (primary_opcode insn <=? 0xE2)) = false ∧ (primary_opcode insn =? 0xE3) = false) as [-> ->] by lia.
    rewrite CM_assoc, (CM_bind_Ret _ _ _ _ _ (read_bytes_run _ _ _ (Z.to_nat n) Hcode ltac:(lia))). done.
Qed.

Lemma its_total_cons i bs its : total ((i, bs) :: its) = Z.of_nat (length bs) + total its.
Proof using Type. unfold total. rewrite fmap_cons. cbn [snd concat]. rewrite length_app. lia. Qed.

(** A step of [items]. *)
Lemma items_step fuel code size its :
  items fuel code size = Some its → 0 < size →
  ∃ fuel' i n rest, fuel = S fuel' ∧ movable (take 15 code) = true ∧ decode_x (take 15 code) = (i, n) ∧ 1 ≤ n ≤ 15 ∧
    (Z.to_nat n ≤ length code)%nat ∧
    items fuel' (drop (Z.to_nat n) code) (size - n) = Some rest ∧ its = (i, take (Z.to_nat n) code) :: rest.
Proof using Type.
  intros H Hs. destruct fuel as [|fuel]; simpl in H; rewrite (proj2 (Z.leb_gt _ _)) in H by done; [done|].
  destruct (movable (take 15 code)) eqn:Hm; [|done]. destruct (decode_x (take 15 code)) as [i n] eqn:Hd.
  destruct (items fuel _ _) as [rest|] eqn:Hi; [|done]. injection H as <-.
  destruct (movable_spec _ _ _ Hm Hd) as (Hl & Hn & _). rewrite length_take in Hl.
  exists fuel, i, n, rest. split_and!; try done; lia.
Qed.

Lemma items_done fuel code size its : items fuel code size = Some its → size ≤ 0 → its = [].
Proof using Type. intros H Hs. destruct fuel; simpl in H; rewrite (proj2 (Z.leb_le _ _)) in H by done; by injection H. Qed.

(** Relocating as far as the instructions reach gives the same ones. *)
Lemma items_total fuel fuel' code size its :
  items fuel code size = Some its → total its ≤ Z.of_nat fuel' → items fuel' code (total its) = Some its ∧ size ≤ total its.
Proof using Type.
  revert fuel' code size its. induction fuel as [|fuel IH]; intros fuel' code size its H Hf.
  - destruct (decide (size ≤ 0)) as [Hs|Hs].
    + rewrite (items_done _ _ _ _ H Hs) in *. split; [by destruct fuel'|done].
    + apply items_step in H as (? & _ & _ & _ & ? & _); [done|lia].
  - destruct (decide (size ≤ 0)) as [Hs|Hs].
    + rewrite (items_done _ _ _ _ H Hs) in *. split; [by destruct fuel'|done].
    + apply items_step in H as (f & i & n & rest & [= <-] & Hm & Hd & Hn & Hl & Hi & ->); [|lia].
      rewrite its_total_cons, length_take, Nat.min_l in * by lia. assert (Hr : 0 ≤ total rest) by (unfold total; lia).
      destruct fuel' as [|fuel']; [lia|]. destruct (IH fuel' _ _ _ Hi ltac:(lia)) as [IH1 IH2]. split; [|lia].
      cbn [items]. rewrite (proj2 (Z.leb_gt _ _)), Hm, Hd by lia.
      replace (Z.of_nat (Z.to_nat n) + total rest - n) with (total rest) by lia. by rewrite IH1.
Qed.

Lemma bytes_in_drop m a bs n : bytes_in m a bs → (n ≤ length bs)%nat → bytes_in m (a + Z.of_nat n) (drop n bs).
Proof using Type.
  intros H Hn. rewrite <- (take_drop n bs) in H. apply bytes_in_app in H as [_ H]. by rewrite length_take_le in H.
Qed.

Lemma set_buffer_same a : set_buffer (buffer_ a ++ []) a = a.
Proof using Type. rewrite app_nil_r. by destruct a. Qed.

Lemma relocate_loop_run fuel s code size its last dst ip cursor a :
  items fuel code size = Some its → bytes_in (d_mem s) cursor code → last = cursor + size → 0 ≤ ip < 2 ^ 64 →
  relocate_loop fuel last dst ip (dst ⊕ Z.of_nat (length (buffer_ a))) cursor a s =
  (Ret (ip ⊕ total its, dst ⊕ Z.of_nat (length (buffer_ a ++ relo_code ip its)),
        set_buffer (buffer_ a ++ relo_code ip its) a), s).
Proof using Type.
  revert code size its ip cursor a. induction fuel as [|fuel IH]; intros code size its ip cursor a Hi Hcode -> Hip;
    (destruct (decide (size ≤ 0)) as [Hs|Hs];
     [rewrite (items_done _ _ _ _ Hi Hs); cbn [relocate_loop relo_code];
      rewrite (proj2 (Z.ltb_ge _ _)) by lia; rewrite set_buffer_same; unfold total;
      rewrite Z.add_0_r, (wrap_small 64 ip), app_nil_r by lia; done|]).
  { apply items_step in Hi as (? & _ & _ & _ & ? & _); [done|lia]. }
  apply items_step in Hi as (f & i & n & rest & [= <-] & Hm & Hd & Hn & Hl & Hi & ->); [|lia].
  cbn [relocate_loop]. rewrite (proj2 (Z.ltb_lt _ _)) by lia.
  destruct (single_run s code i n ip (dst ⊕ Z.of_nat (length (buffer_ a))) cursor a Hcode Hm Hd) as (insn & Hlen & Hrun).
  rewrite (CM_bind_Ret _ _ _ _ _ Hrun). cbn iota beta. rewrite Hlen.
  pose proof (bytes_in_drop _ _ _ _ Hcode Hl) as Hcode'. rewrite Z2Nat.id in Hcode' by lia.
  set (a' := set_buffer _ a) in *.
  rewrite (IH _ _ _ (ip ⊕ n) (cursor + n) a' Hi Hcode' ltac:(lia) ltac:(apply (wrap_range 64); lia)).
  cbn [relo_code]. rewrite its_total_cons, length_take, Nat.min_l, Z2Nat.id, wrap_add_l, Z.add_assoc by lia.
  unfold a'. cbn [buffer_ set_buffer snd]. rewrite length_take, Nat.min_l, Z2Nat.id by lia. by rewrite !app_assoc.
Qed.

Lemma its_total_nonneg its : 0 ≤ total its.
Proof using Type. unfold total. lia. Qed.

(** The jump back: its operand is the literal that follows. *)
Lemma jump_back_run a next :
  (_ ← JmpNearIndirect (realized_addr_ a ⊕ Z.of_nat (length (buffer_ a)) ⊕ 6); Emit64 next) a =
  (Ret tt, set_buffer (buffer_ a ++ indirect next) a).
Proof using Type.
  unfold JmpNearIndirect, CurrentIP, Emit8, Emit32, Emit64, EmitBuffer, gets, modify, mbind, CM_bind.
  rewrite (Z.add_comm (Z.of_nat _)), Z.sub_diag. unfold set_buffer, indirect.
  cbn [buffer_ realized_addr_ labels data_labels_]. by rewrite <- !app_assoc.
Qed.

Lemma GenRelocateCodeFixed_run s code src size its dst rsize :
  items (Z.to_nat size) code size = Some its → bytes_in (d_mem s) src code → 0 ≤ src → src + total its < 2 ^ 63 →
  total its < 2 ^ 31 → 0 < dst < 2 ^ 63 →
  let out := relocated_code src its in
  GenRelocateCodeFixed src (MemBlock_new src size) (MemBlock_new dst rsize) true s =
  if rsize <? Z.of_nat (length out) then (Ret (RT_FAILED, MemBlock_new src (total its), MemBlock_new dst rsize), s)
  else (_ ← DobbyCodePatch dst out; mret (RT_SUCCESS, MemBlock_new src (total its), MemBlock_new dst (Z.of_nat (length out)))) s.
Proof using Type.
  intros Hi Hcode Hsrc Hend Hsize Hdst out. unfold GenRelocateCodeFixed.
  change (block_size (MemBlock_new src size)) with size. change (block_addr (MemBlock_new src size)) with src.
  change (block_addr (MemBlock_new dst rsize)) with dst. change (block_size (MemBlock_new dst rsize)) with rsize.
  pose proof (its_total_nonneg its) as Htot.
  pose proof (relocate_loop_run (Z.to_nat size) s code size its (src + size) dst src src (asm_new dst) Hi Hcode eq_refl ltac:(lia)) as Hrun.
  cbn [buffer_ asm_new length app] in Hrun. rewrite Z.add_0_r, (wrap_small 64 dst) in Hrun by lia.
  rewrite (CM_bind_Ret _ _ _ _ _ Hrun). cbn iota beta. clear Hrun.
  set (a := set_buffer (relo_code src its) (asm_new dst)).
  pose proof (jump_back_run a (src ⊕ total its)) as Hj. cbn [when].
  change (realized_addr_ a) with dst in Hj. change (buffer_ a) with (relo_code src its) in Hj.
  rewrite (CM_bind_Ret _ _ _ _ _ (run_asm_Ret _ _ _ _ s Hj)). cbn iota beta. cbn [buffer_ set_buffer].
  assert (Hout : relo_code src its ++ indirect (u64 (src + total its)) = out) by done. rewrite Hout.
  assert (Hlen : u64 (sint 32 (src ⊕ total its - src)) = total its).
  { rewrite (wrap_small 64 (src + _)) by lia. replace (src + total its - src) with (total its) by lia.
    unfold sint. rewrite (wrap_small 32) by lia. rewrite decide_False by lia. apply wrap_small. lia. }
  rewrite Hlen. change (MemBlock_reset src (total its) (MemBlock_new src size)) with (MemBlock_new src (total its)).
  destruct (rsize <? Z.of_nat (length out)); [done|].
  unfold FinalizeFromTurboAssembler. cbn [buffer_ realized_addr_ set_buffer a asm_new].
  rewrite (proj2 (Z.eqb_neq dst 0)) by lia. rewrite CM_assoc, CM_left_id, !CM_assoc. done.
Qed.

(** ** Memory for it *)

Context {laws : OSLaws os} {grants : OSGrants os}.

Lemma undisturbed_bytes_in m m' a bs : undisturbed m m' → bytes_in m a bs → bytes_in m' a bs.
Proof using Type.
  intros [_ Hb Hp] H i b Hi. destruct (H i b Hi) as [H1 H2].
  assert (Hm : page_mapped m (a + Z.of_nat i)).
  { unfold byte_allows, prot_at in H1. unfold page_mapped. destruct (m_prot m !! _); [eauto|done]. }
  unfold byte_allows in *. by rewrite Hp, Hb.
Qed.

Lemma patched_code_in m m' a bs :
  patched a bs m m' → range_mapped m a (Z.of_nat (length bs)) → Z.of_nat (length bs) ≤ PAGE_SIZE →
  Forall (λ b, u8 b = b) bs → code_in m' a bs.
Proof using Type.
  intros [Hb _ Hp] Hm Hlen Hbs.
  assert (Hx : ∀ p i, p = PROT_READ ∨ p = PROT_EXEC → (i < length bs)%nat → byte_allows p m' (a + Z.of_nat i) = true).
  { intros p i Hcase Hi. unfold byte_allows. rewrite Hp, decide_True; [by destruct Hcase as [-> | ->]|].
    split; [apply Hm; lia|]. unfold PAGE_SIZE in *. Z.to_euclidean_division_equations. lia. }
  split; [|intros i Hi; by apply Hx; [right|]]. intros i b Hi. pose proof (lookup_lt_Some _ _ _ Hi).
  split; [by apply Hx; [left|]|]. rewrite Hb, decide_True by lia. replace (a + Z.of_nat i - a) with (Z.of_nat i) by lia.
  rewrite Nat2Z.id, Hi. by apply (Forall_lookup_1 _ _ _ _ Hbs Hi).
Qed.

Lemma relocated_code_bytes src its : Forall (λ it, Forall (λ b, u8 b = b) it.2) its →
  Forall (λ b, u8 b = b) (relocated_code src its).
Proof using Type.
  assert (Hind : ∀ x, Forall (λ b, u8 b = b) (indirect x)).
  { intros x. apply Forall_app. split; [by repeat constructor|apply le_bytes_u8]. }
  intros H. apply Forall_app. split; [|done]. revert src. induction H as [|[i bs] its Hb _ IH]; intros src; [constructor|].
  cbn [relo_code]. apply Forall_app. split; [|apply IH]. unfold relo_bytes. simpl. by destruct i.
Qed.

Lemma items_bytes fuel code size its :
  items fuel code size = Some its → Forall (λ b, u8 b = b) code → Forall (λ it, Forall (λ b, u8 b = b) it.2) its.
Proof using Type.
  revert code size its. induction fuel as [|fuel IH]; intros code size its Hi Hb;
    (destruct (decide (size ≤ 0)) as [Hs|Hs]; [by rewrite (items_done _ _ _ _ Hi Hs)|]).
  { apply items_step in Hi as (? & _ & _ & _ & ? & _); [done|lia]. }
  apply items_step in Hi as (f & i & n & rest & [= <-] & _ & _ & _ & _ & Hi & ->); [|lia].
  constructor; [by apply Forall_take|]. eapply IH; [done|]. by apply Forall_drop.
Qed.

Lemma bytes_in_u8 m a bs : bytes_in m a bs → Forall (λ b, u8 b = b) bs.
Proof using Type.
  intros H. apply Forall_lookup. intros i b Hi. destruct (H i b Hi) as [_ <-]. apply wrap_idem. lia.
Qed.

(** The relocated code in its block. *)
Definition relocated_at (src : Z) (its : list (xinsn * list Z)) (b : MemBlock) (s' : dobby) : Prop :=
  b = MemBlock_new (block_addr b) (Z.of_nat (length (relocated_code src its))) ∧
  0 < block_addr b ∧ block_addr b + Z.of_nat (length (relocated_code src its)) < 2 ^ 63 ∧
  code_in (d_mem s') (block_addr b) (relocated_code src its).

Lemma try_again_run code src its fuel s size e :
  let n := Z.of_nat (length (relocated_code src its)) in
  arenas_ok s → bytes_in (d_mem s) src code → items (Z.to_nat size) code size = Some its →
  0 ≤ src → src + total its < 2 ^ 63 → total its < 2 ^ 31 → n ≤ PAGE_SIZE →
  0 < e → n ≤ e + 16 * (Z.of_nat fuel - 1) → (0 < fuel)%nat → e ≤ n + 32 →
  ∃ origin b s',
    x86_try_again fuel src (MemBlock_new src size) MemBlock_null true e s = (Ret (origin, b), s') ∧
    (block_addr b = 0 ∨ origin = MemBlock_new src (total its) ∧ relocated_at src its b s').
Proof using laws grants.
  intros n. revert s size e. induction fuel as [|fuel IH]; intros s size e Hok Hcode Hi Hsrc Hend Htot Hn He Hfuel Hpos Hmax; [lia|].
  cbn [x86_try_again]. change (block_addr MemBlock_null =? 0) with true. cbv iota.
  pose proof (allocateExecBlock_wp e s (λ _ _, False) Hok He ltac:(unfold PAGE_SIZE in *; lia)) as Hal.
  destruct (allocateExecBlock e s) as [[b1|err] s1] eqn:Hrun; unfold wp in Hal; rewrite Hrun in Hal; [|done].
  destruct Hal as [Hb1 Hh]. unfold allocateExecMemory. rewrite !CM_assoc, (CM_bind_Ret _ _ _ _ _ Hrun), !CM_left_id.
  destruct (Z.eqb_spec (block_addr b1) 0) as [H0|H0].
  { eexists _, _, _. split; [reflexivity|]. by left. }
  destruct (Hh H0) as [Hok1 Hr Huse _ Hund].
  pose proof (undisturbed_bytes_in _ _ _ _ Hund Hcode) as Hcode1.
  change (MemBlock_reset (block_addr b1) e MemBlock_null) with (MemBlock_new (block_addr b1) e).
  pose proof (GenRelocateCodeFixed_run s1 code src size its (block_addr b1) e Hi Hcode1 Hsrc Hend Htot ltac:(lia)) as Hfix.
  cbv zeta in Hfix. fold n in Hfix. destruct (Z.ltb_spec e n) as [Hlt|Hge].
  - rewrite (CM_bind_Ret _ _ _ _ _ Hfix). cbn iota beta. change (negb (RT_FAILED =? RT_SUCCESS)) with true. cbv iota.
    change (MemBlock_reset 0 0 (MemBlock_new (block_addr b1) e)) with MemBlock_null.
    apply (IH s1 (total its) (e + 16)); try done; try lia.
    apply (items_total _ _ _ _ _ Hi). lia.
  - assert (Hlen : Z.of_nat (length (relocated_code src its)) = n) by done.
    destruct (DobbyCodePatch_run s1 (block_addr b1) (relocated_code src its)) as (m' & Hp & Hpat); try lia.
    { intros x Hx. apply (in_use_mapped _ _ _ Huse). lia. }
    rewrite (CM_bind_Ret _ _ _ _ _ Hp) in Hfix. rewrite (CM_bind_Ret _ _ _ _ _ Hfix). cbn iota beta.
    change (negb (RT_SUCCESS =? RT_SUCCESS)) with false. cbv iota.
    eexists _, _, _. split; [reflexivity|]. right. split; [done|]. split_and!; [done|simpl; lia|simpl; lia|].
    simpl. eapply patched_code_in; [exact Hpat| |lia|].
    + intros x Hx. apply (in_use_mapped _ _ _ Huse). lia.
    + eapply relocated_code_bytes, items_bytes; [exact Hi|by eapply bytes_in_u8].
Qed.

Lemma relo_code_length fuel code size its ip :
  items fuel code size = Some its → Z.of_nat (length (relo_code ip its)) ≤ 15 * Z.max size 0.
Proof using Type.
  revert code size its ip. induction fuel as [|fuel IH]; intros code size its ip Hi;
    (destruct (decide (size ≤ 0)) as [Hs|Hs]; [rewrite (items_done _ _ _ _ Hi Hs); simpl; lia|]).
  { apply items_step in Hi as (? & _ & _ & _ & ? & _); [done|lia]. }
  apply items_step in Hi as (f & i & n & rest & [= <-] & _ & _ & Hn & _ & Hi & ->); [|lia].
  cbn [relo_code]. rewrite length_app. specialize (IH _ _ _ (ip ⊕ Z.of_nat (length (take (Z.to_nat n) code))) Hi).
  assert (Hr : (length (relo_bytes (ip ⊕ Z.of_nat (length (take (Z.to_nat n) code))) (i, take (Z.to_nat n) code)) ≤ 15)%nat).
  { unfold relo_bytes. cbn [fst snd]. destruct i; try (rewrite length_take; lia).
    unfold indirect. rewrite length_app, length_le_bytes. simpl. lia. }
  cbn [snd]. lia.
Qed.

Lemma relocated_code_length src its : length (relocated_code src its) = (length (relo_code src its) + 14)%nat.
Proof using Type. unfold relocated_code, indirect. by rewrite !length_app, length_le_bytes. Qed.

(** The attempts are enough. *)
Lemma GenRelocateCodeAndBranch_x64_run s code src size its :
  arenas_ok s → bytes_in (d_mem s) src code → items (Z.to_nat size) code size = Some its →
  0 ≤ src → src + total its < 2 ^ 63 → total its < 2 ^ 31 → 0 ≤ size →
  Z.of_nat (length (relocated_code src its)) ≤ PAGE_SIZE →
  ∃ origin b s', GenRelocateCodeAndBranch_x64 src (MemBlock_new src size) MemBlock_null s = (Ret (origin, b), s') ∧
    (block_addr b = 0 ∨ origin = MemBlock_new src (total its) ∧ relocated_at src its b s').
Proof using laws grants.
  intros Hok Hcode Hi Hsrc Hend Htot Hsize Hn.
  unfold GenRelocateCodeAndBranch_x64, GenRelocateCode_x64, GenRelocateCodeX86Shared, try_fuel.
  change (block_size (MemBlock_new src size)) with size.
  pose proof (relo_code_length _ _ _ _ src Hi). rewrite relocated_code_length in Hn.
  apply (try_again_run code src its (Z.to_nat (2 * size + 3)) s size 32); rewrite ?relocated_code_length; done || lia.
Qed.
End os.

(** ** The relocated code runs as the original *)

Section simulation.
Context {V : Type} (cc_holds : Z → V → bool) (push : Z → xcpu V → option (xcpu V)).
Context (exec_other : list Z → xcpu V → option (option Z * xcpu V)).
Implicit Types c t : xcpu V.

Abbreviation exec_x := (xexec cc_holds push exec_other).
Abbreviation step_x := (xstep cc_holds push exec_other).
Abbreviation steps_x := (xsteps cc_holds push exec_other).

(** The instruction leaves the sequence. *)
Definition leaves (i : xinsn) c : bool :=
  match i with
  | XOther bytes => match exec_other bytes (set_rip 0 c) with Some (Some _, _) => true | _ => false end
  | _ => true
  end.

(** The original instructions take the machine to [c'], which is at the end of
    the sequence or where a jump went; they do not overwrite the code [out] at
    [dst]. *)
Inductive runs_out (dst : Z) (out : list Z) : list (xinsn * list Z) → xcpu V → xcpu V → Prop :=
  | runs_end c : runs_out dst out [] c c
  | runs_next i bytes its c c1 c' :
      exec_x i (Z.of_nat (length bytes)) c = Some c1 → leaves i c = false → code_in (xmem c1) dst out →
      runs_out dst out its c1 c' → runs_out dst out ((i, bytes) :: its) c c'
  | runs_jump i bytes its c c' :
      exec_x i (Z.of_nat (length bytes)) c = Some c' → leaves i c = true →
      runs_out dst out ((i, bytes) :: its) c c'.

(** What [items] knows of an instruction. *)
Definition good_item (it : xinsn * list Z) : Prop :=
  (∃ bs, decode_x bs = (it.1, Z.of_nat (length it.2)) ∧ it.2 = take (length it.2) bs) ∧
  (1 ≤ length it.2)%nat ∧ ((∃ off, it.1 = XJmp off) ∨ it.1 = XOther it.2).

Lemma items_good fuel code size its : items fuel code size = Some its → Forall good_item its.
Proof using Type.
  revert code size its. induction fuel as [|fuel IH]; intros code size its Hi;
    (destruct (decide (size ≤ 0)) as [Hs|Hs]; [by rewrite (items_done _ _ _ _ Hi Hs)|]).
  { apply items_step in Hi as (? & _ & _ & _ & ? & _); [done|lia]. }
  apply items_step in Hi as (f & i & n & rest & [= <-] & Hm & Hd & Hn & Hl & Hi & ->); [|lia].
  destruct (movable_spec _ _ _ Hm Hd) as (_ & _ & _ & _ & _ & _ & Hc).
  constructor; [|by eapply IH]. unfold good_item. cbn [fst snd]. rewrite length_take_le by lia. split_and!.
  - exists (take 15 code). rewrite Z2Nat.id by lia. split; [done|]. by rewrite take_take, Nat.min_l by lia.
  - lia.
  - destruct Hc as [|[b ->]]; [by left|right]. destruct (decode_other _ _ _ Hm Hd) as [-> _].
    by rewrite take_take, Nat.min_l by lia.
Qed.

Lemma code_in_fetch m a bs n :
  code_in m a bs → (n ≤ length bs)%nat → (n ≤ 15)%nat →
  take n (fetch m a) = take n bs ∧ allows PROT_EXEC n a m = true.
Proof using Type.
  intros [Hb Hx] Hn H15. split.
  - rewrite <- (bytes_in_list _ _ _ _ Hb Hn). unfold fetch. rewrite <- fmap_take. f_equal.
    by rewrite take_seq, Nat.min_l by lia.
  - apply allows_all. intros b Hb'. replace b with (a + Z.of_nat (Z.to_nat (b - a))) by lia. apply Hx. lia.
Qed.

(** The step at an instruction whose first bytes are known. *)
Lemma step_known m r a bs i n rest :
  code_in m a (bs ++ rest) → length bs = Z.to_nat n → 0 ≤ n ≤ 15 → (∀ l, take (Z.to_nat n) l = bs → decode_x l = (i, n)) →
  step_x (mkXcpu a m r) = exec_x i n (mkXcpu a m r).
Proof using Type.
  intros Hc Hl Hn Hd. destruct (code_in_fetch _ _ _ (Z.to_nat n) Hc) as [Hf Hx]; [rewrite length_app; lia|lia|].
  unfold xstep. cbn [xmem rip]. rewrite Hd; [by rewrite Hx|]. by rewrite Hf, <- Hl, take_app_length.
Qed.

Lemma indirect_step m r a x rest :
  code_in m a (indirect x ++ rest) → 0 ≤ a → a + 14 < 2 ^ 64 →
  step_x (mkXcpu a m r) = Some (set_rip x (mkXcpu a m r)).
Proof using Type.
  intros Hc Ha Hend. unfold indirect in Hc. rewrite <- app_assoc in Hc.
  rewrite (step_known m r a _ (XJmpMem 0) 6 _ Hc eq_refl ltac:(lia)).
  2: { intros l Hl. apply (decode_x_local [0xFF; 0x25; 0; 0; 0; 0]); [by vm_compute|done|]. unfold same_bytes.
    change (Z.to_nat 6) with 6%nat in *. by rewrite Hl. }
  unfold xexec, jump_mem. cbn [rip xmem]. rewrite (wrap_small 64 (a + 6 + 0)), Z.add_0_r by lia.
  apply code_in_app in Hc as [_ [Hc _]%code_in_app]. destruct Hc as [Hb _].
  change (a + Z.of_nat (length [0xFF; 0x25; 0; 0; 0; 0])) with (a + 6) in Hb.
  rewrite (bytes_in_allows _ _ _ 8 Hb) by by rewrite length_le_bytes.
  assert (Hnum : number_of m 8 (a + 6) = u64 x).
  { pose proof (number_of_bytes m (a + 6) (le_bytes 8 x) 8 0) as H. rewrite Z.add_0_r in H. rewrite H.
    - rewrite drop_0, firstn_all2 by by rewrite length_le_bytes. apply le_num_le_bytes.
    - intros k Hk. destruct (lookup_lt_is_Some_2 _ _ Hk) as [b Hkb]. rewrite Hkb. by apply Hb.
    - by rewrite length_le_bytes. }
  rewrite Hnum. unfold set_rip. cbn [xmem regs]. by rewrite wrap_idem by lia.
Qed.

Lemma set_rip_same c : 0 ≤ rip c < 2 ^ 64 → set_rip (rip c) c = c.
Proof using Type. intros H. unfold set_rip. rewrite wrap_small by lia. by destruct c. Qed.

(** An instruction that is copied: its effect at the new address. *)
Lemma other_exec m r a bytes rest :
  good_item (XOther bytes, bytes) → code_in m a (bytes ++ rest) →
  step_x (mkXcpu a m r) = exec_x (XOther bytes) (Z.of_nat (length bytes)) (mkXcpu a m r).
Proof using Type.
  intros ((bs & Hd & Ht) & H1 & _) Hc. cbn [fst snd] in *.
  pose proof (decode_x_length _ _ _ Hd ltac:(done)). apply (step_known _ _ _ bytes _ _ rest); [done|lia|lia|].
  rewrite Nat2Z.id. intros l Hl. apply (decode_x_local bs); [done|done|]. unfold same_bytes.
  by rewrite Nat2Z.id, <- Ht.
Qed.

(** From the instructions [its], relocated behind [pre]. *)
Lemma runs_out_steps dst out its c c' :
  runs_out dst out its c c' → ∀ pre,
  out = pre ++ relo_code (rip c) its ++ indirect (rip c ⊕ total its) →
  Forall good_item its → 0 ≤ rip c < 2 ^ 64 → code_in (xmem c) dst out →
  0 ≤ dst → dst + Z.of_nat (length out) < 2 ^ 64 →
  ∃ n, steps_x n (mkXcpu (dst + Z.of_nat (length pre)) (xmem c) (regs c)) = Some c'.
Proof using Type.
  induction 1 as [c|i bytes its c c1 c' Hx Hl Hc1 Hrun IH|i bytes its c c' Hx Hl]; intros pre Hout Hgood Hip Hc Hdst Hend.
  - rewrite Hout in Hc. apply code_in_app in Hc as [_ Hc]. cbn [relo_code app] in Hc.
    rewrite <- (app_nil_r (indirect _)) in Hc. exists 1%nat. cbn [xsteps].
    rewrite (indirect_step _ _ _ _ _ Hc); [|lia|rewrite Hout, !length_app in Hend; unfold indirect in Hend; rewrite length_app, length_le_bytes in Hend; simpl in Hend; lia].
    unfold total. simpl. rewrite Z.add_0_r. unfold set_rip. cbn [xmem regs]. rewrite wrap_idem, (wrap_small 64 (rip c)) by lia.
    by destruct c.
  - apply Forall_cons in Hgood as [Hg Hgood]. pose proof Hg as (_ & H1 & Hcase). cbn [fst snd] in H1, Hcase.
    destruct Hcase as [[off ->]|E]; [done|]. subst i.
    assert (Hc' : code_in (xmem c) (dst + Z.of_nat (length pre)) (bytes ++
      (relo_code (rip c ⊕ Z.of_nat (length bytes)) its ++ indirect (rip c ⊕ total ((XOther bytes, bytes) :: its))))).
    { rewrite Hout in Hc. apply code_in_app in Hc as [_ Hc]. cbn [relo_code relo_bytes fst snd] in Hc.
      by rewrite <- app_assoc in Hc. }
    pose proof (other_exec _ (regs c) _ _ _ Hg Hc') as Hs. cbn [leaves xexec] in Hx, Hl, Hs.
    change (set_rip 0 (mkXcpu _ _ _)) with (set_rip 0 c) in Hs.
    destruct (exec_other bytes (set_rip 0 c)) as [[[tgt|] s2]|]; [done| |done]. simpl in Hx, Hs. injection Hx as <-.
    cbn [set_rip rip xmem regs] in IH. rewrite its_total_cons in Hout.
    assert (Hlen : (length pre + length bytes ≤ length out)%nat).
    { rewrite Hout. cbn [relo_code relo_bytes fst snd]. rewrite !length_app. lia. } destruct (IH (pre ++ bytes)) as [n Hn].
    + rewrite Hout. cbn [relo_code relo_bytes fst snd]. rewrite wrap_add_l, Z.add_assoc, <- !app_assoc. done.
    + done.
    + apply (wrap_range 64). lia.
    + done.
    + lia.
    + lia.
    + exists (S n). cbn [xsteps]. rewrite Hs. unfold set_rip in *. simpl.
      rewrite length_app in Hn. rewrite wrap_small by lia. by rewrite Nat2Z.inj_add, Z.add_assoc in Hn.
  - apply Forall_cons in Hgood as [Hg _]. pose proof Hg as (_ & H1 & Hcase). cbn [fst snd] in H1, Hcase.
    rewrite Hout in Hc, Hend. apply code_in_app in Hc as [_ Hc]. cbn [relo_code relo_bytes fst snd] in Hc, Hend.
    rewrite <- app_assoc in Hc. exists 1%nat. cbn [xsteps].
    destruct Hcase as [[off ->]| ->].
    + rewrite (indirect_step _ _ _ _ _ Hc); [|lia|].
      2: { rewrite !length_app in Hend. unfold indirect at 1 in Hend. rewrite length_app, length_le_bytes in Hend. simpl in Hend. lia. }
      cbn [xexec] in Hx. injection Hx as <-. unfold set_rip. cbn [xmem regs]. simpl. do 2 f_equal.
      by rewrite wrap_idem, wrap_add_l by lia.
    + rewrite (other_exec _ _ _ _ _ Hg Hc). cbn [leaves xexec] in Hx, Hl |- *.
      change (set_rip 0 (mkXcpu _ _ _)) with (set_rip 0 c).
      destruct (exec_other bytes (set_rip 0 c)) as [[[tgt|] s2]|]; [|done..]. simpl in Hx |- *. by injection Hx as <-.
Qed.

End simulation.

Section theorems.
Context {os : OS} {laws : OSLaws os} {grants : OSGrants os}.

(** C5: the x64 relocator ends, and what it makes of plain instructions and
    relative jumps runs like them.  However large the code becomes, some
    attempt succeeds or memory runs out; the relocated code then takes any
    machine to exactly the state the original instructions would have left. *)
Theorem x64_relocation_simulates {V : Type} (cc_holds : Z → V → bool) (push : Z → xcpu V → option (xcpu V))
    (exec_other : list Z → xcpu V → option (option Z * xcpu V)) s src code size its :
  arenas_ok s → bytes_in (d_mem s) src code → items (Z.to_nat size) code size = Some its →
  0 ≤ size → 0 ≤ src → src + total its < 2 ^ 63 → total its < 2 ^ 31 →
  Z.of_nat (length (relocated_code src its)) ≤ PAGE_SIZE →
  ∃ origin b s', GenRelocateCodeAndBranch_x64 src (MemBlock_new src size) MemBlock_null s = (Ret (origin, b), s') ∧
    (block_addr b = 0 ∨
     origin = MemBlock_new src (total its) ∧ size ≤ total its ∧
     ∀ c c', rip c = src → xmem c = d_mem s' →
       runs_out cc_holds push exec_other (block_addr b) (relocated_code src its) its c c' →
       ∃ n, xsteps cc_holds push exec_other n (set_rip (block_addr b) c) = Some c').
Proof using laws grants.
  intros Hok Hcode Hi Hsize Hsrc Hend Htot Hn.
  destruct (GenRelocateCodeAndBranch_x64_run s code src size its) as (origin & b & s' & Hrun & H); try done.
  exists origin, b, s'. split; [exact Hrun|]. destruct H as [H|[-> (_ & Hb & Hbn & Hc)]]; [by left|right].
  split; [done|]. split; [apply (items_total _ (Z.to_nat (total its)) _ _ _ Hi); pose proof (its_total_nonneg its); lia|].
  intros c c' Hr Hm Hro. pose proof (its_total_nonneg its).
  destruct (runs_out_steps cc_holds push exec_other _ _ _ _ _ Hro []) as [n Hsteps].
  - by rewrite Hr.
  - by eapply items_good.
  - lia.
  - by rewrite Hm.
  - lia.
  - lia.
  - exists n. simpl in Hsteps. rewrite Z.add_0_r in Hsteps. unfold set_rip. by rewrite wrap_small by lia.
Qed.

End theorems.
