(* ===== verification/X64Hook.v ===== *)
(** * The x64 trampoline, and concrete relocations

    Where the six bytes of the x64 trampoline go, a relocation to evaluate, and
    the instructions the x64 relocator gets wrong. *)

From S2P Require Import Prelude CMem XhUtil X86Spec X86Tables X86Decode X86Props X86Correct X86Rip DobbyBits DobbyMem DobbyMemProps DobbyAlloc A64Asm A64Reloc A64RelocProps X64Spec X64Reloc X64Props.

#[local] Open Scope cint_scope.

(** ** The trampoline *)

Lemma number_at_32 bs p :
  number_at bs p 32 = le_num [byte_at bs p; byte_at bs (p + 1); byte_at bs (p + 2); byte_at bs (p + 3)].
Proof.
  unfold number_at. cbn [Z.eqb Pos.eqb le_num].
  pose proof (byte_at_range bs p). pose proof (byte_at_range bs (p + 1)).
  pose proof (byte_at_range bs (p + 2)). pose proof (byte_at_range bs (p + 3)).
  rewrite (lor_shift_add (byte_at bs p) _ 8), (lor_shift_add _ _ 16), (lor_shift_add _ _ 24) by lia. lia.
Qed.

Lemma list_fmap_id_u8 l : Forall (λ b, u8 b = b) l → u8 <$> l = l.
Proof. induction 1 as [|b l Hb _ IH]; [done|]. cbn [fmap list_fmap]. by rewrite Hb, IH. Qed.

(** JMP [RIP + disp32]. *)
Lemma decode_jmp_mem d l :
  take 6 l = [0xFF; 0x25] ++ le_bytes 4 d → decode_x l = (XJmpMem (sint 32 d), 6).
Proof.
  intros Hl. set (bs := [0xFF; 0x25] ++ le_bytes 4 d).
  apply (decode_x_local bs); [|done|unfold same_bytes; change (Z.to_nat 6) with 6%nat; by rewrite Hl].
  assert (Hn : number_at bs 2 32 = u32 d).
  { rewrite number_at_32.
    change [byte_at bs 2; byte_at bs (2 + 1); byte_at bs (2 + 2); byte_at bs (2 + 3)] with (u8 <$> le_bytes 4 d).
    transitivity (le_num (le_bytes 4 d)); [|apply le_num_le_bytes]. f_equal.
    apply list_fmap_id_u8, le_bytes_u8. }
  unfold decode_x. change (opcode_start 64 bs) with 0. change (opcode_size bs 0) with 1.
  change (opcode_at bs 0) with 0xff. change (byte_at bs (0 + 1)) with 0x25. eval_tests. cbv zeta. rewrite Hn.
  by rewrite (sint_wrap 32 d).
Qed.

Lemma JmpNearIndirect_new stub from :
  0 ≤ from → from + 6 < 2 ^ 64 →
  JmpNearIndirect stub (asm_new from) = (Ret tt, set_buffer ([0xFF; 0x25] ++ le_bytes 4 (u32 (sint 32 (stub - (from + 6))))) (asm_new from)).
Proof.
  intros H1 H2. assert (Hip : CurrentIP (asm_new from) = (Ret (wrap 64 from), asm_new from)) by done.
  unfold JmpNearIndirect. rewrite (CM_bind_Ret _ _ _ _ _ Hip), (wrap_small 64 from), (wrap_small 64 (from + 6)) by lia. done.
Qed.

Section os.
Context {os : OS} {laws : OSLaws os} {grants : OSGrants os}.

(** What the trampoline allocates, writes and returns. *)
Lemma GenerateNormalTrampolineBuffer_x64_inv from to s buf s' :
  arenas_ok s → 0 ≤ from → from + 6 + 2 ^ 31 < 2 ^ 63 →
  GenerateNormalTrampolineBuffer_x64 from to s = (Ret (Some buf), s') →
  ∃ stub m, d_mem s' = write_number 8 stub to m ∧ allows PROT_WRITE 8 stub m = true ∧
    from + 6 - 2 ^ 31 ≤ stub ∧ stub + 8 ≤ from + 6 + 2 ^ 31 ∧ 0 < stub ∧
    buf = [0xFF; 0x25] ++ le_bytes 4 (u32 (sint 32 (stub - (from + 6)))).
Proof using laws grants.
  intros Hok Hfrom Hmax. unfold GenerateNormalTrampolineBuffer_x64, allocate_indirect_stub, allocateNearDataMemory.
  rewrite (wrap_small 64 (from + 6)) by lia.
  intros (stub & s1 & Hstub & H)%CM_bind_inv. apply CM_bind_inv in Hstub as (blk & s0 & Hblk & Hstub).
  injection Hstub as Hs <-. destruct (Z.eqb_spec stub 0) as [|Hne]; [done|].
  destruct blk as [blk|]; [|by subst]. change (2 * 1024 * 1024 * 1024) with (2 ^ 31) in Hblk.
  destruct (allocateNearBlock_reach 8 (from + 6) (2 ^ 31) false s blk s0) as (_ & H0 & H1 & H2); [done|lia..|exact Hblk|].
  rewrite Hs in H0, H1, H2. apply CM_bind_inv in H as ([] & s2 & Hst & H).
  unfold on_memory in Hst. destruct (store 8 stub to (d_mem s0)) as [r m] eqn:Hw. injection Hst as -> <-.
  apply store_inv in Hw as [Hall ->].
  apply CM_bind_inv in H as ([[] a] & s3 & Hrun & H). unfold run_asm in Hrun.
  rewrite JmpNearIndirect_new in Hrun by lia. injection Hrun as <- <-. injection H as <- <-.
  exists stub, (d_mem s0). split_and!; try done; lia.
Qed.

(** the x64 trampoline reaches its target.  The pointer it jumps through
    is within 2 GB and holds the target, and a machine that executes the six
    bytes at [from] goes on there, however far away it is. *)
Theorem x64_trampoline_jumps {V : Type} (cc_holds : Z → V → bool) (push : Z → xcpu V → option (xcpu V))
    (exec_other : list Z → xcpu V → option (option Z * xcpu V)) from to s buf s' :
  arenas_ok s → 0 ≤ from → from + 6 + 2 ^ 31 < 2 ^ 63 → 0 ≤ to < 2 ^ 64 →
  GenerateNormalTrampolineBuffer_x64 from to s = (Ret (Some buf), s') →
  ∃ stub, buf = [0xFF; 0x25] ++ le_bytes 4 (u32 (stub - (from + 6))) ∧ number_of (d_mem s') 8 stub = to ∧ from + 6 - 2 ^ 31 ≤ stub ∧ stub + 8 ≤ from + 6 + 2 ^ 31 ∧
    ∀ c, code_in (xmem c) from buf → allows PROT_READ 8 stub (xmem c) = true →
      number_of (xmem c) 8 stub = to → rip c = from →
      xstep cc_holds push exec_other c = Some (set_rip to c).
Proof using laws grants.
  intros Hok Hfrom Hmax Hto Hgen.
  destruct (GenerateNormalTrampolineBuffer_x64_inv _ _ _ _ _ Hok Hfrom Hmax Hgen) as
    (stub & m & Hm & _ & Hlo & Hhi & Hpos & ->).
  rewrite sint_small in Hgen |- * by lia. exists stub. split; [done|].
  split; [rewrite Hm, number_of_write_eq, Z.mod_small by lia; done|]. split_and!; [done..|].
  intros [p cm r] Hc Hr Hn Hp. cbn [xmem rip] in *. subst p. rewrite <- (app_nil_r (_ ++ _)) in Hc.
  rewrite (step_known _ _ _ _ _ _ _ (XJmpMem (stub - (from + 6))) 6 _ Hc); [|by rewrite length_app, length_le_bytes|lia|].
  - unfold xexec, jump_mem. cbn [rip xmem]. replace (from + 6 + (stub - (from + 6))) with stub by lia.
    by rewrite (wrap_small 64 stub), Hr, Hn by lia.
  - intros l Hl. rewrite (decode_jmp_mem (u32 (stub - (from + 6)))) by exact Hl.
    by rewrite (sint_wrap 32), sint_small by lia.
Qed.

End os.

(** ** Concrete runs *)

(** [bytes] at 0x100010000, followed by NOPs, in a readable and executable
    page; the map of the process shows the page and one further up. *)
Definition x64_code (bytes : list Z) : list Z := bytes ++ replicate (32 - length bytes) 0x90.
Definition x64_memory (bytes : list Z) : memory :=
  write_bytes 0x100010000 (x64_code bytes) (Memory ∅ (list_to_map [(0x100010, 5)]) []).
Definition x64_process (bytes : list Z) : dobby := mkDobby (x64_memory bytes) [] [] [] false.
Definition x64_maps : list Z :=
  line_of "100010000-100011000 r-xp 00000000 00:00 0" ++ line_of "100020000-100021000 r-xp 00000000 00:00 0".
Definition run_x64 (bytes : list Z) (size : Z) : outcome (MemBlock * MemBlock) * dobby :=
  let os := sample_os (Some x64_maps) sample_entry in
  GenRelocateCodeAndBranch_x64 0x100010000 (MemBlock_new 0x100010000 size) MemBlock_null (x64_process bytes).
Definition bytes_of (s : dobby) (a : Z) (n : nat) : list Z := (λ i, byte_of (d_mem s) (a + Z.of_nat i)) <$> seq 0 n.
(** The first [n] bytes of the relocated code. *)
Definition out_x64 (bytes : list Z) (size : Z) (n : nat) : list Z :=
  match run_x64 bytes size with (Ret (_, b), s) => bytes_of s (block_addr b) n | _ => [] end.

(** PUSH RBP; MOV RBP, RSP; JMP +16. *)
Definition push_mov_jmp : list Z := [0x55; 0x48; 0x89; 0xE5; 0xEB; 0x10].
Definition its_x64 : list (xinsn * list Z) := default [] (items 6 (x64_code push_mov_jmp) 6).

(** A machine that counts the bytes of the other instructions it executes. *)
Definition count_bytes (bytes : list Z) (c : xcpu nat) : option (option Z * xcpu nat) :=
  Some (None, mkXcpu (rip c) (xmem c) (length bytes + regs c)%nat).
Abbreviation counts_out := (runs_out (λ _ _, false) (λ _ _, None) count_bytes).
Abbreviation count_steps := (xsteps (λ _ _, false) (λ _ _, None) count_bytes).

(** Code in memory by evaluation. *)
Definition code_check (m : memory) (a : Z) (bs : list Z) : bool :=
  forallb (λ i, byte_allows PROT_READ m (a + Z.of_nat i) && byte_allows PROT_EXEC m (a + Z.of_nat i) &&
    (byte_of m (a + Z.of_nat i) =? default 0 (bs !! i)))
    (seq 0 (length bs)).

Lemma code_check_sound m a bs : code_check m a bs = true → code_in m a bs.
Proof.
  unfold code_check. rewrite forallb_forall. intros H.
  assert (Hi : ∀ i, (i < length bs)%nat → byte_allows PROT_READ m (a + Z.of_nat i) = true ∧
    byte_allows PROT_EXEC m (a + Z.of_nat i) = true ∧ byte_of m (a + Z.of_nat i) = default 0 (bs !! i)).
  { intros i Hi. specialize (H i). rewrite !andb_true_iff, Z.eqb_eq in H. destruct H as [[H1 H2] H3]; [apply in_seq; lia|done]. }
  split; [intros i b Hb; pose proof (lookup_lt_Some _ _ _ Hb)|intros i Hlt; by apply Hi].
  destruct (Hi i) as (H1 & _ & H2); [done|]. by rewrite Hb in H2.
Qed.

Lemma x64_relocation_simulates_witness :
  let os := sample_os (Some x64_maps) sample_entry in
  ∃ origin b s', GenRelocateCodeAndBranch_x64 0x100010000 (MemBlock_new 0x100010000 6) MemBlock_null
      (x64_process push_mov_jmp) = (Ret (origin, b), s') ∧ block_addr b ≠ 0 ∧
    ∃ n, count_steps n (mkXcpu (block_addr b) (d_mem s') 0%nat) = Some (mkXcpu 0x100010016 (d_mem s') 4%nat).
Proof.
  intros os. assert (Hi : items (Z.to_nat 6) (x64_code push_mov_jmp) 6 = Some its_x64) by (vm_compute; reflexivity).
  destruct (x64_relocation_simulates (os := os) (λ _ _, false) (λ _ _, None) count_bytes (x64_process push_mov_jmp)
    0x100010000 (x64_code push_mov_jmp) 6 its_x64) as (origin & b & s' & Hrun & H);
    [by apply arenas_ok_none|apply code_check_sound; vm_compute; reflexivity|exact Hi|vm_compute; by intros..|].
  assert (E : run_x64 push_mov_jmp 6 = (Ret (origin, b), s')) by exact Hrun.
  assert (Hb : b = MemBlock_new 0x100011000 32) by (assert (F : fst (run_x64 push_mov_jmp 6) = Ret (origin, b)) by (by rewrite E);
    vm_compute in F; by injection F as _ <-).
  assert (Hs' : s' = snd (run_x64 push_mov_jmp 6)) by (by rewrite E).
  exists origin, b, s'. split; [exact Hrun|]. clear Hrun E. split; [rewrite Hb; discriminate|].
  destruct H as [H|(_ & _ & H)]; [rewrite Hb in H; discriminate H|]. subst b s'.
  apply (H (mkXcpu 0x100010000 (d_mem (snd (run_x64 push_mov_jmp 6))) 0%nat)); [cbn [rip]; reflexivity|cbn [xmem]; exact eq_refl|].
  assert (Hc : code_in (d_mem (snd (run_x64 push_mov_jmp 6))) 0x100011000 (relocated_code 0x100010000 its_x64))
    by (apply code_check_sound; vm_compute; reflexivity).
  revert Hc. generalize (d_mem (snd (run_x64 push_mov_jmp 6))). intros m Hc. clear H.
  assert (Hits : its_x64 = [(XOther [0x55], [0x55]); (XOther [0x48; 0x89; 0xE5], [0x48; 0x89; 0xE5]); (XJmp 16, [0xEB; 0x10])])
    by (vm_compute; reflexivity).
  revert Hc. generalize (relocated_code 0x100010000 its_x64). intros out Hc. rewrite Hits. clear Hits Hi.
  eapply (runs_next _ _ _ _ _ _ _ _ _ (mkXcpu 0x100010001 m 1%nat)); [reflexivity..|exact Hc|].
  eapply (runs_next _ _ _ _ _ _ _ _ _ (mkXcpu 0x100010004 m 4%nat)); [reflexivity..|exact Hc|].
  apply runs_jump; reflexivity.
Defined.

(** The trampoline from 0x100010000 to an address 28 GB up. *)
Definition run_trampoline (from : Z) : outcome (option (list Z)) * dobby :=
  let os := sample_os (Some x64_maps) sample_entry in
  GenerateNormalTrampolineBuffer_x64 from 0x712345678 (x64_process []).
Definition trampoline_code : list Z := [0xFF; 0x25; 0xFA; 0x0F; 0; 0].
(** The process with the trampoline written. *)
Definition patched_x64 : memory := write_bytes 0x100010000 trampoline_code (d_mem (snd (run_trampoline 0x100010000))).

Lemma x64_trampoline_jumps_witness :
  fst (run_trampoline 0x100010000) = Ret (Some trampoline_code) ∧
  count_steps 1 (mkXcpu 0x100010000 patched_x64 0%nat) = Some (mkXcpu 0x712345678 patched_x64 0%nat).
Proof.
  split; [vm_compute; reflexivity|].
  assert (H : GenerateNormalTrampolineBuffer_x64 (os := sample_os (Some x64_maps) sample_entry) 0x100010000 0x712345678
    (x64_process []) = (Ret (Some trampoline_code), snd (run_trampoline 0x100010000))) by (vm_compute; reflexivity).
  destruct (x64_trampoline_jumps (os := sample_os (Some x64_maps) sample_entry) (λ _ _, false) (λ _ _, None) count_bytes
    0x100010000 0x712345678 (x64_process []) trampoline_code (snd (run_trampoline 0x100010000)))
    as (stub & Hbuf & Hstub & Hlo & Hhi & Hjump);
    [by apply arenas_ok_none|lia..|exact H|].
  assert (E : stub = 0x100011000).
  { apply (f_equal (λ l, le_num (drop 2 l))) in Hbuf. change (drop 2 (_ ++ ?l)) with l in Hbuf. rewrite le_num_le_bytes in Hbuf.
    change (le_num (drop 2 trampoline_code)) with 4090 in Hbuf. unfold wrap in Hbuf. change (256 ^ Z.of_nat 4) with (2 ^ 32) in Hbuf.
    Z.to_euclidean_division_equations. lia. }
  subst stub. cbn [xsteps]. rewrite Hjump; [reflexivity|by apply code_check_sound; vm_compute|by vm_compute..|done].
Defined.

(** *** What goes wrong *)

(** JE +16 becomes 84 02, TEST [RDX], AL, and a jump over the indirect jump:
    the branch is never taken. *)
Lemma x64_jcc_never_branches :
  out_x64 [0x74; 0x10] 2 4 = [0x84; 2; 0xEB; 14] ∧ fst (decode_x (out_x64 [0x74; 0x10] 2 15)) = XOther [0x84; 2] ∧
  decode_x (drop 2 (out_x64 [0x74; 0x10] 2 17)) = (XJmp 14, 2).
Proof. vm_compute. auto. Qed.

(** CALL +16 becomes CALL [RIP + 0] with the address behind it: the return
    address is that of the eight address bytes. *)
Lemma x64_call_returns_to_data :
  decode_x (out_x64 [0xE8; 0x10; 0; 0; 0] 5 15) = (XCallMem 0, 6) ∧
  drop 6 (out_x64 [0xE8; 0x10; 0; 0; 0] 5 14) = le_bytes 8 0x100010015.
Proof. vm_compute. auto. Qed.

(** MOV EAX, [RIP + 16], six bytes, reads 0x100010016.  Its copy at
    0x100011020 has the displacement of an instruction of seven bytes and
    reads the byte below. *)
Lemma x64_rip_displacement :
  let s := snd (run_x64 [0x8B; 0x05; 0x10; 0; 0; 0] 6) in
  bytes_of s 0x100011020 6 = [0x8B; 0x05] ++ le_bytes 4 (0x100010016 - 0x100011027) ∧
  0x100011020 + 6 + (0x100010016 - 0x100011027) = 0x100010015.
Proof. vm_compute. auto. Qed.

(** A Jcc with a 32-bit offset is copied, its target moves with it. *)
Lemma x64_jcc32_copied :
  out_x64 [0x0F; 0x84; 0x10; 0; 0; 0] 6 6 = [0x0F; 0x84; 0x10; 0; 0; 0] ∧
  decode_x (out_x64 [0x0F; 0x84; 0x10; 0; 0; 0] 6 15) = (XJcc 4 16, 6).
Proof. vm_compute. auto. Qed.

(** LOOP and JRCXZ end the process. *)
Lemma x64_loop_aborts : fst (run_x64 [0xE2; 0x10] 2) = Err Aborted ∧ fst (run_x64 [0xE3; 0x10] 2) = Err Aborted.
Proof. vm_compute. auto. Qed.

(** Below 2 GB the lower end of the search range wraps around: there is never
    memory in reach. *)
Lemma x64_low_functions : fst (run_trampoline 0x400000) = Ret None.
Proof. vm_compute. auto. Qed.
