(* ===== verification/JniSig.v ===== *)
(** * Java signatures

    utils/str_helper.cpp and hook_jni/parse_java_sig.cpp: the names of native
    methods, the declarations reflection prints and the type descriptors of
    JNI.  A std::string is the list of its characters; a [char *] into it is the
    list of the characters that are left, and reads 0 at its end. *)

From S2P Require Import Prelude XhUtil.

#[local] Open Scope cint_scope.

(** ** std::string *)

Definition npos : Z := -1.

(** The result of a search, converted to [int]. *)
Definition as_int (o : option nat) : Z := match o with Some n => sint 32 (Z.of_nat n) | None => npos end.

Fixpoint starts_with (pat s : list Z) : bool :=
  match pat, s with
  | [], _ => true
  | p :: pat, c :: s => (p =? c) && starts_with pat s
  | _, [] => false
  end.

Fixpoint find_from (pat s : list Z) (pos : nat) : option nat :=
  if starts_with pat s then Some pos else match s with [] => None | _ :: s => find_from pat s (S pos) end.

(** [str.find(pat, pos)] *)
Definition str_find (s pat : list Z) (pos : nat) : option nat :=
  if (length s <? pos)%nat then None else find_from pat (drop pos s) pos.

Fixpoint last_index (c : Z) (s : list Z) : option nat :=
  match s with
  | [] => None
  | x :: s => match last_index c s with Some i => Some (S i) | None => if x =? c then Some 0%nat else None end
  end.

(** [str.find_last_of(c, pos)], [pos] a size_t. *)
Definition str_find_last_of (s : list Z) (c pos : Z) : option nat :=
  last_index c (take (Z.to_nat (Z.min pos (Z.of_nat (length s)) + 1)) s).

(** [str.substr(pos, n)]; it throws std::out_of_range, which nobody catches. *)
Definition str_substr {S} (s : list Z) (pos n : Z) : CM S (list Z) :=
  if Z.of_nat (length s) <? pos then fail Aborted
  else mret (take (Z.to_nat (Z.min n (Z.of_nat (length s)))) (drop (Z.to_nat pos) s)).
(** Without [n] the rest. *)
Definition str_rest {S} (s : list Z) (pos : Z) : CM S (list Z) := str_substr s pos (u64 npos).

Definition count (s : list Z) (c : Z) : nat := length (filter (eq c) s).

(** ** str_helper.cpp *)

Definition hex2int (c : Z) : Z :=
  if (48 <=? c) && (c <=? 57) then c - 48
  else if (65 <=? c) && (c <=? 66) then c - 65
  else if (97 <=? c) && (c <=? 98) then c - 97
  else 0.

Definition cHex : list Z := bytes_of_string "0123456789ABCDEF".

(** The text without its final 0.  [j] counts the bytes written. *)
Fixpoint hex2str (hex : list Z) (j : Z) : list Z :=
  match hex with
  | [] => []
  | a :: hex =>
      default 0 (cHex !! Z.to_nat ((a & 0xf0) >> 4)) :: default 0 (cHex !! Z.to_nat (a & 0x0f)) ::
      (if (j + 1) mod 16 =? 0 then 10 else 32) :: hex2str hex (j + 1)
  end.

(** The characters by pairs; a last odd one is not looked at. *)
Fixpoint str2hex (str : list Z) : list Z :=
  match str with
  | c1 :: c2 :: str => u8 (hex2int c1 * 16 + hex2int c2) :: str2hex str
  | _ => []
  end.

Section helpers.
Context {S : Type}.

(** The for loop at [i]; the result is [result] and what is pushed. *)
Fixpoint string_split_loop (fuel : nat) (str pattern : list Z) (i : nat) (result : list (list Z)) : CM S (list (list Z)) :=
  let size := length str in
  if (i <? size)%nat then
    match fuel with
    | O => fail OutOfFuel
    | Datatypes.S fuel =>
        match str_find str pattern i with
        | None => mret (result ++ [drop i str])
        | Some pos =>
            if (pos <? size)%nat then
              string_split_loop fuel str pattern (pos + length pattern - 1 + 1)
                (result ++ [take (pos - i) (drop i str)])
            else string_split_loop fuel str pattern (i + 1) result
        end
    end
  else mret result.
Definition string_split (str pattern : list Z) : CM S (list (list Z)) :=
  string_split_loop (length str) str pattern 0 [].

(** The while loop replaces the first occurrence, from the start each time. *)
Fixpoint replace_all_loop (fuel : nat) (str old_value new_value : list Z) : CM S (list Z) :=
  match str_find str old_value 0 with
  | None => mret str
  | Some pos =>
      match fuel with
      | O => fail OutOfFuel
      | Datatypes.S fuel =>
          replace_all_loop fuel (take pos str ++ new_value ++ drop (pos + length old_value) str) old_value new_value
      end
  end.
(** As many rounds as characters, which is enough where a round leaves one
    occurrence less. *)
Definition replace_all (str old_value new_value : list Z) : CM S (list Z) :=
  replace_all_loop (length str) str old_value new_value.

End helpers.

(** ** parse_java_sig.cpp *)

Abbreviation str := bytes_of_string.
Abbreviation c_space := 32.
Abbreviation c_lpar := 40.
Abbreviation c_rpar := 41.
Abbreviation c_comma := 44.
Abbreviation c_dot := 46.
Abbreviation c_slash := 47.
Abbreviation c_semi := 59.
Abbreviation c_L := 76.
Abbreviation c_lbracket := 91.
Abbreviation c_rbracket := 93.
Abbreviation c_under := 95.

(** The parameters the parsers write through. *)
Record parsed : Set := mkParsed {
  class_name : list Z;
  method_name : list Z;
  args_type : list (list Z);
  ret_type : list Z;
  is_override : bool
}.
Definition set_class_name v p := mkParsed v (method_name p) (args_type p) (ret_type p) (is_override p).
Definition set_method_name v p := mkParsed (class_name p) v (args_type p) (ret_type p) (is_override p).
Definition set_args_type v p := mkParsed (class_name p) (method_name p) v (ret_type p) (is_override p).
Definition set_ret_type v p := mkParsed (class_name p) (method_name p) (args_type p) v (is_override p).
Definition set_is_override v p := mkParsed (class_name p) (method_name p) (args_type p) (ret_type p) v.

Abbreviation PM := (CM parsed).

Definition is_java_base_args_sig (sig : Z) : bool := existsb (Z.eqb sig) (str "VZBCSIJFD").

(** The lambdas take the characters from [start] on.  [None] is [start = -1],
    else the offset of [end]. *)
Fixpoint get_class_args_end (psig : list Z) : option nat :=
  match psig with
  | [] => None
  | c :: psig => if c =? 0 then None else if c =? c_semi then Some 0%nat else S <$> get_class_args_end psig
  end.
Definition get_class_args_type (psig : list Z) : option (list Z * list Z) :=
  e ← get_class_args_end psig; Some (take (e + 1) psig, drop (e + 1) psig).

Fixpoint get_array_args_count (psig : list Z) : option nat :=
  match psig with
  | [] => None
  | c :: psig => if c =? 0 then None else if negb (c =? c_lbracket) then Some 0%nat else S <$> get_array_args_count psig
  end.

Definition push_args_type (sig : list Z) : PM unit := modify (λ p, set_args_type (args_type p ++ [sig]) p).

(** The while loop at [psig + p]. *)
Fixpoint split_args_loop (fuel : nat) (psig : list Z) (array : nat) : PM bool :=
  match psig with
  | [] => mret true
  | c :: rest =>
      if c =? 0 then mret true
      else
        match fuel with
        | O => fail OutOfFuel
        | S fuel =>
            if c =? c_lbracket then
              match get_array_args_count psig with
              | None => mret false
              | Some n => split_args_loop fuel (drop n psig) n
              end
            else if c =? c_L then
              match get_class_args_type psig with
              | None => mret false
              | Some (sig, psig) => _ ← push_args_type sig; split_args_loop fuel psig 0
              end
            else if is_java_base_args_sig c then
              _ ← push_args_type (replicate array c_lbracket ++ [c]);
              split_args_loop fuel rest 0
            else mret false
        end
  end.
Definition split_args_sig (args_sig : list Z) : PM bool := split_args_loop (length args_sig) args_sig 0.

Definition parse_java_signature (signature : list Z) : PM bool :=
  let p1 := as_int (str_find signature [c_lpar] 0) in
  let p2 := as_int (str_find signature [c_rpar] 0) in
  if (p1 =? npos) || (p2 =? npos) || (p2 <? p1) then mret false
  else
    args_sig ← str_substr signature (u64 (p1 + 1)) (u64 (p2 - p1 - 1));
    ok ← (if negb (length args_sig =? 0)%nat then split_args_sig args_sig else mret true);
    if negb ok then mret false
    else
      ret ← str_rest signature (u64 (p2 + 1));
      _ ← modify (set_ret_type ret);
      mret true.

Definition parse_java_lang_name (lang_name : list Z) : PM bool :=
  if (length lang_name <? 6)%nat || negb (starts_with (str "Java_") lang_name) then mret false
  else
    let sys_name_cpy := drop 5 lang_name in
    if negb (as_int (str_find sys_name_cpy (str "_0") 0) =? npos) then mret false
    else
      sp_sys_name ← string_split sys_name_cpy (str "__");
      if negb (length sp_sys_name =? 1)%nat && negb (length sp_sys_name =? 2)%nat then mret false
      else
        let overridden := negb (as_int (str_find sys_name_cpy (str "__") 0) =? npos) in
        let sp_sys_name := if overridden then sp_sys_name else sp_sys_name ++ [[]] in
        _ ← modify (set_is_override overridden);
        api_sig ← lift_opt Undefined (sp_sys_name !! 0%nat);
        args_sig ← lift_opt Undefined (sp_sys_name !! 1%nat);
        api_sig ← replace_all api_sig (str "_") (str ".");
        api_sig ← replace_all api_sig (str ".1") (str "_");
        if (count api_sig c_dot <? 1)%nat then mret false
        else
          let end_ := as_int (str_find_last_of api_sig c_dot (u64 npos)) in
          class ← str_substr api_sig 0 (u64 end_);
          _ ← modify (set_class_name class);
          method ← str_rest api_sig (u64 (end_ + 1));
          _ ← modify (set_method_name method);
          if (length class =? 0)%nat || (length method =? 0)%nat then mret false
          else if overridden then
            args_sig ← replace_all args_sig (str "_2") (str ";");
            args_sig ← replace_all args_sig (str "_3") (str "[");
            ok ← split_args_sig args_sig;
            if negb ok then mret false else mret true
          else mret true.

(** The if statements of conv_java_type_2_sig_type. *)
Definition base_types : list (list Z * list Z) :=
  [(str "void", str "V"); (str "boolean", str "Z"); (str "byte", str "B"); (str "char", str "C");
   (str "short", str "S"); (str "int", str "I"); (str "long", str "J"); (str "float", str "F");
   (str "double", str "D")].

Definition make_sig (sig : list Z) (array : nat) : list Z := replicate array c_lbracket ++ sig.

Definition conv_java_type_2_sig_type {S} (type_name : list Z) : CM S (list Z) :=
  let has c := negb (as_int (str_find type_name [c] 0) =? npos) in
  '(array, cpy_str) ←
    (if has c_lbracket && has c_rbracket then
       cpy_str ← replace_all type_name (str "[") [];
       cpy_str ← replace_all cpy_str (str "]") [];
       mret (count type_name c_lbracket, cpy_str)
     else mret (0%nat, type_name));
  match list_find (λ e, e.1 = cpy_str) base_types with
  | Some (_, (_, sig)) => mret (make_sig sig array)
  | None =>
      name ← replace_all cpy_str (str ".") (str "/");
      mret (make_sig (str "L" ++ name ++ str ";") array)
  end.

Definition parse_java_pretty_name (decl : list Z) : PM bool :=
  if (count decl c_space <? 1)%nat then mret false
  else
    let start := as_int (str_find decl [c_lpar] 0) in
    let end_ := as_int (str_find decl [c_rpar] 0) in
    if (end_ - start <? 1) || (start =? npos) || (end_ =? npos) then mret false
    else
      args ← str_substr decl (u64 (start + 1)) (u64 (end_ - start - 1));
      args ← replace_all args (str " ") [];
      items ← string_split args (str ",");
      items ← mapM conv_java_type_2_sig_type items;
      _ ← modify (set_args_type items);
      let p := as_int (str_find_last_of decl c_space (u64 start)) in
      if (start - p <=? 1) || (p =? npos) then mret false
      else
        class_method ← str_substr decl (u64 (p + 1)) (u64 (start - p - 1));
        if (length class_method =? 0)%nat then mret false
        else
          let ppoint := as_int (str_find_last_of class_method c_dot (u64 npos)) in
          if ppoint =? npos then mret false
          else
            method ← str_rest class_method (u64 (ppoint + 1));
            _ ← modify (set_method_name method);
            class ← str_substr class_method 0 (u64 ppoint);
            _ ← modify (set_class_name class);
            if (length method =? 0)%nat || (length class =? 0)%nat then mret false
            else
              let p2 := as_int (str_find_last_of decl c_space (u64 (p - 1))) in
              ret ←
                (if p2 =? npos then ret ← str_substr decl 0 (u64 p); mret (Some ret)
                 else if p - p2 - 1 <? 1 then mret None
                 else ret ← str_substr decl (u64 (p2 + 1)) (u64 (p - p2 - 1)); mret (Some ret));
              match ret with
              | None => mret false
              | Some ret =>
                  _ ← modify (set_ret_type ret);
                  if (length ret =? 0)%nat then mret false
                  else
                    ret ← conv_java_type_2_sig_type ret;
                    _ ← modify (set_ret_type ret);
                    mret true
              end.

Record args_type_t : Set := mkArgsType { sig : list Z; inner_base_type : list Z; array_dim : Z }.

(** [array_dim] is uninitialised at first.  [fuel] bounds the replacements. *)
Definition conv_sig_2_args_type {S} (fuel : nat) (array_dim : Z) (sig : list Z) : CM S args_type_t :=
  let first s := default 0 (s !! 0%nat) in
  ret ←
    (if first sig =? c_lbracket then
       inner ← replace_all sig (str "[") [];
       mret (mkArgsType sig inner (Z.of_nat (count sig c_dot)))
     else mret (mkArgsType sig sig array_dim));
  if first sig =? c_L then
    inner ← str_substr (inner_base_type ret) 1 (u64 (Z.of_nat (length (inner_base_type ret)) - 2));
    inner ← replace_all_loop fuel inner (str "_") (str "_1");
    inner ← replace_all_loop fuel inner (str "/") (str "_");
    mret (mkArgsType sig inner array_dim)
  else mret ret.
