(* ===== verification/JniSigProps.v ===== *)
(** * Java signatures, proved

    Searching, replacing and splitting strings; which descriptors the parsers
    accept and what they return; that printing and parsing are inverse. *)

From S2P Require Import Prelude XhUtil JniSig.

#[local] Open Scope cint_scope.

(** ** Searching *)

Lemma find_char_some c a b pos : c ∉ a → find_from [c] (a ++ c :: b) pos = Some (pos + length a)%nat.
Proof.
  revert pos. induction a as [|x a IH]; intros pos Hc; simpl.
  - rewrite Z.eqb_refl. simpl. f_equal. lia.
  - apply not_elem_of_cons in Hc as [Hx Hc]. rewrite (proj2 (Z.eqb_neq c x)) by done. simpl.
    rewrite IH by done. f_equal. lia.
Qed.

Lemma find_char_none c s pos : c ∉ s → find_from [c] s pos = None.
Proof.
  revert pos. induction s as [|x s IH]; intros pos Hc; [done|].
  apply not_elem_of_cons in Hc as [Hx Hc]. simpl. rewrite (proj2 (Z.eqb_neq c x)) by done. by apply IH.
Qed.

Lemma str_find_char c a b : c ∉ a → str_find (a ++ c :: b) [c] 0 = Some (length a).
Proof. intros Hc. unfold str_find. rewrite (proj2 (Nat.ltb_ge _ _)), drop_0 by lia. by apply find_char_some. Qed.

Lemma str_find_char_none c s : c ∉ s → str_find s [c] 0 = None.
Proof. intros Hc. unfold str_find. rewrite (proj2 (Nat.ltb_ge _ _)), drop_0 by lia. by apply find_char_none. Qed.

(** A string holds a character, or it is cut at the first one. *)
Lemma split_at_char c (s : list Z) : c ∉ s ∨ ∃ a b, s = a ++ c :: b ∧ c ∉ a.
Proof.
  induction s as [|x s IH]; [left; by apply not_elem_of_nil|].
  destruct (decide (x = c)) as [->|Hx]; [right; exists [], s; split; [done|by apply not_elem_of_nil]|].
  destruct IH as [H|(a & b & -> & H)]; [left; by apply not_elem_of_cons|].
  right. exists (x :: a), b. split; [done|]. by apply not_elem_of_cons.
Qed.

Lemma last_index_none c s : c ∉ s → last_index c s = None.
Proof.
  induction s as [|x s IH]; [done|]. intros [Hx Hc]%not_elem_of_cons. simpl. rewrite IH by done.
  by rewrite (proj2 (Z.eqb_neq x c)).
Qed.

Lemma last_index_some c a b : c ∉ b → last_index c (a ++ c :: b) = Some (length a).
Proof.
  intros Hb. induction a as [|x a IH]; simpl; [by rewrite last_index_none, Z.eqb_refl|]. by rewrite IH.
Qed.

(** [find_last_of] from a position in or behind the part [b]. *)
Lemma find_last_of_some c a b rest pos :
  c ∉ b → Z.of_nat (length a + length b) ≤ pos → (rest = [] ∨ pos = Z.of_nat (length a + length b)) →
  str_find_last_of (a ++ c :: b ++ rest) c pos = Some (length a).
Proof.
  intros Hb Hpos Hrest. unfold str_find_last_of.
  assert (E : take (Z.to_nat (Z.min pos (Z.of_nat (length (a ++ c :: b ++ rest))) + 1)) (a ++ c :: b ++ rest) = a ++ c :: b).
  { replace (a ++ c :: b ++ rest) with ((a ++ c :: b) ++ rest) by (rewrite <- app_assoc; done).
    destruct Hrest as [->| ->].
    - rewrite app_nil_r, firstn_all2; [done|]. rewrite length_app. simpl. lia.
    - rewrite take_app_length'; [done|]. rewrite !length_app. simpl. lia. }
  rewrite E. by apply last_index_some.
Qed.

Lemma as_int_some n : Z.of_nat n < 2 ^ 31 → as_int (Some n) = Z.of_nat n.
Proof. intros H. unfold as_int. apply sint_small; lia. Qed.

Lemma as_int_found n : Z.of_nat n < 2 ^ 31 → (as_int (Some n) =? npos) = false.
Proof. intros H. rewrite as_int_some by done. unfold npos. apply Z.eqb_neq. lia. Qed.

Section runs.
Context {S : Type}.
Implicit Types s : S.

Lemma str_substr_run (l : list Z) (pos n : nat) s :
  (pos ≤ length l)%nat → str_substr l (Z.of_nat pos) (Z.of_nat n) s = (Ret (take n (drop pos l)), s).
Proof.
  intros Hp. unfold str_substr. rewrite (proj2 (Z.ltb_ge _ _)) by lia. unfold mret, CM_ret.
  rewrite Nat2Z.id. do 2 f_equal. destruct (decide (n ≤ length l)%nat).
  - by rewrite Z.min_l, Nat2Z.id by lia.
  - rewrite Z.min_r, Nat2Z.id by lia. by rewrite !firstn_all2 by (rewrite length_drop; lia).
Qed.

(** The part [b] of a string. *)
Lemma str_substr_middle (a b c : list Z) s :
  str_substr (a ++ b ++ c) (Z.of_nat (length a)) (Z.of_nat (length b)) s = (Ret b, s).
Proof. rewrite str_substr_run by (rewrite length_app; lia). by rewrite drop_app_length, take_app_length. Qed.

Lemma str_rest_run (a b : list Z) s :
  Z.of_nat (length (a ++ b)) < 2 ^ 31 → str_rest (a ++ b) (Z.of_nat (length a)) s = (Ret b, s).
Proof.
  intros H. rewrite length_app in H. unfold str_rest. change (u64 npos) with (2 ^ 64 - 1).
  unfold str_substr. rewrite (proj2 (Z.ltb_ge _ _)) by (rewrite length_app; lia).
  rewrite Nat2Z.id, drop_app_length. unfold mret, CM_ret. by rewrite firstn_all2 by (rewrite length_app; lia).
Qed.

End runs.

(** ** Replacing *)

(** [new] for every [c]. *)
Definition subst_char (c : Z) (new s : list Z) : list Z := concat ((λ x, if decide (x = c) then new else [x]) <$> s).

Lemma subst_char_app c new a b : subst_char c new (a ++ b) = subst_char c new a ++ subst_char c new b.
Proof. unfold subst_char. by rewrite fmap_app, concat_app. Qed.
Lemma subst_char_cons c new x s :
  subst_char c new (x :: s) = (if decide (x = c) then new else [x]) ++ subst_char c new s.
Proof. done. Qed.
Lemma subst_char_id c new s : c ∉ s → subst_char c new s = s.
Proof.
  induction s as [|x s IH]; [done|]. intros [Hx Hc]%not_elem_of_cons.
  rewrite subst_char_cons, decide_False by done. simpl. by rewrite IH.
Qed.
Lemma subst_char_absent c new s : c ∉ new → c ∉ subst_char c new s.
Proof.
  intros Hn. induction s as [|x s IH]; [by apply not_elem_of_nil|]. rewrite subst_char_cons, elem_of_app.
  case_decide; [tauto|]. rewrite list_elem_of_singleton. intros [->|]; tauto.
Qed.
Lemma subst_char_elem c new s x : x ∈ subst_char c new s → x ∈ new ∨ x ∈ s ∧ x ≠ c.
Proof.
  induction s as [|y s IH]; [by intros ?%elem_of_nil|]. rewrite subst_char_cons, elem_of_app, elem_of_cons.
  case_decide; [intros [?|?%IH]; tauto|]. rewrite list_elem_of_singleton. intros [->|?%IH]; tauto.
Qed.

Lemma count_app (a b : list Z) c : count (a ++ b) c = (count a c + count b c)%nat.
Proof. unfold count. by rewrite filter_app, length_app. Qed.
Lemma count_cons c s : count (c :: s) c = S (count s c).
Proof. unfold count. by rewrite filter_cons_True. Qed.
Lemma count_le s c : (count s c ≤ length s)%nat.
Proof. apply length_filter. Qed.
Lemma count_absent s c : c ∉ s → count s c = 0%nat.
Proof.
  unfold count. induction s as [|x s IH]; [done|]. intros [Hx Hc]%not_elem_of_cons.
  rewrite filter_cons_False by done. by apply IH.
Qed.

(** The adjacent characters [a] and [b]. *)
Fixpoint has_pair (a b : Z) (s : list Z) : bool :=
  match s with
  | x :: s' => ((x =? a) && match s' with y :: _ => y =? b | [] => false end) || has_pair a b s'
  | [] => false
  end.

Lemma has_pair_app a b s t :
  has_pair a b (s ++ t) = false → has_pair a b s = false ∧ has_pair a b t = false.
Proof.
  induction s as [|x s IH]; [done|]. simpl. rewrite orb_false_iff. intros [H1 [H2 H3]%IH]. split; [|done].
  apply orb_false_iff. split; [|done]. destruct s; [by rewrite andb_false_r|done].
Qed.

Lemma find_from_cons pat x s pos :
  find_from pat (x :: s) pos = if starts_with pat (x :: s) then Some pos else find_from pat s (S pos).
Proof. done. Qed.

Lemma starts_pair a b x s :
  starts_with [a; b] (x :: s) = (x =? a) && match s with y :: _ => y =? b | [] => false end.
Proof. simpl. rewrite (Z.eqb_sym a). destruct s as [|y s]; [done|]. by rewrite (Z.eqb_sym b), andb_true_r. Qed.

Lemma find_pair_some a b d r pos :
  has_pair a b (d ++ [a]) = false → find_from [a; b] (d ++ a :: b :: r) pos = Some (pos + length d)%nat.
Proof.
  revert pos. induction d as [|x d IH]; intros pos H.
  { cbn. rewrite !Z.eqb_refl. f_equal. lia. }
  cbn [app has_pair] in H. apply orb_false_iff in H as [H1 H2]. cbn [app]. rewrite find_from_cons, starts_pair.
  replace (match d ++ a :: b :: r with y :: _ => y =? b | [] => false end)
    with (match d ++ [a] with y :: _ => y =? b | [] => false end) by by destruct d.
  rewrite H1, IH by done. f_equal. simpl. lia.
Qed.

Lemma find_pair_none a b s pos : has_pair a b s = false → find_from [a; b] s pos = None.
Proof.
  revert pos. induction s as [|x s IH]; intros pos H; [done|]. cbn [has_pair] in H. apply orb_false_iff in H as [H1 H2].
  by rewrite find_from_cons, starts_pair, H1, IH.
Qed.

Lemma str_find_0 s pat : str_find s pat 0 = find_from pat s 0.
Proof. unfold str_find. by rewrite (proj2 (Nat.ltb_ge _ _)), drop_0 by lia. Qed.

Section replacing.
Context {S : Type}.
Implicit Types st : S.

(** One round, at the first occurrence. *)
Lemma replace_all_step fuel a pat b new st :
  str_find (a ++ pat ++ b) pat 0 = Some (length a) →
  replace_all_loop (Datatypes.S fuel) (a ++ pat ++ b) pat new st = replace_all_loop fuel (a ++ new ++ b) pat new st.
Proof.
  intros H. cbn [replace_all_loop]. rewrite H, take_app_length.
  by rewrite <- length_app, (app_assoc a pat b), drop_app_length.
Qed.

Lemma replace_all_end fuel s pat new st : str_find s pat 0 = None → replace_all_loop fuel s pat new st = (Ret s, st).
Proof. intros H. destruct fuel; cbn [replace_all_loop]; by rewrite H. Qed.

Lemma replace_char_loop fuel a s c new st :
  c ∉ a → c ∉ new → (count s c ≤ fuel)%nat →
  replace_all_loop fuel (a ++ s) [c] new st = (Ret (a ++ subst_char c new s), st).
Proof.
  revert a s. induction fuel as [|fuel IH]; intros a s Ha Hn Hf; destruct (split_at_char c s) as [Hs|(x & y & -> & Hx)].
  1,3: rewrite replace_all_end, subst_char_id; [done|done|]; apply str_find_char_none; rewrite elem_of_app; tauto.
  - rewrite count_app, count_cons in Hf. lia.
  - rewrite count_app, count_cons in Hf. change (c :: y) with ([c] ++ y). rewrite (app_assoc a x).
    rewrite replace_all_step by (apply str_find_char; rewrite elem_of_app; tauto).
    rewrite (app_assoc (a ++ x)), IH by (rewrite ?elem_of_app; try lia; tauto).
    rewrite !subst_char_app, (subst_char_id c new x) by done. unfold subst_char at 2. simpl.
    by rewrite decide_True, app_nil_r, <- !app_assoc by done.
Qed.

(** Every occurrence of a character. *)
Lemma replace_char s c new st : c ∉ new → replace_all s [c] new st = (Ret (subst_char c new s), st).
Proof.
  intros Hn. apply (replace_char_loop (length s) []); [by apply not_elem_of_nil|done|apply count_le].
Qed.

(** Every [c] was written as [a b]; the pair occurs nowhere else. *)
Lemma replace_pair_loop fuel a b c d s st :
  a ≠ b → c ≠ a → has_pair a b (d ++ s) = false → (count s c ≤ fuel)%nat →
  replace_all_loop fuel (d ++ subst_char c [a; b] s) [a; b] [c] st = (Ret (d ++ s), st).
Proof.
  intros Hab Hca. revert fuel d. induction s as [|x s IH]; intros fuel d H Hf.
  { change (subst_char c [a; b] []) with (@nil Z). rewrite !app_nil_r in *. apply replace_all_end. rewrite str_find_0. by apply find_pair_none. }
  rewrite subst_char_cons. case_decide as Hx.
  - subst x. rewrite count_cons in Hf. destruct fuel as [|fuel]; [lia|].
    rewrite replace_all_step.
    + rewrite app_assoc, IH; [by rewrite <- app_assoc| by rewrite <- app_assoc|lia].
    + rewrite str_find_0. apply (find_pair_some a b d). apply has_pair_app in H as [H _]. clear -Hab H.
      induction d as [|y d IH]; simpl in *; [by rewrite andb_false_r|]. apply orb_false_iff in H as [H1 H2].
      apply orb_false_iff. split; [|by apply IH]. destruct d; [|done]. simpl.
      by rewrite (proj2 (Z.eqb_neq a b)), andb_false_r.
  - rewrite app_assoc, IH; [by rewrite <- app_assoc|by rewrite <- app_assoc|].
    unfold count in *. by rewrite filter_cons_False in Hf.
Qed.


End replacing.

(** ** Types and descriptors *)

(** A Java type: array dimensions over a base type.  Class names are dotted in
    declarations and slashed in descriptors. *)
Inductive jbase : Set :=
  | JPrim (c : Z)
  | JClass (name : list Z).
Record jtype : Set := JType { dims : nat; jbase_of : jbase }.

Definition base_descriptor (b : jbase) : list Z :=
  match b with JPrim c => [c] | JClass name => str "L" ++ name ++ str ";" end.
Definition descriptor (t : jtype) : list Z := make_sig (base_descriptor (jbase_of t)) (dims t).

(** The type whose descriptor the parser returns in place of that of [t]: an
    array of objects loses its brackets, which is a flaw of the code
    ([object_arrays_lost]); every other type is itself. *)
Definition object_array (t : jtype) : bool :=
  match jbase_of t with JPrim _ => false | JClass _ => negb (dims t =? 0)%nat end.
Definition returned_type (t : jtype) : jtype := if object_array t then JType 0 (jbase_of t) else t.
Definition returned_descriptor (t : jtype) : list Z := descriptor (returned_type t).

Lemma returned_class n name : returned_descriptor (JType n (JClass name)) = base_descriptor (JClass name).
Proof. by destruct n. Qed.
Lemma returned_types ts : Forall (λ t, object_array t = false) ts → returned_descriptor <$> ts = descriptor <$> ts.
Proof.
  intros H. induction H as [|t ts Ht _ IH]; [done|]. cbn [fmap list_fmap]. rewrite IH.
  unfold returned_descriptor at 1, returned_type. by rewrite Ht.
Qed.

(** What the code takes for a parameter: a primitive by its letter, V of void
    among them, or a class, whose name may be empty. *)
Definition base_ok (b : jbase) : Prop :=
  match b with JPrim c => is_java_base_args_sig c = true | JClass name => (c_semi ∉ name) ∧ (0 ∉ name) end.
Definition type_ok (t : jtype) : Prop := base_ok (jbase_of t).
Definition descriptors (ts : list jtype) : list Z := concat (descriptor <$> ts).

(** *** Splitting *)

Lemma class_end_some name rest :
  c_semi ∉ name → 0 ∉ name → get_class_args_end (name ++ c_semi :: rest) = Some (length name).
Proof.
  induction name as [|c name IH]; [done|]. intros [H1 H2]%not_elem_of_cons [H3 H4]%not_elem_of_cons. simpl.
  rewrite (proj2 (Z.eqb_neq c 0)), (proj2 (Z.eqb_neq c c_semi)), IH by done. done.
Qed.

Lemma class_end_inv s e :
  get_class_args_end s = Some e → ∃ name rest, s = (name ++ c_semi :: rest) ∧ e = length name ∧ (c_semi ∉ name) ∧ (0 ∉ name).
Proof.
  revert e. induction s as [|c s IH]; intros e H; [done|]. simpl in H.
  destruct (Z.eqb_spec c 0); [done|]. destruct (Z.eqb_spec c c_semi) as [->|].
  - injection H as <-. exists [], s. repeat split; by apply not_elem_of_nil.
  - destruct (get_class_args_end s) as [e'|]; [|done]. injection H as <-.
    destruct (IH e' eq_refl) as (name & rest & -> & -> & H1 & H2). exists (c :: name), rest.
    repeat split; by apply not_elem_of_cons.
Qed.

Lemma get_class_args_type_some name rest :
  c_semi ∉ name → 0 ∉ name →
  get_class_args_type (c_L :: name ++ c_semi :: rest) = Some (str "L" ++ name ++ str ";", rest).
Proof.
  intros H1 H2. unfold get_class_args_type.
  change (c_L :: name ++ c_semi :: rest) with ((c_L :: name) ++ c_semi :: rest).
  rewrite class_end_some by (by apply not_elem_of_cons). cbn [mbind option_bind].
  replace ((c_L :: name) ++ c_semi :: rest) with ((c_L :: name ++ [c_semi]) ++ rest) by (cbn; by rewrite <- app_assoc).
  rewrite take_app_length', drop_app_length' by (simpl; rewrite length_app; simpl; lia). done.
Qed.

(** The brackets before a character that is none. *)
Lemma array_count_some n c rest :
  c ≠ 0 → c ≠ c_lbracket → get_array_args_count (replicate n c_lbracket ++ c :: rest) = Some n.
Proof.
  intros H1 H2. induction n as [|n IH]; simpl.
  - by rewrite (proj2 (Z.eqb_neq c 0)), (proj2 (Z.eqb_neq c c_lbracket)).
  - by rewrite IH.
Qed.

Lemma array_count_inv s n :
  get_array_args_count s = Some n → ∃ c rest, s = (replicate n c_lbracket ++ c :: rest) ∧ c ≠ 0 ∧ c ≠ c_lbracket.
Proof.
  revert n. induction s as [|c s IH]; intros n H; [done|]. simpl in H.
  destruct (Z.eqb_spec c 0); [done|]. destruct (Z.eqb_spec c c_lbracket) as [->|].
  - simpl in H. destruct (get_array_args_count s) as [m|]; [|done]. injection H as <-.
    destruct (IH m eq_refl) as (c & rest & -> & H1 & H2). by exists c, rest.
  - injection H as <-. by exists c, s.
Qed.

Lemma base_args_cases c : is_java_base_args_sig c = true → c ≠ 0 ∧ c ≠ c_lbracket ∧ c ≠ c_L.
Proof. intros H. repeat split; intros ->; by vm_compute in H. Qed.

(** The base type at the head, with [array] brackets read before. *)
Lemma split_base fuel b array rest p :
  base_ok b → (length (base_descriptor b) ≤ fuel)%nat →
  ∃ fuel', (fuel ≤ fuel' + length (base_descriptor b))%nat ∧
  split_args_loop fuel (base_descriptor b ++ rest) array p =
  split_args_loop fuel' rest 0 (set_args_type (args_type p ++ [returned_descriptor (JType array b)]) p).
Proof.
  intros Hok Hf. destruct b as [c|name].
  - destruct (base_args_cases c Hok) as (H1 & H2 & H3). destruct fuel as [|fuel]; [simpl in Hf; lia|].
    exists fuel. split; [simpl; lia|]. simpl. rewrite (proj2 (Z.eqb_neq c 0)), (proj2 (Z.eqb_neq c c_lbracket)),
      (proj2 (Z.eqb_neq c c_L)), Hok by done. done.
  - destruct Hok as [H1 H2]. destruct fuel as [|fuel]; [simpl in Hf; lia|]. exists fuel.
    split; [simpl; rewrite length_app; simpl; lia|].
    replace (base_descriptor (JClass name) ++ rest) with (c_L :: name ++ c_semi :: rest)
      by (cbn; by rewrite <- app_assoc).
    cbn [split_args_loop]. change (c_L =? 0) with false. change (c_L =? c_lbracket) with false. eval_tests.
    rewrite get_class_args_type_some, returned_class by done. done.
Qed.

Lemma base_descriptor_head b : base_ok b → ∃ c l, base_descriptor b = c :: l ∧ c ≠ 0 ∧ c ≠ c_lbracket.
Proof. destruct b as [c|name]; intros H; [|by exists c_L, (name ++ str ";")]. exists c, []. by apply base_args_cases in H as (? & ? & _). Qed.

(** One descriptor. *)
Lemma split_one fuel t rest p :
  type_ok t → (length (descriptor t) ≤ fuel)%nat →
  ∃ fuel', (fuel ≤ fuel' + length (descriptor t))%nat ∧
  split_args_loop fuel (descriptor t ++ rest) 0 p =
  split_args_loop fuel' rest 0 (set_args_type (args_type p ++ [returned_descriptor t]) p).
Proof.
  destruct t as [n b]. intros Hok Hf. unfold descriptor, make_sig in *. cbn [dims jbase_of] in *.
  rewrite length_app, length_replicate in *. destruct n as [|n].
  - destruct (split_base fuel b 0 rest p Hok ltac:(simpl in Hf; lia)) as (f & H1 & H2). exists f. split; [simpl; lia|done].
  - destruct (base_descriptor_head b Hok) as (c & l & Hb & Hc0 & Hc). destruct fuel as [|fuel]; [simpl in Hf; lia|].
    destruct (split_base fuel b (S n) rest p Hok ltac:(lia)) as (f & H1 & H2). exists f. split; [lia|]. rewrite <- H2.
    cbn [split_args_loop replicate app]. change (c_lbracket =? 0) with false. eval_tests.
    change (c_lbracket :: (replicate n c_lbracket ++ base_descriptor b) ++ rest)
      with ((replicate (S n) c_lbracket ++ base_descriptor b) ++ rest).
    rewrite Hb, <- app_assoc. cbn [app]. rewrite array_count_some by done.
    by rewrite drop_app_length' by (by rewrite length_replicate).
Qed.

Definition push_types (ts : list (list Z)) (p : parsed) : parsed := set_args_type (args_type p ++ ts) p.

Lemma push_types_app ts ts' p : push_types ts' (push_types ts p) = push_types (ts ++ ts') p.
Proof. unfold push_types. destruct p. simpl. by rewrite app_assoc. Qed.
Lemma push_types_nil p : push_types [] p = p.
Proof. unfold push_types. destruct p. simpl. by rewrite app_nil_r. Qed.

(** All descriptors of a string are found. *)
Lemma split_all fuel ts p :
  Forall type_ok ts → (length (descriptors ts) ≤ fuel)%nat →
  split_args_loop fuel (descriptors ts) 0 p = (Ret true, push_types (returned_descriptor <$> ts) p).
Proof.
  intros H. revert fuel p. induction H as [|t ts Ht _ IH]; intros fuel p Hf.
  { rewrite push_types_nil. by destruct fuel. }
  unfold descriptors in *. cbn [fmap list_fmap concat] in *. rewrite length_app in Hf.
  destruct (split_one fuel t (concat (descriptor <$> ts)) p Ht ltac:(lia)) as (f & Hlen & ->).
  rewrite IH by lia. change (set_args_type (args_type p ++ [returned_descriptor t]) p) with (push_types [returned_descriptor t] p).
  by rewrite push_types_app.
Qed.

(** The base type at the head of what the loop accepts. *)
Lemma split_base_inv fuel n c rest p :
  c ≠ 0 → c ≠ c_lbracket → (length (c :: rest) ≤ fuel)%nat →
  (∃ b rest', c :: rest = base_descriptor b ++ rest' ∧ base_ok b) ∨
  (∃ p', split_args_loop fuel (c :: rest) n p = (Ret false, p')).
Proof.
  intros Hc0 Hc Hf. destruct fuel as [|fuel]; [simpl in Hf; lia|]. cbn [split_args_loop].
  rewrite (proj2 (Z.eqb_neq c 0)), (proj2 (Z.eqb_neq c c_lbracket)) by done.
  destruct (Z.eqb_spec c c_L) as [->|].
  - unfold get_class_args_type. destruct (get_class_args_end (c_L :: rest)) as [e|] eqn:He; [|right; by eexists].
    left. apply class_end_inv in He as (name & rest' & Hs & _ & H1 & H2). destruct name as [|x name]; [done|].
    injection Hs as <- ->. apply not_elem_of_cons in H1 as [_ H1]. apply not_elem_of_cons in H2 as [_ H2].
    exists (JClass name), rest'. split; [cbn; by rewrite <- app_assoc|done].
  - destruct (is_java_base_args_sig c) eqn:Hb; [|right; by eexists]. left. by exists (JPrim c), rest.
Qed.

(** The brackets at the head. *)
Lemma split_brackets fuel s p :
  s ≠ [] → 0 ∉ s → (length s ≤ fuel)%nat →
  (∃ n c rest f, s = (replicate n c_lbracket ++ c :: rest) ∧ c ≠ 0 ∧ c ≠ c_lbracket ∧ (length (c :: rest) ≤ f)%nat ∧
    split_args_loop fuel s 0 p = split_args_loop f (c :: rest) n p) ∨
  (∃ p', split_args_loop fuel s 0 p = (Ret false, p')).
Proof.
  intros Hne Hs Hf. destruct s as [|c s]; [done|]. destruct (get_array_args_count (c :: s)) as [n|] eqn:En.
  - left. apply array_count_inv in En as (c' & rest & Hcs & Hc0 & Hc). rewrite Hcs in *.
    rewrite length_app, length_replicate in Hf. exists n, c', rest. destruct n as [|n].
    { exists fuel. simpl in *. split_and!; done || lia. }
    destruct fuel as [|fuel]; [lia|]. exists fuel. split_and!; [done|done|done|lia|].
    cbn [split_args_loop replicate app]. change (c_lbracket =? 0) with false. eval_tests.
    change (c_lbracket :: replicate n c_lbracket ++ c' :: rest) with (replicate (S n) c_lbracket ++ (c' :: rest)).
    rewrite array_count_some, drop_app_length' by (done || by rewrite length_replicate). done.
  - right. destruct fuel as [|fuel]; [simpl in Hf; lia|]. cbn [split_args_loop].
    apply not_elem_of_cons in Hs as [Hc _]. pose proof En as E. simpl in E.
    rewrite (proj2 (Z.eqb_neq c 0)) in E |- * by congruence.
    destruct (Z.eqb_spec c c_lbracket); [|done]. rewrite En. by eexists.
Qed.

(** Whatever the loop accepts is a string of descriptors. *)
Lemma split_total k fuel s p :
  0 ∉ s → (length s ≤ k)%nat → (length s ≤ fuel)%nat →
  (∃ ts, Forall type_ok ts ∧ s = descriptors ts) ∨ (∃ p', split_args_loop fuel s 0 p = (Ret false, p')).
Proof.
  revert fuel s p. induction k as [|k IH]; intros fuel s p Hs Hk Hf; (destruct s as [|c0 s];
    [left; exists []; split; [by constructor|done]|]); [simpl in Hk; lia|].
  destruct (split_brackets fuel (c0 :: s) p ltac:(done) Hs Hf) as [(n & c & rest & f & E & Hc0 & Hc & Hf1 & ->)|H]; [|by right].
  destruct (split_base_inv f n c rest p Hc0 Hc Hf1) as [(b & rest' & Hb & Hok)|H]; [|by right].
  rewrite Hb in *. rewrite E in Hs, Hk |- *. rewrite length_app in Hf1.
  assert (Hlen : (1 ≤ length (base_descriptor b))%nat) by (destruct b; simpl; lia).
  destruct (split_base f b n rest' p Hok ltac:(lia)) as (f' & Hf2 & ->).
  rewrite !elem_of_app in Hs. rewrite !length_app in Hk.
  destruct (IH f' rest' (set_args_type (args_type p ++ [returned_descriptor (JType n b)]) p)) as [(ts & Hts & ->)|H];
    [tauto|lia|lia| |by right].
  left. exists (JType n b :: ts). split; [by constructor|]. unfold descriptors. cbn [fmap list_fmap concat].
  by rewrite app_assoc.
Qed.

(** split_args_sig accepts exactly the strings of type descriptors, always
    ends, and appends one signature per descriptor: a primitive with its array
    brackets, a class without them. *)
Lemma split_args_sig_exact s p :
  0 ∉ s →
  (∃ ts, Forall type_ok ts ∧ s = descriptors ts ∧
    split_args_sig s p = (Ret true, push_types (returned_descriptor <$> ts) p)) ∨
  ((∃ p', split_args_sig s p = (Ret false, p')) ∧ ¬ ∃ ts, Forall type_ok ts ∧ s = descriptors ts).
Proof.
  intros Hs. unfold split_args_sig. destruct (split_total (length s) (length s) s p Hs) as [(ts & Hts & ->)|(p' & H)]; [lia|lia|..].
  - left. exists ts. split_and!; [done|done|]. by apply split_all.
  - right. split; [by exists p'|]. intros (ts & Hts & ->). by rewrite split_all in H.
Qed.

(** *** A method descriptor *)

Lemma cut_unique (c : Z) (a b a' b' : list Z) :
  (c ∉ a) → (c ∉ a') → a ++ c :: b = a' ++ c :: b' → a = a' ∧ b = b'.
Proof.
  intros H1 H2 E. pose proof (str_find_char c a b H1) as F. rewrite E, str_find_char in F by done.
  injection F as F. apply app_inj_1 in E as [-> E]; [|done]. by injection E.
Qed.

(** The parts of [s]: parameters [args] between the first parentheses. *)
Record signature_parts (s pre args ret : list Z) : Prop := {
  parts_text : s = pre ++ c_lpar :: args ++ c_rpar :: ret;
  parts_pre_l : c_lpar ∉ pre;
  parts_pre_r : c_rpar ∉ pre;
  parts_args : c_rpar ∉ args
}.

Lemma parts_unique s pre args ret pre' args' ret' :
  signature_parts s pre args ret → signature_parts s pre' args' ret' → pre = pre' ∧ args = args' ∧ ret = ret'.
Proof.
  intros [E H1 H2 H3] [E' H1' H2' H3']. rewrite E in E'. apply cut_unique in E' as [-> E']; [|done..].
  by apply cut_unique in E' as [-> ->].
Qed.

Lemma not_in_app c (a b : list Z) : c ∉ a → c ∉ b → c ∉ (a ++ b).
Proof. rewrite elem_of_app. tauto. Qed.

Lemma parse_signature_run s pre args ret p :
  signature_parts s pre args ret → Z.of_nat (length s) < 2 ^ 31 →
  parse_java_signature s p =
    match split_args_sig args p with
    | (Ret true, p') => (Ret true, set_ret_type ret p')
    | r => r
    end.
Proof.
  intros [-> Hl Hr Ha] Hlen. unfold parse_java_signature. rewrite (str_find_char c_lpar) by done.
  assert (E : pre ++ c_lpar :: args ++ c_rpar :: ret = (pre ++ c_lpar :: args) ++ c_rpar :: ret) by by rewrite <- app_assoc.
  assert (Hf : str_find (pre ++ c_lpar :: args ++ c_rpar :: ret) [c_rpar] 0 = Some (length (pre ++ c_lpar :: args))).
  { rewrite E. apply str_find_char. apply not_in_app; [done|]. by apply not_elem_of_cons. }
  rewrite Hf. rewrite E, length_app in Hlen. pose proof Hlen as Hlen'. rewrite length_app in Hlen'. simpl in Hlen, Hlen'.
  rewrite !as_int_found, !as_int_some by lia. cbn zeta. rewrite (proj2 (Z.ltb_ge _ _)) by (rewrite length_app; lia).
  cbn [orb]. rewrite length_app. cbn [length].
  replace (u64 (Z.of_nat (length pre) + 1)) with (Z.of_nat (length (pre ++ [c_lpar])))
    by (rewrite wrap_small, length_app; simpl; lia).
  replace (u64 (Z.of_nat (length pre + S (length args)) - Z.of_nat (length pre) - 1)) with (Z.of_nat (length args))
    by (rewrite wrap_small; lia).
  replace (u64 (Z.of_nat (length pre + S (length args)) + 1)) with (Z.of_nat (length (pre ++ c_lpar :: args ++ [c_rpar])))
    by (rewrite wrap_small, ?length_app; cbn [length]; rewrite ?length_app; simpl; lia).
  rewrite (CM_bind_Ret _ _ p args p).
  2: { replace (pre ++ c_lpar :: args ++ c_rpar :: ret) with ((pre ++ [c_lpar]) ++ args ++ c_rpar :: ret) by by rewrite <- app_assoc.
    apply str_substr_middle. }
  assert (Hs : (if negb (length args =? 0)%nat then split_args_sig args else mret true) p = split_args_sig args p) by by destruct args.
  unfold mbind at 1, CM_bind at 1. rewrite Hs. destruct (split_args_sig args p) as [[[]|] p']; [|done..]. cbn [negb].
  rewrite (CM_bind_Ret _ _ p' ret p'); [done|].
  replace (pre ++ c_lpar :: args ++ c_rpar :: ret) with ((pre ++ c_lpar :: args ++ [c_rpar]) ++ ret)
    by (rewrite <- app_assoc; cbn [app]; by rewrite <- app_assoc).
  apply str_rest_run. rewrite !length_app. cbn [length]. rewrite length_app. simpl. lia.
Qed.

(** Without the parentheses in order the answer is no. *)
Lemma parse_signature_no_parts s p :
  Z.of_nat (length s) < 2 ^ 31 → (¬ ∃ pre args ret, signature_parts s pre args ret) →
  parse_java_signature s p = (Ret false, p).
Proof.
  intros Hlen Hno. unfold parse_java_signature. destruct (split_at_char c_lpar s) as [Hl|(pre & b & -> & Hl)].
  { by rewrite (str_find_char_none c_lpar). }
  rewrite (str_find_char c_lpar) by done. rewrite length_app in Hlen. cbn [length] in Hlen.
  destruct (split_at_char c_rpar pre) as [Hr|(x & y & -> & Hr)].
  - destruct (split_at_char c_rpar b) as [Hb|(args & ret & -> & Hb)].
    + rewrite (str_find_char_none c_rpar), as_int_found by (lia || (apply not_in_app; [done|by apply not_elem_of_cons])).
      done.
    + exfalso. apply Hno. by exists pre, args, ret.
  - rewrite <- app_assoc. cbn [app]. rewrite (str_find_char c_rpar x) by done.
    rewrite length_app in *. cbn [length] in *. rewrite !as_int_found, !as_int_some by lia. cbn zeta.
    by rewrite (proj2 (Z.ltb_lt _ _)) by lia.
Qed.

Lemma parts_decided s :
  (∃ pre args ret, signature_parts s pre args ret) ∨ ¬ ∃ pre args ret, signature_parts s pre args ret.
Proof.
  destruct (split_at_char c_lpar s) as [Hl|(pre & b & -> & Hl)].
  { right. intros (pre & args & ret & [-> _ _ _]). apply Hl. rewrite elem_of_app, elem_of_cons. tauto. }
  destruct (split_at_char c_rpar pre) as [Hr|(x & y & -> & Hr)].
  - destruct (split_at_char c_rpar b) as [Hb|(args & ret & -> & Hb)].
    + right. intros (pre' & args & ret & [E H1 H2 H3]). apply cut_unique in E as [-> ->]; [|done..]. apply Hb.
      rewrite elem_of_app, elem_of_cons. tauto.
    + left. by exists pre, args, ret.
  - right. intros (pre' & args & ret & [E H1 H2 H3]). apply cut_unique in E as [<- ->]; [|done..]. apply H2.
    rewrite elem_of_app, elem_of_cons. tauto.
Qed.

(** C33: parse_java_signature accepts exactly the strings with parameter
    descriptors between their first parentheses, behind anything without a
    parenthesis, and returns for each parameter its descriptor and, unchecked,
    what follows the parentheses as the result.  An array of objects is returned
    without its brackets (object_arrays_lost), the others as they are; V is
    taken for a parameter and so is a class without a name
    (void_parameter_accepted). *)
Theorem parse_java_signature_exact s p :
  0 ∉ s → Z.of_nat (length s) < 2 ^ 31 →
  (∃ pre ts ret, signature_parts s pre (descriptors ts) ret ∧ Forall type_ok ts ∧
    parse_java_signature s p = (Ret true, set_ret_type ret (push_types (returned_descriptor <$> ts) p)) ∧
    (Forall (λ t, object_array t = false) ts → returned_descriptor <$> ts = descriptor <$> ts)) ∨
  ((∃ p', parse_java_signature s p = (Ret false, p')) ∧
   ¬ ∃ pre ts ret, signature_parts s pre (descriptors ts) ret ∧ Forall type_ok ts).
Proof.
  intros Hs Hlen. destruct (parts_decided s) as [(pre & args & ret & H)|Hno].
  - pose proof (parse_signature_run _ _ _ _ p H Hlen) as Hrun.
    destruct (split_args_sig_exact args p) as [(ts & Hts & -> & E)|[[p' E] Hn]].
    + destruct H as [-> _ _ _]. rewrite !elem_of_app, !elem_of_cons, elem_of_app in Hs. tauto.
    + left. exists pre, ts, ret. rewrite Hrun, E. split_and!; [done..|apply returned_types].
    + right. split; [exists p'; by rewrite Hrun, E|]. intros (pre' & ts & ret' & H' & Hts). apply Hn. exists ts.
      by destruct (parts_unique _ _ _ _ _ _ _ H H') as (_ & -> & _).
  - right. split; [exists p; by apply parse_signature_no_parts|]. intros (pre & ts & ret & H & _). apply Hno.
    by exists pre, (descriptors ts), ret.
Qed.

(** ** Types as reflection prints them *)

(** The keyword of a primitive type. *)
Definition keyword (c : Z) : list Z :=
  match list_find (λ e, e.2 = [c]) base_types with Some (_, (name, _)) => name | None => [] end.
Definition base_pretty (b : jbase) : list Z :=
  match b with JPrim c => keyword c | JClass name => subst_char c_slash [c_dot] name end.
Definition brackets (n : nat) : list Z := concat (replicate n [c_lbracket; c_rbracket]).
Definition pretty (t : jtype) : list Z := base_pretty (jbase_of t) ++ brackets (dims t).

(** A base type that can be printed: class names hold no character with a
    meaning, and are no keywords. *)
Definition pretty_ok (b : jbase) : Prop :=
  match b with
  | JPrim c => is_java_base_args_sig c = true
  | JClass name =>
      Forall (λ c, c ∉ [c_dot; c_lbracket; c_rbracket; c_space; c_comma; c_lpar; c_rpar]) name ∧ name ≠ [] ∧
      subst_char c_slash [c_dot] name ∉ base_types.*1
  end.

Lemma subst_char_inverse c d s : d ∉ s → subst_char d [c] (subst_char c [d] s) = s.
Proof.
  induction s as [|x s IH]; [done|]. intros [Hx Hd]%not_elem_of_cons. rewrite subst_char_cons, subst_char_app, IH by done.
  unfold subst_char. case_decide as E; simpl; [by rewrite decide_True, E by done|by rewrite decide_False by done].
Qed.

Lemma brackets_count n : count (brackets n) c_lbracket = n.
Proof. induction n as [|n IH]; [done|]. unfold brackets in *. cbn [replicate concat]. by rewrite count_app, IH. Qed.
Lemma brackets_strip n : subst_char c_rbracket [] (subst_char c_lbracket [] (brackets n)) = [].
Proof. induction n as [|n IH]; [done|]. unfold brackets in *. cbn [replicate concat]. by rewrite !subst_char_app, IH. Qed.
Lemma brackets_elem n x : x ∈ brackets n → x = c_lbracket ∨ x = c_rbracket.
Proof.
  unfold brackets. induction n as [|n IH]; [by intros ?%elem_of_nil|]. cbn [replicate concat app].
  rewrite !elem_of_cons. intros [->|[->|H]]; auto.
Qed.

Lemma prim_cases (P : Z → Prop) :
  Forall P (str "VZBCSIJFD") → ∀ c, is_java_base_args_sig c = true → P c.
Proof.
  intros HP c H. unfold is_java_base_args_sig in H. apply existsb_exists in H as (x & Hx & E). apply Z.eqb_eq in E as ->.
  rewrite Forall_forall in HP. apply HP. by apply list_elem_of_In.
Qed.

Lemma base_pretty_plain b x :
  pretty_ok b → x ∈ base_pretty b → x ∉ [c_lbracket; c_rbracket; c_space; c_comma; c_lpar; c_rpar].
Proof.
  destruct b as [c|name]; simpl.
  - intros Hc. revert x. apply Forall_forall. revert c Hc.
    apply (prim_cases (λ c, Forall (λ x, x ∉ _) (keyword c))). apply (bool_decide_unpack _). by vm_compute.
  - intros (Hn & _) [Hx|[Hx _]]%subst_char_elem.
    + apply list_elem_of_singleton in Hx as ->. rewrite !not_elem_of_cons. repeat split; try lia. by apply not_elem_of_nil.
    + rewrite Forall_forall in Hn. specialize (Hn x Hx). rewrite not_elem_of_cons in Hn. tauto.
Qed.

Lemma keyword_found c :
  is_java_base_args_sig c = true → list_find (λ e, e.1 = keyword c) base_types ≫= (λ r, Some r.2.2) = Some [c].
Proof. revert c. apply prim_cases. apply (bool_decide_unpack _). by vm_compute. Qed.

Lemma class_no_keyword name :
  name ∉ base_types.*1 → list_find (λ e, e.1 = name) base_types = None.
Proof.
  intros H. apply list_find_None, Forall_forall. intros e He <-. apply H. by apply list_elem_of_fmap_2.
Qed.

Lemma pretty_absent b n c :
  pretty_ok b → c ∈ [c_space; c_comma; c_lpar; c_rpar] → c ∉ pretty (JType n b).
Proof.
  intros Hb Hc. unfold pretty. cbn [jbase_of dims]. apply not_in_app.
  - intros Hx. apply (base_pretty_plain b c Hb Hx). rewrite !elem_of_cons in *. tauto.
  - intros Hx%brackets_elem. rewrite !elem_of_cons, elem_of_nil in Hc. destruct Hx as [->| ->]; lia.
Qed.

(** What is left of a printed type without its brackets. *)
Lemma conv_brackets {S} b n (s : S) :
  pretty_ok b → Z.of_nat (length (pretty (JType n b))) < 2 ^ 31 →
  let t := pretty (JType n b) in
  let has c := negb (as_int (str_find t [c] 0) =? npos) in
  (if has c_lbracket && has c_rbracket then
     cpy_str ← replace_all t (str "[") [];
     cpy_str ← replace_all cpy_str (str "]") [];
     mret (count t c_lbracket, cpy_str)
   else mret (0%nat, t)) s = (Ret (n, base_pretty b), s).
Proof.
  intros Hb Hlen t has.
  assert (Hp : ∀ c, c ∈ [c_lbracket; c_rbracket] → c ∉ base_pretty b).
  { intros c Hc Hx. apply (base_pretty_plain b c Hb Hx). rewrite !elem_of_cons in *. tauto. }
  unfold t in *. unfold pretty in *. cbn [jbase_of dims] in *. destruct n as [|n].
  - unfold brackets in *. cbn [replicate concat] in *. rewrite app_nil_r in *.
    unfold has. rewrite app_nil_r, (str_find_char_none c_lbracket) by (apply Hp; by left). done.
  - rewrite length_app in Hlen. assert (Hbr : brackets (Datatypes.S n) = c_lbracket :: c_rbracket :: brackets n) by done.
    assert (H1 : has c_lbracket = true).
    { unfold has. rewrite Hbr, str_find_char, as_int_found; [done|lia|apply Hp; by left]. }
    assert (H2 : has c_rbracket = true).
    { unfold has. rewrite Hbr. replace (base_pretty b ++ c_lbracket :: c_rbracket :: brackets n)
        with ((base_pretty b ++ [c_lbracket]) ++ c_rbracket :: brackets n) by by rewrite <- app_assoc.
      rewrite str_find_char, as_int_found; [done| |apply not_in_app; [apply Hp; right; by left|]].
      - rewrite length_app. rewrite Hbr in Hlen. simpl in *. lia.
      - rewrite list_elem_of_singleton. done. }
    rewrite H1, H2. cbn [andb]. change (str "[") with [c_lbracket]. change (str "]") with [c_rbracket].
    rewrite (CM_bind_Ret _ _ s _ s (replace_char _ _ _ s ltac:(apply not_elem_of_nil))).
    rewrite (CM_bind_Ret _ _ s _ s (replace_char _ _ _ s ltac:(apply not_elem_of_nil))).
    unfold mret, CM_ret. do 2 f_equal. f_equal.
    + rewrite count_app, brackets_count, count_absent; [done|apply Hp; by left].
    + rewrite !subst_char_app, brackets_strip, app_nil_r. rewrite (subst_char_id c_lbracket) by (apply Hp; by left).
      apply subst_char_id, Hp. right. by left.
Qed.

(** A printed type becomes its descriptor. *)
Lemma conv_pretty {S} b n (s : S) :
  pretty_ok b → Z.of_nat (length (pretty (JType n b))) < 2 ^ 31 →
  conv_java_type_2_sig_type (pretty (JType n b)) s = (Ret (descriptor (JType n b)), s).
Proof.
  intros Hb Hlen. unfold conv_java_type_2_sig_type. cbv zeta.
  rewrite (CM_bind_Ret _ _ s (n, base_pretty b) s) by by apply conv_brackets.
  destruct b as [c|name]; unfold descriptor; cbn [base_pretty base_descriptor jbase_of dims].
  - pose proof (keyword_found c Hb) as H. destruct (list_find _ base_types) as [[i [nm sg]]|]; [|done].
    cbn in H. injection H as ->. done.
  - destruct Hb as (Hn & _ & Hk). rewrite class_no_keyword by done.
    change (str ".") with [c_dot]. change (str "/") with [c_slash].
    rewrite (CM_bind_Ret _ _ s _ s (replace_char _ c_dot [c_slash] s ltac:(by rewrite list_elem_of_singleton))).
    rewrite subst_char_inverse; [done|]. rewrite Forall_forall in Hn. intros Hd. specialize (Hn _ Hd).
    apply Hn. by left.
Qed.

(** ** Splitting at a separator *)

Fixpoint join (c : Z) (parts : list (list Z)) : list Z :=
  match parts with
  | [] => []
  | [x] => x
  | x :: parts => x ++ c :: join c parts
  end.

Lemma join_length c parts : (length parts ≤ length (join c parts) + 1)%nat.
Proof.
  induction parts as [|x parts IH]; [simpl; lia|]. destruct parts as [|y parts]; [simpl; lia|].
  cbn [join] in *. rewrite length_app. cbn [length] in *. lia.
Qed.
Lemma join_part c parts x : x ∈ parts → (length x ≤ length (join c parts))%nat.
Proof.
  induction parts as [|y parts IH]; [by intros ?%elem_of_nil|]. intros Hx. destruct parts as [|z parts].
  - apply list_elem_of_singleton in Hx as ->. done.
  - cbn [join] in *. rewrite length_app. cbn [length]. apply elem_of_cons in Hx as [->|Hx]; [lia|]. specialize (IH Hx). lia.
Qed.

Lemma str_find_after a c b rest :
  c ∉ b → str_find (a ++ b ++ c :: rest) [c] (length a) = Some (length a + length b)%nat.
Proof.
  intros Hb. unfold str_find. rewrite (proj2 (Nat.ltb_ge _ _)) by (rewrite length_app; lia).
  rewrite drop_app_length. by apply find_char_some.
Qed.
Lemma str_find_after_none a c b : c ∉ b → str_find (a ++ b) [c] (length a) = None.
Proof.
  intros Hb. unfold str_find. rewrite (proj2 (Nat.ltb_ge _ _)) by (rewrite length_app; lia).
  rewrite drop_app_length. by apply find_char_none.
Qed.

(** The last piece. *)
Lemma string_split_end {S} fuel a b pattern result (s : S) :
  b ≠ [] → str_find (a ++ b) pattern (length a) = None →
  string_split_loop (Datatypes.S fuel) (a ++ b) pattern (length a) result s = (Ret (result ++ [b]), s).
Proof.
  intros Hb Hf. cbn [string_split_loop]. rewrite (proj2 (Nat.ltb_lt _ _)) by (rewrite length_app; destruct b; [done|simpl; lia]).
  by rewrite Hf, drop_app_length.
Qed.

Lemma string_split_join_loop {S} fuel a c parts result (s : S) :
  Forall (λ x, c ∉ x) parts → Forall (λ x, x ≠ []) parts → (length parts ≤ fuel)%nat →
  string_split_loop fuel (a ++ join c parts) [c] (length a) result s = (Ret (result ++ parts), s).
Proof.
  revert fuel a result. induction parts as [|x parts IH]; intros fuel a result Hc Hne Hf.
  { cbn [join]. rewrite !app_nil_r. destruct fuel; cbn [string_split_loop]; by rewrite Nat.ltb_irrefl. }
  destruct fuel as [|fuel]; [simpl in Hf; lia|]. apply Forall_cons in Hc as [Hx Hc], Hne as [Hnx Hne].
  assert (Hlx : (0 < length x)%nat) by (destruct x; [done|simpl; lia]).
  destruct parts as [|y parts].
  - cbn [join]. apply string_split_end; [done|by apply str_find_after_none].
  - change (join c (x :: y :: parts)) with (x ++ c :: join c (y :: parts)). cbn [string_split_loop].
    rewrite (proj2 (Nat.ltb_lt (length a) _)) by (rewrite length_app; rewrite length_app; lia).
    rewrite (str_find_after a c x (join c (y :: parts))) by done.
    rewrite (proj2 (Nat.ltb_lt _ _)) by (rewrite !length_app; cbn [length]; lia).
    rewrite drop_app_length, take_app_length' by lia.
    replace (a ++ x ++ c :: join c (y :: parts)) with ((a ++ x ++ [c]) ++ join c (y :: parts)) by by rewrite <- !app_assoc.
    replace (length a + length x + length [c] - 1 + 1)%nat with (length (a ++ x ++ [c])) by (rewrite !length_app; simpl; lia).
    rewrite IH by (done || (cbn [length] in *; lia)). by rewrite <- app_assoc.
Qed.

Lemma string_split_join {S} c parts (s : S) :
  Forall (λ x, c ∉ x) parts → Forall (λ x, x ≠ []) parts → string_split (join c parts) [c] s = (Ret parts, s).
Proof.
  intros Hc Hne. unfold string_split. destruct parts as [|x parts]; [done|].
  apply (string_split_join_loop _ [] c (x :: parts) []); [done|done|].
  clear Hc. induction Hne as [|y l Hy Hne IH]; [simpl; lia|]. destruct l as [|z l].
  - destruct y; [done|]. simpl. lia.
  - cbn [join] in *. rewrite length_app. cbn [length] in *. lia.
Qed.

Lemma mapM_conv {S} (ts : list jtype) (s : S) :
  Forall (λ t, pretty_ok (jbase_of t) ∧ Z.of_nat (length (pretty t)) < 2 ^ 31) ts →
  mapM conv_java_type_2_sig_type (pretty <$> ts) s = (Ret (descriptor <$> ts), s).
Proof.
  induction 1 as [|[n b] ts [Hb Hl] _ IH]; [done|]. cbn [fmap list_fmap mapM].
  rewrite (CM_bind_Ret _ _ s _ s (conv_pretty b n s Hb Hl)). by rewrite (CM_bind_Ret _ _ s _ s IH).
Qed.

(** ** A declaration *)

Lemma find_last_of_none c b rest pos :
  c ∉ b → pos + 1 = Z.of_nat (length b) → str_find_last_of (b ++ rest) c pos = None.
Proof.
  intros Hb Hpos. unfold str_find_last_of. rewrite length_app, take_app_length'; [by apply last_index_none|lia].
Qed.

(** The parts of a declaration: modifiers, result type, class, method,
    parameters. *)
Record declaration : Set := Decl {
  d_mods : list Z; d_ret : jtype; d_class : list Z; d_method : list Z; d_args : list jtype;
  d_arg_text : list Z; d_rest : list Z
}.
(** What is before the first parenthesis. *)
Definition decl_full_name (d : declaration) : list Z := d_class d ++ c_dot :: d_method d.
Definition decl_head (d : declaration) : list Z := d_mods d ++ pretty (d_ret d) ++ c_space :: decl_full_name d.
Definition decl_text (d : declaration) : list Z := decl_head d ++ c_lpar :: d_arg_text d ++ c_rpar :: d_rest d.

Definition name_char (c : Z) : Prop := c ∉ [c_space; c_lpar; c_rpar].

(** A declaration as reflection prints it.  The parameters are separated by
    commas, with or without spaces. *)
Record decl_ok (d : declaration) : Prop := {
  ok_mods : d_mods d = [] ∨ ∃ m, d_mods d = m ++ [c_space] ∧ (c_lpar ∉ m) ∧ (c_rpar ∉ m);
  ok_ret : pretty_ok (jbase_of (d_ret d));
  ok_class : Forall name_char (d_class d) ∧ d_class d ≠ [];
  ok_method : Forall name_char (d_method d) ∧ d_method d ≠ [] ∧ (c_dot ∉ d_method d);
  ok_args : Forall (λ t, pretty_ok (jbase_of t)) (d_args d);
  ok_arg_text : subst_char c_space [] (d_arg_text d) = join c_comma (pretty <$> d_args d) ∧ (c_rpar ∉ d_arg_text d);
  ok_length : Z.of_nat (length (decl_text d)) < 2 ^ 31
}.

Lemma name_char_absent l c : Forall name_char l → c ∈ [c_space; c_lpar; c_rpar] → c ∉ l.
Proof. intros H Hc Hx. rewrite Forall_forall in H. by apply (H c Hx). Qed.

Lemma full_name_absent d c : decl_ok d → c ∈ [c_space; c_lpar; c_rpar] → c ∉ decl_full_name d.
Proof.
  intros H Hc. unfold decl_full_name. apply not_in_app; [by apply (name_char_absent _ _ (proj1 (ok_class d H)))|].
  apply not_elem_of_cons. split; [|by apply (name_char_absent _ _ (proj1 (ok_method d H)))].
  rewrite !elem_of_cons, elem_of_nil in Hc. lia.
Qed.

Lemma head_absent d c : decl_ok d → c ∈ [c_lpar; c_rpar] → c ∉ decl_head d.
Proof.
  intros H Hc. unfold decl_head. apply not_in_app.
  - destruct (ok_mods d H) as [->|(m & -> & H1 & H2)]; [by apply not_elem_of_nil|]. apply not_in_app.
    + rewrite !elem_of_cons, elem_of_nil in Hc. by destruct Hc as [->|[->|[]]].
    + rewrite list_elem_of_singleton. rewrite !elem_of_cons, elem_of_nil in Hc. lia.
  - apply not_in_app; [apply pretty_absent; [apply (ok_ret d H)|rewrite !elem_of_cons in *; tauto]|].
    apply not_elem_of_cons. split; [rewrite !elem_of_cons, elem_of_nil in Hc; lia|].
    apply full_name_absent; [done|]. rewrite !elem_of_cons in *. tauto.
Qed.

Lemma pretty_nonempty t : pretty_ok (jbase_of t) → pretty t ≠ [].
Proof.
  destruct t as [n [c|name]]; unfold pretty; simpl; intros H [E _]%app_eq_nil.
  - revert E. revert c H. apply (prim_cases (λ c, keyword c ≠ [])). apply (bool_decide_unpack _). by vm_compute.
  - destruct H as (_ & Hne & _). destruct name as [|x name]; [done|]. rewrite subst_char_cons in E. by case_decide.
Qed.

(** The two searches for the parentheses. *)
Lemma decl_parens d :
  decl_ok d →
  str_find (decl_text d) [c_lpar] 0 = Some (length (decl_head d)) ∧
  str_find (decl_text d) [c_rpar] 0 = Some (length (decl_head d) + 1 + length (d_arg_text d))%nat.
Proof.
  intros H. unfold decl_text. split; [apply str_find_char, head_absent; [done|by left]|].
  replace (decl_head d ++ c_lpar :: d_arg_text d ++ c_rpar :: d_rest d)
    with ((decl_head d ++ c_lpar :: d_arg_text d) ++ c_rpar :: d_rest d) by by rewrite <- app_assoc.
  rewrite str_find_char; [f_equal; rewrite length_app; simpl; lia|].
  apply not_in_app; [apply head_absent; [done|right; by left]|]. apply not_elem_of_cons. split; [done|].
  apply (ok_arg_text d H).
Qed.

(** The space before the name, and the one before the result type. *)
Lemma decl_spaces d :
  decl_ok d →
  let p := length (d_mods d ++ pretty (d_ret d)) in
  str_find_last_of (decl_text d) c_space (Z.of_nat (length (decl_head d))) = Some p ∧
  str_find_last_of (decl_text d) c_space (Z.of_nat p - 1) =
    (if decide (d_mods d = []) then None else Some (length (d_mods d) - 1)%nat).
Proof.
  intros H p. unfold decl_text, decl_head, p.
  pose proof (pretty_nonempty _ (ok_ret d H)) as Hne.
  assert (Hsp : c_space ∉ pretty (d_ret d)) by (destruct (d_ret d) as [n b] eqn:E; apply pretty_absent;
    [pose proof (ok_ret d H) as Hr; by rewrite E in Hr|by left]). split.
  - replace ((d_mods d ++ pretty (d_ret d) ++ c_space :: decl_full_name d) ++ c_lpar :: d_arg_text d ++ c_rpar :: d_rest d)
      with ((d_mods d ++ pretty (d_ret d)) ++ c_space :: (decl_full_name d ++ [c_lpar]) ++ d_arg_text d ++ c_rpar :: d_rest d)
      by (rewrite <- !app_assoc; cbn [app]; by rewrite <- ?app_assoc).
    apply find_last_of_some; [|rewrite !length_app; simpl; rewrite ?length_app; simpl; lia|].
    + apply not_in_app; [apply full_name_absent; [done|by left]|by rewrite list_elem_of_singleton].
    + right. rewrite !length_app. cbn [length]. rewrite ?length_app. simpl. lia.
  - assert (Hl : (0 < length (pretty (d_ret d)))%nat) by (destruct (pretty (d_ret d)); [done|simpl; lia]).
    destruct (ok_mods d H) as [->|(m & -> & _ & _)].
    + rewrite decide_True by done. cbn [app]. rewrite <- app_assoc. apply find_last_of_none; [done|lia].
    + rewrite decide_False by by destruct m.
      replace (((m ++ [c_space]) ++ pretty (d_ret d) ++ c_space :: decl_full_name d) ++ c_lpar :: d_arg_text d ++ c_rpar :: d_rest d)
        with (m ++ c_space :: pretty (d_ret d) ++ (c_space :: decl_full_name d) ++ c_lpar :: d_arg_text d ++ c_rpar :: d_rest d)
        by (by rewrite <- !app_assoc).
      rewrite find_last_of_some; [f_equal; rewrite length_app; simpl; lia|done|rewrite !length_app; simpl; lia|].
      right. rewrite !length_app. simpl. lia.
Qed.

(** The parts the parser cuts out. *)
Lemma decl_cuts {S} d (s : S) :
  decl_ok d →
  let start := Z.of_nat (length (decl_head d)) in
  let end_ := start + 1 + Z.of_nat (length (d_arg_text d)) in
  let p := Z.of_nat (length (d_mods d ++ pretty (d_ret d))) in
  str_substr (decl_text d) (u64 (start + 1)) (u64 (end_ - start - 1)) s = (Ret (d_arg_text d), s) ∧
  str_substr (decl_text d) (u64 (p + 1)) (u64 (start - p - 1)) s = (Ret (decl_full_name d), s) ∧
  str_substr (decl_text d) (u64 (Z.of_nat (length (d_mods d)))) (u64 (p - Z.of_nat (length (d_mods d)))) s =
    (Ret (pretty (d_ret d)), s).
Proof.
  intros H start end_ p. pose proof (ok_length d H) as Hlen. unfold decl_text in *. rewrite length_app in Hlen. cbn [length] in Hlen.
  rewrite length_app in Hlen. cbn [length] in Hlen.
  assert (Hh : start = p + 1 + Z.of_nat (length (decl_full_name d))).
  { unfold start, p, decl_head. rewrite !length_app. cbn [length]. lia. }
  assert (Hp : p = Z.of_nat (length (d_mods d)) + Z.of_nat (length (pretty (d_ret d)))) by (unfold p; rewrite length_app; lia).
  rewrite !(wrap_small 64) by lia. split_and!.
  - replace (start + 1) with (Z.of_nat (length (decl_head d ++ [c_lpar]))) by (rewrite length_app; simpl; lia).
    replace (end_ - start - 1) with (Z.of_nat (length (d_arg_text d))) by lia.
    replace (decl_head d ++ c_lpar :: d_arg_text d ++ c_rpar :: d_rest d)
      with ((decl_head d ++ [c_lpar]) ++ d_arg_text d ++ c_rpar :: d_rest d) by by rewrite <- app_assoc.
    apply str_substr_middle.
  - replace (p + 1) with (Z.of_nat (length (d_mods d ++ pretty (d_ret d) ++ [c_space])))
      by (rewrite !length_app; simpl; lia).
    replace (start - p - 1) with (Z.of_nat (length (decl_full_name d))) by lia.
    unfold decl_head. replace ((d_mods d ++ pretty (d_ret d) ++ c_space :: decl_full_name d) ++ c_lpar :: d_arg_text d ++ c_rpar :: d_rest d)
      with ((d_mods d ++ pretty (d_ret d) ++ [c_space]) ++ decl_full_name d ++ c_lpar :: d_arg_text d ++ c_rpar :: d_rest d)
      by (by rewrite <- !app_assoc).
    apply str_substr_middle.
  - replace (p - Z.of_nat (length (d_mods d))) with (Z.of_nat (length (pretty (d_ret d)))) by lia.
    unfold decl_head. rewrite <- !app_assoc. apply str_substr_middle.
Qed.

Lemma decl_has_space d : (count (decl_text d) c_space <? 1)%nat = false.
Proof.
  apply Nat.ltb_ge. unfold decl_text, decl_head. rewrite !count_app, count_cons. lia.
Qed.

Lemma decl_lengths d :
  decl_ok d →
  Z.of_nat (length (decl_head d)) + 1 + Z.of_nat (length (d_arg_text d)) < 2 ^ 31 ∧
  Z.of_nat (length (d_mods d ++ pretty (d_ret d))) + 1 + Z.of_nat (length (decl_full_name d)) =
    Z.of_nat (length (decl_head d)) ∧
  Z.of_nat (length (pretty (d_ret d))) < 2 ^ 31 ∧
  (2 ≤ length (decl_full_name d))%nat ∧ Z.of_nat (length (d_class d)) < 2 ^ 31.
Proof.
  intros H. pose proof (ok_length d H) as Hlen. unfold decl_text, decl_head, decl_full_name in *.
  rewrite !length_app in *. cbn [length] in *. rewrite !length_app in *. cbn [length] in *.
  destruct (ok_method d H) as (_ & Hm & _). destruct (ok_class d H) as [_ Hc].
  destruct (d_method d); [done|]. destruct (d_class d); [done|]. cbn [length] in *. lia.
Qed.

(** The parameters. *)
Lemma decl_args_text {S} d (s : S) :
  decl_ok d → replace_all (d_arg_text d) (str " ") [] s = (Ret (join c_comma (pretty <$> d_args d)), s).
Proof.
  intros H. change (str " ") with [c_space]. rewrite replace_char by by apply not_elem_of_nil.
  by rewrite (proj1 (ok_arg_text d H)).
Qed.
Lemma decl_args_split {S} d (s : S) :
  decl_ok d → string_split (join c_comma (pretty <$> d_args d)) (str ",") s = (Ret (pretty <$> d_args d), s).
Proof.
  intros H. change (str ",") with [c_comma]. pose proof (ok_args d H) as Ha.
  apply string_split_join; apply Forall_fmap; eapply Forall_impl; try exact Ha; intros [n b] Hb; cbn.
  - apply pretty_absent; [done|right; by left].
  - by apply pretty_nonempty.
Qed.
Lemma subst_char_nil_length c s : (length (subst_char c [] s) ≤ length s)%nat.
Proof. induction s as [|x s IH]; [done|]. rewrite subst_char_cons, length_app. case_decide; simpl; lia. Qed.

Lemma decl_args_conv {S} d (s : S) :
  decl_ok d → mapM conv_java_type_2_sig_type (pretty <$> d_args d) s = (Ret (descriptor <$> d_args d), s).
Proof.
  intros H. apply mapM_conv. pose proof (ok_args d H) as Ha. rewrite Forall_forall in Ha |- *. intros t Ht. split; [by apply Ha|].
  pose proof (join_part c_comma (pretty <$> d_args d) (pretty t) ltac:(by apply list_elem_of_fmap_2)) as Hl.
  rewrite <- (proj1 (ok_arg_text d H)) in Hl. pose proof (subst_char_nil_length c_space (d_arg_text d)).
  destruct (decl_lengths d H) as (Hlen & _). lia.
Qed.

(** The class and the method. *)
Lemma name_cut {S} class method (s : S) :
  (c_dot ∉ method) → Z.of_nat (length (class ++ c_dot :: method)) < 2 ^ 31 →
  str_find_last_of (class ++ c_dot :: method) c_dot (u64 npos) = Some (length class) ∧
  str_rest (class ++ c_dot :: method) (u64 (Z.of_nat (length class) + 1)) s = (Ret method, s) ∧
  str_substr (class ++ c_dot :: method) 0 (u64 (Z.of_nat (length class))) s = (Ret class, s).
Proof.
  intros Hdot Hlen. rewrite length_app in Hlen. cbn [length] in Hlen. split_and!.
  - rewrite <- (app_nil_r method). apply find_last_of_some; [done|change (u64 npos) with (2 ^ 64 - 1); lia|by left].
  - rewrite wrap_small by lia.
    replace (Z.of_nat (length class) + 1) with (Z.of_nat (length (class ++ [c_dot]))) by (rewrite length_app; simpl; lia).
    replace (class ++ c_dot :: method) with ((class ++ [c_dot]) ++ method) by by rewrite <- app_assoc.
    apply str_rest_run. rewrite !length_app. simpl. lia.
  - rewrite wrap_small by lia. change 0 with (Z.of_nat (length (@nil Z))).
    apply (str_substr_middle [] class (c_dot :: method)).
Qed.
Lemma full_name_cut {S} d (s : S) :
  decl_ok d →
  str_find_last_of (decl_full_name d) c_dot (u64 npos) = Some (length (d_class d)) ∧
  str_rest (decl_full_name d) (u64 (Z.of_nat (length (d_class d)) + 1)) s = (Ret (d_method d), s) ∧
  str_substr (decl_full_name d) 0 (u64 (Z.of_nat (length (d_class d)))) s = (Ret (d_class d), s).
Proof.
  intros H. destruct (decl_lengths d H) as (Hlen1 & Hlen2 & _). destruct (ok_method d H) as (_ & _ & Hdot).
  unfold decl_full_name in *. apply name_cut; [done|lia].
Qed.

(** The result type. *)
Lemma decl_ret_text {S} d (s : S) :
  decl_ok d →
  let p := Z.of_nat (length (d_mods d ++ pretty (d_ret d))) in
  let p2 := as_int (str_find_last_of (decl_text d) c_space (u64 (p - 1))) in
  (if p2 =? npos then ret ← str_substr (decl_text d) 0 (u64 p); mret (Some ret)
   else if p - p2 - 1 <? 1 then mret None
   else ret ← str_substr (decl_text d) (u64 (p2 + 1)) (u64 (p - p2 - 1)); mret (Some ret)) s =
  (Ret (Some (pretty (d_ret d))), s).
Proof.
  intros H p p2. destruct (decl_lengths d H) as (Hlen1 & Hlen2 & _). destruct (decl_spaces d H) as [_ Hs].
  assert (Hp : p = Z.of_nat (length (d_mods d)) + Z.of_nat (length (pretty (d_ret d))))
    by (unfold p; rewrite length_app; lia).
  destruct (decl_cuts d s H) as (_ & _ & Hc). pose proof (pretty_nonempty _ (ok_ret d H)) as Hne.
  assert (Hl : (0 < length (pretty (d_ret d)))%nat) by (destruct (pretty (d_ret d)); [done|simpl; lia]).
  fold p in Hs, Hc, Hlen2. clearbody p.
  assert (Hp2 : p2 = if decide (d_mods d = []) then npos else Z.of_nat (length (d_mods d)) - 1).
  { unfold p2. rewrite wrap_small, Hs by lia. case_decide as E; [done|]. rewrite as_int_some by lia.
    destruct (d_mods d); [done|]. simpl. lia. }
  rewrite Hp2. case_decide as E.
  - rewrite Z.eqb_refl. rewrite (f_equal length E) in Hc. cbn [length] in Hc. rewrite Z.sub_0_r in Hc.
    change (u64 (Z.of_nat 0)) with 0 in Hc.
    by rewrite (CM_bind_Ret _ _ s _ s Hc).
  - rewrite (proj2 (Z.eqb_neq _ npos)) by (unfold npos; destruct (d_mods d); [done|]; simpl; lia).
    rewrite (proj2 (Z.ltb_ge _ _)) by lia. rewrite Z.sub_add.
    replace (p - (Z.of_nat (length (d_mods d)) - 1) - 1) with (p - Z.of_nat (length (d_mods d))) by lia.
    by rewrite (CM_bind_Ret _ _ s _ s Hc).
Qed.

(** C32: printing a declaration and parsing it gives its parts back: class,
    method, and the types of parameters and result as descriptors, whatever the
    modifiers and what follows. *)
Theorem parse_java_pretty_name_roundtrip d p :
  decl_ok d →
  parse_java_pretty_name (decl_text d) p =
    (Ret true, mkParsed (d_class d) (d_method d) (descriptor <$> d_args d) (descriptor (d_ret d)) (is_override p)).
Proof.
  intros H. destruct (decl_parens d H) as [Hl Hr]. destruct (decl_spaces d H) as [Hs1 Hs2].
  destruct (decl_lengths d H) as (Hlen1 & Hlen2 & Hlen3 & Hname & Hclass).
  unfold parse_java_pretty_name. rewrite Hl, Hr, !as_int_found, !as_int_some by lia. cbv zeta.
  rewrite decl_has_space, (proj2 (Z.ltb_ge _ _)) by lia. cbn [orb].
  replace (Z.of_nat (length (decl_head d) + 1 + length (d_arg_text d)))
    with (Z.of_nat (length (decl_head d)) + 1 + Z.of_nat (length (d_arg_text d))) by lia.
  destruct (decl_cuts d p H) as (Hc1 & _). rewrite (CM_bind_Ret _ _ p _ p Hc1).
  rewrite (CM_bind_Ret _ _ p _ p (decl_args_text d p H)), (CM_bind_Ret _ _ p _ p (decl_args_split d p H)),
    (CM_bind_Ret _ _ p _ p (decl_args_conv d p H)).
  rewrite CM_bind_modify. set (p1 := set_args_type (descriptor <$> d_args d) p).
  rewrite (wrap_small 64 (Z.of_nat (length (decl_head d)))), Hs1 by lia.
  rewrite as_int_found, as_int_some by lia.
  rewrite (proj2 (Z.leb_gt _ _)) by lia. cbn [orb].
  destruct (decl_cuts d p1 H) as (_ & Hc2 & Hc3). rewrite (CM_bind_Ret _ _ p1 _ p1 Hc2).
  rewrite (proj2 (Nat.eqb_neq _ _)) by lia.
  destruct (full_name_cut d p1 H) as (Hdot & Hm & _). rewrite Hdot.
  rewrite as_int_found, as_int_some by lia.
  rewrite (CM_bind_Ret _ _ p1 _ p1 Hm), CM_bind_modify. set (p2 := set_method_name (d_method d) p1).
  destruct (full_name_cut d p2 H) as (_ & _ & Hcl).
  rewrite (CM_bind_Ret _ _ p2 _ p2 Hcl), CM_bind_modify. set (p3 := set_class_name (d_class d) p2).
  rewrite (proj2 (Nat.eqb_neq (length (d_method d)) 0)), (proj2 (Nat.eqb_neq (length (d_class d)) 0))
    by (rewrite length_zero_iff_nil; apply (ok_class d H) || apply (ok_method d H)). cbn [orb].
  rewrite (CM_bind_Ret _ _ p3 _ p3 (decl_ret_text d p3 H)), CM_bind_modify.
  rewrite (proj2 (Nat.eqb_neq _ _)) by (rewrite length_zero_iff_nil; apply pretty_nonempty, (ok_ret d H)).
  pose proof (ok_ret d H) as Hret. unfold p1, p2, p3. destruct (d_ret d) as [n b].
  by rewrite (CM_bind_Ret _ _ _ _ _ (conv_pretty b n _ Hret Hlen3)), CM_bind_modify.
Qed.

(** ** Names of native methods *)

Abbreviation c_0 := 48.
Abbreviation c_1 := 49.
Abbreviation c_2 := 50.
Abbreviation c_3 := 51.

(** The name of a native method: '_' becomes "_1" and '.' becomes '_'. *)
Definition mangle (name : list Z) : list Z := subst_char c_dot [c_under] (subst_char c_under [c_under; c_1] name).
(** In the descriptors of an overloaded method, ';' becomes "_2" and '['
    becomes "_3". *)
Definition mangle_sig (descs : list Z) : list Z := subst_char c_semi [c_under; c_2] (subst_char c_lbracket [c_under; c_3] descs).
Definition native_name (class method : list Z) (overload : option (list jtype)) : list Z :=
  str "Java_" ++ mangle (class ++ c_dot :: method) ++
  match overload with None => [] | Some ts => str "__" ++ mangle_sig (descriptors ts) end.

Definition no_pairs (a : Z) (bs : list Z) (s : list Z) : Prop := ∀ b, b ∈ bs → has_pair a b s = false.

(** No part of a class name begins with a character that looks like an escape. *)
Definition name_ok (class method : list Z) : Prop :=
  no_pairs c_dot [c_dot; c_under; c_0; c_1] (class ++ c_dot :: method) ∧
  class ≠ [] ∧ method ≠ [] ∧ (c_dot ∉ method).
(** The parameters are written with '_' for '/'. *)
Definition sig_ok (ts : list jtype) : Prop :=
  Forall type_ok ts ∧ ts ≠ [] ∧
  no_pairs c_under [c_under; c_0; c_2; c_3; c_lbracket; c_semi] (descriptors ts) ∧
  last (descriptors ts) ≠ Some c_under.

Lemma subst_char_single c d s : subst_char c [d] s = (λ x, if decide (x = c) then d else x) <$> s.
Proof. induction s as [|x s IH]; [done|]. rewrite subst_char_cons, IH. simpl. by case_decide. Qed.

Lemma unmangle_name name : subst_char c_under [c_dot] (mangle name) = subst_char c_under [c_dot; c_1] name.
Proof.
  unfold mangle. induction name as [|x name IH]; [done|].
  rewrite (subst_char_cons c_under [c_under; c_1]), (subst_char_cons c_under [c_dot; c_1]), !subst_char_app, IH.
  f_equal. case_decide as E; [done|]. rewrite !subst_char_single. cbn [fmap list_fmap].
  destruct (decide (x = c_dot)) as [->|E']; [done|]. by rewrite decide_False.
Qed.

Lemma mangle_cons x name :
  mangle (x :: name) =
    (if decide (x = c_under) then [c_under; c_1] else if decide (x = c_dot) then [c_under] else [x]) ++ mangle name.
Proof.
  unfold mangle. rewrite (subst_char_cons c_under), subst_char_app. f_equal. case_decide as E; [done|].
  rewrite subst_char_single. cbn [fmap list_fmap]. by case_decide.
Qed.

Lemma has_pair_cons a b x s :
  has_pair a b (x :: s) = false ↔ (x = a → head s ≠ Some b) ∧ has_pair a b s = false.
Proof.
  cbn [has_pair]. rewrite orb_false_iff, andb_false_iff. split.
  - intros [H1 H2]. split; [|done]. intros -> Hh. destruct s as [|y s]; [done|]. simpl in Hh. injection Hh as ->.
    rewrite !Z.eqb_refl in H1. by destruct H1.
  - intros [H1 H2]. split; [|done]. destruct (Z.eqb_spec x a) as [->|]; [right|by left]. specialize (H1 eq_refl).
    destruct s as [|y s]; [done|]. apply Z.eqb_neq. intros ->. by apply H1.
Qed.

(** No "__" and no "_0" in a mangled name, nor '_' at its end. *)
Lemma mangle_pairs name b :
  no_pairs c_dot [c_dot; c_under; c_0; c_1] name → last name ≠ Some c_dot → b ∈ [c_under; c_0] →
  has_pair c_under b (mangle name ++ [c_under]) = false.
Proof.
  intros Hn Hlast Hb. induction name as [|x name IH].
  { done. }
  assert (Hn' : no_pairs c_dot [c_dot; c_under; c_0; c_1] name).
  { intros c Hc. specialize (Hn c Hc). by apply has_pair_cons in Hn as [_ Hn]. }
  assert (Hb' : b = c_under ∨ b = c_0) by (rewrite !elem_of_cons, elem_of_nil in Hb; tauto).
  assert (Hx : x = c_dot → head (mangle name ++ [c_under]) ≠ Some b).
  { intros ->. destruct name as [|y name]; [done|]. rewrite mangle_cons.
    assert (Hy : ∀ c, c ∈ [c_dot; c_under; c_0; c_1] → y ≠ c).
    { intros c Hc ->. specialize (Hn c Hc). apply has_pair_cons in Hn as [Hn _]. by apply Hn. }
    rewrite decide_False, decide_False by (apply Hy; rewrite !elem_of_cons; auto). simpl. intros [= ->].
    destruct Hb' as [->| ->]; eapply Hy; [| done| |done]; rewrite !elem_of_cons; auto. }
  rewrite mangle_cons, <- app_assoc. assert (IH' := IH Hn' ltac:(by destruct name)). clear IH.
  case_decide as E1; [|case_decide as E2]; cbn [app]; rewrite !has_pair_cons.
  - split_and!; [|done|done]. intros _ [= E]. destruct Hb' as [->| ->]; done.
  - split_and!; [|done]. intros _. by apply Hx.
  - split_and!; [|done]. done.
Qed.

Lemma has_pair_intro a b s x t :
  has_pair a b (s ++ [x]) = false → has_pair a b (x :: t) = false → has_pair a b (s ++ x :: t) = false.
Proof.
  induction s as [|y s IH]; [done|]. cbn [app]. rewrite !(has_pair_cons _ _ y). intros [H1 H2] H3. split; [|by apply IH].
  intros Hy. specialize (H1 Hy). by destruct s.
Qed.

Lemma mangle_sig_cons x s :
  mangle_sig (x :: s) =
    (if decide (x = c_lbracket) then [c_under; c_3] else if decide (x = c_semi) then [c_under; c_2] else [x]) ++ mangle_sig s.
Proof.
  unfold mangle_sig. rewrite (subst_char_cons c_lbracket), subst_char_app. f_equal. case_decide as E; [done|].
  unfold subst_char. simpl. rewrite app_nil_r. by case_decide.
Qed.

Lemma no_pairs_tail a bs x s : no_pairs a bs (x :: s) → no_pairs a bs s.
Proof. intros H b Hb. by specialize (H b Hb) as [_ H]%has_pair_cons. Qed.
Lemma no_pairs_head a bs y s b : no_pairs a bs (a :: y :: s) → b ∈ bs → y ≠ b.
Proof. intros H Hb ->. specialize (H b Hb) as [H _]%has_pair_cons. by apply H. Qed.

Lemma mangle_sig_pairs s b :
  no_pairs c_under [c_under; c_0; c_2; c_3; c_lbracket; c_semi] s → b ∈ [c_under; c_0] →
  has_pair c_under b (mangle_sig s) = false.
Proof.
  intros Hs Hb. assert (Hb' : b = c_under ∨ b = c_0) by (rewrite !elem_of_cons, elem_of_nil in Hb; tauto).
  induction s as [|x s IH]; [done|]. specialize (IH (no_pairs_tail _ _ _ _ Hs)). rewrite mangle_sig_cons.
  case_decide as E1; [|case_decide as E2]; cbn [app]; rewrite !has_pair_cons; split_and!; try done.
  1,2: intros _ [= <-]; by destruct Hb'.
  intros ->. destruct s as [|y s]; [done|]. rewrite mangle_sig_cons.
  rewrite !decide_False by (apply (no_pairs_head _ _ _ _ _ Hs); rewrite !elem_of_cons; tauto).
  simpl. intros [= ->]. eapply (no_pairs_head _ _ _ _ b Hs); [|done]. rewrite !elem_of_cons. tauto.
Qed.

Lemma brackets_pairs s :
  no_pairs c_under [c_under; c_0; c_2; c_3; c_lbracket; c_semi] s →
  has_pair c_under c_2 (subst_char c_lbracket [c_under; c_3] s) = false.
Proof.
  intros Hs. induction s as [|x s IH]; [done|]. specialize (IH (no_pairs_tail _ _ _ _ Hs)). rewrite subst_char_cons.
  case_decide as E1; cbn [app]; rewrite !has_pair_cons; split_and!; try done.
  intros ->. destruct s as [|y s]; [done|]. rewrite subst_char_cons.
  rewrite !decide_False by (apply (no_pairs_head _ _ _ _ _ Hs); rewrite !elem_of_cons; tauto).
  simpl. intros [= ->]. eapply (no_pairs_head _ _ _ _ c_2 Hs); [|done]. rewrite !elem_of_cons. tauto.
Qed.

Section native.
Context {S : Type}.
Implicit Types st : S.

Lemma count_subst c d e (l : list Z) : (count l c ≤ length (subst_char c [d; e] l))%nat.
Proof.
  induction l as [|x l IH]; [done|]. rewrite subst_char_cons, length_app. unfold count in *.
  case_decide as E; [rewrite filter_cons_True by done|rewrite filter_cons_False by done]; simpl; lia.
Qed.

(** The two replacements of a name, then those of the parameters. *)
Lemma unmangle_dots name st :
  replace_all (mangle name) (str "_") (str ".") st = (Ret (subst_char c_under [c_dot; c_1] name), st).
Proof.
  change (str "_") with [c_under]. change (str ".") with [c_dot].
  rewrite (replace_char _ c_under [c_dot] st) by by rewrite list_elem_of_singleton. by rewrite unmangle_name.
Qed.
Lemma unmangle_unders name st :
  no_pairs c_dot [c_dot; c_under; c_0; c_1] name →
  replace_all (subst_char c_under [c_dot; c_1] name) (str ".1") (str "_") st = (Ret name, st).
Proof.
  intros H. apply (replace_pair_loop _ c_dot c_1 c_under []); [done|done| |apply count_subst].
  apply H. rewrite !elem_of_cons. auto.
Qed.
Lemma unmangle_semis s st :
  no_pairs c_under [c_under; c_0; c_2; c_3; c_lbracket; c_semi] s →
  replace_all (mangle_sig s) (str "_2") (str ";") st = (Ret (subst_char c_lbracket [c_under; c_3] s), st).
Proof.
  intros H. apply (replace_pair_loop _ c_under c_2 c_semi []); [done|done| |apply count_subst]. by apply brackets_pairs.
Qed.
Lemma unmangle_brackets s st :
  no_pairs c_under [c_under; c_0; c_2; c_3; c_lbracket; c_semi] s →
  replace_all (subst_char c_lbracket [c_under; c_3] s) (str "_3") (str "[") st = (Ret s, st).
Proof.
  intros H. apply (replace_pair_loop _ c_under c_3 c_lbracket []); [done|done| |apply count_subst].
  apply H. rewrite !elem_of_cons. tauto.
Qed.

End native.

Lemma starts_with_app a b : starts_with a (a ++ b) = true.
Proof. induction a as [|x a IH]; [done|]. simpl. by rewrite Z.eqb_refl. Qed.

(** What follows "Java_". *)
Definition native_tail (class method : list Z) (overload : option (list jtype)) : list Z :=
  mangle (class ++ c_dot :: method) ++
  match overload with None => [] | Some ts => str "__" ++ mangle_sig (descriptors ts) end.

Lemma name_last class method : (c_dot ∉ method) → method ≠ [] → last (class ++ c_dot :: method) ≠ Some c_dot.
Proof.
  intros Hd Hne. rewrite last_app. destruct method as [|x method]; [done|].
  change (last (c_dot :: x :: method)) with (last (x :: method)).
  destruct (last (x :: method)) as [y|] eqn:E; [|by apply last_None in E]. intros [= ->].
  apply Hd. by apply last_Some_elem_of.
Qed.

Lemma descriptors_mangled ts : ts ≠ [] → Forall type_ok ts → ∃ x l, mangle_sig (descriptors ts) = x :: l ∧ x ≠ c_0.
Proof.
  intros Hne Hok. destruct ts as [|[n b] ts]; [done|]. apply Forall_cons in Hok as [Hb _].
  destruct (base_descriptor_head b Hb) as (c & l & Hd & Hc0 & Hc).
  assert (H0 : c ≠ c_0).
  { destruct b as [x|name]; simpl in Hd; injection Hd as <- _; [|done]. intros ->. by vm_compute in Hb. }
  unfold descriptors. cbn [fmap list_fmap concat]. unfold descriptor, make_sig. cbn [dims jbase_of]. rewrite Hd.
  destruct n as [|n]; cbn [replicate app].
  - rewrite mangle_sig_cons, decide_False by done. case_decide; by eexists _, _.
  - rewrite mangle_sig_cons, decide_True by done. by eexists _, _.
Qed.

Lemma mangle_nonempty class method : mangle (class ++ c_dot :: method) ≠ [].
Proof. intros E. destruct class as [|x l]; cbn [app] in E; rewrite mangle_cons in E; by repeat case_decide. Qed.

Section native_tail.
Context (class method : list Z) (overload : option (list jtype)).
Context (Hname : name_ok class method) (Hsig : ∀ ts, overload = Some ts → sig_ok ts).

Lemma tail_pair b : b ∈ [c_under; c_0] → has_pair c_under b (mangle (class ++ c_dot :: method) ++ [c_under]) = false.
Proof using Hname. destruct Hname as (H1 & _ & H3 & H4). intros Hb. apply mangle_pairs; [done|by apply name_last|done]. Qed.

Lemma tail_no_zero : str_find (native_tail class method overload) (str "_0") 0 = None.
Proof using Hname Hsig.
  change (str "_0") with [c_under; c_0]. rewrite str_find_0. apply find_pair_none. unfold native_tail.
  destruct overload as [ts|].
  - change (str "__" ++ mangle_sig (descriptors ts)) with (c_under :: c_under :: mangle_sig (descriptors ts)).
    destruct (Hsig ts eq_refl) as (Hok & Hne & Hp & _). destruct (descriptors_mangled ts Hne Hok) as (x & l & E & Hx).
    apply has_pair_intro; [apply tail_pair; right; by left|]. rewrite !has_pair_cons. split_and!; [done| |].
    + rewrite E. intros _ [= ->]. done.
    + apply mangle_sig_pairs; [done|right; by left].
  - rewrite app_nil_r. assert (H := tail_pair c_0 ltac:(right; by left)). by apply has_pair_app in H as [H _].
Qed.

Lemma tail_overload :
  str_find (native_tail class method overload) (str "__") 0 =
    match overload with Some _ => Some (length (mangle (class ++ c_dot :: method))) | None => None end.
Proof using Hname Hsig.
  change (str "__") with [c_under; c_under]. rewrite str_find_0. unfold native_tail.
  assert (H := tail_pair c_under ltac:(by left)). destruct overload as [ts|].
  - by apply (find_pair_some c_under c_under).
  - rewrite app_nil_r. apply find_pair_none. by apply has_pair_app in H as [H _].
Qed.

Lemma tail_split {S} (s : S) :
  string_split (native_tail class method overload) (str "__") s =
    (Ret (mangle (class ++ c_dot :: method) ::
      match overload with Some ts => [mangle_sig (descriptors ts)] | None => [] end), s).
Proof using Hname Hsig.
  pose proof (mangle_nonempty class method) as Hne. pose proof tail_overload as Hf. unfold string_split.
  destruct (mangle (class ++ c_dot :: method)) as [|x m] eqn:Em; [done|].
  unfold native_tail in *. rewrite Em in *. cbn [app length string_split_loop]. rewrite (proj2 (Nat.ltb_lt _ _)) by lia.
  cbn [app] in Hf. rewrite Hf. destruct overload as [ts|]; [|by rewrite app_nil_r].
  rewrite (proj2 (Nat.ltb_lt _ _)) by (rewrite length_app; simpl; lia).
  set (sig := mangle_sig (descriptors ts)). destruct (Hsig ts eq_refl) as (Hok & Hnt & Hp & _).
  destruct (descriptors_mangled ts Hnt Hok) as (y & l & E & Hy).
  replace (length (x :: m) + length (str "__") - 1 + 1)%nat with (length (x :: m ++ str "__")) by (simpl; rewrite length_app; simpl; lia).
  replace (x :: m ++ str "__" ++ sig) with ((x :: m ++ str "__") ++ sig) by (cbn [app]; by rewrite <- app_assoc).
  rewrite !length_app. change (length (str "__")) with 2%nat. cbn [Nat.add].
  rewrite drop_0, Nat.sub_0_r. cbn [app string_split_loop].
  replace (length m + Datatypes.S (Datatypes.S (length sig)))%nat with (Datatypes.S (length m + Datatypes.S (length sig))) by lia.
  change (x :: (m ++ str "__") ++ sig) with ((x :: m ++ str "__") ++ sig). rewrite string_split_end.
  - do 2 f_equal. change (x :: m ++ str "__") with ((x :: m) ++ str "__"). by rewrite <- app_assoc, take_app_length.
  - unfold sig. by rewrite E.
  - unfold str_find. rewrite (proj2 (Nat.ltb_ge _ _)), drop_app_length by (rewrite length_app; lia).
    apply find_pair_none. unfold sig. apply mangle_sig_pairs; [done|by left].
Qed.

End native_tail.

Lemma mangle_length name : (length name ≤ length (mangle name))%nat.
Proof.
  induction name as [|x name IH]; [done|]. rewrite mangle_cons, length_app. repeat case_decide; simpl; lia.
Qed.

(** From the mangled name to the class and the method. *)
Lemma name_steps class method (k : PM bool) p :
  name_ok class method → Z.of_nat (length (mangle (class ++ c_dot :: method))) < 2 ^ 31 →
  (api_sig ← replace_all (mangle (class ++ c_dot :: method)) (str "_") (str ".");
   api_sig ← replace_all api_sig (str ".1") (str "_");
   if (count api_sig c_dot <? 1)%nat then mret false
   else
     let end_ := as_int (str_find_last_of api_sig c_dot (u64 npos)) in
     class ← str_substr api_sig 0 (u64 end_);
     _ ← modify (set_class_name class);
     method ← str_rest api_sig (u64 (end_ + 1));
     _ ← modify (set_method_name method);
     if (length class =? 0)%nat || (length method =? 0)%nat then mret false else k) p =
  k (set_method_name method (set_class_name class p)).
Proof.
  intros (Hpairs & Hc & Hm & Hdot) Hlen. pose proof (mangle_length (class ++ c_dot :: method)) as Hl.
  rewrite (CM_bind_Ret _ _ p _ p (unmangle_dots _ p)), (CM_bind_Ret _ _ p _ p (unmangle_unders _ p Hpairs)).
  rewrite (proj2 (Nat.ltb_ge _ _)) by (rewrite count_app, count_cons; lia). cbv zeta.
  set (p1 := set_class_name class p).
  destruct (name_cut class method p Hdot ltac:(lia)) as (Hf & _ & Hcl). destruct (name_cut class method p1 Hdot ltac:(lia)) as (_ & Hme & _).
  rewrite length_app in Hl. rewrite Hf, as_int_some by lia.
  rewrite (CM_bind_Ret _ _ p _ p Hcl), CM_bind_modify, (CM_bind_Ret _ _ p1 _ p1 Hme), CM_bind_modify.
  by rewrite (proj2 (Nat.eqb_neq (length method) 0)), (proj2 (Nat.eqb_neq (length class) 0)) by by rewrite length_zero_iff_nil.
Qed.

Lemma native_tail_length class method overload : (1 ≤ length (native_tail class method overload))%nat.
Proof.
  unfold native_tail. rewrite length_app. pose proof (mangle_nonempty class method).
  destruct (mangle (class ++ c_dot :: method)); [done|simpl; lia].
Qed.

(** the name of a native method, plain or overloaded, is parsed back into
    its class, its method and the parameters of the overload. *)
Theorem parse_java_lang_name_roundtrip class method overload p :
  name_ok class method → (∀ ts, overload = Some ts → sig_ok ts) →
  Z.of_nat (length (native_name class method overload)) < 2 ^ 31 →
  parse_java_lang_name (native_name class method overload) p =
    (Ret true, mkParsed class method
       (args_type p ++ match overload with Some ts => returned_descriptor <$> ts | None => [] end) (ret_type p)
       (match overload with Some _ => true | None => false end)).
Proof.
  intros Hname Hsig Hlen. unfold native_name in *. fold (native_tail class method overload) in *.
  pose proof (native_tail_length class method overload) as Htail. rewrite length_app in Hlen. change (length (str "Java_")) with 5%nat in Hlen.
  unfold parse_java_lang_name. rewrite starts_with_app, (proj2 (Nat.ltb_ge _ _))
    by (rewrite length_app; change (length (str "Java_")) with 5%nat; lia).
  cbn [orb negb]. change (drop 5 (str "Java_" ++ native_tail class method overload)) with (native_tail class method overload).
  rewrite (tail_no_zero class method overload Hname Hsig). cbn [as_int]. rewrite Z.eqb_refl. cbn [negb].
  rewrite (CM_bind_Ret _ _ p _ p (tail_split class method overload Hname Hsig p)), (tail_overload class method overload Hname Hsig).
  assert (Hl : Z.of_nat (length (mangle (class ++ c_dot :: method))) < 2 ^ 31)
    by (unfold native_tail in Hlen; rewrite length_app in Hlen; lia).
  destruct overload as [ts|].
  - rewrite as_int_found by done. cbn [length Nat.eqb negb andb lookup list_lookup]. rewrite CM_bind_modify.
    unfold lift_opt. rewrite !CM_left_id. rewrite name_steps by done.
    destruct (Hsig ts eq_refl) as (Hok & _ & Hp & _).
    rewrite (CM_bind_Ret _ _ _ _ _ (unmangle_semis _ _ Hp)), (CM_bind_Ret _ _ _ _ _ (unmangle_brackets _ _ Hp)).
    unfold split_args_sig. by rewrite (CM_bind_Ret _ _ _ _ _ (split_all _ ts _ Hok (le_n _))).
  - cbn [as_int]. rewrite Z.eqb_refl. cbn [negb andb length Nat.eqb app lookup list_lookup]. rewrite CM_bind_modify.
    unfold lift_opt. rewrite !CM_left_id. rewrite name_steps by done. by rewrite app_nil_r.
Qed.

(** ** Arguments of a signature *)

(** "_1" replaces '_' for ever. *)
Lemma underscores_grow {S} fuel (a b : list Z) (s : S) :
  (c_under ∉ a) → replace_all_loop fuel (a ++ c_under :: b) (str "_") (str "_1") s = (Err OutOfFuel, s).
Proof.
  intros Ha. revert b. induction fuel as [|fuel IH]; intros b.
  - cbn [replace_all_loop]. change (str "_") with [c_under]. by rewrite str_find_char.
  - change (str "_") with [c_under] in *. change (a ++ c_under :: b) with (a ++ [c_under] ++ b).
    rewrite replace_all_step by by apply str_find_char. apply (IH (c_1 :: b)).
Qed.

(** C34: conv_sig_2_args_type returns the mangled name of a class without
    underscores, and does not return at all for a class with one, however long
    it runs. *)
Theorem conv_sig_2_args_type_ends {S} name dim (s : S) :
  Z.of_nat (length name) < 2 ^ 31 →
  let sig := str "L" ++ name ++ str ";" in
  ((c_under ∉ name) → ∀ fuel, (length name ≤ fuel)%nat →
    conv_sig_2_args_type fuel dim sig s = (Ret (mkArgsType sig (subst_char c_slash [c_under] name) dim), s)) ∧
  ((c_under ∈ name) → ∀ fuel, conv_sig_2_args_type fuel dim sig s = (Err OutOfFuel, s)).
Proof.
  intros Hlen sig. unfold conv_sig_2_args_type. change (sig !! 0%nat) with (Some c_L). cbn [default]. eval_tests.
  assert (Hcut : str_substr (inner_base_type (mkArgsType sig sig dim)) 1
    (u64 (Z.of_nat (length (inner_base_type (mkArgsType sig sig dim))) - 2)) s = (Ret name, s)).
  { cbn [inner_base_type]. unfold sig. rewrite !length_app. change (length (str "L")) with 1%nat. change (length (str ";")) with 1%nat.
    rewrite wrap_small by lia. replace (Z.of_nat (1 + (length name + 1)) - 2) with (Z.of_nat (length name)) by lia.
    apply (str_substr_middle (str "L") name (str ";")). }
  split; intros Hu fuel; rewrite CM_left_id.
  - intros Hf. rewrite (CM_bind_Ret _ _ s _ s Hcut). change (str "_") with [c_under]. change (str "/") with [c_slash].
    rewrite (CM_bind_Ret _ _ s name s (replace_all_end _ _ _ _ s (str_find_char_none _ _ Hu))).
    pose proof (count_le name c_slash).
    rewrite (CM_bind_Ret _ _ s _ s (replace_char_loop fuel [] name c_slash [c_under] s ltac:(apply not_elem_of_nil)
      ltac:(by rewrite list_elem_of_singleton) ltac:(lia))). done.
  - rewrite (CM_bind_Ret _ _ s _ s Hcut). destruct (split_at_char c_under name) as [|(a & b & -> & Ha)]; [done|].
    by rewrite (CM_bind_Err _ _ s _ s (underscores_grow fuel a b s Ha)).
Qed.

(** ** Concrete names *)

Definition nothing : parsed := mkParsed [] [] [] [] false.
Definition no_zero (s : list Z) : bool := forallb (λ c, negb (c =? 0)) s.
Lemma no_zero_sound s : no_zero s = true → 0 ∉ s.
Proof. intros H Hx. unfold no_zero in H. rewrite forallb_forall in H. by apply list_elem_of_In, H in Hx. Qed.

Lemma no_pairs_check a bs s : forallb (λ b, negb (has_pair a b s)) bs = true → no_pairs a bs s.
Proof. intros H b Hb. rewrite forallb_forall in H. by apply negb_true_iff, H, list_elem_of_In. Qed.

Definition sample_signature : list Z := str "m(I[[JLjava/lang/String;)V".

Lemma parse_java_signature_exact_witness :
  ∃ pre ts ret, signature_parts sample_signature pre (descriptors ts) ret ∧ Forall type_ok ts ∧
    parse_java_signature sample_signature nothing =
      (Ret true, set_ret_type ret (push_types (returned_descriptor <$> ts) nothing)) ∧
    (Forall (λ t, object_array t = false) ts → returned_descriptor <$> ts = descriptor <$> ts).
Proof.
  destruct (parse_java_signature_exact sample_signature nothing) as [H|[[p' H] _]].
  - by apply no_zero_sound.
  - by vm_compute.
  - exact H.
  - exfalso. vm_compute in H. discriminate.
Defined.

(** native void com.hook.test.test2(java.lang.String, int[][]) *)
Definition sample_decl : declaration :=
  Decl (str "native ") (JType 0 (JPrim 86)) (str "com.hook.test") (str "test2")
    [JType 0 (JClass (str "java/lang/String")); JType 2 (JPrim 73)] (str "java.lang.String, int[][]") [].

Lemma sample_decl_ok : decl_ok sample_decl.
Proof.
  split.
  - right. exists (str "native"). split_and!; [done|apply (bool_decide_unpack _); by vm_compute..].
  - done.
  - split; [|done]. unfold name_char. apply (bool_decide_unpack _). by vm_compute.
  - split_and!; [unfold name_char; apply (bool_decide_unpack _); by vm_compute|done|apply (bool_decide_unpack _); by vm_compute].
  - repeat constructor; cbn; try done; apply (bool_decide_unpack _); by vm_compute.
  - split; [by vm_compute|apply (bool_decide_unpack _); by vm_compute].
  - by vm_compute.
Qed.

Lemma parse_java_pretty_name_roundtrip_witness :
  decl_text sample_decl = str "native void com.hook.test.test2(java.lang.String, int[][])" ∧
  parse_java_pretty_name (decl_text sample_decl) nothing =
    (Ret true, mkParsed (str "com.hook.test") (str "test2") [str "Ljava/lang/String;"; str "[[I"] (str "V") false).
Proof.
  split; [by vm_compute|]. rewrite (parse_java_pretty_name_roundtrip sample_decl nothing sample_decl_ok). by vm_compute.
Defined.

Definition sample_overload : list jtype := [JType 0 (JClass (str "java_lang_String")); JType 2 (JPrim 73)].

Lemma parse_java_lang_name_roundtrip_witness :
  native_name (str "com.hook.my_test") (str "run") (Some sample_overload) =
    str "Java_com_hook_my_1test_run__Ljava_lang_String_2_3_3I" ∧
  parse_java_lang_name (native_name (str "com.hook.my_test") (str "run") (Some sample_overload)) nothing =
    (Ret true, mkParsed (str "com.hook.my_test") (str "run") [str "Ljava_lang_String;"; str "[[I"] [] true).
Proof.
  split; [by vm_compute|].
  rewrite (parse_java_lang_name_roundtrip (str "com.hook.my_test") (str "run") (Some sample_overload) nothing).
  - by vm_compute.
  - split_and!; [|done|done|apply (bool_decide_unpack _); by vm_compute].
    apply no_pairs_check. by vm_compute.
  - intros ts [= <-]. split_and!; [|done| |by vm_compute].
    + repeat (apply Forall_cons; split); [|done|by constructor]. split; apply (bool_decide_unpack _); by vm_compute.
    + apply no_pairs_check. by vm_compute.
  - by vm_compute.
Defined.

Lemma conv_sig_2_args_type_ends_witness :
  conv_sig_2_args_type 16 0 (str "Ljava/lang/String;") tt =
    (Ret (mkArgsType (str "Ljava/lang/String;") (str "java_lang_String") 0), tt) ∧
  ∀ fuel, conv_sig_2_args_type fuel 0 (str "La/b_c;") tt = (Err OutOfFuel, tt).
Proof.
  split.
  - apply (proj1 (conv_sig_2_args_type_ends (str "java/lang/String") 0 tt ltac:(by vm_compute))); [|vm_compute; lia].
    apply (bool_decide_unpack _). by vm_compute.
  - apply (proj2 (conv_sig_2_args_type_ends (str "a/b_c") 0 tt ltac:(by vm_compute))).
    apply (bool_decide_unpack _). by vm_compute.
Defined.

(** *** What goes wrong *)

(** The brackets of an object array are lost, and those of an array are never
    counted. *)
Lemma object_arrays_lost :
  split_args_sig (str "[Lfoo;I") nothing = (Ret true, mkParsed [] [] [str "Lfoo;"; str "I"] [] false) ∧
  conv_sig_2_args_type 9 7 (str "[[I") tt = (Ret (mkArgsType (str "[[I") (str "I") 0), tt).
Proof. vm_compute. auto. Qed.

(** A parameter of type void, and a class without a name. *)
Lemma void_parameter_accepted :
  parse_java_signature (str "m(VL;)V") nothing = (Ret true, mkParsed [] [] [str "V"; str "L;"] (str "V") false).
Proof. vm_compute. reflexivity. Qed.

(** The name of an overloaded method without parameters: the second piece is
    read behind the end of a vector of one. *)
Lemma empty_overload_undefined : fst (parse_java_lang_name (str "Java_a_B_m__") nothing) = Err Undefined.
Proof. by vm_compute. Qed.

(** A part of the name with a leading underscore is taken for an overload:
    method [test] of class com._hook. *)
Lemma leading_underscore_misread :
  mangle (str "com._hook.test") = str "com__1hook_test" ∧
  fst (parse_java_lang_name (str "Java_com__1hook_test") nothing) = Ret false ∧
  class_name (snd (parse_java_lang_name (str "Java_com__1hook_test") nothing)) = [].
Proof. vm_compute. auto. Qed.

(** The digits above 9 are read as 0, 1 and nothing. *)
Lemma hex_digits_lost : hex2str [0xAB] 0 = str "AB " ∧ str2hex (str "AB") = [1] ∧ str2hex (str "FF") = [0].
Proof. vm_compute. auto. Qed.
