(* ===== verification/MemFile.v ===== *)
(** * Files in memory

    hook_libc/filter.h: the interface a replacement for a file implements, as a
    type class; memory_file.h, a file kept in memory; none_file_filter, a file
    that does not exist. *)

From S2P Require Import Prelude.

#[local] Open Scope cint_scope.

(** ** filter.h *)

(** namespace file_open_type *)
Definition open_type_open : Z := 1.
Definition open_type_popen : Z := 2.
Definition open_type_fopen : Z := 4.

Inductive file_stat_type : Set := FS_fstat | FS_lstat | FS_stat.

(** The union; a path or a mode that was not written is empty. *)
Inductive open_args : Set :=
  | OpenArgs (path : list Z) (flag mode : Z)
  | FpopenArgs (path mode : list Z).

(** The virtual methods of file_filter over the state [F] of the object.  A
    buffer is passed and returned as the list of its bytes; [option Z] is what
    is stored through [int *ret], if anything is.  [before_open] gets the
    address of the object and the counter of require_fd. *)
Class Filter (F : Type) := {
  on_set_pos : Z → CM F (bool * option Z);
  on_get_pos : CM F Z;
  on_get_file_size : CM F Z;
  before_open : Z → Z → open_args → open_args → CM (F * Z) (bool * option Z * open_args);
  on_close : CM F Z;
  before_read : list Z → Z → bool → CM F (Z * list Z);
  after_read : list Z → Z → Z → bool → CM F (Z * list Z);
  before_write : list Z → Z → CM F (Z * list Z);
  before_stat : file_stat_type → list Z → CM F (bool * option Z * list Z);
  after_stat : Z → list Z → CM F (Z * list Z);
  before_rename : list Z → CM F (bool * option Z);
  before_access : Z → CM F (bool * option Z)
}.

(** base_hook.cpp: [fd_index.fetch_add(1)] *)
Definition require_fd {F} : CM (F * Z) Z := λ '(f, fd_index), (Ret fd_index, (f, sint 32 (fd_index + 1))).

(** *** none_file_filter

    Its [before_open] replaces that of the interface; [on_close] of
    common_file_filter ends without a return. *)

Inductive none_file_filter : Set := NoneFile.

#[export] Instance none_filter : Filter none_file_filter := {
  on_set_pos _ := mret (false, None);
  on_get_pos := mret (-1);
  on_get_file_size := mret (-1);
  before_open _ type _ new_args :=
    mret (true, Some (if negb ((type & open_type_open) =? 0) then -1 else 0), new_args);
  on_close := fail Undefined;
  before_read buf _ _ := mret (0, buf);
  after_read buf _ readed_size _ := mret (readed_size, buf);
  before_write buf _ := mret (0, buf);
  before_stat _ buf := mret (true, Some (-1), buf);
  after_stat ret buf := mret (ret, buf);
  before_rename _ := mret (true, Some (-1));
  before_access _ := mret (true, Some (-1))
}.

(** ** memory_file.h *)

(** [share_data] is the block behind the pointer. *)
Record memory_file : Set := MemoryFile {
  path : list Z;
  alllen : Z;
  len : Z;
  off : Z;
  share_data : list Z;
  file_handle : Z
}.
Definition set_path v f := MemoryFile v (alllen f) (len f) (off f) (share_data f) (file_handle f).
Definition set_off v f := MemoryFile (path f) (alllen f) (len f) v (share_data f) (file_handle f).
Definition set_len v f := MemoryFile (path f) (alllen f) v (off f) (share_data f) (file_handle f).
Definition set_alllen v f := MemoryFile (path f) v (len f) (off f) (share_data f) (file_handle f).
Definition set_share_data v f := MemoryFile (path f) (alllen f) (len f) (off f) v (file_handle f).
Definition set_file_handle v f := MemoryFile (path f) (alllen f) (len f) (off f) (share_data f) v.

Abbreviation MF := (CM memory_file).

(** A signed result. *)
Definition int {S} (z : Z) : CM S Z := if (- 2 ^ 31 <=? z) && (z <? 2 ^ 31) then mret z else fail Undefined.

(** [n] bytes of the block at [p]. *)
Definition read_block (p n : Z) : MF (list Z) :=
  d ← gets share_data;
  if (0 <=? p) && (0 <=? n) && (p + n <=? Z.of_nat (length d))
  then mret (take (Z.to_nat n) (drop (Z.to_nat p) d)) else fail Undefined.
(** The bytes [bs] into the block at [p]. *)
Definition splice (p : nat) (bs d : list Z) : list Z := take p d ++ bs ++ drop (p + length bs) d.
Definition write_block (p : Z) (bs : list Z) : MF unit :=
  d ← gets share_data;
  if (0 <=? p) && (p + Z.of_nat (length bs) <=? Z.of_nat (length d))
  then modify (set_share_data (splice (Z.to_nat p) bs d)) else fail Undefined.
(** memcpy to the start of a caller's buffer, from its start. *)
Definition to_buffer {S} (buf bs : list Z) : CM S (list Z) :=
  if (length bs <=? length buf)%nat then mret (bs ++ drop (length bs) buf) else fail Undefined.
Definition from_buffer {S} (buf : list Z) (n : Z) : CM S (list Z) :=
  if (0 <=? n) && (n <=? Z.of_nat (length buf)) then mret (take (Z.to_nat n) buf) else fail Undefined.

Definition MemoryFile_read (buffer : list Z) (rsize : Z) (update : bool) : MF (Z * list Z) :=
  f ← get;
  if len f <=? off f then mret (0, buffer)
  else
    rest ← int (len f - off f);
    let rlen := sint 32 (if rsize <? u64 rest then rsize else u64 rest) in
    bs ← read_block (off f) rlen;
    buffer ← to_buffer buffer bs;
    _ ← when update (o ← int (off f + rlen); modify (set_off o));
    mret (u64 rlen, buffer).

(** [this->alllen - this->off > wsize ? wsize : this->alllen - this->off] *)
Definition write_room (wsize : Z) : MF Z :=
  f ← get;
  room ← int (alllen f - off f);
  mret (sint 32 (if wsize <? u64 room then wsize else u64 room)).

(** [new char[n]()], which throws for a negative size. *)
Definition new_zeroed {S} (n : Z) : CM S (list Z) :=
  if n <? 0 then fail Aborted else mret (replicate (Z.to_nat n) 0).

(** [alllen * 0.5] is computed in double and the sum cut to an int. *)
Definition grow (rlen : Z) : MF unit :=
  f ← get;
  a ← int (alllen f - rlen);
  a ← int ((2 * a + alllen f) ÷ 2);
  _ ← modify (set_alllen a);
  nbuf ← new_zeroed a;
  old ← read_block 0 (len f);
  nbuf ← to_buffer nbuf old;
  modify (set_share_data nbuf).

Definition MemoryFile_write (buffer : list Z) (wsize : Z) (update : bool) : MF Z :=
  rlen ← write_room wsize;
  rlen ← (if rlen <=? 0 then _ ← grow rlen; write_room wsize else mret rlen);
  bs ← from_buffer buffer rlen;
  o ← gets off;
  _ ← write_block o bs;
  _ ← when update (o ← int (o + rlen); modify (set_off o));
  f ← get;
  _ ← when (len f <=? off f) (modify (set_len (off f)));
  mret (u64 rlen).

(** The loop of fgets: the distance of the next newline in the block. *)
Fixpoint newline_distance (d : list Z) : option nat :=
  match d with [] => None | c :: d => if c =? 10 then Some 0%nat else S <$> newline_distance d end.

Definition MemoryFile_fgets (buffer : list Z) (max_count : Z) : MF (Z * list Z) :=
  f ← get;
  if len f <=? off f then mret (0, buffer)
  else if off f <? 0 then fail Undefined
  else
    n ← lift_opt Undefined (newline_distance (drop (Z.to_nat (off f)) (share_data f)));
    rlen ← int (Z.of_nat n);
    let rlen := if max_count <? rlen then max_count else rlen in
    '(_, buffer) ← MemoryFile_read buffer (u64 rlen) (negb (off f =? 0));
    mret (u64 rlen, buffer).

(** The constructors.  [len * 1.5] is cut to an int. *)
Definition MemoryFile_copy (data : list Z) (len : Z) : outcome memory_file :=
  let alllen := (3 * len) ÷ 2 in
  if (alllen <? 0) || (2 ^ 31 <=? alllen) then Err Aborted
  else if Z.of_nat (length data) <? len then Err Undefined
  else
    let data := take (Z.to_nat len) data in
    Ret (MemoryFile [] alllen len 0 (data ++ replicate (Z.to_nat alllen - Z.to_nat len) 0) 0).
(** Takes the block over. *)
Definition MemoryFile_take (data : list Z) (len : Z) : memory_file := MemoryFile [] ((3 * len) ÷ 2) len 0 data 0.
Definition MemoryFile_new : memory_file := MemoryFile [] 2048 0 0 (replicate 2048 0) 0.

(** sizeof(struct stat) *)
Definition stat_size : nat := 128.

#[export] Instance memory_filter : Filter memory_file := {
  on_set_pos offset := _ ← modify (set_off offset); mret (true, Some 0);
  on_get_pos := gets off;
  on_get_file_size := gets alllen;
  before_open this type args new_args :=
    handle ← (if negb ((type & open_type_open) =? 0) then require_fd else mret this);
    _ ← modify (λ '(f, fd_index), (set_file_handle handle f, fd_index));
    mret (true, Some handle, new_args);
  on_close := mret 0;
  before_read buf read_size is_fgets :=
    if is_fgets : bool then MemoryFile_fgets buf (sint 32 read_size) else MemoryFile_read buf read_size true;
  after_read buf _ _ _ := mret (0, buf);
  before_write buf write_size := n ← MemoryFile_write buf write_size true; mret (n, buf);
  before_stat _ _ := mret (true, Some 0, replicate stat_size 0);
  after_stat _ buf := mret (-1, buf);
  before_rename new_path := _ ← modify (set_path new_path); mret (true, Some 0);
  before_access _ := mret (true, Some 0)
}.
