(* ===== verification/MemFileProps.v ===== *)
(** * Files in memory, proved

    A memory file refines a file given by its content and a position: an
    abstract specification, the invariant that carries it, and what happens
    outside of it. *)

From S2P Require Import Prelude MemFile.

#[local] Open Scope cint_scope.

(** ** The specification

    A file is its bytes and a position in them. *)

Record afile : Set := AFile { content : list Z; pos : nat }.

Inductive fop : Set :=
  | OpRead (n : nat)
  | OpWrite (bs : list Z)
  | OpSeek (p : nat).
Inductive fresult : Set :=
  | RBytes (bs : list Z)
  | RCount (n : nat)
  | RDone.

(** A write may be short, but writes something. *)
Inductive afile_step : fop → afile → fresult → afile → Prop :=
  | astep_read n c p :
      let bs := take n (drop p c) in
      afile_step (OpRead n) (AFile c p) (RBytes bs) (AFile c (p + length bs))
  | astep_write bs k c p :
      (k ≤ length bs)%nat → (bs ≠ [] → 0 < k)%nat →
      afile_step (OpWrite bs) (AFile c p) (RCount k) (AFile (splice p (take k bs) c) (p + k))
  | astep_seek q c p : afile_step (OpSeek q) (AFile c p) RDone (AFile c q).

Inductive afile_runs : list fop → afile → list fresult → afile → Prop :=
  | aruns_nil a : afile_runs [] a [] a
  | aruns_cons op ops a r a' rs a'' :
      afile_step op a r a' → afile_runs ops a' rs a'' → afile_runs (op :: ops) a (r :: rs) a''.

(** The operations on a memory file, through the interface. *)
Definition run_op (op : fop) : MF fresult :=
  match op with
  | OpRead n =>
      '(k, buf) ← before_read (replicate n 0) (Z.of_nat n) false;
      mret (RBytes (take (Z.to_nat k) buf))
  | OpWrite bs =>
      '(k, _) ← before_write bs (Z.of_nat (length bs));
      mret (RCount (Z.to_nat k))
  | OpSeek p => _ ← on_set_pos (Z.of_nat p); mret RDone
  end.
Definition run_ops (ops : list fop) : MF (list fresult) := mapM run_op ops.

(** ** The invariant *)

(** The block has the size the file believes in, and the position is in the
    content.  [cap] bounds the first block. *)
Record mf_ok (cap : Z) (f : memory_file) : Prop := {
  ok_block : Z.of_nat (length (share_data f)) = alllen f;
  ok_len : 0 ≤ off f ≤ len f;
  ok_room : len f ≤ alllen f;
  ok_some : 2 ≤ alllen f;
  ok_cap : alllen f ≤ Z.max cap (3 * len f / 2)
}.

Definition abs (f : memory_file) : afile := AFile (take (Z.to_nat (len f)) (share_data f)) (Z.to_nat (off f)).

Lemma int_run {S} z (s : S) : - 2 ^ 31 ≤ z < 2 ^ 31 → int z s = (Ret z, s).
Proof. intros H. unfold int. by rewrite (proj2 (Z.leb_le _ _)), (proj2 (Z.ltb_lt _ _)) by lia. Qed.

Lemma splice_length p bs d : (p + length bs ≤ length d)%nat → length (splice p bs d) = length d.
Proof. intros H. unfold splice. rewrite !length_app, length_take, length_drop. lia. Qed.

(** A splice in the content is one in the block. *)
Lemma splice_take p bs d n :
  (p ≤ n)%nat → (n ≤ length d)%nat → (p + length bs ≤ length d)%nat →
  take (Nat.max n (p + length bs)) (splice p bs d) = splice p bs (take n d).
Proof.
  intros H1 H2 H3. unfold splice. rewrite take_take, Nat.min_l by lia.
  rewrite take_app_ge by (rewrite length_take; lia). rewrite length_take, Nat.min_l by lia.
  rewrite take_app_ge by lia. do 2 f_equal.
  destruct (decide (p + length bs ≤ n)%nat).
  - rewrite Nat.max_l by lia. rewrite skipn_firstn_comm. f_equal. lia.
  - rewrite Nat.max_r, (drop_ge (take n d)) by (rewrite ?length_take; lia).
    replace (p + length bs - p - length bs)%nat with 0%nat by lia. done.
Qed.

(** ** Reading *)

Lemma MemoryFile_read_run f buf n cap :
  mf_ok cap f → alllen f < 2 ^ 31 → 0 ≤ n < 2 ^ 31 → (Z.to_nat n ≤ length buf)%nat →
  let bs := take (Z.to_nat n) (drop (pos (abs f)) (content (abs f))) in
  MemoryFile_read buf n true f = (Ret (Z.of_nat (length bs), bs ++ drop (length bs) buf), set_off (off f + Z.of_nat (length bs)) f).
Proof.
  intros [Hb [Ho Hol] Hr _ _] Hmax Hn Hbuf bs. unfold MemoryFile_read, mbind, CM_bind, get.
  assert (Hbs : Z.of_nat (length bs) = Z.min n (len f - off f)).
  { unfold bs, abs. cbn [content pos]. rewrite length_take, length_drop, length_take. lia. }
  destruct (Z.leb_spec (len f) (off f)) as [Hle|Hlt].
  { assert (E : bs = []) by (apply nil_length_inv; lia). rewrite E. cbn [length app]. rewrite drop_0.
    unfold mret, CM_ret. do 2 f_equal. unfold set_off. rewrite Z.add_0_r. by destruct f. }
  rewrite (int_run (len f - off f)) by lia. cbv beta iota.
  assert (Hmin : sint 32 (if n <? u64 (len f - off f) then n else u64 (len f - off f)) = Z.of_nat (length bs)).
  { rewrite (wrap_small 64) by lia. rewrite Hbs, sint_small by (try destruct (Z.ltb_spec n (len f - off f)); lia).
    destruct (Z.ltb_spec n (len f - off f)); lia. }
  rewrite Hmin. unfold read_block, gets, mbind, CM_bind.
  rewrite (proj2 (Z.leb_le 0 (off f))), (proj2 (Z.leb_le 0 _)), (proj2 (Z.leb_le _ (Z.of_nat (length (share_data f))))) by lia.
  cbn [andb]. unfold mret at 1, CM_ret at 1. rewrite Nat2Z.id.
  assert (E : take (length bs) (drop (Z.to_nat (off f)) (share_data f)) = bs).
  { unfold bs at 2, abs. cbn [content pos]. rewrite skipn_firstn_comm, take_take. f_equal. lia. }
  rewrite E. unfold to_buffer. rewrite (proj2 (Nat.leb_le _ _)) by lia. unfold mret at 1, CM_ret at 1. unfold when.
  rewrite (int_run (off f + _)) by lia. unfold modify, mret, CM_ret. by rewrite (wrap_small 64) by lia.
Qed.

(** ** Writing *)

Lemma write_room_run f n :
  0 ≤ off f ≤ alllen f → alllen f < 2 ^ 31 → 0 ≤ n < 2 ^ 31 →
  write_room n f = (Ret (Z.min n (alllen f - off f)), f).
Proof.
  intros Ho Hmax Hn. unfold write_room, mbind, CM_bind, get. rewrite int_run by lia. unfold mret, CM_ret.
  rewrite (wrap_small 64) by lia. do 2 f_equal. destruct (Z.ltb_spec n (alllen f - off f)); rewrite sint_small; lia.
Qed.

(** A full file gets half as much room again. *)
Definition grown (f : memory_file) : memory_file :=
  set_share_data (share_data f ++ replicate (Z.to_nat (3 * alllen f / 2 - alllen f)) 0) (set_alllen (3 * alllen f / 2) f).

Lemma grow_run f :
  Z.of_nat (length (share_data f)) = alllen f → len f = alllen f → alllen f < 2 ^ 30 → grow 0 f = (Ret tt, grown f).
Proof.
  intros Hb Hl Hmax. unfold grow, mbind, CM_bind, get. rewrite int_run by lia. cbv beta iota.
  assert (E : (2 * (alllen f - 0) + alllen f) ÷ 2 = 3 * alllen f / 2) by (rewrite Z.quot_div_nonneg by lia; f_equal; lia).
  rewrite E, int_run by (Z.to_euclidean_division_equations; lia). unfold modify. cbv beta iota.
  assert (Hge : alllen f ≤ 3 * alllen f / 2) by (Z.to_euclidean_division_equations; lia).
  unfold new_zeroed. rewrite (proj2 (Z.ltb_ge _ _)) by lia. unfold mret at 1, CM_ret at 1.
  unfold read_block, gets, mbind, CM_bind. cbn [len share_data set_alllen].
  rewrite (proj2 (Z.leb_le 0 0)), (proj2 (Z.leb_le 0 (len f))), (proj2 (Z.leb_le (0 + len f) _)) by lia. cbn [andb].
  unfold mret at 1, CM_ret at 1. rewrite drop_0, firstn_all2 by lia. unfold to_buffer. rewrite length_replicate.
  rewrite (proj2 (Nat.leb_le _ _)) by lia. unfold mret, CM_ret. unfold grown. do 2 f_equal.
  rewrite drop_replicate. do 2 f_equal. f_equal. lia.
Qed.

(** The bytes that fit. *)
Definition stored (f : memory_file) (bs : list Z) : memory_file :=
  let o := off f + Z.of_nat (length bs) in
  let g := set_off o (set_share_data (splice (Z.to_nat (off f)) bs (share_data f)) f) in
  if len f <=? o then set_len o g else g.

Lemma store_run f buf k :
  Z.of_nat (length (share_data f)) = alllen f → 0 ≤ off f → 0 ≤ k → off f + k ≤ alllen f → alllen f < 2 ^ 31 →
  k ≤ Z.of_nat (length buf) →
  (bs ← from_buffer buf k;
   o ← gets off;
   _ ← write_block o bs;
   _ ← when true (o ← int (o + k); modify (set_off o));
   f ← get;
   _ ← when (len f <=? off f) (modify (set_len (off f)));
   mret (u64 k)) f = (Ret k, stored f (take (Z.to_nat k) buf)).
Proof.
  intros Hb Ho Hk Hfit Hmax Hbuf. unfold from_buffer. rewrite (proj2 (Z.leb_le 0 k)), (proj2 (Z.leb_le k _)) by lia.
  cbn [andb]. rewrite CM_left_id. assert (Hl : Z.of_nat (length (take (Z.to_nat k) buf)) = k) by (rewrite length_take; lia).
  unfold gets, mbind at 1, CM_bind at 1. unfold write_block, gets, mbind, CM_bind.
  rewrite Hl, (proj2 (Z.leb_le 0 (off f))), (proj2 (Z.leb_le (off f + k) _)) by lia. cbn [andb]. unfold modify, when.
  rewrite int_run by lia. cbv beta iota. unfold get. cbn [off len set_off set_share_data]. unfold stored. rewrite Hl.
  destruct (len f <=? off f + k); unfold mret, CM_ret; by rewrite (wrap_small 64) by lia.
Qed.

Lemma stored_ok cap f bs :
  mf_ok cap f → off f + Z.of_nat (length bs) ≤ alllen f →
  mf_ok cap (stored f bs) ∧ abs (stored f bs) = AFile (splice (pos (abs f)) bs (content (abs f))) (pos (abs f) + length bs).
Proof.
  intros [Hb [Ho Hol] Hr Hs Hc] Hfit. unfold stored.
  assert (Hsl : length (splice (Z.to_nat (off f)) bs (share_data f)) = length (share_data f)) by (apply splice_length; lia).
  pose proof (splice_take (Z.to_nat (off f)) bs (share_data f) (Z.to_nat (len f)) ltac:(lia) ltac:(lia) ltac:(lia)) as Ht.
  unfold abs. cbn [content pos]. rewrite <- Ht.
  destruct (Z.leb_spec (len f) (off f + Z.of_nat (length bs))).
  - split; [split; cbn; rewrite ?Hsl; try lia|].
    + assert (3 * len f / 2 ≤ 3 * (off f + Z.of_nat (length bs)) / 2) by (apply Z.div_le_mono; lia). lia.
    + cbn. f_equal; [f_equal; lia|lia].
  - split; [split; cbn; rewrite ?Hsl; lia|]. cbn. f_equal; [f_equal; lia|lia].
Qed.

Lemma grown_ok cap f :
  mf_ok cap f → len f = alllen f → mf_ok cap (grown f) ∧ abs (grown f) = abs f ∧ alllen f < alllen (grown f).
Proof.
  intros [Hb [Ho Hol] Hr Hs Hc] Hfull. unfold grown. assert (Hge : alllen f < 3 * alllen f / 2) by (Z.to_euclidean_division_equations; lia).
  split_and!; [split; cbn|unfold abs; cbn; f_equal|cbn; lia].
  - rewrite length_app, length_replicate. lia.
  - lia.
  - lia.
  - lia.
  - rewrite Hfull. lia.
  - rewrite take_app_le by lia. done.
Qed.

(** A write stores a beginning of the bytes, and more than nothing. *)
Lemma MemoryFile_write_run cap f buf n :
  mf_ok cap f → alllen f < 2 ^ 30 → 0 < n < 2 ^ 31 → n ≤ Z.of_nat (length buf) →
  ∃ k f', MemoryFile_write buf n true f = (Ret k, f') ∧ 0 < k ≤ n ∧ mf_ok cap f' ∧
    abs f' = AFile (splice (pos (abs f)) (take (Z.to_nat k) buf) (content (abs f))) (pos (abs f) + Z.to_nat k) ∧
    len f ≤ len f' ≤ len f + k.
Proof.
  intros Hok Hmax Hn Hbuf. pose proof Hok as [Hb [Ho Hol] Hr Hs Hc]. unfold MemoryFile_write.
  rewrite (CM_bind_Ret _ _ f _ f (write_room_run f n ltac:(lia) ltac:(lia) ltac:(lia))).
  assert (Hend : ∀ g k, mf_ok cap g → abs g = abs f → len g = len f → 0 < k ≤ n → off g + k ≤ alllen g → alllen g < 2 ^ 31 →
    ∃ f', stored g (take (Z.to_nat k) buf) = f' ∧ mf_ok cap f' ∧
      abs f' = AFile (splice (pos (abs f)) (take (Z.to_nat k) buf) (content (abs f))) (pos (abs f) + Z.to_nat k) ∧
      len f ≤ len f' ≤ len f + k).
  { intros g k Hg Ha Hlg Hk Hfit Hm. eexists. split; [done|].
    assert (Hl : length (take (Z.to_nat k) buf) = Z.to_nat k) by (rewrite length_take; lia).
    destruct (stored_ok cap g (take (Z.to_nat k) buf) Hg ltac:(lia)) as [H1 H2]. split; [done|]. split; [by rewrite H2, Hl, Ha|].
    destruct Hg as [_ Hog _ _ _]. unfold stored. rewrite Hl. case_match eqn:E; cbn; [apply Z.leb_le in E|]; lia. }
  destruct (decide (off f = alllen f)) as [Hfull|Hroom].
  - rewrite Hfull, Z.sub_diag, Z.min_r by lia. change (0 <=? 0) with true. cbv iota.
    destruct (grown_ok cap f Hok ltac:(lia)) as (Hg & Ha & Hlt).
    assert (Hgm : alllen (grown f) < 2 ^ 31) by (cbn; Z.to_euclidean_division_equations; lia).
    assert (Hrun : (grow 0 ≫= λ _, write_room n) f = (Ret (Z.min n (alllen (grown f) - off f)), grown f)).
    { rewrite (CM_bind_Ret _ _ f _ _ (grow_run f Hb ltac:(lia) ltac:(lia))).
      apply (write_room_run (grown f)); [change (off (grown f)) with (off f)|..]; lia. }
    rewrite (CM_bind_Ret _ _ f _ _ Hrun). set (k := Z.min n (alllen (grown f) - off f)).
    destruct (Hend (grown f) k Hg Ha eq_refl) as (f' & Hst & H); [lia|change (off (grown f)) with (off f); lia|lia|].
    exists k, f'. rewrite <- Hst. split; [|split; [lia|by rewrite Hst]].
    apply store_run; [apply (ok_block cap _ Hg)|exact Ho|lia|change (off (grown f)) with (off f); lia|lia|lia].
  - rewrite (proj2 (Z.leb_gt _ _)) by lia. rewrite CM_left_id. set (k := Z.min n (alllen f - off f)).
    destruct (Hend f k Hok eq_refl eq_refl) as (f' & Hst & H); [lia|lia|lia|].
    exists k, f'. rewrite <- Hst. split; [|split; [lia|by rewrite Hst]].
    apply store_run; [exact Hb|exact Ho|lia|lia|lia|lia].
Qed.

(** ** The refinement *)

(** What a client may do: sizes in an int, no empty write, and no position
    behind the content ([n] bytes at least). *)
Definition op_ok (n : Z) (op : fop) : Prop :=
  match op with
  | OpRead k => Z.of_nat k < 2 ^ 31
  | OpWrite bs => bs ≠ [] ∧ Z.of_nat (length bs) < 2 ^ 31
  | OpSeek p => Z.of_nat p ≤ n
  end.
Definition op_bytes (op : fop) : Z := match op with OpWrite bs => Z.of_nat (length bs) | _ => 0 end.
Definition ops_bytes (ops : list fop) : Z := foldr (λ op n, op_bytes op + n) 0 ops.

Lemma set_off_ok cap f o : mf_ok cap f → 0 ≤ o ≤ len f → mf_ok cap (set_off o f).
Proof. intros [? ? ? ? ?] Ho. by split. Qed.

Lemma run_op_refines cap f op :
  mf_ok cap f → alllen f < 2 ^ 30 → op_ok (len f) op →
  ∃ r f', run_op op f = (Ret r, f') ∧ afile_step op (abs f) r (abs f') ∧ mf_ok cap f' ∧
    len f ≤ len f' ≤ len f + op_bytes op.
Proof.
  intros Hok Hmax Hop. pose proof Hok as [Hb Hol Hr Hs Hc]. destruct op as [n|bs|q]; cbn [run_op op_bytes op_ok] in *.
  - pose proof (MemoryFile_read_run f (replicate n 0) (Z.of_nat n) cap Hok ltac:(lia) ltac:(lia)
      ltac:(rewrite length_replicate; lia)) as Hrun. rewrite Nat2Z.id in Hrun. cbv zeta in Hrun.
    set (bs := take n (drop (pos (abs f)) (content (abs f)))) in *. cbn [before_read memory_filter].
    rewrite (CM_bind_Ret _ _ f _ _ Hrun). cbv beta iota.
    assert (Hl : Z.of_nat (length bs) ≤ len f - off f).
    { unfold bs, abs. cbn. rewrite length_take, length_drop, length_take. lia. }
    eexists _, _. split; [reflexivity|]. rewrite Nat2Z.id, take_app_length.
    split; [|split; [by apply set_off_ok; [|lia]|cbn; lia]].
    pose proof (astep_read n (content (abs f)) (pos (abs f))) as Ha. cbv zeta in Ha. fold bs in Ha.
    replace (abs (set_off (off f + Z.of_nat (length bs)) f)) with (AFile (content (abs f)) (pos (abs f) + length bs)); [exact Ha|].
    unfold abs. cbn. f_equal. lia.
  - destruct Hop as [Hne Hlen]. assert (0 < length bs)%nat by (destruct bs; [done|simpl; lia]).
    destruct (MemoryFile_write_run cap f bs (Z.of_nat (length bs)) Hok Hmax ltac:(lia) ltac:(lia)) as (k & f' & Hrun & Hk & Hok' & Ha & Hl).
    eexists _, _. cbn [before_write memory_filter]. split.
    + rewrite (CM_bind_Ret (B := fresult) _ _ f (k, bs) f'); [reflexivity|]. by rewrite (CM_bind_Ret _ _ f _ _ Hrun).
    + split; [|split; [done|lia]]. rewrite Ha. apply astep_write; lia.
  - eexists _, _. split; [reflexivity|]. split; [|split; [by apply set_off_ok; [|lia]|cbn; lia]].
    unfold abs. cbn. rewrite Nat2Z.id. apply astep_seek.
Qed.

(** What is left of the sizes a sequence of operations may reach. *)
Lemma ops_budget cap f op ops :
  mf_ok cap f → cap < 2 ^ 30 → len f + ops_bytes (op :: ops) < 2 ^ 29 →
  alllen f < 2 ^ 30 ∧ ∀ n, n ≤ len f + op_bytes op → n + ops_bytes ops < 2 ^ 29.
Proof.
  intros Hok Hcap Hlen. cbn [ops_bytes foldr] in Hlen. fold (ops_bytes ops) in Hlen.
  assert (0 ≤ ops_bytes ops) by (clear; induction ops as [|op ops IH]; [done|]; cbn; fold (ops_bytes ops); destruct op; cbn; lia).
  assert (0 ≤ op_bytes op) by (destruct op; cbn; lia). split; [|lia].
  destruct Hok as [_ _ _ _ Hc]. assert (3 * len f / 2 < 2 ^ 30) by (apply Z.div_lt_upper_bound; lia). lia.
Qed.

Lemma ops_ok_grow n m ops : n ≤ m → Forall (op_ok n) ops → Forall (op_ok m) ops.
Proof. intros Hnm Hops. eapply Forall_impl; [exact Hops|]. intros [k|bs|p]; cbn; lia || done. Qed.

(** C14: a memory file with a block of two bytes at least refines the abstract
    file: whatever sequence of reads, writes and seeks from the start a client
    makes through the interface, each succeeds and returns what the file of
    bytes with a position allows, and a write always makes progress.  Reads and
    writes are of a size that fits an int, writes of one byte at least and of
    less than 2^29 in all, and seeks go no further than the length the file
    begins with; an empty file is stuck and a seek behind the content overruns
    the block (empty_file_stuck, write_overrun). *)
Theorem memory_file_refines cap f ops :
  mf_ok cap f → cap < 2 ^ 30 → len f + ops_bytes ops < 2 ^ 29 → Forall (op_ok (len f)) ops →
  ∃ rs f', run_ops ops f = (Ret rs, f') ∧ afile_runs ops (abs f) rs (abs f') ∧ mf_ok cap f'.
Proof.
  intros Hok Hcap. revert f Hok. induction ops as [|op ops IH]; intros f Hok Hlen Hops.
  { exists [], f. split; [done|]. split; [constructor|done]. }
  apply Forall_cons in Hops as [Hop Hops]. destruct (ops_budget cap f op ops Hok Hcap Hlen) as [Hmax Hnext].
  destruct (run_op_refines cap f op Hok Hmax Hop) as (r & f1 & Hrun & Hstep & Hok1 & Hl).
  destruct (IH f1 Hok1) as (rs & f' & Hruns & Hsteps & Hok'); [apply Hnext; lia|eapply ops_ok_grow, Hops; lia|].
  exists (r :: rs), f'. split; [|split; [by econstructor|done]]. unfold run_ops in *. cbn [mapM].
    rewrite (CM_bind_Ret _ _ f _ _ Hrun). by rewrite (CM_bind_Ret _ _ f1 _ _ Hruns).
Qed.

(** The files the constructors make. *)
Lemma MemoryFile_new_ok : mf_ok 2048 MemoryFile_new.
Proof. split; cbn; lia. Qed.

Lemma MemoryFile_copy_ok data len :
  2 ≤ len < 2 ^ 30 → len ≤ Z.of_nat (length data) →
  ∃ f, MemoryFile_copy data len = Ret f ∧ mf_ok 0 f ∧ abs f = AFile (take (Z.to_nat len) data) 0.
Proof.
  intros Hlen Hd. unfold MemoryFile_copy. assert (Hq : (3 * len) ÷ 2 = 3 * len / 2) by (rewrite Z.quot_div_nonneg; lia).
  rewrite Hq. assert (Hge : len ≤ 3 * len / 2 < 2 ^ 31) by (Z.to_euclidean_division_equations; lia).
  rewrite (proj2 (Z.ltb_ge (3 * len / 2) 0)), (proj2 (Z.leb_gt _ _)), (proj2 (Z.ltb_ge (Z.of_nat _) len)) by lia. cbn [orb].
  eexists. split; [done|]. split; [split; cbn; rewrite ?length_app, ?length_replicate, ?length_take; lia|].
  unfold abs. cbn. f_equal. rewrite take_app_le, take_take, Nat.min_id by (rewrite length_take; lia). done.
Qed.

(** ** Concrete files *)

Definition sample_ops : list fop := [OpWrite [104; 105; 10]; OpSeek 0; OpRead 2; OpRead 8; OpSeek 0; OpWrite [72]].

Lemma memory_file_refines_witness :
  fst (run_ops sample_ops MemoryFile_new) =
    Ret [RCount 3; RDone; RBytes [104; 105]; RBytes [10]; RDone; RCount 1] ∧
  ∃ rs f', run_ops sample_ops MemoryFile_new = (Ret rs, f') ∧ afile_runs sample_ops (AFile [] 0) rs (abs f') ∧ mf_ok 2048 f'.
Proof.
  split; [vm_compute; reflexivity|].
  apply (memory_file_refines 2048 MemoryFile_new sample_ops MemoryFile_new_ok); [lia|cbn; lia|].
  repeat (apply Forall_cons; split); try (cbn; lia); [split; [done|cbn; lia]..|by constructor].
Defined.

(** *** What goes wrong outside *)

Definition file_of (data : list Z) : memory_file :=
  match MemoryFile_copy data (Z.of_nat (length data)) with Ret f => f | Err _ => MemoryFile_new end.

(** An empty file stays empty: it has no room, and half of no room is none. *)
Lemma empty_file_stuck bs : 0 < Z.of_nat (length bs) < 2 ^ 31 →
  MemoryFile_write bs (Z.of_nat (length bs)) true (file_of []) = (Ret 0, file_of []).
Proof.
  intros H. change (file_of []) with (MemoryFile [] 0 0 0 [] 0). set (f := MemoryFile [] 0 0 0 [] 0).
  assert (Hroom : write_room (Z.of_nat (length bs)) f = (Ret 0, f)).
  { rewrite write_room_run by (cbn; lia). cbn. by rewrite Z.min_r by lia. }
  unfold MemoryFile_write. rewrite (CM_bind_Ret _ _ f _ f Hroom). change (0 <=? 0) with true. cbv iota.
  assert (Hgrow : (grow 0 ≫= λ _, write_room (Z.of_nat (length bs))) f = (Ret 0, f)) by (by rewrite (CM_bind_Ret (grow 0) _ f tt f eq_refl)).
  rewrite (CM_bind_Ret _ _ f _ f Hgrow). unfold from_buffer. rewrite (proj2 (Z.leb_le 0 (Z.of_nat (length bs)))) by lia. reflexivity.
Qed.

(** fgets passes the position as the flag that moves it: the first line is read
    again and again.  Elsewhere it stops before the newline and stays there. *)
Lemma fgets_stays :
  let f := file_of [97; 98; 10; 99; 100; 10] in
  MemoryFile_fgets (replicate 8 0) 8 f = (Ret (2, [97; 98; 0; 0; 0; 0; 0; 0]), f) ∧
  MemoryFile_fgets (replicate 8 0) 8 (set_off 2 f) = (Ret (0, replicate 8 0), set_off 2 f).
Proof. vm_compute. auto. Qed.

(** Without a newline behind the position it reads out of the block. *)
Lemma fgets_overrun : fst (MemoryFile_fgets (replicate 8 0) 8 (file_of [97; 98])) = Err Undefined.
Proof. by vm_compute. Qed.

(** A write behind the room that was allocated, after a seek, and into a block
    the constructor has taken over. *)
Lemma write_overrun :
  fst (MemoryFile_write [1; 2] 2 true (set_off 10 (file_of [97; 98]))) = Err Undefined ∧
  fst (MemoryFile_write [1; 2] 2 true (set_off 4 (MemoryFile_take [97; 98; 99; 100] 4))) = Err Undefined.
Proof. vm_compute. auto. Qed.

(** Writing nothing makes the block larger. *)
Lemma empty_write_grows :
  MemoryFile_write [] 0 true (file_of [97; 98]) = (Ret 0, set_share_data [97; 98; 0; 0] (set_alllen 4 (file_of [97; 98]))).
Proof. by vm_compute. Qed.
