(* ===== verification/FileHook.v ===== *)
(** * File hooks

    hook_libc: file_hook.h, the object behind a hooked file, over any filter;
    base_hook.cpp, the registry of handles; file_hook.cpp, the functions that
    replace those of libc. *)

From S2P Require Import Prelude CMem MemFile.

#[local] Open Scope cint_scope.

(** ** The functions of libc

    [file_func_ptr]: the originals, over a state [O] of the system.  FILE and
    struct pointers are addresses; a buffer is passed and returned; fgets says
    whether it returns the buffer or null. *)
Class Libc (O : Type) := {
  phook_open : list Z → Z → option Z → CM O Z;
  phook_read : Z → list Z → Z → CM O (Z * list Z);
  phook_pread : Z → list Z → Z → Z → CM O (Z * list Z);
  phook_write : Z → list Z → Z → CM O Z;
  phook_pwrite : Z → list Z → Z → Z → CM O Z;
  phook_fstat : Z → list Z → CM O (Z * list Z);
  phook_close : Z → CM O Z;
  phook_popen : list Z → list Z → CM O Z;
  phook_pclose : Z → CM O Z;
  phook_fopen : list Z → list Z → CM O Z;
  phook_fclose : Z → CM O Z;
  phook_fread : list Z → Z → Z → Z → CM O (Z * list Z);
  phook_fwrite : list Z → Z → Z → Z → CM O Z;
  phook_fgets : list Z → Z → Z → CM O (bool * list Z);
  phook_fputs : list Z → Z → CM O Z;
  phook_fseek : Z → Z → Z → CM O Z;
  phook_ftell : Z → CM O Z;
  phook_rewind : Z → CM O unit;
  phook_lstat : list Z → list Z → CM O (Z * list Z);
  phook_stat : list Z → list Z → CM O (Z * list Z);
  phook_access : list Z → Z → CM O Z;
  phook_rename : list Z → list Z → CM O Z
}.

(** ** file_hook.h *)

Section file_hook.
Context {F : Type} {filter : Filter F} {O : Type} {libc : Libc O}.

(** What a method works on: the filter, the counter of require_fd, libc and
    the memory of the process. *)
Record menv : Type := Menv { call_back : F; m_fd : Z; m_libc : O; m_mem : memory }.

Abbreviation MM := (CM menv).

Definition filt {A} (m : CM F A) : MM A := λ s,
  let '(r, f) := m (call_back s) in (r, Menv f (m_fd s) (m_libc s) (m_mem s)).
Definition filt_open {A} (m : CM (F * Z) A) : MM A := λ s,
  let '(r, (f, fd)) := m (call_back s, m_fd s) in (r, Menv f fd (m_libc s) (m_mem s)).
Definition orig {A} (m : CM O A) : MM A := λ s,
  let '(r, l) := m (m_libc s) in (r, Menv (call_back s) (m_fd s) l (m_mem s)).
(** An int behind a pointer. *)
Definition deref_int (p : Z) : MM Z := λ s,
  let '(r, m) := load 4 (u64 p) (m_mem s) in
  (match r with Ret z => Ret (sint 32 z) | Err e => Err e end, Menv (call_back s) (m_fd s) (m_libc s) m).
(** A variable that may not have been written. *)
Definition initialised {A} (o : option A) : MM A := lift_opt Undefined o.

Fixpoint strlen (buf : list Z) : option nat :=
  match buf with [] => None | c :: buf => if c =? 0 then Some 0%nat else S <$> strlen buf end.

Definition file_hook_fopen (this : Z) (path mode : list Z) : MM Z :=
  '(handled, handle, new_args) ← filt_open (before_open this open_type_fopen (FpopenArgs path mode) (FpopenArgs [] []));
  if handled : bool then initialised handle
  else
    match new_args with
    | FpopenArgs ((_ :: _) as buf_path) buf_mode => orig (phook_fopen buf_path buf_mode)
    | _ => orig (phook_fopen path mode)
    end.

Definition file_hook_popen (this : Z) (command mode : list Z) : MM Z :=
  '(handled, handle, new_args) ← filt_open (before_open this open_type_popen (FpopenArgs command mode) (FpopenArgs [] []));
  if handled : bool then initialised handle
  else
    match new_args with
    | FpopenArgs ((_ :: _) as buf_path) buf_mode => orig (phook_popen buf_path buf_mode)
    | _ => orig (phook_popen command mode)
    end.

(** Whether the buffer is returned, or null. *)
Definition file_hook_fgets (buffer : list Z) (max_count fp : Z) : MM (bool * list Z) :=
  '(n, buffer) ← filt (before_read buffer (u64 max_count) true);
  if n =? 0 then
    '(_, buffer) ← orig (phook_fgets buffer max_count fp);
    len ← initialised (strlen buffer);
    '(n, buffer) ← filt (after_read buffer (u64 max_count) (Z.of_nat len) true);
    mret (negb (n =? 0), buffer)
  else mret (true, buffer).

Definition file_hook_fread (buffer : list Z) (size count fp : Z) : MM (Z * list Z) :=
  let rd_size := sint 32 (size * count) in
  '(n, buffer) ← filt (before_read buffer (u64 rd_size) false);
  let rded_size := sint 32 n in
  if rded_size =? 0 then
    '(n, buffer) ← orig (phook_fread buffer size count fp);
    filt (after_read buffer (u64 rd_size) (u64 (sint 32 n)) false)
  else mret (u64 rded_size, buffer).

Definition file_hook_fputs (buffer : list Z) (fp : Z) : MM Z :=
  let len := Z.of_nat (length buffer) in
  '(n, buffer) ← filt (before_write buffer len);
  let wted_size := sint 32 n in
  if negb (wted_size =? 0) then mret wted_size
  else n ← orig (phook_fwrite buffer len 1 fp); mret (sint 32 n).

Definition file_hook_fwrite (buffer : list Z) (size count fp : Z) : MM Z :=
  let wt_size := u64 (size * count) in
  '(wted_size, buffer) ← filt (before_write buffer wt_size);
  if negb (wted_size =? 0) then mret wted_size else orig (phook_fwrite buffer wt_size 1 fp).

Definition SEEK_SET : Z := 0.
Definition SEEK_CUR : Z := 1.
Definition SEEK_END : Z := 2.

Definition file_hook_fseek (fp offset whence : Z) : MM Z :=
  let after := orig (phook_fseek fp offset whence) in
  p ← filt on_get_pos;
  if p =? -1 then after
  else
    n ← filt on_get_file_size;
    if n =? -1 then after
    else
      off ←
        (if whence =? SEEK_SET then mret (sint 32 offset)
         else if whence =? SEEK_CUR then p ← filt on_get_pos; mret (sint 32 (p + offset))
         else if whence =? SEEK_END then
           n ← filt on_get_file_size;
           n ← int (n - 1);
           mret (sint 32 (n + offset))
         else mret 0);
      '(handled, ret) ← filt (on_set_pos off);
      if handled : bool then initialised ret else after.

Definition file_hook_ftell (fp : Z) : MM Z :=
  p ← filt on_get_pos;
  if p =? -1 then orig (phook_ftell fp)
  else
    rpos ← filt on_get_pos;
    if negb (rpos =? -1) then mret rpos else orig (phook_ftell fp).

Definition file_hook_rewind (fp : Z) : MM unit :=
  '(handled, _) ← filt (on_set_pos 0);
  if handled : bool then mret tt else orig (phook_rewind fp).

Definition file_hook_pclose (fp : Z) : MM Z := _ ← filt on_close; orig (phook_pclose fp).
Definition file_hook_fclose (fp : Z) : MM Z := _ ← filt on_close; orig (phook_fclose fp).

(** The branch for arm64. *)
Definition file_hook_open (this : Z) (path : list Z) (flag mode : Z) : MM Z :=
  '(handled, handle, new_args) ← filt_open (before_open this open_type_open (OpenArgs path flag mode) (OpenArgs [] 0 0));
  if handled : bool then
    handle ← initialised handle;
    _ ← deref_int handle;
    _ ← deref_int (handle + 4);
    deref_int handle
  else
    match new_args with
    | OpenArgs ((_ :: _) as buf_path) new_flag new_mode => orig (phook_open buf_path new_flag (Some new_mode))
    | _ => orig (phook_open path flag (Some mode))
    end.

Definition file_hook_read (fd : Z) (buffer : list Z) (nbytes : Z) : MM (Z * list Z) :=
  '(rded_size, buffer) ← filt (before_read buffer nbytes false);
  if rded_size =? 0 then
    '(n, buffer) ← orig (phook_read fd buffer nbytes);
    '(n, buffer) ← filt (after_read buffer nbytes (u64 n) false);
    mret (sint 64 n, buffer)
  else mret (sint 64 rded_size, buffer).

(** struct auto_set_pos around [m]. *)
Definition auto_set_pos {A} (pos : Z) (m : MM A) : MM A :=
  old_pos ← filt on_get_pos;
  _ ← filt (on_set_pos (sint 32 pos));
  r ← m;
  _ ← filt (on_set_pos old_pos);
  mret r.

Definition file_hook_pread (fd : Z) (buffer : list Z) (count offset : Z) : MM (Z * list Z) :=
  auto_set_pos offset (file_hook_read fd buffer count).

Definition file_hook_write (fd : Z) (buffer : list Z) (count : Z) : MM Z :=
  '(wted_size, buffer) ← filt (before_write buffer count);
  if negb (wted_size =? 0) then mret (sint 64 wted_size) else orig (phook_write fd buffer count).

Definition file_hook_pwrite (fd : Z) (buffer : list Z) (count offset : Z) : MM Z :=
  auto_set_pos offset (file_hook_write fd buffer count).

Definition file_hook_fstat (fd : Z) (buf : list Z) : MM (Z * list Z) :=
  '(handled, ret, buf) ← filt (before_stat FS_fstat buf);
  if handled : bool then ret ← initialised ret; mret (ret, buf)
  else '(ret, buf) ← orig (phook_fstat fd buf); filt (after_stat ret buf).

Definition file_hook_close (fd : Z) : MM Z := _ ← filt on_close; orig (phook_close fd).

(** These four return [ret] when the filter has not handled the call. *)
Definition file_hook_lstat (file buf : list Z) : MM (Z * list Z) :=
  '(handled, ret, buf) ← filt (before_stat FS_lstat buf);
  if negb handled then ret ← initialised ret; mret (ret, buf)
  else '(ret, buf) ← orig (phook_lstat file buf); filt (after_stat ret buf).
Definition file_hook_stat (pathname buf : list Z) : MM (Z * list Z) :=
  '(handled, ret, buf) ← filt (before_stat FS_stat buf);
  if negb handled then ret ← initialised ret; mret (ret, buf)
  else '(ret, buf) ← orig (phook_stat pathname buf); filt (after_stat ret buf).
Definition file_hook_rename (old_path new_path : list Z) : MM Z :=
  '(handled, ret) ← filt (before_rename new_path);
  if negb handled then initialised ret else orig (phook_rename old_path new_path).
Definition file_hook_access (pathname : list Z) (mode : Z) : MM Z :=
  '(handled, ret) ← filt (before_access mode);
  if negb handled then initialised ret else orig (phook_access pathname mode).

End file_hook.
Arguments menv : clear implicits.

(** ** base_hook.h, factory.h: what is registered *)

(** regcomp and regexec. *)
Class Regex : Type := {
  regex_t : Type;
  regcomp : list Z → option regex_t;
  regexec : regex_t → list Z → bool
}.

(** filter_factory: a factory may read the system. *)
Class Factory (O Fac F : Type) := { create : Fac → CM O F }.

Inductive none_file_factory : Set := NoneFactory.
#[export] Instance none_factory {O} : Factory O none_file_factory none_file_filter := {
  create _ := mret NoneFile
}.

(** operator new: an address that no object has. *)
Class Heap : Type := {
  new_address : gset Z → Z;
  new_address_fresh X : new_address X ∉ X;
  new_address_pos X : 0 < new_address X
}.

Section file_hooks.
Context {F Fac O : Type} {filter : Filter F} {libc : Libc O} {factory : Factory O Fac F} {regex : Regex} {heap : Heap}.

Record hook_params : Type := HookParams { reg_path : list Z; ffactory : Fac }.
Record inside_hook_params : Type := InsideHookParams {
  reg : option regex_t;
  ireg_path : list Z;
  iffactory : Fac;
  open_index : Z
}.
Definition make_inside_hook_params (params : hook_params) : inside_hook_params :=
  InsideHookParams (regcomp (reg_path params)) (reg_path params) (ffactory params) 0.

(** An object of class file_hook: its info, and the filter with its address. *)
Record file_hook_object : Type := FileHookObject {
  file_instance_id : Z;
  info_path : list Z;
  filter_address : Z;
  filter_state : F
}.

(** The globals of base_hook.cpp and file_hook.cpp, the live objects, libc and
    the memory.  The map hook_file_list is sorted by its key. *)
Record world : Type := World {
  w_libc : O;
  w_mem : memory;
  fd_index : Z;
  g_hook : gmap Z Z;
  objects : gmap Z file_hook_object;
  hook_file_list : list (Z * inside_hook_params);
  map_hook_index : Z
}.
Definition set_g_hook v s := World (w_libc s) (w_mem s) (fd_index s) v (objects s) (hook_file_list s) (map_hook_index s).
Definition set_objects v s := World (w_libc s) (w_mem s) (fd_index s) (g_hook s) v (hook_file_list s) (map_hook_index s).
Definition set_hook_file_list v s := World (w_libc s) (w_mem s) (fd_index s) (g_hook s) (objects s) v (map_hook_index s).
Definition set_map_hook_index v s := World (w_libc s) (w_mem s) (fd_index s) (g_hook s) (objects s) (hook_file_list s) v.

Abbreviation W := (CM world).
Abbreviation menv := (menv F O).

(** A function of libc. *)
Definition direct {A} (m : CM O A) : W A := λ s,
  let '(r, l) := m (w_libc s) in
  (r, World l (w_mem s) (fd_index s) (g_hook s) (objects s) (hook_file_list s) (map_hook_index s)).

(** A method of the object at [p]. *)
Definition method {A} (p : Z) (m : Z → CM menv A) : W A := λ s,
  match objects s !! p with
  | None => (Err Undefined, s)
  | Some o =>
      let '(r, e) := m (filter_address o) (Menv (filter_state o) (fd_index s) (w_libc s) (w_mem s)) in
      (r, World (m_libc e) (m_mem e) (m_fd e) (g_hook s)
            (<[p := FileHookObject (file_instance_id o) (info_path o) (filter_address o) (call_back e)]> (objects s))
            (hook_file_list s) (map_hook_index s))
  end.

(** [new file_hook(cb)] and [delete p]. *)
Definition live (s : world) : gset Z :=
  dom (objects s) ∪ list_to_set (filter_address ∘ snd <$> map_to_list (objects s)).
Definition new_object (id : Z) (path : list Z) (cb : F) : W Z := λ s,
  let a := new_address (live s) in
  let p := new_address ({[a]} ∪ live s) in
  (Ret p, set_objects (<[p := FileHookObject id path a cb]> (objects s)) s).
Definition delete_object (p : Z) : W unit := λ s,
  match objects s !! p with
  | None => (Err Undefined, s)
  | Some _ => (Ret tt, set_objects (delete p (objects s)) s)
  end.

(** ** base_hook.cpp *)

Definition hook_global_init : W bool := λ s,
  (Ret true, World (w_libc s) (w_mem s) 65555 (g_hook s) (objects s) (hook_file_list s) (map_hook_index s)).

(** A handle is a FILE pointer, or an int converted to one; null is 0. *)
Definition _is_hook_handle (handle : Z) : W bool := gets (λ s, bool_decide (is_Some (g_hook s !! handle))).
(** erase of the end iterator is undefined. *)
Definition _remove_hook_handle (handle : Z) : W unit :=
  g ← gets g_hook;
  match g !! handle with
  | None => fail Undefined
  | Some _ => modify (set_g_hook (delete handle g))
  end.
(** insert leaves an entry as it is. *)
Definition _insert_hook_handle (handle phook : Z) : W unit :=
  g ← gets g_hook;
  match g !! handle with
  | None => modify (set_g_hook (<[handle := phook]> g))
  | Some _ => mret tt
  end.
Definition _get_hook_handle (handle : Z) : W Z := gets (λ s, default 0 (g_hook s !! handle)).

(** ** file_hook.cpp: registration *)

Definition check_hook_info (info : hook_params) : W bool :=
  l ← gets hook_file_list;
  mret (forallb (λ item, negb (bool_decide (ireg_path item.2 = reg_path info))) l).

(** The first entry whose expression matches; regexec on an expression that was
    not compiled is undefined. *)
Fixpoint first_match (l : list (Z * inside_hook_params)) (FileName : list Z) : W (option (Z * inside_hook_params)) :=
  match l with
  | [] => mret None
  | item :: l =>
      re ← lift_opt Undefined (reg item.2);
      if regexec re FileName then mret (Some item) else first_match l FileName
  end.

(** [open_index->fetch_add(1)] of the entry [i] with key [k]. *)
Definition next_open_index (i : inside_hook_params) : inside_hook_params :=
  InsideHookParams (reg i) (ireg_path i) (iffactory i) (sint 32 (open_index i + 1)).
Definition fetch_add_open_index (k : Z) (i : inside_hook_params) : W Z :=
  _ ← modify (λ s,
    set_hook_file_list ((λ item, if item.1 =? k then (item.1, next_open_index item.2) else item) <$> hook_file_list s) s);
  mret (open_index i).

Definition check_and_create_handle (FileName : list Z) : W Z :=
  l ← gets hook_file_list;
  found ← first_match l FileName;
  match found with
  | None => mret 0
  | Some (k, i) =>
      cb ← direct (create (iffactory i));
      file_instance_id ← fetch_add_open_index k i;
      new_object file_instance_id FileName cb
  end.

(** [map::insert]. *)
Fixpoint map_insert {A} (k : Z) (v : A) (l : list (Z * A)) : list (Z * A) :=
  match l with
  | [] => [(k, v)]
  | (k', v') :: l' => if k <? k' then (k, v) :: l else if k =? k' then l else (k', v') :: map_insert k v l'
  end.

Definition register_file_hook (info : hook_params) : W Z :=
  fresh ← check_hook_info info;
  if negb fresh then mret 0
  else
    mhandle ← gets map_hook_index;
    _ ← modify (set_map_hook_index (sint 32 (mhandle + 1)));
    _ ← modify (λ s, set_hook_file_list (map_insert mhandle (make_inside_hook_params info) (hook_file_list s)) s);
    mret mhandle.

Definition unregister_file_hook (mhandle : Z) : W unit :=
  modify (λ s, set_hook_file_list (List.filter (λ item, negb (item.1 =? mhandle)) (hook_file_list s)) s).

(** ** file_hook.cpp: the hooks *)

Definition hook_fopen (FileName mode : list Z) : W Z :=
  phandle ← check_and_create_handle FileName;
  if truthy phandle then
    fp ← method phandle (λ this, file_hook_fopen this FileName mode);
    _ ← when (truthy fp) (_insert_hook_handle fp phandle);
    mret fp
  else direct (phook_fopen FileName mode).

Definition hook_fclose (fp : Z) : W Z :=
  p ← _get_hook_handle fp;
  if truthy p then
    _ ← method p (λ _, file_hook_fclose fp);
    _ ← _remove_hook_handle fp;
    _ ← delete_object p;
    mret 0
  else direct (phook_fclose fp).

Definition hook_fgets (Buffer : list Z) (MaxCount fp : Z) : W (bool * list Z) :=
  p ← _get_hook_handle fp;
  if truthy p then method p (λ _, file_hook_fgets Buffer MaxCount fp) else direct (phook_fgets Buffer MaxCount fp).
Definition hook_fwrite (_buf : list Z) (size count fp : Z) : W Z :=
  p ← _get_hook_handle fp;
  if truthy p then method p (λ _, file_hook_fwrite _buf size count fp) else direct (phook_fwrite _buf size count fp).
Definition hook_fputs (s : list Z) (fp : Z) : W Z :=
  p ← _get_hook_handle fp;
  if truthy p then method p (λ _, file_hook_fputs s fp) else direct (phook_fputs s fp).
Definition hook_fread (_buf : list Z) (size count fp : Z) : W (Z * list Z) :=
  p ← _get_hook_handle fp;
  if truthy p then method p (λ _, file_hook_fread _buf size count fp) else direct (phook_fread _buf size count fp).
Definition hook_fseek (fp offset whence : Z) : W Z :=
  p ← _get_hook_handle fp;
  if truthy p then method p (λ _, file_hook_fseek fp offset whence) else direct (phook_fseek fp offset whence).
Definition hook_ftell (fp : Z) : W Z :=
  p ← _get_hook_handle fp;
  if truthy p then method p (λ _, file_hook_ftell fp) else direct (phook_ftell fp).
Definition hook_rewind (fp : Z) : W unit :=
  p ← _get_hook_handle fp;
  if truthy p then method p (λ _, file_hook_rewind fp) else direct (phook_rewind fp).

(** These two fall back to the functions for files. *)
Definition hook_popen (_command mode : list Z) : W Z :=
  phandle ← check_and_create_handle _command;
  if truthy phandle then
    fp ← method phandle (λ this, file_hook_popen this _command mode);
    _ ← when (truthy fp) (_insert_hook_handle fp phandle);
    mret fp
  else direct (phook_fopen _command mode).
Definition hook_pclose (fp : Z) : W Z :=
  p ← _get_hook_handle fp;
  if truthy p then
    _ ← method p (λ _, file_hook_pclose fp);
    _ ← _remove_hook_handle fp;
    _ ← delete_object p;
    mret 0
  else direct (phook_fclose fp).

Definition O_CREAT : Z := 64.

(** [arg] is the third argument of the call; it is read when there has to be
    one.  [(void * ) fd] extends the sign. *)
Definition hook_open (_path : list Z) (oflag : Z) (arg : option Z) : W Z :=
  mode ← (if truthy (oflag & O_CREAT) then lift_opt Undefined arg else mret 0);
  phandle ← check_and_create_handle _path;
  if truthy phandle then
    fd ← method phandle (λ this, file_hook_open this _path oflag mode);
    _ ← when (negb (fd =? -1)) (_insert_hook_handle (u64 fd) phandle);
    mret fd
  else if truthy (oflag & O_CREAT) then direct (phook_open _path oflag (Some mode))
  else direct (phook_open _path oflag None).

Definition hook_read (fd : Z) (_buf : list Z) (_nbytes : Z) : W (Z * list Z) :=
  p ← _get_hook_handle (u64 fd);
  if truthy p then method p (λ _, file_hook_read fd _buf _nbytes) else direct (phook_read fd _buf _nbytes).
Definition hook_pread (fd : Z) (_buf : list Z) (count offset : Z) : W (Z * list Z) :=
  p ← _get_hook_handle (u64 fd);
  if truthy p then method p (λ _, file_hook_pread fd _buf count offset) else direct (phook_pread fd _buf count offset).
Definition hook_write (fd : Z) (_buf : list Z) (count : Z) : W Z :=
  p ← _get_hook_handle (u64 fd);
  if truthy p then method p (λ _, file_hook_write fd _buf count) else direct (phook_write fd _buf count).
Definition hook_pwrite (fd : Z) (_buf : list Z) (count offset : Z) : W Z :=
  p ← _get_hook_handle (u64 fd);
  if truthy p then method p (λ _, file_hook_pwrite fd _buf count offset) else direct (phook_pwrite fd _buf count offset).
Definition hook_fstat (fd : Z) (buf : list Z) : W (Z * list Z) :=
  p ← _get_hook_handle (u64 fd);
  if truthy p then method p (λ _, file_hook_fstat fd buf) else direct (phook_fstat fd buf).
Definition hook_close (fd : Z) : W Z :=
  p ← _get_hook_handle (u64 fd);
  if truthy p then
    _ ← method p (λ _, file_hook_close fd);
    _ ← _remove_hook_handle (u64 fd);
    _ ← delete_object p;
    mret 0
  else direct (phook_close fd).

Definition hook_lstat (file buf : list Z) : W (Z * list Z) :=
  phandle ← check_and_create_handle file;
  if truthy phandle then
    ret ← method phandle (λ _, file_hook_lstat file buf); _ ← delete_object phandle; mret ret
  else direct (phook_lstat file buf).
Definition hook_stat (pathname buf : list Z) : W (Z * list Z) :=
  phandle ← check_and_create_handle pathname;
  if truthy phandle then
    ret ← method phandle (λ _, file_hook_stat pathname buf); _ ← delete_object phandle; mret ret
  else direct (phook_stat pathname buf).
Definition hook_rename (old_path new_path : list Z) : W Z :=
  phandle ← check_and_create_handle old_path;
  if truthy phandle then
    ret ← method phandle (λ _, file_hook_rename old_path new_path); _ ← delete_object phandle; mret ret
  else direct (phook_rename old_path new_path).
Definition hook_access (pathname : list Z) (mode : Z) : W Z :=
  phandle ← check_and_create_handle pathname;
  if truthy phandle then
    ret ← method phandle (λ _, file_hook_access pathname mode); _ ← delete_object phandle; mret ret
  else direct (phook_access pathname mode).

End file_hooks.
