(* ===== verification/FileHookProps.v ===== *)
(** * File hooks, proved

    The hooks are transparent for files nobody has registered; every handle of
    the registry leads to its own live object; a registered memory file behaves
    as the abstract file through the hooked functions. *)

From Stdlib Require Import Sorting.Sorted.
From S2P Require Import Prelude CMem MemFile MemFileProps FileHook.

#[local] Open Scope cint_scope.

(** ** The calls of a client *)

Inductive call : Set :=
  | Fopen (FileName mode : list Z) | Fclose (fp : Z)
  | Fgets (Buffer : list Z) (MaxCount fp : Z) | Fwrite (buf : list Z) (size count fp : Z)
  | Fputs (s : list Z) (fp : Z) | Fread (buf : list Z) (size count fp : Z)
  | Fseek (fp offset whence : Z) | Ftell (fp : Z) | Rewind (fp : Z)
  | Popen (command mode : list Z) | Pclose (fp : Z)
  | Open (path : list Z) (oflag : Z) (arg : option Z) | Close (fd : Z)
  | Read (fd : Z) (buf : list Z) (nbytes : Z) | Pread (fd : Z) (buf : list Z) (count offset : Z)
  | Write (fd : Z) (buf : list Z) (count : Z) | Pwrite (fd : Z) (buf : list Z) (count offset : Z)
  | Fstat (fd : Z) (buf : list Z)
  | Lstat (file buf : list Z) | Stat (pathname buf : list Z)
  | Rename (old_path new_path : list Z) | Access (pathname : list Z) (mode : Z).

Inductive result : Set := RInt (z : Z) | RData (z : Z) (buf : list Z) | RString (b : bool) (buf : list Z) | RVoid.

Section results.
Context {S : Type}.
Definition int_of (m : CM S Z) : CM S result := z ← m; mret (RInt z).
Definition data_of (m : CM S (Z * list Z)) : CM S result := '(z, buf) ← m; mret (RData z buf).
Definition string_of (m : CM S (bool * list Z)) : CM S result := '(b, buf) ← m; mret (RString b buf).
Definition void_of (m : CM S unit) : CM S result := _ ← m; mret RVoid.
End results.

(** The path or the handle a call is about. *)
Definition path_of (c : call) : option (list Z) :=
  match c with
  | Fopen p _ | Popen p _ | Open p _ _ | Lstat p _ | Stat p _ | Rename p _ | Access p _ => Some p
  | _ => None
  end.
Definition handle_of (c : call) : option Z :=
  match c with
  | Fclose fp | Fgets _ _ fp | Fwrite _ _ _ fp | Fputs _ fp | Fread _ _ _ fp | Fseek fp _ _ | Ftell fp | Rewind fp
  | Pclose fp => Some fp
  | Close fd | Read fd _ _ | Pread fd _ _ _ | Write fd _ _ | Pwrite fd _ _ _ | Fstat fd _ => Some (u64 fd)
  | _ => None
  end.

(** What the system itself does for a call. *)
Definition libc_call {O} {libc : Libc O} (c : call) : CM O result :=
  match c with
  | Fopen p m => int_of (phook_fopen p m)
  | Fclose fp => int_of (phook_fclose fp)
  | Fgets b n fp => string_of (phook_fgets b n fp)
  | Fwrite b s n fp => int_of (phook_fwrite b s n fp)
  | Fputs s fp => int_of (phook_fputs s fp)
  | Fread b s n fp => data_of (phook_fread b s n fp)
  | Fseek fp o w => int_of (phook_fseek fp o w)
  | Ftell fp => int_of (phook_ftell fp)
  | Rewind fp => void_of (phook_rewind fp)
  | Popen p m => int_of (phook_popen p m)
  | Pclose fp => int_of (phook_pclose fp)
  | Open p f arg => int_of (phook_open p f arg)
  | Close fd => int_of (phook_close fd)
  | Read fd b n => data_of (phook_read fd b n)
  | Pread fd b n o => data_of (phook_pread fd b n o)
  | Write fd b n => int_of (phook_write fd b n)
  | Pwrite fd b n o => int_of (phook_pwrite fd b n o)
  | Fstat fd b => data_of (phook_fstat fd b)
  | Lstat p b => data_of (phook_lstat p b)
  | Stat p b => data_of (phook_stat p b)
  | Rename p q => int_of (phook_rename p q)
  | Access p m => int_of (phook_access p m)
  end.

(** The system's open reads its third argument where it may make a file, for
    O_CREAT and O_TMPFILE, and ignores it otherwise. *)
Definition O_TMPFILE_bit : Z := 0x400000.
Class OpenLaw {O} (libc : Libc O) : Prop := {
  open_ignores_mode p f arg :
    truthy (f & O_CREAT) = false → truthy (f & O_TMPFILE_bit) = false → phook_open p f arg = phook_open p f None
}.

(** A call of open has a third argument for O_CREAT; one for O_TMPFILE alone is
    left out here, see [tmpfile_mode_lost]. *)
Definition mode_given (c : call) : Prop :=
  match c with
  | Open _ f arg => if truthy (f & O_CREAT) then is_Some arg else truthy (f & O_TMPFILE_bit) = false
  | _ => True
  end.

(** The call libc gets for one that is not hooked: popen and pclose become
    fopen and fclose. *)
Definition forwarded (c : call) : call :=
  match c with Popen p m => Fopen p m | Pclose fp => Fclose fp | _ => c end.

Ltac simpl_world :=
  cbn [w_libc w_mem fd_index g_hook objects hook_file_list map_hook_index set_g_hook set_objects set_hook_file_list
    set_map_hook_index fst snd] in *.

Section file_hooks.
Context {F Fac O : Type} {filter : Filter F} {libc : Libc O} {factory : Factory O Fac F} {regex : Regex} {heap : Heap}.

Abbreviation world := (@world F Fac O regex).
Abbreviation W := (CM world).
Abbreviation inside_hook_params := (@inside_hook_params Fac regex).
Implicit Types (s : world) (c : call).

Definition hooked_call (c : call) : W result :=
  match c with
  | Fopen p m => int_of (hook_fopen p m)
  | Fclose fp => int_of (hook_fclose fp)
  | Fgets b n fp => string_of (hook_fgets b n fp)
  | Fwrite b s n fp => int_of (hook_fwrite b s n fp)
  | Fputs s fp => int_of (hook_fputs s fp)
  | Fread b s n fp => data_of (hook_fread b s n fp)
  | Fseek fp o w => int_of (hook_fseek fp o w)
  | Ftell fp => int_of (hook_ftell fp)
  | Rewind fp => void_of (hook_rewind fp)
  | Popen p m => int_of (hook_popen p m)
  | Pclose fp => int_of (hook_pclose fp)
  | Open p f arg => int_of (hook_open p f arg)
  | Close fd => int_of (hook_close fd)
  | Read fd b n => data_of (hook_read fd b n)
  | Pread fd b n o => data_of (hook_pread fd b n o)
  | Write fd b n => int_of (hook_write fd b n)
  | Pwrite fd b n o => int_of (hook_pwrite fd b n o)
  | Fstat fd b => data_of (hook_fstat fd b)
  | Lstat p b => data_of (hook_lstat p b)
  | Stat p b => data_of (hook_stat p b)
  | Rename p q => int_of (hook_rename p q)
  | Access p m => int_of (hook_access p m)
  end.

(** ** Transparency *)

(** No registered expression matches the path, and the handle is not ours. *)
Definition unmatched (path : list Z) (item : Z * inside_hook_params) : Prop :=
  ∃ re, reg item.2 = Some re ∧ regexec re path = false.
Definition not_hooked (c : call) (s : world) : Prop :=
  (∀ path, path_of c = Some path → Forall (unmatched path) (hook_file_list s)) ∧
  (∀ h, handle_of c = Some h → g_hook s !! h = None).

Lemma first_match_none l path s : Forall (unmatched path) l → first_match l path s = (Ret None, s).
Proof.
  induction 1 as [|item l (re & Hre & Hno) Hl IH]; [done|]. cbn [first_match]. rewrite Hre. cbn [lift_opt].
  by rewrite CM_left_id, Hno.
Qed.

Lemma first_match_found l1 k (i : inside_hook_params) l2 re path s :
  Forall (unmatched path) l1 → reg i = Some re → regexec re path = true →
  first_match (l1 ++ (k, i) :: l2) path s = (Ret (Some (k, i)), s).
Proof.
  induction 1 as [|item l1 (re' & Hre' & Hno) Hl IH]; intros Hre Hyes; cbn [app first_match].
  - cbn [snd]. rewrite Hre. cbn [lift_opt]. by rewrite CM_left_id, Hyes.
  - rewrite Hre'. cbn [lift_opt]. rewrite CM_left_id, Hno. by apply IH.
Qed.

Lemma create_none path s :
  Forall (unmatched path) (hook_file_list s) → check_and_create_handle path s = (Ret 0, s).
Proof.
  intros H. unfold check_and_create_handle, gets at 1, mbind at 1, CM_bind at 1.
  by rewrite (CM_bind_Ret _ _ s None s (first_match_none _ _ _ H)).
Qed.

Lemma get_none h s : g_hook s !! h = None → _get_hook_handle h s = (Ret 0, s).
Proof. intros H. unfold _get_hook_handle, gets. by rewrite H. Qed.

(** Every hook begins with one of the two. *)
Ltac unhooked E :=
  unfold int_of, data_of, string_of, void_of, direct, lift_opt, fail, mbind, CM_bind, mret, CM_ret;
  rewrite E; cbn [truthy Z.eqb negb]; repeat case_match; simplify_eq; done.

Lemma unhooked_open p f arg s :
  check_and_create_handle p s = (Ret 0, s) →
  hook_open p f arg s = (m ← (if truthy (f & O_CREAT) then lift_opt Undefined arg else mret 0);
    direct (phook_open p f (if truthy (f & O_CREAT) then Some m else None))) s.
Proof.
  intros E. unfold hook_open. destruct (truthy (f & O_CREAT)); [destruct arg as [m|]; [|done]|]; cbn [lift_opt];
    rewrite !CM_left_id, (CM_bind_Ret _ _ _ _ _ E); done.
Qed.

(** C15: a call about a file that is not hooked is the call of the system
    itself, arguments included, and changes nothing else; popen and pclose are
    passed on as fopen and fclose.  An open has its mode where O_CREAT asks for
    one, and does not ask for O_TMPFILE without O_CREAT. *)
Theorem unhooked_transparent {law : OpenLaw libc} c s :
  not_hooked c s → mode_given c → hooked_call c s = direct (libc_call (forwarded c)) s.
Proof.
  intros [Hpath Hhandle] Hmode.
  destruct c; cbn [path_of handle_of] in *; cbn [hooked_call forwarded libc_call];
    first [specialize (Hpath _ eq_refl); pose proof (create_none _ _ Hpath) as E
          |specialize (Hhandle _ eq_refl); pose proof (get_none _ _ Hhandle) as E]; clear Hpath Hhandle.
  all: unfold hook_fopen, hook_fclose, hook_fgets, hook_fwrite, hook_fputs, hook_fread, hook_fseek, hook_ftell, hook_rewind,
    hook_popen, hook_pclose, hook_close, hook_read, hook_pread, hook_write, hook_pwrite, hook_fstat,
    hook_lstat, hook_stat, hook_rename, hook_access.
  all: try (unhooked E).
  unfold int_of, direct, mbind, CM_bind. rewrite (unhooked_open _ _ _ _ E). cbn [mode_given] in Hmode.
  destruct (truthy (oflag & O_CREAT)) eqn:Ef.
  - destruct Hmode as [m ->]. cbn [lift_opt]. rewrite CM_left_id. unfold direct, mret, CM_ret. repeat case_match; by simplify_eq.
  - rewrite CM_left_id, (open_ignores_mode path oflag arg Ef Hmode). unfold direct, mret, CM_ret. repeat case_match; by simplify_eq.
Qed.

(** ** The registry of handles *)

(** The keys and the expressions of what is registered. *)
Definition entries (l : list (Z * inside_hook_params)) : list (Z * list Z) := (λ i, (i.1, ireg_path i.2)) <$> l.

(** Every handle leads to an object that is alive, and to its own; the files
    registered are in the order of their keys, each with its own expression. *)
Record world_ok (s : world) : Prop := {
  ok_live h p : g_hook s !! h = Some p → p ≠ 0 ∧ is_Some (objects s !! p);
  ok_own h1 h2 p : g_hook s !! h1 = Some p → g_hook s !! h2 = Some p → h1 = h2;
  ok_keys : StronglySorted Z.lt (entries (hook_file_list s)).*1;
  ok_paths : NoDup (entries (hook_file_list s)).*2
}.

(** The calls, and the two that change what is registered. *)
Inductive event : Type := Call (c : call) | Register (info : @hook_params Fac) | Unregister (mhandle : Z).
Definition happens (e : event) : W unit :=
  match e with
  | Call c => _ ← hooked_call c; mret tt
  | Register info => _ ← register_file_hook info; mret tt
  | Unregister h => unregister_file_hook h
  end.
Definition event_handle (e : event) : option Z := match e with Call c => handle_of c | _ => None end.

(** What [m] leaves behind is good again, and all handles but [h] are as they
    were. *)
Definition others (h : option Z) (s s' : world) : Prop :=
  ∀ k p, g_hook s !! k = Some p → h ≠ Some k → g_hook s' !! k = Some p ∧ objects s' !! p = objects s !! p.
Definition safe {A} (h : option Z) (m : W A) (s : world) : Prop := world_ok (m s).2 ∧ others h s (m s).2.

(** The registry is as it was, and of the objects only [p] may have changed. *)
Definition only (p : Z) (s s' : world) : Prop :=
  g_hook s' = g_hook s ∧ hook_file_list s' = hook_file_list s ∧
  (∀ q, is_Some (objects s' !! q) ↔ is_Some (objects s !! q)) ∧
  ∀ q, q ≠ p → objects s' !! q = objects s !! q.

#[global] Instance only_preorder p : PreOrder (only p).
Proof.
  split; [by repeat split|]. intros s1 s2 s3 (E1 & L1 & D1 & O1) (E2 & L2 & D2 & O2). split_and!.
  - by rewrite E2.
  - by rewrite L2.
  - intros q. by rewrite D2.
  - intros q Hq. by rewrite O2, O1.
Qed.

#[global] Instance direct_only {A} p (m : CM O A) : Keeps (only p) (direct m).
Proof. intros s. unfold direct. by destruct (m (w_libc s)). Qed.

#[global] Instance method_only {A} p (m : Z → CM (menv F O) A) : Keeps (only p) (method p m).
Proof.
  intros s. unfold method. destruct (objects s !! p) as [o|] eqn:Ho; [|done]. destruct (m _ _) as [r e]. cbn [snd].
  unfold only. simpl_world.
  split_and!; [done..|intros q|intros q Hq; by apply lookup_insert_ne].
  destruct (decide (q = p)) as [->|Hq]; [rewrite lookup_insert_eq, Ho; naive_solver|by rewrite lookup_insert_ne].
Qed.

Lemma world_ok_only p s s' : only p s s' → world_ok s → world_ok s'.
Proof.
  intros (Eg & El & Ed & _) [Hl Ho Hk Hp]. split; rewrite ?Eg, ?El; [|done..].
  intros h q Hq. rewrite Ed. by apply (Hl h).
Qed.

Lemma others_only h p s s' : only p s s' → (∀ k, g_hook s !! k = Some p → h = Some k) → others h s s'.
Proof. intros (Eg & _ & _ & Eo) Hp k q Hq Hk. rewrite Eg, Eo; [done|]. intros ->. by apply Hk, Hp. Qed.

(** *** Creation *)

(** The objects and the handles there were are as they were. *)
Definition kept (s s' : world) : Prop :=
  world_ok s' ∧ g_hook s' = g_hook s ∧ ∀ q, is_Some (objects s !! q) → objects s' !! q = objects s !! q.
(** A new object has no handle yet. *)
Definition unowned (p : Z) (s : world) : Prop := p ≠ 0 ∧ is_Some (objects s !! p) ∧ ∀ h, g_hook s !! h ≠ Some p.

Lemma others_kept h s s' : world_ok s → kept s s' → others h s s'.
Proof. intros Hok (_ & Eg & Eo) k p Hp _. rewrite Eg. split; [done|]. apply Eo, (ok_live _ Hok k p Hp). Qed.

Lemma kept_only p s s1 s2 : kept s s1 → only p s1 s2 → ¬ is_Some (objects s !! p) → kept s s2.
Proof.
  intros (Hok & Eg & Eo) Honly Hp. split_and!; [by eapply world_ok_only| |]; destruct Honly as (Eg' & _ & _ & Eo'); [by rewrite Eg'|].
  intros q Hq. rewrite Eo', Eo; [done|done|]. by intros ->.
Qed.

Lemma first_match_state l path s : (first_match l path s).2 = s.
Proof.
  induction l as [|item l IH]; [done|]. cbn [first_match]. destruct (reg item.2) as [re|]; [|done].
  cbn [lift_opt]. rewrite CM_left_id. by case_match.
Qed.

Lemma world_ok_list l s : entries l = entries (hook_file_list s) → world_ok s → world_ok (set_hook_file_list l s).
Proof. intros E [Hl Ho Hk Hp]. split; simpl_world; rewrite ?E; done. Qed.

Lemma new_object_unowned id path cb s :
  world_ok s → let '(r, s') := new_object id path cb s in
  ∃ p, r = Ret p ∧ kept s s' ∧ unowned p s' ∧ ¬ is_Some (objects s !! p).
Proof.
  intros Hok. unfold new_object. set (p := new_address _). exists p. split; [done|].
  assert (Hp : p ∉ live s) by (intros Hin; by apply (new_address_fresh ({[new_address (live s)]} ∪ live s)), elem_of_union_r).
  assert (Hd : ¬ is_Some (objects s !! p)) by (rewrite <- elem_of_dom; unfold live in Hp; by apply not_elem_of_union in Hp as [? _]).
  pose proof Hok as [Hl Ho Hk Hpa]. unfold kept, unowned. simpl_world. split_and!; [| | |pose proof (new_address_pos ({[new_address (live s)]} ∪ live s)); lia|..|done].
  - split; simpl_world; [|done..]. intros h q Hq. apply Hl in Hq as [Hq Hs]. split; [done|].
    rewrite lookup_insert_ne; [done|]. by intros <-.
  - done.
  - intros q Hq. rewrite lookup_insert_ne; [done|]. by intros <-.
  - by rewrite lookup_insert_eq.
  - intros h Hh. by apply Hl in Hh as [_ Hh].
Qed.

Lemma kept_same s s' :
  world_ok s → g_hook s' = g_hook s → objects s' = objects s → entries (hook_file_list s') = entries (hook_file_list s) → kept s s'.
Proof.
  intros [Hl Ho Hk Hp] Eg Eo El. split; [split; rewrite ?Eg, ?Eo, ?El; done|]. split; [done|]. intros. by rewrite Eo.
Qed.

Lemma kept_trans s1 s2 s3 : kept s1 s2 → kept s2 s3 → kept s1 s3.
Proof.
  intros (Hok1 & Eg1 & Eo1) (Hok2 & Eg2 & Eo2). split_and!; [done|by rewrite Eg2|].
  intros q Hq. rewrite Eo2, Eo1; [done|done|]. by rewrite Eo1.
Qed.

Lemma create_safe path s :
  world_ok s →
  wp (check_and_create_handle path) (λ p s', kept s s' ∧ (p = 0 ∨ unowned p s' ∧ ¬ is_Some (objects s !! p))) (λ _ s', kept s s') s.
Proof.
  intros Hok. assert (Hs : kept s s) by (by apply kept_same). unfold check_and_create_handle, wp, gets, mbind, CM_bind.
  pose proof (first_match_state (hook_file_list s) path s) as E. destruct (first_match _ _ _) as [[[[k i]|]|e] s0]; cbn in E; subst s0.
  2: { split; [done|by left]. }
  2: done.
  unfold direct. destruct (create (iffactory i) (w_libc s)) as [[cb|e] l]; [|by apply kept_same].
  unfold fetch_add_open_index, modify, mbind, CM_bind, mret, CM_ret. simpl_world.
  match goal with |- context [new_object _ _ _ ?w] => set (s1 := w) end.
  assert (Hs1 : kept s s1).
  { apply kept_same; [done..|]. unfold entries, s1. simpl_world. rewrite <- list_fmap_compose.
    apply list_fmap_ext. intros n [k' j] _. cbn. by case_match. }
  pose proof (new_object_unowned (open_index i) path cb s1 (proj1 Hs1)) as H.
  destruct (new_object _ _ _ _) as [r s2]. destruct H as (p & -> & Hk & Hu & Hn). split; [exact (kept_trans _ _ _ Hs1 Hk)|]. right. by split.
Qed.

(** *** The four kinds of hooks *)

Lemma safe_kept {A} h (m : W A) s : world_ok s → kept s (m s).2 → safe h m s.
Proof. intros Hok Hk. split; [apply Hk|]. by apply others_kept. Qed.

Lemma direct_safe {A} h (k : CM O A) s : world_ok s → safe h (direct k) s.
Proof.
  intros Hok. pose proof (direct_only 0 k s) as Ho. split; [by eapply world_ok_only|]. apply (others_only _ 0); [done|].
  intros k' Hk'. by destruct (ok_live _ Hok k' 0 Hk') as [? _].
Qed.

Lemma method_safe {A} h p (m : Z → CM (menv F O) A) s : world_ok s → g_hook s !! h = Some p → safe (Some h) (method p m) s.
Proof.
  intros Hok Hp. pose proof (method_only p m s) as Ho. split; [by eapply world_ok_only|]. apply (others_only _ p); [done|].
  intros k' Hk'. by rewrite (ok_own _ Hok h k' p Hp Hk').
Qed.

(** What [_get_hook_handle] gives leads to one of two branches. *)
Lemma get_safe {A} h (m : Z → W A) (k : CM O A) s :
  world_ok s → (∀ p, g_hook s !! h = Some p → safe (Some h) (m p) s) →
  safe (Some h) (p ← _get_hook_handle h; if truthy p then m p else direct k) s.
Proof.
  intros Hok Hm. unfold safe, _get_hook_handle, gets, mbind, CM_bind.
  destruct (g_hook s !! h) as [p|] eqn:Hp; cbn [from_option id]; [|by apply direct_safe].
  unfold truthy. destruct (ok_live _ Hok h p Hp) as [Hz _]. apply Z.eqb_neq in Hz as ->. by apply Hm.
Qed.

(** A call through a handle. *)
Lemma handle_safe {A} h (m : Z → CM (menv F O) A) (k : CM O A) s :
  world_ok s → safe (Some h) (p ← _get_hook_handle h; if truthy p then method p m else direct k) s.
Proof. intros Hok. apply (get_safe _ (λ p, method p m)); [done|]. intros. by apply method_safe. Qed.

(** Closing. *)
Lemma close_safe {A} h (m : Z → CM (menv F O) A) (k : CM O Z) s :
  world_ok s →
  safe (Some h) (p ← _get_hook_handle h;
    if truthy p then _ ← method p m; _ ← _remove_hook_handle h; _ ← delete_object p; mret 0 else direct k) s.
Proof.
  intros Hok. apply (get_safe _ (λ p, _ ← method p m; _ ← _remove_hook_handle h; _ ← delete_object p; mret 0)); [done|].
  intros p Hp. pose proof (method_safe h p m s Hok Hp) as Hm. pose proof (method_only p m s) as Ho.
  unfold safe, mbind, CM_bind in *. destruct (method p m s) as [[a|e] s1]; [|done]. simpl_world.
  destruct Hm as [Hok1 Hoth], Ho as (Eg & El & Ed & Eo). simpl_world.
  unfold _remove_hook_handle, gets, mbind, CM_bind. simpl_world. rewrite Eg, Hp. unfold modify, delete_object. simpl_world.
  rewrite <- Eg in Hp. destruct (ok_live _ Hok1 h p Hp) as [Hz [o Hlive]]. rewrite Hlive. unfold mret, CM_ret. simpl_world.
  rewrite <- Eg. pose proof Hok1 as [Hl Hown Hk Hpa]. split; [split|]; simpl_world; [..|done|done|].
  - intros k' q [Hne Hq]%lookup_delete_Some. destruct (Hl k' q Hq) as [? Hs]. split; [done|].
    rewrite lookup_delete_ne; [done|]. intros <-. by apply Hne, Hown with p.
  - intros h1 h2 q [_ H1]%lookup_delete_Some [_ H2]%lookup_delete_Some. by eapply Hown.
  - intros k' q Hq Hk'. destruct (Hoth k' q Hq Hk') as [Hq' Ho']. simpl_world. assert (h ≠ k') by congruence.
    rewrite lookup_delete_ne, lookup_delete_ne by (done || intros <-; by apply Hk'; f_equal; apply Hown with p). done.
Qed.

(** A hook that makes an object: [m] is what it does with it. *)
Lemma new_safe {A} path (m : Z → W A) (k : CM O A) s :
  world_ok s →
  (∀ p s1, kept s s1 → unowned p s1 → ¬ is_Some (objects s !! p) → safe None (m p) s1) →
  safe None (phandle ← check_and_create_handle path; if truthy phandle then m phandle else direct k) s.
Proof.
  intros Hok Hm. pose proof (create_safe path s Hok) as H. unfold wp in H. unfold safe, mbind, CM_bind.
  destruct (check_and_create_handle path s) as [[p|e] s1]; [|split; [apply H|by apply others_kept]].
  destruct H as [Hk Hp]. pose proof (others_kept None s s1 Hok Hk) as H1.
  assert (H2 : safe None (if truthy p then m p else direct k) s1).
  { destruct Hp as [->|[Hu Hn]]; [apply direct_safe, Hk|]. unfold truthy. destruct Hu as [Hz Hu].
    pose proof Hz as E. apply Z.eqb_neq in E as ->. apply Hm; [done|by split|done]. }
  destruct H2 as [H2 H2']. split; [done|]. intros h q Hq Hh. destruct (H1 h q Hq Hh) as [Hq1 Ho1].
  destruct (H2' h q Hq1 Hh) as [Hq2 Ho2]. split; [done|]. by rewrite Ho2.
Qed.

Lemma unowned_only p s s' : only p s s' → unowned p s → unowned p s'.
Proof. intros (Eg & _ & Ed & _) (Hz & Hl & Ho). split_and!; [done|by apply Ed|by rewrite Eg]. Qed.

Lemma new_method_safe {A} p (m : Z → CM (menv F O) A) s : world_ok s → unowned p s → safe None (method p m) s ∧ unowned p (method p m s).2.
Proof.
  intros Hok Hu. pose proof (method_only p m s) as Ho. split; [|by eapply unowned_only]. split; [by eapply world_ok_only|].
  apply (others_only _ p); [done|]. intros k Hk. by apply Hu in Hk.
Qed.

Lemma insert_safe h p s : world_ok s → unowned p s → safe None (_insert_hook_handle h p) s.
Proof.
  intros Hok (Hz & Hlive & Ho). unfold safe, _insert_hook_handle, gets, modify, mbind, CM_bind.
  destruct (g_hook s !! h) as [q|] eqn:Hh; [by split|]. pose proof Hok as [Hl Hown Hk Hpa]. simpl_world.
  split; [split|]; simpl_world; [..|done|done|].
  - intros k q [[<- <-]|[_ Hq]]%lookup_insert_Some; [done|by apply (Hl k)].
  - intros h1 h2 q [[<- <-]|[Hn1 H1]]%lookup_insert_Some [[<- E]|[Hn2 H2]]%lookup_insert_Some;
      [done|by apply Ho in H2|subst; by apply Ho in H1|by eapply Hown].
  - intros k q Hq _. simpl_world. split; [|done]. rewrite lookup_insert_ne; [done|]. intros ->. by rewrite Hh in Hq.
Qed.

Lemma safe_bind {A B} h (m : W A) (k : A → W B) s :
  safe h m s → (∀ a s', m s = (Ret a, s') → safe h (k a) s') → safe h (m ≫= k) s.
Proof.
  unfold safe, mbind, CM_bind. intros [Hok Ho] Hk. destruct (m s) as [[a|e] s1]; [|done]. simpl_world.
  destruct (Hk a s1 eq_refl) as [Hok2 Ho2]. split; [done|]. intros k' q Hq Hh. destruct (Ho k' q Hq Hh) as [Hq1 Ho1].
  destruct (Ho2 k' q Hq1 Hh) as [Hq2 Ho3]. split; [done|]. by rewrite Ho3.
Qed.

Lemma safe_ret {A} h (a : A) s : world_ok s → safe h (mret a) s.
Proof. intros Hok. split; [done|]. by intros k p Hp _. Qed.

(** Opening. *)
Lemma open_safe path (m : Z → CM (menv F O) Z) (test : Z → bool) (key : Z → Z) (k : CM O Z) s :
  world_ok s →
  safe None (phandle ← check_and_create_handle path;
    if truthy phandle then
      h ← method phandle m; _ ← when (test h) (_insert_hook_handle (key h) phandle); mret h
    else direct k) s.
Proof.
  intros Hok. apply (new_safe _ (λ p, h ← method p m; _ ← when (test h) (_insert_hook_handle (key h) p); mret h)); [done|].
  intros p s1 [Hok1 _] Hu _. destruct (new_method_safe p m s1 Hok1 Hu) as [Hm Hu']. apply safe_bind; [done|].
  intros h s2 E. rewrite E in Hu'. destruct Hm as [Hok2 _]. rewrite E in Hok2. simpl_world.
  apply safe_bind; [|intros [] s3 E3; apply safe_ret].
  - destruct (test h); [by apply insert_safe|by apply safe_ret].
  - assert (H : safe None (when (test h) (_insert_hook_handle (key h) p)) s2) by (destruct (test h); [by apply insert_safe|by apply safe_ret]).
    destruct H as [H _]. by rewrite E3 in H.
Qed.

(** A call about a path. *)
Lemma path_safe {A} path (m : Z → CM (menv F O) A) (k : CM O A) s :
  world_ok s →
  safe None (phandle ← check_and_create_handle path;
    if truthy phandle then ret ← method phandle m; _ ← delete_object phandle; mret ret else direct k) s.
Proof.
  intros Hok. apply (new_safe _ (λ p, ret ← method p m; _ ← delete_object p; mret ret)); [done|].
  intros p s1 [Hok1 _] Hu _. destruct (new_method_safe p m s1 Hok1 Hu) as [Hm Hu']. apply safe_bind; [done|].
  intros r s2 E. rewrite E in Hu'. destruct Hm as [Hok2 _]. rewrite E in Hok2. simpl_world.
  destruct Hu' as (Hz & [o Hlive] & Ho). unfold safe, delete_object, mbind, CM_bind. rewrite Hlive. simpl_world.
  pose proof Hok2 as [Hl Hown Hk Hpa]. split; [split|]; unfold mret, CM_ret; simpl_world; [..|done|done|].
  - intros k' q Hq. destruct (Hl k' q Hq) as [? Hs]. split; [done|]. rewrite lookup_delete_ne; [done|]. intros ->. by apply Ho in Hq.
  - done.
  - intros k' q Hq _. simpl_world. split; [done|]. rewrite lookup_delete_ne; [done|]. intros ->. by apply Ho in Hq.
Qed.

(** *** Registration *)

Lemma map_insert_in {A} k (v : A) l x : x ∈ map_insert k v l → x = (k, v) ∨ x ∈ l.
Proof.
  induction l as [|[k' v'] l IH]; cbn [map_insert]; [intros H; left; by apply list_elem_of_singleton in H|].
  case_match; [intros [->|Hx]%elem_of_cons; auto|]. case_match; [auto|].
  intros [->|Hx]%elem_of_cons; [right; by left|]. apply IH in Hx as [->|Hx]; [auto|right; by right].
Qed.

Lemma map_insert_sorted {A} k (v : A) l : StronglySorted Z.lt l.*1 → StronglySorted Z.lt (map_insert k v l).*1.
Proof.
  induction l as [|[k' v'] l IH]; cbn; intros H; [by repeat constructor|]. inversion H as [|? ? Hl Hk]; subst.
  destruct (Z.ltb_spec k k'); [|destruct (Z.eqb_spec k k')]; cbn; [|done|].
  - constructor; [done|]. constructor; [done|]. eapply Forall_impl; [exact Hk|]. intros; cbn in *; lia.
  - constructor; [by apply IH|]. apply Forall_forall. intros x ([k2 v2] & -> & Hx)%list_elem_of_fmap.
    apply map_insert_in in Hx as [[= -> ->]|Hx]; cbn; [lia|]. rewrite Forall_forall in Hk. apply Hk, list_elem_of_fmap. by exists (k2, v2).
Qed.

Lemma map_insert_nodup {A} k (v : A) l : v ∉ l.*2 → NoDup l.*2 → NoDup (map_insert k v l).*2.
Proof.
  induction l as [|[k' v'] l IH]; cbn; intros Hv H; [by repeat constructor|].
  rewrite not_elem_of_cons in Hv. destruct Hv as [Hne Hv]. inversion H as [|? ? Hv' Hl]; subst.
  repeat case_match; cbn; [|done|].
  - constructor; [by rewrite not_elem_of_cons|done].
  - constructor; [|by apply IH]. intros ([k2 v2] & E & Hx)%list_elem_of_fmap. cbn in E. subst.
    apply map_insert_in in Hx as [[= -> ->]|Hx]; [done|]. apply Hv', list_elem_of_fmap. by exists (k2, v2).
Qed.

Lemma entries_insert k (i : inside_hook_params) l : entries (map_insert k i l) = map_insert k (ireg_path i) (entries l).
Proof.
  induction l as [|[k' j] l IH]; [done|]. cbn [map_insert entries fmap list_fmap fst snd]. repeat case_match; [done..|].
  cbn. f_equal. exact IH.
Qed.

Lemma check_hook_info_fresh (info : @hook_params Fac) s :
  check_hook_info info s = (Ret (bool_decide (reg_path info ∉ (entries (hook_file_list s)).*2)), s).
Proof.
  unfold check_hook_info, gets, mbind, CM_bind, mret, CM_ret. do 2 f_equal. unfold entries.
  induction (hook_file_list s) as [|[k i] l IH]; [done|]. cbn [forallb fmap list_fmap fst snd]. rewrite IH.
  apply Bool.eq_iff_eq_true. rewrite andb_true_iff, negb_true_iff, bool_decide_eq_false, !bool_decide_eq_true.
  rewrite not_elem_of_cons. split; intros [? ?]; split; congruence || done.
Qed.

Lemma register_safe info s : world_ok s → safe None (register_file_hook info) s.
Proof.
  intros Hok. unfold register_file_hook, safe. rewrite (CM_bind_Ret _ _ s _ s (check_hook_info_fresh info s)).
  case_bool_decide as Hf; cbn [negb]; [|by apply safe_ret].
  unfold gets, modify, mbind, CM_bind, mret, CM_ret. simpl_world. pose proof Hok as [Hl Ho Hk Hp].
  split; [|by intros k p Hkp _]. split; simpl_world; [done..| |]; rewrite entries_insert.
  - by apply map_insert_sorted.
  - by apply map_insert_nodup.
Qed.

Lemma filter_sublist {A} (f : A → bool) l : sublist (List.filter f l) l.
Proof. induction l as [|x l IH]; cbn; [constructor|]. case_match; by constructor. Qed.

Lemma sorted_sublist l k : sublist l k → StronglySorted Z.lt k → StronglySorted Z.lt l.
Proof.
  induction 1 as [|x l k Hlk IH|x l k Hlk IH]; intros Hk; [done|..]; inversion Hk as [|? ? Hk1 Hk2]; subst.
  - constructor; [by apply IH|]. rewrite Forall_forall in *. intros y Hy. apply Hk2. by eapply elem_of_sublist.
  - by apply IH.
Qed.

Lemma unregister_safe h s : world_ok s → safe None (unregister_file_hook h) s.
Proof.
  intros Hok. pose proof Hok as [Hl Ho Hk Hp]. unfold unregister_file_hook, modify, safe. simpl_world.
  split; [|by intros k p Hkp _].
  assert (H : sublist (entries (List.filter (λ item, negb (item.1 =? h)) (hook_file_list s))) (entries (hook_file_list s)))
    by apply fmap_sublist, filter_sublist.
  split; simpl_world; [done..| |].
  - eapply sorted_sublist, Hk. by apply fmap_sublist.
  - eapply sublist_NoDup; [exact Hp|]. by apply fmap_sublist.
Qed.

Lemma safe_map {A B} h (m : W A) (k : A → W B) s : safe h m s → (∀ a s', ∃ b, k a s' = (Ret b, s')) → safe h (m ≫= k) s.
Proof.
  intros [Hok Ho] Hk. unfold safe, mbind, CM_bind. destruct (m s) as [[a|e] s1]; [|done]. simpl_world.
  by destruct (Hk a s1) as [b ->].
Qed.

(** C13: whatever calls and registrations happen, and however they end, every
    handle in the registry leads to its own live object, and what one handle
    refers to is not touched by a call about another. *)
Theorem registry_safe e s : world_ok s → world_ok (happens e s).2 ∧ others (event_handle e) s (happens e s).2.
Proof.
  intros Hok. change (safe (event_handle e) (happens e) s).
  destruct e as [c|info|h]; cbn [happens event_handle]; [|apply safe_map; [by apply register_safe|eauto]|by apply unregister_safe].
  apply safe_map; [|eauto].
  destruct c; cbn [hooked_call handle_of]; (apply safe_map; [|intros; repeat case_match; eauto]).
  all: try by apply handle_safe.
  all: try by apply (close_safe _ _ _ s Hok).
  all: try by apply path_safe.
  - exact (open_safe _ (λ this, file_hook_fopen this FileName mode) truthy (λ h, h) _ s Hok).
  - exact (open_safe _ (λ this, file_hook_popen this command mode) truthy (λ h, h) _ s Hok).
  - unfold hook_open. destruct (truthy (oflag & O_CREAT)); [destruct arg as [m|]|]; cbn [lift_opt].
    + exact (open_safe _ (λ this, file_hook_open this path oflag m) (λ h, negb (h =? -1)) (λ h, u64 h) _ s Hok).
    + by apply (safe_ret None tt s).
    + exact (open_safe _ (λ this, file_hook_open this path oflag 0) (λ h, negb (h =? -1)) (λ h, u64 h) _ s Hok).
Qed.

End file_hooks.

(** ** Memory files behind the hooks *)

Section memory_hooks.
Context {Fac O : Type} {libc : Libc O} {factory : Factory O Fac memory_file} {regex : Regex} {heap : Heap}.

Abbreviation world := (@world memory_file Fac O regex).
Abbreviation W := (CM world).

(** The object with another state of its file. *)
Definition with_file (f : memory_file) (o : @file_hook_object memory_file) : file_hook_object :=
  FileHookObject (file_instance_id o) (info_path o) (filter_address o) f.
Definition update_file (p : Z) (f : memory_file) (s : world) : world := set_objects (alter (with_file f) p (objects s)) s.

(** The handle [h] belongs to an object with the file [f]. *)
Definition holds (h p : Z) (f : memory_file) (s : world) : Prop :=
  g_hook s !! h = Some p ∧ p ≠ 0 ∧ filter_state <$> objects s !! p = Some f.

Lemma holds_update h p f f' s : holds h p f s → holds h p f' (update_file p f' s).
Proof.
  intros (Hg & Hp & Ho). split_and!; [done|done|]. unfold update_file. cbn. rewrite lookup_alter_eq.
  by destruct (objects s !! p).
Qed.

(** A method that works on the file alone. *)
Lemma method_run {A} h p f s (m : Z → CM (menv memory_file O) A) (k : CM O A) a f' :
  holds h p f s →
  (∀ this fd l mem, m this (Menv f fd l mem) = (Ret a, Menv f' fd l mem)) →
  (p ← _get_hook_handle h; if truthy p then method p m else direct k) s = (Ret a, update_file p f' s).
Proof.
  intros (Hg & Hp & Ho) Hm. unfold _get_hook_handle, gets, mbind, CM_bind. rewrite Hg. cbn [from_option id].
  unfold truthy. apply Z.eqb_neq in Hp as ->. cbn [negb]. unfold method.
  destruct (objects s !! p) as [o|] eqn:E; [|done]. injection Ho as Ho. rewrite Ho, Hm. cbn [m_libc m_mem m_fd call_back].
  unfold update_file, set_objects. do 2 f_equal. apply map_eq. intros q. destruct (decide (q = p)) as [->|Hq].
  - by rewrite lookup_insert_eq, lookup_alter_eq, E.
  - by rewrite lookup_insert_ne, lookup_alter_ne.
Qed.

(** The operations of a client of the abstract file, through stdio. *)
Definition hooked_op (fp : Z) (op : fop) : W fresult :=
  match op with
  | OpRead n => '(k, buf) ← hook_fread (replicate n 0) 1 (Z.of_nat n) fp; mret (RBytes (take (Z.to_nat k) buf))
  | OpWrite bs => k ← hook_fwrite bs 1 (Z.of_nat (length bs)) fp; mret (RCount (Z.to_nat k))
  | OpSeek q => _ ← hook_fseek fp (Z.of_nat q) SEEK_SET; mret RDone
  end.

(** A read that finds nothing. *)
Definition at_end (op : fop) (a : afile) : Prop :=
  match op with OpRead n => n = 0%nat ∨ (length (content a) ≤ pos a)%nat | _ => False end.

#[global] Instance at_end_dec op a : Decision (at_end op a).
Proof. destruct op; apply _. Defined.

Lemma fread_hit buf n k buf' fp f f' fd l mem :
  before_read buf n false f = (Ret (k, buf'), f') → 0 < k < 2 ^ 31 → 0 ≤ n < 2 ^ 31 →
  file_hook_fread buf 1 n fp (Menv f fd l mem) = (Ret (k, buf'), @Menv memory_file O f' fd l mem).
Proof.
  intros Hrun Hk Hn. unfold file_hook_fread, filt, mbind, CM_bind. cbn [call_back m_fd m_libc m_mem].
  rewrite Z.mul_1_l, (sint_small 32), (wrap_small 64), Hrun by lia. rewrite (sint_small 32) by lia.
  rewrite (proj2 (Z.eqb_neq k 0)) by lia. by rewrite (wrap_small 64) by lia.
Qed.

Lemma fwrite_hit buf n k buf' fp f f' fd l mem :
  before_write buf n f = (Ret (k, buf'), f') → 0 < k → 0 ≤ n < 2 ^ 31 →
  file_hook_fwrite buf 1 n fp (Menv f fd l mem) = (Ret k, @Menv memory_file O f' fd l mem).
Proof.
  intros Hrun Hk Hn. unfold file_hook_fwrite, filt, mbind, CM_bind. cbn [call_back m_fd m_libc m_mem].
  rewrite Z.mul_1_l, (wrap_small 64), Hrun by lia. by rewrite (proj2 (Z.eqb_neq k 0)) by lia.
Qed.

Lemma fseek_hit cap q fp f fd l mem :
  mf_ok cap f → 0 ≤ q < 2 ^ 31 →
  file_hook_fseek fp q SEEK_SET (Menv f fd l mem) = (Ret 0, @Menv memory_file O (set_off q f) fd l mem).
Proof.
  intros [_ Ho Hr Hs _] Hq. unfold file_hook_fseek, filt, mbind, CM_bind, gets, mret, CM_ret.
  cbn [call_back m_fd m_libc m_mem on_get_pos on_get_file_size on_set_pos memory_filter].
  unfold gets. rewrite (proj2 (Z.eqb_neq (off f) (-1))) by lia. cbn [call_back m_fd m_libc m_mem].
  rewrite (proj2 (Z.eqb_neq (alllen f) (-1))) by lia. change (SEEK_SET =? SEEK_SET) with true. cbn [call_back m_fd m_libc m_mem].
  by rewrite (sint_small 32) by lia.
Qed.

Lemma hooked_op_step cap fp p f s op :
  holds fp p f s → mf_ok cap f → alllen f < 2 ^ 30 → op_ok (len f) op → ¬ at_end op (abs f) →
  ∃ r f', hooked_op fp op s = (Ret r, update_file p f' s) ∧ afile_step op (abs f) r (abs f') ∧ mf_ok cap f' ∧
    len f ≤ len f' ≤ len f + op_bytes op.
Proof.
  intros Hh Hok Hmax Hop Hend. destruct (run_op_refines cap f op Hok Hmax Hop) as (r & f' & Hrun & H).
  exists r, f'. split; [|done]. clear H. destruct op as [n|bs|q]; cbn [hooked_op run_op op_ok at_end] in *.
  - pose proof (MemoryFile_read_run f (replicate n 0) (Z.of_nat n) cap Hok ltac:(lia) ltac:(lia)
      ltac:(rewrite length_replicate; lia)) as Hrd. cbv zeta in Hrd. rewrite Nat2Z.id in Hrd.
    set (bs := take n (drop (pos (abs f)) (content (abs f)))) in *.
    assert (Hbs : 0 < Z.of_nat (length bs) < 2 ^ 31) by (unfold bs; rewrite length_take, length_drop; lia).
    cbn [before_read memory_filter] in Hrun. rewrite (CM_bind_Ret _ _ f _ _ Hrd) in Hrun. injection Hrun as <- <-.
    unfold hook_fread. erewrite CM_bind_Ret; [|eapply method_run; [exact Hh|]; intros; eapply fread_hit; [exact Hrd|lia|lia]].
    done.
  - destruct Hop as [Hne Hlen]. assert (0 < length bs)%nat by (destruct bs; [done|simpl; lia]).
    destruct (MemoryFile_write_run cap f bs (Z.of_nat (length bs)) Hok Hmax ltac:(lia) ltac:(lia)) as (k & f1 & Hw & Hk & _).
    assert (Hbw : before_write bs (Z.of_nat (length bs)) f = (Ret (k, bs), f1)).
    { cbn [before_write memory_filter]. by rewrite (CM_bind_Ret _ _ f _ _ Hw). }
    rewrite (CM_bind_Ret _ _ f _ _ Hbw) in Hrun. injection Hrun as <- <-.
    unfold hook_fwrite. erewrite CM_bind_Ret; [|eapply method_run; [exact Hh|]; intros; eapply fwrite_hit; [exact Hbw|lia|lia]].
    done.
  - injection Hrun as <- <-. pose proof Hok as [_ ? ? _ _].
    unfold hook_fseek. erewrite CM_bind_Ret; [|eapply method_run; [exact Hh|]; intros; apply (fseek_hit cap); [done|lia]].
    done.
Qed.

(** Opening a path registered for a memory file gives the address of the file
    as the FILE, and registers the object under it. *)
Lemma fopen_memory l1 k i l2 re path mode f l s :
  hook_file_list s = l1 ++ (k, i) :: l2 → Forall (unmatched path) l1 → reg i = Some re → regexec re path = true →
  create (iffactory i) (w_libc s) = (Ret f, l) →
  g_hook s !! new_address (live s) = None →
  let fp := new_address (live s) in
  let p := new_address ({[fp]} ∪ live s) in
  ∃ s1, hook_fopen path mode s = (Ret fp, s1) ∧ w_libc s1 = l ∧ holds fp p (set_file_handle fp f) s1 ∧
    g_hook s1 = <[fp := p]> (g_hook s).
Proof.
  intros Hlist Hl1 Hre Hyes Hcreate Hfree fp p. unfold hook_fopen, check_and_create_handle.
  unfold gets at 1, mbind, CM_bind. rewrite Hlist, (first_match_found l1 k i l2 re path s Hl1 Hre Hyes).
  unfold direct. rewrite Hcreate. unfold fetch_add_open_index, modify, mbind, CM_bind, mret, CM_ret. simpl_world.
  unfold new_object. simpl_world.
  match goal with |- context [live ?w] => change (live w) with (live s) end. fold fp p.
  pose proof (new_address_pos (live s)) as Hfp. fold fp in Hfp.
  pose proof (new_address_pos ({[fp]} ∪ live s)) as Hp. fold p in Hp.
  unfold truthy. rewrite (proj2 (Z.eqb_neq p 0)) by lia. cbn [negb].
  unfold method. simpl_world. rewrite lookup_insert_eq.
  cbn [filter_address filter_state]. unfold file_hook_fopen, filt_open, mbind, CM_bind, mret, CM_ret.
  cbn [call_back m_fd m_libc m_mem before_open memory_filter]. change (open_type_fopen & open_type_open) with 0. cbn [Z.eqb negb].
  unfold modify, mbind, CM_bind, mret, CM_ret. cbn [initialised lift_opt call_back m_fd m_libc m_mem].
  unfold mret, CM_ret. rewrite (proj2 (Z.eqb_neq fp 0)) by lia. cbn [negb when].
  unfold _insert_hook_handle, gets, mbind, CM_bind. simpl_world. fold fp in Hfree. rewrite Hfree. unfold modify. simpl_world.
  eexists. split; [reflexivity|]. simpl_world. split; [done|]. split; [|done]. split_and!; simpl_world.
  - by rewrite lookup_insert_eq.
  - lia.
  - by rewrite lookup_insert_eq.
Qed.

Lemma update_update p f f' s : update_file p f' (update_file p f s) = update_file p f' s.
Proof.
  unfold update_file, set_objects. cbn. f_equal. apply map_eq. intros q.
  destruct (decide (q = p)) as [->|Hq]; [|by rewrite !lookup_alter_ne].
  rewrite !lookup_alter_eq. by destruct (objects s !! p).
Qed.

Lemma update_same h p f s : holds h p f s → update_file p f s = s.
Proof.
  intros (_ & _ & Ho). destruct s as [w m fd g os l n]. unfold update_file, set_objects. cbn in *. f_equal. apply map_eq. intros q.
  destruct (decide (q = p)) as [->|Hq]; [|by rewrite lookup_alter_ne]. rewrite lookup_alter_eq.
  destruct (os !! p) as [[]|]; [|done]. by injection Ho as ->.
Qed.

(** A sequence of operations up to the first read that finds nothing. *)
Lemma hooked_ops_run cap fp p f s ops :
  holds fp p f s → mf_ok cap f → cap < 2 ^ 30 → len f + ops_bytes ops < 2 ^ 29 → Forall (op_ok (len f)) ops →
  ∃ front rest rs f', ops = front ++ rest ∧ mapM (hooked_op fp) front s = (Ret rs, update_file p f' s) ∧
    afile_runs front (abs f) rs (abs f') ∧ mf_ok cap f' ∧ (rest = [] ∨ ∃ op rest', rest = op :: rest' ∧ at_end op (abs f')).
Proof.
  intros Hh Hok Hcap. revert f s Hh Hok. induction ops as [|op ops IH]; intros f s Hh Hok Hlen Hops.
  { exists [], [], [], f. split_and!; [done| |constructor|done|by left]. cbn. by rewrite (update_same fp p f s Hh). }
  destruct (decide (at_end op (abs f))) as [Hend|Hend].
  { exists [], (op :: ops), [], f. split_and!; [done| |constructor|done|right; by exists op, ops].
    cbn. by rewrite (update_same fp p f s Hh). }
  apply Forall_cons in Hops as [Hop Hops].
  destruct (ops_budget cap f op ops Hok Hcap Hlen) as [Hmax Hnext].
  destruct (hooked_op_step cap fp p f s op Hh Hok Hmax Hop Hend) as (r & f1 & Hrun & Hstep & Hok1 & Hl).
  destruct (IH f1 (update_file p f1 s)) as (front & rest & rs & f' & -> & Hruns & Hsteps & Hok' & Hrest);
    [by eapply holds_update|done|apply Hnext; lia|eapply ops_ok_grow, Hops; lia|].
  exists (op :: front), rest, (r :: rs), f'. split_and!; [done| |by econstructor|done|done].
  cbn [mapM]. rewrite (CM_bind_Ret _ _ s _ _ Hrun), (CM_bind_Ret _ _ _ _ _ Hruns), update_update. done.
Qed.

(** C12: a path registered for a memory file is opened through the hook, and
    then reading, writing and seeking the FILE does what the abstract file
    does, without the system and without touching anything else, up to the
    first read that finds nothing.  The file has a block of two bytes at least
    (an empty one is stuck, empty_file_stuck), reads and writes are of items of
    one byte (fread_counts_bytes) and of a size that fits an int, a write is of
    one byte at least, less than 2^29 bytes are written in all, and a seek is
    from the start, no further than the length the file begins with
    (seek_end_capacity, write_overrun). *)
Theorem memory_session cap l1 k i l2 re path mode f l s ops :
  hook_file_list s = l1 ++ (k, i) :: l2 → Forall (unmatched path) l1 → reg i = Some re → regexec re path = true →
  create (iffactory i) (w_libc s) = (Ret f, l) → g_hook s !! new_address (live s) = None →
  mf_ok cap f → cap < 2 ^ 30 → len f + ops_bytes ops < 2 ^ 29 → Forall (op_ok (len f)) ops →
  ∃ fp p s1 front rest rs f',
    hook_fopen path mode s = (Ret fp, s1) ∧ w_libc s1 = l ∧ ops = front ++ rest ∧
    mapM (hooked_op fp) front s1 = (Ret rs, update_file p f' s1) ∧
    afile_runs front (abs f) rs (abs f') ∧
    (rest = [] ∨ ∃ op rest', rest = op :: rest' ∧ at_end op (abs f')).
Proof.
  intros Hlist Hl1 Hre Hyes Hcreate Hfree Hok Hcap Hlen Hops. set (fp := new_address (live s)).
  destruct (fopen_memory l1 k i l2 re path mode f l s Hlist Hl1 Hre Hyes Hcreate Hfree) as (s1 & Hopen & Hl & Hh & _).
  destruct (hooked_ops_run cap fp _ (set_file_handle fp f) s1 ops Hh) as (front & rest & rs & f' & H1 & H2 & H3 & _ & H4);
    [by destruct Hok; split|done..|].
  exists fp, (new_address ({[fp]} ∪ live s)), s1, front, rest, rs, f'. done.
Qed.

(** *** Reading and writing at a position *)

Lemma read_hit buf n k buf' fd f f' i l mem :
  before_read buf n false f = (Ret (k, buf'), f') → 0 < k < 2 ^ 63 →
  file_hook_read fd buf n (Menv f i l mem) = (Ret (k, buf'), @Menv memory_file O f' i l mem).
Proof.
  intros Hrun Hk. unfold file_hook_read, filt, mbind, CM_bind. cbn [call_back m_fd m_libc m_mem]. rewrite Hrun.
  rewrite (proj2 (Z.eqb_neq k 0)) by lia. by rewrite (sint_small 64) by lia.
Qed.

Lemma write_hit buf n k buf' fd f f' i l mem :
  before_write buf n f = (Ret (k, buf'), f') → 0 < k < 2 ^ 63 →
  file_hook_write fd buf n (Menv f i l mem) = (Ret k, @Menv memory_file O f' i l mem).
Proof.
  intros Hrun Hk. unfold file_hook_write, filt, mbind, CM_bind. cbn [call_back m_fd m_libc m_mem]. rewrite Hrun.
  rewrite (proj2 (Z.eqb_neq k 0)) by lia. cbn [negb]. by rewrite (sint_small 64) by lia.
Qed.

Lemma auto_set_pos_run {A} o (m : CM (menv memory_file O) A) a f f' i l mem :
  0 ≤ o < 2 ^ 31 →
  m (Menv (set_off o f) i l mem) = (Ret a, Menv f' i l mem) →
  auto_set_pos o m (Menv f i l mem) = (Ret a, Menv (set_off (off f) f') i l mem).
Proof.
  intros Ho Hm. unfold auto_set_pos, filt, mbind, CM_bind. cbn [on_get_pos on_set_pos memory_filter].
  unfold gets, modify, mbind, CM_bind, mret, CM_ret. cbn [call_back m_fd m_libc m_mem].
  rewrite (sint_small 32) by lia. by rewrite Hm.
Qed.

(** pread returns the bytes at its offset and leaves everything as it was;
    pwrite writes a beginning of its bytes there, and leaves the position. *)
Theorem positional_io cap fd p f s o :
  holds (u64 fd) p f s → mf_ok cap f → alllen f < 2 ^ 30 → 0 ≤ o ≤ len f →
  (∀ n, (0 < n)%nat → Z.of_nat n < 2 ^ 31 → o < len f →
    let bs := take n (drop (Z.to_nat o) (content (abs f))) in
    hook_pread fd (replicate n 0) (Z.of_nat n) o s = (Ret (Z.of_nat (length bs), bs ++ replicate (n - length bs) 0), s)) ∧
  (∀ bs, bs ≠ [] → Z.of_nat (length bs) < 2 ^ 31 →
    ∃ k f', hook_pwrite fd bs (Z.of_nat (length bs)) o s = (Ret k, update_file p f' s) ∧
      0 < k ≤ Z.of_nat (length bs) ∧ mf_ok cap f' ∧
      abs f' = AFile (splice (Z.to_nat o) (take (Z.to_nat k) bs) (content (abs f))) (pos (abs f))).
Proof.
  intros Hh Hok Hmax Ho. pose proof Hok as [Hb Hl Hr Hs Hc]. pose proof (set_off_ok cap f o Hok Ho) as Hoko. split.
  - intros n Hn Hn' Hlt bs.
    pose proof (MemoryFile_read_run (set_off o f) (replicate n 0) (Z.of_nat n) cap Hoko ltac:(cbn; lia) ltac:(lia)
      ltac:(rewrite length_replicate; lia)) as Hrd. cbv zeta in Hrd. rewrite Nat2Z.id in Hrd.
    change (take n (drop (pos (abs (set_off o f))) (content (abs (set_off o f))))) with bs in Hrd.
    assert (Hbs : 0 < Z.of_nat (length bs) < 2 ^ 31)
      by (unfold bs, abs; cbn [content]; rewrite length_take, length_drop, length_take; lia).
    rewrite drop_replicate in Hrd. rewrite <- (update_same _ _ _ _ Hh) at 2. unfold hook_pread.
    apply (method_run (u64 fd) p f s); [done|]. intros _ i l mem. unfold file_hook_pread.
    erewrite auto_set_pos_run; [|lia|eapply read_hit; [exact Hrd|lia]]. by destruct f.
  - intros bs Hne Hlen. assert (0 < length bs)%nat by (destruct bs; [done|simpl; lia]).
    destruct (MemoryFile_write_run cap (set_off o f) bs (Z.of_nat (length bs)) Hoko ltac:(cbn; lia) ltac:(lia) ltac:(lia))
      as (k & f1 & Hw & Hk & Hok1 & Ha & Hl1).
    assert (Hbw : before_write bs (Z.of_nat (length bs)) (set_off o f) = (Ret (k, bs), f1)).
    { cbn [before_write memory_filter]. by rewrite (CM_bind_Ret _ _ _ _ _ Hw). }
    exists k, (set_off (off f) f1). split; [|split; [done|split]].
    + unfold hook_pwrite. apply (method_run (u64 fd) p f s); [done|]. intros _ i l mem.
      apply auto_set_pos_run; [lia|]. eapply write_hit; [exact Hbw|lia].
    + apply set_off_ok; [done|]. cbn in Hl1. lia.
    + change (abs (set_off (off f) f1)) with (AFile (content (abs f1)) (pos (abs f))). by rewrite Ha.
Qed.

End memory_hooks.

(** ** A concrete system

    libc notes each call; an expression matches itself; a factory makes files
    with its bytes; objects are put behind one another. *)

#[local] Instance sample_libc : Libc (list call) := {
  phook_open p f m := λ l,
    (Ret 3, Open p f (if truthy (f & O_CREAT) || truthy (f & O_TMPFILE_bit) then m else None) :: l);
  phook_read fd b n := λ l, (Ret (0, b), Read fd b n :: l);
  phook_pread fd b n o := λ l, (Ret (0, b), Pread fd b n o :: l);
  phook_write fd b n := λ l, (Ret n, Write fd b n :: l);
  phook_pwrite fd b n o := λ l, (Ret n, Pwrite fd b n o :: l);
  phook_fstat fd b := λ l, (Ret (0, b), Fstat fd b :: l);
  phook_close fd := λ l, (Ret 0, Close fd :: l);
  phook_popen p m := λ l, (Ret 8192, Popen p m :: l);
  phook_pclose fp := λ l, (Ret 0, Pclose fp :: l);
  phook_fopen p m := λ l, (Ret 16384, Fopen p m :: l);
  phook_fclose fp := λ l, (Ret 0, Fclose fp :: l);
  phook_fread b s n fp := λ l, (Ret (0, b), Fread b s n fp :: l);
  phook_fwrite b s n fp := λ l, (Ret n, Fwrite b s n fp :: l);
  phook_fgets b n fp := λ l, (Ret (false, b), Fgets b n fp :: l);
  phook_fputs b fp := λ l, (Ret 1, Fputs b fp :: l);
  phook_fseek fp o w := λ l, (Ret 0, Fseek fp o w :: l);
  phook_ftell fp := λ l, (Ret 0, Ftell fp :: l);
  phook_rewind fp := λ l, (Ret tt, Rewind fp :: l);
  phook_lstat p b := λ l, (Ret (0, b), Lstat p b :: l);
  phook_stat p b := λ l, (Ret (0, b), Stat p b :: l);
  phook_access p m := λ l, (Ret 0, Access p m :: l);
  phook_rename p q := λ l, (Ret 0, Rename p q :: l)
}.

#[local] Instance sample_open_law : OpenLaw sample_libc.
Proof. split. intros p f arg H1 H2. cbn [phook_open sample_libc]. by rewrite H1, H2. Qed.

#[local] Instance sample_regex : Regex := {
  regex_t := list Z; regcomp := Some; regexec re p := bool_decide (re = p)
}.

Inductive memory_factory : Set := MemoryFactory (data : list Z).
#[local] Instance sample_factory : Factory (list call) memory_factory memory_file := {
  create '(MemoryFactory data) := mret (file_of data)
}.

#[local] Program Instance sample_heap : Heap := {
  new_address X := foldr Z.max 4096 (elements X) + 64
}.
Next Obligation.
  intros X HX. apply elem_of_elements in HX. assert (H : ∀ l x, x ∈ l → x ≤ foldr Z.max 4096 l).
  { intros l x. induction 1; cbn; lia. }
  apply H in HX. lia.
Qed.
Next Obligation.
  intros X. cbn. assert (H : ∀ l, 4096 ≤ foldr Z.max 4096 l) by (intros l; induction l; cbn; lia).
  specialize (H (elements X)). lia.
Qed.

Definition empty_world {F Fac} : @world F Fac (list call) sample_regex :=
  World [] (Memory ∅ ∅ []) 65555 ∅ ∅ [] 0.
Definition a_path : list Z := [47; 97].
Definition b_path : list Z := [47; 98].
(** [a_path] is a file of six bytes in memory, or does not exist. *)
Definition memory_world : @world memory_file memory_factory (list call) sample_regex := (register_file_hook (HookParams a_path (MemoryFactory [1; 2; 3; 4; 5; 6])) empty_world).2.
Definition none_world : @world none_file_filter none_file_factory (list call) sample_regex :=
  (register_file_hook (HookParams a_path NoneFactory) empty_world).2.
Definition opened_world : @world memory_file memory_factory (list call) sample_regex := (hook_fopen a_path [] memory_world).2.

Lemma unhooked_transparent_witness :
  hooked_call (Open b_path 64 (Some 7)) memory_world = direct (libc_call (Open b_path 64 (Some 7))) memory_world ∧
  w_libc (hooked_call (Open b_path 64 (Some 7)) memory_world).2 = [Open b_path 64 (Some 7)].
Proof.
  split; [|vm_compute; reflexivity]. apply (unhooked_transparent (Open b_path 64 (Some 7))).
  - split; [|done]. intros path [= <-]. repeat constructor. exists a_path. by split.
  - by exists 7.
Defined.

(** With O_TMPFILE, O_DIRECTORY and O_RDWR the system takes the mode, and the
    hook does not pass it on. *)
Lemma tmpfile_mode_lost :
  w_libc (hooked_call (Open b_path 0x404002 (Some 7)) memory_world).2 = [Open b_path 0x404002 None] ∧
  w_libc (direct (libc_call (Open b_path 0x404002 (Some 7))) memory_world).2 = [Open b_path 0x404002 (Some 7)].
Proof. split; vm_compute; reflexivity. Qed.

Lemma empty_world_ok {F Fac} : world_ok (@empty_world F Fac).
Proof. split; [done..|constructor|constructor]. Qed.

Lemma memory_world_ok : world_ok memory_world.
Proof. apply (register_safe (HookParams a_path (MemoryFactory _))). apply empty_world_ok. Qed.

Lemma registry_safe_witness :
  world_ok (happens (Call (Fopen a_path [])) memory_world).2 ∧
  others None memory_world (happens (Call (Fopen a_path [])) memory_world).2.
Proof. exact (registry_safe (Call (Fopen a_path [])) memory_world memory_world_ok). Defined.

Definition session_ops : list fop := [OpRead 4; OpRead 4; OpSeek 1; OpWrite [9; 9]; OpRead 1; OpSeek 6; OpRead 2; OpSeek 0].

Lemma memory_session_witness :
  fst ((fp ← hook_fopen a_path []; mapM (hooked_op fp) (take 6 session_ops)) memory_world) =
    Ret [RBytes [1; 2; 3; 4]; RBytes [5; 6]; RDone; RCount 2; RBytes [4]; RDone] ∧
  ∃ fp p s1 front rest rs f',
    hook_fopen a_path [] memory_world = (Ret fp, s1) ∧ w_libc s1 = [] ∧ session_ops = front ++ rest ∧
    mapM (hooked_op fp) front s1 = (Ret rs, update_file p f' s1) ∧
    afile_runs front (abs (file_of [1; 2; 3; 4; 5; 6])) rs (abs f') ∧
    (rest = [] ∨ ∃ op rest', rest = op :: rest' ∧ at_end op (abs f')).
Proof.
  split; [vm_compute; reflexivity|].
  destruct (MemoryFile_copy_ok [1; 2; 3; 4; 5; 6] 6) as (f & E & Hok & _); [lia|cbn; lia|].
  assert (Hf : file_of [1; 2; 3; 4; 5; 6] = f) by (unfold file_of; change (Z.of_nat (length [1; 2; 3; 4; 5; 6])) with 6; by rewrite E).
  apply (memory_session (regex := sample_regex) 0 [] 0 (make_inside_hook_params (HookParams a_path (MemoryFactory [1; 2; 3; 4; 5; 6]))) [] a_path
    a_path [] (file_of [1; 2; 3; 4; 5; 6]) [] memory_world session_ops);
    [done|constructor|done|vm_compute; reflexivity|done|vm_compute; reflexivity|by rewrite Hf|lia|vm_compute; reflexivity|].
  change (len (file_of [1; 2; 3; 4; 5; 6])) with 6.
  repeat (apply Forall_cons; split); cbn; try lia; [split; [done|lia]|by constructor].
Defined.

Definition fd_world : @world memory_file memory_factory (list call) sample_regex :=
  set_g_hook {[5 := 64]} (set_objects {[64 := FileHookObject 0 a_path 128 (set_off 3 (file_of [1; 2; 3; 4; 5; 6]))]} empty_world).

Lemma positional_io_witness :
  fst (hook_pread 5 (replicate 4 0) 4 1 fd_world) = Ret (4, [2; 3; 4; 5]) ∧
  hook_pread 5 (replicate 4 0) 4 1 fd_world = (Ret (4, [2; 3; 4; 5]), fd_world).
Proof.
  split; [vm_compute; reflexivity|].
  assert (Hh : holds (u64 5) 64 (set_off 3 (file_of [1; 2; 3; 4; 5; 6])) fd_world) by done.
  assert (Hok : mf_ok 0 (set_off 3 (file_of [1; 2; 3; 4; 5; 6]))) by (split; vm_compute; intuition discriminate).
  destruct (positional_io 0 5 64 (set_off 3 (file_of [1; 2; 3; 4; 5; 6])) fd_world 1 Hh Hok) as [H _]; [vm_compute; reflexivity|vm_compute; intuition discriminate|].
  specialize (H 4%nat ltac:(lia) ltac:(lia) ltac:(vm_compute; reflexivity)). exact H.
Defined.

(** *** What goes wrong

    lstat, stat, rename and access ask the filter and take the answer the wrong
    way round: a file that does not exist is still there, and one in memory is
    renamed on disk. *)
Lemma none_not_hidden :
  hook_access a_path 0 none_world = (Ret 0, (hook_access a_path 0 none_world).2) ∧
  w_libc (hook_access a_path 0 none_world).2 = [Access a_path 0] ∧
  fst (hook_stat a_path (replicate stat_size 7) none_world) = Ret (0, replicate stat_size 7) ∧
  w_libc (hook_rename a_path b_path memory_world).2 = [Rename a_path b_path].
Proof. by vm_compute. Qed.

(** With a filter that does not handle the call, they return a variable nobody
    has written. *)
Lemma unhandled_access_undefined {F O} {filter : Filter F} {libc : Libc O} path mode (f f' : F) fd (l : O) mem :
  before_access mode f = (Ret (false, None), f') →
  file_hook_access path mode (Menv f fd l mem) = (Err Undefined, Menv f' fd l mem).
Proof. intros H. unfold file_hook_access, filt, mbind, CM_bind. cbn [call_back m_fd m_libc m_mem]. by rewrite H. Qed.

(** open takes the number of the file, which before_open has put in place of a
    pointer, for a pointer. *)
Lemma open_dereferences_fd : fst (hook_open a_path 0 None memory_world) = Err Segv.
Proof. by vm_compute. Qed.
Lemma open_none_dereferences : fst (hook_open a_path 0 None none_world) = Err Segv.
Proof. by vm_compute. Qed.

(** A file that is refused leaves its object behind. *)
Lemma refused_leaks :
  fst (hook_fopen a_path [] none_world) = Ret 0 ∧
  size (objects (hook_fopen a_path [] none_world).2) = 1%nat ∧ size (g_hook (hook_fopen a_path [] none_world).2) = 0%nat.
Proof. by vm_compute. Qed.

(** The end of a file in memory, and its fclose, reach the system with the
    address of the memory_file for a FILE. *)
Lemma end_reaches_libc :
  let fp := 4160 in
  let s := (_ ← hook_fseek fp 6 SEEK_SET; hook_fread [0; 0] 1 2 fp) opened_world in
  fst (hook_fopen a_path [] memory_world) = Ret fp ∧
  fst s = Ret (0, [0; 0]) ∧ w_libc s.2 = [Fread [0; 0] 1 2 fp] ∧
  w_libc (hook_fclose fp opened_world).2 = [Fclose fp].
Proof. by vm_compute. Qed.

(** fread counts bytes instead of items, and SEEK_END starts at the last byte of
    the block. *)
Lemma fread_counts_bytes :
  fst (hook_fread (replicate 6 0) 2 3 4160 opened_world) = Ret (6, [1; 2; 3; 4; 5; 6]).
Proof. by vm_compute. Qed.
Lemma seek_end_capacity :
  fst ((_ ← hook_fseek 4160 0 SEEK_END; hook_ftell 4160) opened_world) = Ret 8.
Proof. by vm_compute. Qed.

(** A second registration of an expression returns 0, which is the handle of
    the first file: giving it back removes that one. *)
Lemma second_registration :
  let s := register_file_hook (HookParams b_path (MemoryFactory [])) memory_world in
  let t := register_file_hook (HookParams b_path (MemoryFactory [])) s.2 in
  s.1 = Ret 1 ∧ t.1 = Ret 0 ∧ fst <$> hook_file_list t.2 = [0; 1] ∧
  fst <$> hook_file_list (unregister_file_hook 0 t.2).2 = [1].
Proof. by vm_compute. Qed.

(** popen of a command that is not hooked opens a file. *)
Lemma popen_opens : w_libc (hook_popen b_path [114] memory_world).2 = [Fopen b_path [114]].
Proof. by vm_compute. Qed.
