(* ===== verification/DlOpen.v ===== *)
(** * The fake dlopen and dlsym

    dlfc/dlfcn_nougat.cpp and byopen/byopen_android.c: the system's dlopen is
    closed to applications, so a library is looked for in /proc/self/maps, its
    file is mapped again and its symbols are read there. *)

From S2P Require Import Prelude CMem XhUtil XhElfReloc XhElfTypes.

#[local] Open Scope cint_scope.

(** ** Files and the heap

    open takes the number of the attempt and gives a descriptor and errno;
    [f_size] is what fstat and lseek say; [f_mmap m len fd] is a mapping for
    reading, [None] where it fails; [f_malloc] says whether malloc succeeds. *)
Class Files : Type := {
  f_open : nat → list Z → memory → Z * Z;
  f_size : Z → memory → option Z;
  f_mmap : memory → Z → Z → option Z * memory;
  f_munmap : memory → Z → Z → memory;
  f_malloc : Z → bool
}.

(** elf.h *)
Definition e_shoff (eh : Z) : CM memory Z := load64 (eh ⊕ 40).
Definition e_phentsize (eh : Z) : CM memory Z := load16 (eh ⊕ 54).
Definition e_shentsize (eh : Z) : CM memory Z := load16 (eh ⊕ 58).
Definition e_shnum (eh : Z) : CM memory Z := load16 (eh ⊕ 60).
Definition e_shstrndx (eh : Z) : CM memory Z := load16 (eh ⊕ 62).
Definition sh_name (sh : Z) : CM memory Z := load32 sh.
Definition sh_type (sh : Z) : CM memory Z := load32 (sh ⊕ 4).
Definition sh_addr (sh : Z) : CM memory Z := load64 (sh ⊕ 16).
Definition sh_offset (sh : Z) : CM memory Z := load64 (sh ⊕ 24).
Definition sh_size (sh : Z) : CM memory Z := load64 (sh ⊕ 32).
Definition st_value (sym : Z) : CM memory Z := load64 (sym ⊕ 8).
Definition SIZEOF_EHDR : Z := 64.
Definition SIZEOF_SHDR : Z := 64.
Definition SHT_PROGBITS : Z := 1.
Definition SHT_SYMTAB : Z := 2.
Definition SHT_STRTAB : Z := 3.
Definition SHT_DYNSYM : Z := 11.

(** The text from the first occurrence of [needle] on. *)
Fixpoint strstr_from (hay needle : list Z) : option (list Z) :=
  if strncmp_prefix needle hay then Some hay
  else match hay with [] => None | _ :: hay => strstr_from hay needle end.

Definition str (s : string) : list Z := bytes_of_string s.

(** ** dlfcn_nougat.cpp *)

Section dlfc.
Context {K : Kernel} {files : Files}.

(** What malloc gives is the list of its bytes. *)
Record elf_info : Set := ElfInfo {
  full_path : list Z;
  load_addr : Z;
  end_addr : Z;
  dynstr : option (list Z);
  dynsym : option (list Z);
  nsyms : Z;
  bias : Z;
  file_size : Z
}.
Definition set_dynstr v e := ElfInfo (full_path e) (load_addr e) (end_addr e) v (dynsym e) (nsyms e) (bias e) (file_size e).
Definition set_dynsym v n e := ElfInfo (full_path e) (load_addr e) (end_addr e) (dynstr e) v n (bias e) (file_size e).
Definition set_bias v e := ElfInfo (full_path e) (load_addr e) (end_addr e) (dynstr e) (dynsym e) (nsyms e) v (file_size e).

Definition fake_dlclose (e : option elf_info) : CM memory Z := mret 0.

(** [sscanf(buff, "%lx-%lx", &load_addr, &end_addr) == 2] *)
Definition sscanf_range (line : list Z) : option (Z * Z) :=
  match scan_hex line with
  | Some (start, c :: l) =>
      if c =? 45 then match scan_hex l with Some (end_, _) => Some (start, end_) | None => None end else None
  | _ => None
  end.

(** The lines through a buffer of 256 bytes. *)
Definition maps_lines_256 (text : list Z) : list (list Z) := fgets_all (length text) 255 text.

Definition is_line_end (c : Z) : bool := (c =? 13) || (c =? 10) || (c =? 9).
(** [full_path.find_last_not_of] and [erase]; a path of such characters alone is
    left as it is. *)
Definition erase_line_end (path : list Z) : list Z :=
  match (fix strip (l : list Z) : list Z :=
           match l with [] => [] | c :: l' => if is_line_end c then strip l' else l end) (rev path) with
  | [] => path
  | l => rev l
  end.

Definition find_module (lines : list (list Z)) (libpath : list Z) : option (list Z) :=
  List.find (λ line, strstr line (str "r-xp") && strstr line libpath) (cstr <$> lines).

Definition copy_bytes (n : nat) (a : Z) : CM memory (list Z) := mapM (λ i, load8 (a ⊕ Z.of_nat i)) (seq 0 n).

(** The loop over the sections: [None] where it is left by [fatal]. *)
Fixpoint section_loop (fuel : nat) (elf shoff : Z) (e : elf_info) : CM memory (option elf_info) :=
  match fuel with
  | O => mret (Some e)
  | S fuel =>
      let next e := (size ← e_shentsize elf; section_loop fuel elf (shoff ⊕ size) e) in
      type ← sh_type shoff;
      if type =? SHT_DYNSYM then
        match dynsym e with
        | Some _ => mret None
        | None =>
            size ← sh_size shoff;
            if negb (f_malloc size) then mret None
            else
              offset ← sh_offset shoff;
              bytes ← copy_bytes (Z.to_nat size) (elf ⊕ offset);
              next (set_dynsym (Some bytes) (sint 32 (size / SIZEOF_SYM)) e)
        end
      else if type =? SHT_STRTAB then
        match dynstr e with
        | Some _ => next e
        | None =>
            size ← sh_size shoff;
            if negb (f_malloc size) then mret None
            else
              offset ← sh_offset shoff;
              bytes ← copy_bytes (Z.to_nat size) (elf ⊕ offset);
              next (set_dynstr (Some bytes) e)
        end
      else if type =? SHT_PROGBITS then
        match dynstr e, dynsym e with
        | Some _, Some _ =>
            addr ← sh_addr shoff;
            offset ← sh_offset shoff;
            mret (Some (set_bias (addr ⊖ offset) e))
        | _, _ => next e
        end
      else next e
  end.

Definition munmap (a len : Z) : CM memory unit := modify (λ m, f_munmap m a len).

Definition fake_dlopen (libpath : list Z) (flags : Z) : CM memory (option elf_info) :=
  if negb (f_malloc 80) then mret None
  else
  maps ← gets k_maps;
  match maps with
  | None => mret None
  | Some text =>
      match find_module (maps_lines_256 text) libpath with
      | None => mret None
      | Some buff =>
          full_path ← lift_opt Undefined (strstr_from buff (str "/"));
          let full_path := erase_line_end full_path in
          match sscanf_range buff with
          | None => mret None
          | Some (load_addr, end_addr) =>
              '(fd, _) ← gets (f_open 0 full_path);
              if fd <? 0 then mret None
              else
                size ← gets (f_size fd);
                let size := default (-1) size in
                if size <=? 0 then mret None
                else
                  m ← get;
                  let '(elf, m) := f_mmap m size fd in
                  _ ← put m;
                  match elf with
                  | None => mret None
                  | Some elf =>
                      shoff ← e_shoff elf;
                      shnum ← e_shnum elf;
                      e ← section_loop (Z.to_nat shnum) elf (elf ⊕ shoff)
                            (ElfInfo full_path load_addr end_addr None None 0 0 size);
                      _ ← munmap elf size;
                      match e with
                      | None => mret None
                      | Some e =>
                          match dynstr e, dynsym e with
                          | Some _, Some _ => mret (Some e)
                          | _, _ => _ ← munmap 0 size; mret None
                          end
                      end
                  end
          end
      end
  end.

(** A little-endian number, and strcmp, in a buffer of the heap. *)
Definition buf_number (n : nat) (off : Z) (buf : list Z) : option Z :=
  if (0 <=? off) && (off + Z.of_nat n <=? Z.of_nat (length buf))
  then Some (foldr (λ b v, b + 256 * v) 0 (take n (drop (Z.to_nat off) buf))) else None.
Fixpoint buf_strcmp (buf s : list Z) : option bool :=
  match buf, s with
  | [], _ => None
  | b :: _, [] => Some (b =? 0)
  | b :: buf, c :: s => if b =? c then buf_strcmp buf s else Some false
  end.

Fixpoint dlsym_loop (n : nat) (k : Z) (sym strings : list Z) (e : elf_info) (name : list Z) : CM memory Z :=
  match n with
  | O => mret 0
  | S n =>
      st_name ← lift_opt Undefined (buf_number 4 (SIZEOF_SYM * k) sym);
      eq ← lift_opt Undefined (buf_strcmp (drop (Z.to_nat st_name) strings) name);
      if eq : bool then
        st_value ← lift_opt Undefined (buf_number 8 (SIZEOF_SYM * k + 8) sym);
        mret (load_addr e ⊕ st_value ⊖ bias e)
      else dlsym_loop n (k + 1) sym strings e name
  end.

(** Without symbols and strings it reads from null. *)
Definition fake_dlsym (e : elf_info) (name : list Z) : CM memory Z :=
  match dynsym e, dynstr e with
  | Some sym, Some strings => dlsym_loop (Z.to_nat (nsyms e)) 0 sym strings e name
  | _, _ => if nsyms e <=? 0 then mret 0 else fail Segv
  end.

(** The C string it returns a pointer to. *)
Definition fake_get_sym_name (handle : elf_info) (index : Z) : CM memory (list Z) :=
  match dynsym handle, dynstr handle with
  | Some sym, Some strings =>
      st_name ← lift_opt Undefined (buf_number 4 (SIZEOF_SYM * index) sym);
      mret (cstr (drop (Z.to_nat st_name) strings))
  | _, _ => fail Segv
  end.

(** [%ld]: what is left behind the number. *)
Fixpoint skip_digits (l : list Z) : list Z :=
  match l with c :: l' => if (48 <=? c) && (c <=? 57) then skip_digits l' else l | [] => [] end.
Definition scan_long (l : list Z) : option (list Z) :=
  let l := skip_space l in
  let l := match l with c :: l' => if (c =? 45) || (c =? 43) then l' else l | [] => l end in
  match l with
  | c :: l' => if (48 <=? c) && (c <=? 57) then Some (skip_digits l') else None
  | [] => None
  end.
(** One character of the format. *)
Definition scan_literal (c : Z) (l : list Z) : option (list Z) :=
  match l with d :: l => if d =? c then Some l else None | [] => None end.

(** The scan of fake_enumerate_module: the permissions and the text at
    [path_index], when it makes its seven assignments. *)
Definition sscanf_module (line : list Z) : option (list Z * list Z) :=
  '(_, l) ← scan_hex line;
  l ← scan_literal 45 l;
  '(_, l) ← scan_hex l;
  let l := skip_space l in
  let permissions := take 4 l in
  if (length permissions <? 4)%nat then None
  else
    '(_, l) ← scan_hex (drop 4 l);
    '(_, l) ← scan_hex l;
    l ← scan_literal 58 l;
    '(_, l) ← scan_hex l;
    l ← scan_long l;
    Some (permissions, skip_space l).

(** The path given to the callback, if the line gets that far. *)
Definition module_path (line : list Z) : option (list Z) :=
  '(permissions, path_buffer) ← sscanf_module line;
  if negb (strstr permissions (str "r-xp")) then None
  else
    match path_buffer with
    | [] => None
    | c :: _ =>
        if (c =? 10) || (c =? 91) then None
        else Some (if bool_decide (last path_buffer = Some 10) then removelast path_buffer else path_buffer)
    end.

Fixpoint enumerate_loop {S} (callback : list Z → CM S bool) (lines : list (list Z)) : CM S unit :=
  match lines with
  | [] => mret tt
  | line :: lines =>
      match module_path (cstr line) with
      | None => enumerate_loop callback lines
      | Some path =>
          stop ← callback path;
          if stop : bool then mret tt else enumerate_loop callback lines
      end
  end.

Definition fake_enumerate_module (callback : list Z → CM memory bool) : CM memory bool :=
  maps ← gets k_maps;
  match maps with
  | None => mret false
  | Some text => _ ← enumerate_loop callback (maps_lines_256 text); mret true
  end.

End dlfc.

(** ** byopen_android.c *)

Section byopen.
Context {K : Kernel} {files : Files}.

Definition BY_FAKE_DLCTX_MAGIC : Z := 0xfaddfadd.

(** Pointers are addresses, null is 0. *)
Record by_fake_dlctx_t : Set := DlCtx {
  magic : Z;
  baseaddr : Z;
  biasaddr : Z;
  dynstr_ : Z;
  dynsym_ : Z;
  dynsym_num : Z;
  strtab_ : Z;
  symtab_ : Z;
  symtab_num : Z;
  filedata : Z;
  filesize : Z
}.
Definition set_file v sz c := DlCtx (magic c) (baseaddr c) (biasaddr c) (dynstr_ c) (dynsym_ c) (dynsym_num c) (strtab_ c) (symtab_ c) (symtab_num c) v sz.
Definition set_biasaddr v c := DlCtx (magic c) (baseaddr c) v (dynstr_ c) (dynsym_ c) (dynsym_num c) (strtab_ c) (symtab_ c) (symtab_num c) (filedata c) (filesize c).
Definition set_dynstr_ v c := DlCtx (magic c) (baseaddr c) (biasaddr c) v (dynsym_ c) (dynsym_num c) (strtab_ c) (symtab_ c) (symtab_num c) (filedata c) (filesize c).
Definition set_dynsym_ v n c := DlCtx (magic c) (baseaddr c) (biasaddr c) (dynstr_ c) v n (strtab_ c) (symtab_ c) (symtab_num c) (filedata c) (filesize c).
Definition set_strtab_ v c := DlCtx (magic c) (baseaddr c) (biasaddr c) (dynstr_ c) (dynsym_ c) (dynsym_num c) v (symtab_ c) (symtab_num c) (filedata c) (filesize c).
Definition set_symtab_ v n c := DlCtx (magic c) (baseaddr c) (biasaddr c) (dynstr_ c) (dynsym_ c) (dynsym_num c) (strtab_ c) v n (filedata c) (filesize c).

(** The scan of by_fake_find_maps: start, attributes, offset and the text at
    [pos], which stays 0 where the rest does not fit. *)
Definition sscanf_maps_offset (line : list Z) : option (Z * list Z * Z * list Z) :=
  '(start, l) ← scan_hex line;
  l ← scan_literal 45 l;
  '(_, l) ← scan_hex l;
  let l := skip_space l in
  let page_attr := take_token 4 l in
  if bool_decide (page_attr = []) then None
  else
    '(offset, l) ← scan_hex (drop (length page_attr) l);
    let pos :=
      ('(_, l) ← scan_hex l; l ← scan_literal 58 l; '(_, l) ← scan_hex l; scan_long l) in
    Some (start, page_attr, offset, default line pos).

Definition trim (p : list Z) : list Z := rev (skip_space (rev (skip_space p))).

(** [strlcpy(realpath, src, n)] *)
Definition strlcpy (n : nat) (src : list Z) : list Z := take (n - 1) src.

(** The loop over the lines: the base address, and the path if it was written;
    [page_attr] is an array of ten characters that keeps what it has. *)
Fixpoint find_maps_loop (lines : list (list Z)) (filename : list Z) (page_attr : list (option Z)) : outcome (Z * option (list Z)) :=
  match lines with
  | [] => Ret (0, None)
  | line :: lines =>
      let line := cstr line in
      if strstr line filename then
        match sscanf_maps_offset line with
        | None => Ret (0, None)
        | Some (start, token, offset, rest) =>
            let page_attr := perm_store token page_attr in
            obind (perm_get page_attr 2) (λ x,
            if negb (x =? 120) then find_maps_loop lines filename page_attr
            else if negb (offset <? start) then find_maps_loop lines filename page_attr
            else
              Ret (start ⊖ offset,
                   Some (match filename with
                         | 47 :: _ => strlcpy 512 filename
                         | _ => strlcpy 512 (trim rest)
                         end)))
        end
      else find_maps_loop lines filename page_attr
  end.

Definition by_fake_find_maps (filename : list Z) : CM memory (Z * option (list Z)) :=
  maps ← gets k_maps;
  match maps with
  | None => mret (0, None)
  | Some text => lift_outcome (find_maps_loop (maps_lines text) filename (replicate 10 None))
  end.

Definition EINTR : Z := 4.

(** The data of the file, null where it fails, and its size. *)
Definition by_fake_open_file (filepath : list Z) : CM memory (Z * Z) :=
  '(fd, errno) ← gets (f_open 0 filepath);
  '(fd, _) ← (if (fd <? 0) && (errno =? EINTR) then gets (f_open 1 filepath) else mret (fd, errno));
  if negb (0 <? fd) then mret (0, 0)
  else
    st_size ← gets (f_size fd);
    match st_size with
    | None => mret (0, 0)
    | Some st_size =>
        if st_size =? 0 then mret (0, 0)
        else
          m ← get;
          let '(data, m) := f_mmap m st_size fd in
          _ ← put m;
          match data with
          | None => mret (2 ^ 64 - 1, 0)
          | Some data => mret (data, if data =? 0 then 0 else st_size)
          end
    end.

(** One of the two loops over symbols; [end_] is the end of the file. *)
Fixpoint by_sym_loop (n : nat) (sym strings end_ : Z) (symbol : list Z) (c : by_fake_dlctx_t) : CM memory (option Z) :=
  match n with
  | O => mret None
  | S n =>
      st_name ← st_name sym;
      let name := strings ⊕ st_name in
      eq ← (if name <? end_ then strcmp_eq symbol name else mret false);
      st_value ← (if eq : bool then st_value sym else mret 0);
      if (eq : bool) && (biasaddr c <? baseaddr c ⊕ st_value) then mret (Some (baseaddr c ⊕ st_value ⊖ biasaddr c))
      else by_sym_loop n (sym ⊕ SIZEOF_SYM) strings end_ symbol c
  end.

Definition by_fake_dlsym (c : by_fake_dlctx_t) (symbol : list Z) : CM memory Z :=
  if (filedata c =? 0) || (filesize c =? 0) then mret 0
  else
    let end_ := filedata c ⊕ filesize c in
    found ← (if truthy (dynsym_ c) && truthy (dynstr_ c)
             then by_sym_loop (Z.to_nat (dynsym_num c)) (dynsym_ c) (dynstr_ c) end_ symbol c else mret None);
    match found with
    | Some a => mret a
    | None =>
        found ← (if truthy (symtab_ c) && truthy (strtab_ c)
                 then by_sym_loop (Z.to_nat (symtab_num c)) (symtab_ c) (strtab_ c) end_ symbol c else mret None);
        mret (default 0 found)
    end.

Definition by_fake_dlclose (c : option by_fake_dlctx_t) : CM memory Z :=
  match c with
  | None => mret (-1)
  | Some c => _ ← when (truthy (filedata c)) (munmap (filedata c) (filesize c)); mret 0
  end.

(** The first PT_LOAD at the start of the file; a header out of the file ends
    the search. *)
Fixpoint by_phdr_loop (n : nat) (elf ph end_ : Z) : CM memory (option Z) :=
  match n with
  | O => mret None
  | S n =>
      if ph =? 0 then mret None
      else if end_ <? ph ⊕ SIZEOF_PHDR then mret None
      else
        type ← p_type ph;
        offset ← (if type =? PT_LOAD then p_offset ph else mret 1);
        if offset =? 0 then vaddr ← p_vaddr ph; mret (Some vaddr)
        else size ← e_phentsize elf; by_phdr_loop n elf (ph ⊕ size) end_
  end.

(** The sections: the context and [broken].  A section out of the file ends the
    loop, and no more. *)
Fixpoint by_section_loop (n : nat) (elf sh shstr end_ : Z) (c : by_fake_dlctx_t) : CM memory (by_fake_dlctx_t * bool) :=
  match n with
  | O => mret (c, false)
  | S n =>
      let next c := (size ← e_shentsize elf; by_section_loop n elf (sh ⊕ size) shstr end_ c) in
      if sh =? 0 then mret (c, false)
      else if end_ <? sh ⊕ SIZEOF_SHDR then mret (c, false)
      else
        name ← sh_name sh;
        if negb (shstr ⊕ name <? end_) then mret (c, false)
        else
          offset ← sh_offset sh;
          let data := filedata c ⊕ offset in
          if negb (data <? end_) then mret (c, false)
          else
            type ← sh_type sh;
            if type =? SHT_DYNSYM then
              if truthy (dynsym_ c) then mret (c, true)
              else size ← sh_size sh; next (set_dynsym_ data (sint 32 (size / SIZEOF_SYM)) c)
            else if type =? SHT_SYMTAB then
              if truthy (symtab_ c) then mret (c, true)
              else size ← sh_size sh; next (set_symtab_ data (sint 32 (size / SIZEOF_SYM)) c)
            else if type =? SHT_STRTAB then
              is_dynstr ← strcmp_eq (str ".dynstr") (shstr ⊕ name);
              if is_dynstr : bool then next (if truthy (dynstr_ c) then c else set_dynstr_ data c)
              else
                is_strtab ← strcmp_eq (str ".strtab") (shstr ⊕ name);
                if is_strtab : bool then next (if truthy (strtab_ c) then c else set_strtab_ data c)
                else next c
            else next c
  end.

(** The part of by_fake_dlopen behind the open file: what the [do] block leaves
    in the context, and [ok]. *)
Definition by_parse_elf (c : by_fake_dlctx_t) : CM memory (by_fake_dlctx_t * bool) :=
  let elf := filedata c in
  let end_ := filedata c ⊕ filesize c in
  if negb (elf ⊕ SIZEOF_EHDR <? end_) then mret (c, false)
  else
    phoff ← e_phoff elf;
    phnum ← e_phnum elf;
    bias ← by_phdr_loop (Z.to_nat phnum) elf (elf ⊕ phoff) end_;
    match bias with
    | None => mret (c, false)
    | Some vaddr =>
        let c := set_biasaddr vaddr c in
        shoff ← e_shoff elf;
        shstrndx ← e_shstrndx elf;
        shentsize ← e_shentsize elf;
        let shstrtab := elf ⊕ shoff ⊕ shstrndx * shentsize in
        if 2 ^ 31 <=? shstrndx * shentsize then fail Undefined
        else if end_ <? shstrtab ⊕ SIZEOF_SHDR then mret (c, false)
        else
          offset ← sh_offset shstrtab;
          let shstr := elf ⊕ offset in
          if negb (shstr <? end_) then mret (c, false)
          else
            shnum ← e_shnum elf;
            '(c, broken) ← by_section_loop (Z.to_nat shnum) elf (elf ⊕ shoff) shstr end_ c;
            mret (c, negb broken && truthy (dynstr_ c) && truthy (dynsym_ c))
    end.

Definition by_fake_dlopen (filename : list Z) (flag : Z) : CM memory (option by_fake_dlctx_t) :=
  '(baseaddr, realpath) ← by_fake_find_maps filename;
  if baseaddr =? 0 then mret None
  else if negb (f_malloc 88) then mret None
  else
    realpath ← lift_opt Undefined realpath;
    let c := DlCtx BY_FAKE_DLCTX_MAGIC baseaddr 0 0 0 0 0 0 0 0 0 in
    '(data, size) ← by_fake_open_file realpath;
    let c := set_file data size c in
    '(c, ok) ← (if truthy data && truthy size then by_parse_elf c else mret (c, false));
    if ok : bool then mret (Some c) else _ ← by_fake_dlclose (Some c); mret None.

(** JNI: a call of the function getJNIEnv, and System.load and loadLibrary,
    which say whether there was no exception. *)
Class Jni : Type := {
  call_getJNIEnv : Z → CM memory Z;
  by_jni_System_load : Z → list Z → CM memory bool;
  by_jni_System_loadLibrary : Z → list Z → CM memory bool
}.
Context {jni : Jni}.

(** [g_tls_jnienv] is passed and returned. *)
Definition by_jni_getenv (g_tls_jnienv : Z) : CM memory Z :=
  if negb (g_tls_jnienv =? 0) then mret g_tls_jnienv
  else
    dlctx ← by_fake_dlopen (str "libandroid_runtime.so") 2;
    match dlctx with
    | None => mret 0
    | Some c =>
        getJNIEnv ← by_fake_dlsym c (str "_ZN7android14AndroidRuntime9getJNIEnvEv");
        env ← (if truthy getJNIEnv then call_getJNIEnv getJNIEnv else mret 0);
        _ ← by_fake_dlclose (Some c);
        mret env
    end.

Definition by_dlopen (g_tls_jnienv : Z) (filename : list Z) (flag : Z) : CM memory (option by_fake_dlctx_t * Z) :=
  handle ← by_fake_dlopen filename flag;
  match handle with
  | Some c => mret (Some c, g_tls_jnienv)
  | None =>
      env ← by_jni_getenv g_tls_jnienv;
      if env =? 0 then mret (None, env)
      else
        loaded ← (if strstr filename (str "/") || strstr filename (str ".so") then by_jni_System_load env filename else mret false);
        loaded ← (if loaded : bool then mret true else by_jni_System_loadLibrary env filename);
        if loaded : bool then handle ← by_fake_dlopen filename flag; mret (handle, env)
        else mret (None, env)
  end.

(** Every handle comes from by_fake_dlopen. *)
Definition by_dlsym (handle : option by_fake_dlctx_t) (symbol : list Z) : CM memory Z :=
  match handle with
  | None => mret 0
  | Some c => if magic c =? BY_FAKE_DLCTX_MAGIC then by_fake_dlsym c symbol else fail Undefined
  end.
Definition by_dlclose (handle : option by_fake_dlctx_t) : CM memory Z :=
  match handle with
  | None => mret (-1)
  | Some c => if magic c =? BY_FAKE_DLCTX_MAGIC then by_fake_dlclose handle else fail Undefined
  end.

End byopen.
