(* ===== verification/DlOpenProps.v ===== *)
(** * The fake dlopen, proved

    What an ELF file says about its symbols, and that the two libraries find
    it: the address of the first symbol of the name, against the address the
    file was mapped at. *)

From S2P Require Import Prelude CMem XhUtil XhElfReloc XhElfRelocProps XhElfTypes XhUtilProps XhElfHash XhElfHashProps DobbyMem DobbyMemProps DlOpen.

#[local] Open Scope cint_scope.

(** ** A file and its mapping *)

(** The [n]-byte number at [off]. *)
Definition le (n : nat) (off : Z) (file : list Z) : Z := foldr (λ b v, b + 256 * v) 0 (take n (drop (Z.to_nat off) file)).
Definition bytes_of (off n : Z) (file : list Z) : list Z := take (Z.to_nat n) (drop (Z.to_nat off) file).

Definition mapped (m : memory) (a : Z) (file : list Z) : Prop :=
  ∀ i, (i < length file)%nat → byte_allows PROT_READ m (a + Z.of_nat i) = true ∧ file !! i = Some (byte_of m (a + Z.of_nat i)).

Lemma mapped_drop m a file k : mapped m a file → mapped m (a + Z.of_nat k) (drop k file).
Proof.
  intros H i Hi. rewrite length_drop in Hi. destruct (H (k + i)%nat) as [H1 H2]; [lia|].
  rewrite lookup_drop, H2. replace (a + Z.of_nat k + Z.of_nat i) with (a + Z.of_nat (k + i)) by lia. done.
Qed.

Lemma number_mapped m a file n :
  mapped m a file → (n ≤ length file)%nat →
  allows PROT_READ n a m = true ∧ number_of m n a = foldr (λ b v, b + 256 * v) 0 (take n file).
Proof.
  revert a file. induction n as [|n IH]; intros a file H Hn; [done|]. destruct file as [|b file]; [cbn in Hn; lia|].
  destruct (H 0%nat ltac:(cbn; lia)) as [Ha Hb]. rewrite Z.add_0_r in Ha, Hb. injection Hb as ->.
  destruct (IH (a + 1) file) as [H1 H2]; [by apply (mapped_drop m a (byte_of m a :: file) 1)|cbn in Hn; lia|].
  cbn [allows number_of take foldr]. rewrite Ha, H1, H2. done.
Qed.

Lemma load_file m a file n off :
  mapped m a file → 0 ≤ off → off + Z.of_nat n ≤ Z.of_nat (length file) →
  load n (a + off) m = (Ret (le n off file), m).
Proof.
  intros H Ho Hn. pose proof (mapped_drop m a file (Z.to_nat off) H) as Hd. rewrite Z2Nat.id in Hd by done.
  destruct (number_mapped m (a + off) (drop (Z.to_nat off) file) n Hd) as [H1 H2]; [rewrite length_drop; lia|].
  rewrite load_ok by done. by rewrite H2.
Qed.

Lemma copy_bytes_file m a file off n :
  mapped m a file → 0 < a → a + Z.of_nat (length file) < 2 ^ 63 → 0 ≤ off → 0 ≤ n → off + n ≤ Z.of_nat (length file) →
  copy_bytes (Z.to_nat n) (a ⊕ off) m = (Ret (bytes_of off n file), m).
Proof.
  intros H Ha Hmax Ho Hn Hlen. unfold bytes_of. rewrite <- (Z2Nat.id n Hn) in Hlen. set (k := Z.to_nat n) in *. clearbody k.
  rewrite (wrap_small 64) by lia. unfold copy_bytes.
  assert (Hgen : ∀ k' s, (s + k' ≤ k)%nat →
    mapM (λ i, load8 ((a + off) ⊕ Z.of_nat i)) (seq s k') m = (Ret (take k' (drop (Z.to_nat off + s) file)), m)).
  { induction k' as [|k' IH]; intros s Hs; [done|]. cbn [seq mapM].
    rewrite (wrap_small 64) by lia. replace (a + off + Z.of_nat s) with (a + (off + Z.of_nat s)) by lia.
    rewrite (CM_bind_Ret _ _ m _ _ (load_file m a file 1 (off + Z.of_nat s) H ltac:(lia) ltac:(lia))).
    rewrite (CM_bind_Ret _ _ m _ _ (IH (S s) ltac:(lia))). unfold mret, CM_ret. do 2 f_equal. unfold le.
    rewrite Z2Nat.inj_add, Nat2Z.id by lia.
    destruct (drop (Z.to_nat off + s) file) as [|b l] eqn:E.
    { apply (f_equal length) in E. rewrite length_drop in E. cbn in E. lia. }
    replace (Z.to_nat off + S s)%nat with (Z.to_nat off + s + 1)%nat by lia.
    rewrite <- drop_drop, E. change (drop 1 (b :: l)) with l. cbn [take foldr]. f_equal. apply Z.add_0_r. }
  rewrite (Hgen k 0%nat) by lia. by rewrite Nat.add_0_r.
Qed.

(** The operating system: a mapping of a file is at a place that was free, and
    what was mapped stays as it is. *)
Definition kept (m m' : memory) : Prop :=
  ∀ b, is_Some (m_prot m !! (b / PAGE_SIZE)) →
    m_prot m' !! (b / PAGE_SIZE) = m_prot m !! (b / PAGE_SIZE) ∧ m_data m' !! b = m_data m !! b.

#[global] Instance kept_preorder : PreOrder kept.
Proof.
  split; [by intros m b|]. intros m1 m2 m3 H1 H2 b Hb. destruct (H1 b Hb) as [P1 D1].
  destruct (H2 b) as [P2 D2]; [by rewrite P1|]. split; congruence.
Qed.

Class FilesLaws (files : Files) (f_bytes : Z → list Z) : Prop := {
  f_size_bytes fd m n : f_size fd m = Some n → n = Z.of_nat (length (f_bytes fd));
  f_mmap_maps m len fd a m' :
    f_mmap m len fd = (Some a, m') → 0 < len → len = Z.of_nat (length (f_bytes fd)) →
    0 < a ∧ a + len < 2 ^ 48 ∧ mapped m' a (f_bytes fd) ∧
    ∀ m'', kept m' m'' → kept m (f_munmap m'' a len)
}.

(** ** What a file says *)

Record shdr : Set := Shdr { s_name : Z; s_type : Z; s_addr : Z; s_offset : Z; s_size : Z }.
Definition shdr_at (o : Z) (file : list Z) : shdr :=
  Shdr (le 4 o file) (le 4 (o + 4) file) (le 8 (o + 16) file) (le 8 (o + 24) file) (le 8 (o + 32) file).
(** The headers from [o] on, [size] bytes each. *)
Fixpoint shdrs (n : nat) (o size : Z) (file : list Z) : list shdr :=
  match n with O => [] | S n => shdr_at o file :: shdrs n (o + size) size file end.
Definition sections (file : list Z) : list shdr :=
  shdrs (Z.to_nat (le 2 60 file)) (le 8 40 file) (le 2 58 file) file.
Definition contents (s : shdr) (file : list Z) : list Z := bytes_of (s_offset s) (s_size s) file.

(** A section is in the file. *)
Definition in_file (file : list Z) (s : shdr) : Prop := s_offset s + s_size s ≤ Z.of_nat (length file).

(** The table of sections is in the file. *)
Record elf_file (file : list Z) : Prop := {
  ef_header : 64 ≤ Z.of_nat (length file);
  ef_shent : 64 ≤ le 2 58 file;
  ef_table : le 8 40 file + le 2 60 file * le 2 58 file ≤ Z.of_nat (length file);
  ef_bytes : Forall (λ b, 0 ≤ b < 256) file
}.

Lemma le_range n off file : Forall (λ b, 0 ≤ b < 256) file → 0 ≤ le n off file < 2 ^ (8 * Z.of_nat n).
Proof.
  intros H. unfold le. apply (Forall_drop _ (Z.to_nat off)) in H. revert H. generalize (drop (Z.to_nat off) file).
  induction n as [|n IH]; intros l Hl; [by split|]. destruct Hl as [|b l Hb Hl]; [split; [done|by apply Z.pow_pos_nonneg; lia]|].
  cbn [firstn foldr]. specialize (IH l Hl). replace (8 * Z.of_nat (S n)) with (8 + 8 * Z.of_nat n) by lia.
  rewrite Z.pow_add_r by lia. change (2 ^ 8) with 256. nia.
Qed.

Lemma le8_range off file : Forall (λ b, 0 ≤ b < 256) file → 0 ≤ le 8 off file < 2 ^ 64.
Proof. apply (le_range 8). Qed.

(** The program headers. *)
Record phdr : Set := Phdr { ph_type : Z; ph_offset : Z; ph_vaddr : Z }.
Fixpoint phdrs (n : nat) (o size : Z) (file : list Z) : list phdr :=
  match n with O => [] | S n => Phdr (le 4 o file) (le 8 (o + 8) file) (le 8 (o + 16) file) :: phdrs n (o + size) size file end.
Definition segments (file : list Z) : list phdr := phdrs (Z.to_nat (le 2 56 file)) (le 8 32 file) (le 2 54 file) file.

(** *** How the system loads it

    The load bias [B] is what the addresses of the file are moved by.  A segment
    is mapped page by page: its address and its offset agree within a page, and
    its line in the maps shows the address and the offset of its first page. *)
Definition page_of (v : Z) : Z := v - v mod PAGE_SIZE.
Record loaded_segment (file : list Z) (B : Z) (x : phdr) (start off : Z) : Prop := {
  ls_segment : x ∈ segments file;
  ls_load : ph_type x = PT_LOAD;
  ls_congruent : ph_vaddr x mod PAGE_SIZE = ph_offset x mod PAGE_SIZE;
  ls_start : start = B ⊕ page_of (ph_vaddr x);
  ls_offset : off = page_of (ph_offset x)
}.

(** *** Symbols

    The entry of a symbol table at [o]. *)
Record esym : Set := Esym { y_name : Z; y_info : Z; y_shndx : Z; y_value : Z }.
Definition esym_at (o : Z) (l : list Z) : esym := Esym (le 4 o l) (le 1 (o + 4) l) (le 2 (o + 6) l) (le 8 (o + 8) l).
Definition symbol_at (tab : list Z) (k : nat) : esym := esym_at (SIZEOF_SYM * Z.of_nat k) tab.
Definition symbols (tab : list Z) : list esym := symbol_at tab <$> seq 0 (length tab / 24).
Definition string_at (strs : list Z) (n : Z) : list Z := cstr (drop (Z.to_nat n) strs).
(** The first symbol of that name. *)
Definition first_named (syms : list esym) (strs name : list Z) : option esym :=
  List.find (λ y, bool_decide (string_at strs (y_name y) = name)) syms.

(** The address of a symbol in a library loaded with the bias [B].  One that the
    library imports has none in it, an absolute one is not moved, a thread-local
    one is in every thread, and that of an indirect function is the resolver's. *)
Definition symbol_address (B : Z) (y : esym) : option Z :=
  if (y_shndx y =? 0) || (y_shndx y =? 0xfff1) || (y_info y mod 16 =? 6) || (y_info y mod 16 =? 10) then None
  else Some (B ⊕ y_value y).

(** What the two libraries answer for a symbol they find: its address; they do
    not see that one has none, and add its value to the bias. *)
Definition answer (B : Z) (o : option esym) : Z :=
  match o with
  | Some y => match symbol_address B y with Some a => a | None => B ⊕ y_value y end
  | None => 0
  end.
Lemma answer_value B o : answer B o = match o with Some y => B ⊕ y_value y | None => 0 end.
Proof. destruct o as [y|]; [|done]. unfold answer, symbol_address. by destruct (_ || _). Qed.

(** Strings end, and every symbol has one. *)
Definition names_ok (syms : list esym) (strs : list Z) : Prop :=
  last strs = Some 0 ∧ Forall (λ y, 0 ≤ y_name y < Z.of_nat (length strs)) syms.

(** ** dlfcn_nougat.cpp *)

Section dlfc.
Context {K : Kernel} {files : Files} {f_bytes : Z → list Z} {laws : FilesLaws files f_bytes}.

Definition of_type (t : Z) (l : list shdr) : list shdr := List.filter (λ x, s_type x =? t) l.

(** [d] is the symbol table, [s] the first string table, and [p] the first
    section of the program behind both; [od] and [os] have been seen already. *)
Record layout (od os : option shdr) (pre : list shdr) (d s p : shdr) : Prop := {
  lay_dynsym : (od = Some d ∧ of_type SHT_DYNSYM pre = []) ∨ (od = None ∧ of_type SHT_DYNSYM pre = [d]);
  lay_dynstr : os = Some s ∨ (os = None ∧ head (of_type SHT_STRTAB pre) = Some s);
  lay_progbits pre1 q pre2 : pre = pre1 ++ q :: pre2 → s_type q = SHT_PROGBITS →
    (od = None ∧ of_type SHT_DYNSYM pre1 = []) ∨ (os = None ∧ of_type SHT_STRTAB pre1 = []);
  lay_type : s_type p = SHT_PROGBITS
}.
Definition dl_layout (secs : list shdr) (d s p : shdr) : Prop :=
  ∃ pre post, secs = pre ++ p :: post ∧ layout None None pre d s p.

(** The loop on the list of the headers. *)
Fixpoint scan (file : list Z) (secs : list shdr) (e : elf_info) : option elf_info :=
  match secs with
  | [] => Some e
  | x :: secs =>
      if s_type x =? SHT_DYNSYM then
        match dynsym e with
        | Some _ => None
        | None => scan file secs (set_dynsym (Some (contents x file)) (sint 32 (s_size x / SIZEOF_SYM)) e)
        end
      else if s_type x =? SHT_STRTAB then
        match dynstr e with
        | Some _ => scan file secs e
        | None => scan file secs (set_dynstr (Some (contents x file)) e)
        end
      else if s_type x =? SHT_PROGBITS then
        match dynstr e, dynsym e with
        | Some _, Some _ => Some (set_bias (s_addr x ⊖ s_offset x) e)
        | _, _ => scan file secs e
        end
      else scan file secs e
  end.

Definition table (x : shdr) : Prop := s_type x = SHT_DYNSYM ∨ s_type x = SHT_STRTAB.

Lemma section_loop_run file m a n o e :
  mapped m a file → 0 < a → a + Z.of_nat (length file) < 2 ^ 63 → Forall (λ b, 0 ≤ b < 256) file →
  64 ≤ Z.of_nat (length file) → 64 ≤ le 2 58 file → 0 ≤ o → o + Z.of_nat n * le 2 58 file ≤ Z.of_nat (length file) →
  (∀ z, 0 ≤ z ≤ Z.of_nat (length file) → f_malloc z = true) →
  Forall (λ x, table x → in_file file x) (shdrs n o (le 2 58 file) file) →
  section_loop n a (a ⊕ o) e m = (Ret (scan file (shdrs n o (le 2 58 file) file) e), m).
Proof.
  intros Hm Ha Hmax Hb H64 Hsz Ho Hn Hmalloc. revert o e Ho Hn. induction n as [|n IH]; intros o e Ho Hn Hin; [done|].
  inversion Hin as [|? ? Hx Hin']; subst. cbn [section_loop shdrs scan]. unfold sh_type, sh_size, sh_offset, sh_addr, e_shentsize.
  set (size := le 2 58 file) in *. assert (Hlen : o + size + Z.of_nat n * size ≤ Z.of_nat (length file)) by lia.
  assert (0 ≤ Z.of_nat n * size) by (apply Z.mul_nonneg_nonneg; lia). clear Hn.
  assert (Hrd : ∀ k d, 0 ≤ d → d + Z.of_nat k ≤ 64 → load k ((a ⊕ o) ⊕ d) m = (Ret (le k (o + d) file), m)).
  { intros k d Hd Hdk. rewrite (wrap_small 64 (a + o)), (wrap_small 64) by lia. rewrite <- Z.add_assoc. apply load_file; [done|lia|lia]. }
  assert (Hnext : ∀ e', (load16 (a ⊕ 58) ≫= λ size, section_loop n a ((a ⊕ o) ⊕ size) e') m =
    (Ret (scan file (shdrs n (o + size) size file) e'), m)).
  { intros e'. rewrite (wrap_small 64 (a + 58)) by lia.
    rewrite (CM_bind_Ret _ _ m _ _ (load_file m a file 2 58 Hm ltac:(lia) ltac:(lia))).
    rewrite wrap_add_l, <- Z.add_assoc. apply IH; [lia|lia|done]. }
  assert (Htab : table (shdr_at o file) → ∀ B (k : list Z → CM memory B),
    (copy_bytes (Z.to_nat (le 8 (o + 32) file)) (a ⊕ le 8 (o + 24) file) ≫= k) m = k (contents (shdr_at o file) file) m).
  { intros Ht B k. specialize (Hx Ht). unfold in_file in Hx. cbn [s_offset s_size shdr_at] in Hx.
    pose proof (le8_range (o + 24) file Hb). pose proof (le8_range (o + 32) file Hb).
    apply CM_bind_Ret. apply (copy_bytes_file m a file (le 8 (o + 24) file) (le 8 (o + 32) file)); done || lia. }
  rewrite (CM_bind_Ret _ _ m _ _ (Hrd 4%nat 4 ltac:(lia) ltac:(lia))). cbn [s_type shdr_at].
  pose proof (le8_range (o + 32) file Hb) as Hs8. pose proof (le8_range (o + 24) file Hb) as Ho8.
  destruct (Z.eqb_spec (le 4 (o + 4) file) SHT_DYNSYM) as [E|_].
  { destruct (dynsym e); [done|]. rewrite (CM_bind_Ret _ _ m _ _ (Hrd 8%nat 32 ltac:(lia) ltac:(lia))).
    assert (Ht : table (shdr_at o file)) by by left. pose proof (Hx Ht) as Hf. unfold in_file in Hf. cbn [s_offset s_size shdr_at] in Hf.
    rewrite Hmalloc by lia. cbn [negb]. rewrite (CM_bind_Ret _ _ m _ _ (Hrd 8%nat 24 ltac:(lia) ltac:(lia))).
    rewrite (Htab Ht). apply Hnext. }
  destruct (Z.eqb_spec (le 4 (o + 4) file) SHT_STRTAB) as [E|_].
  { destruct (dynstr e); [apply Hnext|]. rewrite (CM_bind_Ret _ _ m _ _ (Hrd 8%nat 32 ltac:(lia) ltac:(lia))).
    assert (Ht : table (shdr_at o file)) by by right. pose proof (Hx Ht) as Hf. unfold in_file in Hf. cbn [s_offset s_size shdr_at] in Hf.
    rewrite Hmalloc by lia. cbn [negb]. rewrite (CM_bind_Ret _ _ m _ _ (Hrd 8%nat 24 ltac:(lia) ltac:(lia))).
    rewrite (Htab Ht). apply Hnext. }
  destruct (le 4 (o + 4) file =? SHT_PROGBITS); [|apply Hnext].
  destruct (dynstr e), (dynsym e); try apply Hnext.
  rewrite (CM_bind_Ret _ _ m _ _ (Hrd 8%nat 16 ltac:(lia) ltac:(lia))).
  by rewrite (CM_bind_Ret _ _ m _ _ (Hrd 8%nat 24 ltac:(lia) ltac:(lia))).
Qed.

Definition found (file : list Z) (d s p : shdr) (e : elf_info) : elf_info :=
  ElfInfo (full_path e) (load_addr e) (end_addr e) (Some (contents s file)) (Some (contents d file))
    (sint 32 (s_size d / SIZEOF_SYM)) (s_addr p ⊖ s_offset p) (file_size e).

Lemma scan_layout file od os pre d s p post e :
  layout od os pre d s p →
  dynsym e = (λ x, contents x file) <$> od → dynstr e = (λ x, contents x file) <$> os →
  (od = Some d → nsyms e = sint 32 (s_size d / SIZEOF_SYM)) →
  scan file (pre ++ p :: post) e = Some (found file d s p e).
Proof.
  revert od os e. induction pre as [|x pre IH]; intros od os e [Hd Hs Hp Ht] Ed Es En; cbn [app scan].
  - rewrite Ht. cbn. destruct Hd as [[-> _]|[_ ?]]; [|done]. destruct Hs as [->|[_ ?]]; [|done]. rewrite Ed, Es. cbn.
    unfold set_bias, found. by rewrite Es, Ed, En.
  - assert (Hp' : ∀ pre1 q pre2, pre = pre1 ++ q :: pre2 → s_type q = SHT_PROGBITS →
      (od = None ∧ of_type SHT_DYNSYM (x :: pre1) = []) ∨ (os = None ∧ of_type SHT_STRTAB (x :: pre1) = [])).
    { intros pre1 q pre2 ->. apply (Hp (x :: pre1) q pre2 eq_refl). }
    unfold of_type in *. cbn [List.filter] in *.
    destruct (Z.eqb_spec (s_type x) SHT_DYNSYM) as [E|E1].
    { destruct Hd as [[_ ?]|[-> [= -> Hd]]]; [done|]. rewrite E in *. cbn [fmap option_fmap option_map] in Ed. rewrite Ed.
      rewrite (IH (Some d) os (set_dynsym (Some (contents d file)) (sint 32 (s_size d / SIZEOF_SYM)) e)); [done| |done..].
      split; [by left|done| |done]. intros pre1 q pre2 E' Hq. destruct (Hp' pre1 q pre2 E' Hq) as [[_ ?]|?]; [done|by right]. }
    destruct (Z.eqb_spec (s_type x) SHT_STRTAB) as [E|E2].
    { destruct Hs as [->|[-> [= ->]]]; cbn [fmap option_fmap option_map] in Es; rewrite Es.
      - apply (IH od (Some s)); [|done..]. split; [done|by left| |done].
        intros pre1 q pre2 E' Hq. destruct (Hp' pre1 q pre2 E' Hq) as [?|[? _]]; [by left|done].
      - rewrite (IH od (Some s) (set_dynstr (Some (contents s file)) e)); [done| |done..]. split; [done|by left| |done].
        intros pre1 q pre2 E' Hq. destruct (Hp' pre1 q pre2 E' Hq) as [?|[_ ?]]; [by left|done]. }
    destruct (Z.eqb_spec (s_type x) SHT_PROGBITS) as [E|_].
    { assert (Hgo : scan file (pre ++ p :: post) e = Some (found file d s p e)) by (apply (IH od os); done || by split).
      destruct (dynstr e) as [l|], (dynsym e) as [l'|]; try exact Hgo.
      by destruct (Hp [] x pre eq_refl E) as [[-> _]|[-> _]]. }
    apply (IH od os); done || by split.
Qed.

Lemma buf_number_le n off buf :
  0 ≤ off → off + Z.of_nat n ≤ Z.of_nat (length buf) → buf_number n off buf = Some (le n off buf).
Proof. intros H1 H2. unfold buf_number. by rewrite (proj2 (Z.leb_le _ _)), (proj2 (Z.leb_le _ _)) by lia. Qed.

Lemma buf_strcmp_spec buf name :
  0 ∈ buf → Forall (λ c, c ≠ 0) name → buf_strcmp buf name = Some (bool_decide (cstr buf = name)).
Proof.
  revert name. induction buf as [|b buf IH]; intros name Hz Hn; [by apply not_elem_of_nil in Hz|]. cbn [buf_strcmp cstr].
  destruct name as [|c name].
  - f_equal. symmetry. destruct (Z.eqb_spec b 0); [by apply bool_decide_eq_true|by apply bool_decide_eq_false].
  - inversion_clear Hn as [|? ? Hc Hn']. destruct (Z.eqb_spec b 0) as [->|Hb].
    + rewrite (proj2 (Z.eqb_neq 0 c)) by done. by rewrite bool_decide_false.
    + destruct (Z.eqb_spec b c) as [->|Hne]; [|by rewrite bool_decide_false by congruence].
      rewrite IH; [|by apply elem_of_cons in Hz as [?|?]|done]. f_equal. apply bool_decide_ext. naive_solver.
Qed.

Lemma last_drop_in (strs : list Z) n : last strs = Some 0 → (n < length strs)%nat → 0 ∈ drop n strs.
Proof.
  intros Hl Hn. apply last_Some in Hl as [l ->]. rewrite length_app in Hn. cbn in Hn.
  rewrite drop_app_le by lia. apply elem_of_app. right. by left.
Qed.

Lemma dlsym_loop_run tab strs e name m n k :
  names_ok (symbol_at tab <$> seq k n) strs → Forall (λ c, c ≠ 0) name → (24 * (k + n) ≤ length tab)%nat →
  dlsym_loop n (Z.of_nat k) tab strs e name m =
    (Ret (match first_named (symbol_at tab <$> seq k n) strs name with
          | Some y => load_addr e ⊕ y_value y ⊖ bias e | None => 0 end), m).
Proof.
  intros [Hl Hnames] Hname. revert k Hnames. induction n as [|n IH]; intros k Hnames Hk; [done|].
  cbn [seq fmap list_fmap] in Hnames. inversion Hnames as [|? ? Hx Hnames']; subst. cbn [y_name symbol_at esym_at] in Hx.
  cbn [dlsym_loop seq fmap list_fmap]. unfold SIZEOF_SYM in *. rewrite !buf_number_le by lia. cbn [lift_opt]. rewrite CM_left_id.
  rewrite buf_strcmp_spec; [|apply last_drop_in; [done|lia]|done]. cbn [lift_opt]. rewrite CM_left_id.
  unfold first_named. cbn [List.find y_name symbol_at esym_at]. unfold SIZEOF_SYM, string_at at 1.
  destruct (decide (cstr (drop (Z.to_nat (le 4 (24 * Z.of_nat k) tab)) strs) = name)) as [E|E];
    [rewrite !(bool_decide_true _ E)|rewrite !(bool_decide_false _ E)].
  - by rewrite CM_left_id.
  - replace (Z.of_nat k + 1) with (Z.of_nat (S k)) by lia. apply (IH (S k)); [done|lia].
Qed.

(** The line of the maps that is taken, and what is read from it. *)
Definition locates (m : memory) (libpath path : list Z) (start end_ : Z) : Prop :=
  ∃ text buff p, k_maps m = Some text ∧ find_module (maps_lines_256 text) libpath = Some buff ∧
    strstr_from buff (str "/") = Some p ∧ path = erase_line_end p ∧ sscanf_range buff = Some (start, end_).

Lemma shdrs_range n o size file :
  Forall (λ b, 0 ≤ b < 256) file → Forall (λ x, 0 ≤ s_offset x ∧ 0 ≤ s_size x) (shdrs n o size file).
Proof.
  intros Hb. revert o. induction n as [|n IH]; intros o; constructor; [|apply IH]. cbn [s_offset s_size shdr_at].
  pose proof (le8_range (o + 24) file Hb). pose proof (le8_range (o + 32) file Hb). lia.
Qed.

Lemma segments_range file n o size :
  Forall (λ b, 0 ≤ b < 256) file → ∀ x, x ∈ phdrs n o size file → 0 ≤ ph_offset x ∧ 0 ≤ ph_vaddr x.
Proof.
  intros Hb. revert o. induction n as [|n IH]; intros o x; [by intros ?%not_elem_of_nil|].
  intros [->|Hx]%elem_of_cons; [|by eapply IH]. cbn [ph_offset ph_vaddr].
  pose proof (le8_range (o + 8) file Hb). pose proof (le8_range (o + 16) file Hb). lia.
Qed.

Lemma contents_length x file :
  in_file file x → 0 ≤ s_offset x → 0 ≤ s_size x → length (contents x file) = Z.to_nat (s_size x).
Proof. unfold in_file, contents, bytes_of. intros. rewrite length_take, length_drop. lia. Qed.

(** The two sections of a layout are among the headers. *)
Lemma layout_in secs d s p :
  dl_layout secs d s p → (d ∈ secs ∧ s_type d = SHT_DYNSYM) ∧ (s ∈ secs ∧ s_type s = SHT_STRTAB).
Proof.
  intros (pre & post & -> & [Hd Hs _ _]). destruct Hd as [[? _]|[_ Hd]]; [done|]. destruct Hs as [?|[_ Hs]]; [done|].
  assert (H : ∀ t x, x ∈ of_type t pre → x ∈ pre ++ p :: post ∧ s_type x = t).
  { intros t x. unfold of_type. rewrite !list_elem_of_In, filter_In, in_app_iff, Z.eqb_eq. intuition. }
  split; apply H.
  - rewrite Hd. by left.
  - destruct (of_type SHT_STRTAB pre) as [|y l]; [done|]. injection Hs as ->. by left.
Qed.

(** Where the text of a library is, by its section [p] in the segment [x]. *)
Lemma segment_bias file B x start off p :
  loaded_segment file B x start off → 0 ≤ ph_offset x < PAGE_SIZE → s_addr p - s_offset p = ph_vaddr x - ph_offset x →
  start = B ⊕ (s_addr p ⊖ s_offset p).
Proof using Type.
  intros [_ _ Hc -> _] Ho ->. rewrite wrap_add_r. unfold page_of. rewrite Hc, Z.mod_small by done. done.
Qed.

(** C16: for an ELF file whose mapping the maps show, fake_dlopen succeeds,
    changes nothing that was mapped, and fake_dlsym gives for a name the
    address of the first dynamic symbol of that name, or null.  The line that
    is taken is of the segment with the start of the file, and so is the first
    section of the program behind the tables; where the text is a segment of its
    own the answer is wrong (own_segment_missed).  For a symbol without an
    address in the library, an imported one for instance, it is the value on
    top of the load bias (import_found). *)
Theorem fake_dlopen_resolves m libpath flags path B start end_ off fd errno a m1 d s p x :
  let file := f_bytes fd in
  locates m libpath path start end_ →
  loaded_segment file B x start off → ph_offset x < PAGE_SIZE → s_addr p - s_offset p = ph_vaddr x - ph_offset x →
  f_open 0 path m = (fd, errno) → 0 ≤ fd → f_size fd m = Some (Z.of_nat (length file)) →
  f_mmap m (Z.of_nat (length file)) fd = (Some a, m1) →
  elf_file file → Z.of_nat (length file) < 2 ^ 31 → (∀ z, 0 ≤ z < 2 ^ 31 → f_malloc z = true) →
  dl_layout (sections file) d s p → Forall (λ x, table x → in_file file x) (sections file) →
  names_ok (symbols (contents d file)) (contents s file) →
  ∃ e m', fake_dlopen libpath flags m = (Ret (Some e), m') ∧ kept m m' ∧
    ∀ name m'', Forall (λ c, c ≠ 0) name →
      fake_dlsym e name m'' = (Ret (answer B (first_named (symbols (contents d file)) (contents s file) name)), m'').
Proof.
  intros file (text & buff & q & Hmaps & Hfind & Hq & -> & Hscan) Hx Hxo Hp Hopen Hfd Hsize Hmmap [Hh Hse Ht Hb] Hmax Hmalloc Hlay Hin Hnames.
  pose proof (segments_range file (Z.to_nat (le 2 56 file)) (le 8 32 file) (le 2 54 file) Hb x (ls_segment _ _ _ _ _ Hx)) as [Hxo0 _].
  pose proof (segment_bias file B x start off p Hx (conj Hxo0 Hxo) Hp) as Hstart.
  destruct (@f_mmap_maps _ _ laws m _ fd a m1 Hmmap ltac:(lia) eq_refl) as (Ha & Ha2 & Hmap & Hunmap). fold file in Hmap.
  destruct (layout_in _ _ _ _ Hlay) as [[Hd1 Hd2] [Hs1 Hs2]].
  pose proof (shdrs_range (Z.to_nat (le 2 60 file)) (le 8 40 file) (le 2 58 file) file Hb) as Hr. fold (sections file) in Hr.
  rewrite Forall_forall in Hr. rewrite Forall_forall in Hin.
  assert (Hdf : in_file file d) by (apply Hin; [done|by left]). destruct (Hr d Hd1) as [Hd3 Hd4].
  set (e0 := ElfInfo (erase_line_end q) start end_ None None 0 0 (Z.of_nat (length file))).
  exists (found file d s p e0), (f_munmap m1 a (Z.of_nat (length file))).
  split; [|split; [by apply Hunmap|]].
  - unfold fake_dlopen. rewrite Hmalloc by lia. cbn [negb]. rewrite CM_bind_gets, Hmaps, Hfind, Hq.
    cbn [lift_opt]. rewrite CM_left_id, Hscan. rewrite CM_bind_gets, Hopen.
    rewrite (proj2 (Z.ltb_ge fd 0)) by done. rewrite CM_bind_gets, Hsize. cbn [default from_option Datatypes.id].
    rewrite (proj2 (Z.leb_gt _ 0)) by lia. rewrite CM_bind_get, Hmmap.
    rewrite CM_bind_put. unfold e_shoff, e_shnum. rewrite !(wrap_small 64 (a + _)) by lia.
    rewrite (CM_bind_Ret _ _ m1 _ _ (load_file m1 a file 8 40 Hmap ltac:(lia) ltac:(lia))).
    rewrite (CM_bind_Ret _ _ m1 _ _ (load_file m1 a file 2 60 Hmap ltac:(lia) ltac:(lia))).
    pose proof (le8_range 40 file Hb). pose proof (le_range 2 60 file Hb).
    erewrite CM_bind_Ret; [|apply section_loop_run; [done|done|lia|done|lia|done|lia|rewrite Z2Nat.id; lia|intros; apply Hmalloc; lia|by apply Forall_forall]].
    fold (sections file) e0. destruct Hlay as (pre & post & -> & Hlay). rewrite (scan_layout file None None pre d s p post e0 Hlay) by done.
    done.
  - intros name m'' Hname. unfold fake_dlsym. cbn [dynsym dynstr nsyms found].
    assert (Hn : Z.to_nat (sint 32 (s_size d / SIZEOF_SYM)) = (length (contents d file) / 24)%nat).
    { rewrite contents_length by done. unfold SIZEOF_SYM, in_file in *. rewrite sint_small by (Z.to_euclidean_division_equations; lia).
      rewrite Z2Nat.inj_div by lia. done. }
    rewrite Hn. unfold symbols in *. change 0 with (Z.of_nat 0) at 1.
    rewrite dlsym_loop_run by (done || (pose proof (Nat.Div0.mul_div_le (length (contents d file)) 24); lia)).
    cbn [load_addr found e0 bias]. rewrite answer_value. do 2 f_equal. destruct (first_named _ _ name) as [y|]; [|done]. rewrite Hstart.
    generalize (u64 (s_addr p - s_offset p)). intros k. rewrite wrap_add_l, <- Z.add_opp_r, wrap_add_l. f_equal. lia.
Qed.

End dlfc.

(** ** byopen_android.c *)

Lemma cstr_mapped m a l :
  mapped m a l → last l = Some 0 → cstr_at m a (cstr l).
Proof.
  revert a. induction l as [|b l IH]; intros a Hm Hl; [done|].
  destruct (Hm 0%nat ltac:(cbn; lia)) as [Ha Hb]. rewrite Z.add_0_r in Ha, Hb. injection Hb as Hb.
  cbn [cstr]. destruct (Z.eqb_spec b 0) as [->|Hne].
  - split; [|done]. cbn. by rewrite Ha, <- Hb.
  - assert (Hl' : last l = Some 0) by (destruct l; [cbn in Hl; congruence|done]).
    destruct (IH (a + 1)) as [H1 H2]; [by apply (mapped_drop m a (b :: l) 1)|done|].
    split; [|by constructor]. cbn. by rewrite Ha, <- Hb.
Qed.

Lemma strcmp_file m a file off name :
  mapped m a file → last file = Some 0 → 0 ≤ off < Z.of_nat (length file) → Forall (λ c, c ≠ 0) name →
  strcmp_eq name (a + off) m = (Ret (bool_decide (name = string_at file off)), m).
Proof.
  intros Hm Hl Ho Hn. apply strcmp_eq_spec; [done|]. apply cstr_mapped.
  - rewrite <- (Z2Nat.id off) at 1 by lia. by apply mapped_drop.
  - apply last_Some in Hl as [l ->]. rewrite length_app in Ho. cbn in Ho. rewrite drop_app_le by lia. apply last_snoc.
Qed.

Section byopen.
Context {K : Kernel} {files : Files} {f_bytes : Z → list Z} {laws : FilesLaws files f_bytes}.

(** The value of the first symbol of that name among the [n] of the table at
    [tab], with the strings at [strs]: one whose name is in the file and whose
    address is above [low]. *)
Definition file_symbols (file : list Z) (tab : Z) (n : nat) : list (Z * Z) :=
  (λ k, (le 4 (tab + 24 * Z.of_nat k) file, le 8 (tab + 24 * Z.of_nat k + 8) file)) <$> seq 0 n.
Definition is_symbol (file : list Z) (strs base low : Z) (name : list Z) (x : Z * Z) : bool :=
  (strs + x.1 <? Z.of_nat (length file)) && bool_decide (name = string_at file (strs + x.1)) && (low <? base ⊕ x.2).
Definition by_lookup (file : list Z) (tab strs : shdr) (base low : Z) (name : list Z) : option Z :=
  snd <$> List.find (is_symbol file (s_offset strs) base low name) (file_symbols file (s_offset tab) (Z.to_nat (s_size tab / 24))).

Lemma by_sym_loop_run file m a c tab strs name n k :
  mapped m a file → last file = Some 0 → 0 < a → a + Z.of_nat (length file) < 2 ^ 48 → Forall (λ b, 0 ≤ b < 256) file →
  Forall (λ x, x ≠ 0) name → 0 ≤ tab → 0 ≤ strs → strs < Z.of_nat (length file) →
  tab + 24 * Z.of_nat (k + n) ≤ Z.of_nat (length file) →
  by_sym_loop n (a + tab + 24 * Z.of_nat k) (a + strs) (a + Z.of_nat (length file)) name c m =
    (Ret ((λ x : Z * Z, baseaddr c ⊕ x.2 ⊖ biasaddr c) <$>
      List.find (is_symbol file strs (baseaddr c) (biasaddr c) name)
        ((λ k, (le 4 (tab + 24 * Z.of_nat k) file, le 8 (tab + 24 * Z.of_nat k + 8) file)) <$> seq k n)), m).
Proof.
  intros Hm Hl Ha Hmax Hb Hname Ht Hs Hs'. revert k. induction n as [|n IH]; intros k Hk; [done|].
  cbn [by_sym_loop seq fmap list_fmap List.find]. set (o := tab + 24 * Z.of_nat k).
  unfold st_name, st_value. rewrite (wrap_small 64 (a + tab + 24 * Z.of_nat k + 8)) by lia.
  replace (a + tab + 24 * Z.of_nat k) with (a + o) by lia. replace (a + o + 8) with (a + (o + 8)) by lia.
  rewrite (CM_bind_Ret _ _ m _ _ (load_file m a file 4 o Hm ltac:(lia) ltac:(lia))).
  pose proof (le_range 4 o file Hb) as H4. change (8 * Z.of_nat 4) with 32 in H4. rewrite (wrap_small 64 (a + strs + _)) by lia.
  assert (Hnext : by_sym_loop n ((a + o) ⊕ SIZEOF_SYM) (a + strs) (a + Z.of_nat (length file)) name c m =
    (Ret ((λ x : Z * Z, baseaddr c ⊕ x.2 ⊖ biasaddr c) <$>
      List.find (is_symbol file strs (baseaddr c) (biasaddr c) name)
        ((λ k, (le 4 (tab + 24 * Z.of_nat k) file, le 8 (tab + 24 * Z.of_nat k + 8) file)) <$> seq (S k) n)), m)).
  { unfold SIZEOF_SYM. rewrite (wrap_small 64) by lia. replace (a + o + 24) with (a + tab + 24 * Z.of_nat (S k)) by lia. apply IH. lia. }
  unfold is_symbol at 1. cbn [fst snd].
  replace (a + strs + le 4 o file <? a + Z.of_nat (length file)) with (strs + le 4 o file <? Z.of_nat (length file))
    by (destruct (Z.ltb_spec (strs + le 4 o file) (Z.of_nat (length file))), (Z.ltb_spec (a + strs + le 4 o file) (a + Z.of_nat (length file))); done || lia).
  destruct (Z.ltb_spec (strs + le 4 o file) (Z.of_nat (length file))) as [Hin|Hout]; cbn [andb].
  - replace (a + strs + le 4 o file) with (a + (strs + le 4 o file)) by lia.
    rewrite (CM_bind_Ret _ _ m _ _ (strcmp_file m a file (strs + le 4 o file) name Hm Hl ltac:(lia) Hname)).
    case_bool_decide as E; cbn [andb].
    + rewrite (CM_bind_Ret _ _ m _ _ (load_file m a file 8 (o + 8) Hm ltac:(lia) ltac:(lia))).
      destruct (biasaddr c <? baseaddr c ⊕ le 8 (o + 8) file); [done|exact Hnext].
    + rewrite CM_left_id. exact Hnext.
  - rewrite !CM_left_id. cbn [andb]. exact Hnext.
Qed.

(** The segment with the start of the file. *)
Definition first_load (file : list Z) : option Z :=
  ph_vaddr <$> List.find (λ x, (ph_type x =? PT_LOAD) && (ph_offset x =? 0)) (segments file).

Lemma by_phdr_loop_run file m a n o :
  mapped m a file → 0 < a → a + Z.of_nat (length file) < 2 ^ 63 → 64 ≤ Z.of_nat (length file) → 56 ≤ le 2 54 file → 0 ≤ o →
  o + Z.of_nat n * le 2 54 file ≤ Z.of_nat (length file) →
  by_phdr_loop n a (a ⊕ o) (a + Z.of_nat (length file)) m =
    (Ret (ph_vaddr <$> List.find (λ x, (ph_type x =? PT_LOAD) && (ph_offset x =? 0)) (phdrs n o (le 2 54 file) file)), m).
Proof.
  intros Hm Ha Hmax H64 Hsz. revert o. induction n as [|n IH]; intros o Ho Hn; [done|].
  set (size := le 2 54 file) in *. assert (Hlen : o + size + Z.of_nat n * size ≤ Z.of_nat (length file)) by lia.
  assert (0 ≤ Z.of_nat n * size) by (apply Z.mul_nonneg_nonneg; lia). clear Hn.
  cbn [by_phdr_loop phdrs List.find ph_type ph_offset]. rewrite (wrap_small 64 (a + o)) by lia.
  rewrite (proj2 (Z.eqb_neq (a + o) 0)) by lia. unfold SIZEOF_PHDR. rewrite (wrap_small 64 (a + o + 56)) by lia.
  rewrite (proj2 (Z.ltb_ge _ _)) by lia. unfold p_type, p_offset, p_vaddr, e_phentsize.
  rewrite (CM_bind_Ret _ _ m _ _ (load_file m a file 4 o Hm ltac:(lia) ltac:(lia))).
  assert (Hrd : ∀ d, 0 ≤ d ≤ 48 → load64 (a + o + d) m = (Ret (le 8 (o + d) file), m)).
  { intros d Hd. rewrite <- Z.add_assoc. apply load_file; [done|lia|lia]. }
  assert (Hnext : (load16 (a ⊕ 54) ≫= λ size, by_phdr_loop n a ((a + o) ⊕ size) (a + Z.of_nat (length file))) m =
    (Ret (ph_vaddr <$> List.find (λ x, (ph_type x =? PT_LOAD) && (ph_offset x =? 0)) (phdrs n (o + size) size file)), m)).
  { rewrite (wrap_small 64 (a + 54)) by lia. rewrite (CM_bind_Ret _ _ m _ _ (load_file m a file 2 54 Hm ltac:(lia) ltac:(lia))).
    fold size. rewrite <- Z.add_assoc. apply IH; lia. }
  destruct (Z.eqb_spec (le 4 o file) PT_LOAD) as [->|Hne]; cbn [andb].
  - rewrite (CM_bind_Ret _ _ m _ _ (Hrd 8 ltac:(lia))). destruct (le 8 (o + 8) file =? 0); [|exact Hnext].
    by rewrite (CM_bind_Ret _ _ m _ _ (Hrd 16 ltac:(lia))).
  - rewrite CM_left_id. exact Hnext.
Qed.

(** The sections the context can point to. *)
Definition pointer (a : Z) (o : option shdr) : Z := match o with None => 0 | Some x => a + s_offset x end.
Definition count (o : option shdr) : Z := match o with None => 0 | Some x => sint 32 (s_size x / SIZEOF_SYM) end.
Definition context (a size base bias : Z) (od os ot ou : option shdr) : by_fake_dlctx_t :=
  DlCtx BY_FAKE_DLCTX_MAGIC base bias (pointer a os) (pointer a od) (count od) (pointer a ou) (pointer a ot) (count ot) a size.

(** A string table of that name. *)
Definition named (file : list Z) (shstr : Z) (name : string) (x : shdr) : bool :=
  (s_type x =? SHT_STRTAB) && bool_decide (str name = string_at file (shstr + s_name x)).

(** The symbol tables [d] and [t] and the string tables [s] and [u] of the
    headers; [od] and the others have been seen already. *)
Definition tables (file : list Z) (shstr : Z) (secs : list shdr) (od os ot ou : option shdr) (d s : shdr) (t u : option shdr) : Prop :=
  option_list od ++ of_type SHT_DYNSYM secs = [d] ∧ option_list ot ++ of_type SHT_SYMTAB secs = option_list t ∧
  match os with Some s => Some s | None => List.find (named file shstr ".dynstr") secs end = Some s ∧
  match ou with Some u => Some u | None => List.find (named file shstr ".strtab") secs end = u.

(** The contents and the name of a section begin in the file. *)
Definition begins (file : list Z) (shstr : Z) (x : shdr) : Prop :=
  s_offset x < Z.of_nat (length file) ∧ shstr + s_name x < Z.of_nat (length file).

Definition placed (o : option shdr) : Prop := ∀ x, o = Some x → 0 ≤ s_offset x.

Lemma truthy_pointer a o : 0 < a → placed o → truthy (pointer a o) = bool_decide (is_Some o).
Proof.
  intros Ha Ho. unfold truthy, pointer. destruct o as [x|]; [|done]. specialize (Ho x eq_refl).
  by rewrite (proj2 (Z.eqb_neq _ 0)) by lia.
Qed.

Lemma placed_Some x : 0 ≤ s_offset x → placed (Some x).
Proof. by intros H ? [= <-]. Qed.

(** The step over a header [x]: what the context is afterwards. *)
Lemma tables_step file shstr x secs od os ot ou d s t u :
  tables file shstr (x :: secs) od os ot ou d s t u →
  tables file shstr secs (if s_type x =? SHT_DYNSYM then Some x else od)
    (if named file shstr ".dynstr" x then Some (default x os) else os)
    (if s_type x =? SHT_SYMTAB then Some x else ot)
    (if named file shstr ".strtab" x then Some (default x ou) else ou) d s t u ∧
  (s_type x = SHT_DYNSYM → od = None) ∧ (s_type x = SHT_SYMTAB → ot = None).
Proof.
  intros (Hd & Ht & Hs & Hu). unfold tables, of_type in *. cbn [List.filter List.find] in *. split_and!.
  - destruct (s_type x =? SHT_DYNSYM); [|done]. destruct od; [|done]. by destruct (List.filter _ secs).
  - destruct (s_type x =? SHT_SYMTAB); [|done]. destruct ot, t; by destruct (List.filter _ secs).
  - destruct os, (named file shstr ".dynstr" x); done.
  - destruct ou, (named file shstr ".strtab" x); done.
  - intros E. rewrite E in Hd. by destruct od.
  - intros E. rewrite E in Ht. by destruct ot, t.
Qed.

Lemma by_section_loop_run file m a n o shstr base bias od os ot ou d s t u :
  mapped m a file → last file = Some 0 → 0 < a → a + Z.of_nat (length file) < 2 ^ 48 → Forall (λ b, 0 ≤ b < 256) file →
  64 ≤ Z.of_nat (length file) → 64 ≤ le 2 58 file → 0 ≤ o → o + Z.of_nat n * le 2 58 file ≤ Z.of_nat (length file) → 0 ≤ shstr < Z.of_nat (length file) →
  Forall (begins file shstr) (shdrs n o (le 2 58 file) file) →
  placed od → placed os → placed ot → placed ou →
  tables file shstr (shdrs n o (le 2 58 file) file) od os ot ou d s t u →
  by_section_loop n a (a ⊕ o) (a + shstr) (a + Z.of_nat (length file)) (context a (Z.of_nat (length file)) base bias od os ot ou) m =
    (Ret (context a (Z.of_nat (length file)) base bias (Some d) (Some s) t u, false), m).
Proof.
  intros Hm Hl Ha Hmax Hb H64 Hsz Ho Hn Hshstr. set (size := le 2 58 file) in *.
  revert o od os ot ou Ho Hn. induction n as [|n IH]; intros o od os ot ou Ho Hn Hbeg Pd Ps Pt Pu Htab.
  { destruct Htab as (Hd & Ht & Hs & Hu). unfold of_type in *. cbn in *. rewrite app_nil_r in *.
    destruct od; [|done]. injection Hd as ->. destruct os; [|done]. injection Hs as ->.
    assert (ot = t) as -> by (destruct ot, t; naive_solver). by destruct ou; subst. }
  assert (Hlen : o + size + Z.of_nat n * size ≤ Z.of_nat (length file)) by lia.
  assert (0 ≤ Z.of_nat n * size) by (apply Z.mul_nonneg_nonneg; lia). clear Hn.
  cbn [shdrs] in *. inversion Hbeg as [|? ? [Hx1 Hx2] Hbeg']; subst. set (x := shdr_at o file) in *.
  apply tables_step in Htab as (Htab & Hod & Hot).
  pose proof (le8_range (o + 24) file Hb) as H24. pose proof (le_range 4 o file Hb) as H4. change (8 * Z.of_nat 4) with 32 in H4.
  change (le 8 (o + 24) file) with (s_offset x) in H24. change (le 4 o file) with (s_name x) in H4.
  assert (Hrd : ∀ k d, 0 ≤ d → d + Z.of_nat k ≤ 64 → load k ((a + o) ⊕ d) m = (Ret (le k (o + d) file), m)).
  { intros k d' Hd' Hdk. rewrite (wrap_small 64) by lia. rewrite <- Z.add_assoc. apply load_file; [done|lia|lia]. }
  set (len := Z.of_nat (length file)) in *.
  assert (Hnext : ∀ od os ot ou, placed od → placed os → placed ot → placed ou →
    tables file shstr (shdrs n (o + size) size file) od os ot ou d s t u →
    (load16 (a ⊕ 58) ≫= λ size, by_section_loop n a ((a + o) ⊕ size) (a + shstr) (a + len) (context a len base bias od os ot ou)) m =
    (Ret (context a len base bias (Some d) (Some s) t u, false), m)).
  { intros. rewrite (wrap_small 64 (a + 58)) by lia. rewrite (CM_bind_Ret _ _ m _ _ (load_file m a file 2 58 Hm ltac:(lia) ltac:(lia))).
    fold size. rewrite <- Z.add_assoc. apply IH; done || lia. }
  cbn [by_section_loop]. rewrite (wrap_small 64 (a + o)) by lia. rewrite (proj2 (Z.eqb_neq (a + o) 0)) by lia.
  unfold SIZEOF_SHDR. rewrite (wrap_small 64 (a + o + 64)) by lia. rewrite (proj2 (Z.ltb_ge _ _)) by lia.
  unfold sh_name, sh_offset, sh_type, sh_size, e_shentsize. cbn [filedata context].
  rewrite (CM_bind_Ret _ _ m _ _ (load_file m a file 4 o Hm ltac:(lia) ltac:(lia))). change (le 4 o file) with (s_name x).
  rewrite (wrap_small 64 (a + shstr + _)) by lia. rewrite (proj2 (Z.ltb_lt (a + shstr + s_name x) _)) by lia. cbn [negb].
  rewrite (CM_bind_Ret _ _ m _ _ (Hrd 8%nat 24 ltac:(lia) ltac:(lia))). change (le 8 (o + 24) file) with (s_offset x).
  rewrite (wrap_small 64 (a + s_offset x)) by lia. rewrite (proj2 (Z.ltb_lt (a + s_offset x) _)) by lia. cbn [negb].
  rewrite (CM_bind_Ret _ _ m _ _ (Hrd 4%nat 4 ltac:(lia) ltac:(lia))). change (le 4 (o + 4) file) with (s_type x).
  assert (Px : placed (Some x)) by (apply placed_Some; lia).
  assert (Hstr : ∀ name, Forall (λ c, c ≠ 0) (str name) →
    strcmp_eq (str name) (a + shstr + s_name x) m = (Ret (bool_decide (str name = string_at file (shstr + s_name x))), m)).
  { intros name Hname. rewrite <- Z.add_assoc. apply strcmp_file; done || lia. }
  unfold named in Htab.
  destruct (Z.eqb_spec (s_type x) SHT_DYNSYM) as [E|E1].
  { rewrite (Hod E) in *. rewrite E in Htab. cbn in Htab |- *.
    rewrite (CM_bind_Ret _ _ m _ _ (Hrd 8%nat 32 ltac:(lia) ltac:(lia))). by apply (Hnext (Some x) os ot ou). }
  destruct (Z.eqb_spec (s_type x) SHT_SYMTAB) as [E|E2].
  { rewrite (Hot E) in *. rewrite E in Htab. cbn in Htab |- *.
    rewrite (CM_bind_Ret _ _ m _ _ (Hrd 8%nat 32 ltac:(lia) ltac:(lia))). by apply (Hnext od os (Some x) ou). }
  destruct (Z.eqb_spec (s_type x) SHT_STRTAB) as [E|E3]; [|by apply Hnext]. cbn [andb] in Htab.
  rewrite (CM_bind_Ret _ _ m _ _ (Hstr ".dynstr"%string ltac:(by repeat constructor))).
  destruct (decide (str ".dynstr" = string_at file (shstr + s_name x))) as [Ed|Ed];
    [rewrite (bool_decide_true _ Ed) in *|rewrite (bool_decide_false _ Ed) in *].
  { assert (En : bool_decide (str ".strtab" = string_at file (shstr + s_name x)) = false) by (apply bool_decide_eq_false; rewrite <- Ed; done).
    rewrite En in Htab. cbn [dynstr_ context]. rewrite truthy_pointer by done.
    destruct os as [y|]; [by apply (Hnext od (Some y) ot ou)|by apply (Hnext od (Some x) ot ou)]. }
  rewrite (CM_bind_Ret _ _ m _ _ (Hstr ".strtab"%string ltac:(by repeat constructor))).
  destruct (decide (str ".strtab" = string_at file (shstr + s_name x))) as [Eu|Eu];
    [rewrite (bool_decide_true _ Eu) in *|rewrite (bool_decide_false _ Eu) in *].
  - cbn [strtab_ context]. rewrite truthy_pointer by done.
    destruct ou as [y|]; [by apply (Hnext od os ot (Some y))|by apply (Hnext od os ot (Some x))].
  - by apply Hnext.
Qed.

Definition shstrtab (file : list Z) : shdr := shdr_at (le 8 40 file + le 2 62 file * le 2 58 file) file.

(** What is asked of a file: its headers are in it, the segment with its start
    is loaded at [bias], every section begins in it, and its last byte, which
    is of the last section header, is 0, so strings end. *)
Record by_file (file : list Z) (bias : Z) : Prop := {
  bf_elf : elf_file file;
  bf_size : 64 < Z.of_nat (length file) < 2 ^ 31;
  bf_last : last file = Some 0;
  bf_phent : 56 ≤ le 2 54 file;
  bf_phdrs : le 8 32 file + le 2 56 file * le 2 54 file ≤ Z.of_nat (length file);
  bf_bias : first_load file = Some bias;
  bf_index : le 2 62 file < le 2 60 file;
  bf_begins : Forall (begins file (s_offset (shstrtab file))) (sections file);
  bf_shstr : s_offset (shstrtab file) < Z.of_nat (length file)
}.

(** The tables are among the headers. *)
Lemma tables_in file shstr secs d s t u :
  tables file shstr secs None None None None d s t u →
  d ∈ secs ∧ s ∈ secs ∧ (∀ x, t = Some x → x ∈ secs) ∧ (∀ x, u = Some x → x ∈ secs).
Proof.
  intros (Hd & Ht & Hs & Hu). cbn [option_list option_rect app] in *.
  assert (H : ∀ k x, x ∈ of_type k secs → x ∈ secs).
  { intros k x. unfold of_type. rewrite !list_elem_of_In, filter_In. by intros [? _]. }
  assert (Hf : ∀ f x, List.find f secs = Some x → x ∈ secs) by (intros f x Hx; rewrite list_elem_of_In; by eapply find_some).
  split_and!.
  - apply (H SHT_DYNSYM). rewrite Hd. by left.
  - by eapply Hf.
  - intros x ->. apply (H SHT_SYMTAB). rewrite Ht. by left.
  - intros x ->. by eapply Hf.
Qed.

(** One table of symbols. *)
Lemma by_table_run file m a c tab strs name :
  mapped m a file → last file = Some 0 → 0 < a → a + Z.of_nat (length file) < 2 ^ 48 → Z.of_nat (length file) < 2 ^ 31 →
  Forall (λ b, 0 ≤ b < 256) file → Forall (λ x, x ≠ 0) name →
  in_file file tab → 0 ≤ s_offset tab → 0 ≤ s_size tab → 0 ≤ s_offset strs < Z.of_nat (length file) →
  by_sym_loop (Z.to_nat (count (Some tab))) (pointer a (Some tab)) (pointer a (Some strs)) (a + Z.of_nat (length file)) name c m =
    (Ret ((λ v, baseaddr c ⊕ v ⊖ biasaddr c) <$> by_lookup file tab strs (baseaddr c) (biasaddr c) name), m).
Proof.
  intros Hm Hl Ha Hmax Hlen Hb Hname Hin Ho Hs Hstrs. unfold in_file in Hin. cbn [count pointer]. unfold SIZEOF_SYM.
  rewrite sint_small by (Z.to_euclidean_division_equations; lia). set (n := Z.to_nat (s_size tab / 24)).
  pose proof (by_sym_loop_run file m a c (s_offset tab) (s_offset strs) name n 0 Hm Hl Ha ltac:(lia) Hb Hname Ho ltac:(lia) ltac:(lia)) as H.
  rewrite Z.add_0_r in H. rewrite H; [|unfold n; Z.to_euclidean_division_equations; lia].
  unfold by_lookup, file_symbols. fold n. do 2 f_equal. by destruct (List.find _ _).
Qed.

(** What the code computes for a name. *)
Definition by_address (file : list Z) (d s : shdr) (t u : option shdr) (B base low : Z) (name : list Z) : Z :=
  match by_lookup file d s base low name with
  | Some v => B ⊕ v
  | None =>
      match t, u with
      | Some t, Some u => match by_lookup file t u base low name with Some v => B ⊕ v | None => 0 end
      | _, _ => 0
      end
  end.

Lemma by_parse_elf_run file m a base bias d s t u :
  mapped m a file → 0 < a → a + Z.of_nat (length file) < 2 ^ 48 → by_file file bias →
  tables file (s_offset (shstrtab file)) (sections file) None None None None d s t u →
  by_parse_elf (context a (Z.of_nat (length file)) base 0 None None None None) m =
    (Ret (context a (Z.of_nat (length file)) base bias (Some d) (Some s) t u, true), m).
Proof.
  intros Hm Ha Hmax [[Hh Hse Ht Hb] Hsize Hl Hph Hphs Hbias Hidx Hbeg Hshstr] Htab.
  unfold by_parse_elf. cbn [filedata filesize context]. set (len := Z.of_nat (length file)) in *.
  unfold SIZEOF_EHDR. rewrite (wrap_small 64 (a + 64)), (wrap_small 64 (a + len)) by lia.
  rewrite (proj2 (Z.ltb_lt (a + 64) (a + len))) by lia. cbn [negb]. unfold e_phoff, e_phnum.
  rewrite (CM_bind_Ret _ _ m _ _ (load_file m a file 8 32 Hm ltac:(lia) ltac:(lia))).
  rewrite (CM_bind_Ret _ _ m _ _ (load_file m a file 2 56 Hm ltac:(lia) ltac:(lia))).
  pose proof (le8_range 32 file Hb). pose proof (le_range 2 56 file Hb). pose proof (le8_range 40 file Hb).
  pose proof (le_range 2 60 file Hb) as H60. pose proof (le_range 2 62 file Hb) as H62. pose proof (le_range 2 58 file Hb) as H58.
  change (2 ^ (8 * Z.of_nat 2)) with 65536 in *.
  rewrite (CM_bind_Ret _ _ m _ _ (by_phdr_loop_run file m a (Z.to_nat (le 2 56 file)) (le 8 32 file) Hm Ha ltac:(lia) Hh Hph ltac:(lia) ltac:(rewrite Z2Nat.id; lia))).
  fold (segments file) (first_load file). rewrite Hbias. unfold e_shoff, e_shstrndx, e_shentsize, e_shnum.
  rewrite !(wrap_small 64 (a + 40)), !(wrap_small 64 (a + 62)), !(wrap_small 64 (a + 58)), !(wrap_small 64 (a + 60)) by lia.
  rewrite (CM_bind_Ret _ _ m _ _ (load_file m a file 8 40 Hm ltac:(lia) ltac:(lia))).
  rewrite (CM_bind_Ret _ _ m _ _ (load_file m a file 2 62 Hm ltac:(lia) ltac:(lia))).
  rewrite (CM_bind_Ret _ _ m _ _ (load_file m a file 2 58 Hm ltac:(lia) ltac:(lia))).
  assert (Hix : le 8 40 file + le 2 62 file * le 2 58 file + 64 ≤ len) by nia.
  assert (Hix0 : 0 ≤ le 2 62 file * le 2 58 file) by nia. set (idx := le 2 62 file * le 2 58 file) in *.
  rewrite (proj2 (Z.leb_gt (2 ^ 31) idx)) by lia. unfold SIZEOF_SHDR, sh_offset.
  rewrite (wrap_small 64 (a + le 8 40 file)) by lia. rewrite (wrap_small 64 (a + le 8 40 file + idx)) by lia.
  rewrite (wrap_small 64 (a + le 8 40 file + idx + 64)) by lia. rewrite (proj2 (Z.ltb_ge (a + len) _)) by lia.
  rewrite (wrap_small 64 (a + le 8 40 file + idx + 24)) by lia.
  replace (a + le 8 40 file + idx + 24) with (a + (le 8 40 file + idx + 24)) by lia.
  rewrite (CM_bind_Ret _ _ m _ _ (load_file m a file 8 (le 8 40 file + idx + 24) Hm ltac:(lia) ltac:(lia))).
  pose proof (le8_range (le 8 40 file + idx + 24) file Hb) as Hsx.
  change (le 8 (le 8 40 file + idx + 24) file) with (s_offset (shstrtab file)) in *.
  rewrite (wrap_small 64 (a + s_offset _)) by lia. rewrite (proj2 (Z.ltb_lt (a + s_offset _) _)) by lia. cbn [negb].
  rewrite (CM_bind_Ret _ _ m _ _ (load_file m a file 2 60 Hm ltac:(lia) ltac:(lia))).
  rewrite <- (wrap_small 64 (a + le 8 40 file)) by lia.
  change (set_biasaddr bias (context a len base 0 None None None None)) with (context a len base bias None None None None).
  erewrite CM_bind_Ret; [|apply (by_section_loop_run file m a (Z.to_nat (le 2 60 file)) (le 8 40 file) (s_offset (shstrtab file))
    base bias None None None None d s t u); try done; try lia; rewrite Z2Nat.id; lia].
  cbn [negb andb dynstr_ dynsym_ context].
  assert (Hz : ∀ x, x ∈ sections file → placed (Some x)).
  { intros x Hx. pose proof (shdrs_range (Z.to_nat (le 2 60 file)) (le 8 40 file) (le 2 58 file) file Hb) as Hr.
    rewrite Forall_forall in Hr. apply placed_Some. by destruct (Hr x Hx). }
  destruct (tables_in _ _ _ _ _ _ _ Htab) as (Hd & Hs & _). by rewrite !truthy_pointer by auto.
Qed.

Lemma by_fake_dlsym_run file m a base bias B d s t u name :
  mapped m a file → 0 < a → a + Z.of_nat (length file) < 2 ^ 48 → by_file file bias →
  tables file (s_offset (shstrtab file)) (sections file) None None None None d s t u →
  in_file file d → (∀ x y, t = Some x → u = Some y → in_file file x) → base = B ⊕ bias → Forall (λ c, c ≠ 0) name →
  by_fake_dlsym (context a (Z.of_nat (length file)) base bias (Some d) (Some s) t u) name m =
    (Ret (by_address file d s t u B base bias name), m).
Proof.
  intros Hm Ha Hmax [[_ _ _ Hb] Hsize Hl _ _ _ _ Hbeg _] Htab Hdf Htf Hbase Hname.
  destruct (tables_in _ _ _ _ _ _ _ Htab) as (Hd & Hs & Ht & Hu).
  pose proof (shdrs_range (Z.to_nat (le 2 60 file)) (le 8 40 file) (le 2 58 file) file Hb) as Hr. fold (sections file) in Hr.
  rewrite Forall_forall in Hr, Hbeg.
  assert (Hz : ∀ x, x ∈ sections file → 0 ≤ s_offset x ∧ 0 ≤ s_size x ∧ s_offset x < Z.of_nat (length file))
    by (intros x Hx; destruct (Hr x Hx), (Hbeg x Hx); done).
  assert (Hp : ∀ x, x ∈ sections file → placed (Some x)) by (intros x Hx; apply placed_Some; by destruct (Hz x Hx)).
  assert (Hback : ∀ v, base ⊕ v ⊖ bias = B ⊕ v).
  { intros v. rewrite Hbase, wrap_add_l, <- Z.add_opp_r, wrap_add_l. f_equal. lia. }
  assert (Hrun : ∀ tab strs, tab ∈ sections file → in_file file tab → strs ∈ sections file →
    by_sym_loop (Z.to_nat (count (Some tab))) (pointer a (Some tab)) (pointer a (Some strs)) (a + Z.of_nat (length file)) name
      (context a (Z.of_nat (length file)) base bias (Some d) (Some s) t u) m =
    (Ret ((λ v, B ⊕ v) <$> by_lookup file tab strs base bias name), m)).
  { intros tab strs H1 H2 H3. destruct (Hz tab H1) as (? & ? & _), (Hz strs H3) as (? & _ & ?).
    rewrite by_table_run by (done || lia). cbn [baseaddr biasaddr context]. do 2 f_equal.
    destruct (by_lookup _ _ _ _ _ _); [|done]. cbn. by rewrite Hback. }
  unfold by_fake_dlsym. cbn [filedata filesize dynsym_ dynstr_ dynsym_num strtab_ symtab_ symtab_num context].
  rewrite (proj2 (Z.eqb_neq a 0)), (proj2 (Z.eqb_neq (Z.of_nat (length file)) 0)) by lia. cbn [orb].
  rewrite (wrap_small 64) by lia. rewrite !(truthy_pointer a (Some _)) by auto. cbn [andb bool_decide].
  change (bool_decide (is_Some (Some d)) && bool_decide (is_Some (Some s))) with true. cbv iota.
  rewrite (CM_bind_Ret _ _ m _ _ (Hrun d s Hd Hdf Hs)). unfold by_address.
  destruct (by_lookup file d s base bias name) as [v|]; [done|]. cbn [fmap option_fmap option_map].
  assert (Ht' : placed t) by (destruct t; [by apply Hp, Ht|done]). assert (Hu' : placed u) by (destruct u; [by apply Hp, Hu|done]).
  rewrite !truthy_pointer by done. destruct t as [t|]; [|done]. destruct u as [u|]; [|done].
  change (bool_decide (is_Some (Some t)) && bool_decide (is_Some (Some u))) with true. cbv iota.
  rewrite (CM_bind_Ret _ _ m _ _ (Hrun t u (Ht t eq_refl) (Htf t u eq_refl eq_refl) (Hu u eq_refl))).
  by destruct (by_lookup file t u base bias name).
Qed.

(** *** The tables as the file has them *)

Lemma le_bytes_of n k o size file :
  0 ≤ o → 0 ≤ k → k + Z.of_nat n ≤ size → le n k (bytes_of o size file) = le n (o + k) file.
Proof using Type.
  intros Ho Hk Hs. unfold le, bytes_of. rewrite skipn_firstn_comm, drop_drop, take_take.
  replace (Z.to_nat o + Z.to_nat k)%nat with (Z.to_nat (o + k)) by lia. by rewrite Nat.min_l by lia.
Qed.

Lemma cstr_take (l : list Z) n : 0 ∈ take n l → cstr (take n l) = cstr l.
Proof using Type.
  revert n. induction l as [|c l IH]; intros [|n]; cbn [firstn]; [done|done|by intros ?%not_elem_of_nil|].
  intros Hin. cbn [cstr]. destruct (Z.eqb_spec c 0); [done|]. f_equal. apply IH. by apply elem_of_cons in Hin as [?|?].
Qed.

Lemma string_contents s file n :
  last (contents s file) = Some 0 → 0 ≤ s_offset s → 0 ≤ n < Z.of_nat (length (contents s file)) →
  string_at (contents s file) n = string_at file (s_offset s + n).
Proof using Type.
  intros Hl Ho Hn. pose proof (last_drop_in (contents s file) (Z.to_nat n) Hl ltac:(lia)) as Hin.
  unfold string_at. unfold contents, bytes_of in *. rewrite skipn_firstn_comm, drop_drop in Hin |- *.
  rewrite cstr_take by done. do 2 f_equal. lia.
Qed.

Lemma find_fmap_eq {A B C} (l : list A) (f : A → B) (g : A → C) (p : B → bool) (q : C → bool) {D} (v : B → D) (w : C → D) :
  (∀ k, k ∈ l → p (f k) = q (g k) ∧ v (f k) = w (g k)) →
  v <$> List.find p (f <$> l) = w <$> List.find q (g <$> l).
Proof using Type.
  induction l as [|k l IH]; intros H; [done|]. destruct (H k) as [Hp Hv]; [by left|].
  cbn [fmap list_fmap List.find]. rewrite Hp. destruct (q (g k)).
  - cbn [fmap option_fmap option_map]. by rewrite Hv.
  - apply IH. intros k' Hk. apply H. by right.
Qed.

(** A table of symbols and its strings are in the file, and no address of a
    symbol is behind the end of memory. *)
Record table_ok (file : list Z) (B bias : Z) (d s : shdr) : Prop := {
  tk_symbols : in_file file d;
  tk_strings : in_file file s;
  tk_names : names_ok (symbols (contents d file)) (contents s file);
  tk_values : Forall (λ y, B + bias + y_value y < 2 ^ 64) (symbols (contents d file))
}.

Definition named_in (file : list Z) (d s : shdr) (name : list Z) : option esym :=
  first_named (symbols (contents d file)) (contents s file) name.

Lemma by_lookup_named file B bias d s name :
  table_ok file B bias d s → Forall (λ b, 0 ≤ b < 256) file → 0 ≤ s_offset d → 0 ≤ s_size d → 0 ≤ s_offset s → 0 ≤ s_size s →
  0 < B → 0 ≤ bias →
  by_lookup file d s (B ⊕ bias) bias name = y_value <$> named_in file d s name.
Proof using Type.
  intros [Hd Hs [Hl Hn] Hv] Hb Hd1 Hd2 Hs1 Hs2 HB Hbias. unfold by_lookup, named_in, first_named, file_symbols, symbols in *.
  pose proof (contents_length d file Hd Hd1 Hd2) as Ed. pose proof (contents_length s file Hs Hs1 Hs2) as Es.
  rewrite Ed in *. replace (Z.to_nat (s_size d / 24)) with (Z.to_nat (s_size d) / 24)%nat by (rewrite Z2Nat.inj_div by lia; done).
  apply find_fmap_eq. intros k Hk. rewrite Forall_fmap, Forall_forall in Hn, Hv. specialize (Hn k Hk). specialize (Hv k Hk).
  apply elem_of_seq in Hk as [_ Hk]. pose proof (Nat.Div0.mul_div_le (Z.to_nat (s_size d)) 24) as Hdiv.
  assert (E : ∀ n i, 0 ≤ i → i + Z.of_nat n ≤ 24 →
    le n (SIZEOF_SYM * Z.of_nat k + i) (contents d file) = le n (s_offset d + 24 * Z.of_nat k + i) file).
  { intros n i Hi Hni. unfold contents, SIZEOF_SYM. rewrite le_bytes_of by lia. f_equal. lia. }
  pose proof (E 4%nat 0 ltac:(lia) ltac:(lia)) as E4. rewrite !Z.add_0_r in E4.
  unfold compose, symbol_at, esym_at, in_file in *. cbn [fst snd y_name y_value] in *.
  rewrite (E 8%nat 8) in * by lia. rewrite E4 in *. split; [|done].
  unfold is_symbol. cbn [fst snd]. rewrite string_contents by (done || lia).
  pose proof (le8_range (s_offset d + 24 * Z.of_nat k + 8) file Hb) as Hr.
  rewrite (proj2 (Z.ltb_lt (s_offset s + _) _)) by lia. rewrite (wrap_add_l 64), (wrap_small 64) by lia.
  rewrite (proj2 (Z.ltb_lt bias _)) by lia. rewrite andb_true_r. cbn [andb]. apply bool_decide_ext. naive_solver.
Qed.

(** The symbol of that name: the first in the dynamic table, or else in the
    full one. *)
Definition by_symbol (file : list Z) (d s : shdr) (t u : option shdr) (name : list Z) : option esym :=
  match named_in file d s name, t, u with
  | Some y, _, _ => Some y
  | None, Some t, Some u => named_in file t u name
  | _, _, _ => None
  end.

(** *** The line of the text

    The first line with the name that is of executable memory: where the segment
    is and its offset in the file. *)
Definition not_text (filename line : list Z) : Prop :=
  strstr (cstr line) filename = true →
    ∃ start token off rest c, sscanf_maps_offset (cstr line) = Some (start, token, off, rest) ∧ token !! 2%nat = Some c ∧ c ≠ 120.
Definition text_line (m : memory) (filename path : list Z) (start off : Z) : Prop :=
  ∃ text pre line post token rest,
    k_maps m = Some text ∧ maps_lines text = pre ++ line :: post ∧ Forall (not_text filename) pre ∧
    strstr (cstr line) filename = true ∧ sscanf_maps_offset (cstr line) = Some (start, token, off, rest) ∧
    token !! 2%nat = Some 120 ∧
    path = match filename with 47 :: _ => strlcpy 512 filename | _ => strlcpy 512 (trim rest) end.

Lemma perm_get_token token perm i c : token !! i = Some c → perm_get (perm_store token perm) i = Ret c.
Proof using Type.
  intros H. unfold perm_get, perm_store. rewrite lookup_app_l; [|rewrite length_fmap; by eapply lookup_lt_Some].
  by rewrite list_lookup_fmap, H.
Qed.

Lemma by_find_maps_run m filename path start off :
  text_line m filename path start off → off < start →
  by_fake_find_maps filename m = (Ret (start ⊖ off, Some path), m).
Proof using Type.
  intros (text & pre & line & post & token & rest & Hmaps & Hlines & Hpre & Hname & Hscan & Hx & ->) Hoff.
  unfold by_fake_find_maps. rewrite CM_bind_gets, Hmaps, Hlines. clear Hlines.
  assert (H : ∀ perm, find_maps_loop (pre ++ line :: post) filename perm =
    Ret (start ⊖ off, Some match filename with 47 :: _ => strlcpy 512 filename | _ => strlcpy 512 (trim rest) end)).
  2: { by rewrite H. }
  induction Hpre as [|l pre Hl _ IH]; intros perm; cbn [app find_maps_loop].
  - rewrite Hname, Hscan, (perm_get_token _ _ _ _ Hx). cbn [obind Z.eqb Pos.eqb negb].
    by rewrite (proj2 (Z.ltb_lt off start)) by done.
  - unfold not_text in Hl. destruct (strstr (cstr l) filename); [|apply IH].
    destruct (Hl eq_refl) as (st & tk & o & r & c & -> & Hc & Hne). rewrite (perm_get_token _ _ _ _ Hc). cbn [obind].
    rewrite (proj2 (Z.eqb_neq c 120)) by done. apply IH.
Qed.

Lemma segment_base file B x start off bias :
  loaded_segment file B x start off → ph_vaddr x - bias = ph_offset x → start ⊖ off = B ⊕ bias.
Proof using Type.
  intros [_ _ Hc -> ->] Hb. rewrite <- Z.add_opp_r, wrap_add_l. unfold page_of. rewrite Hc. f_equal. lia.
Qed.

Lemma by_address_symbol file B bias d s t u base name :
  base = B ⊕ bias → 0 < B → by_file file bias →
  tables file (s_offset (shstrtab file)) (sections file) None None None None d s t u →
  table_ok file B bias d s → (∀ t' u', t = Some t' → u = Some u' → table_ok file B bias t' u') →
  by_address file d s t u B base bias name = answer B (by_symbol file d s t u name).
Proof using Type.
  intros -> HB [[_ _ _ Hb] _ _ _ _ Hbias _ _ _] Htab Hd Ht.
  destruct (tables_in _ _ _ _ _ _ _ Htab) as (Hdi & Hsi & Hti & Hui).
  pose proof (shdrs_range (Z.to_nat (le 2 60 file)) (le 8 40 file) (le 2 58 file) file Hb) as Hr. fold (sections file) in Hr.
  rewrite Forall_forall in Hr.
  assert (Hbias0 : 0 ≤ bias).
  { unfold first_load in Hbias. destruct (List.find _ (segments file)) as [x|] eqn:E; [|done]. injection Hbias as <-.
    apply find_some in E as [E _]. rewrite <- list_elem_of_In in E. by eapply segments_range. }
  assert (Hrun : ∀ tab strs, tab ∈ sections file → strs ∈ sections file → table_ok file B bias tab strs →
    by_lookup file tab strs (B ⊕ bias) bias name = y_value <$> named_in file tab strs name).
  { intros tab strs H1 H2 H3. destruct (Hr tab H1), (Hr strs H2). by apply by_lookup_named. }
  rewrite answer_value. unfold by_address, by_symbol. rewrite (Hrun d s) by done.
  destruct (named_in file d s name) as [y|]; [done|]. cbn [fmap option_fmap option_map].
  destruct t as [t|], u as [u|]; [|done..]. rewrite (Hrun t u) by auto. by destruct (named_in file t u name).
Qed.

Context {jni : Jni}.

(** C17: for an ELF file whose mapping the maps show, by_dlopen succeeds; for a
    name by_dlsym gives the address of the first symbol of that name in the
    dynamic table, or else in the full one, or else null; by_dlclose leaves all
    that was mapped as it was.  The first executable line of the library is of a
    segment that is as far behind the start of the file in memory as it is in
    the file; where it is further behind the answer is wrong
    (own_segment_missed).  For a symbol without an address in the library, an
    imported one for instance, it is the value on top of the load bias
    (import_found). *)
Theorem by_dlopen_resolves m tls filename flag path start off B bias x fd errno a m1 d s t u :
  let file := f_bytes fd in
  text_line m filename path start off → off < start →
  loaded_segment file B x start off → ph_vaddr x - bias = ph_offset x → 0 < B →
  f_open 0 path m = (fd, errno) → 0 < fd → f_size fd m = Some (Z.of_nat (length file)) →
  f_mmap m (Z.of_nat (length file)) fd = (Some a, m1) → f_malloc 88 = true →
  by_file file bias → tables file (s_offset (shstrtab file)) (sections file) None None None None d s t u →
  table_ok file B bias d s → (∀ t' u', t = Some t' → u = Some u' → table_ok file B bias t' u') →
  ∃ c, by_dlopen tls filename flag m = (Ret (Some c, tls), m1) ∧
    (∀ name, Forall (λ c, c ≠ 0) name → by_dlsym (Some c) name m1 = (Ret (answer B (by_symbol file d s t u name)), m1)) ∧
    ∃ m2, by_dlclose (Some c) m1 = (Ret 0, m2) ∧ kept m m2.
Proof.
  intros file Htext Hoff Hx Hxo HB0 Hopen Hfd Hsize Hmmap Hmalloc Hfile Htab Hd Ht. pose proof Hfile as [[_ _ _ Hb] Hlen _ _ _ _ _ _ _].
  pose proof (by_find_maps_run _ _ _ _ _ Htext Hoff) as Hmaps. pose proof (segment_base _ _ _ _ _ _ Hx Hxo) as HB.
  pose proof (segments_range file (Z.to_nat (le 2 56 file)) (le 8 32 file) (le 2 54 file) Hb x (ls_segment _ _ _ _ _ Hx)) as [Hx0 _].
  assert (Hbase : start ⊖ off ≠ 0).
  { pose proof Hx as [_ _ _ Hs Ho]. pose proof (wrap_range 64 (B + page_of (ph_vaddr x))). rewrite <- Hs in *.
    assert (0 ≤ off) by (rewrite Ho; unfold page_of, PAGE_SIZE; Z.to_euclidean_division_equations; lia). rewrite wrap_small by lia. lia. }
  remember (start ⊖ off) as base eqn:Ebase. clear Ebase.
  destruct (@f_mmap_maps _ _ laws m _ fd a m1 Hmmap ltac:(lia) eq_refl) as (Ha & Hmax & Hmap & Hunmap). fold file in Hmap.
  exists (context a (Z.of_nat (length file)) base bias (Some d) (Some s) t u). split_and!.
  - unfold by_dlopen. rewrite (CM_bind_Ret _ _ m (Some (context a (Z.of_nat (length file)) base bias (Some d) (Some s) t u)) m1); [done|].
    unfold by_fake_dlopen. rewrite (CM_bind_Ret _ _ m _ _ Hmaps). rewrite (proj2 (Z.eqb_neq base 0)) by done.
    rewrite Hmalloc. cbn [negb lift_opt]. rewrite CM_left_id.
    rewrite (CM_bind_Ret _ _ m (a, Z.of_nat (length file)) m1).
    2: { unfold by_fake_open_file. rewrite CM_bind_gets, Hopen. rewrite (proj2 (Z.ltb_ge fd 0)) by lia. cbn [andb].
         rewrite CM_left_id. rewrite (proj2 (Z.ltb_lt 0 fd)) by done. cbn [negb]. rewrite CM_bind_gets, Hsize.
         rewrite (proj2 (Z.eqb_neq (Z.of_nat (length file)) 0)) by lia. rewrite CM_bind_get, Hmmap, CM_bind_put.
         by rewrite (proj2 (Z.eqb_neq a 0)) by lia. }
    unfold truthy. rewrite (proj2 (Z.eqb_neq a 0)), (proj2 (Z.eqb_neq (Z.of_nat (length file)) 0)) by lia. cbn [negb andb].
    change (set_file a (Z.of_nat (length file)) _) with (context a (Z.of_nat (length file)) base 0 None None None None).
    rewrite (CM_bind_Ret _ _ m1 _ m1 (by_parse_elf_run file m1 a base bias d s t u Hmap Ha Hmax Hfile Htab)). done.
  - intros name Hname. unfold by_dlsym. cbn [magic context]. rewrite Z.eqb_refl.
    rewrite (by_fake_dlsym_run _ _ _ _ _ B) by (done || apply Hd || (intros; by eapply tk_symbols, Ht)). do 2 f_equal.
    by apply by_address_symbol.
  - exists (f_munmap m1 a (Z.of_nat (length file))). split; [|by apply Hunmap]. unfold by_dlclose, by_fake_dlclose.
    cbn [magic context filedata filesize]. rewrite Z.eqb_refl. unfold truthy. by rewrite (proj2 (Z.eqb_neq a 0)) by lia.
Qed.

End byopen.

(** ** A concrete system

    One file, mapped behind everything that is mapped. *)

Fixpoint put_bytes (a : Z) (bs : list Z) (d : gmap Z Z) : gmap Z Z :=
  match bs with [] => d | b :: bs => <[a := b]> (put_bytes (a + 1) bs d) end.

Definition pages (len : Z) : Z := (len / PAGE_SIZE + 1) * PAGE_SIZE.
Definition map_file (m : memory) (bs : list Z) : option Z * memory :=
  let a := top_page m * PAGE_SIZE in
  if a + Z.of_nat (length bs) <? 2 ^ 48 then
    (Some a, Memory (put_bytes a bs (m_data m)) (m_prot (set_prot a (pages (Z.of_nat (length bs))) PROT_READ m)) (m_flushed m))
  else (None, m).
Definition unmap (m : memory) (a len : Z) : memory :=
  Memory (m_data m) (foldr (λ i pm, delete (a / PAGE_SIZE + Z.of_nat i) pm) (m_prot m) (seq 0 (Z.to_nat (pages len / PAGE_SIZE)))) (m_flushed m).

Definition sample_files (path bytes : list Z) : Files := {|
  f_open _ p _ := if bool_decide (p = path) then (3, 0) else (-1, 2);
  f_size fd _ := if fd =? 3 then Some (Z.of_nat (length bytes)) else None;
  f_mmap m len fd := if fd =? 3 then map_file m bytes else (None, m);
  f_munmap := unmap;
  f_malloc _ := true
|}.
Definition sample_bytes (bytes : list Z) (fd : Z) : list Z := if fd =? 3 then bytes else [].

Lemma put_bytes_lookup a bs d b :
  put_bytes a bs d !! b = if decide (a ≤ b < a + Z.of_nat (length bs)) then bs !! Z.to_nat (b - a) else d !! b.
Proof.
  revert a. induction bs as [|c bs IH]; intros a; cbn [put_bytes length].
  { by rewrite decide_False by lia. }
  destruct (decide (b = a)) as [->|Hne].
  { rewrite lookup_insert_eq, decide_True by lia. by rewrite Z.sub_diag. }
  rewrite lookup_insert_ne, IH by done. case_decide as H1; case_decide as H2; try lia; [|done].
  replace (Z.to_nat (b - a)) with (S (Z.to_nat (b - (a + 1)))) by lia. done.
Qed.

Lemma foldr_delete_lookup a (l : list nat) (pm : gmap Z Z) k :
  k < a → foldr (λ i pm, delete (a + Z.of_nat i) pm) pm l !! k = pm !! k.
Proof. intros Hk. induction l as [|i l IH]; [done|]. cbn [foldr]. by rewrite lookup_delete_ne by lia. Qed.

Lemma sample_files_laws path bytes :
  Forall (λ b, 0 ≤ b < 256) bytes → FilesLaws (sample_files path bytes) (sample_bytes bytes).
Proof.
  intros Hb. split; cbn.
  - intros fd m n. unfold sample_bytes. by destruct (fd =? 3); intros [= <-].
  - intros m len fd a m'. unfold sample_bytes. destruct (fd =? 3); [|done]. unfold map_file.
    destruct (Z.ltb_spec (top_page m * PAGE_SIZE + Z.of_nat (length bytes)) (2 ^ 48)); [|done]. intros [= <- <-] Hlen ->.
    pose proof (top_page_pos m) as Htop. set (a := top_page m * PAGE_SIZE) in *.
    assert (Ha : a / PAGE_SIZE = top_page m) by (unfold a, PAGE_SIZE; by rewrite Z.div_mul).
    assert (Hpg : ∀ b, is_Some (m_prot m !! (b / PAGE_SIZE)) → b / PAGE_SIZE < top_page m) by (intros b; apply top_page_above).
    split_and!; [unfold a, PAGE_SIZE; lia|done| |].
    + intros i Hi. split.
      * assert (E : prot_at (set_prot a (pages (Z.of_nat (length bytes))) PROT_READ m) (a + Z.of_nat i) = PROT_READ).
        { rewrite prot_at_set_prot, decide_True; [done| | |].
          - unfold pages, PAGE_SIZE. Z.to_euclidean_division_equations; lia.
          - unfold a. by rewrite Z.mod_mul.
          - unfold pages. by rewrite Z.mod_mul. }
        transitivity (truthy (prot_at (set_prot a (pages (Z.of_nat (length bytes))) PROT_READ m) (a + Z.of_nat i) & PROT_READ));
          [done|by rewrite E].
      * unfold byte_of. cbn [m_data]. rewrite put_bytes_lookup, decide_True by lia.
        replace (Z.to_nat (a + Z.of_nat i - a)) with i by lia.
        destruct (lookup_lt_is_Some_2 bytes i Hi) as [b E]. rewrite E. cbn. f_equal.
        rewrite Forall_lookup in Hb. symmetry. apply wrap_small. by apply (Hb i).
    + intros m'' Hk b Hmap. pose proof (Hpg b Hmap) as Hlt.
      assert (Hsame : m_prot (set_prot a (pages (Z.of_nat (length bytes))) PROT_READ m) !! (b / PAGE_SIZE) = m_prot m !! (b / PAGE_SIZE)).
      { unfold set_prot. cbn [m_prot]. rewrite foldr_insert_lookup, decide_False; [done|].
        intros (i & Hi & _)%list_elem_of_fmap. lia. }
      destruct (Hk b) as [H1 H2];
        [change (is_Some (m_prot (set_prot a (pages (Z.of_nat (length bytes))) PROT_READ m) !! (b / PAGE_SIZE))); by rewrite Hsame|].
      change (m_prot m'' !! (b / PAGE_SIZE) = m_prot (set_prot a (pages (Z.of_nat (length bytes))) PROT_READ m) !! (b / PAGE_SIZE)) in H1.
      cbn [m_data] in H2. rewrite Hsame in H1.
      unfold unmap. cbn [m_prot m_data]. rewrite foldr_delete_lookup by lia. split; [done|].
      rewrite H2, put_bytes_lookup, decide_False; [done|]. intros [Hge _].
      assert (a / PAGE_SIZE ≤ b / PAGE_SIZE) by (apply Z.div_le_mono; [done|lia]). lia.
Qed.

(** *** A library

    Three symbols: open at 0x1010, read at 0x1020, and malloc, which it
    imports.  Its text is at the offset [text] of the file, and at [vaddr]. *)

Definition lebytes (n : nat) (v : Z) : list Z := (λ i, (v / 256 ^ Z.of_nat i) mod 256) <$> seq 0 n.
Definition pad (n : nat) (l : list Z) : list Z := l ++ replicate (n - length l) 0.
Definition sym_entry (name value : Z) : list Z := lebytes 4 name ++ lebytes 4 0 ++ lebytes 8 value ++ lebytes 8 0.
Definition sec_header (name type addr off size : Z) : list Z :=
  lebytes 4 name ++ lebytes 4 type ++ lebytes 8 0 ++ lebytes 8 addr ++ lebytes 8 off ++ lebytes 8 size ++ replicate 24 0.

Definition sample_lib (text vaddr : Z) : list Z :=
  pad 64 (replicate 32 0 ++ lebytes 8 64 ++ lebytes 8 0x1010 ++ lebytes 4 0 ++ lebytes 2 64 ++ lebytes 2 56 ++ lebytes 2 1 ++
          lebytes 2 64 ++ lebytes 2 5 ++ lebytes 2 4) ++
  pad 56 (lebytes 4 PT_LOAD) ++
  sym_entry 0 0 ++ sym_entry 1 0x1010 ++ sym_entry 6 0x1020 ++ sym_entry 11 0 ++
  pad 40 (0 :: str "open" ++ 0 :: str "read" ++ 0 :: str "malloc" ++ 0 :: 0 :: str ".dynstr") ++
  replicate (16 * 241) 0 ++
  sec_header 0 0 0 0 0 ++ sec_header 0 SHT_DYNSYM 120 120 96 ++ sec_header 19 SHT_STRTAB 216 216 40 ++
  sec_header 0 SHT_PROGBITS vaddr text 16 ++ sec_header 0 SHT_STRTAB 0 216 40.

(** The maps of a library of one executable segment, and of one whose text is a
    segment of its own at the offset 0x1000, loaded at 0x70000000. *)
Definition lib_path : list Z := str "/data/libx.so".
Definition one_segment : list Z := line_of "70000000-70002000 r-xp 00000000 fd:00 7                                  /data/libx.so".
Definition own_segment (start : string) : list Z :=
  line_of "70000000-70001000 r--p 00000000 fd:00 7                                  /data/libx.so" ++
  line_of (start ++ " r-xp 00001000 fd:00 7                                  /data/libx.so").
Definition nothing : memory := Memory ∅ ∅ [].

(** What the two libraries find for a name. *)
Definition dlfc_finds (lib maps : list Z) (name : string) : outcome Z :=
  let K := granting_kernel (Some maps) in let files := sample_files lib_path lib in
  fst ((e ← fake_dlopen (str "libx.so") 0; e ← lift_opt Undefined e; fake_dlsym e (str name)) nothing).
Definition byopen_finds (lib maps : list Z) (name : string) : outcome Z :=
  let K := granting_kernel (Some maps) in let files := sample_files lib_path lib in
  fst ((c ← by_fake_dlopen (str "libx.so") 2; by_dlsym c (str name)) nothing).

Lemma sample_finds :
  (dlfc_finds (sample_lib 0x1000 0x1000) one_segment <$> ["open"; "read"; "close"]%string) =
    [Ret 0x70001010; Ret 0x70001020; Ret 0] ∧
  (byopen_finds (sample_lib 0x1000 0x1000) one_segment <$> ["open"; "read"; "close"]%string) =
    [Ret 0x70001010; Ret 0x70001020; Ret 0].
Proof. vm_compute. auto. Qed.

Definition lib : list Z := sample_lib 0x1000 0x1000.
Definition lib_dynsym : shdr := Shdr 0 SHT_DYNSYM 120 120 96.
Definition lib_strings : shdr := Shdr 19 SHT_STRTAB 216 216 40.
Definition lib_text : shdr := Shdr 0 SHT_PROGBITS 0x1000 0x1000 16.
Definition lib_shstr : shdr := Shdr 0 SHT_STRTAB 0 216 40.

Lemma lib_sections : sections lib = [Shdr 0 0 0 0 0; lib_dynsym; lib_strings; lib_text; lib_shstr].
Proof. vm_compute. reflexivity. Qed.

Lemma lib_length : length lib = 4432%nat.
Proof. vm_compute. reflexivity. Qed.

Lemma lib_range : Forall (λ b, 0 ≤ b < 256) lib.
Proof. apply (bool_decide_unpack _). vm_compute. exact I. Qed.

Lemma lib_elf : elf_file lib.
Proof. split; [vm_compute; discriminate..|exact lib_range]. Qed.

Lemma lib_in_file : Forall (in_file lib) [Shdr 0 0 0 0 0; lib_dynsym; lib_strings; lib_shstr].
Proof. unfold in_file. rewrite lib_length. apply (bool_decide_unpack _). vm_compute. exact I. Qed.

Lemma lib_tables : Forall (λ x, table x → in_file lib x) (sections lib).
Proof.
  rewrite lib_sections. pose proof lib_in_file as H. rewrite !Forall_cons in H. destruct H as (? & ? & ? & ? & _).
  rewrite !Forall_cons, Forall_nil. split_and!; [intros _; done..|by intros [?|?]|intros _; done|done].
Qed.

Lemma lib_layout : dl_layout (sections lib) lib_dynsym lib_strings lib_text.
Proof.
  exists [Shdr 0 0 0 0 0; lib_dynsym; lib_strings], [lib_shstr]. split; [exact lib_sections|]. split; [by right|by right| |done].
  intros pre1 q pre2 E Hq. assert (Hin : q ∈ [Shdr 0 0 0 0 0; lib_dynsym; lib_strings]) by (rewrite E, elem_of_app; right; by left).
  repeat apply elem_of_cons in Hin as [->|Hin]; try done. by apply not_elem_of_nil in Hin.
Qed.

Lemma lib_names : names_ok (symbols (contents lib_dynsym lib)) (contents lib_strings lib).
Proof. split; [vm_compute; reflexivity|]. apply (bool_decide_unpack _). vm_compute. exact I. Qed.

Lemma lib_mapped : map_file nothing lib = (Some 4096, (map_file nothing lib).2).
Proof.
  unfold map_file. rewrite lib_length. change (top_page nothing * PAGE_SIZE) with 4096. done.
Qed.

(** Its one segment begins with the file. *)
Definition lib_segment : phdr := Phdr PT_LOAD 0 0.
Lemma lib_loaded : loaded_segment lib 0x70000000 lib_segment 0x70000000 0.
Proof.
  split; [|done|done|vm_compute; reflexivity|done].
  assert (E : segments lib = [lib_segment]) by (vm_compute; reflexivity). rewrite E. by left.
Qed.

Lemma fake_dlopen_resolves_witness :
  let K := granting_kernel (Some one_segment) in let files := sample_files lib_path lib in
  ∃ e m', fake_dlopen (str "libx.so") 0 nothing = (Ret (Some e), m') ∧ kept nothing m' ∧
    ∀ name m'', Forall (λ c, c ≠ 0) name →
      fake_dlsym e name m'' =
        (Ret (answer 0x70000000 (first_named (symbols (contents lib_dynsym lib)) (contents lib_strings lib) name)), m'').
Proof.
  intros K files. pose proof (sample_files_laws lib_path lib lib_range) as laws.
  pose proof (fake_dlopen_resolves (K := K) (files := files) (laws := laws) nothing (str "libx.so") 0 lib_path 0x70000000 0x70000000 0x70002000 0
    3 0 4096 (map_file nothing lib).2 lib_dynsym lib_strings lib_text lib_segment) as H.
  assert (E : sample_bytes lib 3 = lib) by reflexivity. cbv zeta in H. rewrite E, lib_length in H. apply H; clear H E.
  - exists one_segment, one_segment, (lib_path ++ [10]). split_and!; [done|vm_compute; reflexivity..].
  - exact lib_loaded.
  - done.
  - done.
  - vm_compute; reflexivity.
  - done.
  - change (Some (Z.of_nat (length lib)) = Some 4432). by rewrite lib_length.
  - exact lib_mapped.
  - exact lib_elf.
  - done.
  - done.
  - exact lib_layout.
  - exact lib_tables.
  - exact lib_names.
Defined.

Lemma lib_by_file : by_file lib 0.
Proof.
  split.
  - exact lib_elf.
  - by rewrite lib_length.
  - vm_compute. reflexivity.
  - vm_compute. discriminate.
  - vm_compute. discriminate.
  - vm_compute. reflexivity.
  - vm_compute. reflexivity.
  - rewrite lib_sections. unfold begins. rewrite lib_length. apply (bool_decide_unpack _). vm_compute. exact I.
  - vm_compute. reflexivity.
Qed.

Lemma lib_by_tables : tables lib (s_offset (shstrtab lib)) (sections lib) None None None None lib_dynsym lib_strings None None.
Proof. rewrite lib_sections. repeat split; vm_compute; reflexivity. Qed.

(** A Java environment that is never there. *)
#[local] Instance no_jni : Jni := {
  call_getJNIEnv _ := mret 0;
  by_jni_System_load _ _ := mret false;
  by_jni_System_loadLibrary _ _ := mret false
}.

Lemma lib_table_ok : table_ok lib 0x70000000 0 lib_dynsym lib_strings.
Proof.
  pose proof lib_in_file as H. rewrite !Forall_cons in H. split; [apply H..|exact lib_names|].
  apply (bool_decide_unpack _). vm_compute. exact I.
Qed.

Lemma lib_text_line : text_line nothing (str "libx.so") lib_path 0x70000000 0 (K := granting_kernel (Some one_segment)).
Proof.
  eexists one_segment, [], one_segment, [], (str "r-xp"), _.
  split_and!; [done|vm_compute; reflexivity|done|vm_compute; reflexivity|vm_compute; reflexivity|done|vm_compute; reflexivity].
Qed.

Lemma by_dlopen_resolves_witness :
  let K := granting_kernel (Some one_segment) in let files := sample_files lib_path lib in
  let m1 := (map_file nothing lib).2 in
  ∃ c, by_dlopen 0 (str "libx.so") 2 nothing = (Ret (Some c, 0), m1) ∧
    (∀ name, Forall (λ c, c ≠ 0) name →
      by_dlsym (Some c) name m1 = (Ret (answer 0x70000000 (by_symbol lib lib_dynsym lib_strings None None name)), m1)) ∧
    ∃ m2, by_dlclose (Some c) m1 = (Ret 0, m2) ∧ kept nothing m2.
Proof.
  intros K files m1. pose proof (sample_files_laws lib_path lib lib_range) as laws.
  pose proof (by_dlopen_resolves (K := K) (files := files) (laws := laws) nothing 0 (str "libx.so") 2 lib_path 0x70000000 0 0x70000000 0 lib_segment
    3 0 4096 m1 lib_dynsym lib_strings None None) as H.
  assert (E : sample_bytes lib 3 = lib) by reflexivity. cbv zeta in H. rewrite E, lib_length in H. apply H; clear H E.
  - exact lib_text_line.
  - done.
  - exact lib_loaded.
  - done.
  - done.
  - vm_compute. reflexivity.
  - done.
  - change (Some (Z.of_nat (length lib)) = Some 4432). by rewrite lib_length.
  - exact lib_mapped.
  - done.
  - exact lib_by_file.
  - exact lib_by_tables.
  - exact lib_table_ok.
  - done.
Defined.

(** *** What goes wrong

    A library whose text is a segment of its own: fake_dlopen takes the start of
    that segment for the start of the file, and everything it finds is as far
    off as the segment is behind it.  The other library takes the offset into
    account, but not that the segment may be further behind in memory than in
    the file. *)
Lemma own_segment_missed :
  dlfc_finds (sample_lib 0x1000 0x1000) (own_segment "70001000-70002000") "open" = Ret 0x70002010 ∧
  byopen_finds (sample_lib 0x1000 0x1000) (own_segment "70001000-70002000") "open" = Ret 0x70001010 ∧
  byopen_finds (sample_lib 0x1000 0x2000) (own_segment "70002000-70003000") "open" = Ret 0x70002010.
Proof. vm_compute. auto. Qed.

(** An imported function is found, at the start of the library. *)
Lemma import_found :
  dlfc_finds lib one_segment "malloc" = Ret 0x70000000 ∧ byopen_finds lib one_segment "malloc" = Ret 0x70000000.
Proof. vm_compute. auto. Qed.

(** The first mapping whose line contains the name is taken, also of another
    file. *)
Lemma other_library_taken :
  let maps := line_of "60000000-60001000 r-xp 00000000 fd:00 8                                  /data/mylibx.so" ++ one_segment in
  let K := granting_kernel (Some maps) in let files := sample_files lib_path lib in
  fst (fake_dlopen (str "libx.so") 0 nothing) = Ret None ∧ fst (by_fake_dlopen (str "libx.so") 2 nothing) = Ret None.
Proof. vm_compute. auto. Qed.

(** A file without tables: its memory is given back a second time, at 0. *)
Lemma no_tables_unmaps_null :
  let K := granting_kernel (Some one_segment) in let files := sample_files lib_path (pad 64 []) in
  m_prot (fake_dlopen (str "libx.so") 0 (Memory ∅ {[0 := PROT_READ]} [])).2 = ∅.
Proof. vm_compute. reflexivity. Qed.
