(* ===== verification/SymResolver.v ===== *)
(** * The symbol resolver of Dobby

    The list of loaded modules of ProcessRuntimeUtility.cc, and the plugin
    builtin-plugin/SymbolResolver/elf/dobby_symbol_resolver.cc: the file of a
    module is mapped and its symbol tables are searched, so that symbols the
    dynamic linker does not export are found. *)

From S2P Require Import Prelude CMem XhUtil XhElfTypes DobbyMem DlOpen.

#[local] Open Scope cint_scope.

(** ** State *)

(** The array [path] up to its first NUL; one of 1024 characters has none. *)
Record RuntimeModule : Set := mkRuntimeModule { path : list Z; load_address : Z }.
Definition SIZEOF_PATH : nat := 1024.
(** [RuntimeModule{0}] *)
Definition RuntimeModule_null : RuntimeModule := mkRuntimeModule [] 0.

(** The memory, and the static vector [modules], which is made at the first use
    and never emptied. *)
Record resolver : Set := mkResolver { r_mem : memory; modules : list RuntimeModule }.
Abbreviation RM := (CM resolver).

Definition on_mem {A} (c : CM memory A) : RM A := λ s,
  let '(r, m) := c (r_mem s) in (r, mkResolver m (modules s)).
Definition push_back (md : RuntimeModule) : RM unit :=
  modify (λ s, mkResolver (r_mem s) (modules s ++ [md])).

(** The path as a C string; without a NUL the reader runs into the address. *)
Definition module_path_str (md : RuntimeModule) : outcome (list Z) :=
  if (length (path md) <? SIZEOF_PATH)%nat then Ret (path md) else Err Undefined.

(** elf.h *)
Definition PT_PHDR : Z := 6.
(** The number of ELFMAG, its four bytes in order. *)
Definition ELFMAG : Z := 0x464c457f.

(** The dynamic linker: [dlsym(RTLD_DEFAULT, name)], 0 for nullptr. *)
Class Linker : Type := { dlsym_default : memory → list Z → Z }.

Section resolver.
Context {K : Kernel} {files : Files}.

(** ** ProcessRuntimeUtility.cc *)

(** The scan of sscanf_region, up to [%n]: the start of the region, its
    permissions and the text at [path_index]. *)
Definition sscanf_module_line (line : list Z) : option (Z * list Z * list Z) :=
  '(region_start, l) ← scan_hex line;
  l ← scan_char 45 l;
  '(_, l) ← scan_hex l;
  let l := skip_space l in
  let permissions := take 4 l in
  if bool_decide (permissions = []) then None
  else
    '(_, l) ← scan_hex (drop 4 l);
    '(_, l) ← scan_hex l;
    l ← scan_char 58 l;
    '(_, l) ← scan_hex l;
    '(_, l) ← scan_ld l;
    Some (region_start, permissions, skip_space l).

(** The rest of an iteration: the module is appended if the region starts with
    an ELF header and has a path.  It returns what [line_buffer] holds then: the
    newline is overwritten in place. *)
Definition add_module (line_buffer : list Z) (region_start : Z) (permissions path_buffer : list Z) : RM (list Z) :=
  if negb (bool_decide (permissions = str "r--p")) && negb (bool_decide (permissions = str "r-xp")) then mret line_buffer
  else
    magic ← on_mem (load32 region_start);
    if negb (magic =? ELFMAG) then mret line_buffer
    else
      match path_buffer with
      | [] => mret line_buffer
      | c :: _ =>
          if (c =? 10) || (c =? 91) then mret line_buffer
          else
            let newline := bool_decide (last path_buffer = Some 10) in
            let path_buffer := if newline then removelast path_buffer else path_buffer in
            _ ← push_back (mkRuntimeModule (take SIZEOF_PATH path_buffer) region_start);
            mret (if newline then removelast line_buffer else line_buffer)
      end.

(** The loop [while (!feof(fp))], as in layout_loop. *)
Fixpoint module_loop (fuel : nat) (text : list Z) (eof : bool) (stale : list Z) : RM unit :=
  if eof then mret tt
  else
    match fuel with
    | O => fail OutOfFuel
    | S fuel =>
        let '(line, rest) := fgets (LINE_MAX - 1) text in
        let eof := bool_decide (rest = []) && negb (bool_decide (last line = Some 10)) &&
                   (length line <? LINE_MAX - 1)%nat in
        let line_buffer := if bool_decide (line = []) then stale else cstr line in
        let overlong := (length line_buffer =? LINE_MAX)%nat in
        match (if overlong then skip_line rest else Some rest) with
        | None => mret tt
        | Some rest =>
            match sscanf_module_line line_buffer with
            | None => fail Aborted
            | Some (region_start, permissions, path_buffer) =>
                line_buffer ← add_module line_buffer region_start permissions path_buffer;
                module_loop fuel rest eof line_buffer
            end
        end
    end.

(** get_process_map_with_proc_maps; it returns the vector. *)
Definition GetProcessModuleMap : RM (list RuntimeModule) :=
  maps ← gets (λ s, k_maps (r_mem s));
  match maps with
  | None => gets modules
  | Some text => _ ← module_loop (S (S (length text))) text false []; gets modules
  end.

Fixpoint find_named (name : list Z) (mds : list RuntimeModule) : outcome RuntimeModule :=
  match mds with
  | [] => Ret RuntimeModule_null
  | md :: mds => obind (module_path_str md) (λ p, if strstr p name then Ret md else find_named name mds)
  end.
Definition GetProcessModule (name : list Z) : RM RuntimeModule :=
  modules ← GetProcessModuleMap; lift_outcome (find_named name modules).

(** ** dobby_symbol_resolver.cc *)

(** MAP_FAILED *)
Definition MAP_FAILED : Z := 2 ^ 64 - 1.

(** The address of the mapping, null if there is none, and its size.  Here
    [f_mmap] is the mapping with PROT_READ | PROT_WRITE.  When it fails, its
    MAP_FAILED is what is returned. *)
Definition file_mmap (file_path : list Z) : CM memory (Z * Z) :=
  '(fd, _) ← gets (f_open 0 file_path);
  if fd <? 0 then mret (0, 0)
  else
    st_size ← gets (f_size fd);
    match st_size with
    | None => mret (0, 0)
    | Some file_size =>
        m ← get;
        let '(mmap_data, m) := f_mmap m file_size fd in
        _ ← put m;
        mret (default MAP_FAILED mmap_data, file_size)
    end.
Definition file_unmap (data data_size : Z) : CM memory unit := munmap data data_size.

(** Pointers are addresses, null is 0.  The fields of the hash tables, which
    nothing writes or reads, are left out. *)
Record elf_ctx_t : Set := mkElfCtx {
  header : Z;
  load_bias : Z;
  sym_sh_ : Z;
  dynsym_sh_ : Z;
  strtab_ : Z;
  symtab_ : Z;
  dynstrtab_ : Z;
  dynsymtab_ : Z
}.
Definition elf_ctx_zero : elf_ctx_t := mkElfCtx 0 0 0 0 0 0 0 0.
Definition set_header v c := mkElfCtx v (load_bias c) (sym_sh_ c) (dynsym_sh_ c) (strtab_ c) (symtab_ c) (dynstrtab_ c) (dynsymtab_ c).
Definition set_load_bias v c := mkElfCtx (header c) v (sym_sh_ c) (dynsym_sh_ c) (strtab_ c) (symtab_ c) (dynstrtab_ c) (dynsymtab_ c).
Definition set_sym sh v c := mkElfCtx (header c) (load_bias c) sh (dynsym_sh_ c) (strtab_ c) v (dynstrtab_ c) (dynsymtab_ c).
Definition set_dynsym_sh sh v c := mkElfCtx (header c) (load_bias c) (sym_sh_ c) sh (strtab_ c) (symtab_ c) (dynstrtab_ c) v.
Definition set_strtab v c := mkElfCtx (header c) (load_bias c) (sym_sh_ c) (dynsym_sh_ c) v (symtab_ c) (dynstrtab_ c) (dynsymtab_ c).
Definition set_dynstrtab v c := mkElfCtx (header c) (load_bias c) (sym_sh_ c) (dynsym_sh_ c) (strtab_ c) (symtab_ c) v (dynsymtab_ c).

(** The loop over the [n] program headers from [ph] on; [phdr] is the first. *)
Fixpoint ctx_phdr_loop (n : nat) (ehdr_addr phdr ph : Z) (ctx : elf_ctx_t) : CM memory elf_ctx_t :=
  match n with
  | O => mret ctx
  | S n =>
      type ← p_type ph;
      ctx ← (if type =? PT_DYNAMIC then _ ← p_offset ph; mret ctx
             else if type =? PT_LOAD then
               offset ← p_offset ph;
               vaddr ← p_vaddr ph;
               mret (if load_bias ctx =? 0 then set_load_bias (ehdr_addr ⊖ (vaddr ⊖ offset)) ctx else ctx)
             else if type =? PT_PHDR then
               vaddr ← p_vaddr ph;
               mret (set_load_bias (phdr ⊖ vaddr) ctx)
             else mret ctx);
      ctx_phdr_loop n ehdr_addr phdr (ph ⊕ SIZEOF_PHDR) ctx
  end.

(** The loop over the sections: the last of a kind wins. *)
Fixpoint ctx_section_loop (n : nat) (ehdr_addr shstrtab sh : Z) (ctx : elf_ctx_t) : CM memory elf_ctx_t :=
  match n with
  | O => mret ctx
  | S n =>
      let is_table name := (sh_name ← sh_name sh; strcmp_eq (str name) (shstrtab ⊕ sh_name)) in
      let data := (offset ← sh_offset sh; mret (ehdr_addr ⊕ offset)) in
      type ← sh_type sh;
      ctx ← (if type =? SHT_SYMTAB then a ← data; mret (set_sym sh a ctx)
             else
               is_strtab ← (if type =? SHT_STRTAB then is_table ".strtab"%string else mret false);
               if is_strtab : bool then a ← data; mret (set_strtab a ctx)
               else if type =? SHT_DYNSYM then a ← data; mret (set_dynsym_sh sh a ctx)
               else
                 is_dynstr ← (if type =? SHT_STRTAB then is_table ".dynstr"%string else mret false);
                 if is_dynstr : bool then a ← data; mret (set_dynstrtab a ctx) else mret ctx);
      ctx_section_loop n ehdr_addr shstrtab (sh ⊕ SIZEOF_SHDR) ctx
  end.

(** It returns 0 always; the context is what it writes. *)
Definition elf_ctx_init (ctx : elf_ctx_t) (header_ : Z) : CM memory elf_ctx_t :=
  let ehdr := header_ in
  let ctx := set_header ehdr ctx in
  phoff ← e_phoff ehdr;
  phnum ← e_phnum ehdr;
  ctx ← ctx_phdr_loop (Z.to_nat phnum) ehdr (ehdr ⊕ phoff) (ehdr ⊕ phoff) ctx;
  shoff ← e_shoff ehdr;
  shstrndx ← e_shstrndx ehdr;
  offset ← sh_offset (ehdr ⊕ shoff ⊕ SIZEOF_SHDR * shstrndx);
  shnum ← e_shnum ehdr;
  ctx_section_loop (Z.to_nat shnum) ehdr (ehdr ⊕ offset) (ehdr ⊕ shoff) ctx.

Fixpoint iterate_symbol_table_impl (symbol_name : list Z) (sym strtab : Z) (count : nat) : CM memory Z :=
  match count with
  | O => mret 0
  | S count =>
      st_name ← st_name sym;
      eq ← strcmp_eq symbol_name (strtab ⊕ st_name);
      if eq : bool then st_value sym
      else iterate_symbol_table_impl symbol_name (sym ⊕ SIZEOF_SYM) strtab count
  end.

(** One of its two parts; [count] becomes an int. *)
Definition iterate_table (symbol_name : list Z) (symtab strtab sh : Z) : CM memory Z :=
  if truthy symtab && truthy strtab then
    sh_size ← sh_size sh;
    let count := sint 32 (sh_size / SIZEOF_SYM) in
    iterate_symbol_table_impl symbol_name symtab strtab (Z.to_nat count)
  else mret 0.
Definition elf_ctx_iterate_symbol_table (ctx : elf_ctx_t) (symbol_name : list Z) : CM memory Z :=
  result ← iterate_table symbol_name (symtab_ ctx) (strtab_ ctx) (sym_sh_ ctx);
  if truthy result then mret result
  else iterate_table symbol_name (dynsymtab_ ctx) (dynstrtab_ ctx) (dynsym_sh_ ctx).

(** What is done for a module, the same in both parts of
    resolve_elf_internal_symbol. *)
Definition resolve_in_module (module : RuntimeModule) (symbol_name : list Z) : RM Z :=
  '(file_mem, file_mem_size) ← (if truthy (load_address module)
    then p ← lift_outcome (module_path_str module); on_mem (file_mmap p) else mret (0, 0));
  '(ctx, result) ← (if truthy file_mem
    then ctx ← on_mem (elf_ctx_init elf_ctx_zero file_mem);
         result ← on_mem (elf_ctx_iterate_symbol_table ctx symbol_name);
         mret (ctx, result)
    else mret (elf_ctx_zero, 0));
  let result := if truthy result then result ⊕ load_address module ⊖ (file_mem ⊖ load_bias ctx) else result in
  _ ← when (truthy file_mem) (on_mem (file_unmap file_mem file_mem_size));
  mret result.

Fixpoint resolve_loop (mds : list RuntimeModule) (symbol_name : list Z) : RM Z :=
  match mds with
  | [] => mret 0
  | module :: mds =>
      result ← resolve_in_module module symbol_name;
      if truthy result then mret result else resolve_loop mds symbol_name
  end.

Definition resolve_elf_internal_symbol (library_name : option (list Z)) (symbol_name : list Z) : RM Z :=
  result ← match library_name with
           | Some library_name =>
               module ← GetProcessModule library_name;
               resolve_in_module module symbol_name
           | None => mret 0
           end;
  if truthy result then mret result
  else
    ProcessModuleMap ← GetProcessModuleMap;
    resolve_loop ProcessModuleMap symbol_name.

Context {linker : Linker}.

Definition DobbySymbolResolver (image_name : option (list Z)) (symbol_name_pattern : list Z) : RM Z :=
  result ← gets (λ s, dlsym_default (r_mem s) symbol_name_pattern);
  if truthy result then mret result
  else resolve_elf_internal_symbol image_name symbol_name_pattern.

End resolver.
