(* ===== verification/SymResolverProps.v ===== *)
(** * The symbol resolver, proved

    For well-formed files DobbySymbolResolver gives what the symbol tables say,
    moved to where the module is loaded, and leaves the process as it was; what
    the list of modules does from call to call; and where it goes wrong. *)

From S2P Require Import Prelude CMem XhUtil XhElfReloc XhElfRelocProps XhElfTypes XhUtilProps XhElfHash XhElfHashProps DobbyMem DobbyMemProps DlOpen DlOpenProps SymResolver.

#[local] Open Scope cint_scope.

(** ** Memories that are the same to a reader *)

Definition same (m m' : memory) : Prop := kept m m' ∧ kept m' m.

#[global] Instance same_equivalence : Equivalence same.
Proof.
  split.
  - by intros m.
  - by intros m m' [H1 H2].
  - intros m1 m2 m3 [H1 H2] [H3 H4]. split; by transitivity m2.
Qed.

Lemma same_prot m m' : same m m' → m_prot m = m_prot m'.
Proof.
  intros [H1 H2]. apply map_eq. intros k. set (b := k * PAGE_SIZE).
  assert (Hb : b / PAGE_SIZE = k) by (unfold b, PAGE_SIZE; by rewrite Z.div_mul).
  destruct (m_prot m !! k) as [p|] eqn:E1.
  - destruct (H1 b) as [H _]; rewrite Hb in *; [by rewrite E1|]. by rewrite H.
  - destruct (m_prot m' !! k) as [p|] eqn:E2; [|done]. destruct (H2 b) as [H _]; rewrite Hb in *; [by rewrite E2|]. congruence.
Qed.

Lemma same_byte m m' a : same m m' → byte_allows PROT_READ m a = true → byte_of m' a = byte_of m a.
Proof.
  intros [H _] Ha. unfold byte_of. destruct (H a) as [_ ->]; [|done].
  unfold byte_allows, prot_at in Ha. destruct (m_prot m !! (a / PAGE_SIZE)); [done|]. cbn in Ha. discriminate.
Qed.

Lemma same_allows m m' a : same m m' → byte_allows PROT_READ m' a = byte_allows PROT_READ m a.
Proof. intros H. unfold byte_allows, prot_at. by rewrite (same_prot m m' H). Qed.

Lemma load_same m m' n a : same m m' → load n a m' = ((load n a m).1, m') ∧ (load n a m).2 = m.
Proof.
  intros H. assert (Hgen : allows PROT_READ n a m' = allows PROT_READ n a m ∧
    (allows PROT_READ n a m = true → number_of m' n a = number_of m n a)).
  { revert a. induction n as [|n IH]; intros a; [done|]. cbn [allows number_of]. destruct (IH (a + 1)) as [IH1 IH2].
    rewrite (same_allows m m' a H), IH1. split; [done|]. intros [Ha Hn]%andb_true_iff. by rewrite (same_byte m m' a H Ha), IH2. }
  destruct Hgen as [H1 H2]. unfold load. rewrite H1. destruct (allows PROT_READ n a m); [|done]. by rewrite H2.
Qed.

(** ** Runs on the memory *)

Lemma on_mem_run {A} (c : CM memory A) m mds r m' :
  c m = (r, m') → on_mem c (mkResolver m mds) = (r, mkResolver m' mds).
Proof. unfold on_mem. cbn [r_mem modules]. by intros ->. Qed.

Lemma on_mem_Ret {A B} (c : CM memory A) (k : A → RM B) m mds a m' :
  c m = (Ret a, m') → (on_mem c ≫= k) (mkResolver m mds) = k a (mkResolver m' mds).
Proof. intros H. by apply CM_bind_Ret, on_mem_run. Qed.

(** ** What a file says *)

Definition program_headers (file : list Z) : list phdr := phdrs (Z.to_nat (le 2 56 file)) (le 8 32 file) SIZEOF_PHDR file.
Definition section_headers (file : list Z) : list shdr := shdrs (Z.to_nat (le 2 60 file)) (le 8 40 file) SIZEOF_SHDR file.
Definition section_names (file : list Z) : Z := s_offset (shdr_at (le 8 40 file + SIZEOF_SHDR * le 2 62 file) file).

(** The address the file is linked at: what the first loaded segment is behind
    its place in the file. *)
Definition link_base (file : list Z) : Z :=
  match List.find (λ x, ph_type x =? PT_LOAD) (program_headers file) with
  | Some x => ph_vaddr x ⊖ ph_offset x
  | None => 0
  end.

(** The last section of a type, or of a name. *)
Definition last_of_type (file : list Z) (t : Z) : option shdr := last (of_type t (section_headers file)).
Definition last_named (file : list Z) (name : string) : option shdr :=
  last (List.filter (named file (section_names file) name) (section_headers file)).

(** The value of the first symbol of that name in a table, 0 if there is none. *)
Definition entries_of (file : list Z) (tab : shdr) : list (Z * Z) :=
  file_symbols file (s_offset tab) (Z.to_nat (s_size tab / 24)).
Definition value_in (file : list Z) (tab strs : option shdr) (name : list Z) : Z :=
  match tab, strs with
  | Some t, Some s =>
      default 0 (snd <$> List.find (λ x, bool_decide (name = string_at file (s_offset s + x.1))) (entries_of file t))
  | _, _ => 0
  end.

(** The full table is asked first, then the dynamic one. *)
Definition symbol_value (file : list Z) (name : list Z) : Z :=
  let v := value_in file (last_of_type file SHT_SYMTAB) (last_named file ".strtab") name in
  if truthy v then v else value_in file (last_of_type file SHT_DYNSYM) (last_named file ".dynstr") name.

(** Where it is, for a file whose first byte is loaded at [load]. *)
Definition address_in (file : list Z) (load : Z) (name : list Z) : Z :=
  let v := symbol_value file name in if truthy v then load ⊕ v ⊖ link_base file else 0.

Definition is_table (x : shdr) : Prop := s_type x = SHT_SYMTAB ∨ s_type x = SHT_STRTAB ∨ s_type x = SHT_DYNSYM.

(** What is asked of a file: headers, tables and names are in it, its last byte
    is 0, so strings end, and PT_PHDR agrees with the first loaded segment. *)
Record resolvable (file : list Z) : Prop := {
  rf_size : 64 ≤ Z.of_nat (length file) < 2 ^ 31;
  rf_bytes : Forall (λ b, 0 ≤ b < 256) file;
  rf_last : last file = Some 0;
  rf_phdrs : le 8 32 file + SIZEOF_PHDR * le 2 56 file ≤ Z.of_nat (length file);
  rf_shdrs : le 8 40 file + SIZEOF_SHDR * le 2 60 file ≤ Z.of_nat (length file);
  rf_shstrndx : le 2 62 file < le 2 60 file;
  rf_shstrtab : section_names file < Z.of_nat (length file);
  rf_load : ∃ x, List.find (λ x, ph_type x =? PT_LOAD) (program_headers file) = Some x;
  rf_phdr : Forall (λ x, ph_type x = PT_PHDR → ph_vaddr x ⊖ le 8 32 file = link_base file) (program_headers file);
  rf_names : Forall (λ x, s_type x = SHT_STRTAB → section_names file + s_name x < Z.of_nat (length file)) (section_headers file);
  rf_tables : Forall (λ x, is_table x → in_file file x ∧ s_offset x < Z.of_nat (length file)) (section_headers file);
  rf_symbols : ∀ tab strs, (tab, strs) ∈ [(last_of_type file SHT_SYMTAB, last_named file ".strtab");
                                          (last_of_type file SHT_DYNSYM, last_named file ".dynstr")] →
    ∀ t s, tab = Some t → strs = Some s → Forall (λ x, s_offset s + x.1 < Z.of_nat (length file)) (entries_of file t)
}.

(** ** The loops over a mapped file *)

Section file.
Context (m : memory) (a : Z) (file : list Z).
Context (Hm : mapped m a file) (Ha : 0 < a) (Hmax : a + Z.of_nat (length file) < 2 ^ 48).
Context (Hb : Forall (λ b, 0 ≤ b < 256) file).

(** A number of the file, read. *)
Lemma load_number {B} n o (k : Z → CM memory B) :
  0 ≤ o → o + Z.of_nat n ≤ Z.of_nat (length file) → (load n (a + o) ≫= k) m = k (le n o file) m.
Proof. intros H1 H2. apply CM_bind_Ret. by apply load_file. Qed.

(** [p + d] with [p = a + o], as load_number has it. *)
Ltac read := rewrite <- ?Z.add_assoc, load_number by lia.

(** What the program headers do to the bias. *)
Definition bias_step (ph0 : Z) (b : Z) (x : phdr) : Z :=
  if ph_type x =? PT_DYNAMIC then b
  else if ph_type x =? PT_LOAD then (if b =? 0 then a ⊖ (ph_vaddr x ⊖ ph_offset x) else b)
  else if ph_type x =? PT_PHDR then ph0 ⊖ ph_vaddr x
  else b.

Lemma ctx_phdr_loop_run n o ph0 ctx :
  0 ≤ o → o + Z.of_nat n * SIZEOF_PHDR ≤ Z.of_nat (length file) →
  ctx_phdr_loop n a ph0 (a + o) ctx m =
    (Ret (set_load_bias (foldl (bias_step ph0) (load_bias ctx) (phdrs n o SIZEOF_PHDR file)) ctx), m).
Proof.
  revert o ctx. unfold SIZEOF_PHDR. induction n as [|n IH]; intros o ctx Ho Hn; [by destruct ctx|].
  cbn [ctx_phdr_loop phdrs foldl]. unfold p_type, p_offset, p_vaddr, SIZEOF_PHDR. rewrite (wrap_small 64 (a + o + 56)) by lia.
  read. cbn [bias_step ph_type]. unfold bias_step at 2. cbn [ph_type ph_vaddr ph_offset].
  destruct (le 4 o file =? PT_DYNAMIC); [|destruct (le 4 o file =? PT_LOAD); [|destruct (le 4 o file =? PT_PHDR)]];
    repeat (rewrite CM_assoc; read); rewrite ?CM_assoc, CM_left_id, <- ?Z.add_assoc; rewrite IH by lia.
  - done.
  - by destruct (load_bias ctx =? 0).
  - done.
  - done.
Qed.

(** The last of the headers that fit, or what there was. *)
Definition newest (p : shdr → bool) (l : list shdr) (o : option shdr) : option shdr :=
  match last (List.filter p l) with Some x => Some x | None => o end.

Lemma newest_cons p x l o : newest p (x :: l) o = newest p l (if p x then Some x else o).
Proof. unfold newest. cbn [List.filter]. destruct (p x); [|done]. rewrite last_cons. by destruct (last _). Qed.

Lemma newest_None p l : newest p l None = last (List.filter p l).
Proof. unfold newest. by destruct (last _). Qed.

(** A pointer to a section header, null without one. *)
Definition header_at (sh : Z) (o : option shdr) : Prop :=
  match o with
  | None => sh = 0
  | Some x => ∃ i, sh = a + i ∧ 0 ≤ i ∧ i + SIZEOF_SHDR ≤ Z.of_nat (length file) ∧ shdr_at i file = x
  end.

(** The context holds these tables. *)
Record ctx_tables (ctx : elf_ctx_t) (hdr bias : Z) (t u d s : option shdr) : Prop := {
  ct_header : header ctx = hdr;
  ct_bias : load_bias ctx = bias;
  ct_symtab : symtab_ ctx = pointer a t;
  ct_strtab : strtab_ ctx = pointer a u;
  ct_dynsymtab : dynsymtab_ ctx = pointer a d;
  ct_dynstrtab : dynstrtab_ ctx = pointer a s;
  ct_sym_sh : header_at (sym_sh_ ctx) t;
  ct_dynsym_sh : header_at (dynsym_sh_ ctx) d
}.

Context (Hl : last file = Some 0).

Lemma name_test names name o :
  Forall (λ c, c ≠ 0) (str name) → 0 ≤ names → 0 ≤ o → o + 64 ≤ Z.of_nat (length file) →
  names + le 4 o file < Z.of_nat (length file) →
  (sh_name (a + o) ≫= λ n, strcmp_eq (str name) ((a + names) ⊕ n)) m =
    (Ret (bool_decide (str name = string_at file (names + le 4 o file))), m).
Proof.
  intros Hn H1 H2 H3 H4. pose proof (le_range 4 o file Hb). unfold sh_name. read.
  rewrite wrap_small by lia. rewrite <- Z.add_assoc. by apply strcmp_file; [| |lia|].
Qed.

Lemma ctx_section_loop_run n o names ctx hdr bias t u d s :
  0 ≤ o → o + Z.of_nat n * SIZEOF_SHDR ≤ Z.of_nat (length file) → 0 ≤ names →
  Forall (λ x, s_type x = SHT_STRTAB → names + s_name x < Z.of_nat (length file)) (shdrs n o SIZEOF_SHDR file) →
  Forall (λ x, is_table x → s_offset x < Z.of_nat (length file)) (shdrs n o SIZEOF_SHDR file) →
  ctx_tables ctx hdr bias t u d s →
  let l := shdrs n o SIZEOF_SHDR file in
  ∃ ctx', ctx_section_loop n a (a + names) (a + o) ctx m = (Ret ctx', m) ∧
    ctx_tables ctx' hdr bias (newest (λ x, s_type x =? SHT_SYMTAB) l t) (newest (named file names ".strtab") l u)
      (newest (λ x, s_type x =? SHT_DYNSYM) l d) (newest (named file names ".dynstr") l s).
Proof.
  unfold SIZEOF_SHDR. revert o ctx t u d s. induction n as [|n IH]; intros o ctx t u d s Ho Hn Hnm Hnames Htabs Hctx; [by exists ctx|].
  cbn [shdrs] in *. inversion_clear Hnames as [|? ? Hx Hnames']. inversion_clear Htabs as [|? ? Hy Htabs'].
  cbn [s_type s_name s_offset shdr_at] in Hx, Hy. pose proof (le8_range (o + 24) file Hb) as H24.
  rewrite !newest_cons. unfold named at 2 4. cbn [s_type s_name shdr_at].
  assert (Hdata : is_table (shdr_at o file) → ∀ B (k : Z → CM memory B),
    ((sh_offset (a + o) ≫= λ offset, mret (a ⊕ offset)) ≫= k) m = k (pointer a (Some (shdr_at o file))) m).
  { intros Ht B k. specialize (Hy Ht). unfold sh_offset. rewrite (wrap_small 64 (a + o + 24)) by lia.
    rewrite CM_assoc. read. rewrite CM_left_id, wrap_small by lia. done. }
  cbn [ctx_section_loop]. unfold sh_type, SIZEOF_SHDR. rewrite (wrap_small 64 (a + o + 4)), (wrap_small 64 (a + o + 64)) by lia.
  read. cbn [pointer s_offset shdr_at] in Hdata.
  assert (Hnext : ∀ ctx t u d s, ctx_tables ctx hdr bias t u d s →
    let l := shdrs n (o + 64) 64 file in
    ∃ ctx', ctx_section_loop n a (a + names) (a + (o + 64)) ctx m = (Ret ctx', m) ∧
      ctx_tables ctx' hdr bias (newest (λ x, s_type x =? SHT_SYMTAB) l t) (newest (named file names ".strtab") l u)
        (newest (λ x, s_type x =? SHT_DYNSYM) l d) (newest (named file names ".dynstr") l s)).
  { intros. apply IH; done || lia. }
  assert (Hat : header_at (a + o) (Some (shdr_at o file))) by (exists o; unfold SIZEOF_SHDR; repeat split; lia).
  destruct Hctx as [C1 C2 C3 C4 C5 C6 C7 C8].
  assert (Hst : is_table (shdr_at o file) ↔ le 4 (o + 4) file = SHT_SYMTAB ∨ le 4 (o + 4) file = SHT_STRTAB ∨ le 4 (o + 4) file = SHT_DYNSYM) by done.
  destruct (Z.eqb_spec (le 4 (o + 4) file) SHT_SYMTAB) as [E|E1].
  { rewrite E. cbn [Z.eqb SHT_SYMTAB SHT_STRTAB SHT_DYNSYM Pos.eqb andb].
    rewrite CM_assoc, Hdata by (apply Hst; by left). rewrite CM_left_id. apply Hnext. by split. }
  destruct (Z.eqb_spec (le 4 (o + 4) file) SHT_STRTAB) as [E|E2].
  { rewrite E. cbn [Z.eqb SHT_SYMTAB SHT_STRTAB SHT_DYNSYM Pos.eqb andb]. specialize (Hx E).
    rewrite CM_assoc. erewrite CM_bind_Ret; [|apply name_test; [by repeat constructor|lia..]].
    destruct (decide (str ".strtab" = string_at file (names + le 4 o file))) as [Eu|Eu];
      [rewrite (bool_decide_true _ Eu)|rewrite (bool_decide_false _ Eu)].
    { rewrite (bool_decide_false (str ".dynstr" = _)) by (rewrite <- Eu; done).
      rewrite CM_assoc, Hdata by (apply Hst; by right; left). rewrite CM_left_id. apply Hnext. by split. }
    rewrite CM_assoc. erewrite CM_bind_Ret; [|apply name_test; [by repeat constructor|lia..]].
    destruct (decide (str ".dynstr" = string_at file (names + le 4 o file))) as [Es|Es];
      [rewrite (bool_decide_true _ Es)|rewrite (bool_decide_false _ Es)].
    - rewrite CM_assoc, Hdata by (apply Hst; by right; left). rewrite CM_left_id. apply Hnext. by split.
    - rewrite CM_left_id. apply Hnext. by split. }
  rewrite CM_assoc, CM_left_id. destruct (Z.eqb_spec (le 4 (o + 4) file) SHT_DYNSYM) as [E|E3]; cbn [andb].
  - rewrite CM_assoc, Hdata by (apply Hst; by right; right). rewrite CM_left_id. apply Hnext. by split.
  - rewrite CM_assoc, !CM_left_id. apply Hnext. by split.
Qed.

(** The bias that is left: that of the first loaded segment, which PT_PHDR
    confirms. *)
Lemma bias_of_headers ph0 k l :
  a ⊖ k ≠ 0 → Forall (λ x, ph_type x = PT_PHDR → ph0 ⊖ ph_vaddr x = a ⊖ k) l →
  (∃ x, List.find (λ x, ph_type x =? PT_LOAD) l = Some x ∧ ph_vaddr x ⊖ ph_offset x = k) →
  foldl (bias_step ph0) 0 l = a ⊖ k.
Proof.
  intros Hk Hl' Hf. assert (Hgen : ∀ b, Forall (λ x, ph_type x = PT_PHDR → ph0 ⊖ ph_vaddr x = a ⊖ k) l →
    b = a ⊖ k ∨ (b = 0 ∧ ∃ x, List.find (λ x, ph_type x =? PT_LOAD) l = Some x ∧ ph_vaddr x ⊖ ph_offset x = k) →
    foldl (bias_step ph0) b l = a ⊖ k); [|apply Hgen; [done|by right]].
  clear Hl' Hf. induction l as [|x l IH]; intros b Hl' Hf; [by destruct Hf as [|[_ (? & ? & _)]]|].
  inversion_clear Hl' as [|? ? Hx Hl'']. cbn [foldl]. apply IH; [done|]. cbn [List.find] in Hf. unfold bias_step.
  destruct (Z.eqb_spec (ph_type x) PT_DYNAMIC) as [E|E1].
  { rewrite E in Hf. exact Hf. }
  destruct (Z.eqb_spec (ph_type x) PT_LOAD) as [E|E2].
  { left. destruct Hf as [->|[-> (y & [= <-] & <-)]]; [by rewrite (proj2 (Z.eqb_neq _ 0))|done]. }
  destruct (Z.eqb_spec (ph_type x) PT_PHDR) as [E|E3]; [|exact Hf]. left. by apply Hx.
Qed.

Lemma iterate_run n k tab strs name :
  Forall (λ c, c ≠ 0) name → 0 ≤ tab → 0 ≤ strs → tab + 24 * Z.of_nat (k + n) ≤ Z.of_nat (length file) →
  let syms := (λ k, (le 4 (tab + 24 * Z.of_nat k) file, le 8 (tab + 24 * Z.of_nat k + 8) file)) <$> seq k n in
  Forall (λ x, strs + x.1 < Z.of_nat (length file)) syms →
  iterate_symbol_table_impl name (a + (tab + 24 * Z.of_nat k)) (a + strs) n m =
    (Ret (default 0 (snd <$> List.find (λ x, bool_decide (name = string_at file (strs + x.1))) syms)), m).
Proof.
  intros Hn Ht Hs. revert k. induction n as [|n IH]; intros k Hk syms Hsyms; [done|]. subst syms.
  cbn [iterate_symbol_table_impl seq fmap list_fmap List.find] in *. inversion_clear Hsyms as [|? ? Hx Hsyms']. cbn [fst] in *.
  set (o := tab + 24 * Z.of_nat k) in *. pose proof (le_range 4 o file Hb). unfold st_name, st_value, SIZEOF_SYM. read.
  rewrite (wrap_small 64 (a + strs + _)) by lia. rewrite <- Z.add_assoc.
  erewrite CM_bind_Ret; [|apply strcmp_file; [done|done|lia|done]].
  case_bool_decide as E.
  - rewrite (wrap_small 64) by lia. by apply load_file; [|lia..].
  - rewrite (wrap_small 64) by lia. replace (a + (o + 24)) with (a + (tab + 24 * Z.of_nat (S k))) by lia. by apply IH; [lia|].
Qed.

Lemma iterate_table_run t u sh name :
  Forall (λ c, c ≠ 0) name → Z.of_nat (length file) < 2 ^ 31 → header_at sh t →
  (∀ x, t = Some x → in_file file x ∧ 0 ≤ s_offset x ∧ 0 ≤ s_size x) → placed u →
  (∀ x y, t = Some x → u = Some y → Forall (λ e, s_offset y + e.1 < Z.of_nat (length file)) (entries_of file x)) →
  iterate_table name (pointer a t) (pointer a u) sh m = (Ret (value_in file t u name), m).
Proof.
  intros Hn Hlen Hsh Ht Hu Hsyms. unfold iterate_table, value_in.
  assert (Hpt : placed t) by (intros x E; by destruct (Ht x E) as (_ & ? & _)). rewrite !truthy_pointer by done.
  destruct t as [t|]; [|done]. destruct u as [u|]; [|done].
  change (bool_decide (is_Some (Some t)) && bool_decide (is_Some (Some u))) with true. cbv iota.
  destruct (Ht t eq_refl) as (Hin & Ho & Hsz). unfold in_file in Hin. destruct Hsh as (i & -> & Hi1 & Hi2 & Hi3). unfold SIZEOF_SHDR in Hi2.
  unfold sh_size. rewrite (wrap_small 64 (a + i + 32)) by lia. read. change (le 8 (i + 32) file) with (s_size (shdr_at i file)).
  rewrite Hi3. unfold SIZEOF_SYM. rewrite sint_small by (Z.to_euclidean_division_equations; lia).
  pose proof (iterate_run (Z.to_nat (s_size t / 24)) 0 (s_offset t) (s_offset u) name Hn Ho (Hu u eq_refl)) as H.
  rewrite Z.add_0_r in H. apply H; [Z.to_euclidean_division_equations; lia|]. by apply (Hsyms t u).
Qed.

Lemma of_type_in t l x : last (of_type t l) = Some x → x ∈ l ∧ s_type x = t.
Proof.
  intros H. apply last_Some in H as [l' H]. assert (Hx : x ∈ of_type t l) by (rewrite H, elem_of_app; right; by left).
  revert Hx. unfold of_type. rewrite list_elem_of_In, filter_In, list_elem_of_In, Z.eqb_eq. done.
Qed.

Lemma named_in nm l x names : last (List.filter (named file names nm) l) = Some x → x ∈ l ∧ s_type x = SHT_STRTAB.
Proof.
  intros H. apply last_Some in H as [l' H]. assert (Hx : x ∈ List.filter (named file names nm) l) by (rewrite H, elem_of_app; right; by left).
  revert Hx. rewrite !list_elem_of_In, filter_In. unfold named. intros [? [? _]%andb_true_iff]. split; [done|by apply Z.eqb_eq].
Qed.

(** *** The two passes of the resolver over a file *)

Context (Hf : resolvable file) (Hbase : a ⊖ link_base file ≠ 0).

Lemma elf_ctx_init_run :
  ∃ ctx, elf_ctx_init elf_ctx_zero a m = (Ret ctx, m) ∧
    ctx_tables ctx a (a ⊖ link_base file) (last_of_type file SHT_SYMTAB) (last_named file ".strtab")
      (last_of_type file SHT_DYNSYM) (last_named file ".dynstr").
Proof.
  destruct Hf as [Hsize _ _ Hph Hsh Hidx Hstr [x Hload] Hphdr Hnames Htabs _]. unfold SIZEOF_PHDR, SIZEOF_SHDR in *.
  pose proof (le8_range 32 file Hb). pose proof (le8_range 40 file Hb).
  pose proof (le_range 2 56 file Hb) as H56. pose proof (le_range 2 60 file Hb) as H60. pose proof (le_range 2 62 file Hb) as H62.
  change (2 ^ (8 * Z.of_nat 2)) with 65536 in *.
  unfold elf_ctx_init, e_phoff, e_phnum, e_shoff, e_shstrndx, e_shnum, sh_offset, SIZEOF_SHDR.
  read. read. rewrite !(wrap_small 64 (a + le 8 32 file)) by lia.
  erewrite CM_bind_Ret; [|apply ctx_phdr_loop_run; unfold SIZEOF_PHDR; rewrite ?Z2Nat.id; lia].
  fold (program_headers file). change (load_bias (set_header a elf_ctx_zero)) with 0.
  rewrite (bias_of_headers _ (link_base file)); [|done| |].
  2: { eapply Forall_impl; [exact Hphdr|]. intros y Hy Ht. rewrite <- (Hy Ht), wrap_sub_r. f_equal. lia. }
  2: { exists x. split; [done|]. unfold link_base. by rewrite Hload. }
  rewrite !(wrap_small 64 (a + 40)), !(wrap_small 64 (a + 62)), !(wrap_small 64 (a + 60)) by lia. read. read.
  rewrite (wrap_small 64 (a + le 8 40 file)), (wrap_small 64 (a + le 8 40 file + _)), (wrap_small 64 (a + le 8 40 file + _ + 24)) by lia.
  read. read.
  pose proof (le8_range (le 8 40 file + (64 * le 2 62 file + 24)) file Hb) as H24.
  assert (E : le 8 (le 8 40 file + (64 * le 2 62 file + 24)) file = section_names file)
    by (unfold section_names, SIZEOF_SHDR; cbn [s_offset shdr_at]; f_equal; lia).
  rewrite E in *. rewrite (wrap_small 64 (a + section_names file)) by lia.
  destruct (ctx_section_loop_run (Z.to_nat (le 2 60 file)) (le 8 40 file) (section_names file)
    (set_load_bias (a ⊖ link_base file) (set_header a elf_ctx_zero)) a (a ⊖ link_base file) None None None None)
    as (ctx & Hrun & Hctx); [lia|unfold SIZEOF_SHDR; rewrite Z2Nat.id; lia|lia|done| |by split|].
  { eapply Forall_impl; [exact Htabs|]. intros y Hy Ht. by destruct (Hy Ht). }
  exists ctx. split; [exact Hrun|]. fold (section_headers file) in Hctx. by rewrite !newest_None in Hctx.
Qed.

Lemma elf_ctx_iterate_run ctx hdr bias name :
  Forall (λ c, c ≠ 0) name →
  ctx_tables ctx hdr bias (last_of_type file SHT_SYMTAB) (last_named file ".strtab")
    (last_of_type file SHT_DYNSYM) (last_named file ".dynstr") →
  elf_ctx_iterate_symbol_table ctx name m = (Ret (symbol_value file name), m).
Proof.
  intros Hn [_ _ E1 E2 E3 E4 Hs Hd]. destruct Hf as [Hsize _ _ _ _ _ _ _ _ _ Htabs Hsyms].
  pose proof (shdrs_range (Z.to_nat (le 2 60 file)) (le 8 40 file) SIZEOF_SHDR file Hb) as Hr. fold (section_headers file) in Hr.
  rewrite Forall_forall in Hr, Htabs.
  assert (Hpl : ∀ nm, placed (last_named file nm)).
  { intros nm y Hy. apply named_in in Hy as [Hy _]. by destruct (Hr y Hy). }
  assert (Hin : ∀ t, t = SHT_SYMTAB ∨ t = SHT_DYNSYM → ∀ x, last_of_type file t = Some x → in_file file x ∧ 0 ≤ s_offset x ∧ 0 ≤ s_size x).
  { intros t Ht x Hx. apply of_type_in in Hx as [Hx Et]. split; [|by apply Hr]. apply Htabs; [done|]. unfold is_table. rewrite Et. intuition. }
  unfold elf_ctx_iterate_symbol_table, symbol_value. rewrite E1, E2, E3, E4.
  rewrite (CM_bind_Ret _ _ m (value_in file (last_of_type file SHT_SYMTAB) (last_named file ".strtab") name) m).
  2: { apply iterate_table_run; [done|lia|done|by apply Hin; left|done|]. intros x y Ex Ey. eapply Hsyms; [by left|done..]. }
  destruct (truthy _); [done|]. apply iterate_table_run; [done|lia|done|by apply Hin; right|done|].
  intros x y Ex Ey. eapply Hsyms; [right; by left|done..].
Qed.

End file.

(** ** The process *)

(** The kernel: a mapping that is given back leaves the process as it was, and
    the maps show what is mapped. *)
Class MapsLaws (K : Kernel) (files : Files) (f_bytes : Z → list Z) : Prop := {
  maps_files :: FilesLaws files f_bytes;
  f_munmap_undoes m len fd a m' :
    f_mmap m len fd = (Some a, m') → 0 < len → len = Z.of_nat (length (f_bytes fd)) → same m (f_munmap m' a len);
  k_maps_same m m' : same m m' → k_maps m' = k_maps m
}.

Section process.
Context {K : Kernel} {files : Files} {f_bytes : Z → list Z} {laws : MapsLaws K files f_bytes}.

(** What opening a path gives: a file that can be mapped, elsewhere than where
    it is linked to, or nothing. *)
Definition opens (m : memory) (p : list Z) (o : option (list Z)) : Prop :=
  match o with
  | None => (f_open 0 p m).1 < 0
  | Some file => ∃ fd errno a m', f_open 0 p m = (fd, errno) ∧ 0 ≤ fd ∧ f_bytes fd = file ∧
      f_size fd m = Some (Z.of_nat (length file)) ∧ f_mmap m (Z.of_nat (length file)) fd = (Some a, m') ∧
      a ≠ link_base file
  end.

(** The module's file, as long as the process stays as it is. *)
Record module_file (m : memory) (md : RuntimeModule) (o : option (list Z)) : Prop := {
  mf_path : (length (path md) < SIZEOF_PATH)%nat;
  mf_opens m' : same m m' → opens m' (path md) o;
  mf_good file : o = Some file → resolvable file
}.

(** The address of a symbol of a module. *)
Definition module_address (file_of : list Z → option (list Z)) (name : list Z) (md : RuntimeModule) : Z :=
  if truthy (load_address md) then
    match file_of (path md) with Some file => address_in file (load_address md) name | None => 0 end
  else 0.

Lemma resolve_in_module_run m m1 mds md file_of name :
  same m m1 → module_file m md (file_of (path md)) → Forall (λ c, c ≠ 0) name →
  ∃ m2, same m m2 ∧
    resolve_in_module md name (mkResolver m1 mds) = (Ret (module_address file_of name md), mkResolver m2 mds).
Proof.
  intros Hs [Hp Ho Hg] Hn. unfold resolve_in_module, module_address.
  destruct (truthy (load_address md)) eqn:Hload; [|exists m1; split; [done|]; by rewrite CM_left_id].
  unfold module_path_str. rewrite (proj2 (Nat.ltb_lt _ _) Hp).
  rewrite CM_assoc, (CM_bind_Ret (lift_outcome (Ret (path md))) _ _ (path md) (mkResolver m1 mds)) by done.
  specialize (Ho m1 Hs). unfold opens in Ho.
  destruct (file_of (path md)) as [file|].
  - destruct Ho as (fd & errno & a & m2 & Hopen & Hfd & Hbytes & Hsize & Hmmap & Hne). specialize (Hg file eq_refl).
    pose proof Hg as [Hlen Hb Hl _ _ _ _ _ _ _ _ _].
    destruct (f_mmap_maps m1 (Z.of_nat (length file)) fd a m2 Hmmap ltac:(lia) ltac:(by rewrite Hbytes)) as (Ha & Hmax & Hmap & _).
    rewrite Hbytes in Hmap.
    assert (Hnz : a ⊖ link_base file ≠ 0).
    { intros E. apply Hne. assert (Hlb : 0 ≤ link_base file < 2 ^ 64).
      { unfold link_base. destruct (List.find _ _); [by apply wrap_range|by split]. }
      unfold wrap in E. apply Z.mod_divide in E as [q E]; [|done]. assert (q = 0) by nia. lia. }
    destruct (elf_ctx_init_run m2 a file Hmap Ha Hmax Hb Hl Hg Hnz) as (ctx & Hinit & Hctx).
    exists (f_munmap m2 a (Z.of_nat (length file))). split; [transitivity m1; [done|by eapply f_munmap_undoes; [|lia|by rewrite Hbytes]]|].
    assert (Hfm : file_mmap (path md) m1 = (Ret (a, Z.of_nat (length file)), m2)).
    { unfold file_mmap. rewrite CM_bind_gets, Hopen, (proj2 (Z.ltb_ge fd 0)) by done. rewrite CM_bind_gets, Hsize, CM_bind_get, Hmmap, CM_bind_put. done. }
    rewrite (CM_bind_Ret _ _ _ _ _ (on_mem_run _ m1 mds _ _ Hfm)).
    assert (Hta : truthy a = true) by (unfold truthy; by rewrite (proj2 (Z.eqb_neq a 0)) by lia). rewrite Hta.
    rewrite CM_assoc, (on_mem_Ret _ _ m2 mds ctx m2 Hinit).
    rewrite CM_assoc, (on_mem_Ret _ _ m2 mds _ m2 (elf_ctx_iterate_run m2 a file Hmap Ha Hmax Hb Hl Hg ctx a _ name Hn Hctx)).
    rewrite CM_left_id. cbn [when]. rewrite (on_mem_Ret (file_unmap a (Z.of_nat (length file))) _ m2 mds tt (f_munmap m2 a (Z.of_nat (length file)))) by done.
    unfold address_in. rewrite (ct_bias _ _ _ _ _ _ _ _ _ Hctx).
    destruct (truthy (symbol_value file name)) eqn:Hv; unfold mret, CM_ret; do 2 f_equal; [|by apply truthy_false].
    rewrite wrap_sub_r, !wrap_sub_l, Z.sub_sub_distr, wrap_add_r. f_equal. lia.
  - exists m1. split; [done|].
    assert (Hfm : file_mmap (path md) m1 = (Ret (0, 0), m1)).
    { unfold file_mmap. rewrite CM_bind_gets. destruct (f_open 0 (path md) m1) as [fd errno]. by rewrite (proj2 (Z.ltb_lt fd 0) Ho). }
    rewrite (CM_bind_Ret _ _ _ _ _ (on_mem_run _ m1 mds _ _ Hfm)). done.
Qed.

(** *** The list of modules *)

(** A program that appends to the list, and finds the same to append whenever
    the process is the same. *)
Definition appends {A} (c : RM A) : Prop := ∀ m, ∃ r news, ∀ m' mds, same m m' →
  c (mkResolver m' mds) = (r, mkResolver m' (mds ++ news)).

Lemma appends_nothing {A} (c : RM A) (f : memory → outcome A) :
  (∀ m mds, c (mkResolver m mds) = (f m, mkResolver m mds)) → (∀ m m', same m m' → f m' = f m) → appends c.
Proof. intros Hc Hf m. exists (f m), []. intros m' mds Hm. by rewrite Hc, app_nil_r, (Hf m m' Hm). Qed.

Lemma appends_mret {A} (a : A) : appends (mret a).
Proof. by apply (appends_nothing _ (λ _, Ret a)). Qed.
Lemma appends_fail {A} e : appends (fail e : RM A).
Proof. by apply (appends_nothing _ (λ _, Err e)). Qed.
Lemma appends_load n a : appends (on_mem (load n a)).
Proof.
  apply (appends_nothing _ (λ m, (load n a m).1)).
  - intros m mds. unfold on_mem. cbn. unfold load. by destruct (allows _ _ _ _).
  - intros m m' Hm. by rewrite (proj1 (load_same m m' n a Hm)).
Qed.
Lemma appends_push_back md : appends (push_back md).
Proof. intros m. by exists (Ret tt), [md]. Qed.
Lemma appends_bind {A B} (c : RM A) (f : A → RM B) : appends c → (∀ a, appends (f a)) → appends (c ≫= f).
Proof.
  intros Hc Hf m. destruct (Hc m) as ([a|e] & news & H).
  - destruct (Hf a m) as (r & news' & H'). exists r, (news ++ news'). intros m' mds Hm.
    by rewrite (CM_bind_Ret _ _ _ _ _ (H m' mds Hm)), (H' m' _ Hm), app_assoc.
  - exists (Err e), news. intros m' mds Hm. by rewrite (CM_bind_Err _ _ _ _ _ (H m' mds Hm)).
Qed.

Lemma appends_add_module line_buffer start permissions path_buffer : appends (add_module line_buffer start permissions path_buffer).
Proof.
  unfold add_module. destruct (_ && _); [apply appends_mret|]. apply appends_bind; [apply appends_load|]. intros magic.
  destruct (negb _); [apply appends_mret|]. destruct path_buffer as [|c l]; [apply appends_mret|].
  destruct (_ || _); [apply appends_mret|]. apply appends_bind; [apply appends_push_back|]. intros _. apply appends_mret.
Qed.

Lemma appends_module_loop fuel text eof stale : appends (module_loop fuel text eof stale).
Proof.
  revert text eof stale. induction fuel as [|fuel IH]; intros text eof stale; cbn [module_loop].
  { destruct eof; [apply appends_mret|apply appends_fail]. }
  destruct eof; [apply appends_mret|]. destruct (fgets (LINE_MAX - 1) text) as [line rest].
  destruct (if (length _ =? LINE_MAX)%nat then skip_line rest else Some rest) as [rest'|]; [|apply appends_mret].
  destruct (sscanf_module_line _) as [[[start permissions] path_buffer]|]; [|apply appends_fail].
  apply appends_bind; [apply appends_add_module|]. intros line_buffer. apply IH.
Qed.

(** A call from a fresh start says what every later call appends. *)
Lemma GetProcessModuleMap_appends m news :
  GetProcessModuleMap (mkResolver m []) = (Ret news, mkResolver m news) →
  ∀ m' mds, same m m' → GetProcessModuleMap (mkResolver m' mds) = (Ret (mds ++ news), mkResolver m' (mds ++ news)).
Proof.
  intros H m' mds Hm. unfold GetProcessModuleMap in *. rewrite CM_bind_gets in *. cbn [r_mem] in *. rewrite (k_maps_same m m' Hm).
  destruct (k_maps m) as [text|]; [|injection H as <- _; by rewrite app_nil_r].
  destruct (appends_module_loop (S (S (length text))) text false [] m) as ([[]|e] & new & Hrun).
  - rewrite (CM_bind_Ret _ _ _ _ _ (Hrun m [] (reflexivity m))) in H. injection H as E. cbn in E. subst new.
    rewrite (CM_bind_Ret _ _ _ _ _ (Hrun m' mds Hm)). done.
  - by rewrite (CM_bind_Err _ _ _ _ _ (Hrun m [] (reflexivity m))) in H.
Qed.

Lemma find_named_run name mds :
  Forall (λ md, (length (path md) < SIZEOF_PATH)%nat) mds →
  find_named name mds = Ret (default RuntimeModule_null (List.find (λ md, strstr (path md) name) mds)).
Proof.
  induction 1 as [|md mds Hmd Hmds IH]; [done|]. cbn [find_named List.find]. unfold module_path_str.
  rewrite (proj2 (Nat.ltb_lt _ _) Hmd). cbn [obind]. by destruct (strstr _ _).
Qed.

(** *** DobbySymbolResolver *)

(** The first of the modules that has the symbol. *)
Definition first_address (file_of : list Z → option (list Z)) (name : list Z) (mds : list RuntimeModule) : Z :=
  default 0 (List.find truthy (module_address file_of name <$> mds)).

(** The image that is asked for, if its first module has the symbol, and
    otherwise any. *)
Definition resolution (file_of : list Z → option (list Z)) (mds : list RuntimeModule) (image : option (list Z)) (name : list Z) : Z :=
  let r := match image with
           | Some i => from_option (module_address file_of name) 0 (List.find (λ md, strstr (path md) i) mds)
           | None => 0
           end in
  if truthy r then r else first_address file_of name mds.

Lemma resolve_loop_run m m1 mds mds' file_of name :
  same m m1 → Forall (λ md, module_file m md (file_of (path md))) mds → Forall (λ c, c ≠ 0) name →
  ∃ m2, same m m2 ∧ resolve_loop mds name (mkResolver m1 mds') = (Ret (first_address file_of name mds), mkResolver m2 mds').
Proof.
  intros Hm Hmds Hn. revert m1 Hm. induction Hmds as [|md mds Hmd Hmds IH]; intros m1 Hm; [by exists m1|].
  destruct (resolve_in_module_run m m1 mds' md file_of name Hm Hmd Hn) as (m2 & Hm2 & Hrun).
  cbn [resolve_loop]. rewrite (CM_bind_Ret _ _ _ _ _ Hrun). unfold first_address. cbn [fmap list_fmap List.find].
  destruct (truthy (module_address file_of name md)) eqn:E; [by exists m2|]. by apply IH.
Qed.

Lemma find_app {A} (p : A → bool) l l' :
  List.find p (l ++ l') = match List.find p l with Some x => Some x | None => List.find p l' end.
Proof. induction l as [|x l IH]; [done|]. cbn. by destruct (p x). Qed.

Lemma first_address_again file_of name old news :
  first_address file_of name ((old ++ news) ++ news) = first_address file_of name (old ++ news).
Proof. unfold first_address. rewrite !fmap_app, !find_app. repeat destruct (List.find _ _); done. Qed.

Lemma resolve_run m old news file_of image name :
  GetProcessModuleMap (mkResolver m []) = (Ret news, mkResolver m news) →
  Forall (λ md, module_file m md (file_of (path md))) (old ++ news) → Forall (λ c, c ≠ 0) name →
  ∃ m' k, same m m' ∧ resolve_elf_internal_symbol image name (mkResolver m old) =
    (Ret (resolution file_of (old ++ news) image name), mkResolver m' (old ++ mjoin (replicate k news))).
Proof.
  intros Hnews Hmds Hn. pose proof (GetProcessModuleMap_appends m news Hnews) as Hget.
  unfold resolve_elf_internal_symbol, resolution. destruct image as [i|].
  - assert (Hfind : GetProcessModule i (mkResolver m old) =
      (Ret (default RuntimeModule_null (List.find (λ md, strstr (path md) i) (old ++ news))), mkResolver m (old ++ news))).
    { unfold GetProcessModule. rewrite (CM_bind_Ret _ _ _ _ _ (Hget m old (reflexivity m))), find_named_run; [done|].
      eapply Forall_impl; [exact Hmds|]. by intros md [? _ _]. }
    rewrite CM_assoc, (CM_bind_Ret _ _ _ _ _ Hfind). set (o := List.find _ (old ++ news)).
    assert (Hin : ∃ m2, same m m2 ∧ resolve_in_module (default RuntimeModule_null o) name (mkResolver m (old ++ news)) =
      (Ret (from_option (module_address file_of name) 0 o), mkResolver m2 (old ++ news))).
    { destruct o as [md|] eqn:E; [|by exists m]. apply resolve_in_module_run; [done| |done].
      rewrite Forall_forall in Hmds. apply Hmds. rewrite list_elem_of_In. by eapply find_some. }
    destruct Hin as (m2 & Hm2 & Hrun). rewrite (CM_bind_Ret _ _ _ _ _ Hrun).
    destruct (truthy _); [exists m2, 1%nat; cbn; by rewrite app_nil_r|].
    rewrite (CM_bind_Ret _ _ _ _ _ (Hget m2 (old ++ news) Hm2)).
    destruct (resolve_loop_run m m2 ((old ++ news) ++ news) ((old ++ news) ++ news) file_of name Hm2) as (m3 & Hm3 & Hrun3); [|done|].
    { apply Forall_app in Hmds as [? ?]. by rewrite !Forall_app. }
    exists m3, 2%nat. split; [done|]. rewrite Hrun3, first_address_again. cbn. by rewrite app_nil_r, <- app_assoc.
  - rewrite CM_left_id. cbn [truthy negb Z.eqb]. rewrite (CM_bind_Ret _ _ _ _ _ (Hget m old (reflexivity m))).
    destruct (resolve_loop_run m m (old ++ news) (old ++ news) file_of name (reflexivity m) Hmds Hn) as (m3 & Hm3 & Hrun3).
    exists m3, 1%nat. split; [done|]. rewrite Hrun3. cbn. by rewrite app_nil_r.
Qed.

Context {linker : Linker}.

(** C18: if the files of the modules are well-formed or cannot be opened,
    DobbySymbolResolver returns what the dynamic linker says, or else the
    address of the symbol in the first module of the image, or else in the first
    module that has it, or null; files are mapped only while it looks, and the
    list of modules grows by the modules of the maps at every look. *)
Theorem DobbySymbolResolver_resolves m old news file_of image name :
  GetProcessModuleMap (mkResolver m []) = (Ret news, mkResolver m news) →
  Forall (λ md, module_file m md (file_of (path md))) (old ++ news) → Forall (λ c, c ≠ 0) name →
  ∃ m' k, same m m' ∧ DobbySymbolResolver image name (mkResolver m old) =
    (Ret (let a := dlsym_default m name in if truthy a then a else resolution file_of (old ++ news) image name),
     mkResolver m' (old ++ mjoin (replicate k news))).
Proof.
  intros Hnews Hmds Hn. unfold DobbySymbolResolver. rewrite CM_bind_gets. cbn [r_mem].
  destruct (truthy (dlsym_default m name)); [|by apply resolve_run].
  exists m, 0%nat. split; [done|]. cbn. by rewrite app_nil_r.
Qed.

End process.

(** ** A concrete process

    One module, a library linked at 0x10000 and loaded at 0x70000000; the symbol
    "hidden" is in its full table only, "open" is defined in the dynamic table
    and undefined in the full one. *)

Definition res_lib : list Z :=
  pad 64 (lebytes 4 ELFMAG ++ replicate 28 0 ++ lebytes 8 64 ++ lebytes 8 328 ++ lebytes 4 0 ++ lebytes 2 64 ++ lebytes 2 56 ++
          lebytes 2 2 ++ lebytes 2 64 ++ lebytes 2 6 ++ lebytes 2 5) ++
  pad 56 (lebytes 4 PT_PHDR ++ lebytes 4 0 ++ lebytes 8 64 ++ lebytes 8 0x10040) ++
  pad 56 (lebytes 4 PT_LOAD ++ lebytes 4 0 ++ lebytes 8 0 ++ lebytes 8 0x10000) ++
  sym_entry 0 0 ++ sym_entry 1 0x10010 ++
  sym_entry 0 0 ++ sym_entry 6 0x10020 ++ sym_entry 1 0 ++
  pad 32 (0 :: str "open" ++ 0 :: str "hidden" ++ 0 :: str ".dynstr" ++ 0 :: str ".strtab") ++
  sec_header 0 0 0 0 0 ++ sec_header 0 SHT_DYNSYM 0 176 48 ++ sec_header 13 SHT_STRTAB 0 296 32 ++
  sec_header 0 SHT_SYMTAB 0 224 72 ++ sec_header 21 SHT_STRTAB 0 296 32 ++ sec_header 0 SHT_STRTAB 0 296 32.

Lemma res_length : length res_lib = 712%nat.
Proof. vm_compute. reflexivity. Qed.

Lemma res_range : Forall (λ b, 0 ≤ b < 256) res_lib.
Proof. apply (bool_decide_unpack _). vm_compute. exact I. Qed.

Lemma res_resolvable : resolvable res_lib.
Proof.
  split; rewrite ?res_length.
  - done.
  - exact res_range.
  - vm_compute. reflexivity.
  - vm_compute. discriminate.
  - vm_compute. discriminate.
  - vm_compute. reflexivity.
  - vm_compute. reflexivity.
  - eexists. vm_compute. reflexivity.
  - apply (bool_decide_unpack _). vm_compute. exact I.
  - apply (bool_decide_unpack _). vm_compute. exact I.
  - apply Forall_forall. intros x Hx _. unfold in_file. rewrite res_length. revert x Hx. apply Forall_forall.
    apply (bool_decide_unpack _). vm_compute. exact I.
  - intros tab strs Hp t s Ht Hs. repeat apply elem_of_cons in Hp as [Hp|Hp]; [| |by apply not_elem_of_nil in Hp];
      injection Hp as -> ->; vm_compute in Ht, Hs; injection Ht as <-; injection Hs as <-;
      apply (bool_decide_unpack _); vm_compute; exact I.
Qed.

(** The first page of the module, with its magic number. *)
Definition loaded : memory := Memory (put_bytes 0x70000000 (lebytes 4 ELFMAG) ∅) {[0x70000 := PROT_READ .| PROT_EXEC]} [].
Definition lib_module : RuntimeModule := mkRuntimeModule lib_path 0x70000000.
Definition res_file_of (p : list Z) : option (list Z) := if bool_decide (p = lib_path) then Some res_lib else None.
#[local] Instance no_linker : Linker := {| dlsym_default _ _ := 0 |}.

Lemma foldr_delete_range s l (pm : gmap Z Z) k :
  foldr (λ i pm, delete (s + Z.of_nat i) pm) pm l !! k =
    if decide (k - s ∈ Z.of_nat <$> l) then None else pm !! k.
Proof.
  induction l as [|i l IH]; [done|]. cbn [foldr]. destruct (decide (k = s + Z.of_nat i)) as [->|Hne].
  { rewrite lookup_delete_eq, decide_True; [done|]. rewrite fmap_cons. replace (s + Z.of_nat i - s) with (Z.of_nat i) by lia. by left. }
  rewrite lookup_delete_ne, IH by done. apply decide_ext. rewrite fmap_cons, elem_of_cons. split; [by right|]. intros [?|?]; [lia|done].
Qed.

(** The sample system keeps what is asked of it. *)
Lemma sample_maps_laws path bytes maps :
  Forall (λ b, 0 ≤ b < 256) bytes → MapsLaws (granting_kernel maps) (sample_files path bytes) (sample_bytes bytes).
Proof.
  intros Hb. pose proof (sample_files_laws path bytes Hb) as Hlaws. split; [done| |done].
  intros m len fd a m' Hmap Hlen Hl. split.
  { by apply (@f_mmap_maps _ _ Hlaws m len fd a m' Hmap Hlen Hl). }
  cbn [f_mmap f_munmap sample_files] in *. unfold sample_bytes in Hl. destruct (fd =? 3); [|done]. unfold map_file in Hmap.
  destruct (Z.ltb_spec (top_page m * PAGE_SIZE + Z.of_nat (length bytes)) (2 ^ 48)); [|done]. injection Hmap as <- <-. subst len.
  set (a := top_page m * PAGE_SIZE) in *. set (n := Z.of_nat (length bytes)) in *.
  assert (Ha : a / PAGE_SIZE = top_page m) by (unfold a, PAGE_SIZE; by rewrite Z.div_mul).
  intros b Hmapped. unfold unmap in *. cbn [m_prot m_data] in *. rewrite foldr_delete_range in *. unfold set_prot in *. cbn [m_prot] in *.
  rewrite foldr_insert_lookup in *. case_decide as Hin; [by destruct Hmapped|]. split; [done|].
  rewrite put_bytes_lookup, decide_False; [done|]. fold n. intros Hrange. apply Hin. rewrite list_elem_of_fmap.
  exists (Z.to_nat (b / PAGE_SIZE - a / PAGE_SIZE)). rewrite elem_of_seq. unfold pages, PAGE_SIZE in *. clear Hin.
  Z.to_euclidean_division_equations; lia.
Qed.

Lemma loaded_top m : same loaded m → map_file m res_lib = (Some 0x70001000, (map_file m res_lib).2).
Proof.
  intros Hm. apply same_prot in Hm. assert (E : top_page m = 0x70001) by (unfold top_page; rewrite <- Hm; vm_compute; reflexivity).
  unfold map_file. rewrite E, res_length. reflexivity.
Qed.

Lemma lib_module_file :
  let files := sample_files lib_path res_lib in
  module_file (f_bytes := sample_bytes res_lib) loaded lib_module (res_file_of (path lib_module)).
Proof.
  intros files. split.
  - vm_compute. lia.
  - intros m Hm. unfold res_file_of. rewrite bool_decide_true by done. exists 3, 0, 0x70001000, (map_file m res_lib).2.
    split_and!; [done|done|done| |by apply loaded_top|done]. cbn. done.
  - intros file. unfold res_file_of. rewrite bool_decide_true by done. intros [= <-]. exact res_resolvable.
Qed.

Definition module_line : list Z := line_of "70000000-70002000 r-xp 00000000 fd:00 7                                  /data/libx.so".

(** The last line is seen twice, as the end of the file shows only when it is
    read past. *)
Lemma loaded_modules :
  let K := granting_kernel (Some module_line) in
  GetProcessModuleMap (mkResolver loaded []) = (Ret [lib_module; lib_module], mkResolver loaded [lib_module; lib_module]).
Proof. vm_compute. reflexivity. Qed.

Lemma DobbySymbolResolver_resolves_witness :
  let K := granting_kernel (Some module_line) in let files := sample_files lib_path res_lib in
  ((λ name, resolution res_file_of [lib_module; lib_module] (Some (str "libx.so")) (str name)) <$> ["hidden"; "open"; "read"]%string) =
    [0x70000020; 0x70000010; 0] ∧
  ∀ name, Forall (λ c, c ≠ 0) name → ∃ m' k, same loaded m' ∧
    DobbySymbolResolver (Some (str "libx.so")) name (mkResolver loaded []) =
      (Ret (resolution res_file_of [lib_module; lib_module] (Some (str "libx.so")) name),
       mkResolver m' (mjoin (replicate k [lib_module; lib_module]))).
Proof.
  intros K files. split; [vm_compute; reflexivity|]. intros name Hname.
  pose proof (sample_maps_laws lib_path res_lib (Some module_line) res_range) as laws.
  exact (DobbySymbolResolver_resolves (K := K) (files := files) (laws := laws) loaded [] [lib_module; lib_module] res_file_of
    (Some (str "libx.so")) name loaded_modules
    (Forall_cons_2 _ _ _ lib_module_file (Forall_cons_2 _ _ _ lib_module_file (Forall_nil_2 _))) Hname).
Defined.

(** *** What goes wrong

    The list is never emptied and its first match is taken, so a module that has
    been seen hides the one of the same name that is loaded now. *)
Lemma GetProcessModule_stale {K : Kernel} name m mds md r s' :
  GetProcessModule name (mkResolver m mds) = (Ret r, s') →
  Forall (λ md, (length (path md) < SIZEOF_PATH)%nat) mds → List.find (λ md, strstr (path md) name) mds = Some md →
  r = md.
Proof.
  unfold GetProcessModule. intros (l & s1 & Hget & Hr)%CM_bind_inv Hmds Hfind.
  assert (Hl : ∃ news, l = mds ++ news).
  { unfold GetProcessModuleMap in Hget. rewrite CM_bind_gets in Hget. cbn [r_mem] in Hget.
    destruct (k_maps m) as [text|]; [|injection Hget as <- _; exists []; by rewrite app_nil_r].
    destruct (appends_module_loop (S (S (length text))) text false [] m) as (rl & news & Hrun). specialize (Hrun m mds (reflexivity m)).
    apply CM_bind_inv in Hget as ([] & s2 & H1 & H2). rewrite Hrun in H1. injection H1 as -> <-. injection H2 as <- _. by exists news. }
  destruct Hl as [news ->]. injection Hr as Hr _. clear Hget. revert Hfind Hr. induction Hmds as [|x mds Hx Hmds IH]; [done|].
  cbn [List.find app find_named]. unfold module_path_str. rewrite (proj2 (Nat.ltb_lt _ _) Hx). cbn [obind].
  destruct (strstr (path x) name); [congruence|]. exact IH.
Qed.

(** The library was at 0x60000000 before, and is at 0x70000000 now. *)
Lemma stale_module_resolved :
  let K := granting_kernel (Some module_line) in let files := sample_files lib_path res_lib in
  fst (DobbySymbolResolver (Some (str "libx.so")) (str "hidden") (mkResolver loaded [mkRuntimeModule lib_path 0x60000000])) =
    Ret 0x60000020.
Proof. vm_compute. reflexivity. Qed.

(** A file that can be opened and not mapped ends the process. *)
Lemma mmap_failure_crashes {files : Files} md m mds fd errno size m' name :
  load_address md ≠ 0 → (length (path md) < SIZEOF_PATH)%nat →
  f_open 0 (path md) m = (fd, errno) → 0 ≤ fd → f_size fd m = Some size → f_mmap m size fd = (None, m') →
  (∀ k, 2 ^ 52 ≤ k → m_prot m' !! k = None) →
  resolve_in_module md name (mkResolver m mds) = (Err Segv, mkResolver m' mds).
Proof.
  intros Hload Hp Hopen Hfd Hsize Hmmap Hprot. unfold resolve_in_module, module_path_str.
  rewrite (proj2 (truthy_true _) Hload), (proj2 (Nat.ltb_lt _ _) Hp).
  rewrite CM_assoc, (CM_bind_Ret (lift_outcome (Ret (path md))) _ _ (path md) (mkResolver m mds)) by done.
  assert (Hfm : file_mmap (path md) m = (Ret (MAP_FAILED, size), m')).
  { unfold file_mmap. rewrite CM_bind_gets, Hopen, (proj2 (Z.ltb_ge fd 0)) by done. by rewrite CM_bind_gets, Hsize, CM_bind_get, Hmmap, CM_bind_put. }
  rewrite (CM_bind_Ret _ _ _ _ _ (on_mem_run _ m mds _ _ Hfm)). change (truthy MAP_FAILED) with true. cbv iota.
  apply CM_bind_Err. apply CM_bind_Err. apply on_mem_run. unfold elf_ctx_init, e_phoff. apply CM_bind_Err.
  unfold load. cbn [allows]. unfold byte_allows at 1, prot_at. by rewrite Hprot by (vm_compute; discriminate).
Qed.
